(* ===== verification/_CoqProject ===== *)
-Q . S2P
Prelude.v
Order.v
Prog.v
Kdebug.v
Parser.v
OffCpu.v
Sink.v
BTree.v
JitImages.v
Text.v
PerfMap.v
Jitdump.v
Elf.v
Dwarf.v
Perf.v
Proc.v
LinuxSession.v
LinuxRecording.v
Classify.v
StackTree.v
Aggregator.v
Aggregate.v
Demangle.v
KernelSymbols.v
Binaries.v
Symbols.v
Flame.v
Top.v
KernelSlide.v
ImageScan.v
Pipeline.v
Observability.v
Contracts.v
Timeline.v
Views.v
Neighbors.v
Annotate.v
Cfg.v
EvalGraph.v
Lanes.v
Archive.v
Server.v
Recorder.v
TargetIngest.v
Spans.v
Sessions.v
Locks.v
Latch.v
