(* ===== verification/Prelude.v ===== *)
(** * stax: a verification library for the live profiler

    stax samples a running process, accounts where each thread's time goes and
    shows it live.  This library models the core of its Rust implementation as
    executable definitions and proves what makes each part correct.  Paths are
    relative to [src/].

    ** The parts and how they meet

    A capture back end produces events.  On macOS the kernel writes kdebug
    records ([Kdebug], [stax-mac-kperf-sys/src/kdebug.rs]); the client pipeline
    ([Pipeline], [stax-mac-kperf-parse/src/pipeline.rs]) feeds each batch to the
    sample parser ([Parser], [parser.rs]) and to the CPU interval tracker
    ([OffCpu], [offcpu.rs]), and at each tick runs the image scanner
    ([ImageScan], [image_scan.rs]), the thread-name scan ([ThreadNames] in
    Pipeline.v, [stax-mac-capture/src/recorder.rs]) and the jitdump tailer
    ([Jitdump], [stax-mac-capture/src/jitdump_tail.rs]); kernel frames vote for
    the kernel's slide ([KernelSlide], [kernel_symbols.rs] of the same crate).
    Every event is a call of the sample sink ([Sink],
    [stax-mac-capture/src/sample_sink.rs]), and [LiveSink] (same file) is the
    bridge to the live side ([src/live_sink.rs], [src/live_only_sink.rs]).

    On Linux the kernel writes perf records into rings ([Perf], the byte level of
    [stax-linux-capture/src/session.rs] and [sys.rs]); the session
    ([LinuxSession], [session.rs]) turns them into the same calls, reading the
    process's files ([Proc], [proc.rs]), the images on disk ([Elf], [elf.rs]),
    whose unwind tables complete stacks ([Dwarf], [dwarf.rs]), and the symbols of
    JIT code: its regions ([JitImages], over the ordered map of BTree.v) and the
    perf-map tailer ([PerfMap]) of [jit.rs], and the jitdump tailer.
    [LinuxRecording] states what any recording emits.

    The live side stores and explains the events.  The event log ([Aggregator])
    and the aggregation pass ([Aggregate]) of [stax-live/src/aggregator.rs] turn
    samples and intervals into a flame tree and per-address rollups
    ([StackTree], same file); a blocked leaf is classified by [Classify]
    ([classify.rs]) through the function name a lookup gives, the class
    [SymbolLookup] of Aggregate.v; names come from the binary registry
    ([Binaries], [binaries.rs]) and the kernel symbols ([KernelSymbols],
    [kernel_symbols.rs]), which pass them through the demangler front end
    ([Demangle], [stax-demangle/src/lib.rs]).  Text.v holds the strings, UTF-8
    and numerals of the Rust standard library they use.

    The queries of the live service ([stax-live/src/lib.rs]) show them: the flame
    graph by symbol ([Flame], over the symbol keys and the string table of
    [Symbols]), the callers and callees of a function ([Neighbors]), the top list
    ([Top]), the timeline ([Timeline]), and the filter
    with the lists of threads, wakers, blocked intervals, samples and target spans
    ([Views]).  The code behind an address is shown as an annotated listing
    ([Annotate], with [highlight.rs], [disassemble.rs] and [source.rs]) and as a
    control-flow graph ([Cfg], [cfg.rs]).  Order.v holds the comparisons they sort
    by and the binary search they use.  Captures of a lazy evaluator are imported
    and queried beside the profile ([EvalGraph], [stax-eval-graph/src/lib.rs], and
    the server's registry of them, [stax-server/src/eval_graph.rs]).

    The target itself may report counters, events and contracts, which the
    signal store ([Observability] and, for its queries and the evaluation of
    contracts, [Contracts], both [stax-live/src/observability.rs]) keeps, and
    spans of its own lanes, which [TargetIngest] (over [Lanes], both
    [stax-server/src/target_ingest.rs]) turns into synthetic threads, names and
    samples.  The server ([Server], [stax-server/src/main.rs]) owns all of this:
    it starts and ends runs, keeps the stored ones, writes and reads archives
    ([Archive], [main.rs] and [stax-live-proto/src/lib.rs]) and lets the
    recording fill the current run through [Recorder]
    ([stax-server/src/recorder.rs]).  Its operations run at once: [Sessions] is the
    server under any requests, [Locks] the protocol of its locks, [Spans] what a
    batch of spans leaves behind.

    In the target itself the latch ([Latch], [stax-target/src/lib.rs]) builds the
    spans and signals, queues them for its worker thread, and the worker hands them
    to the server while that records the target.

    ** How the code is read

    A struct is a record with the source's fields, an enum an inductive type, a
    method a function from the state to the state and its results; integers are
    [Z] with the wrap-around or clamping of the source's operator written out
    below (the release profile has no overflow checks); a panic is the [Panic]
    of [outcome].  Hash maps are [gmap]s, and where the code iterates one the
    order is an argument, any permutation of the entries, so that the theorems
    hold for every order.  Ordered maps are sorted association lists (BTree.v).
    Sinks are logs of calls.  Text is a list of code points or of UTF-8 bytes as
    the source has it.  An operation on shared state is a program of
    atomic sections ([Prog.prog]), the critical sections of the server and the
    accesses to the statics of the latch: [exec] runs it alone, [Prog.step] runs the
    sections of many in any order, and Prog.v has the rely-guarantee logic of such
    pools.

    Code outside the repository is an argument: [strip_code_ptr] (a pointer
    authentication instruction), the demangler of one language, the object-file
    readers, the instruction decoders, the highlighter's grammars, the JSON
    reader, the reading of
    target memory, libproc's regions and names, the clock, the hash of the
    identifiers, the iteration order of hash maps ([MapOrder]), the locks of
    parking_lot ([Locks.LockPolicy]), tokio's channel ([Latch.Mpsc]) and what a call
    of the server answers.  No theorem assumes more of them than it
    states.

    Loops are recursion on the data; where they are not structural they have
    fuel, and enough of it: the walks of a tree (Flame.v, Neighbors.v) have its
    height; the readers of bytes (Perf.v, Jitdump.v, LinuxSession.v, the listings
    of amd64 code in Annotate.v and Cfg.v) have the length of what they read, and
    each turn consumes some ([records_fuel], [amd64_offsets_fuel]); the unwinder
    (Dwarf.v) has the code's own limit of frames; the slide vote has one turn more
    than the code's own cap of 4096 candidates, and returns [None] only where the
    code would not end, which [slide_best_supported] excludes; numerals have as
    many digits as 64 bits can fill.  Event queues are bounded at 100000 entries
    as in the source.

    ** What the theorems show

    Capture: debug identifiers decode to the fields they were built from and the
    type filter has exactly the requested bits (Kdebug.v); a sample's records
    are reassembled into that sample, emitted samples are clean and the
    statistics balance (Parser.v); intervals of a thread are chronological and
    disjoint, on-CPU totals are their sums, wakeups are attributed (OffCpu.v);
    a batch is handled as its parts say, batch boundaries change neither state
    nor samples nor wakeups, and the counters of a whole session balance
    (Pipeline.v); the sink's images are always the scanner's, and an image's
    symbols end where the next function starts (ImageScan.v); the slide chosen
    explains as many samples as any other and the printed symbol blob reads back
    (KernelSlide.v); JIT regions never overlap or move and new symbols are
    published (JitImages.v); the two tailers read back what was written and
    neither lose nor repeat anything when the file grows under them (PerfMap.v,
    Jitdump.v).

    Linux: what the kernel writes into a ring is drained and split into the same
    records (Perf.v); a sample record is published with its frames, joined to the
    walk over the copy of the stack if there is one, and its counter growth, a wait with its kernel function, stack and waker (LinuxSession.v);
    whatever the rings hold, a recording's calls are about the target's threads,
    its intervals are sound, and the summary counts them, because the session
    refines a small abstract machine (LinuxRecording.v); process mappings are
    read back (Proc.v), symbol tables are exact (Elf.v), and a walk cut short is
    completed to the whole stack (Dwarf.v).

    Analysis: each queue keeps the newest events, archives round-trip, wakers
    and nearest stacks are answered exactly (Aggregator.v); the flame tree and
    the rollups hold exactly the credited sums, and merging trees is
    aggregating together (StackTree.v); the cursor-based pass refines its
    declarative specification, conserves time in the tree and does not depend on map order
    (Aggregate.v); decorations of a symbol never change its reason and the two
    tables do not interfere (Classify.v); legacy Rust hashes are hidden
    (Demangle.v); kernel addresses resolve to the nearest function
    (KernelSymbols.v); the registry's index is never stale, lookups are exact
    where images and symbols do not overlap, and its archive round-trips
    (Binaries.v).

    Live queries: rows, totals and order of the flame graph, the neighbours of a
    function, the top list, the timeline and the lists are exactly what the code
    adds up of the credited stacks and the intervals, also where the protocol
    documents something else (Flame.v, Neighbors.v, Top.v,
    Timeline.v, Views.v); highlighting loses no byte, a listing no instruction,
    source headers stand where the location changes (Annotate.v), and the edges
    of a control-flow graph are the ways control can take (Cfg.v); an imported
    evaluation graph is consistent whatever the file holds, one called complete
    lacks nothing, and its queries are exact (EvalGraph.v).

    Signals and spans: every signal is recorded or counted as rejected, and the
    store is always sorted and conforms to its definitions (Observability.v);
    lists, gaps, duty windows and coalesced violations are exactly what the
    stored signals imply (Contracts.v); every valid span becomes a sample and an
    interval of its lane's thread whose addresses resolve to its name, and the
    counters balance (Spans.v).

    Server: the event log and the bundle of an archive read back, up to what the
    log has no entry for (Archive.v); under any interleaving of requests stored
    runs keep their identity, a run once stored answers as it was when it ended,
    and once the end of a run has been served every poll for it is answered
    (Sessions.v, whose sections never wait for a lock); operations that take their
    locks in order, those that poll included, never block each other (Locks.v).  That
    a poll is ever answered is not claimed: the end of the run may itself be blocked
    by an ingest of signals.

    Target: both builders of spans agree, refused batches are counted and accepted
    ones delivered in order and none twice, in every interleaving of the target's
    threads with the worker; and in a recording that the worker notices, definitions
    reach the server before what uses them, so that its signal store knows all it is
    told (Latch.v, over the server's own ingest of signals; a recording that begins
    within one poll of another, a batch left over from an earlier one and a kind
    defined too late are shown to break this).

    Some theorems record behaviour a comment or a neighbour contradicts: a code
    size that makes the jitdump reader panic, a wakeup that outlives its
    interval, the tail of a long JIT symbol that is lost, two ways of naming one
    address, an interval that is reported or not depending on where a batch
    ends, a symbol table of functions that lists data; on Linux a wakeup that is drained after the wait it ended and blamed for
    the next one; recursion counted twice in the top list and the neighbours, the newest events the first to be
    left out of a long list, a span hidden inside another, a loop that trailing
    bytes make up; and of the server: a
    run lost when another one is selected while it starts, a name lost when two
    lanes get theirs at once, and two deadlocks; and of the latch: definitions that
    come late or whose call fails, and never reach the server.

    ** What is left out

    Command line, sockets, RPC, launchd and file plumbing; the instruction decoders
    and grammars; the macOS loaders that only call an object-file library; the
    web front end.  Of the pipeline what is only logged; of the registry the
    macOS fallbacks and the cache in front of the demangler, which is
    transparent.  Of the archives the directory layout and the serialisation.

    This file: record update, machine integers, the list, sorting and
    saturating-sum lemmas the components share, and their tactics. *)

From stdpp Require Export gmap strings list fin_maps sorting.
From Stdlib Require Export ZArith Lia.

#[global] Open Scope Z_scope.

(** ** Record update

    [r <| f := v |>] and [r <| f ::= g |>] replace one field of a record, as
    the assignments [self.f = v] of the source do.  A record opts in with an
    [Eta] instance that rebuilds it from its projections. *)

Class Eta (R : Type) := eta_expand : R -> R.
Class Setter {R T : Type} (p : R -> T) := field_update : (T -> T) -> R -> R.

Ltac solve_setter :=
  match goal with
  | |- @Setter ?R ?T ?p =>
      let inst := constr:(_ : Eta R) in
      let body := eval hnf in inst in
      match eval pattern p in body with
      | ?f _ => exact (fun g r => f (fun x => g (p x)) r)
      end
  end.

#[export] Hint Extern 1 (Setter _) => solve_setter : typeclass_instances.

Declare Scope record_scope.
Delimit Scope record_scope with record.
Notation "r <| f ::= g |>" := (field_update (p := f) g r)
  (at level 1, left associativity, f at next level, g at level 200) : record_scope.
Notation "r <| f := v |>" := (field_update (p := f) (fun _ => v) r)
  (at level 1, left associativity, f at next level, v at level 200) : record_scope.
#[global] Open Scope record_scope.
Arguments field_update {R T} p {_} _ / _.

(** ** Machine-width integers

    A [u32] or [u64] of the source is a [Z]; the operations below write out the
    wrap-around of the plain operators (the release profile leaves overflow
    checks off) and the clamping of the [saturating_*] ones. *)

Definition u64_max : Z := 2 ^ 64 - 1.
Definition u32_max : Z := 2 ^ 32 - 1.
Definition is_u64 (z : Z) : Prop := 0 <= z < 2 ^ 64.
Definition is_u32 (z : Z) : Prop := 0 <= z < 2 ^ 32.

Definition as_u64 (z : Z) : Z := z mod 2 ^ 64.
Definition as_u32 (z : Z) : Z := z mod 2 ^ 32.
Definition as_u16 (z : Z) : Z := z mod 2 ^ 16.
Definition as_u8 (z : Z) : Z := z mod 2 ^ 8.

Definition wadd64 (a b : Z) : Z := as_u64 (a + b).
Definition sadd64 (a b : Z) : Z := Z.min (a + b) u64_max.
Definition sadd32 (a b : Z) : Z := Z.min (a + b) u32_max.
Definition ssub (a b : Z) : Z := Z.max (a - b) 0.
Definition abs_diff (a b : Z) : Z := Z.abs (a - b).

#[global] Arguments as_u64 : simpl never.
#[global] Arguments as_u32 : simpl never.
#[global] Arguments as_u16 : simpl never.
#[global] Arguments as_u8 : simpl never.
#[global] Arguments wadd64 : simpl never.
#[global] Arguments sadd64 : simpl never.
#[global] Arguments sadd32 : simpl never.
#[global] Arguments ssub : simpl never.
#[global] Arguments abs_diff : simpl never.
#[global] Arguments u64_max : simpl never.
#[global] Arguments u32_max : simpl never.

Create HintDb stax discriminated.

(** [width] opens the machine-width operations for [lia]. *)
Ltac width := unfold wadd64, sadd64, sadd32, ssub, abs_diff, is_u64, is_u32,
  as_u64, as_u32, as_u16, as_u8, u64_max, u32_max in *.

Lemma as_u64_small z : is_u64 z -> as_u64 z = z.
Proof. intros H. width. by apply Z.mod_small. Qed.

Lemma as_u32_small z : is_u32 z -> as_u32 z = z.
Proof. intros H. width. by apply Z.mod_small. Qed.

Lemma as_u64_range z : is_u64 (as_u64 z).
Proof. width. by apply Z.mod_pos_bound. Qed.

Lemma as_u32_range z : is_u32 (as_u32 z).
Proof. width. by apply Z.mod_pos_bound. Qed.

Lemma sadd64_range a b : 0 <= a -> 0 <= b -> is_u64 (sadd64 a b).
Proof. width. lia. Qed.

Lemma sadd64_small a b : a + b < 2 ^ 64 -> sadd64 a b = a + b.
Proof. width. lia. Qed.

Lemma sadd64_comm a b : sadd64 a b = sadd64 b a.
Proof. width. lia. Qed.

Lemma sadd64_assoc a b c :
  0 <= a -> 0 <= c -> sadd64 (sadd64 a b) c = sadd64 a (sadd64 b c).
Proof. width. lia. Qed.

Lemma sadd64_ge_l a b : is_u64 a -> 0 <= b -> a <= sadd64 a b.
Proof. width. lia. Qed.

Lemma ssub_range a b : is_u64 a -> 0 <= b -> is_u64 (ssub a b).
Proof. width. lia. Qed.

Lemma wadd64_small a b : 0 <= a -> 0 <= b -> a + b < 2 ^ 64 -> wadd64 a b = a + b.
Proof. intros. unfold wadd64. apply as_u64_small. width. lia. Qed.

(** Congruence modulo [2^64], coarser than equality: wrapped counters are
    rewritten under sums up to it. *)
Definition eq64 (a b : Z) : Prop := as_u64 a = as_u64 b.
Infix "≡64" := eq64 (at level 70, no associativity) : Z_scope.

#[export] Instance eq64_equivalence : Equivalence eq64.
Proof. split; [intros x|intros x y|intros x y z]; unfold eq64; congruence. Qed.

#[export] Instance add_eq64 : Proper (eq64 ==> eq64 ==> eq64) Z.add.
Proof.
  unfold eq64, as_u64. intros a a' Ha b b' Hb.
  by rewrite Zplus_mod, Ha, Hb, <- Zplus_mod.
Qed.

#[export] Instance as_u64_proper : Proper (eq64 ==> eq) as_u64.
Proof. intros a b H. exact H. Qed.

Lemma as_u64_eq64 a : as_u64 a ≡64 a.
Proof. unfold eq64, as_u64. by rewrite Z.mod_mod by lia. Qed.

Lemma wadd64_eq64 a b : wadd64 a b ≡64 a + b.
Proof. apply as_u64_eq64. Qed.

(** [wrapping] proves an equation between wrapped sums. *)
Ltac wrapping := unfold wadd64 at 1; apply as_u64_proper;
  rewrite ?wadd64_eq64, ?as_u64_eq64; unfold eq64; f_equal; lia.

Lemma eq64_iff a b : a ≡64 b <-> exists k, a = b + k * 2 ^ 64.
Proof.
  unfold eq64, as_u64. split.
  - intros H. exists (a / 2 ^ 64 - b / 2 ^ 64).
    pose proof (Z.div_mod a (2 ^ 64)). pose proof (Z.div_mod b (2 ^ 64)). lia.
  - intros [k ->]. apply Z_mod_plus_full.
Qed.

(** [balanced] proves a congruence between wrapped counters from congruences in
    the context. *)
Ltac balanced := rewrite ?wadd64_eq64;
  repeat match goal with H : _ ≡64 _ |- _ => apply eq64_iff in H as [? H] end;
  apply eq64_iff;
  first [ eexists 0; lia | match goal with H : _ = _ + ?k * 2 ^ 64 |- _ => exists k; lia end ].

#[export] Hint Resolve as_u64_range as_u32_range sadd64_range ssub_range : stax.

(** ** Vec, slice and VecDeque operations *)

(** A computation that returns or panics. *)
Inductive outcome (A : Type) :=
  | Ret (a : A)
  | Panic.
Arguments Ret {A} a.
Arguments Panic {A}.

(** Statements in sequence; a panic ends them. *)
Definition then_do {A B} (x : outcome A) (f : A -> outcome B) : outcome B :=
  match x with Ret a => f a | Panic => Panic end.

(** [&l[i..j]] for bounds in range. *)
Definition slice {A} (i j : nat) (l : list A) : list A := take (j - i) (drop i l).

(** [iter().position(f)] and [iter().rposition(f)]. *)
Fixpoint position {A} (f : A -> bool) (l : list A) : option nat :=
  match l with
  | [] => None
  | x :: l' => if f x then Some 0%nat else S <$> position f l'
  end.

Definition rposition {A} (f : A -> bool) (l : list A) : option nat :=
  (fun i => (length l - 1 - i)%nat) <$> position f (reverse l).

(** [Vec::remove(i)] and [Vec::insert(i, x)] at an index in range. *)
Definition vec_remove {A} (i : nat) (l : list A) : list A := take i l ++ drop (S i) l.
Definition vec_insert {A} (i : nat) (x : A) (l : list A) : list A := take i l ++ x :: drop i l.

(** [if q.len() >= cap { q.pop_front() }; q.push_back(x)] on a [VecDeque]. *)
Definition push_bounded {A} (cap : Z) (x : A) (q : list A) : list A :=
  (if bool_decide (cap <= Z.of_nat (length q)) then tail q else q) ++ [x].

Lemma position_Some {A} (f : A -> bool) l i :
  position f l = Some i ->
  exists x, l !! i = Some x /\ f x = true /\ Forall (fun y => f y = false) (take i l).
Proof.
  revert i; induction l as [|y l IH]; intros i; simpl; [done|].
  destruct (f y) eqn:Hy.
  - intros [= <-]. exists y. by rewrite take_0.
  - intros (j & Hj & ->)%fmap_Some. destruct (IH _ Hj) as (x & ? & ? & ?).
    exists x. simpl. repeat split; auto.
Qed.

Lemma position_None {A} (f : A -> bool) l :
  position f l = None <-> Forall (fun y => f y = false) l.
Proof.
  induction l as [|y l IH]; simpl; [by split|].
  destruct (f y) eqn:Hy.
  - split; [done|]. intros H. inversion H; congruence.
  - rewrite Forall_cons, fmap_None, IH. by split; [|intros []].
Qed.

Lemma position_first {A} (f : A -> bool) l x r :
  Forall (fun y => f y = false) l -> f x = true -> position f (l ++ x :: r) = Some (length l).
Proof. intros Hl Hx. induction Hl as [|y l Hy _ IH]; simpl; [by rewrite Hx|]. by rewrite Hy, IH. Qed.

Lemma push_bounded_length {A} cap (x : A) q :
  0 < cap -> Z.of_nat (length q) <= cap ->
  Z.of_nat (length (push_bounded cap x q)) <= cap.
Proof.
  intros Hc Hq. unfold push_bounded. rewrite length_app. simpl.
  case_bool_decide; destruct q; simpl in *; lia.
Qed.

Lemma push_bounded_last {A} cap (x : A) q : last (push_bounded cap x q) = Some x.
Proof. unfold push_bounded. by rewrite last_snoc. Qed.

Lemma omap_snoc {A B} (f : A -> option B) l x : omap f (l ++ [x]) = omap f l ++ option_list (f x).
Proof. rewrite omap_app. cbn. by destruct (f x). Qed.

Lemma filter_none {A} (P : A -> Prop) `{!forall x, Decision (P x)} (l : list A) :
  Forall (fun x => ~ P x) l -> filter P l = [].
Proof. induction 1; [done|]. by rewrite filter_cons_False. Qed.

Lemma filter_all {A} (P : A -> Prop) `{!forall x, Decision (P x)} (l : list A) :
  Forall P l -> filter P l = l.
Proof. induction 1; [done|]. rewrite filter_cons_True by done. by f_equal. Qed.

Lemma StronglySorted_lookup_lt {A} (R : relation A) l i j x y :
  StronglySorted R l -> l !! i = Some x -> l !! j = Some y -> (i < j)%nat -> R x y.
Proof.
  intros Hs. revert i j. induction Hs as [|z l Hs IH Hz]; intros i j Hi Hj Hlt; [done|].
  destruct j as [|j]; [lia|]. cbn in Hj. destruct i as [|i]; cbn in Hi.
  - injection Hi as ->. eapply Forall_forall in Hz; [exact Hz|]. by eapply list_elem_of_lookup_2.
  - apply (IH i j); [done|done|lia].
Qed.

(** Sums over lists. *)
Definition sum_of {A} (f : A -> Z) (l : list A) : Z := foldr (fun x acc => f x + acc) 0 l.

Lemma sum_of_app {A} (f : A -> Z) l1 l2 : sum_of f (l1 ++ l2) = sum_of f l1 + sum_of f l2.
Proof. induction l1; simpl in *; lia. Qed.

Lemma sum_of_snoc {A} (f : A -> Z) l x : sum_of f (l ++ [x]) = sum_of f l + f x.
Proof. rewrite sum_of_app. simpl. lia. Qed.

Lemma sum_of_nonneg {A} (f : A -> Z) l : Forall (fun x => 0 <= f x) l -> 0 <= sum_of f l.
Proof. induction 1; simpl in *; lia. Qed.

Lemma sum_of_perm {A} (f : A -> Z) l1 l2 : l1 ≡ₚ l2 -> sum_of f l1 = sum_of f l2.
Proof. induction 1; simpl in *; lia. Qed.

Lemma sum_of_cons {A} (f : A -> Z) x l : sum_of f (x :: l) = f x + sum_of f l.
Proof. done. Qed.

Lemma sum_of_plus {A} (f g : A -> Z) l :
  sum_of (fun x => f x + g x) l = sum_of f l + sum_of g l.
Proof. induction l as [|x l IH]; [done|]. rewrite !sum_of_cons, IH. lia. Qed.

Lemma sum_of_ext {A} (f g : A -> Z) l : (forall x, x ∈ l -> f x = g x) -> sum_of f l = sum_of g l.
Proof.
  induction l as [|x l IH]; intros H; simpl; [done|].
  rewrite (H x), IH by set_solver. done.
Qed.

Lemma sum_of_le {A} (f g : A -> Z) l :
  Forall (fun x => f x <= g x) l -> sum_of f l <= sum_of g l.
Proof. induction 1; simpl in *; lia. Qed.

Lemma sum_of_bind {A B} (f : B -> Z) (g : A -> list B) l :
  sum_of f (l ≫= g) = sum_of (fun x => sum_of f (g x)) l.
Proof. induction l as [|x l IH]; [done|]. by rewrite bind_cons, sum_of_app, IH. Qed.

Lemma sum_of_map {A B} (f : B -> Z) (g : A -> B) l : sum_of f (map g l) = sum_of (fun x => f (g x)) l.
Proof. induction l as [|x l IH]; [done|]. cbn [map]. by rewrite !sum_of_cons, IH. Qed.

Lemma sum_of_single {A} (f : A -> Z) x l :
  NoDup l -> x ∈ l -> (forall y, y ∈ l -> y <> x -> f y = 0) -> sum_of f l = f x.
Proof.
  induction 1 as [|y l Hy Hnd IH]; intros Hx H; [by apply elem_of_nil in Hx|].
  rewrite sum_of_cons. apply elem_of_cons in Hx as [->|Hx].
  - rewrite (sum_of_ext _ (fun _ => 0)).
    + enough (sum_of (fun _ : A => 0) l = 0) by lia. clear. induction l; simpl in *; lia.
    + intros z Hz. apply H; [by right|]. by intros ->.
  - rewrite (H y), IH; [lia|done| |by left|by intros ->].
    intros z Hz. apply H. by right.
Qed.

Lemma sum_of_exchange {A B} (f : A -> B -> Z) l m :
  sum_of (fun x => sum_of (f x) m) l = sum_of (fun y => sum_of (fun x => f x y) l) m.
Proof.
  induction l as [|x l IH].
  - symmetry. induction m as [|y m IH]; [done|]. by rewrite sum_of_cons, IH.
  - rewrite sum_of_cons, IH, <- sum_of_plus. by apply sum_of_ext.
Qed.

(** Clamping the parts of a clamped sum changes nothing. *)
Lemma sum_of_clamped {A} (f : A -> Z) l u :
  Forall (fun x => 0 <= f x) l -> 0 <= u ->
  Z.min (sum_of (fun x => Z.min (f x) u) l) u = Z.min (sum_of f l) u.
Proof.
  intros H Hu. induction H as [|x l Hx Hl IH]; [done|]. rewrite !sum_of_cons.
  apply sum_of_nonneg in Hl as Hs.
  assert (0 <= sum_of (fun x => Z.min (f x) u) l).
  { apply sum_of_nonneg. eapply Forall_impl; [exact Hl|]. intros; cbn in *. lia. }
  lia.
Qed.

(** The sum over the part of a list that matters. *)
Lemma sum_of_support {A} `{EqDecision A} (f : A -> Z) l m :
  NoDup l -> NoDup m -> l ⊆ m -> (forall x, x ∈ m -> x ∉ l -> f x = 0) -> sum_of f l = sum_of f m.
Proof.
  intros Hl Hm Hsub Hz. rewrite (sum_of_perm f m (l ++ filter (fun x => x ∉ l) m)).
  - rewrite sum_of_app, (sum_of_ext f (fun _ => 0) (filter _ _)).
    + enough (sum_of (fun _ => 0) (filter (fun x => x ∉ l) m) = 0) by lia. clear.
      induction (filter _ m); simpl in *; lia.
    + intros x [Hx Hxm]%list_elem_of_filter. by apply Hz.
  - apply NoDup_Permutation; [done| |].
    + apply NoDup_app. split; [done|]. split; [|by apply NoDup_filter].
      by intros x Hx [? _]%list_elem_of_filter.
    + intros x. rewrite elem_of_app, list_elem_of_filter. destruct (decide (x ∈ l)); set_solver.
Qed.

(** A conditional summand is a sum over what passes the test. *)
Lemma sum_of_filter {A} (P : A -> Prop) `{!forall x, Decision (P x)} (f : A -> Z) l :
  sum_of (fun x => if decide (P x) then f x else 0) l = sum_of f (filter P l).
Proof.
  induction l as [|x l IH]; [done|]. rewrite sum_of_cons, IH. case_decide.
  - by rewrite filter_cons_True, sum_of_cons by done.
  - rewrite filter_cons_False by done. lia.
Qed.

Lemma sum_of_const {A} (c : Z) (l : list A) : sum_of (fun _ => c) l = Z.of_nat (length l) * c.
Proof. induction l as [|x l IH]; simpl in *; lia. Qed.

(** A counter that only grows by [saturating_add]s holds the sum of what was
    added, clamped once. *)
Definition sat_sum {A} (f : A -> Z) (l : list A) : Z := Z.min (sum_of f l) u64_max.

Lemma sat_sum_snoc {A} (f : A -> Z) l x :
  0 <= f x -> sadd64 (sat_sum f l) (f x) = sat_sum f (l ++ [x]).
Proof. intros Hx. unfold sat_sum. rewrite sum_of_snoc. width. lia. Qed.

Lemma sat_sum_snoc_eq {A} (f : A -> Z) l x d :
  f x = d -> 0 <= d -> sat_sum f (l ++ [x]) = sadd64 (sat_sum f l) d.
Proof. intros <- Hx. by rewrite sat_sum_snoc. Qed.

Lemma sat_sum_snoc_0 {A} (f : A -> Z) l x : f x = 0 -> sat_sum f (l ++ [x]) = sat_sum f l.
Proof. intros Hx. unfold sat_sum. rewrite sum_of_snoc, Hx. f_equal. lia. Qed.

Lemma sat_sum_app {A} (f : A -> Z) l1 l2 :
  Forall (fun x => 0 <= f x) l1 -> Forall (fun x => 0 <= f x) l2 ->
  sadd64 (sat_sum f l1) (sat_sum f l2) = sat_sum f (l1 ++ l2).
Proof.
  intros H1%sum_of_nonneg H2%sum_of_nonneg. unfold sat_sum. rewrite sum_of_app. width. lia.
Qed.

Lemma sat_sum_perm {A} (f : A -> Z) l1 l2 : l1 ≡ₚ l2 -> sat_sum f l1 = sat_sum f l2.
Proof. intros H. unfold sat_sum. by rewrite (sum_of_perm f _ _ H). Qed.

Lemma sat_sum_exact {A} (f : A -> Z) l : sum_of f l < 2 ^ 64 -> sat_sum f l = sum_of f l.
Proof. unfold sat_sum. width. lia. Qed.

(** ** Walks with a test *)

(** Walking an ordered list back from its end while an upward-closed test holds
    selects exactly the elements that pass it. *)
Fixpoint take_while {A} (f : A -> bool) (l : list A) : list A :=
  match l with
  | [] => []
  | x :: l' => if f x then x :: take_while f l' else []
  end.

Lemma take_while_rev {A} (R : relation A) (f : A -> bool) (l : list A) :
  (forall x y, R x y -> f x = true -> f y = true) -> StronglySorted R l ->
  reverse (take_while f (reverse l)) = filter (fun x => f x = true) l.
Proof.
  intros Hup. induction l as [|x l IH] using rev_ind; intros Hs; [done|].
  rewrite reverse_snoc, filter_app. simpl. apply StronglySorted_app in Hs as (Hlx & Hl & _).
  destruct (f x) eqn:Hx.
  - rewrite reverse_cons, IH, filter_cons_True by done. done.
  - rewrite filter_cons_False by congruence. rewrite filter_none; [done|].
    apply Forall_forall. intros y Hy Hfy.
    rewrite (Hup y x) in Hx; [done| |done]. apply Hlx; set_solver.
Qed.

(** The rest of the walk. *)
Fixpoint drop_while {A} (f : A -> bool) (l : list A) : list A :=
  match l with
  | [] => []
  | x :: l' => if f x then drop_while f l' else l
  end.

Lemma take_while_drop_while {A} (f : A -> bool) (l : list A) :
  take_while f l ++ drop_while f l = l.
Proof. induction l as [|x l IH]; simpl; [done|]. destruct (f x); simpl; by rewrite ?IH. Qed.

Lemma take_while_sorted {A} (R : relation A) (f : A -> bool) (l : list A) :
  (forall x y, R x y -> f y = true -> f x = true) -> StronglySorted R l ->
  take_while f l = filter (fun x => f x = true) l.
Proof.
  intros Hdown. induction 1 as [|x l Hl IH Hx]; simpl; [done|].
  destruct (f x) eqn:E.
  - by rewrite filter_cons_True, IH.
  - rewrite filter_cons_False by congruence. symmetry. apply filter_none.
    eapply Forall_impl; [exact Hx|]. intros y HR Hy. cbn in Hy. by rewrite (Hdown x y) in E.
Qed.

Lemma drop_while_sorted {A} (R : relation A) (f : A -> bool) (l : list A) :
  (forall x y, R x y -> f y = true -> f x = true) -> StronglySorted R l ->
  drop_while f l = filter (fun x => f x = false) l.
Proof.
  intros Hdown. induction 1 as [|x l Hl IH Hx]; simpl; [done|].
  destruct (f x) eqn:E.
  - by rewrite filter_cons_False by congruence.
  - rewrite filter_cons_True by done. f_equal. symmetry. apply filter_all.
    eapply Forall_impl; [exact Hx|]. intros y HR. cbn.
    destruct (f y) eqn:Ey; [|done]. by rewrite (Hdown x y) in E.
Qed.

Lemma drop_while_weaker {A} (f g : A -> bool) (l : list A) :
  (forall x, f x = true -> g x = true) -> drop_while g (drop_while f l) = drop_while g l.
Proof.
  intros Hfg. induction l as [|x l IH]; simpl; [done|].
  destruct (f x) eqn:E; [|done]. by rewrite (Hfg x E).
Qed.

Lemma drop_while_suffix {A} (f : A -> bool) (l : list A) : exists k, l = k ++ drop_while f l.
Proof. exists (take_while f l). by rewrite take_while_drop_while. Qed.

Lemma StronglySorted_weaken {A} (R S : relation A) l :
  (forall x y, R x y -> S x y) -> StronglySorted R l -> StronglySorted S l.
Proof.
  intros HRS. induction 1 as [|x l Hl IH Hx]; constructor; [done|].
  eapply Forall_impl; [exact Hx|]. apply HRS.
Qed.

Lemma StronglySorted_filter {A} (R : relation A) (P : A -> Prop) `{!forall x, Decision (P x)} l :
  StronglySorted R l -> StronglySorted R (filter P l).
Proof.
  induction 1 as [|x l Hs IH Hx]; [constructor|]. rewrite filter_cons. case_decide; [|done].
  constructor; [done|]. apply Forall_forall. intros y [_ Hy]%list_elem_of_filter.
  by eapply Forall_forall in Hx.
Qed.


(** [partition_point(f)] on a slice where [f] holds of a prefix, which is what
    the binary search asks of it. *)
Definition partition_point {A} (f : A -> bool) (l : list A) : nat := length (take_while f l).

Lemma partition_point_le {A} (f : A -> bool) l : (partition_point f l <= length l)%nat.
Proof.
  unfold partition_point. rewrite <- (take_while_drop_while f l) at 2. rewrite length_app. lia.
Qed.

(** The element before the partition point is the last that passes. *)
Lemma partition_point_pred {A} (R : relation A) (f : A -> bool) (l : list A) :
  (forall x y, R x y -> f y = true -> f x = true) -> StronglySorted R l ->
  match partition_point f l with
  | O => Forall (fun x => f x = false) l
  | S i => exists x l1 l2, l !! i = Some x /\ l = l1 ++ x :: l2 /\ f x = true /\
             Forall (fun y => f y = true /\ R y x) l1 /\ Forall (fun y => f y = false) l2
  end.
Proof.
  intros Hdown Hs. unfold partition_point.
  rewrite (take_while_sorted R) by done.
  pose proof (take_while_drop_while f l) as Hl.
  rewrite (take_while_sorted R), (drop_while_sorted R) in Hl by done.
  set (a := filter (fun x => f x = true) l) in *. set (b := filter (fun x => f x = false) l) in *.
  assert (Ha : Forall (fun x => f x = true) a)
    by (apply Forall_forall; intros x Hx; by apply list_elem_of_filter in Hx as [? _]).
  assert (Hb : Forall (fun x => f x = false) b)
    by (apply Forall_forall; intros x Hx; by apply list_elem_of_filter in Hx as [? _]).
  clearbody a b. subst l. destruct a as [|x a _] using rev_ind; [done|].
  rewrite length_app, Nat.add_comm. cbn [length Nat.add].
  apply StronglySorted_app in Hs as (_ & Hsa & _). apply StronglySorted_app in Hsa as (Hax & _ & _).
  apply Forall_app in Ha as [Ha [Hx _]%Forall_cons].
  exists x, a, b. rewrite <- (assoc_L (++)). split; [by apply list_lookup_middle|].
  split; [done|]. split; [done|]. split; [|done].
  apply Forall_forall. intros y Hy. rewrite Forall_forall in Ha. split; [by apply Ha|].
  apply Hax; [done|set_solver].
Qed.

(** ** Sorting

    [sort_by_key] and [sort_by] are stable: an element goes in front of the
    ones it ties with that came after it. *)
Fixpoint sort_insert {A} (le : A -> A -> bool) (x : A) (l : list A) : list A :=
  match l with
  | [] => [x]
  | y :: l' => if le x y then x :: l else y :: sort_insert le x l'
  end.

Definition sort_by {A} (le : A -> A -> bool) (l : list A) : list A := foldr (sort_insert le) [] l.

Lemma sort_insert_perm {A} le (x : A) l : sort_insert le x l ≡ₚ x :: l.
Proof.
  induction l as [|y l IH]; simpl; [done|]. destruct (le x y); [done|].
  rewrite IH. constructor.
Qed.

Lemma sort_by_perm {A} le (l : list A) : sort_by le l ≡ₚ l.
Proof. induction l as [|x l IH]; simpl; [done|]. by rewrite sort_insert_perm, IH. Qed.

Section SortBy.
Context {A : Type} (le : A -> A -> bool).
Hypothesis le_total : forall x y, le x y = false -> le y x = true.
Hypothesis le_trans : forall x y z, le x y = true -> le y z = true -> le x z = true.

Let R x y := le x y = true.

Lemma sort_insert_sorted x l : StronglySorted R l -> StronglySorted R (sort_insert le x l).
Proof.
  induction 1 as [|y l Hl IH Hy]; simpl; [by repeat constructor|].
  destruct (le x y) eqn:E.
  - constructor; [by constructor|]. constructor; [done|].
    eapply Forall_impl; [exact Hy|]. intros z Hz. by apply le_trans with y.
  - constructor; [done|]. rewrite sort_insert_perm. constructor; [by apply le_total|done].
Qed.

Lemma sort_by_sorted l : StronglySorted R (sort_by le l).
Proof. induction l as [|x l IH]; simpl; [constructor|]. by apply sort_insert_sorted. Qed.

(** A sorted list stays as it is. *)
Lemma sort_by_id l : StronglySorted R l -> sort_by le l = l.
Proof.
  induction 1 as [|x l Hl IH Hx]; [done|].
  change (sort_by le (x :: l)) with (sort_insert le x (sort_by le l)). rewrite IH.
  destruct l as [|y l]; [done|]. cbn [sort_insert]. apply Forall_inv in Hx. unfold R in Hx. by rewrite Hx.
Qed.

(** Where ties are equal elements, the order of the input does not matter. *)
Lemma sort_by_unique l1 l2 :
  (forall x y, x ∈ l1 -> y ∈ l1 -> le x y = true -> le y x = true -> x = y) ->
  l1 ≡ₚ l2 -> sort_by le l1 = sort_by le l2.
Proof.
  intros Hanti Hp.
  apply (StronglySorted_unique_strong R).
  - intros x y Hx Hy. rewrite sort_by_perm in Hx, Hy. rewrite <- Hp in Hy. by apply Hanti.
  - apply sort_by_sorted.
  - apply sort_by_sorted.
  - by rewrite !sort_by_perm.
Qed.

(** Selecting from a sorted list is sorting the selection: the sort is stable. *)
Section Select.
Context {B : Type} (le' : B -> B -> bool) (f : A -> option B).
Hypothesis le_select : forall x y a b, f x = Some a -> f y = Some b -> le x y = le' a b.

Lemma sort_insert_omap x l :
  StronglySorted R l ->
  omap f (sort_insert le x l) =
  match f x with Some a => sort_insert le' a (omap f l) | None => omap f l end.
Proof.
  induction 1 as [|y l Hl IH Hy]; cbn; [by destruct (f x)|].
  destruct (le x y) eqn:E; cbn.
  - destruct (f x) as [a|] eqn:Ex; [|done].
    assert (Forall (fun b => le' a b = true) (omap f (y :: l))) as Hb.
    { apply Forall_forall. intros b (z & Hz & Hfz)%list_elem_of_omap.
      rewrite <- (le_select x z a b) by done. apply elem_of_cons in Hz as [->|Hz]; [done|].
      apply le_trans with y; [done|]. rewrite Forall_forall in Hy. by apply Hy. }
    cbn in Hb. destruct (f y) as [b|]; [by apply Forall_inv in Hb; cbn; rewrite Hb|].
    destruct (omap f l) as [|b m]; [done|]. apply Forall_inv in Hb. cbn. by rewrite Hb.
  - rewrite IH. destruct (f y) as [b|] eqn:Ey; [|done]. destruct (f x) as [a|] eqn:Ex; [|done].
    cbn. by rewrite <- (le_select x y a b), E.
Qed.

Lemma sort_by_omap l : omap f (sort_by le l) = sort_by le' (omap f l).
Proof.
  induction l as [|x l IH]; [done|].
  change (sort_by le (x :: l)) with (sort_insert le x (sort_by le l)).
  rewrite sort_insert_omap by apply sort_by_sorted. rewrite IH. cbn. by destruct (f x).
Qed.
End Select.
End SortBy.

(** A fold whose step may fail. *)
Fixpoint foldlM {A B} (f : B -> A -> option B) (acc : B) (l : list A) : option B :=
  match l with
  | [] => Some acc
  | x :: l' => match f acc x with Some acc' => foldlM f acc' l' | None => None end
  end.

(** [HashMap::entry(k).or_default()] followed by an update of the slot. *)
Definition entry_update {V} (d : V) (f : V -> V) (k : Z) (m : gmap Z V) : gmap Z V :=
  <[k := f (default d (m !! k))]> m.

Lemma lookup_entry_update {V} (d : V) f k (m : gmap Z V) j :
  entry_update d f k m !! j = if decide (j = k) then Some (f (default d (m !! k))) else m !! j.
Proof. unfold entry_update. case_decide; subst; simplify_map_eq; done. Qed.

(** [rsplit(c).next()]: what follows the last [c]. *)
Fixpoint after_last (c : Z) (s : list Z) : list Z :=
  match s with
  | [] => []
  | d :: s' => if bool_decide (c ∈ s') then after_last c s'
               else if bool_decide (d = c) then s' else s
  end.

(** A string literal as the list of its characters; text of the source is a
    list of code points, byte strings are lists of bytes. *)
Definition str (s : string) : list Z :=
  map (fun a => Z.of_N (Ascii.N_of_ascii a)) (String.list_ascii_of_string s).

(** [str::starts_with]. *)
Fixpoint starts_with (p s : list Z) : bool :=
  match p, s with
  | [], _ => true
  | c :: p', d :: s' => bool_decide (c = d) && starts_with p' s'
  | _, [] => false
  end.

(** [str::contains] and [memchr::memmem::find(hay, needle).is_some()]. *)
Fixpoint contains (needle hay : list Z) : bool :=
  starts_with needle hay || match hay with [] => false | _ :: hay => contains needle hay end.

(** [split_ands] splits a conjunction goal down to its leaves. *)
Ltac split_ands := repeat match goal with |- _ /\ _ => split end.

(** [case_bool] analyses the innermost test of the goal. *)
Ltac case_bool :=
  match goal with
  | |- context [if ?b then _ else _] => destruct b eqn:?
  end.

(** ** Grouping

    [groups.entry(key(x)).and_modify(|v| add(x, v)).or_insert(first(x))] over the
    elements of a list. *)
Section Grouping.
Context {K A V : Type} `{Countable K} (key : A -> K) (first : A -> V) (add : A -> V -> V).

Definition group_insert (g : gmap K V) (x : A) : gmap K V :=
  <[key x := match g !! key x with Some v => add x v | None => first x end]> g.

Definition group_all (l : list A) : gmap K V := foldl group_insert ∅ l.

(** What a group holds: its elements, added up in order. *)
Lemma group_all_get l k :
  group_all l !! k =
  match filter (fun x => key x = k) l with
  | [] => None
  | x :: l => Some (foldl (fun v x => add x v) (first x) l)
  end.
Proof.
  unfold group_all. induction l as [|x l IH] using rev_ind; [done|].
  rewrite foldl_app. cbn [foldl]. unfold group_insert at 1. rewrite lookup_insert, filter_app.
  case_decide as Hk.
  - rewrite filter_cons_True by done. cbn [filter list_filter]. subst k. rewrite IH.
    destruct (filter _ l) as [|y m]; [done|]. cbn [app]. by rewrite foldl_app.
  - rewrite filter_cons_False by done. cbn [filter list_filter]. by rewrite app_nil_r.
Qed.
End Grouping.

(** ** Hash maps *)

(** Iteration over a [HashMap]: some order of its entries. *)
Class MapOrder := {
  entries : forall K `{Countable K} V, gmap K V -> list (K * V);
  entries_perm : forall K `{Countable K} V (m : gmap K V), entries K V m ≡ₚ map_to_list m
}.
#[global] Arguments entries {_} {K _ _ V} m.
#[global] Arguments entries_perm {_} {K _ _ V} m.

(** One such order, for examples. *)
Definition canonical_order : MapOrder :=
  {| entries := fun K _ _ V m => map_to_list m; entries_perm := fun K _ _ V m => reflexivity _ |}.

(** ** Sums over a map *)

Definition msum {K V} `{Countable K} (f : K -> V -> Z) (m : gmap K V) : Z :=
  sum_of (fun e => f e.1 e.2) (map_to_list m).

Section Sums.
Context {K V : Type} `{Countable K}.
Implicit Types (f : K -> V -> Z) (m : gmap K V).

Lemma msum_empty f : msum f ∅ = 0.
Proof. unfold msum. by rewrite map_to_list_empty. Qed.

Lemma msum_new f i x m : m !! i = None -> msum f (<[i := x]> m) = msum f m + f i x.
Proof. intros Hi. unfold msum. rewrite (sum_of_perm _ _ _ (map_to_list_insert m i x Hi)), sum_of_cons. cbn. lia. Qed.

Lemma msum_insert f i x m : msum f (<[i := x]> m) = msum f m + f i x - from_option (f i) 0 (m !! i).
Proof.
  destruct (m !! i) as [y|] eqn:Hi; cbn [from_option]; [|rewrite msum_new by done; lia].
  rewrite <- insert_delete_eq, msum_new by apply lookup_delete_eq.
  rewrite <- (insert_delete_id m i y Hi) at 2. rewrite msum_new by apply lookup_delete_eq. lia.
Qed.

Lemma msum_alter f g i m : (forall x, m !! i = Some x -> f i (g x) = f i x) -> msum f (alter g i m) = msum f m.
Proof.
  intros Hg. destruct (m !! i) as [x|] eqn:Hi.
  - rewrite <- (insert_id (alter g i m) i (g x)) by (by rewrite lookup_alter_eq, Hi).
    assert (<[i := g x]> (alter g i m) = <[i := g x]> m) as ->.
    { apply map_eq. intros k. rewrite !lookup_insert. case_decide; [done|]. by rewrite lookup_alter_ne. }
    rewrite msum_insert, Hi. cbn. rewrite Hg by done. lia.
  - f_equal. apply map_eq. intros k. rewrite lookup_alter. case_decide; subst; [by rewrite Hi|done].
Qed.

Lemma msum_nonneg f m : (forall i x, m !! i = Some x -> 0 <= f i x) -> 0 <= msum f m.
Proof.
  intros Hf. apply sum_of_nonneg, Forall_forall. intros [i x] Hi%elem_of_map_to_list. by apply Hf.
Qed.

Lemma msum_le f m i x : (forall i x, m !! i = Some x -> 0 <= f i x) -> m !! i = Some x -> f i x <= msum f m.
Proof.
  intros Hf Hi. rewrite <- (insert_delete_id m i x Hi), msum_new by apply lookup_delete_eq.
  enough (0 <= msum f (delete i m)) by lia. apply msum_nonneg. intros j y (_ & Hj)%lookup_delete_Some. by apply Hf.
Qed.

Lemma msum_ext f g m : (forall i x, m !! i = Some x -> f i x = g i x) -> msum f m = msum g m.
Proof. intros Hf. apply sum_of_ext. intros [i x] Hi%elem_of_map_to_list. by apply Hf. Qed.

Lemma msum_fmap f (g : V -> V) m : msum f (g <$> m) = msum (fun i x => f i (g x)) m.
Proof.
  unfold msum. rewrite map_to_list_fmap. rewrite <- (sum_of_map (fun e : K * V => f e.1 e.2) (prod_map Datatypes.id g)). done.
Qed.
End Sums.
