(* ===== verification/Order.v ===== *)
(** * Orders

    [Ord] of the Rust standard library as comparison functions: the orders of
    integers, strings and options, [cmp] on a key, reversed, and chained by
    [then_with], the laws the sorts rely on, and what [sort_by] does with such an
    order. *)

From S2P Require Import Prelude.

Module Order.

(** [Ordering::then_with] *)
Definition then_with (c d : comparison) : comparison := match c with Eq => d | _ => c end.

(** What [Ord] promises. *)
Class Ordered {A} (cmp : A -> A -> comparison) : Prop := {
  cmp_opp : forall a b, cmp b a = CompOpp (cmp a b);
  cmp_same : forall a b c, cmp a b = Eq -> cmp a c = cmp b c;
  cmp_lt_trans : forall a b c, cmp a b = Lt -> cmp b c = Lt -> cmp a c = Lt
}.

Section Laws.
Context {A : Type} (cmp : A -> A -> comparison) `{!Ordered cmp}.

Lemma cmp_refl a : cmp a a = Eq.
Proof. pose proof (cmp_opp a a) as H. by destruct (cmp a a). Qed.

Lemma cmp_same_r a b c : cmp b c = Eq -> cmp a b = cmp a c.
Proof.
  intros H. rewrite (cmp_opp b a), (cmp_opp c a). f_equal. by apply cmp_same.
Qed.

Lemma cmp_le_trans a b c : cmp a b <> Gt -> cmp b c <> Gt -> cmp a c <> Gt.
Proof.
  intros Hab Hbc. destruct (cmp a b) eqn:E1; [by rewrite (cmp_same _ _ _ E1)| |done].
  destruct (cmp b c) eqn:E2; [by rewrite <- (cmp_same_r _ _ _ E2), E1| |done].
  by rewrite (cmp_lt_trans _ _ _ E1 E2).
Qed.

(** The order as the test of a sort. *)
Definition le_of (a b : A) : bool := match cmp a b with Gt => false | _ => true end.

Lemma le_of_true a b : le_of a b = true <-> cmp a b <> Gt.
Proof. unfold le_of. by destruct (cmp a b). Qed.

Lemma le_of_total a b : le_of a b = false -> le_of b a = true.
Proof. unfold le_of. rewrite (cmp_opp a b). by destruct (cmp a b). Qed.

Lemma le_of_trans a b c : le_of a b = true -> le_of b c = true -> le_of a c = true.
Proof. rewrite !le_of_true. apply cmp_le_trans. Qed.

Lemma sort_by_le_of l : StronglySorted (fun a b => cmp a b <> Gt) (sort_by le_of l).
Proof.
  eapply StronglySorted_weaken; [|apply sort_by_sorted; [apply le_of_total|apply le_of_trans]].
  intros a b. apply le_of_true.
Qed.

(** Elements that only tie with themselves are put in one order whatever order
    they come in. *)
Lemma sort_by_le_of_unique l1 l2 :
  (forall x y, x ∈ l1 -> y ∈ l1 -> cmp x y = Eq -> x = y) -> l1 ≡ₚ l2 ->
  sort_by le_of l1 = sort_by le_of l2.
Proof.
  intros Hu Hp. apply sort_by_unique; [apply le_of_total|apply le_of_trans| |done].
  intros x y Hx Hy Hxy Hyx. apply Hu; [done..|]. rewrite le_of_true in Hxy, Hyx.
  rewrite (cmp_opp x y) in Hyx. by destruct (cmp x y).
Qed.
End Laws.

(** [a.cmp(&b)] on integers. *)
#[export] Instance Z_ordered : Ordered Z.compare.
Proof.
  split.
  - intros a b. apply Z.compare_antisym.
  - intros a b c ->%Z.compare_eq_iff. done.
  - intros a b c. rewrite !Z.compare_lt_iff. lia.
Qed.

(** [f(a).cmp(&f(b))] *)
#[export] Instance key_ordered {A B} (f : A -> B) cmp : Ordered cmp -> Ordered (fun a b => cmp (f a) (f b)).
Proof. intros H. split; [intros a b|intros a b c|intros a b c]; [apply cmp_opp|apply cmp_same|apply cmp_lt_trans]. Qed.

(** [b.cmp(&a)] *)
Lemma reverse_ordered {A} (cmp : A -> A -> comparison) : Ordered cmp -> Ordered (fun a b => cmp b a).
Proof.
  intros H. split.
  - intros a b. apply cmp_opp.
  - intros a b c Hba. symmetry. by apply (cmp_same_r cmp c b a).
  - intros a b c Hba Hcb. by apply cmp_lt_trans with b.
Qed.

#[export] Instance reverse_key_ordered {A B} (f : A -> B) cmp :
  Ordered cmp -> Ordered (fun a b => cmp (f b) (f a)).
Proof. intros H. apply (reverse_ordered (fun a b => cmp (f a) (f b))). apply _. Qed.

#[export] Instance then_ordered {A} (c1 c2 : A -> A -> comparison) :
  Ordered c1 -> Ordered c2 -> Ordered (fun a b => then_with (c1 a b) (c2 a b)).
Proof.
  intros H1 H2. split.
  - intros a b. rewrite (cmp_opp (cmp := c1) a b), (cmp_opp (cmp := c2) a b). by destruct (c1 a b).
  - intros a b c. unfold then_with. destruct (c1 a b) eqn:E; [|done|done]. intros E2.
    by rewrite (cmp_same _ _ c E), (cmp_same _ _ c E2).
  - intros a b c. unfold then_with.
    destruct (c1 a b) eqn:E1, (c1 b c) eqn:E2; try done; intros Hab Hbc.
    + rewrite (cmp_same _ _ _ E1), E2. by apply cmp_lt_trans with b.
    + by rewrite (cmp_same _ _ _ E1), E2.
    + by rewrite <- (cmp_same_r _ a _ _ E2), E1.
    + by rewrite (cmp_lt_trans _ _ _ E1 E2).
Qed.

(** [Ord] of a string: its bytes, one after the other. *)
Fixpoint bytes_cmp (a b : list Z) : comparison :=
  match a, b with
  | [], [] => Eq
  | [], _ :: _ => Lt
  | _ :: _, [] => Gt
  | x :: a, y :: b => then_with (x ?= y) (bytes_cmp a b)
  end.

Lemma bytes_cmp_eq a b : bytes_cmp a b = Eq <-> a = b.
Proof.
  split.
  - revert b. induction a as [|x a IH]; intros [|y b]; cbn; try done.
    unfold then_with. destruct (x ?= y) eqn:E; [|done..]. apply Z.compare_eq_iff in E as ->.
    by intros ->%IH.
  - intros <-. induction a as [|x a IH]; [done|]. cbn. by rewrite Z.compare_refl, IH.
Qed.

#[export] Instance bytes_ordered : Ordered bytes_cmp.
Proof.
  split.
  - intros a. induction a as [|x a IH]; intros [|y b]; cbn; [done..|].
    rewrite (Z.compare_antisym x y), IH. by destruct (x ?= y).
  - intros a b c ->%bytes_cmp_eq. done.
  - intros a. induction a as [|x a IH]; intros [|y b] [|z c]; cbn; try done.
    unfold then_with. destruct (x ?= y) eqn:E1, (y ?= z) eqn:E2; try done; intros Hab Hbc.
    all: rewrite ?Z.compare_eq_iff, ?Z.compare_lt_iff in *; subst.
    all: try (rewrite (proj2 (Z.compare_lt_iff _ _)) by lia; done).
    rewrite Z.compare_refl. by apply IH with b.
Qed.

(** [Ord] of an [Option]: nothing comes first. *)
Definition option_cmp {A} (cmp : A -> A -> comparison) (a b : option A) : comparison :=
  match a, b with
  | None, None => Eq
  | None, Some _ => Lt
  | Some _, None => Gt
  | Some x, Some y => cmp x y
  end.

#[export] Instance option_ordered {A} (cmp : A -> A -> comparison) : Ordered cmp -> Ordered (option_cmp cmp).
Proof.
  intros H. split.
  - intros [a|] [b|]; cbn; [apply cmp_opp|done..].
  - intros [a|] [b|] [c|]; cbn; try done. apply cmp_same.
  - intros [a|] [b|] [c|]; cbn; try done. apply cmp_lt_trans.
Qed.

Definition name_cmp : option (list Z) -> option (list Z) -> comparison := option_cmp bytes_cmp.

Lemma name_cmp_eq a b : name_cmp a b = Eq <-> a = b.
Proof. destruct a as [a|], b as [b|]; cbn; try done. rewrite bytes_cmp_eq. naive_solver. Qed.

Lemma then_with_eq c d : then_with c d = Eq <-> c = Eq /\ d = Eq.
Proof. destruct c; naive_solver. Qed.

(** ** [slice::binary_search]

    The documented behaviour on an ascending slice: the index of some equal
    element, or where the key would go. *)
Class BinarySearch := {
  binary_search : list Z -> Z -> nat + nat;
  binary_search_ok : forall l k, StronglySorted Z.le l ->
    match binary_search l k with
    | inl i => l !! i = Some k
    | inr i => (i <= length l)%nat /\ Forall (fun x => x < k) (take i l) /\ Forall (fun x => k < x) (drop i l)
    end
}.

(** The first of the equal elements. *)
Fixpoint search_first (l : list Z) (k : Z) : nat + nat :=
  match l with
  | [] => inr 0%nat
  | x :: l => match k ?= x with
              | Eq => inl 0%nat
              | Lt => inr 0%nat
              | Gt => match search_first l k with inl i => inl (S i) | inr i => inr (S i) end
              end
  end.

Lemma search_first_ok l k :
  StronglySorted Z.le l ->
  match search_first l k with
  | inl i => l !! i = Some k
  | inr i => (i <= length l)%nat /\ Forall (fun x => x < k) (take i l) /\ Forall (fun x => k < x) (drop i l)
  end.
Proof.
  induction 1 as [|x l Hl IH Hx]; cbn; [by split_and!|]. destruct (Z.compare_spec k x) as [->|Hlt|Hgt]; cbn; [done| |].
  - split; [lia|]. split; [done|]. constructor; [done|]. eapply Forall_impl; [exact Hx|]. cbn. lia.
  - destruct (search_first l k) as [i|i]; cbn; [done|]. destruct IH as (H1 & H2 & H3).
    split; [lia|]. split; [by constructor|done].
Qed.

Definition first_search : BinarySearch := {| binary_search := search_first; binary_search_ok := search_first_ok |}.

(** The last element not above the key, as code finds it with [binary_search]. *)
Definition last_not_above `{BinarySearch} (l : list Z) (k : Z) : option nat :=
  match binary_search l k with
  | inl i => Some i
  | inr 0%nat => None
  | inr (S i) => Some i
  end.

Lemma last_not_above_spec `{BinarySearch} l k :
  StronglySorted Z.lt l ->
  match last_not_above l k with
  | Some i => exists x, l !! i = Some x /\ x <= k /\ forall y, l !! S i = Some y -> k < y
  | None => Forall (fun x => k < x) l
  end.
Proof.
  intros Hl. assert (StronglySorted Z.le l) as Hle by (eapply StronglySorted_weaken; [|exact Hl]; lia).
  unfold last_not_above. pose proof (binary_search_ok l k Hle) as Hs. destruct (binary_search l k) as [i|[|i]].
  - exists k. split; [done|]. split; [lia|]. intros y Hy. apply (StronglySorted_lookup_lt _ _ _ _ _ _ Hl Hs Hy). lia.
  - by destruct Hs as (_ & _ & ?).
  - destruct Hs as (Hi & Hlo & Hhi). destruct (lookup_lt_is_Some_2 l i) as [x Hx]; [lia|]. exists x. split; [done|].
    rewrite Forall_lookup in Hlo, Hhi. split.
    + specialize (Hlo i x). rewrite lookup_take_lt in Hlo by lia. specialize (Hlo Hx). lia.
    + intros y Hy. apply (Hhi 0%nat). by rewrite lookup_drop, Nat.add_0_r.
Qed.
End Order.
