(* ===== verification/Prog.v ===== *)
(** * Programs of atomic sections

    An operation on a shared state as the sequence of what happens at once in
    it, alone ([exec]) and among others: a pool of programs that runs one section
    at a time, and rely-guarantee reasoning about it, where every section keeps
    the invariant and moves the state along a relation on which the other
    programs rely. *)

From S2P Require Import Prelude.

Module Prog.

Inductive prog (S A : Type) :=
  | Done (a : A)
  | Atomic (section : S -> S * prog S A).
Arguments Done {S A} a.
Arguments Atomic {S A} section.

Fixpoint bind {S A B} (p : prog S A) (k : A -> prog S B) : prog S B :=
  match p with
  | Done a => k a
  | Atomic f => Atomic (fun s => let '(s', p') := f s in (s', bind p' k))
  end.

(** [let x := p in q], [p] and then [q]. *)
Notation "'let!' x ':=' p 'in' q" := (bind p (fun x => q))
  (at level 10, x pattern, p at level 100, q at level 200).

(** One section that returns a value. *)
Definition section {S A} (f : S -> S * A) : prog S A :=
  Atomic (fun s => let '(s', a) := f s in (s', Done a)).

Definition reading {S A} (f : S -> A) : prog S A := section (fun s => (s, f s)).
Definition writing {S} (f : S -> S) : prog S unit := section (fun s => (f s, tt)).

(** An operation with nothing else going on. *)
Fixpoint exec {S A} (p : prog S A) (s : S) : S * A :=
  match p with
  | Done a => (s, a)
  | Atomic f => let '(s', p') := f s in exec p' s'
  end.

Lemma prog_induction {S A} (P : prog S A -> Prop) :
  (forall a, P (Done a)) -> (forall f, (forall s, P (f s).2) -> P (Atomic f)) -> forall p, P p.
Proof.
  intros HD HA. fix IH 1. intros [a|f]; [apply HD|]. apply HA. intros s. apply IH.
Qed.

Lemma exec_bind {S A B} (p : prog S A) (k : A -> prog S B) s :
  exec (bind p k) s = exec (k (exec p s).2) (exec p s).1.
Proof.
  revert s. induction p as [a|f IH] using prog_induction; intros s; [done|]. cbn.
  specialize (IH s). by destruct (f s) as [s' p'].
Qed.

Lemma exec_section {S A} (f : S -> S * A) s : exec (section f) s = f s.
Proof. cbn. by destruct (f s). Qed.

Lemma exec_reading {S A} (f : S -> A) s : exec (reading f) s = (s, f s).
Proof. done. Qed.

Lemma exec_writing {S} (f : S -> S) s : exec (writing f) s = (f s, tt).
Proof. done. Qed.

(** The same operation, its result forgotten. *)
Definition forget {S A} (p : prog S A) : prog S unit := let! _ := p in Done tt.

(** ** Rely and guarantee *)

Section RelyGuarantee.
Context {S : Type}.

(** The other programs move the state along [Rely], this one along [Guar];
    [Valid] restricts the states an execution may visit. *)
Context (Inv : S -> Prop) (Rely Guar : relation S) (Valid : S -> Prop).
Context `{!PreOrder Rely}.

Definition stable (P : S -> Prop) : Prop := forall s s', Rely s s' -> P s -> P s'.

(** Started in [s], with the others moving the state along [Rely] between the
    sections, every section of [p] keeps the invariant and moves the state along
    [Guar], and [Q] holds of the result and the state when [p] is done. *)
Fixpoint rg {A} (p : prog S A) (Q : A -> S -> Prop) (s : S) : Prop :=
  match p with
  | Done a => Q a s
  | Atomic f => forall s1, Rely s s1 -> Inv s1 -> Valid (f s1).1 ->
      Inv (f s1).1 /\ Guar s1 (f s1).1 /\ rg (f s1).2 Q (f s1).1
  end.

Lemma rg_bind {A B} (p : prog S A) (k : A -> prog S B) (Q : A -> S -> Prop) Q' s :
  rg p Q s -> (forall a s', Q a s' -> rg (k a) Q' s') -> rg (bind p k) Q' s.
Proof.
  intros Hp Hk. revert s Hp. induction p as [a|f IH] using prog_induction; intros s Hp; [by apply Hk|].
  intros s1 Hs Hi. specialize (Hp s1 Hs Hi). specialize (IH s1 (f s1).1). cbn.
  destruct (f s1) as [s' p']. cbn in *. intros Hv. destruct (Hp Hv) as (? & ? & ?). auto.
Qed.

Lemma rg_mono {A} (p : prog S A) (Q : A -> S -> Prop) s s' :
  (forall a, stable (Q a)) -> Rely s s' -> rg p Q s -> rg p Q s'.
Proof.
  intros HQ Hs. destruct p as [a|f]; [by apply HQ|]. intros Hp s1 Hs1. apply Hp. by trans s'.
Qed.

Lemma rg_weaken {A} (p : prog S A) (Q Q' : A -> S -> Prop) s :
  (forall a s', Q a s' -> Q' a s') -> rg p Q s -> rg p Q' s.
Proof.
  intros HQ. revert s. induction p as [a|f IH] using prog_induction; intros s; [apply HQ|].
  intros Hp s1 Hs Hi Hv. destruct (Hp s1 Hs Hi Hv) as (? & ? & ?). auto.
Qed.

Lemma rg_section {A} (f : S -> S * A) (Q : A -> S -> Prop) s :
  (forall s1, Rely s s1 -> Inv s1 -> Valid (f s1).1 ->
     Inv (f s1).1 /\ Guar s1 (f s1).1 /\ Q (f s1).2 (f s1).1) ->
  rg (section f) Q s.
Proof.
  intros Hf s1 Hs Hi. specialize (Hf s1 Hs Hi). cbn. destruct (f s1) as [s' a]. exact Hf.
Qed.

Lemma rg_reading `{!Reflexive Guar} {A} (f : S -> A) (Q : A -> S -> Prop) s :
  (forall s1, Rely s s1 -> Inv s1 -> Q (f s1) s1) -> rg (reading f) Q s.
Proof. intros Hf. apply rg_section. cbn. intros. split_and!; [done|reflexivity|auto]. Qed.

End RelyGuarantee.

Lemma rg_guarantee {S} (Inv : S -> Prop) (Rely Guar Guar' : relation S) Valid {A} (p : prog S A) (Q : A -> S -> Prop) s :
  (forall s1 s2, Guar' s1 s2 -> Guar s1 s2) -> rg Inv Rely Guar' Valid p Q s -> rg Inv Rely Guar Valid p Q s.
Proof.
  intros HG. revert s. induction p as [a|f IH] using prog_induction; intros s; [done|].
  intros Hp s1 Hs Hi Hv. destruct (Hp s1 Hs Hi Hv) as (? & ? & ?). auto.
Qed.

Lemma rg_rely {S} (Inv : S -> Prop) (Rely Rely' Guar : relation S) Valid {A} (p : prog S A) (Q : A -> S -> Prop) s :
  (forall s1 s2, Rely' s1 s2 -> Rely s1 s2) -> rg Inv Rely Guar Valid p Q s -> rg Inv Rely' Guar Valid p Q s.
Proof.
  intros HR. revert s. induction p as [a|f IH] using prog_induction; intros s; [done|].
  intros Hp s1 Hs Hi Hv. destruct (Hp s1 (HR _ _ Hs) Hi Hv) as (? & ? & ?). auto.
Qed.

(** ** What a program leaves alone *)

Section Quiet.
Context {S C : Type}.

(** No section changes the part [control] of the state. *)
Fixpoint quiet (control : S -> C) {A} (p : prog S A) : Prop :=
  match p with
  | Done _ => True
  | Atomic f => forall s, control (f s).1 = control s /\ quiet control (f s).2
  end.

Context {control : S -> C}.

Lemma quiet_done {A} (a : A) : quiet control (Done a).
Proof. exact I. Qed.

Lemma quiet_bind {A B} (p : prog S A) (k : A -> prog S B) :
  quiet control p -> (forall a, quiet control (k a)) -> quiet control (bind p k).
Proof.
  intros Hp Hk. induction p as [a|f IH] using prog_induction; [apply Hk|]. intros s.
  destruct (Hp s) as [Hc Hq]. specialize (IH s Hq). cbn. by destruct (f s).
Qed.

Lemma quiet_section {A} (f : S -> S * A) : (forall s, control (f s).1 = control s) -> quiet control (section f).
Proof. intros Hf s. specialize (Hf s). cbn. by destruct (f s). Qed.

Lemma quiet_reading {A} (f : S -> A) : quiet control (reading f).
Proof. by apply quiet_section. Qed.

Lemma quiet_writing (f : S -> S) : (forall s, control (f s) = control s) -> quiet control (writing f).
Proof. intros Hf. by apply quiet_section. Qed.

(** Such a program keeps what only depends on that part and on which the others
    may not encroach. *)
Lemma rg_keeps Inv Rely Guar Valid (P : S -> Prop) {A} (p : prog S A) s :
  stable Rely P ->
  (forall s1 s2, control s2 = control s1 -> Inv s1 -> P s1 -> Inv s2 /\ Guar s1 s2 /\ P s2) ->
  quiet control p -> P s -> rg Inv Rely Guar Valid p (fun _ => P) s.
Proof.
  intros HP Hc. revert s. induction p as [a|f IH] using prog_induction; intros s Hq Hs; [exact Hs|].
  intros s1 H1 Hi _. destruct (Hq s1) as [He Hq']. destruct (Hc s1 (f s1).1 He Hi) as (Hi' & Hg & Hs'); [by eapply HP|].
  split_and!; [done..|]. by apply IH.
Qed.

(** Such a program may run anywhere, if that part is all the invariant and the
    guarantee are about. *)
Lemma rg_quiet Inv Rely Guar Valid `{!PreOrder Rely} {A} (p : prog S A) s :
  (forall s1 s2, Guar s1 s2 -> Rely s1 s2) ->
  (forall s1 s2, control s2 = control s1 -> Inv s1 -> Inv s2 /\ Guar s1 s2) ->
  quiet control p -> rg Inv Rely Guar Valid p (fun _ s' => Rely s s') s.
Proof.
  intros HG Hc. enough (forall s0, Rely s0 s -> quiet control p -> rg Inv Rely Guar Valid p (fun _ s' => Rely s0 s') s) by (by apply H).
  revert s. induction p as [a|f IH] using prog_induction; intros s s0 H0 Hq; [done|].
  intros s1 Hs Hi Hv. destruct (Hq s1) as [He Hq']. destruct (Hc s1 (f s1).1 He Hi) as [Hi' Hr].
  split_and!; [done..|]. apply IH; [|done]. do 2 (etrans; [eassumption|]). by apply HG.
Qed.

End Quiet.

(** What leaves a part alone leaves every part of it alone. *)
Lemma quiet_part {S C C' A} (control : S -> C) (part : C -> C') (p : prog S A) :
  quiet control p -> quiet (fun s => part (control s)) p.
Proof.
  induction p as [a|f IH] using prog_induction; [done|]. intros Hp s. destruct (Hp s) as [He Hq].
  split; [by rewrite He|by apply IH].
Qed.

#[export] Hint Resolve quiet_done : core.

(** ** Pools *)

Section Pool.
Context {S : Type}.

(** [handle r] serves the request [r]; only [allowed] requests arrive. *)
Context {Req : Type} (handle : Req -> prog S unit) (allowed : Req -> Prop).
Context (Valid : S -> Prop).

Abbreviation config := (S * list (Req * prog S unit))%type.

Inductive step : config -> config -> Prop :=
  | arrive s ps r : allowed r -> step (s, ps) (s, ps ++ [(r, handle r)])
  | progress s ps i r f :
      ps !! i = Some (r, Atomic f) -> Valid (f s).1 ->
      step (s, ps) ((f s).1, <[i := (r, (f s).2)]> ps).

Definition finished (ps : list (Req * prog S unit)) : Prop := Forall (fun e => e.2 = Done tt) ps.

(** The choices of a scheduler: what arrives, and whose next section runs. *)
Definition choose (c : config) (choice : Req + nat) : config :=
  match choice with
  | inl r => (c.1, c.2 ++ [(r, handle r)])
  | inr i =>
      match c.2 !! i with
      | Some (r, Atomic f) => let '(s', p') := f c.1 in (s', <[i := (r, p')]> c.2)
      | _ => c
      end
  end.

Definition schedule (c : config) (choices : list (Req + nat)) : config := foldl choose c choices.

(** What arrives is allowed and the states visited are valid. *)
Fixpoint legal (c : config) (choices : list (Req + nat)) : Prop :=
  match choices with
  | [] => True
  | choice :: choices =>
      match choice with inl r => allowed r | inr _ => Valid (choose c choice).1 end /\
      legal (choose c choice) choices
  end.

Lemma schedule_steps c choices : legal c choices -> rtc step c (schedule c choices).
Proof.
  revert c. induction choices as [|x l IH]; intros c Hl; [reflexivity|]. destruct Hl as [Hx Hl].
  etrans; [|by apply IH]. destruct c as [s ps]. destruct x as [r|i]; [by apply rtc_once, arrive|].
  cbn in *. destruct (ps !! i) as [[r [a|f]]|] eqn:Hi; try reflexivity.
  pose proof (progress s ps i r f Hi) as Hs. destruct (f s). by apply rtc_once, Hs.
Qed.

Section Sound.

(** What the program at each place of the pool relies on and guarantees, and what
    they all do together. *)
Context (Inv : S -> Prop) (Rely Guar : nat -> relation S) (Rel : relation S).
Context `{!forall i, PreOrder (Rely i), !PreOrder Rel}.
Context (Start : S -> Prop) (post : nat -> Req -> S -> Prop).
Hypothesis respected : forall i j s s', i <> j -> Guar i s s' -> Rely j s s'.
Hypothesis together : forall i s s', Guar i s s' -> Rel s s'.

(** What is left of each program meets its guarantee. *)
Definition guaranteed (c : config) : Prop :=
  forall i r p, c.2 !! i = Some (r, p) -> rg Inv (Rely i) (Guar i) Valid p (fun _ => post i r) c.1.

Lemma guaranteed_moves s s' ps :
  (forall i r, stable (Rely i) (post i r)) -> (forall i, Rely i s s') -> guaranteed (s, ps) -> guaranteed (s', ps).
Proof.
  intros Hpost Hr Hg i r p Hi. eapply (rg_mono _ _ _ _ _ _ s); [intros _; apply Hpost|apply Hr|by apply Hg].
Qed.

(** What the programs guarantee one by one holds of the pool. *)
Lemma pool_sound c0 c :
  (forall i r s, (length c0.2 <= i)%nat -> allowed r -> Start s ->
     rg Inv (Rely i) (Guar i) Valid (handle r) (fun _ => post i r) s) ->
  stable Rel Start -> (forall i r, stable (Rely i) (post i r)) ->
  Inv c0.1 -> Start c0.1 -> guaranteed c0 -> rtc step c0 c ->
  Inv c.1 /\ Rel c0.1 c.1 /\ (length c0.2 <= length c.2)%nat /\ guaranteed c.
Proof.
  intros Hh HS Hpost Hi0 HS0 Hg0 Hsteps.
  apply (rtc_ind_r (fun c => Inv c.1 /\ Rel c0.1 c.1 /\ (length c0.2 <= length c.2)%nat /\ guaranteed c) c0)
    in Hsteps; [done|by split_and!|].
  intros c1 c2 _ Hlast (Hi & Hr & Hlen & Hg).
  destruct Hlast as [s1 ps1 r Ha|s1 ps1 i r f Hlk Hv]; cbn in *.
  - split_and!; [done..|rewrite length_app; lia|]. intros i r' p [Hold|[Hge Hn]]%lookup_app_Some; [by apply Hg|].
    apply list_lookup_singleton_Some in Hn as [_ [= <- <-]]. apply Hh; [lia|done|]. by eapply HS.
  - destruct (Hg _ _ _ Hlk s1) as (Hi' & Hr' & Hp'); [reflexivity|done..|].
    split_and!; [done|trans s1; [done|by eapply together]|by rewrite length_insert|].
    intros j r' p Hj. cbn in *. apply list_lookup_insert_Some in Hj as [(<- & [= <- <-] & _)|[Hne Hj]]; [done|].
    eapply (rg_mono _ _ _ _ _ _ s1); [intros _; apply Hpost|by eapply respected|by apply Hg].
Qed.

End Sound.

End Pool.

End Prog.
