(* ===== verification/Kdebug.v ===== *)
(** * kdebug records and their debugid encoding

    [stax-mac-kperf-sys/src/kdebug.rs]: the [KdBuf] record, the 32-bit debugid
    split into class, subclass, code and function qualifier, the typefilter
    bitmap and the bounds check of [read_trace].  The [sysctl] calls are the
    kernel's; what they return is an argument. *)

From S2P Require Import Prelude.

Module Kdebug.

Definition KDBG_CLASS_MASK : Z := 0xff000000.
Definition KDBG_CLASS_SHIFT : Z := 24.
Definition KDBG_SUBCLASS_MASK : Z := 0x00ff0000.
Definition KDBG_SUBCLASS_SHIFT : Z := 16.
Definition KDBG_CODE_MASK : Z := 0x0000fffc.
Definition KDBG_CODE_SHIFT : Z := 2.
Definition KDBG_FUNC_MASK : Z := 0x00000003.
Definition KDBG_TYPEFILTER_BITMAP_SIZE : Z := 256 * 256 / 8.

Definition DBG_FUNC_NONE : Z := 0.
Definition DBG_FUNC_START : Z := 1.
Definition DBG_FUNC_END : Z := 2.

Definition KDBG_TIMESTAMP_MASK : Z := 0x00ffffffffffffff.

(** The shifted operands are widened to [u32] first and stay below [2^32] for
    8-bit classes and subclasses, so no bit is shifted out. *)
Definition kdbg_eventid (class subclass code : Z) : Z :=
  Z.lor (Z.lor (Z.shiftl class KDBG_CLASS_SHIFT) (Z.shiftl subclass KDBG_SUBCLASS_SHIFT))
        (Z.shiftl (Z.land code 0x3fff) KDBG_CODE_SHIFT).

Definition kdbg_class (debugid : Z) : Z :=
  as_u8 (Z.shiftr (Z.land debugid KDBG_CLASS_MASK) KDBG_CLASS_SHIFT).

Definition kdbg_subclass (debugid : Z) : Z :=
  as_u8 (Z.shiftr (Z.land debugid KDBG_SUBCLASS_MASK) KDBG_SUBCLASS_SHIFT).

Definition kdbg_csc (class subclass : Z) : Z :=
  Z.lor (as_u16 (Z.shiftl class 8)) subclass.

Definition kdbg_code (debugid : Z) : Z :=
  as_u16 (Z.shiftr (Z.land debugid KDBG_CODE_MASK) KDBG_CODE_SHIFT).

Definition kdbg_func (debugid : Z) : Z := Z.land debugid KDBG_FUNC_MASK.

Definition DBG_MACH : Z := 1.
Definition DBG_MACH_SCHED : Z := 0x40.

(** [mod mach_sched] *)
Definition SCHED : Z := 0x0.
Definition STKHANDOFF : Z := 0x8.
Definition MAKERUNNABLE : Z := 0x4.

Definition DBG_PERF : Z := 37.

(** [perf::sc], [perf::cs] and [perf::kpc], the codes the parser matches. *)
Definition sc_GENERIC : Z := 0.
Definition sc_CALLSTACK : Z := 2.
Definition sc_KPC : Z := 6.
Definition cs_KSAMPLE : Z := 0.
Definition cs_KDATA : Z := 3.
Definition cs_UDATA : Z := 4.
Definition cs_KHDR : Z := 5.
Definition cs_UHDR : Z := 6.
Definition cs_ERROR : Z := 7.
Definition kpc_DATA_THREAD : Z := 8.

(** One kdebug record. *)
Record KdBuf := mkKdBuf {
  timestamp : Z;
  arg1 : Z;
  arg2 : Z;
  arg3 : Z;
  arg4 : Z;
  arg5 : Z;
  debugid : Z;
  cpuid : Z;
  unused : Z
}.

#[export] Instance eta_KdBuf : Eta KdBuf := fun r =>
  mkKdBuf (timestamp r) (arg1 r) (arg2 r) (arg3 r) (arg4 r) (arg5 r)
          (debugid r) (cpuid r) (unused r).

(** [filter[csc / 8] |= 1u8 << (csc % 8)] *)
Definition typefilter_set (filter : list Z) (csc : Z) : list Z :=
  alter (fun b => Z.lor b (Z.shiftl 1 (csc mod 8))) (Z.to_nat (csc / 8)) filter.

(** The bitmap [set_typefilter] hands to the kernel. *)
Definition set_typefilter (cscs : list Z) : list Z :=
  foldl typefilter_set (replicate (Z.to_nat KDBG_TYPEFILTER_BITMAP_SIZE) 0) cscs.

(** The bit of one (class, subclass) pair in a bitmap. *)
Definition typefilter_bit (filter : list Z) (csc : Z) : bool :=
  match filter !! Z.to_nat (csc / 8) with
  | Some b => Z.testbit b (csc mod 8)
  | None => false
  end.

(** [read_trace]: what the function answers for a buffer of [buf_len] records
    when the kernel returned [rc] and rewrote the size to [size]. *)
Inductive read_error := SysctlFailed | InvalidData (size : Z).

Definition read_trace (buf_len rc size : Z) : sum read_error Z :=
  if bool_decide (buf_len = 0) then inr 0
  else if bool_decide (rc < 0) then inl SysctlFailed
  else if bool_decide (buf_len < size) then inl (InvalidData size)
  else inr size.

#[global] Arguments kdbg_eventid : simpl never.
#[global] Arguments kdbg_class : simpl never.
#[global] Arguments kdbg_subclass : simpl never.
#[global] Arguments kdbg_code : simpl never.
#[global] Arguments kdbg_func : simpl never.

(** ** Lemmas *)

Lemma field_extract d w s :
  0 <= w -> 0 <= s ->
  Z.shiftr (Z.land d (Z.shiftl (Z.ones w) s)) s = (d / 2 ^ s) mod 2 ^ w.
Proof.
  intros Hw Hs. rewrite Z.shiftr_land, Z.shiftr_shiftl_l, Z.sub_diag, Z.shiftl_0_r by lia.
  by rewrite Z.land_ones, Z.shiftr_div_pow2 by lia.
Qed.

Lemma lor_shiftl_add a b s :
  0 <= s -> 0 <= a < 2 ^ s -> Z.lor (Z.shiftl b s) a = b * 2 ^ s + a.
Proof.
  intros Hs Ha. rewrite <- Z.shiftl_mul_pow2 by lia.
  symmetry. rewrite <- Z.lxor_lor; [apply Z.add_nocarry_lxor|].
  all: apply Z.bits_inj'; intros n Hn; rewrite Z.land_spec, Z.bits_0.
  all: destruct (Z.lt_ge_cases n s);
    [by rewrite Z.shiftl_spec_low by lia |].
  all: rewrite (Z.mod_small_iff a (2 ^ s)) in * || idtac.
  all: replace (Z.testbit a n) with false; [apply andb_false_r|].
  all: symmetry; rewrite <- (Z.mod_small a (2 ^ s)) by lia;
    apply Z.mod_pow2_bits_high; lia.
Qed.

Lemma is_u32_lor a b : is_u32 a -> is_u32 b -> is_u32 (Z.lor a b).
Proof.
  unfold is_u32. intros Ha Hb.
  assert (Z.lor a b = Z.lor a b mod 2 ^ 32) as ->.
  { rewrite <- (Z.mod_small a (2 ^ 32)), <- (Z.mod_small b (2 ^ 32)) by lia.
    rewrite <- !Z.land_ones, <- Z.land_lor_distr_l by lia.
    by rewrite <- Z.land_assoc, Z.land_diag. }
  by apply Z.mod_pos_bound.
Qed.

(** The debugid as arithmetic. *)
Lemma eventid_arith class subclass code :
  0 <= subclass < 2 ^ 8 -> 0 <= code < 2 ^ 14 ->
  kdbg_eventid class subclass code = class * 2 ^ 24 + subclass * 2 ^ 16 + code * 2 ^ 2.
Proof.
  intros Hs Hc. unfold kdbg_eventid, KDBG_CLASS_SHIFT, KDBG_SUBCLASS_SHIFT, KDBG_CODE_SHIFT.
  replace 0x3fff with (Z.ones 14) by done.
  rewrite Z.land_ones, (Z.mod_small code) by lia.
  rewrite <- Z.lor_assoc, (Z.shiftl_mul_pow2 code) by lia.
  rewrite (lor_shiftl_add (code * 2 ^ 2) subclass 16) by lia.
  rewrite lor_shiftl_add by lia. lia.
Qed.

Lemma kdbg_class_arith d : kdbg_class d = (d / 2 ^ 24) mod 2 ^ 8.
Proof.
  unfold kdbg_class, as_u8. change KDBG_CLASS_MASK with (Z.shiftl (Z.ones 8) 24).
  unfold KDBG_CLASS_SHIFT. rewrite field_extract by lia. by rewrite Z.mod_mod by lia.
Qed.

Lemma kdbg_subclass_arith d : kdbg_subclass d = (d / 2 ^ 16) mod 2 ^ 8.
Proof.
  unfold kdbg_subclass, as_u8. change KDBG_SUBCLASS_MASK with (Z.shiftl (Z.ones 8) 16).
  unfold KDBG_SUBCLASS_SHIFT. rewrite field_extract by lia. by rewrite Z.mod_mod by lia.
Qed.

Lemma kdbg_code_arith d : kdbg_code d = (d / 2 ^ 2) mod 2 ^ 14.
Proof.
  unfold kdbg_code, as_u16. change KDBG_CODE_MASK with (Z.shiftl (Z.ones 14) 2).
  unfold KDBG_CODE_SHIFT. rewrite field_extract by lia.
  rewrite Z.mod_small; [done|]. pose proof (Z.mod_pos_bound (d / 2 ^ 2) (2 ^ 14)). lia.
Qed.

Lemma kdbg_func_arith d : kdbg_func d = d mod 2 ^ 2.
Proof.
  unfold kdbg_func. change KDBG_FUNC_MASK with (Z.ones 2). by rewrite Z.land_ones by lia.
Qed.

(** The fields of a debugid made of an event id and a function qualifier. *)
Lemma debugid_fields class subclass code func :
  0 <= class < 2 ^ 8 -> 0 <= subclass < 2 ^ 8 -> 0 <= code < 2 ^ 14 -> 0 <= func < 4 ->
  let d := Z.lor (kdbg_eventid class subclass code) func in
  kdbg_class d = class /\ kdbg_subclass d = subclass /\ kdbg_code d = code /\ kdbg_func d = func.
Proof.
  intros Hcl Hs Hc Hf d.
  assert (d = class * 2 ^ 24 + subclass * 2 ^ 16 + code * 2 ^ 2 + func) as ->.
  { subst d. rewrite eventid_arith by lia.
    replace (class * 2 ^ 24 + subclass * 2 ^ 16 + code * 2 ^ 2)
      with (Z.shiftl (class * 2 ^ 22 + subclass * 2 ^ 14 + code) 2)
      by (rewrite Z.shiftl_mul_pow2; lia).
    by rewrite lor_shiftl_add, Z.shiftl_mul_pow2 by lia. }
  rewrite kdbg_class_arith, kdbg_subclass_arith, kdbg_code_arith, kdbg_func_arith.
  change (2 ^ 24) with 16777216. change (2 ^ 16) with 65536. change (2 ^ 2) with 4.
  change (2 ^ 8) with 256 in *. change (2 ^ 14) with 16384 in *.
  split_ands; Z.to_euclidean_division_equations; lia.
Qed.

Lemma typefilter_set_length filter csc :
  length (typefilter_set filter csc) = length filter.
Proof. apply length_alter. Qed.

Lemma typefilter_bit_set filter c d :
  length filter = Z.to_nat KDBG_TYPEFILTER_BITMAP_SIZE ->
  0 <= c < 2 ^ 16 -> 0 <= d < 2 ^ 16 ->
  typefilter_bit (typefilter_set filter c) d = typefilter_bit filter d || bool_decide (c = d).
Proof.
  intros Hlen Hc Hd. unfold typefilter_bit, typefilter_set.
  assert (Hdiv : forall z, 0 <= z < 2 ^ 16 -> 0 <= z / 8 < 8192)
    by (intros; Z.to_euclidean_division_equations; lia).
  destruct (decide (c / 8 = d / 8)) as [Heq|Hne].
  - rewrite Heq, list_lookup_alter.
    destruct (lookup_lt_is_Some_2 filter (Z.to_nat (d / 8))) as [b ->].
    { rewrite Hlen. change (Z.to_nat KDBG_TYPEFILTER_BITMAP_SIZE) with (Z.to_nat 8192).
      specialize (Hdiv d Hd). lia. }
    simpl. rewrite decide_True by done. simpl. rewrite Z.lor_spec. f_equal.
    rewrite Z.shiftl_1_l, Z.pow2_bits_eqb by (apply Z.mod_pos_bound; lia).
    destruct (Z.eqb_spec (c mod 8) (d mod 8)); symmetry;
      [apply bool_decide_eq_true_2 | apply bool_decide_eq_false_2];
      pose proof (Z.div_mod c 8); pose proof (Z.div_mod d 8); congruence || lia.
  - rewrite list_lookup_alter_ne by (pose proof (Hdiv c Hc); pose proof (Hdiv d Hd); lia).
    rewrite (bool_decide_eq_false_2 (c = d)) by congruence. by rewrite orb_false_r.
Qed.

Lemma typefilter_fold cscs filter d :
  length filter = Z.to_nat KDBG_TYPEFILTER_BITMAP_SIZE ->
  Forall (fun c => 0 <= c < 2 ^ 16) cscs -> 0 <= d < 2 ^ 16 ->
  typefilter_bit (foldl typefilter_set filter cscs) d =
  typefilter_bit filter d || bool_decide (d ∈ cscs).
Proof.
  revert filter; induction cscs as [|c cscs IH]; intros filter Hlen Hall Hd; cbn [foldl].
  - rewrite bool_decide_eq_false_2 by apply not_elem_of_nil. by rewrite orb_false_r.
  - inversion_clear Hall as [|?? Hc Hall'].
    rewrite IH, typefilter_bit_set by (by rewrite ?typefilter_set_length).
    rewrite <- orb_assoc. f_equal.
    apply eq_true_iff_eq. rewrite orb_true_iff, !bool_decide_eq_true, elem_of_cons.
    naive_solver.
Qed.

(** ** Properties *)

(** A debugid built from an event id and a function qualifier decodes to
    the same class, subclass, code and qualifier, for every field in range. *)
Theorem debugid_roundtrip class subclass code func :
  0 <= class < 2 ^ 8 -> 0 <= subclass < 2 ^ 8 -> 0 <= code < 2 ^ 14 -> 0 <= func < 4 ->
  let d := Z.lor (kdbg_eventid class subclass code) func in
  is_u32 d /\
  kdbg_class d = class /\ kdbg_subclass d = subclass /\ kdbg_code d = code /\ kdbg_func d = func.
Proof.
  intros Hcl Hs Hc Hf d. split; [|by apply debugid_fields].
  subst d. apply is_u32_lor; [|unfold is_u32; lia].
  rewrite eventid_arith by lia. unfold is_u32. lia.
Qed.

Lemma debugid_roundtrip_witness :
  kdbg_code (Z.lor (kdbg_eventid DBG_PERF sc_CALLSTACK cs_UDATA) DBG_FUNC_END) = cs_UDATA.
Proof.
  apply (debugid_roundtrip DBG_PERF sc_CALLSTACK cs_UDATA DBG_FUNC_END);
    vm_compute; split; congruence.
Defined.

(** The bitmap [set_typefilter] installs has the bit of a (class, subclass)
    pair set exactly when the pair was requested. *)
Theorem typefilter_exact cscs d :
  Forall (fun c => 0 <= c < 2 ^ 16) cscs -> 0 <= d < 2 ^ 16 ->
  typefilter_bit (set_typefilter cscs) d = bool_decide (d ∈ cscs).
Proof.
  intros Hall Hd. unfold set_typefilter.
  rewrite typefilter_fold by (done || apply length_replicate).
  replace (typefilter_bit _ d) with false; [done|].
  unfold typefilter_bit. destruct (_ !! _) as [b|] eqn:Hb; [|done].
  apply lookup_replicate in Hb as [-> _]. by rewrite Z.bits_0.
Qed.

Lemma typefilter_exact_witness :
  typefilter_bit (set_typefilter [kdbg_csc DBG_PERF sc_CALLSTACK; kdbg_csc DBG_MACH DBG_MACH_SCHED])
    (kdbg_csc DBG_MACH DBG_MACH_SCHED) = true.
Proof.
  rewrite typefilter_exact; [reflexivity| |vm_compute; split; congruence].
  repeat constructor; vm_compute; congruence.
Defined.

End Kdebug.
