(* ===== verification/Parser.v ===== *)
(** * The kperf sample parser

    [stax-mac-kperf-parse/src/parser.rs]: the state machine that turns the
    kdebug record stream into one [Sample] per [PERF_GEN_EVENT] bracket. *)

From S2P Require Import Prelude Kdebug.

Module Parser.
Import Kdebug.

(** One completed sample; the borrowed slices of the source are values here. *)
Record Sample := mkSample {
  s_timestamp_ns : Z;
  s_tid : Z;
  user_backtrace : list Z;
  kernel_backtrace : list Z;
  s_pmc : list Z
}.

Record ParserStats := mkParserStats {
  samples_emitted : Z;
  samples_started : Z;
  samples_orphaned : Z;
  user_walk_errors : Z;
  kernel_walk_errors : Z
}.

#[export] Instance eta_ParserStats : Eta ParserStats := fun s =>
  mkParserStats (samples_emitted s) (samples_started s) (samples_orphaned s)
                (user_walk_errors s) (kernel_walk_errors s).

Inductive State :=
  | Idle
  | InSample (tid timestamp_ns : Z).

Record Parser := mkParser {
  state : State;
  user_frames : list Z;
  kernel_frames : list Z;
  pmc : list Z;
  user_main_frames : Z;
  user_remaining : Z;
  kernel_remaining : Z;
  stats : ParserStats
}.

#[export] Instance eta_Parser : Eta Parser := fun p =>
  mkParser (state p) (user_frames p) (kernel_frames p) (pmc p)
           (user_main_frames p) (user_remaining p) (kernel_remaining p) (stats p).

Definition new : Parser :=
  mkParser Idle [] [] [] 0 0 0 (mkParserStats 0 0 0 0 0).

Definition in_sample (p : Parser) : bool :=
  match state p with InSample _ _ => true | Idle => false end.

Definition is_zero (a : Z) : bool := bool_decide (a = 0).

(** The prefix before the first NULL frame. *)
Definition before_null (frames : list Z) : list Z :=
  take (default (length frames) (position is_zero frames)) frames.

(** The prefix up to the last non-zero counter. *)
Definition trim_pmc (pmc : list Z) : list Z :=
  take (default 0%nat (S <$> rposition (fun v => negb (is_zero v)) pmc)) pmc.

Definition chunk (rec : KdBuf) : list Z := [arg1 rec; arg2 rec; arg3 rec; arg4 rec].

(** [append_chunk]: [take] frames of the chunk, then [remaining -= 4]
    (saturating). *)
Definition append_chunk (rec : KdBuf) (user : bool) (p : Parser) : Parser :=
  let remaining := if user then user_remaining p else kernel_remaining p in
  let n := Z.to_nat (Z.min remaining 4) in
  let taken := take n (chunk rec) in
  if user then
    p <| user_frames ::= fun fs => fs ++ taken |> <| user_remaining := ssub remaining 4 |>
  else
    p <| kernel_frames ::= fun fs => fs ++ taken |> <| kernel_remaining := ssub remaining 4 |>.

Section WithStrip.

(** [strip_code_ptr]: on aarch64 the [xpaci] instruction, elsewhere the
    identity ([strip_code_ptr_generic] below). *)
Variable strip_code_ptr : Z -> Z.

(** [normalize_user_fixup] *)
Definition normalize_user_fixup (p : Parser) : Parser :=
  let main := Nat.min (Z.to_nat (user_main_frames p)) (length (user_frames p)) in
  if bool_decide (main < 2)%nat then p else
  let fixup_index := (main - 1)%nat in
  let fixup := strip_code_ptr (default 0 (user_frames p !! fixup_index)) in
  if bool_decide (fixup = 0) then p else
  if bool_decide (1 < fixup_index)%nat
     && bool_decide (strip_code_ptr <$> (user_frames p !! 1%nat) = Some fixup) then
    p <| user_frames := vec_remove fixup_index (user_frames p) |>
  else
    p <| user_frames := vec_insert 1 fixup (vec_remove fixup_index (user_frames p)) |>.

(** The [PERF_GEN_EVENT | DBG_FUNC_START] arm. *)
Definition begin_sample (rec : KdBuf) (p : Parser) : Parser :=
  let st := if in_sample p
            then (stats p) <| samples_orphaned ::= fun n => wadd64 n 1 |>
            else stats p in
  mkParser
    (InSample (as_u32 (arg5 rec)) (Z.land (timestamp rec) KDBG_TIMESTAMP_MASK))
    [] [] [] 0 0 0
    (st <| samples_started ::= fun n => wadd64 n 1 |>).

(** The [PERF_GEN_EVENT | DBG_FUNC_END] arm: the sample handed to [emit]. *)
Definition end_sample (p : Parser) : Parser * option Sample :=
  match state p with
  | InSample tid timestamp_ns =>
      let p := normalize_user_fixup p in
      let sample := mkSample timestamp_ns tid (before_null (user_frames p))
                      (before_null (kernel_frames p)) (trim_pmc (pmc p)) in
      (p <| stats ::= fun st => st <| samples_emitted ::= fun n => wadd64 n 1 |> |>
         <| state := Idle |>, Some sample)
  | Idle => (p <| state := Idle |>, None)
  end.

(** The [PERF_CS_UHDR] and [PERF_CS_KHDR] arms. *)
Definition user_header (rec : KdBuf) (p : Parser) : Parser :=
  let main := as_u32 (arg2 rec) in
  let async_n := as_u32 (arg4 rec) in
  p <| user_main_frames := main |> <| user_remaining := sadd32 main async_n |>.

Definition kernel_header (rec : KdBuf) (p : Parser) : Parser :=
  let main := as_u32 (arg2 rec) in
  let async_n := as_u32 (arg4 rec) in
  p <| kernel_remaining := sadd32 main async_n |>.

(** The [PERF_CS_ERROR] arm. *)
Definition walk_error (rec : KdBuf) (p : Parser) : Parser :=
  if bool_decide (arg1 rec = cs_KSAMPLE) then
    p <| stats ::= fun st => st <| kernel_walk_errors ::= fun n => wadd64 n 1 |> |>
  else
    p <| stats ::= fun st => st <| user_walk_errors ::= fun n => wadd64 n 1 |> |>.

(** [Parser::feed]; the second component is the argument of [emit], when it is
    called. *)
Definition feed (p : Parser) (rec : KdBuf) : Parser * option Sample :=
  if bool_decide (kdbg_class (debugid rec) <> DBG_PERF) then (p, None) else
  let subclass := kdbg_subclass (debugid rec) in
  let code := kdbg_code (debugid rec) in
  let func := kdbg_func (debugid rec) in
  let when_in_sample (f : Parser -> Parser) := (if in_sample p then f p else p, None) in
  if bool_decide (subclass = sc_GENERIC /\ code = 0 /\ func = DBG_FUNC_START) then
    (begin_sample rec p, None)
  else if bool_decide (subclass = sc_GENERIC /\ code = 0 /\ func = DBG_FUNC_END) then
    end_sample p
  else if bool_decide (subclass = sc_CALLSTACK /\ code = cs_UHDR) then
    when_in_sample (user_header rec)
  else if bool_decide (subclass = sc_CALLSTACK /\ code = cs_UDATA) then
    when_in_sample (append_chunk rec true)
  else if bool_decide (subclass = sc_CALLSTACK /\ code = cs_KHDR) then
    when_in_sample (kernel_header rec)
  else if bool_decide (subclass = sc_CALLSTACK /\ code = cs_KDATA) then
    when_in_sample (append_chunk rec false)
  else if bool_decide (subclass = sc_KPC /\ code = kpc_DATA_THREAD) then
    when_in_sample (fun p => p <| pmc ::= fun l => l ++ chunk rec |>)
  else if bool_decide (subclass = sc_CALLSTACK /\ code = cs_ERROR) then
    (walk_error rec p, None)
  else (p, None).

(** The driver's loop over a batch: the samples in emission order. *)
Fixpoint feed_all (p : Parser) (recs : list KdBuf) : Parser * list Sample :=
  match recs with
  | [] => (p, [])
  | rec :: recs' =>
      let '(p1, o) := feed p rec in
      let '(p2, out) := feed_all p1 recs' in
      (p2, from_option (fun s => [s]) [] o ++ out)
  end.

End WithStrip.

#[global] Arguments feed : simpl never.

(** The fallback body of [strip_code_ptr]. *)
Definition strip_code_ptr_generic (ptr : Z) : Z := ptr.

(** ** Lemmas *)

Lemma before_null_no_zero fs : 0 ∉ before_null fs.
Proof.
  unfold before_null. destruct (position is_zero fs) as [i|] eqn:Hp; simpl.
  - apply position_Some in Hp as (x & _ & _ & Hall).
    intros Hin. rewrite Forall_forall in Hall. apply Hall in Hin. discriminate.
  - rewrite take_ge by done. apply position_None in Hp.
    intros Hin. rewrite Forall_forall in Hp. apply Hp in Hin. discriminate.
Qed.

Lemma before_null_prefix fs : before_null fs `prefix_of` fs.
Proof. exists (drop (default (length fs) (position is_zero fs)) fs). symmetry. apply take_drop. Qed.

Lemma before_null_id fs : 0 ∉ fs -> before_null fs = fs.
Proof.
  intros Hz. unfold before_null.
  assert (position is_zero fs = None) as ->; [|by simpl; rewrite take_ge].
  apply position_None, Forall_forall. intros x Hx.
  apply bool_decide_eq_false_2. congruence.
Qed.

Lemma trim_pmc_last pmc : last (trim_pmc pmc) <> Some 0.
Proof.
  unfold trim_pmc, rposition. destruct (position _ (reverse pmc)) as [i|] eqn:Hp; simpl; [|done].
  apply position_Some in Hp as (x & Hx & Hnz & _).
  rewrite reverse_lookup in Hx by (apply lookup_lt_Some in Hx; by rewrite length_reverse in Hx).
  rewrite (take_S_r _ _ x) by (rewrite <- Hx; f_equal; lia).
  rewrite last_snoc. intros [= ->]. discriminate.
Qed.

(** A record of the [DBG_PERF] class with the given subclass, code and
    qualifier. *)
Definition perf_record (rec : KdBuf) (sc code func : Z) : Prop :=
  kdbg_class (debugid rec) = DBG_PERF /\ kdbg_subclass (debugid rec) = sc /\
  kdbg_code (debugid rec) = code /\ kdbg_func (debugid rec) = func.

(** [codes] closes a goal that compares concrete subclasses and codes. *)
Ltac codes := unfold sc_GENERIC, sc_CALLSTACK, sc_KPC, cs_UHDR, cs_UDATA, cs_KHDR,
  cs_KDATA, cs_ERROR, kpc_DATA_THREAD, DBG_FUNC_START, DBG_FUNC_END, DBG_FUNC_NONE in *; lia.

Ltac feed_arm :=
  intros (Hc & Hs & Hk & Hf); unfold feed; rewrite Hc, Hs, Hk, Hf;
  repeat (rewrite bool_decide_eq_false_2 by codes);
  try (rewrite bool_decide_eq_true_2 by codes).

Section WithStrip.
Variable strip_code_ptr : Z -> Z.
Local Abbreviation feed := (feed strip_code_ptr).
Local Abbreviation feed_all := (feed_all strip_code_ptr).

Lemma feed_start p rec :
  perf_record rec sc_GENERIC 0 DBG_FUNC_START -> feed p rec = (begin_sample rec p, None).
Proof. by feed_arm. Qed.

Lemma feed_end p rec :
  perf_record rec sc_GENERIC 0 DBG_FUNC_END -> feed p rec = end_sample strip_code_ptr p.
Proof. by feed_arm. Qed.

Lemma feed_uhdr p rec f :
  in_sample p = true -> perf_record rec sc_CALLSTACK cs_UHDR f ->
  feed p rec = (user_header rec p, None).
Proof. intros Hin. feed_arm. by rewrite Hin. Qed.

Lemma feed_udata p rec f :
  in_sample p = true -> perf_record rec sc_CALLSTACK cs_UDATA f ->
  feed p rec = (append_chunk rec true p, None).
Proof. intros Hin. feed_arm. by rewrite Hin. Qed.

Lemma feed_khdr p rec f :
  in_sample p = true -> perf_record rec sc_CALLSTACK cs_KHDR f ->
  feed p rec = (kernel_header rec p, None).
Proof. intros Hin. feed_arm. by rewrite Hin. Qed.

Lemma feed_kdata p rec f :
  in_sample p = true -> perf_record rec sc_CALLSTACK cs_KDATA f ->
  feed p rec = (append_chunk rec false p, None).
Proof. intros Hin. feed_arm. by rewrite Hin. Qed.

Lemma feed_kpc p rec f :
  in_sample p = true -> perf_record rec sc_KPC kpc_DATA_THREAD f ->
  feed p rec = (p <| pmc ::= fun l => l ++ chunk rec |>, None).
Proof. intros Hin. feed_arm. by rewrite Hin. Qed.

(** Every record takes one of five shapes. *)
Lemma feed_cases p rec :
  feed p rec = (begin_sample rec p, None) \/
  feed p rec = end_sample strip_code_ptr p \/
  (exists p', feed p rec = (p', None) /\ state p' = state p /\
     samples_started (stats p') = samples_started (stats p) /\
     samples_emitted (stats p') = samples_emitted (stats p) /\
     samples_orphaned (stats p') = samples_orphaned (stats p)).
Proof.
  unfold feed, in_sample. repeat case_bool_decide; auto; right; right.
  all: try (by exists p).
  1-5: destruct (state p) eqn:Hst; eexists; (split; [done|]); by split_ands.
  unfold walk_error. case_bool_decide; by eexists.
Qed.

Lemma feed_all_app p l1 l2 :
  feed_all p (l1 ++ l2) =
  let '(p1, o1) := feed_all p l1 in
  let '(p2, o2) := feed_all p1 l2 in (p2, o1 ++ o2).
Proof.
  revert p; induction l1 as [|r l1 IH]; intros p; cbn [app Parser.feed_all].
  - by destruct (feed_all p l2).
  - destruct (feed p r) as [p1 o]. rewrite IH.
    destruct (feed_all p1 l1) as [p2 o1], (feed_all p2 l2) as [p3 o2].
    by rewrite app_assoc.
Qed.

Lemma normalize_frame_only p :
  let p' := normalize_user_fixup strip_code_ptr p in
  state p' = state p /\ kernel_frames p' = kernel_frames p /\ pmc p' = pmc p /\ stats p' = stats p.
Proof. unfold normalize_user_fixup. repeat case_bool; done. Qed.

(** [samples_started] counts the emitted, the orphaned and the open sample. *)
Definition stats_balanced (p : Parser) : Prop :=
  samples_started (stats p) =
  as_u64 (samples_emitted (stats p) + samples_orphaned (stats p) + Z.b2z (in_sample p)).

Lemma feed_balanced p rec : stats_balanced p -> stats_balanced (fst (feed p rec)).
Proof.
  unfold stats_balanced. intros Hb.
  destruct (feed_cases p rec) as [->|[->|(p' & -> & Hst & H1 & H2 & H3)]]; simpl.
  - unfold in_sample in *. destruct (state p); simpl in *; rewrite Hb; wrapping.
  - unfold end_sample. destruct (normalize_frame_only p) as (_ & _ & _ & Hs).
    unfold in_sample in *. destruct (state p); simpl in *; [done|].
    rewrite Hs, Hb. apply as_u64_proper. rewrite wadd64_eq64. unfold eq64. f_equal. lia.
  - unfold in_sample in *. by rewrite Hst, H1, H2, H3.
Qed.

Lemma feed_emitted p rec :
  let '(p', o) := feed p rec in
  samples_emitted (stats p') ≡64
    samples_emitted (stats p) + Z.of_nat (length (from_option (fun s => [s]) [] o)) /\
  (is_u64 (samples_emitted (stats p)) -> is_u64 (samples_emitted (stats p'))).
Proof.
  destruct (feed_cases p rec) as [->|[->|(p' & -> & _ & _ & -> & _)]].
  - unfold begin_sample. destruct (in_sample p); simpl; by rewrite Z.add_0_r.
  - unfold end_sample. destruct (normalize_frame_only p) as (_ & _ & _ & Hs).
    destruct (state p); simpl; [by rewrite Z.add_0_r|]. rewrite Hs.
    split; [apply wadd64_eq64 | intros _; apply as_u64_range].
  - simpl. by rewrite Z.add_0_r.
Qed.

Lemma feed_all_emitted_range recs p :
  is_u64 (samples_emitted (stats p)) ->
  is_u64 (samples_emitted (stats (fst (feed_all p recs)))).
Proof.
  revert p. induction recs as [|r recs IH]; intros p Hp; cbn [Parser.feed_all]; [done|].
  pose proof (feed_emitted p r) as He. destruct (feed p r) as [p1 o].
  specialize (IH p1 (proj2 He Hp)). by destruct (feed_all p1 recs).
Qed.

End WithStrip.

(** ** What the kernel emits for one sample *)

Definition perf_rec (sc code func ts tid a1 a2 a3 a4 : Z) : KdBuf :=
  mkKdBuf ts a1 a2 a3 a4 tid (Z.lor (kdbg_eventid DBG_PERF sc code) func) 0 0.

(** Frames four at a time, the last record padded with zeros. *)
Fixpoint data_records (code ts tid : Z) (frames : list Z) : list KdBuf :=
  let data a b c d := perf_rec sc_CALLSTACK code DBG_FUNC_NONE ts tid a b c d in
  match frames with
  | [] => []
  | [a] => [data a 0 0 0]
  | [a; b] => [data a b 0 0]
  | [a; b; c] => [data a b c 0]
  | a :: b :: c :: d :: rest => data a b c d :: data_records code ts tid rest
  end.

Definition sample_records (ts tid main : Z) (uframes kframes : list Z) (c1 c2 c3 c4 : Z)
    : list KdBuf :=
  [perf_rec sc_GENERIC 0 DBG_FUNC_START ts tid 0 0 0 0;
   perf_rec sc_CALLSTACK cs_UHDR DBG_FUNC_NONE ts tid 0 main 0 (Z.of_nat (length uframes) - main)]
  ++ data_records cs_UDATA ts tid uframes
  ++ [perf_rec sc_CALLSTACK cs_KHDR DBG_FUNC_NONE ts tid 0 (Z.of_nat (length kframes)) 0 0]
  ++ data_records cs_KDATA ts tid kframes
  ++ [perf_rec sc_KPC kpc_DATA_THREAD DBG_FUNC_NONE ts tid c1 c2 c3 c4;
      perf_rec sc_GENERIC 0 DBG_FUNC_END ts tid 0 0 0 0].

Lemma perf_rec_fields sc code func ts tid a1 a2 a3 a4 :
  0 <= sc < 2 ^ 8 -> 0 <= code < 2 ^ 14 -> 0 <= func < 4 ->
  perf_record (perf_rec sc code func ts tid a1 a2 a3 a4) sc code func.
Proof. intros. apply debugid_fields; [unfold DBG_PERF|..]; lia. Qed.

Ltac rec_fields := apply perf_rec_fields; codes.

Lemma list_ind4 {A} (P : list A -> Prop) :
  P [] -> (forall a, P [a]) -> (forall a b, P [a; b]) -> (forall a b c, P [a; b; c]) ->
  (forall a b c d l, P l -> P (a :: b :: c :: d :: l)) -> forall l, P l.
Proof.
  intros H0 H1 H2 H3 H4.
  fix IH 1. intros [|a [|b [|c [|d l]]]]; [done..|]. apply H4, IH.
Qed.

Section Reassembly.
Variable strip_code_ptr : Z -> Z.
Local Abbreviation feed_all := (feed_all strip_code_ptr).

Lemma append_chunk_in_sample rec u p : in_sample (append_chunk rec u p) = in_sample p.
Proof. by destruct u. Qed.

Lemma feed_user_data ts tid l : forall p,
  in_sample p = true -> user_remaining p = Z.of_nat (length l) ->
  feed_all p (data_records cs_UDATA ts tid l) =
  (p <| user_frames := user_frames p ++ l |> <| user_remaining := 0 |>, []).
Proof.
  induction l as [|a|a b|a b c|a b c d l IH] using list_ind4; intros p Hin Hrem;
    cbn [data_records Parser.feed_all].
  1: { rewrite app_nil_r. destruct p; simpl in *; by subst. }
  all: rewrite (feed_udata _ _ _ DBG_FUNC_NONE) by (done || rec_fields); unfold append_chunk;
    rewrite Hrem; simpl length.
  4: rewrite IH by (simpl; first [done | width; lia]).
  all: try (replace (Z.to_nat _) with 1%nat by lia); try (replace (Z.to_nat _) with 2%nat by lia);
    try (replace (Z.to_nat _) with 3%nat by lia); try (replace (Z.to_nat _) with 4%nat by lia).
  all: try (replace (ssub _ _) with 0 by (width; lia)); try done.
  destruct p; simpl. by rewrite <- app_assoc.
Qed.

Lemma feed_kernel_data ts tid l : forall p,
  in_sample p = true -> kernel_remaining p = Z.of_nat (length l) ->
  feed_all p (data_records cs_KDATA ts tid l) =
  (p <| kernel_frames := kernel_frames p ++ l |> <| kernel_remaining := 0 |>, []).
Proof.
  induction l as [|a|a b|a b c|a b c d l IH] using list_ind4; intros p Hin Hrem;
    cbn [data_records Parser.feed_all].
  1: { rewrite app_nil_r. destruct p; simpl in *; by subst. }
  all: rewrite (feed_kdata _ _ _ DBG_FUNC_NONE) by (done || rec_fields); unfold append_chunk;
    rewrite Hrem; simpl length.
  4: rewrite IH by (simpl; first [done | width; lia]).
  all: try (replace (Z.to_nat _) with 1%nat by lia); try (replace (Z.to_nat _) with 2%nat by lia);
    try (replace (Z.to_nat _) with 3%nat by lia); try (replace (Z.to_nat _) with 4%nat by lia).
  all: try (replace (ssub _ _) with 0 by (width; lia)); try done.
  destruct p; simpl. by rewrite <- app_assoc.
Qed.

(** The frames after the fixup frame that ends the frame-pointer chain is put
    right after the saved PC, or dropped when the chain already has it there. *)
Definition in_call_order (pc : Z) (chain : list Z) (fixup : Z) (asyncs : list Z) : list Z :=
  if bool_decide (strip_code_ptr <$> head chain = Some (strip_code_ptr fixup))
  then pc :: chain ++ asyncs
  else pc :: strip_code_ptr fixup :: chain ++ asyncs.

Lemma normalize_spec p pc chain fixup asyncs :
  user_frames p = pc :: chain ++ fixup :: asyncs ->
  user_main_frames p = Z.of_nat (2 + length chain) -> strip_code_ptr fixup <> 0 ->
  user_frames (normalize_user_fixup strip_code_ptr p) = in_call_order pc chain fixup asyncs.
Proof.
  intros Hf Hm Hz. unfold normalize_user_fixup, in_call_order. rewrite Hf, Hm, Nat2Z.id.
  replace (Nat.min _ _) with (2 + length chain)%nat
    by (rewrite length_cons, length_app, length_cons; lia).
  rewrite bool_decide_eq_false_2 by lia.
  replace (2 + length chain - 1)%nat with (S (length chain)) by lia.
  assert ((pc :: chain ++ fixup :: asyncs) !! S (length chain) = Some fixup) as ->
    by (simpl; by rewrite list_lookup_middle).
  simpl default. rewrite (bool_decide_eq_false_2 (strip_code_ptr fixup = 0)) by done.
  assert (vec_remove (S (length chain)) (pc :: chain ++ fixup :: asyncs) = pc :: chain ++ asyncs) as Hrm.
  { unfold vec_remove. simpl. f_equal. rewrite take_app_length.
    rewrite drop_app_ge by lia. by replace (S (length chain) - length chain)%nat with 1%nat by lia. }
  rewrite Hrm. destruct chain as [|c chain]; [done|].
  rewrite (bool_decide_eq_true_2 (1 < S (length (c :: chain)))%nat) by (simpl; lia).
  simpl. by case_bool_decide.
Qed.

End Reassembly.

(** ** Properties *)

(** C5. Reassembly: whatever state the parser was in, feeding it the records
    the kernel emits for one sample hands exactly one sample to [emit]: its
    frames in call order (the fixup frame that ends the frame-pointer chain put
    after the saved PC, or dropped when it duplicates the first caller), cut at
    the first NULL, its kernel frames and its trimmed counters, stamped with the
    masked time and the tid; and it leaves the parser idle. *)
Theorem sample_reassembly strip_code_ptr p ts tid pc chain fixup asyncs kframes c1 c2 c3 c4 :
  let uframes := pc :: chain ++ fixup :: asyncs in
  let main := Z.of_nat (2 + length chain) in
  is_u32 tid -> strip_code_ptr fixup <> 0 ->
  Z.of_nat (length uframes) < 2 ^ 32 -> Z.of_nat (length kframes) < 2 ^ 32 ->
  let '(p', out) := feed_all strip_code_ptr p
                      (sample_records ts tid main uframes kframes c1 c2 c3 c4) in
  out = [mkSample (Z.land ts KDBG_TIMESTAMP_MASK) tid
           (before_null (in_call_order strip_code_ptr pc chain fixup asyncs))
           (before_null kframes) (trim_pmc [c1; c2; c3; c4])] /\
  state p' = Idle.
Proof.
  intros uframes main Htid Hz Hu Hk. unfold sample_records.
  rewrite feed_all_app. cbn [Parser.feed_all].
  rewrite feed_start by rec_fields.
  rewrite (feed_uhdr _ _ _ DBG_FUNC_NONE) by (done || rec_fields).
  assert (Hlen : length uframes = (2 + length chain + length asyncs)%nat).
  { subst uframes. rewrite length_cons, length_app, length_cons. lia. }
  assert (Hm : as_u32 main = main) by (apply as_u32_small; unfold is_u32, main; lia).
  assert (Ha : as_u32 (Z.of_nat (length uframes) - main) = Z.of_nat (length uframes) - main)
    by (apply as_u32_small; unfold is_u32, main; lia).
  rewrite feed_all_app, feed_user_data;
    [|done|cbn -[length]; rewrite Hm, Ha; unfold sadd32, u32_max; lia].
  rewrite feed_all_app. cbn [Parser.feed_all].
  rewrite (feed_khdr _ _ _ DBG_FUNC_NONE) by (done || rec_fields).
  rewrite feed_all_app, feed_kernel_data;
    [|done|cbn -[length]; rewrite !as_u32_small by (unfold is_u32; lia);
           unfold sadd32, u32_max; lia].
  cbn [Parser.feed_all].
  rewrite (feed_kpc _ _ _ DBG_FUNC_NONE) by (done || rec_fields).
  rewrite feed_end by rec_fields.
  cbn -[normalize_user_fixup Z.land as_u32 sadd32 app].
  match goal with |- context [normalize_user_fixup _ ?q] =>
    destruct (normalize_frame_only strip_code_ptr q) as (_ & -> & -> & _);
    rewrite (normalize_spec _ q pc chain fixup asyncs) end.
  - cbn. by rewrite as_u32_small.
  - done.
  - exact Hm.
  - done.
Qed.

(** The two samples of the unit tests of [parser.rs]. *)
Lemma sample_reassembly_witness :
  snd (feed_all strip_code_ptr_generic new
         (sample_records 123 42 5 [10; 20; 30; 40; 99] [7; 8] 100 50 0 0)) =
  [mkSample 123 42 [10; 99; 20; 30; 40] [7; 8] [100; 50]].
Proof.
  pose proof (sample_reassembly strip_code_ptr_generic new 123 42 10 [20; 30; 40] 99 [] [7; 8]
                100 50 0 0) as H.
  cbv zeta in H. specialize (H ltac:(unfold is_u32; lia) ltac:(discriminate)
    ltac:(reflexivity) ltac:(reflexivity)).
  change (Z.of_nat (2 + length [20; 30; 40])) with 5 in H.
  change (10 :: [20; 30; 40] ++ [99]) with [10; 20; 30; 40; 99] in H.
  destruct (feed_all _ _ _) as [p' out]. destruct H as [-> _]. reflexivity.
Defined.

(** Every sample ever emitted, from any parser state and any record stream,
    holds no NULL frame in its user and kernel stacks, and its counter slice
    does not end in padding. *)
Theorem emitted_samples_clean strip_code_ptr p recs :
  Forall (fun s => (0 ∉ user_backtrace s) /\ (0 ∉ kernel_backtrace s) /\ last (s_pmc s) <> Some 0)
         (snd (feed_all strip_code_ptr p recs)).
Proof.
  revert p. induction recs as [|r recs IH]; intros p; cbn [Parser.feed_all]; [constructor|].
  destruct (feed_cases strip_code_ptr p r) as [->|[->|(p' & -> & _)]].
  - specialize (IH (begin_sample r p)). by destruct (feed_all _ _ _).
  - unfold end_sample. destruct (state p).
    + specialize (IH (p <| state := Idle |>)). by destruct (feed_all _ _ _).
    + cbv zeta. match goal with |- context [feed_all _ ?q recs] => specialize (IH q) end.
      destruct (feed_all _ _ _) as [p2 out]. constructor; [|done].
      split_ands; apply before_null_no_zero || apply trim_pmc_last.
  - specialize (IH p'). by destruct (feed_all _ _ _).
Qed.

(** The statistics balance on every run: the samples started are the ones
    emitted, the ones orphaned by a second START and the one still open (the
    counters wrap at 64 bits), and [samples_emitted] counts the calls of [emit]. *)
Theorem stats_account strip_code_ptr recs :
  let '(p, out) := feed_all strip_code_ptr new recs in
  stats_balanced p /\ samples_emitted (stats p) = as_u64 (Z.of_nat (length out)).
Proof.
  assert (H : forall p, stats_balanced p ->
    let '(p', out) := feed_all strip_code_ptr p recs in
    stats_balanced p' /\
    samples_emitted (stats p') ≡64 samples_emitted (stats p) + Z.of_nat (length out)).
  { induction recs as [|r recs IH]; intros p Hb; cbn [Parser.feed_all].
    { split; [done|]. by rewrite Z.add_0_r. }
    pose proof (feed_balanced strip_code_ptr p r Hb) as Hb1.
    pose proof (feed_emitted strip_code_ptr p r) as He.
    destruct (feed _ p r) as [p1 o]. destruct He as [He _]. specialize (IH p1 Hb1).
    destruct (feed_all _ p1 recs) as [p2 out]. destruct IH as [? IH]. split; [done|].
    rewrite IH, He, length_app, Nat2Z.inj_add. unfold eq64. f_equal. lia. }
  specialize (H new eq_refl).
  pose proof (feed_all_emitted_range strip_code_ptr recs new ltac:(done)) as Hr.
  destruct (feed_all _ _ _) as [p out]. destruct H as [? H]. split; [done|].
  rewrite <- (as_u64_small (samples_emitted (stats p))) by done. exact H.
Qed.

End Parser.
