(* ===== verification/OffCpu.v ===== *)
(** * The CPU interval tracker

    [stax-mac-kperf-parse/src/offcpu.rs]: per-CPU current threads, per-thread
    open intervals and cached stacks, and the closed intervals and wakeups
    waiting to be drained, driven by [DBG_MACH_SCHED] records. *)

From S2P Require Import Prelude Kdebug.

Module OffCpu.
Import Kdebug.

Record PendingWakerAttribution := mkPendingWakerAttribution {
  pwa_waker_tid : Z;
  pwa_waker_user_stack : list Z
}.

Record ThreadState := mkThreadState {
  total_on_ns : Z;
  total_off_ns : Z;
  last_on_ns : option Z;
  last_off_ns : option Z;
  last_user_stack : list Z;
  last_kernel_stack : list Z;
  pending_wakeup : option PendingWakerAttribution
}.

#[export] Instance eta_ThreadState : Eta ThreadState := fun s =>
  mkThreadState (total_on_ns s) (total_off_ns s) (last_on_ns s) (last_off_ns s)
                (last_user_stack s) (last_kernel_stack s) (pending_wakeup s).

(** [ThreadState::default()] *)
Definition thread_default : ThreadState := mkThreadState 0 0 None None [] [] None.

Inductive PendingKind :=
  | OnCpu
  | OffCpu (user_stack kernel_stack : list Z) (waker_tid : option Z)
           (waker_user_stack : option (list Z)).

Record PendingInterval := mkPendingInterval {
  pi_tid : Z;
  start_ns : Z;
  end_ns : Z;
  kind : PendingKind
}.

Record PendingWakeup := mkPendingWakeup {
  pw_timestamp_ns : Z;
  pw_waker_tid : Z;
  pw_wakee_tid : Z;
  pw_waker_user_stack : list Z;
  pw_waker_kernel_stack : list Z
}.

Record CpuIntervalTracker := mkTracker {
  on_cpu : gmap Z Z;
  threads : gmap Z ThreadState;
  sched_count : Z;
  stkhandoff_count : Z;
  makerunnable_count : Z;
  pending : list PendingInterval;
  pending_wakeups : list PendingWakeup
}.

#[export] Instance eta_Tracker : Eta CpuIntervalTracker := fun t =>
  mkTracker (on_cpu t) (threads t) (sched_count t) (stkhandoff_count t)
            (makerunnable_count t) (pending t) (pending_wakeups t).

Definition new : CpuIntervalTracker := mkTracker ∅ ∅ 0 0 0 [] [].

(** [self.threads.entry(tid).or_default()], read. *)
Definition thread (t : CpuIntervalTracker) (tid : Z) : ThreadState :=
  default thread_default (threads t !! tid).

Definition note_sample (tid : Z) (user kernel : list Z) (t : CpuIntervalTracker)
    : CpuIntervalTracker :=
  if bool_decide (user = []) then t else
  let st := (thread t tid) <| last_user_stack := user |> <| last_kernel_stack := kernel |> in
  t <| threads ::= insert tid st |>.

(** The outgoing thread: its on-CPU interval is closed at [ts] and an off-CPU
    one opens. *)
Definition switch_out (prev_tid ts : Z) (t : CpuIntervalTracker) : CpuIntervalTracker :=
  let st := thread t prev_tid in
  let '(st, closed) :=
    match last_on_ns st with
    | Some on_ns =>
        let st := st <| last_on_ns := None |> in
        let dur := ssub ts on_ns in
        if bool_decide (0 < dur) then
          (st <| total_on_ns ::= fun n => sadd64 n dur |>,
           [mkPendingInterval (as_u32 prev_tid) on_ns ts OnCpu])
        else (st, [])
    | None => (st, [])
    end in
  t <| threads ::= insert prev_tid (st <| last_off_ns := Some ts |>) |>
    <| pending ::= fun l => l ++ closed |>.

(** The incoming thread: its off-CPU interval is closed, and emitted when a
    user stack is cached for it, and an on-CPU one opens. *)
Definition switch_in (new_tid ts : Z) (t : CpuIntervalTracker) : CpuIntervalTracker :=
  let st := thread t new_tid in
  let '(st, closed) :=
    match last_off_ns st with
    | Some off_ns =>
        let st := st <| last_off_ns := None |> in
        let dur := ssub ts off_ns in
        if bool_decide (0 < dur) then
          let st := st <| total_off_ns ::= fun n => sadd64 n dur |> in
          if bool_decide (last_user_stack st <> []) then
            let waker := pending_wakeup st in
            let st := st <| pending_wakeup := None |> in
            (st, [mkPendingInterval (as_u32 new_tid) off_ns ts
                    (OffCpu (last_user_stack st) (last_kernel_stack st)
                       (pwa_waker_tid <$> waker) (pwa_waker_user_stack <$> waker))])
          else (st <| pending_wakeup := None |>, [])
        else (st, [])
    | None => (st, [])
    end in
  t <| threads ::= insert new_tid (st <| last_on_ns := Some ts |>) |>
    <| pending ::= fun l => l ++ closed |>.

(** The [SCHED | STKHANDOFF] arm after the counters. *)
Definition context_switch (cpu new_tid ts : Z) (t : CpuIntervalTracker) : CpuIntervalTracker :=
  let prev := on_cpu t !! cpu in
  let t := t <| on_cpu ::= insert cpu new_tid |> in
  let t :=
    match prev with
    | Some prev_tid =>
        if bool_decide (prev_tid <> 0 /\ prev_tid <> new_tid) then switch_out prev_tid ts t else t
    | None => t
    end in
  if bool_decide (new_tid <> 0) then switch_in new_tid ts t else t.

(** The [MAKERUNNABLE] arm after the counter. *)
Definition make_runnable (cpu wakee_tid ts : Z) (t : CpuIntervalTracker) : CpuIntervalTracker :=
  let waker_tid := default 0 (on_cpu t !! cpu) in
  if bool_decide (waker_tid = 0 \/ wakee_tid = 0 \/ waker_tid = wakee_tid) then t else
  match threads t !! waker_tid with
  | Some s =>
      if bool_decide (last_user_stack s <> [] \/ last_kernel_stack s <> []) then
        let waker_user_stack := last_user_stack s in
        let waker_kernel_stack := last_kernel_stack s in
        let t := t <| pending_wakeups ::= fun l => l ++
                   [mkPendingWakeup ts (as_u32 waker_tid) (as_u32 wakee_tid)
                      waker_user_stack waker_kernel_stack] |> in
        let wakee := (thread t wakee_tid) <| pending_wakeup :=
                       Some (mkPendingWakerAttribution (as_u32 waker_tid) waker_user_stack) |> in
        t <| threads ::= insert wakee_tid wakee |>
      else t
  | None => t
  end.

(** [CpuIntervalTracker::feed] *)
Definition feed (t : CpuIntervalTracker) (rec : KdBuf) : CpuIntervalTracker :=
  if bool_decide (kdbg_subclass (debugid rec) <> DBG_MACH_SCHED) then t else
  let code := kdbg_code (debugid rec) in
  let ts := Z.land (timestamp rec) KDBG_TIMESTAMP_MASK in
  if bool_decide (code = SCHED \/ code = STKHANDOFF) then
    let t := if bool_decide (code = SCHED)
             then t <| sched_count ::= fun n => wadd64 n 1 |>
             else t <| stkhandoff_count ::= fun n => wadd64 n 1 |> in
    context_switch (cpuid rec) (arg2 rec) ts t
  else if bool_decide (code = MAKERUNNABLE) then
    make_runnable (cpuid rec) (arg2 rec) ts (t <| makerunnable_count ::= fun n => wadd64 n 1 |>)
  else t.

Definition drain_pending (t : CpuIntervalTracker) : CpuIntervalTracker * list PendingInterval :=
  (t <| pending := [] |>, pending t).

Definition drain_wakeups (t : CpuIntervalTracker) : CpuIntervalTracker * list PendingWakeup :=
  (t <| pending_wakeups := [] |>, pending_wakeups t).

(** What happens to a tracker between two drains: scheduler records, and the
    stacks of the PET samples. *)
Inductive event :=
  | Rec (rec : KdBuf)
  | Sampled (tid : Z) (user kernel : list Z).

Definition step (t : CpuIntervalTracker) (e : event) : CpuIntervalTracker :=
  match e with
  | Rec rec => feed t rec
  | Sampled tid user kernel => note_sample tid user kernel t
  end.

Definition run (t : CpuIntervalTracker) (es : list event) : CpuIntervalTracker := foldl step t es.

(** ** The invariant of a time-ordered run *)

Definition intervals_of (t : Z) (l : list PendingInterval) : list PendingInterval :=
  filter (fun i => pi_tid i = t) l.

(** Time on CPU in a list of intervals. *)
Definition on_duration (i : PendingInterval) : Z :=
  match kind i with OnCpu => end_ns i - start_ns i | OffCpu _ _ _ _ => 0 end.

Definition on_time : list PendingInterval -> Z := sum_of on_duration.

(** An interval is non-empty, and an off-CPU one has a stack to blame. *)
Definition interval_ok (i : PendingInterval) : Prop :=
  start_ns i < end_ns i /\
  match kind i with OnCpu => True | OffCpu stack _ _ _ => stack <> [] end.

Definition chronological : list PendingInterval -> Prop :=
  StronglySorted (fun a b => end_ns a <= start_ns b).

(** An open interval started in the past, after every closed one ended. *)
Definition open_ok (now : Z) (open : option Z) (ivs : list PendingInterval) : Prop :=
  forall o, open = Some o -> o <= now /\ Forall (fun i => end_ns i <= o) ivs.

Record thread_ok (now : Z) (st : ThreadState) (ivs : list PendingInterval) : Prop := {
  ok_exclusive : last_on_ns st = None \/ last_off_ns st = None;
  ok_open_on : open_ok now (last_on_ns st) ivs;
  ok_open_off : open_ok now (last_off_ns st) ivs;
  ok_past : Forall (fun i => end_ns i <= now) ivs;
  ok_chronological : chronological ivs;
  ok_intervals : Forall interval_ok ivs;
  ok_accounted : total_on_ns st = Z.min (on_time ivs) u64_max
}.

Definition tracker_ok (now : Z) (t : CpuIntervalTracker) : Prop :=
  (forall tid, thread_ok now (thread t tid) (intervals_of tid (pending t))) /\
  (forall cpu tid, on_cpu t !! cpu = Some tid -> is_u32 tid).

(** The time of a record, and streams whose times never go back and whose tids
    fit the 32 bits the emitted intervals keep. *)
Definition rec_time (rec : KdBuf) : Z := Z.land (timestamp rec) KDBG_TIMESTAMP_MASK.

Fixpoint ordered (now : Z) (es : list event) : Prop :=
  match es with
  | [] => True
  | Rec rec :: es' => now <= rec_time rec /\ is_u32 (arg2 rec) /\ ordered (rec_time rec) es'
  | Sampled _ _ _ :: es' => ordered now es'
  end.

Fixpoint final_time (now : Z) (es : list event) : Z :=
  match es with
  | [] => now
  | Rec rec :: es' => final_time (rec_time rec) es'
  | Sampled _ _ _ :: es' => final_time now es'
  end.

(** ** Draining

    What waits in the two queues has no influence on what follows. *)

Definition behind (l : list PendingInterval) (w : list PendingWakeup) (t : CpuIntervalTracker)
    : CpuIntervalTracker :=
  t <| pending ::= fun l' => l ++ l' |> <| pending_wakeups ::= fun w' => w ++ w' |>.

(** ** Lemmas *)

Lemma switch_out_behind l w tid ts t : switch_out tid ts (behind l w t) = behind l w (switch_out tid ts t).
Proof.
  unfold switch_out, behind, thread. destruct t. cbn. set (st := default _ _). destruct (last_on_ns _); [case_bool_decide|]; cbn; by rewrite <- (assoc_L (++)).
Qed.

Lemma switch_in_behind l w tid ts t : switch_in tid ts (behind l w t) = behind l w (switch_in tid ts t).
Proof.
  unfold switch_in, behind, thread. destruct t. cbn. set (st := default _ _).
  destruct (last_off_ns _); [case_bool_decide; [case_bool_decide|]|]; cbn; by rewrite <- (assoc_L (++)).
Qed.

Lemma context_switch_behind l w cpu tid ts t :
  context_switch cpu tid ts (behind l w t) = behind l w (context_switch cpu tid ts t).
Proof.
  unfold context_switch. change (on_cpu (behind l w t)) with (on_cpu t).
  change ((behind l w t) <| on_cpu ::= insert cpu tid |>) with (behind l w (t <| on_cpu ::= insert cpu tid |>)).
  destruct (on_cpu t !! cpu); repeat case_bool_decide; by rewrite ?switch_out_behind, ?switch_in_behind.
Qed.

Lemma make_runnable_behind l w cpu tid ts t :
  make_runnable cpu tid ts (behind l w t) = behind l w (make_runnable cpu tid ts t).
Proof.
  unfold make_runnable. change (on_cpu (behind l w t)) with (on_cpu t).
  change (threads (behind l w t)) with (threads t). case_bool_decide; [done|].
  destruct (threads t !! _); [|done]. case_bool_decide; [|done]. unfold behind. destruct t. cbn.
  by rewrite <- (assoc_L (++)).
Qed.

Lemma note_sample_behind l w tid user kernel t :
  note_sample tid user kernel (behind l w t) = behind l w (note_sample tid user kernel t).
Proof. unfold note_sample. by case_bool_decide. Qed.

Lemma feed_behind l w t rec : feed (behind l w t) rec = behind l w (feed t rec).
Proof.
  unfold feed. case_bool_decide; [done|]. cbv zeta. case_bool_decide; [|case_bool_decide; [|done]].
  - case_bool_decide; set (f := fun n => wadd64 n 1).
    + exact (context_switch_behind l w _ _ _ (t <| sched_count ::= f |>)).
    + exact (context_switch_behind l w _ _ _ (t <| stkhandoff_count ::= f |>)).
  - exact (make_runnable_behind l w _ _ _ (t <| makerunnable_count ::= fun n => wadd64 n 1 |>)).
Qed.

Lemma drained_behind t :
  behind (pending t) (pending_wakeups t) (drain_pending (drain_wakeups t).1).1 = t.
Proof. destruct t. unfold behind. cbn. by rewrite !app_nil_r. Qed.

Lemma open_ok_None now ivs : open_ok now None ivs.
Proof. intros o. discriminate. Qed.

Lemma open_ok_now now ivs : Forall (fun i => end_ns i <= now) ivs -> open_ok now (Some now) ivs.
Proof. intros H o [= <-]. by split; [lia|]. Qed.

Lemma open_ok_later now now' open ivs : now <= now' -> open_ok now open ivs -> open_ok now' open ivs.
Proof. intros Hle H o Ho. destruct (H o Ho). split; [lia|done]. Qed.

Lemma past_later now now' ivs :
  now <= now' -> Forall (fun i => end_ns i <= now) ivs -> Forall (fun i => end_ns i <= now') ivs.
Proof. intros Hle H. eapply Forall_impl; [exact H|]. simpl. lia. Qed.

#[export] Hint Resolve open_ok_None open_ok_now open_ok_later past_later : stax.

Lemma thread_ok_later now now' st ivs :
  now <= now' -> thread_ok now st ivs -> thread_ok now' st ivs.
Proof. intros Hle []. split; eauto with stax. Qed.

Lemma on_time_nonneg ivs : Forall interval_ok ivs -> 0 <= on_time ivs.
Proof.
  intros H. apply sum_of_nonneg. eapply Forall_impl; [exact H|].
  intros i [Hlt _]. unfold on_duration. destruct (kind i); lia.
Qed.

Lemma chronological_snoc ivs i :
  chronological ivs -> Forall (fun j => end_ns j <= start_ns i) ivs -> chronological (ivs ++ [i]).
Proof.
  unfold chronological. induction 1 as [|j ivs Hs IH Hj]; intros Hall; simpl.
  - repeat constructor.
  - inversion_clear Hall. constructor; [by apply IH|]. apply Forall_app; split; [done|by constructor].
Qed.

(** Closing the open interval [o] at [now]. *)
Lemma thread_ok_snoc now st st' ivs i :
  thread_ok now st ivs -> interval_ok i -> end_ns i = now ->
  Forall (fun j => end_ns j <= start_ns i) ivs ->
  last_on_ns st' = None \/ last_off_ns st' = None ->
  (forall o, last_on_ns st' = Some o -> o = now) -> (forall o, last_off_ns st' = Some o -> o = now) ->
  total_on_ns st' = sadd64 (total_on_ns st) (on_duration i) ->
  thread_ok now st' (ivs ++ [i]).
Proof.
  intros [] Hi He Hs Hx Hon Hoff Htot.
  assert (Hpast : Forall (fun j => end_ns j <= now) (ivs ++ [i])).
  { apply Forall_app; split; [done|]. constructor; [lia|constructor]. }
  split; [done| | |done|by apply chronological_snoc| |].
  - intros o Ho. rewrite (Hon o Ho). split; [lia|done].
  - intros o Ho. rewrite (Hoff o Ho). split; [lia|done].
  - apply Forall_app; split; [done|by constructor].
  - rewrite Htot, ok_accounted0. unfold on_time. rewrite sum_of_snoc.
    pose proof (on_time_nonneg ivs ok_intervals0). unfold on_time in *.
    assert (0 <= on_duration i) by (destruct Hi; unfold on_duration; destruct (kind i); lia).
    unfold sadd64, u64_max. lia.
Qed.

Lemma thread_insert t tid st tid' :
  thread (t <| threads ::= insert tid st |>) tid' = if decide (tid' = tid) then st else thread t tid'.
Proof.
  unfold thread. simpl. destruct (decide (tid' = tid)) as [->|].
  - by rewrite lookup_insert_eq.
  - by rewrite lookup_insert_ne.
Qed.

Lemma intervals_of_other tid tid' pend :
  Forall (fun i => pi_tid i = tid) pend -> tid' <> tid -> intervals_of tid' pend = [].
Proof.
  unfold intervals_of. induction 1 as [|i l Hi _ IH]; intros Hne; [done|].
  rewrite filter_cons_False by congruence. by apply IH.
Qed.

Lemma intervals_of_same tid pend :
  Forall (fun i => pi_tid i = tid) pend -> intervals_of tid pend = pend.
Proof.
  unfold intervals_of. induction 1 as [|i l Hi _ IH]; [done|].
  rewrite filter_cons_True by done. by f_equal.
Qed.

(** Replacing one thread's state and appending its closed intervals. *)
Lemma tracker_ok_update now now' t tid st pend :
  tracker_ok now t -> now <= now' -> Forall (fun i => pi_tid i = tid) pend ->
  thread_ok now' st (intervals_of tid (pending t) ++ pend) ->
  tracker_ok now' (t <| threads ::= insert tid st |> <| pending ::= fun l => l ++ pend |>).
Proof.
  intros [Hth Hcpu] Hle Hpend Hst. split; [|done]. intros tid'.
  change (thread _ tid') with (thread (t <| threads ::= insert tid st |>) tid').
  rewrite thread_insert. simpl. unfold intervals_of. rewrite filter_app.
  change (filter _ ?l) with (intervals_of tid' l).
  change (filter _ ?l) with (intervals_of tid' l).
  destruct (decide (tid' = tid)) as [->|Hne].
  - by rewrite (intervals_of_same tid pend).
  - rewrite (intervals_of_other tid tid' pend), app_nil_r by done. by eapply thread_ok_later.
Qed.

Lemma tracker_ok_later now now' t : now <= now' -> tracker_ok now t -> tracker_ok now' t.
Proof. intros Hle [Hth Hcpu]. split; [|done]. intros tid. by eapply thread_ok_later. Qed.

Lemma switch_out_ok now ts tid t :
  tracker_ok now t -> now <= ts -> is_u32 tid -> tracker_ok ts (switch_out tid ts t).
Proof.
  intros Hok Hle Htid. pose proof (thread_ok_later now ts _ _ Hle (proj1 Hok tid)) as Hth.
  pose proof (ok_open_on _ _ _ Hth) as Hopen. pose proof (ok_past _ _ _ Hth) as Hpast.
  unfold switch_out. destruct (last_on_ns (thread t tid)) as [o|] eqn:Ho.
  - destruct (Hopen o eq_refl) as [Hots Hall].
    case_bool_decide as Hd; eapply tracker_ok_update; eauto.
    + constructor; [by rewrite as_u32_small|constructor].
    + eapply thread_ok_snoc; eauto; simpl; [|done|congruence|].
      * split; simpl; [|done]. unfold ssub in Hd. lia.
      * unfold on_duration, ssub in *. simpl. f_equal. lia.
    + rewrite app_nil_r. destruct Hth. split; simpl; eauto with stax.
  - eapply tracker_ok_update; eauto. rewrite app_nil_r.
    destruct Hth. split; simpl; rewrite ?Ho; eauto with stax.
Qed.

Lemma switch_in_ok now ts tid t :
  tracker_ok now t -> now <= ts -> is_u32 tid -> tracker_ok ts (switch_in tid ts t).
Proof.
  intros Hok Hle Htid. pose proof (thread_ok_later now ts _ _ Hle (proj1 Hok tid)) as Hth.
  pose proof (ok_open_off _ _ _ Hth) as Hopen. pose proof (ok_past _ _ _ Hth) as Hpast.
  unfold switch_in. destruct (last_off_ns (thread t tid)) as [o|] eqn:Ho.
  - destruct (Hopen o eq_refl) as [Hots Hall].
    case_bool_decide as Hd; [simpl; case_bool_decide as Hu|]; eapply tracker_ok_update; eauto.
    + constructor; [by rewrite as_u32_small|constructor].
    + eapply thread_ok_snoc; eauto; simpl; [|congruence|done|].
      * split; simpl; [|done]. unfold ssub in Hd. lia.
      * unfold on_duration. simpl. pose proof (ok_accounted _ _ _ Hth) as ->.
        unfold sadd64. lia.
    + rewrite app_nil_r. destruct Hth. split; simpl; eauto with stax.
    + rewrite app_nil_r. destruct Hth. split; simpl; eauto with stax.
  - eapply tracker_ok_update; eauto. rewrite app_nil_r.
    destruct Hth. split; simpl; rewrite ?Ho; eauto with stax.
Qed.

(** Writes that touch neither open intervals, totals nor closed intervals. *)
Lemma thread_ok_same now st st' ivs :
  thread_ok now st ivs -> last_on_ns st' = last_on_ns st -> last_off_ns st' = last_off_ns st ->
  total_on_ns st' = total_on_ns st -> thread_ok now st' ivs.
Proof. intros [] H1 H2 H3. split; rewrite ?H1, ?H2, ?H3; done. Qed.

Lemma tracker_ok_touch now t tid st :
  tracker_ok now t -> last_on_ns st = last_on_ns (thread t tid) ->
  last_off_ns st = last_off_ns (thread t tid) -> total_on_ns st = total_on_ns (thread t tid) ->
  tracker_ok now (t <| threads ::= insert tid st |>).
Proof.
  intros [Hth Hcpu] H1 H2 H3. split; [|done]. intros tid'. rewrite thread_insert.
  destruct (decide (tid' = tid)) as [->|]; [|apply Hth]. by eapply thread_ok_same.
Qed.

Lemma context_switch_ok now ts cpu tid t :
  tracker_ok now t -> now <= ts -> is_u32 tid -> tracker_ok ts (context_switch cpu tid ts t).
Proof.
  intros [Hth Hcpu] Hle Htid. unfold context_switch.
  set (t1 := t <| on_cpu ::= insert cpu tid |>).
  assert (Hok1 : tracker_ok now t1).
  { split; [done|]. intros c x. simpl. destruct (decide (c = cpu)) as [->|].
    - rewrite lookup_insert_eq. by intros [= <-].
    - rewrite lookup_insert_ne by done. apply Hcpu. }
  set (t2 := match on_cpu t !! cpu with Some _ => _ | None => _ end).
  assert (Hok2 : tracker_ok ts t2).
  { subst t2. destruct (on_cpu t !! cpu) as [prev|] eqn:Hp; [|by eapply tracker_ok_later].
    case_bool_decide; [|by eapply tracker_ok_later].
    eapply switch_out_ok; eauto. }
  case_bool_decide; [|done]. eapply switch_in_ok; eauto. lia.
Qed.

Lemma make_runnable_ok now cpu tid ts t : tracker_ok now t -> tracker_ok now (make_runnable cpu tid ts t).
Proof.
  intros Hok. unfold make_runnable. case_bool_decide; [done|].
  destruct (threads t !! _) as [s|]; [|done]. case_bool_decide; [|done].
  apply (tracker_ok_touch now (t <| pending_wakeups ::= _ |>)); done.
Qed.

Lemma note_sample_ok now tid user kernel t :
  tracker_ok now t -> tracker_ok now (note_sample tid user kernel t).
Proof.
  intros Hok. unfold note_sample. case_bool_decide; [done|]. by apply tracker_ok_touch.
Qed.

Lemma feed_ok now t rec :
  tracker_ok now t -> now <= rec_time rec -> is_u32 (arg2 rec) ->
  tracker_ok (rec_time rec) (feed t rec).
Proof.
  intros Hok Hle Htid. pose proof (tracker_ok_later _ _ _ Hle Hok) as Hlater.
  unfold feed. repeat case_bool_decide; try done.
  - by eapply (context_switch_ok now); [destruct Hok|..].
  - by eapply (context_switch_ok now); [destruct Hok|..].
  - apply make_runnable_ok. destruct Hlater. done.
Qed.

Lemma tracker_run_ok es : forall now t,
  tracker_ok now t -> ordered now es -> tracker_ok (final_time now es) (run t es).
Proof.
  unfold run. induction es as [|[rec|tid user kernel] es IH]; intros now t Hok Hord; simpl; [done| |].
  - destruct Hord as (Hle & Htid & Hord). apply IH; [|done]. by eapply feed_ok.
  - apply IH; [|done]. by apply note_sample_ok.
Qed.

Lemma tracker_new_ok now : tracker_ok now new.
Proof.
  split; [|intros cpu tid; simpl; by rewrite lookup_empty].
  intros tid. unfold thread, intervals_of. simpl. rewrite lookup_empty. simpl.
  split; simpl; auto with stax; constructor.
Qed.

Lemma run_new_ok now es tid :
  ordered now es -> thread_ok (final_time now es) (thread (run new es) tid)
                      (intervals_of tid (pending (run new es))).
Proof. intros H. apply (tracker_run_ok es now new); [apply tracker_new_ok|done]. Qed.

(** ** Properties *)

(** A switch to [tid] on [cpu] and the wakeup of [tid] by whoever runs on
    [cpu], at time [ts]. *)
Definition sched_rec (code cpu tid ts : Z) : KdBuf :=
  mkKdBuf ts 0 tid 0 0 0 (Z.lor (kdbg_eventid DBG_MACH DBG_MACH_SCHED code) DBG_FUNC_NONE) cpu 0.

(** Thread 7 runs, blocks while 9 runs, is woken by 9 and comes back. *)
Definition sample_run : list event :=
  [Rec (sched_rec SCHED 0 7 100); Sampled 7 [1; 2] []; Rec (sched_rec SCHED 0 9 150);
   Sampled 9 [5] []; Rec (sched_rec MAKERUNNABLE 0 7 180); Rec (sched_rec SCHED 0 7 200)].

(** On a run whose record times never go back, the closed intervals of
    every thread come out in order and never overlap, none is empty, every
    off-CPU one carries a user stack, and none ends after the last record; and
    a thread is never on and off CPU at once. *)
Theorem intervals_disjoint now es tid :
  ordered now es ->
  let t := run new es in
  let ivs := intervals_of tid (pending t) in
  chronological ivs /\ Forall interval_ok ivs /\
  Forall (fun i => end_ns i <= final_time now es) ivs /\
  (last_on_ns (thread t tid) = None \/ last_off_ns (thread t tid) = None).
Proof. intros H. destruct (run_new_ok now es tid H). done. Qed.

Lemma intervals_disjoint_witness :
  chronological (intervals_of 7 (pending (run new sample_run))).
Proof.
  apply (intervals_disjoint 0 sample_run 7).
  vm_compute; repeat split; congruence.
Defined.

(** On such a run the on-CPU total of every thread is the sum of the
    durations of the on-CPU intervals emitted for it, clamped at [u64::MAX]:
    no time is counted twice, and none that is emitted is lost. *)
Theorem on_time_accounted now es tid :
  ordered now es ->
  total_on_ns (thread (run new es) tid) =
  Z.min (on_time (intervals_of tid (pending (run new es)))) u64_max.
Proof. intros H. apply (run_new_ok now es tid H). Qed.

Lemma on_time_accounted_witness : total_on_ns (thread (run new sample_run) 9) = 50.
Proof.
  rewrite (on_time_accounted 0 sample_run 9);
    [reflexivity | vm_compute; repeat split; congruence].
Defined.

Lemma rec_fields_sched code cpu tid ts :
  0 <= code < 2 ^ 14 ->
  kdbg_subclass (debugid (sched_rec code cpu tid ts)) = DBG_MACH_SCHED /\
  kdbg_code (debugid (sched_rec code cpu tid ts)) = code.
Proof.
  intros. destruct (debugid_fields DBG_MACH DBG_MACH_SCHED code DBG_FUNC_NONE) as (_ & H1 & H2 & _);
    unfold DBG_MACH, DBG_MACH_SCHED, DBG_FUNC_NONE; try lia; done.
Qed.

Lemma feed_makerunnable cpu tid ts t :
  feed t (sched_rec MAKERUNNABLE cpu tid ts) =
  make_runnable cpu tid (Z.land ts KDBG_TIMESTAMP_MASK)
    (t <| makerunnable_count ::= fun n => wadd64 n 1 |>).
Proof.
  unfold feed. destruct (rec_fields_sched MAKERUNNABLE cpu tid ts) as [-> ->]; [unfold MAKERUNNABLE; lia|].
  done.
Qed.

Lemma feed_sched cpu tid ts t :
  feed t (sched_rec SCHED cpu tid ts) =
  context_switch cpu tid (Z.land ts KDBG_TIMESTAMP_MASK) (t <| sched_count ::= fun n => wadd64 n 1 |>).
Proof.
  unfold feed. destruct (rec_fields_sched SCHED cpu tid ts) as [-> ->]; [unfold SCHED; lia|].
  done.
Qed.

(** Wakeup attribution: when a parked thread with a cached user stack is
    made runnable by the thread running on [cpu] (which has a cached stack) and
    then switched in there, the tracker closes its off-CPU interval from the
    moment it parked, with the parked stack and the waker's tid and stack. *)
Theorem wakeup_attributed t cpu waker wakee off wts ts :
  let st := thread t wakee in
  is_u32 waker -> is_u32 wakee -> waker <> 0 -> wakee <> 0 -> waker <> wakee ->
  0 <= ts < 2 ^ 56 -> off < ts ->
  on_cpu t !! cpu = Some waker -> is_Some (threads t !! waker) ->
  last_user_stack (thread t waker) <> [] ->
  last_off_ns st = Some off -> last_user_stack st <> [] ->
  let t' := feed (feed t (sched_rec MAKERUNNABLE cpu wakee wts)) (sched_rec SCHED cpu wakee ts) in
  last (pending t') =
    Some (mkPendingInterval wakee off ts
            (OffCpu (last_user_stack st) (last_kernel_stack st) (Some waker)
                    (Some (last_user_stack (thread t waker))))) /\
  pending_wakeup (thread t' wakee) = None /\ last_on_ns (thread t' wakee) = Some ts.
Proof.
  intros st Hw He Hw0 He0 Hne Hts Hoff Hcpu [sw Hsw] Hstack Hst Huser.
  rewrite feed_makerunnable, feed_sched.
  replace (Z.land ts KDBG_TIMESTAMP_MASK) with ts.
  2: { unfold KDBG_TIMESTAMP_MASK. change 0x00ffffffffffffff with (Z.ones 56).
       by rewrite Z.land_ones, Z.mod_small by lia. }
  unfold make_runnable. simpl. rewrite Hcpu. simpl.
  rewrite bool_decide_eq_false_2 by naive_solver. rewrite Hsw.
  assert (Hthw : thread t waker = sw) by (unfold thread; by rewrite Hsw). rewrite Hthw in *.
  rewrite bool_decide_eq_true_2 by naive_solver.
  unfold context_switch. simpl. rewrite Hcpu.
  rewrite bool_decide_eq_true_2 by done. rewrite bool_decide_eq_true_2 by done.
  match goal with |- context [switch_out waker ts ?q] => set (t1 := q) end.
  assert (Ht1 : thread t1 wakee = st <| pending_wakeup := Some (mkPendingWakerAttribution (as_u32 waker) (last_user_stack sw)) |>).
  { unfold thread at 1. subst t1. simpl. rewrite lookup_insert_eq. done. }
  assert (Ht2 : thread (switch_out waker ts t1) wakee = thread t1 wakee).
  { unfold switch_out. destruct (match last_on_ns _ with Some _ => _ | None => _ end) as [s1 c1].
    unfold thread at 1. simpl. by rewrite lookup_insert_ne. }
  unfold switch_in. rewrite Ht2, Ht1. simpl. fold st. rewrite Hst.
  rewrite bool_decide_eq_true_2 by (unfold ssub; lia).
  rewrite bool_decide_eq_true_2 by done. simpl.
  rewrite last_snoc, !as_u32_small by done. unfold thread at 1 2. simpl.
  by rewrite lookup_insert_eq.
Qed.

Lemma wakeup_attributed_witness :
  last (pending (run new sample_run)) =
    Some (mkPendingInterval 7 150 200 (OffCpu [1; 2] [] (Some 9) (Some [5]))).
Proof.
  refine (proj1 (wakeup_attributed (run new (take 4 sample_run)) 0 9 7 150 180 200
                   _ _ _ _ _ _ _ _ _ _ _ _));
    vm_compute; first [done | split; congruence | by eexists].
Defined.

(** The attribution outlives the interval it belongs to: a wakeup seen
    while its target was still running is kept, and stamped on the next
    off-CPU interval although no wakeup fell in that interval's window. *)
Theorem stale_wakeup_attributed :
  let t := run new [Rec (sched_rec SCHED 0 9 50); Sampled 9 [5] [];
                    Rec (sched_rec SCHED 1 7 100); Sampled 7 [1; 2] [];
                    Rec (sched_rec MAKERUNNABLE 0 7 120);
                    Rec (sched_rec SCHED 1 8 150); Rec (sched_rec SCHED 1 7 200)] in
  pw_timestamp_ns <$> pending_wakeups t = [120] /\
  last (pending t) = Some (mkPendingInterval 7 150 200 (OffCpu [1; 2] [] (Some 9) (Some [5]))).
Proof. vm_compute. done. Qed.

End OffCpu.
