(* ===== verification/Sink.v ===== *)
(** * The sample sink

    [stax-mac-capture/src/sample_sink.rs] and [proc_maps.rs]: the events a
    capture back end hands to its sink, as the log of calls it makes; and
    [src/live_sink.rs], [src/live_only_sink.rs]: the bridge that turns them into
    the live side's events. *)

From S2P Require Import Prelude.

Module Sink.

(** [proc_maps::MachOSymbol]; the name is a byte string. *)
Record MachOSymbol := mkMachOSymbol {
  start_svma : Z;
  end_svma : Z;
  sym_name : list Z
}.

Record SampleEvent := mkSampleEvent {
  se_timestamp_ns : Z;
  se_pid : Z;
  se_tid : Z;
  se_backtrace : list Z;
  se_kernel_backtrace : list Z;
  se_cycles : Z;
  se_instructions : Z;
  se_l1d_misses : Z;
  se_branch_mispreds : Z
}.

Record BinaryLoadedEvent := mkBinaryLoadedEvent {
  bl_pid : Z;
  bl_base_avma : Z;
  bl_vmsize : Z;
  bl_text_svma : Z;
  bl_path : list Z;
  bl_uuid : option (list Z);
  bl_arch : option (list Z);
  bl_is_executable : bool;
  bl_symbols : list MachOSymbol;
  bl_text_bytes : option (list Z)
}.

Record BinaryUnloadedEvent := mkBinaryUnloadedEvent {
  bu_pid : Z;
  bu_base_avma : Z;
  bu_path : list Z
}.

Record WakeupEvent := mkWakeupEvent {
  we_timestamp_ns : Z;
  we_pid : Z;
  we_waker_tid : Z;
  we_wakee_tid : Z;
  we_waker_user_stack : list Z;
  we_waker_kernel_stack : list Z
}.

Inductive CpuIntervalKind :=
  | OnCpu
  | OffCpu (stack : list Z) (waker_tid : option Z) (waker_user_stack : option (list Z)).

Record CpuIntervalEvent := mkCpuIntervalEvent {
  ci_pid : Z;
  ci_tid : Z;
  ci_start_ns : Z;
  ci_end_ns : Z;
  ci_kind : CpuIntervalKind
}.

Record ThreadNameEvent := mkThreadNameEvent {
  tn_pid : Z;
  tn_tid : Z;
  tn_name : list Z
}.

Record JitdumpEvent := mkJitdumpEvent { jd_pid : Z; jd_path : list Z }.

(** One call of the trait [SampleSink]. *)
Inductive call :=
  | on_sample (sample : SampleEvent)
  | on_binary_loaded (ev : BinaryLoadedEvent)
  | on_binary_unloaded (ev : BinaryUnloadedEvent)
  | on_thread_name (ev : ThreadNameEvent)
  | on_jitdump (ev : JitdumpEvent)
  | on_kallsyms (data : list Z)
  | on_wakeup (event : WakeupEvent)
  | on_cpu_interval (event : CpuIntervalEvent)
  | on_macho_byte_source.

End Sink.

(** ** The live side *)

Module LiveSink.
Import Sink.

Record LiveSampleEvent := mkLiveSampleEvent {
  ls_timestamp : Z;
  ls_pid : Z;
  ls_tid : Z;
  ls_cpu : Z;
  ls_kernel_backtrace : list Z;
  ls_user_backtrace : list Z;
  ls_cycles : Z;
  ls_instructions : Z;
  ls_l1d_misses : Z;
  ls_branch_mispreds : Z
}.

Record LiveBinaryLoadedEvent := mkLiveBinaryLoadedEvent {
  ll_path : list Z;
  ll_base_avma : Z;
  ll_vmsize : Z;
  ll_text_svma : Z;
  ll_arch : option (list Z);
  ll_is_executable : bool;
  ll_symbols : list MachOSymbol;
  ll_text_bytes : option (list Z)
}.

(** One call of the trait [LiveSink]; wakeups, intervals and thread names have
    the fields of the sample sink's. *)
Inductive live_call :=
  | live_sample (event : LiveSampleEvent)
  | live_target_attached (pid task_port : Z)
  | live_binary_loaded (event : LiveBinaryLoadedEvent)
  | live_binary_unloaded (path : list Z) (base_avma : Z)
  | live_thread_name (event : ThreadNameEvent)
  | live_wakeup (event : WakeupEvent)
  | live_cpu_interval (event : CpuIntervalEvent)
  | live_kallsyms (data : list Z)
  | live_macho_byte_source.

(** [impl SampleSink for LiveOnlySink] on macOS, when a live sink is there. *)
Definition forward (c : call) : list live_call :=
  match c with
  | on_sample ev =>
      [live_sample (mkLiveSampleEvent (se_timestamp_ns ev) (se_pid ev) (se_tid ev) u32_max
         (se_kernel_backtrace ev) (se_backtrace ev) (se_cycles ev) (se_instructions ev)
         (se_l1d_misses ev) (se_branch_mispreds ev))]
  | on_kallsyms data => [live_kallsyms data]
  | on_cpu_interval ev => [live_cpu_interval ev]
  | on_binary_loaded ev =>
      [live_binary_loaded (mkLiveBinaryLoadedEvent (bl_path ev) (bl_base_avma ev) (bl_vmsize ev)
         (bl_text_svma ev) (bl_arch ev) (bl_is_executable ev) (bl_symbols ev) (bl_text_bytes ev))]
  | on_binary_unloaded ev => [live_binary_unloaded (bu_path ev) (bu_base_avma ev)]
  | on_thread_name ev => [live_thread_name ev]
  | on_jitdump _ => []
  | on_wakeup ev => [live_wakeup ev]
  | on_macho_byte_source => [live_macho_byte_source]
  end.

(** [LiveOnlySink]: without a live sink every call returns at once. *)
Definition forward_all (live : bool) (log : list call) : list live_call :=
  if live then log ≫= forward else [].

Definition notify_target_attached (live : bool) (pid : Z) : list live_call :=
  if live then [live_target_attached pid 0] else [].

End LiveSink.
