(* ===== verification/BTree.v ===== *)
(** * Ordered maps

    [BTreeMap<u64, V>] and [BTreeSet<u64>] as association lists in ascending key
    order, with the operations the source uses and the lemmas its clients
    share. *)

From S2P Require Import Prelude.

Definition btree (V : Type) : Type := list (Z * V).

Section BTree.
Context {V : Type}.
Implicit Types m : list (Z * V).

(** [BTreeMap::insert] *)
Fixpoint bt_insert (k : Z) (v : V) (m : list (Z * V)) : list (Z * V) :=
  match m with
  | [] => [(k, v)]
  | (k', v') :: m' =>
      if decide (k < k') then (k, v) :: m
      else if decide (k = k') then (k, v) :: m'
      else (k', v') :: bt_insert k v m'
  end.

(** [BTreeMap::get] *)
Fixpoint bt_get (k : Z) (m : list (Z * V)) : option V :=
  match m with
  | [] => None
  | (k', v') :: m' => if decide (k = k') then Some v' else bt_get k m'
  end.

(** [range(..hi)] and [range(lo..hi)], ascending. *)
Definition bt_range_to (hi : Z) (m : list (Z * V)) : list (Z * V) :=
  filter (fun kv => kv.1 < hi) m.
Definition bt_range (lo hi : Z) (m : list (Z * V)) : list (Z * V) :=
  filter (fun kv => lo <= kv.1 < hi) m.

Definition bt_sorted : list (Z * V) -> Prop := StronglySorted (fun a b => a.1 < b.1).

(** ** Lemmas *)

Lemma bt_insert_elem k v m x :
  bt_sorted m -> x ∈ bt_insert k v m <-> x = (k, v) \/ (x ∈ m /\ x.1 <> k).
Proof.
  unfold bt_sorted. induction 1 as [|[k' v'] m Hs IH Hall]; simpl.
  - rewrite list_elem_of_singleton. set_solver.
  - rewrite Forall_forall in Hall.
    destruct (decide (k < k')); [|destruct (decide (k = k')) as [->|]].
    + rewrite !elem_of_cons. split; [|naive_solver].
      intros [->|[->|Hx]]; [by left|right..]; simpl; [split; [by left|lia]|].
      split; [by right|]. apply Hall in Hx. simpl in Hx. lia.
    + rewrite !elem_of_cons. split.
      * intros [->|Hx]; [by left|]. right. split; [by right|]. apply Hall in Hx. simpl in Hx. lia.
      * naive_solver.
    + rewrite !elem_of_cons, IH. split; [|naive_solver].
      intros [->|[->|[? ?]]]; [right; simpl; split; [by left|lia]|by left|right; split; [by right|done]].
Qed.

Lemma bt_insert_sorted k v m : bt_sorted m -> bt_sorted (bt_insert k v m).
Proof.
  intros Hm. induction Hm as [|[k' v'] m Hs IH Hall]; simpl; [repeat constructor|].
  destruct (decide (k < k')); [|destruct (decide (k = k')) as [->|]].
  - repeat constructor; auto; simpl. eapply Forall_impl; [exact Hall|]. simpl. intros. lia.
  - constructor; auto.
  - constructor; [done|]. apply Forall_forall. intros x Hx.
    apply bt_insert_elem in Hx as [->|[Hx _]]; [simpl; lia| |done].
    rewrite Forall_forall in Hall. by apply Hall.
Qed.

Lemma bt_get_elem k v m : bt_sorted m -> bt_get k m = Some v <-> (k, v) ∈ m.
Proof.
  unfold bt_sorted. induction 1 as [|[k' v'] m Hs IH Hall]; simpl.
  - split; [done|]. by intros ?%elem_of_nil.
  - rewrite elem_of_cons. rewrite Forall_forall in Hall.
    destruct (decide (k = k')) as [->|Hne]; [|rewrite IH; naive_solver].
    split; [intros [= ->]; by left|]. intros [[= ->]|Hx]; [done|].
    apply Hall in Hx. simpl in Hx. lia.
Qed.

Lemma bt_get_insert k k' v m :
  bt_sorted m -> bt_get k (bt_insert k' v m) = if decide (k = k') then Some v else bt_get k m.
Proof.
  intros Hm. pose proof (bt_insert_sorted k' v m Hm) as Hi.
  apply option_eq. intros x. rewrite bt_get_elem, bt_insert_elem by done.
  destruct (decide (k = k')) as [->|]; simpl; [naive_solver|].
  rewrite bt_get_elem by done. naive_solver.
Qed.

Lemma bt_get_None k m : bt_get k m = None <-> k ∉ m.*1.
Proof.
  induction m as [|[k' v'] m IH]; simpl; [split; [set_solver|done]|].
  destruct (decide (k = k')) as [->|]; [set_solver|]. rewrite IH. set_solver.
Qed.

Lemma bt_sorted_NoDup m : bt_sorted m -> NoDup m.*1.
Proof.
  induction 1 as [|[k v] m Hs IH Hall]; cbn; constructor; [|done].
  intros (x & Hx & Hin)%list_elem_of_fmap. rewrite Forall_forall in Hall.
  apply Hall in Hin. cbn in *. lia.
Qed.

(** A sorted map is determined by its lookups. *)
Lemma bt_ext m1 m2 :
  bt_sorted m1 -> bt_sorted m2 -> (forall k, bt_get k m1 = bt_get k m2) -> m1 = m2.
Proof.
  intros H1 H2 He. apply (StronglySorted_unique_strong (fun a b => a.1 < b.1)).
  - intros; lia.
  - done.
  - done.
  - apply NoDup_Permutation; try (by eapply NoDup_fmap_1, bt_sorted_NoDup).
    intros [k v]. by rewrite <- !bt_get_elem, He.
Qed.

(** Inserting an ascending list of entries above every key appends it. *)
Lemma bt_insert_all l m :
  bt_sorted (m ++ l) -> foldl (fun m e => bt_insert e.1 e.2 m) m l = m ++ l.
Proof.
  revert m. induction l as [|[k v] l IH]; intros m Hs; cbn; [by rewrite app_nil_r|].
  assert (bt_insert k v m = m ++ [(k, v)]) as ->.
  { apply StronglySorted_app in Hs as (Hlt & _ & _). clear IH.
    induction m as [|[k' v'] m IHm]; cbn; [done|].
    specialize (Hlt (k', v') (k, v)) as Hk. cbn in Hk.
    rewrite !decide_False by (intros ?; specialize (Hk ltac:(left) ltac:(left)); lia).
    f_equal. apply IHm. intros x y Hx. apply Hlt. by right. }
  rewrite IH by (by rewrite <- app_assoc). by rewrite <- app_assoc.
Qed.

End BTree.
