(* ===== verification/JitImages.v ===== *)
(** * JIT regions and symbols

    [stax-linux-capture/src/jit.rs], the [JitImages] part: disjoint executable
    regions, the symbols known so far, and the synthetic [[jit]] images to
    (re-)publish. *)

From S2P Require Import Prelude Sink BTree.

Module JitImages.
Export Sink (MachOSymbol, mkMachOSymbol, start_svma, end_svma, sym_name).

(** [is_jit_mapping] *)
Definition is_jit_mapping (path : list Z) : bool :=
  bool_decide (path = []) || bool_decide (path = str "//anon")
  || starts_with (str "[anon:") path || starts_with (str "/memfd:") path.

Record JitImage := mkJitImage {
  img_start : Z;
  img_end : Z;
  img_symbols : list MachOSymbol
}.

Record JitImages := mkJitImages {
  regions : btree Z;
  symbols : btree (Z * list Z);
  dirty : btree unit;
  orphans : list Z
}.

#[export] Instance eta_JitImages : Eta JitImages := fun j =>
  mkJitImages (regions j) (symbols j) (dirty j) (orphans j).

Definition default : JitImages := mkJitImages [] [] [] [].

(** [intersecting]: walk back from the last region starting before [end_] until
    one ends at or before [start]. *)
Definition intersecting (start end_ : Z) (j : JitImages) : list (Z * Z) :=
  reverse (take_while (fun r => bool_decide (start < r.2)) (reverse (bt_range_to end_ (regions j)))).

(** The loop of [add_mapping] that collects the uncovered gaps. *)
Fixpoint mapping_gaps (cursor end_ : Z) (hits : list (Z * Z)) : list (Z * Z) :=
  match hits with
  | [] => if bool_decide (cursor < end_) then [(cursor, end_)] else []
  | (s, e) :: hits' =>
      (if bool_decide (cursor < s) then [(cursor, s)] else [])
      ++ mapping_gaps (Z.max cursor e) end_ hits'
  end.

(** [self.dirty.insert(s)] for each region start. *)
Definition mark_starts (hits : list (Z * Z)) (d : btree unit) : btree unit :=
  foldl (fun d r => bt_insert r.1 tt d) d hits.

Definition mark_dirty (start end_ : Z) (j : JitImages) : JitImages * bool :=
  let hits := intersecting start end_ j in
  (j <| dirty ::= mark_starts hits |>, bool_decide (hits <> [])).

(** One waiting symbol of [add_mapping]: it stays an orphan while no region
    intersects it. *)
Definition retry_orphan (j : JitImages) (sym : Z) : JitImages :=
  match bt_get sym (symbols j) with
  | Some (end_, _) =>
      let '(j, hit) := mark_dirty sym end_ j in
      if hit then j else j <| orphans ::= fun l => l ++ [sym] |>
  | None => j
  end.

Definition add_gap (j : JitImages) (g : Z * Z) : JitImages :=
  j <| regions ::= bt_insert g.1 g.2 |> <| dirty ::= bt_insert g.1 tt |>.

(** [add_mapping]; the second component is the number of regions added. *)
Definition add_mapping (start end_ : Z) (j : JitImages) : JitImages * Z :=
  if bool_decide (end_ <= start) then (j, 0) else
  let gaps := mapping_gaps start end_ (intersecting start end_ j) in
  let j := foldl add_gap j gaps in
  let j :=
    if bool_decide (gaps <> [] /\ orphans j <> []) then
      foldl retry_orphan (j <| orphans := [] |>) (orphans j)
    else j in
  (j, Z.of_nat (length gaps)).

Definition add_symbol (start size : Z) (name : list Z) (j : JitImages) : JitImages :=
  let end_ := sadd64 start (Z.max size 1) in
  if bool_decide (bt_get start (symbols j) = Some (end_, name)) then j else
  let j := j <| symbols ::= bt_insert start (end_, name) |> in
  let '(j, hit) := mark_dirty start end_ j in
  if hit then j else j <| orphans ::= fun l => l ++ [start] |>.

Definition symbol_count (j : JitImages) : Z := Z.of_nat (length (symbols j)).

Definition has_orphans (j : JitImages) : bool := bool_decide (orphans j <> []).

Definition adopt_orphan (j : JitImages) (sym : Z) : JitImages :=
  match bt_get sym (symbols j) with
  | Some (end_, _) =>
      let j := fst (add_mapping sym end_ j) in
      fst (mark_dirty sym end_ j)
  | None => j
  end.

Definition adopt_orphans (j : JitImages) : JitImages :=
  (foldl adopt_orphan (j <| orphans := [] |>) (orphans j)) <| orphans := [] |>.

(** The symbol table published for the region [start, end_): the nearest
    preceding symbol when it runs into the region, then the symbols that start
    inside. *)
Definition region_table (start end_ : Z) (j : JitImages) : list MachOSymbol :=
  (match last (bt_range_to start (symbols j)) with
   | Some (s, (e, name)) => if bool_decide (start < e) then [mkMachOSymbol s e name] else []
   | None => []
   end)
  ++ ((fun '(s, (e, name)) => mkMachOSymbol s e name) <$> bt_range start end_ (symbols j)).

Definition take_dirty (j : JitImages) : JitImages * list JitImage :=
  (j <| dirty := [] |>,
   omap (fun '(start, _) =>
           (fun end_ => mkJitImage start end_ (region_table start end_ j))
             <$> bt_get start (regions j)) (dirty j)).

(** The unit tests of [jit.rs]. *)
Example never_overlap :
  let j := fst (add_mapping 0x2000 0x3000 default) in
  let '(j, n) := add_mapping 0x1000 0x5000 j in
  n = 2 /\ regions j = [(0x1000, 0x2000); (0x2000, 0x3000); (0x3000, 0x5000)] /\
  snd (add_mapping 0x1800 0x4000 j) = 0.
Proof. vm_compute. done. Qed.

(** ** The invariant *)

Definition apart (p q : Z * Z) : Prop := p.2 <= q.1 \/ q.2 <= p.1.

(** Regions are non-empty, in order, and disjoint. *)
Definition regions_ok (m : list (Z * Z)) : Prop :=
  StronglySorted (fun a b => a.2 <= b.1) m /\ Forall (fun r => r.1 < r.2) m.

Definition covered (m : list (Z * Z)) (x : Z) : Prop := exists r, r ∈ m /\ r.1 <= x < r.2.

(** ** Lemmas *)

Lemma regions_sorted m : regions_ok m -> bt_sorted m.
Proof.
  intros [Hs Hne]. unfold bt_sorted. induction Hs as [|r m Hs IH Hall]; [constructor|].
  inversion_clear Hne. constructor; [by apply IH|].
  eapply Forall_impl; [exact Hall|]. simpl. lia.
Qed.

Lemma regions_apart m p q : regions_ok m -> p ∈ m -> q ∈ m -> p = q \/ apart p q.
Proof.
  intros [Hs _]. induction Hs as [|r m Hs IH Hall]; intros Hp Hq; [by apply elem_of_nil in Hp|].
  rewrite Forall_forall in Hall. unfold apart in *.
  apply elem_of_cons in Hp as [->|Hp]; apply elem_of_cons in Hq as [->|Hq]; auto.
Qed.

Lemma regions_insert_ok a b m :
  regions_ok m -> a < b -> (forall r, r ∈ m -> apart r (a, b)) ->
  regions_ok (bt_insert a b m) /\ (forall r, r ∈ bt_insert a b m <-> r = (a, b) \/ r ∈ m).
Proof.
  intros Hok Hab Hap. pose proof (regions_sorted _ Hok) as Hsorted.
  assert (Hel : forall r, r ∈ bt_insert a b m <-> r = (a, b) \/ r ∈ m).
  { intros r. rewrite bt_insert_elem by done. split; [naive_solver|].
    intros [->|Hr]; [by left|]. right. split; [done|].
    destruct Hok as [_ Hne]. rewrite Forall_forall in Hne.
    specialize (Hne _ Hr). specialize (Hap _ Hr). unfold apart in Hap. simpl in *. lia. }
  split; [|done]. split.
  - pose proof (bt_insert_sorted a b m Hsorted) as Hs'. clear Hsorted.
    assert (Hpair : forall p q, p ∈ bt_insert a b m -> q ∈ bt_insert a b m -> p.1 < q.1 -> p.2 <= q.1).
    { destruct Hok as [Hs Hne]. rewrite Forall_forall in Hne. intros p q Hp Hq Hlt.
      apply Hel in Hp as [->|Hp]; apply Hel in Hq as [->|Hq]; simpl in *; [lia| | |].
      - specialize (Hap _ Hq). specialize (Hne _ Hq). unfold apart in Hap. simpl in *. lia.
      - specialize (Hap _ Hp). specialize (Hne _ Hp). unfold apart in Hap. simpl in *. lia.
      - destruct (regions_apart m p q) as [->|[?|?]]; [by split; [|apply Forall_forall]|done|done|lia|done|].
        pose proof (Hne _ Hp). pose proof (Hne _ Hq). simpl in *. lia. }
    clear Hel Hap Hok. unfold bt_sorted in Hs'. induction Hs' as [|r l Hs IH Hall]; [constructor|].
    constructor; [apply IH; set_solver|]. rewrite Forall_forall in Hall |- *.
    intros q Hq. apply Hpair; [by left|by right|by apply Hall].
  - apply Forall_forall. intros r Hr. apply Hel in Hr as [->|Hr]; [done|].
    destruct Hok as [_ Hne]. rewrite Forall_forall in Hne. by apply Hne.
Qed.

Lemma regions_filter_ok (P : Z * Z -> Prop) `{!forall r, Decision (P r)} m :
  regions_ok m -> regions_ok (filter P m).
Proof.
  intros [Hs Hne]. split; [|apply Forall_forall; intros r [_ Hr]%list_elem_of_filter;
    rewrite Forall_forall in Hne; by apply Hne].
  induction Hs as [|r m Hs IH Hall]; [constructor|]. inversion_clear Hne.
  rewrite filter_cons. case_decide; [|by apply IH]. constructor; [by apply IH|].
  rewrite Forall_forall in *. intros q [_ Hq]%list_elem_of_filter. by apply Hall.
Qed.

(** [intersecting] finds exactly the regions that overlap the range. *)
Lemma intersecting_filter start end_ j :
  regions_ok (regions j) ->
  intersecting start end_ j = filter (fun r => start < r.2 /\ r.1 < end_) (regions j).
Proof.
  intros Hok. unfold intersecting, bt_range_to.
  rewrite (take_while_rev (fun a b : Z * Z => a.2 <= b.1 /\ b.1 < b.2)).
  - rewrite list_filter_filter. apply list_filter_iff. intros r. by rewrite bool_decide_eq_true.
  - intros x y Hxy Hx%bool_decide_eq_true. apply bool_decide_eq_true. lia.
  - pose proof (regions_filter_ok (fun r => r.1 < end_) _ Hok) as [Hs Hne]. clear Hok.
    induction Hs as [|r m Hs IH Hall]; [constructor|]. inversion_clear Hne.
    constructor; [by apply IH|]. rewrite Forall_forall in *. auto.
Qed.

Lemma intersecting_elem start end_ j r :
  regions_ok (regions j) ->
  r ∈ intersecting start end_ j <-> r ∈ regions j /\ r.1 < end_ /\ start < r.2.
Proof. intros Hok. rewrite intersecting_filter, list_elem_of_filter by done. naive_solver. Qed.

(** The gaps of [add_mapping]: between [cursor] and [end_], off every hit, and
    together with the hits covering the whole range. *)
Lemma mapping_gaps_spec hits : forall cursor end_,
  regions_ok hits -> Forall (fun r => r.1 < end_) hits ->
  let gaps := mapping_gaps cursor end_ hits in
  regions_ok gaps /\
  Forall (fun g => cursor <= g.1 /\ g.2 <= end_) gaps /\
  (forall g r, g ∈ gaps -> r ∈ hits -> apart r g) /\
  (forall x, cursor <= x < end_ -> covered gaps x \/ covered hits x).
Proof.
  induction hits as [|[s e] hits IH]; intros cursor end_ Hok Hlt gaps; subst gaps; simpl.
  { case_bool_decide.
    - split_ands; [split; repeat constructor; simpl; lia|repeat constructor; simpl; lia|set_solver|].
      intros x Hx. left. exists (cursor, end_). simpl. set_solver by lia.
    - split_ands; [split; constructor|constructor|set_solver|]. intros x Hx. lia. }
  destruct Hok as [Hs Hne]. inversion_clear Hs as [|?? Hs' Hall]. inversion_clear Hne as [|?? Hse Hne'].
  inversion_clear Hlt as [|?? Hend Hlt']. simpl in *.
  destruct (IH (Z.max cursor e) end_) as (Hg & Hin & Hap & Hcov); [by split|done|].
  set (gaps := mapping_gaps (Z.max cursor e) end_ hits) in *. rewrite Forall_forall in Hin, Hall.
  set (first := if bool_decide (cursor < s) then [(cursor, s)] else []).
  assert (Hfirst : forall g, g ∈ first <-> g = (cursor, s) /\ cursor < s).
  { subst first. case_bool_decide; set_solver. }
  split_ands.
  - destruct Hg as [Hgs Hgne]. split; [|apply Forall_app; split; [|done]].
    + apply StronglySorted_app. split_ands; [|subst first; case_bool_decide; repeat constructor|done].
      intros g1 g2 [-> _]%Hfirst Hg2. specialize (Hin _ Hg2). simpl. lia.
    + apply Forall_forall. intros g [-> ?]%Hfirst. done.
  - apply Forall_forall. intros g [[-> ?]%Hfirst|Hg']%elem_of_app; simpl; [lia|].
    specialize (Hin _ Hg'). lia.
  - intros g r [[-> ?]%Hfirst|Hg']%elem_of_app [->|Hr]%elem_of_cons; unfold apart in *; simpl.
    + lia.
    + right. specialize (Hall _ Hr). simpl in *. lia.
    + left. specialize (Hin _ Hg'). lia.
    + by apply Hap.
  - intros x Hx. destruct (decide (x < s)).
    + left. exists (cursor, s). rewrite elem_of_app, Hfirst. simpl. split; [left; split; [done|lia]|lia].
    + destruct (decide (x < e)).
      * right. exists (s, e). simpl. split; [by left|lia].
      * destruct (Hcov x) as [(g & Hg' & ?)|(r & Hr & ?)]; [lia|left; exists g|right; exists r]; set_solver.
Qed.

(** Adding the gaps one by one. *)
Lemma add_gaps_spec gaps : forall j,
  regions_ok (regions j) -> regions_ok gaps ->
  (forall g r, g ∈ gaps -> r ∈ regions j -> apart r g) ->
  let j' := foldl add_gap j gaps in
  regions_ok (regions j') /\ (forall r, r ∈ regions j' <-> r ∈ gaps \/ r ∈ regions j) /\
  symbols j' = symbols j /\ orphans j' = orphans j /\
  dirty j' = mark_starts gaps (dirty j).
Proof.
  induction gaps as [|[a b] gaps IH]; intros j Hok Hg Hap j'; subst j'; simpl.
  { split_ands; try done. set_solver. }
  destruct Hg as [Hs Hne]. inversion_clear Hs as [|?? Hs' Hall]. inversion_clear Hne as [|?? Hab Hne'].
  simpl in *. rewrite Forall_forall in Hall.
  destruct (regions_insert_ok a b (regions j)) as [Hok' Hel]; [done|done|set_solver|].
  destruct (IH (add_gap j (a, b))) as (H1 & H2 & H3 & H4 & H5); [done|by split| |].
  - simpl. intros g r Hg' [->|Hr]%Hel; [|set_solver]. left. simpl. by apply Hall.
  - split_ands; try done. intros r. rewrite H2. simpl. rewrite Hel. set_solver.
Qed.

Lemma bt_insert_length k (v : Z) m : k ∉ m.*1 -> length (bt_insert k v m) = S (length m).
Proof.
  induction m as [|[k' v'] m IH]; simpl; intros Hk; [done|].
  destruct (decide (k < k')), (decide (k = k')); simpl; try done; [set_solver|].
  rewrite IH; [done|set_solver].
Qed.

Lemma add_gaps_length gaps : forall j,
  regions_ok (regions j) -> regions_ok gaps ->
  (forall g r, g ∈ gaps -> r ∈ regions j -> apart r g) ->
  length (regions (foldl add_gap j gaps)) = (length (regions j) + length gaps)%nat.
Proof.
  induction gaps as [|[a b] gaps IH]; intros j Hok Hg Hap; simpl; [lia|].
  destruct Hg as [Hs Hne]. inversion_clear Hs as [|?? Hs' Hall]. inversion_clear Hne as [|?? Hab Hne'].
  simpl in *. rewrite Forall_forall in Hall.
  destruct (regions_insert_ok a b (regions j)) as [Hok' Hel]; [done|done|set_solver|].
  rewrite IH; [|done|by split|].
  - simpl. rewrite bt_insert_length; [lia|]. intros ([k e] & -> & Hk)%list_elem_of_fmap. simpl in *.
    specialize (Hap (k, b) (k, e) ltac:(by left) Hk). destruct Hok as [_ Hne].
    rewrite Forall_forall in Hne. specialize (Hne _ Hk). unfold apart in Hap. simpl in *. lia.
  - simpl. intros g r Hg' [->|Hr]%Hel; [|set_solver]. left. simpl. by apply Hall.
Qed.

Definition hit (m : list (Z * Z)) (start end_ : Z) : Prop :=
  exists r, r ∈ m /\ r.1 < end_ /\ start < r.2.

(** A symbol's range is non-empty unless it starts at the very last address
    (where the saturated end equals the start). *)
Definition symbol_ok (sym : Z * (Z * list Z)) : Prop :=
  0 <= sym.1 <= sym.2.1 /\ sym.2.1 <= u64_max /\ (sym.1 < u64_max -> sym.1 < sym.2.1).

(** The invariant, up to the symbols of [waiting] (empty between operations),
    which [adopt_orphans] has taken off the orphan list and not yet placed. *)
Record jit_ok (waiting : list Z) (j : JitImages) : Prop := {
  ok_regions : regions_ok (regions j);
  ok_symbols : bt_sorted (symbols j);
  ok_symbol : Forall symbol_ok (symbols j);
  ok_dirty : bt_sorted (dirty j);
  ok_dirty_regions : forall k, (k, tt) ∈ dirty j -> exists e, (k, e) ∈ regions j;
  ok_placed : forall s e n, (s, (e, n)) ∈ symbols j -> s < u64_max ->
    s ∈ waiting \/ s ∈ orphans j \/ hit (regions j) s e
}.

Lemma hit_mono m m' s e : (forall r, r ∈ m -> r ∈ m') -> hit m s e -> hit m' s e.
Proof. intros Hsub (r & Hr & ?). exists r. auto. Qed.

Lemma mark_starts_spec hits : forall d,
  bt_sorted d ->
  bt_sorted (mark_starts hits d) /\
  (forall k, (k, tt) ∈ mark_starts hits d <-> k ∈ hits.*1 \/ (k, tt) ∈ d).
Proof.
  unfold mark_starts. induction hits as [|r hits IH]; intros d Hd; simpl; [split; [done|set_solver]|].
  destruct (IH (bt_insert r.1 tt d)) as [Hs Hel]; [by apply bt_insert_sorted|].
  split; [done|]. intros k. rewrite Hel, bt_insert_elem, elem_of_cons by done. simpl.
  destruct (decide (k = r.1)); naive_solver.
Qed.

Lemma mark_dirty_hit start end_ j :
  regions_ok (regions j) -> snd (mark_dirty start end_ j) = true <-> hit (regions j) start end_.
Proof.
  intros Hok. unfold mark_dirty, hit. simpl. rewrite bool_decide_eq_true. split.
  - intros Hne. destruct (intersecting start end_ j) as [|r l] eqn:Hi; [done|].
    exists r. apply (intersecting_elem start end_ j r Hok). rewrite Hi. by left.
  - intros (r & Hr & H1 & H2) Hnil.
    assert (r ∈ intersecting start end_ j) as Hin by (by apply intersecting_elem).
    rewrite Hnil in Hin. by apply elem_of_nil in Hin.
Qed.

(** What marking touches: only the dirty set, by starts of regions. *)
Definition only_marks (j j' : JitImages) : Prop :=
  regions j' = regions j /\ symbols j' = symbols j /\ bt_sorted (dirty j') /\
  (forall k, (k, tt) ∈ dirty j -> (k, tt) ∈ dirty j') /\
  (forall k, (k, tt) ∈ dirty j' -> (k, tt) ∈ dirty j \/ exists e, (k, e) ∈ regions j).

Lemma only_marks_trans j1 j2 j3 : only_marks j1 j2 -> only_marks j2 j3 -> only_marks j1 j3.
Proof.
  intros (H1 & H2 & _ & H3 & H4) (H1' & H2' & H5' & H3' & H4').
  unfold only_marks. rewrite H1', H2'. rewrite H1 in H4'. split_ands; auto.
  intros k Hk. destruct (H4' k Hk); auto.
Qed.

Lemma mark_dirty_marks start end_ j :
  regions_ok (regions j) -> bt_sorted (dirty j) -> only_marks j (fst (mark_dirty start end_ j)).
Proof.
  intros Hok Hd. destruct (mark_starts_spec (intersecting start end_ j) (dirty j) Hd) as [Hs Hel].
  unfold only_marks, mark_dirty. simpl. split_ands; try done.
  - intros k Hk. apply Hel. by right.
  - intros k [Hk|Hk]%Hel; [right|by left].
    apply list_elem_of_fmap in Hk as ([k' e] & -> & Hk).
    apply intersecting_elem in Hk as [Hk _]; [|done]. by exists e.
Qed.

Lemma retry_orphans_spec os : forall j,
  regions_ok (regions j) -> bt_sorted (dirty j) -> bt_sorted (symbols j) ->
  let j' := foldl retry_orphan j os in
  only_marks j j' /\ (forall o, o ∈ orphans j -> o ∈ orphans j') /\
  (forall s e n, (s, (e, n)) ∈ symbols j -> s ∈ os -> s ∈ orphans j' \/ hit (regions j) s e).
Proof.
  induction os as [|o os IH]; intros j Hok Hd Hs j'; subst j'; simpl.
  { split_ands; [unfold only_marks; split_ands; auto|done|set_solver]. }
  assert (Hstep : only_marks j (retry_orphan j o) /\
    (forall x, x ∈ orphans j -> x ∈ orphans (retry_orphan j o)) /\
    (forall e n, (o, (e, n)) ∈ symbols j -> o ∈ orphans (retry_orphan j o) \/ hit (regions j) o e)).
  { unfold retry_orphan. destruct (bt_get o (symbols j)) as [[e n]|] eqn:Hg.
    - apply bt_get_elem in Hg; [|done]. pose proof (mark_dirty_marks o e j Hok Hd) as Hm.
      pose proof (mark_dirty_hit o e j Hok) as Hh. assert (orphans (fst (mark_dirty o e j)) = orphans j) as Ho by done.
      destruct (mark_dirty o e j) as [j1 h]. simpl in *. destruct h; simpl.
      + split_ands; [done|by rewrite Ho|]. intros e' n' He'.
        apply (bt_get_elem _ _ _ Hs) in Hg, He'. rewrite Hg in He'. injection He' as -> ->. right. by apply Hh.
      + split_ands; [done|rewrite Ho; set_solver|]. intros. left. set_solver.
    - split_ands; [unfold only_marks; split_ands; auto|done|].
      intros e n He. apply (bt_get_elem _ _ _ Hs) in He. congruence. }
  destruct Hstep as (Hm & Hkeep & Hplace). pose proof Hm as (Hr & Hsy & Hd' & _).
  destruct (IH (retry_orphan j o)) as (Hm' & Hkeep' & Hplace'); [by rewrite Hr|done|by rewrite Hsy|].
  rewrite Hr, Hsy in Hplace'. split_ands; [by eapply only_marks_trans|auto|].
  intros s e n Hin [->|Ho]%elem_of_cons; [|by eapply Hplace'].
  destruct (Hplace e n Hin); auto.
Qed.

(** Marking regions dirty keeps the invariant when no symbol loses its place. *)
Lemma only_marks_ok w j j' :
  jit_ok w j -> only_marks j j' ->
  (forall s e n, (s, (e, n)) ∈ symbols j -> s < u64_max ->
     s ∈ w \/ s ∈ orphans j' \/ hit (regions j) s e) ->
  jit_ok w j'.
Proof.
  intros [] (Hr & Hs & Hd & _ & Hel) Hp. split; rewrite ?Hr, ?Hs; auto.
  intros k Hk. destruct (Hel k Hk); auto.
Qed.

Lemma add_mapping_spec w start end_ j :
  jit_ok w j ->
  let '(j', n) := add_mapping start end_ j in
  jit_ok w j' /\ symbols j' = symbols j /\ (forall r, r ∈ regions j -> r ∈ regions j') /\
  (forall x, covered (regions j') x <-> covered (regions j) x \/ start <= x < end_) /\
  Z.of_nat (length (regions j')) = Z.of_nat (length (regions j)) + n /\
  (forall r, r ∈ regions j' -> r ∈ regions j \/ (r.1, tt) ∈ dirty j') /\
  (forall k, (k, tt) ∈ dirty j -> (k, tt) ∈ dirty j') /\
  (orphans j = [] -> orphans j' = []).
Proof.
  intros Hok. unfold add_mapping. case_bool_decide as Hemp.
  { split_ands; auto; [|lia]. intros x. split; [auto|]. intros [?|?]; [done|lia]. }
  set (hits := intersecting start end_ j). set (gaps := mapping_gaps start end_ hits).
  pose proof (ok_regions _ _ Hok) as Hreg.
  assert (Hhits : regions_ok hits).
  { subst hits. rewrite intersecting_filter by done. by apply regions_filter_ok. }
  assert (Hend : Forall (fun r => r.1 < end_) hits).
  { apply Forall_forall. intros r Hr. apply intersecting_elem in Hr; [apply Hr|done]. }
  destruct (mapping_gaps_spec hits start end_ Hhits Hend) as (Hg & Hin & Hap & Hcov).
  fold gaps in Hg, Hin, Hap, Hcov.
  rewrite Forall_forall in Hin.
  assert (Hap' : forall g r, g ∈ gaps -> r ∈ regions j -> apart r g).
  { intros g r Hgi Hr. destruct (decide (r.1 < end_ /\ start < r.2)) as [Hi|Hi].
    - apply Hap; [done|]. by apply intersecting_elem.
    - specialize (Hin _ Hgi). unfold apart. lia. }
  destruct (add_gaps_spec gaps j Hreg Hg Hap') as (Hreg1 & Hel & Hsy & Hor & Hdi).
  assert (Hlen : length (regions (foldl add_gap j gaps)) = (length (regions j) + length gaps)%nat)
    by (by apply add_gaps_length).
  set (j1 := foldl add_gap j gaps) in *.
  destruct (mark_starts_spec gaps (dirty j) (ok_dirty _ _ Hok)) as [Hds Hdel]. rewrite <- Hdi in Hds, Hdel.
  assert (Hok1 : jit_ok w j1).
  { split; rewrite ?Hsy, ?Hor; try apply Hok; auto.
    - intros k [Hk|Hk]%Hdel.
      + apply list_elem_of_fmap in Hk as ([k' e] & -> & Hk). exists e. apply Hel. by left.
      + destruct (ok_dirty_regions _ _ Hok _ Hk) as [e He]. exists e. apply Hel. by right.
    - intros s e n Hs Hlt. destruct (ok_placed _ _ Hok s e n Hs Hlt) as [|[|Hh]]; [by left|by right; left|right; right].
      eapply hit_mono; [|done]. intros r Hr. apply Hel. by right. }
  set (j2 := if bool_decide _ then _ else _).
  assert (Hj2 : jit_ok w j2 /\ only_marks j1 j2 /\ (orphans j = [] -> orphans j2 = [])).
  { subst j2. case_bool_decide as Hc;
      [|split_ands; [done|unfold only_marks; split_ands; auto|by rewrite Hor]].
    rewrite Hor in *.
    destruct (retry_orphans_spec (orphans j) (j1 <| orphans := [] |>)) as (Hm & _ & Hp);
      [done|done|exact (ok_symbols _ _ Hok1)|].
    split_ands; [|done|naive_solver]. eapply (only_marks_ok w j1); [done|done|].
    intros s e n Hs Hlt. destruct (ok_placed _ _ Hok1 s e n Hs Hlt) as [|[Ho|]]; [by left| |by right; right].
    rewrite Hor in Ho. right. by eapply Hp. }
  destruct Hj2 as (Hok2 & (Hr2 & Hs2 & _ & Hd2 & _) & Ho2).
  rewrite Hs2, Hr2. split_ands; auto.
  - intros r Hr. apply Hel. by right.
  - intros x. split.
    + intros (r & [Hr|Hr]%Hel & Hx); [right|left; by exists r]. specialize (Hin _ Hr). lia.
    + intros [(r & Hr & Hx)|Hx]; [exists r; split; [apply Hel; by right|done]|].
      destruct (Hcov x Hx) as [(g & Hgi & ?)|(r & Hr & ?)]; [exists g|exists r].
      * split; [apply Hel; by left|done].
      * apply intersecting_elem in Hr as [Hr _]; [|done]. split; [apply Hel; by right|done].
  - lia.
  - intros r [Hr|Hr]%Hel; [right|by left]. apply Hd2, Hdel. left. by apply list_elem_of_fmap_2.
  - intros k Hk. apply Hd2, Hdel. by right.
Qed.

Lemma end_of_symbol start size :
  is_u64 start -> 0 <= size ->
  symbol_ok (start, (sadd64 start (Z.max size 1), [])).
Proof. unfold symbol_ok; simpl. width. lia. Qed.

Lemma add_symbol_spec start size name j :
  jit_ok [] j -> is_u64 start -> 0 <= size ->
  let j' := add_symbol start size name j in
  jit_ok [] j' /\ regions j' = regions j /\
  (start, (sadd64 start (Z.max size 1), name)) ∈ symbols j' /\
  (forall r, r ∈ regions j -> r.1 < sadd64 start (Z.max size 1) -> start < r.2 ->
     (start, (sadd64 start (Z.max size 1), name)) ∈ symbols j \/ (r.1, tt) ∈ dirty j').
Proof.
  intros Hok Hs Hsz j'. subst j'. unfold add_symbol. set (e := sadd64 start (Z.max size 1)).
  pose proof (end_of_symbol start size Hs Hsz) as Hsym.
  case_bool_decide as Hun.
  { apply bt_get_elem in Hun; [|apply Hok]. auto. }
  set (j1 := j <| symbols ::= bt_insert start (e, name) |>).
  assert (Hel : forall x, x ∈ symbols j1 <-> x = (start, (e, name)) \/ (x ∈ symbols j /\ x.1 <> start))
    by (intros x; simpl; apply bt_insert_elem, Hok).
  pose proof (mark_dirty_marks start e j1 (ok_regions _ _ Hok) (ok_dirty _ _ Hok)) as Hm.
  pose proof (mark_dirty_hit start e j1 (ok_regions _ _ Hok)) as Hh.
  assert (Hmark : forall r, r ∈ regions j -> r.1 < e -> start < r.2 ->
            (r.1, tt) ∈ dirty (fst (mark_dirty start e j1))).
  { intros r Hr H1 H2. simpl. apply mark_starts_spec; [apply Hok|]. left.
    apply list_elem_of_fmap_2. by apply intersecting_elem; [apply Hok|]. }
  assert (Hor : orphans (fst (mark_dirty start e j1)) = orphans j) by done.
  assert (Hbase : forall j2, only_marks j1 j2 ->
    (forall x, x ∈ orphans j -> x ∈ orphans j2) ->
    (start ∈ orphans j2 \/ hit (regions j) start e) -> jit_ok [] j2).
  { intros j2 (Hr & Hsy & Hd & _ & Hdel) Hsub Hpl. split; rewrite ?Hr, ?Hsy; auto.
    - apply Hok.
    - apply bt_insert_sorted, Hok.
    - apply Forall_forall. intros x [->|[Hx _]]%Hel; [exact Hsym|].
      pose proof (ok_symbol _ _ Hok) as Hall. rewrite Forall_forall in Hall. by apply Hall.
    - intros k [Hk|Hk]%Hdel; [|done]. by apply (ok_dirty_regions _ _ Hok).
    - intros s e' n [[= -> -> ->]|[Hx _]]%Hel Hlt; [by right|].
      destruct (ok_placed _ _ Hok s e' n Hx Hlt) as [|[|]]; auto. }
  assert (Hin : forall j2, only_marks j1 j2 -> (start, (e, name)) ∈ symbols j2).
  { intros j2 (_ & -> & _). apply Hel. by left. }
  destruct (mark_dirty start e j1) as [j2 h] eqn:Hmd. simpl in Hm, Hh, Hmark, Hor.
  destruct h; split_ands; try (by apply Hin); try (by destruct Hm).
  - apply Hbase; [done|by rewrite Hor|right; by apply Hh].
  - auto.
  - apply Hbase; [done|simpl; rewrite Hor; set_solver|left; simpl; set_solver].
  - auto.
Qed.

Lemma jit_ok_placed w sym j :
  jit_ok (sym :: w) j ->
  (forall e n, (sym, (e, n)) ∈ symbols j -> sym < u64_max -> hit (regions j) sym e) ->
  jit_ok w j.
Proof.
  intros [] Hp. split; auto. intros s e n Hin Hlt.
  destruct (ok_placed0 s e n Hin Hlt) as [[->|]%elem_of_cons|[|]]; eauto.
Qed.

(** Placing one waiting symbol. *)
Lemma adopt_orphan_spec w sym j :
  jit_ok (sym :: w) j -> orphans j = [] ->
  let j' := adopt_orphan j sym in
  jit_ok w j' /\ orphans j' = [] /\ symbols j' = symbols j /\
  (forall r, r ∈ regions j -> r ∈ regions j') /\
  (forall e n x, (sym, (e, n)) ∈ symbols j -> sym <= x < e -> covered (regions j') x).
Proof.
  intros Hok Hno j'. subst j'. unfold adopt_orphan.
  destruct (bt_get sym (symbols j)) as [[e n]|] eqn:Hg.
  - apply bt_get_elem in Hg; [|apply Hok].
    pose proof (add_mapping_spec (sym :: w) sym e j Hok) as Ham.
    destruct (add_mapping sym e j) as [j1 k]. simpl in *.
    destruct Ham as (Hok1 & Hsy & Hsub & Hcov & _ & _ & _ & Hno1). specialize (Hno1 Hno).
    pose proof (mark_dirty_marks sym e j1 (ok_regions _ _ Hok1) (ok_dirty _ _ Hok1)) as Hm.
    pose proof Hm as (Hr & Hs & _).
    assert (Huniq : forall e' n', (sym, (e', n')) ∈ symbols j -> e' = e).
    { intros e' n' H'. apply (bt_get_elem _ _ _ (ok_symbols _ _ Hok)) in H', Hg. congruence. }
    assert (Hcovered : forall x, sym <= x < e -> covered (regions j1) x) by (intros; apply Hcov; by right).
    assert (Hokw : jit_ok w j1).
    { apply (jit_ok_placed w sym); [done|]. intros e' n' Hin Hlt.
      rewrite Hsy in Hin. apply Huniq in Hin as Heq. subst e'.
      pose proof (ok_symbol _ _ Hok) as Hall. rewrite Forall_forall in Hall.
      destruct (Hall _ Hg) as (_ & _ & Hne). simpl in Hne. specialize (Hne Hlt).
      destruct (Hcovered sym) as (r & Hr' & ?); [lia|]. exists r. split; [done|lia]. }
    split_ands.
    + eapply only_marks_ok; [exact Hokw|exact Hm|]. apply Hokw.
    + done.
    + done.
    + exact Hsub.
    + intros e' n' x Hin Hx. change (covered (regions j1) x). apply Hcovered. by rewrite <- (Huniq e' n').
  - split_ands; try done.
    + apply (jit_ok_placed w sym); [done|]. intros e n Hin.
      apply (bt_get_elem _ _ _ (ok_symbols _ _ Hok)) in Hin. congruence.
    + intros e n x Hin. apply (bt_get_elem _ _ _ (ok_symbols _ _ Hok)) in Hin. congruence.
Qed.

Lemma covered_mono m m' x : (forall r, r ∈ m -> r ∈ m') -> covered m x -> covered m' x.
Proof. intros Hsub (r & Hr & ?). exists r. auto. Qed.

Lemma adopt_orphans_fold os : forall j,
  jit_ok os j -> orphans j = [] ->
  let j' := foldl adopt_orphan j os in
  jit_ok [] j' /\ orphans j' = [] /\ symbols j' = symbols j /\
  (forall r, r ∈ regions j -> r ∈ regions j') /\
  (forall s e n x, s ∈ os -> (s, (e, n)) ∈ symbols j -> s <= x < e -> covered (regions j') x).
Proof.
  induction os as [|o os IH]; intros j Hok Hno j'; subst j'; simpl; [split_ands; auto; set_solver|].
  destruct (adopt_orphan_spec os o j Hok Hno) as (Hok1 & Hno1 & Hs1 & Hsub1 & Hcov1).
  destruct (IH (adopt_orphan j o) Hok1 Hno1) as (Hok2 & Hno2 & Hs2 & Hsub2 & Hcov2).
  rewrite Hs1 in Hs2, Hcov2. split_ands; auto.
  intros s e n x [->|Ho]%elem_of_cons Hin Hx; [|by eapply Hcov2].
  eapply covered_mono; [exact Hsub2|]. by eapply Hcov1.
Qed.

Lemma adopt_orphans_spec j :
  jit_ok [] j ->
  let j' := adopt_orphans j in
  jit_ok [] j' /\ orphans j' = [] /\ symbols j' = symbols j /\
  (forall r, r ∈ regions j -> r ∈ regions j') /\
  (forall s e n x, s ∈ orphans j -> (s, (e, n)) ∈ symbols j -> s <= x < e -> covered (regions j') x).
Proof.
  intros Hok j'. subst j'. unfold adopt_orphans.
  destruct (adopt_orphans_fold (orphans j) (j <| orphans := [] |>)) as (Hok' & Hno & Hs & Hsub & Hcov).
  - split; try apply Hok. intros s e n Hin Hlt.
    destruct (ok_placed _ _ Hok s e n Hin Hlt) as [|[|]]; auto.
  - done.
  - split_ands; try done. split; try apply Hok'. intros s e n Hin Hlt.
    destruct (ok_placed _ _ Hok' s e n Hin Hlt) as [|[Ho|]]; auto.
    rewrite Hno in Ho. auto.
Qed.

Lemma take_dirty_ok j : jit_ok [] j -> jit_ok [] (fst (take_dirty j)).
Proof.
  intros []. split; auto; simpl; [constructor|]. intros k Hk. by apply elem_of_nil in Hk.
Qed.

(** ** Steps *)

(** The operations of the drain loop on the shared state. *)
Inductive op :=
  | AddMapping (start end_ : Z)
  | AddSymbol (start size : Z) (name : list Z)
  | AdoptOrphans
  | TakeDirty.

Definition op_ok (o : op) : Prop :=
  match o with AddSymbol start size _ => is_u64 start /\ 0 <= size | _ => True end.

Definition apply_op (j : JitImages) (o : op) : JitImages :=
  match o with
  | AddMapping start end_ => fst (add_mapping start end_ j)
  | AddSymbol start size name => add_symbol start size name j
  | AdoptOrphans => adopt_orphans j
  | TakeDirty => fst (take_dirty j)
  end.

Inductive steps : JitImages -> JitImages -> Prop :=
  | steps_refl j : steps j j
  | steps_step j o j' : op_ok o -> steps (apply_op j o) j' -> steps j j'.

Lemma apply_op_ok j o :
  jit_ok [] j -> op_ok o ->
  jit_ok [] (apply_op j o) /\ (forall r, r ∈ regions j -> r ∈ regions (apply_op j o)).
Proof.
  intros Hok Ho. destruct o as [start end_|start size name| |]; simpl in *.
  - pose proof (add_mapping_spec [] start end_ j Hok) as H.
    destruct (add_mapping start end_ j). naive_solver.
  - destruct (add_symbol_spec start size name j Hok) as (? & -> & _); naive_solver.
  - destruct (adopt_orphans_spec j Hok) as (? & _ & _ & ? & _). done.
  - split; [by apply take_dirty_ok|done].
Qed.

Lemma default_ok : jit_ok [] default.
Proof. split; simpl; try constructor; try constructor; set_solver. Qed.

(** ** Properties *)

(** C12. Every state the operations can reach keeps the regions non-empty, in
    order and pairwise disjoint, every dirty entry is the start of a region, and
    every symbol either waits in the orphan list or has a region; and a region
    once added keeps its start and end in every later state. *)
Theorem regions_never_overlap_or_move j j' :
  steps default j -> steps j j' ->
  jit_ok [] j' /\
  (forall p q, p ∈ regions j' -> q ∈ regions j' -> p = q \/ apart p q) /\
  (forall r, r ∈ regions j -> r ∈ regions j').
Proof.
  intros H1 H2.
  assert (Hgen : forall a b, steps a b -> jit_ok [] a ->
            jit_ok [] b /\ (forall r, r ∈ regions a -> r ∈ regions b)).
  { induction 1 as [a|a o b Ho _ IH]; intros Ha; [done|].
    destruct (apply_op_ok a o Ha Ho) as [Ha' Hsub]. destruct (IH Ha') as [Hb Hsub']. auto. }
  destruct (Hgen _ _ H1 default_ok) as [Hj _]. destruct (Hgen _ _ H2 Hj) as [Hj' Hsub].
  split_ands; [done| |done]. intros p q. apply regions_apart, Hj'.
Qed.

Lemma regions_never_overlap_or_move_witness :
  (0x2000, 0x3000) ∈ regions (apply_op (apply_op default (AddMapping 0x2000 0x3000)) (AddMapping 0x1000 0x5000)).
Proof.
  eapply (regions_never_overlap_or_move (apply_op default (AddMapping 0x2000 0x3000))).
  - by eapply (steps_step _ (AddMapping 0x2000 0x3000)); [|apply steps_refl].
  - by eapply (steps_step _ (AddMapping 0x1000 0x5000)); [|apply steps_refl].
  - vm_compute. left.
Defined.

(** [add_mapping] covers exactly what the mapping adds: afterwards an address
    lies in a region iff it did before or is in the mapping; the known regions
    are kept, the answer is the number of regions added, and each new one is
    dirty. *)
Theorem add_mapping_exact start end_ j :
  jit_ok [] j ->
  let '(j', n) := add_mapping start end_ j in
  (forall x, covered (regions j') x <-> covered (regions j) x \/ start <= x < end_) /\
  (forall r, r ∈ regions j -> r ∈ regions j') /\
  Z.of_nat (length (regions j')) = Z.of_nat (length (regions j)) + n /\
  (forall r, r ∈ regions j' -> r ∈ regions j \/ (r.1, tt) ∈ dirty j').
Proof.
  intros Hok. pose proof (add_mapping_spec [] start end_ j Hok) as H.
  destruct (add_mapping start end_ j). naive_solver.
Qed.

Lemma add_mapping_exact_witness :
  covered (regions (fst (add_mapping 0x1000 0x5000 (apply_op default (AddMapping 0x2000 0x3000))))) 0x1fff.
Proof.
  pose proof (add_mapping_exact 0x1000 0x5000 (apply_op default (AddMapping 0x2000 0x3000))) as H.
  specialize (H (proj1 (apply_op_ok default (AddMapping 0x2000 0x3000) default_ok I))).
  destruct (add_mapping _ _ _) as [j' n]. apply H. right. split; vm_compute; congruence.
Defined.

(** A symbol that is new (or changed) is published: the next [take_dirty]
    hands out, for the region it starts in, an image at that region's base whose
    table names the symbol at its runtime range. *)
Theorem new_symbol_published start size name s e j :
  jit_ok [] j -> is_u64 start -> 0 <= size ->
  (s, e) ∈ regions j -> s <= start < e ->
  (start, (sadd64 start (Z.max size 1), name)) ∉ symbols j ->
  start < u64_max ->
  exists syms,
    mkJitImage s e syms ∈ snd (take_dirty (add_symbol start size name j)) /\
    mkMachOSymbol start (sadd64 start (Z.max size 1)) name ∈ syms.
Proof.
  intros Hok Hs Hsz Hr Hin Hnew Hmax.
  destruct (add_symbol_spec start size name j Hok Hs Hsz) as (Hok' & Hreg & Hsym & Hdirty).
  set (j' := add_symbol start size name j) in *. exists (region_table s e j'). split.
  - simpl. apply list_elem_of_omap. exists (s, tt). split.
    + destruct (Hdirty (s, e) Hr) as [|]; simpl in *; [|lia|done|done].
      pose proof (end_of_symbol start size Hs Hsz) as (_ & _ & H). simpl in H. lia.
    + rewrite Hreg. rewrite (proj2 (bt_get_elem s e _ (regions_sorted _ (ok_regions _ _ Hok)))); done.
  - unfold region_table. apply elem_of_app. right. apply list_elem_of_fmap.
    exists (start, (sadd64 start (Z.max size 1), name)). split; [done|].
    apply list_elem_of_filter. done.
Qed.

Lemma new_symbol_published_witness :
  exists syms,
    mkJitImage 0x1000 0x2000 syms ∈
      snd (take_dirty (add_symbol 0x1040 0x20 (str "vix::b") (apply_op default (AddMapping 0x1000 0x2000)))) /\
    mkMachOSymbol 0x1040 0x1060 (str "vix::b") ∈ syms.
Proof.
  apply (new_symbol_published 0x1040 0x20 (str "vix::b") 0x1000 0x2000).
  - exact (proj1 (apply_op_ok default (AddMapping 0x1000 0x2000) default_ok I)).
  - vm_compute; split; congruence.
  - vm_compute; congruence.
  - vm_compute. left.
  - vm_compute; split; congruence.
  - vm_compute. intros H; inversion H.
  - vm_compute; congruence.
Defined.

(** After [adopt_orphans] no symbol waits: every address of every orphan's
    range is in some region, every symbol below the last address has a region,
    and the regions known before are untouched. *)
Theorem adopt_orphans_complete j :
  jit_ok [] j ->
  let j' := adopt_orphans j in
  has_orphans j' = false /\
  (forall s e n x, s ∈ orphans j -> (s, (e, n)) ∈ symbols j -> s <= x < e -> covered (regions j') x) /\
  (forall s e n, (s, (e, n)) ∈ symbols j -> s < u64_max -> hit (regions j') s e) /\
  (forall r, r ∈ regions j -> r ∈ regions j').
Proof.
  intros Hok j'. destruct (adopt_orphans_spec j Hok) as (Hok' & Hno & Hs & Hsub & Hcov).
  fold j' in Hok', Hno, Hs, Hsub, Hcov. unfold has_orphans. rewrite Hno.
  split_ands; try done. intros s e n Hin Hlt. rewrite <- Hs in Hin.
  destruct (ok_placed _ _ Hok' s e n Hin Hlt) as [Hw|[Ho|]]; [by apply elem_of_nil in Hw| |done].
  rewrite Hno in Ho. by apply elem_of_nil in Ho.
Qed.

Lemma adopt_orphans_complete_witness :
  has_orphans (adopt_orphans (apply_op default (AddSymbol 0x9000 0x10 (str "vix::nowhere")))) = false.
Proof.
  apply adopt_orphans_complete. apply (apply_op_ok default (AddSymbol 0x9000 0x10 (str "vix::nowhere")) default_ok).
  vm_compute. repeat split; congruence.
Defined.

(** The tail of a symbol that runs into a later region is named only while
    no other symbol starts in between: a long symbol that covers both regions
    disappears from the second one's table once a short one follows it. *)
Theorem straddling_tail_lost :
  let j := fst (add_mapping 0x2000 0x3000 (fst (add_mapping 0x1000 0x2000 default))) in
  let j1 := add_symbol 0x1000 0x1800 (str "long") j in
  let j2 := add_symbol 0x1100 0x10 (str "short") j1 in
  region_table 0x2000 0x3000 j1 = [mkMachOSymbol 0x1000 0x2800 (str "long")] /\
  bt_get 0x1000 (symbols j2) = Some (0x2800, str "long") /\
  region_table 0x2000 0x3000 j2 = [].
Proof. vm_compute. done. Qed.

End JitImages.
