(* ===== verification/Text.v ===== *)
(** * Text of the standard library

    What the source uses of [str]: the UTF-8 encoding, [String::from_utf8_lossy],
    [char::is_whitespace], trimming, [split_once], [lines] and
    [u64::from_str_radix(_, 16)].  A text is its list of code points, a byte
    string its list of bytes. *)

From S2P Require Import Prelude.

Module Text.

(** ** UTF-8 *)

Definition REPLACEMENT : Z := 0xFFFD.

(** A Unicode scalar value. *)
Definition is_scalar (c : Z) : Prop := 0 <= c < 0xD800 \/ 0xDFFF < c < 0x110000.

Definition utf8_char (c : Z) : list Z :=
  if decide (c < 0x80) then [c]
  else if decide (c < 0x800) then [0xC0 + c / 64; 0x80 + c mod 64]
  else if decide (c < 0x10000) then [0xE0 + c / 4096; 0x80 + c / 64 mod 64; 0x80 + c mod 64]
  else [0xF0 + c / 262144; 0x80 + c / 4096 mod 64; 0x80 + c / 64 mod 64; 0x80 + c mod 64].

(** [str::as_bytes] *)
Definition as_bytes (s : list Z) : list Z := s ≫= utf8_char.

Definition between (lo hi b : Z) : bool := bool_decide (lo <= b <= hi).
Definition is_cont : Z -> bool := between 0x80 0xBF.

(** [str::is_char_boundary] *)
Definition is_char_boundary (t : list Z) (i : nat) : bool :=
  if decide (i = 0%nat \/ i = length t) then true
  else match t !! i with Some b => negb (is_cont b) | None => false end.

(** The length of the sequence a lead byte announces; 0 for a byte that leads
    none. *)
Definition utf8_width (b : Z) : nat :=
  if between 0 0x7F b then 1
  else if between 0xC2 0xDF b then 2
  else if between 0xE0 0xEF b then 3
  else if between 0xF0 0xF4 b then 4
  else 0.

(** The second byte a lead byte of a 3- or 4-byte sequence accepts (no overlong
    forms, no surrogates, nothing above U+10FFFF). *)
Definition second_ok (b0 b1 : Z) : bool :=
  if bool_decide (b0 = 0xE0) then between 0xA0 0xBF b1
  else if bool_decide (b0 = 0xED) then between 0x80 0x9F b1
  else if bool_decide (b0 = 0xF0) then between 0x90 0xBF b1
  else if bool_decide (b0 = 0xF4) then between 0x80 0x8F b1
  else is_cont b1.

(** [String::from_utf8_lossy]: each maximal prefix of an ill-formed sequence
    becomes one replacement character. *)
Fixpoint from_utf8_lossy (l : list Z) : list Z :=
  match l with
  | [] => []
  | b0 :: l1 =>
      match utf8_width b0 with
      | 1%nat => b0 :: from_utf8_lossy l1
      | 2%nat =>
          match l1 with
          | b1 :: l2 =>
              if is_cont b1 then (b0 mod 32 * 64 + b1 mod 64) :: from_utf8_lossy l2
              else REPLACEMENT :: from_utf8_lossy l1
          | [] => [REPLACEMENT]
          end
      | 3%nat =>
          match l1 with
          | b1 :: l2 =>
              if second_ok b0 b1 then
                match l2 with
                | b2 :: l3 =>
                    if is_cont b2
                    then (b0 mod 16 * 4096 + b1 mod 64 * 64 + b2 mod 64) :: from_utf8_lossy l3
                    else REPLACEMENT :: from_utf8_lossy l2
                | [] => [REPLACEMENT]
                end
              else REPLACEMENT :: from_utf8_lossy l1
          | [] => [REPLACEMENT]
          end
      | 4%nat =>
          match l1 with
          | b1 :: l2 =>
              if second_ok b0 b1 then
                match l2 with
                | b2 :: l3 =>
                    if is_cont b2 then
                      match l3 with
                      | b3 :: l4 =>
                          if is_cont b3
                          then (b0 mod 8 * 262144 + b1 mod 64 * 4096 + b2 mod 64 * 64 + b3 mod 64)
                                 :: from_utf8_lossy l4
                          else REPLACEMENT :: from_utf8_lossy l3
                      | [] => [REPLACEMENT]
                      end
                    else REPLACEMENT :: from_utf8_lossy l2
                | [] => [REPLACEMENT]
                end
              else REPLACEMENT :: from_utf8_lossy l1
          | [] => [REPLACEMENT]
          end
      | _ => REPLACEMENT :: from_utf8_lossy l1
      end
  end.

(** ** Whitespace, splitting *)

(** [char::is_whitespace]: the White_Space property. *)
Definition is_whitespace (c : Z) : bool :=
  between 0x09 0x0D c || bool_decide (c = 0x20) || bool_decide (c = 0x85)
  || bool_decide (c = 0xA0) || bool_decide (c = 0x1680) || between 0x2000 0x200A c
  || bool_decide (c = 0x2028) || bool_decide (c = 0x2029) || bool_decide (c = 0x202F)
  || bool_decide (c = 0x205F) || bool_decide (c = 0x3000).

Fixpoint trim_start (s : list Z) : list Z :=
  match s with
  | c :: s' => if is_whitespace c then trim_start s' else s
  | [] => []
  end.

Definition trim (s : list Z) : list Z := reverse (trim_start (reverse (trim_start s))).

(** [split_once(f)]: around the first matching character. *)
Fixpoint split_once (f : Z -> bool) (s : list Z) : option (list Z * list Z) :=
  match s with
  | [] => None
  | c :: s' =>
      if f c then Some ([], s')
      else (fun '(a, b) => (c :: a, b)) <$> split_once f s'
  end.

(** [str::strip_prefix] *)
Definition strip_prefix (p s : list Z) : option (list Z) :=
  if starts_with p s then Some (drop (length p) s) else None.

Definition NEWLINE : Z := 10.

Definition strip_cr (line : list Z) : list Z :=
  match reverse line with
  | c :: l => if bool_decide (c = 13) then reverse l else line
  | [] => line
  end.

(** [str::lines]: the newline ends a line and is dropped, with a carriage return
    before it; a last line without one is kept as it is. *)
Fixpoint lines_from (cur : list Z) (s : list Z) : list (list Z) :=
  match s with
  | [] => if bool_decide (cur = []) then [] else [reverse cur]
  | c :: s' =>
      if bool_decide (c = NEWLINE) then strip_cr (reverse cur) :: lines_from [] s'
      else lines_from (c :: cur) s'
  end.

Definition lines (s : list Z) : list (list Z) := lines_from [] s.

(** [str::split_whitespace]: the maximal runs of other characters. *)
Fixpoint words_from (cur : list Z) (s : list Z) : list (list Z) :=
  match s with
  | [] => if bool_decide (cur = []) then [] else [reverse cur]
  | c :: s' =>
      if is_whitespace c
      then (if bool_decide (cur = []) then [] else [reverse cur]) ++ words_from [] s'
      else words_from (c :: cur) s'
  end.

Definition split_whitespace (s : list Z) : list (list Z) := words_from [] s.

(** [str::trim_matches(f)] *)
Definition trim_matches (f : Z -> bool) (s : list Z) : list Z :=
  reverse (drop_while f (reverse (drop_while f s))).

(** [std::str::from_utf8(l).ok()]: a well-formed byte string is the encoding of
    what it decodes to. *)
Definition from_utf8 (l : list Z) : option (list Z) :=
  let s := from_utf8_lossy l in if bool_decide (as_bytes s = l) then Some s else None.

(** ** Hexadecimal *)

Definition hex_digit (c : Z) : option Z :=
  if between 48 57 c then Some (c - 48)
  else if between 97 102 c then Some (c - 87)
  else if between 65 70 c then Some (c - 55)
  else None.

Fixpoint hex_fold (acc : Z) (s : list Z) : option Z :=
  match s with
  | [] => Some acc
  | c :: s' =>
      match hex_digit c with
      | Some d => let acc' := acc * 16 + d in
                  if bool_decide (acc' <= u64_max) then hex_fold acc' s' else None
      | None => None
      end
  end.

(** [u64::from_str_radix(s, 16).ok()]: one leading plus sign is accepted, an
    empty digit string is not. *)
Definition u64_from_hex (s : list Z) : option Z :=
  match s with
  | [] => None
  | c :: s' =>
      if bool_decide (c = 43) then (if bool_decide (s' = []) then None else hex_fold 0 s')
      else hex_fold 0 s
  end.

(** [format!("{:x}", n)], with the digits of [n] least significant first. *)
Definition hex_char (d : Z) : Z := if bool_decide (d < 10) then 48 + d else 87 + d.

Fixpoint hex_digits_rev (fuel : nat) (n : Z) : list Z :=
  match fuel with
  | O => []
  | S fuel => hex_char (n mod 16) ::
                (if bool_decide (n / 16 = 0) then [] else hex_digits_rev fuel (n / 16))
  end.

(** Sixteen digits hold every [u64]. *)
Definition to_hex (n : Z) : list Z := reverse (hex_digits_rev 16 n).

(** [format!("{}", n)] of an integer of up to 64 bits. *)
Fixpoint dec_digits_rev (fuel : nat) (n : Z) : list Z :=
  match fuel with
  | O => []
  | S fuel => 48 + n mod 10 :: (if bool_decide (n / 10 = 0) then [] else dec_digits_rev fuel (n / 10))
  end.

Definition to_dec (n : Z) : list Z := reverse (dec_digits_rev 20 n).

(** ** Lemmas *)

(** Decoding restarts at an ASCII byte: no sequence runs across it. *)
Lemma boundary_start t : is_char_boundary t 0 = true.
Proof. unfold is_char_boundary. rewrite decide_True by by left. done. Qed.

Lemma boundary_end t : is_char_boundary t (length t) = true.
Proof. unfold is_char_boundary. rewrite decide_True by by right. done. Qed.

Lemma from_utf8_lossy_ascii a x y :
  0 <= a < 0x80 -> from_utf8_lossy (x ++ a :: y) = from_utf8_lossy x ++ a :: from_utf8_lossy y.
Proof.
  intros Ha.
  assert (Hw : utf8_width a = 1%nat).
  { unfold utf8_width, between. by rewrite bool_decide_eq_true_2 by lia. }
  assert (Hc : is_cont a = false).
  { unfold is_cont, between. by rewrite bool_decide_eq_false_2 by lia. }
  assert (Hs : forall b, second_ok b a = false).
  { intros b. unfold second_ok. rewrite Hc. unfold between.
    repeat case_bool_decide; try lia; done. }
  assert (Hy : from_utf8_lossy (a :: y) = a :: from_utf8_lossy y) by (cbn [from_utf8_lossy]; by rewrite Hw).
  remember (length x) as n eqn:Hn. revert x Hn.
  induction n as [n IH] using lt_wf_ind; intros x ->.
  assert (IH' : forall x', (length x' < length x)%nat ->
    from_utf8_lossy (x' ++ a :: y) = from_utf8_lossy x' ++ a :: from_utf8_lossy y) by eauto.
  clear IH. destruct x as [|b0 x1]; [exact Hy|]. cbn [app from_utf8_lossy].
  destruct (utf8_width b0) as [|[|[|[|[|n]]]]];
    try (cbn [app]; f_equal; apply IH'; simpl; lia).
  - destruct x1 as [|b1 x2]; cbn [app]; [rewrite Hc, Hy; done|].
    destruct (is_cont b1); cbn [app]; f_equal; [|rewrite <- (IH' (b1 :: x2)) by (simpl; lia); done].
    apply IH'; simpl; lia.
  - destruct x1 as [|b1 x2]; cbn [app]; [rewrite Hs, Hy; done|].
    destruct (second_ok b0 b1); cbn [app];
      [|f_equal; rewrite <- (IH' (b1 :: x2)) by (simpl; lia); done].
    destruct x2 as [|b2 x3]; cbn [app]; [rewrite Hc, Hy; done|].
    destruct (is_cont b2); cbn [app]; f_equal; [|rewrite <- (IH' (b2 :: x3)) by (simpl; lia); done].
    apply IH'; simpl; lia.
  - destruct x1 as [|b1 x2]; cbn [app]; [rewrite Hs, Hy; done|].
    destruct (second_ok b0 b1); cbn [app];
      [|f_equal; rewrite <- (IH' (b1 :: x2)) by (simpl; lia); done].
    destruct x2 as [|b2 x3]; cbn [app]; [rewrite Hc, Hy; done|].
    destruct (is_cont b2); cbn [app]; [|f_equal; rewrite <- (IH' (b2 :: x3)) by (simpl; lia); done].
    destruct x3 as [|b3 x4]; cbn [app]; [rewrite Hc, Hy; done|].
    destruct (is_cont b3); cbn [app]; f_equal; [|rewrite <- (IH' (b3 :: x4)) by (simpl; lia); done].
    apply IH'; simpl; lia.
Qed.

(** [byte_tests] decides the range tests of the goal by linear arithmetic. *)
Ltac byte_tests :=
  repeat match goal with
  | |- context [bool_decide ?P] =>
      first [ rewrite (bool_decide_eq_true_2 P) by lia
            | rewrite (bool_decide_eq_false_2 P) by lia ]; cbv iota
  end.

(** The base-64 digits of a scalar value, and what masking a byte leaves. *)
Lemma base64_digits c :
  0 <= c ->
  let d0 := c mod 64 in let d1 := c / 64 mod 64 in let d2 := c / 4096 mod 64 in
  let d3 := c / 262144 in
  c = d3 * 262144 + d2 * 4096 + d1 * 64 + d0 /\
  c / 4096 = d3 * 64 + d2 /\ c / 64 = d3 * 4096 + d2 * 64 + d1 /\
  0 <= d0 < 64 /\ 0 <= d1 < 64 /\ 0 <= d2 < 64 /\ 0 <= d3.
Proof.
  intros Hc d0 d1 d2 d3. subst d0 d1 d2 d3. split_ands; Z.to_euclidean_division_equations; lia.
Qed.

Lemma mask_add b k d n : b = k * n -> 0 <= d < n -> (b + d) mod n = d.
Proof. intros -> Hd. rewrite Z.add_comm, Z.mod_add by lia. by apply Z.mod_small. Qed.

Lemma width_lead b :
  (0 <= b < 0x80 -> utf8_width b = 1%nat) /\ (0xC2 <= b <= 0xDF -> utf8_width b = 2%nat) /\
  (0xE0 <= b <= 0xEF -> utf8_width b = 3%nat) /\ (0xF0 <= b <= 0xF4 -> utf8_width b = 4%nat).
Proof. unfold utf8_width, between. split_ands; intros; by byte_tests. Qed.

Lemma is_cont_digit d : 0 <= d < 64 -> is_cont (0x80 + d) = true.
Proof. intros. unfold is_cont, between. by byte_tests. Qed.

Lemma second_ok_digit b0 d :
  0 <= d < 64 -> (b0 = 0xE0 -> 32 <= d) -> (b0 = 0xED -> d < 32) ->
  (b0 = 0xF0 -> 16 <= d) -> (b0 = 0xF4 -> d < 16) -> second_ok b0 (0x80 + d) = true.
Proof.
  intros Hd H1 H2 H3 H4. unfold second_ok. rewrite is_cont_digit by done. unfold between.
  repeat case_bool_decide; (done || lia).
Qed.

Lemma from_utf8_lossy_char c rest :
  is_scalar c -> from_utf8_lossy (utf8_char c ++ rest) = c :: from_utf8_lossy rest.
Proof.
  unfold is_scalar, utf8_char. intros Hc.
  destruct (base64_digits c) as (H1 & H2 & H3 & Hd0 & Hd1 & Hd2 & Hd3); [lia|].
  revert H1 H2 H3 Hd0 Hd1 Hd2 Hd3.
  generalize (c mod 64) (c / 64 mod 64) (c / 4096 mod 64) (c / 262144). intros d0 d1 d2 d3.
  intros H1 H2 H3 Hd0 Hd1 Hd2 Hd3. rewrite H2, H3. clear H2 H3.
  repeat (case_decide; [|try lia]); cbn [app from_utf8_lossy].
  - by rewrite (proj1 (width_lead _)) by lia.
  - rewrite (proj1 (proj2 (width_lead _))), is_cont_digit by lia.
    rewrite (mask_add _ 6), (mask_add _ 2) by lia. f_equal. lia.
  - rewrite (proj1 (proj2 (proj2 (width_lead _)))), second_ok_digit, is_cont_digit by lia.
    rewrite (mask_add _ 14), !(mask_add _ 2) by lia. f_equal. lia.
  - rewrite (proj2 (proj2 (proj2 (width_lead _)))), second_ok_digit, !is_cont_digit by lia.
    rewrite (mask_add _ 30), !(mask_add _ 2) by lia. f_equal. lia.
Qed.

(** Decoding undoes encoding. *)
Lemma from_utf8_lossy_as_bytes s : Forall is_scalar s -> from_utf8_lossy (as_bytes s) = s.
Proof.
  induction 1 as [|c s Hc _ IH]; [done|].
  unfold as_bytes in *. rewrite bind_cons, from_utf8_lossy_char by done. by f_equal.
Qed.

Lemma lines_from_app cur x y :
  lines_from cur (x ++ NEWLINE :: y) = lines_from cur (x ++ [NEWLINE]) ++ lines y.
Proof.
  revert cur. induction x as [|c x IH]; intros cur; cbn [app lines_from].
  - done.
  - case_bool_decide; [cbn [app]; f_equal|]; apply IH.
Qed.

(** Lines of a text cut after a newline. *)
Lemma lines_app x y : lines (x ++ NEWLINE :: y) = lines (x ++ [NEWLINE]) ++ lines y.
Proof. apply lines_from_app. Qed.

Lemma from_utf8_as_bytes s : Forall is_scalar s -> from_utf8 (as_bytes s) = Some s.
Proof.
  intros Hs. unfold from_utf8. rewrite from_utf8_lossy_as_bytes by done.
  by rewrite bool_decide_eq_true_2.
Qed.

Lemma words_from_word cur w s :
  Forall (fun c => is_whitespace c = false) w ->
  words_from cur (w ++ s) = words_from (reverse w ++ cur) s.
Proof.
  intros Hw. revert cur. induction Hw as [|c w Hc _ IH]; intros cur; cbn [app words_from]; [done|].
  rewrite Hc, IH. by rewrite reverse_cons, <- (assoc_L (++)).
Qed.

(** A word, a space and the rest. *)
Lemma split_whitespace_word w c s :
  w <> [] -> Forall (fun c => is_whitespace c = false) w -> is_whitespace c = true ->
  split_whitespace (w ++ c :: s) = w :: split_whitespace s.
Proof.
  intros Hne Hw Hc. unfold split_whitespace. rewrite words_from_word by done.
  cbn [words_from]. rewrite Hc, app_nil_r, bool_decide_eq_false_2, reverse_involutive; [done|].
  intros Hn. apply Hne. by rewrite <- (reverse_involutive w), Hn.
Qed.

Lemma split_whitespace_last w :
  w <> [] -> Forall (fun c => is_whitespace c = false) w -> split_whitespace w = [w].
Proof.
  intros Hne Hw. unfold split_whitespace. rewrite <- (app_nil_r w) at 1.
  rewrite words_from_word by done. cbn [words_from]. rewrite app_nil_r, bool_decide_eq_false_2, reverse_involutive; [done|].
  intros Hn. apply Hne. by rewrite <- (reverse_involutive w), Hn.
Qed.

(** A line without newline or trailing carriage return, ended by a newline. *)
Lemma lines_line l s :
  Forall (fun c => c <> NEWLINE) l -> last l <> Some 13 ->
  lines (l ++ NEWLINE :: s) = l :: lines s.
Proof.
  intros Hl Hcr. rewrite lines_app. unfold lines.
  assert (H : forall cur, lines_from cur (l ++ [NEWLINE]) = [strip_cr (reverse (reverse l ++ cur))]).
  { clear Hcr. induction Hl as [|c l Hc _ IH]; intros cur; cbn [app lines_from].
    - by rewrite bool_decide_eq_true_2.
    - rewrite bool_decide_eq_false_2 by done. rewrite IH. by rewrite reverse_cons, <- (assoc_L (++)). }
  rewrite H, app_nil_r, reverse_involutive. cbn [app]. f_equal. unfold strip_cr.
  destruct (reverse l) as [|c r] eqn:E; [done|].
  rewrite bool_decide_eq_false_2; [done|]. intros ->. apply Hcr.
  by rewrite <- head_reverse, E.
Qed.

Lemma hex_fold_snoc s : forall acc c a d,
  hex_fold acc s = Some a -> hex_digit c = Some d -> a * 16 + d <= u64_max ->
  hex_fold acc (s ++ [c]) = Some (a * 16 + d).
Proof.
  induction s as [|c' s IH]; intros acc c a d Hs Hd Hle; simpl in *.
  - injection Hs as ->. rewrite Hd. by rewrite bool_decide_eq_true_2.
  - destruct (hex_digit c'); [|done]. case_bool_decide; [|done]. by apply IH.
Qed.

Lemma hex_char_digit d : 0 <= d < 16 -> hex_digit (hex_char d) = Some d.
Proof.
  intros Hd. unfold hex_char. case_bool_decide; unfold hex_digit, between; byte_tests; f_equal; lia.
Qed.

Lemma hex_digits_fold fuel : forall n,
  0 <= n <= u64_max -> n < 16 ^ Z.of_nat fuel -> (0 < fuel)%nat ->
  hex_fold 0 (reverse (hex_digits_rev fuel n)) = Some n.
Proof.
  induction fuel as [|fuel IH]; intros n Hn Hlt Hf; [lia|]. cbn [hex_digits_rev].
  rewrite reverse_cons.
  assert (Hd : hex_digit (hex_char (n mod 16)) = Some (n mod 16))
    by (apply hex_char_digit, Z.mod_pos_bound; lia).
  case_bool_decide as H0.
  - assert (n mod 16 = n) as Hm by (Z.to_euclidean_division_equations; lia).
    rewrite (hex_fold_snoc (reverse []) 0 _ 0 _ eq_refl Hd) by (rewrite Hm; lia). f_equal. lia.
  - assert (Hdiv : n = n / 16 * 16 + n mod 16) by (Z.to_euclidean_division_equations; lia).
    enough (Hq : hex_fold 0 (reverse (hex_digits_rev fuel (n / 16))) = Some (n / 16)).
    { rewrite (hex_fold_snoc _ 0 _ _ _ Hq Hd) by lia. by rewrite <- Hdiv. }
    apply IH.
    + Z.to_euclidean_division_equations; lia.
    + rewrite Nat2Z.inj_succ, Z.pow_succ_r in Hlt by lia.
      apply Z.div_lt_upper_bound; lia.
    + destruct fuel; [|lia]. exfalso. apply H0. change (16 ^ Z.of_nat 1) with 16 in Hlt.
      apply Z.div_small. lia.
Qed.

Lemma hex_digits_range fuel n c : 0 <= n -> c ∈ hex_digits_rev fuel n -> 48 <= c <= 57 \/ 97 <= c <= 102.
Proof.
  revert n. induction fuel as [|fuel IH]; intros n Hn; cbn [hex_digits_rev]; [by intros ?%elem_of_nil|].
  intros [->|Hc]%elem_of_cons.
  - unfold hex_char. pose proof (Z.mod_pos_bound n 16). case_bool_decide; lia.
  - revert Hc. case_bool_decide; [by intros ?%elem_of_nil|]. apply IH. apply Z.div_pos; lia.
Qed.

Lemma to_hex_range n c : 0 <= n -> c ∈ to_hex n -> 48 <= c <= 57 \/ 97 <= c <= 102.
Proof. intros Hn. unfold to_hex. rewrite elem_of_reverse. by apply hex_digits_range. Qed.

Lemma to_hex_nonempty n : to_hex n <> [].
Proof. unfold to_hex. cbn [hex_digits_rev]. rewrite reverse_cons. by destruct (reverse _). Qed.

(** Printing a [u64] in hexadecimal and parsing it back. *)
Lemma u64_from_to_hex n : is_u64 n -> u64_from_hex (to_hex n) = Some n.
Proof.
  intros Hn. assert (Hf : hex_fold 0 (to_hex n) = Some n).
  { apply hex_digits_fold; [unfold u64_max; unfold is_u64 in Hn; lia| |lia].
    unfold is_u64 in Hn. change (16 ^ Z.of_nat 16) with (2 ^ 64). lia. }
  unfold u64_from_hex. destruct (to_hex n) as [|c s] eqn:Hs; [by apply to_hex_nonempty in Hs|].
  rewrite bool_decide_eq_false_2; [done|]. intros ->.
  destruct (to_hex_range n 43) as [?|?]; [unfold is_u64 in Hn; lia|rewrite Hs; by left|lia|lia].
Qed.

Lemma split_once_first f a c b :
  Forall (fun x => f x = false) a -> f c = true -> split_once f (a ++ c :: b) = Some (a, b).
Proof.
  intros Ha Hc. induction Ha as [|x a Hx _ IH]; simpl; [by rewrite Hc|]. by rewrite Hx, IH.
Qed.

Lemma trim_start_id s : (forall c, head s = Some c -> is_whitespace c = false) -> trim_start s = s.
Proof. intros H. destruct s as [|c s]; [done|]. simpl. by rewrite (H c). Qed.

Lemma trim_id s :
  (forall c, head s = Some c -> is_whitespace c = false) ->
  (forall c, last s = Some c -> is_whitespace c = false) -> trim s = s.
Proof.
  intros Hh Hl. unfold trim. rewrite (trim_start_id s) by done.
  rewrite trim_start_id; [apply reverse_involutive|].
  intros c Hc. apply Hl. by rewrite <- head_reverse.
Qed.

Lemma hex_not_space c : 48 <= c <= 57 \/ 97 <= c <= 102 -> is_whitespace c = false.
Proof. intros Hc. unfold is_whitespace, between. by byte_tests. Qed.

End Text.
