(* ===== verification/PerfMap.v ===== *)
(** * The perf-map reader

    [stax-linux-capture/src/jit.rs], the [PerfMapTailer] part: the line format of
    [/tmp/perf-<pid>.map] and its incremental reader. *)

From S2P Require Import Prelude Text.

Module PerfMap.
Import Text.

(** [parse_hex] *)
Definition parse_hex (s : list Z) : option Z :=
  let s :=
    match strip_prefix (str "0x") s with
    | Some rest => rest
    | None => match strip_prefix (str "0X") s with Some rest => rest | None => s end
    end in
  u64_from_hex s.

(** [parse_perf_map_line]: [START SIZE NAME]. *)
Definition parse_perf_map_line (line : list Z) : option (Z * Z * list Z) :=
  let line := trim_start line in
  '(start, rest) ← split_once is_whitespace line;
  let rest := trim_start rest in
  '(size, name) ← split_once is_whitespace rest;
  let name := trim name in
  if bool_decide (name = []) then None
  else
    start ← parse_hex start;
    size ← parse_hex size;
    Some (start, size, name).

(** What opening and reading the file yields at one call: it may not exist, may
    fail, or holds these bytes. *)
Inductive file_view :=
  | NotFound
  | IoError
  | Contents (bytes : list Z).

Record PerfMapTailer := mkPerfMapTailer {
  file : bool;   (* [self.file.is_some()] *)
  offset : Z
}.

#[export] Instance eta_PerfMapTailer : Eta PerfMapTailer := fun t =>
  mkPerfMapTailer (file t) (offset t).

Definition new : PerfMapTailer := mkPerfMapTailer false 0.

Inductive io_error := Io.

(** The entries of the complete lines read. *)
Definition parse_text (bytes : list Z) : list (Z * Z * list Z) :=
  omap parse_perf_map_line (lines (from_utf8_lossy bytes)).

(** [PerfMapTailer::tick] once the file is open: [bytes] is the whole file. *)
Definition read_new (bytes : list Z) (t : PerfMapTailer) : PerfMapTailer * list (Z * Z * list Z) :=
  let len := Z.of_nat (length bytes) in
  let t := if bool_decide (len < offset t) then t <| offset := 0 |> else t in
  if bool_decide (len = offset t) then (t, []) else
  let buf := drop (Z.to_nat (offset t)) bytes in
  match rposition (fun b => bool_decide (b = NEWLINE)) buf with
  | None => (t, [])
  | Some i =>
      let complete := S i in
      (t <| offset ::= fun o => o + Z.of_nat complete |>, parse_text (take complete buf))
  end.

(** [PerfMapTailer::tick] *)
Definition tick (v : file_view) (t : PerfMapTailer)
    : PerfMapTailer * sum io_error (list (Z * Z * list Z)) :=
  match v with
  | NotFound => (t, if file t then inl Io else inr [])
  | IoError => (t, inl Io)
  | Contents bytes =>
      let '(t, out) := read_new bytes (t <| file := true |>) in (t, inr out)
  end.

(** ** Lemmas *)

Lemma rposition_snoc {A} (f : A -> bool) l x :
  rposition f (l ++ [x]) = if f x then Some (length l) else rposition f l.
Proof.
  unfold rposition. rewrite reverse_snoc. simpl. rewrite length_app. simpl.
  destruct (f x); simpl; [f_equal; lia|].
  destruct (position f (reverse l)) as [i|] eqn:Hp; [|done]. simpl. f_equal.
  apply position_Some in Hp as (y & Hy & _). apply lookup_lt_Some in Hy.
  rewrite length_reverse in Hy. lia.
Qed.

Local Abbreviation is_newline := (fun b => bool_decide (b = NEWLINE)).

(** The last newline splits a buffer. *)
Lemma last_newline l :
  ((NEWLINE ∉ l) /\ rposition is_newline l = None) \/
  (exists p q, l = p ++ NEWLINE :: q /\ (NEWLINE ∉ q) /\ rposition is_newline l = Some (length p)).
Proof.
  induction l as [|c l IH] using rev_ind; [left; split; [set_solver|done]|].
  rewrite rposition_snoc. case_bool_decide as Hc.
  - subst c. right. exists l, []. split_ands; [done|set_solver|done].
  - destruct IH as [[Hn ->]|(p & q & -> & Hq & ->)].
    + left. split; [set_solver|done].
    + right. exists p, (q ++ [c]). split_ands; [by rewrite <- app_assoc|set_solver|done].
Qed.

Lemma rposition_newline p q :
  NEWLINE ∉ q -> rposition is_newline (p ++ NEWLINE :: q) = Some (length p).
Proof.
  induction q as [|c q IH] using rev_ind; intros Hq.
  - rewrite rposition_snoc. by rewrite bool_decide_eq_true_2.
  - rewrite app_comm_cons, app_assoc, rposition_snoc.
    rewrite bool_decide_eq_false_2 by set_solver. apply IH. set_solver.
Qed.

Lemma parse_text_app p q :
  parse_text (p ++ NEWLINE :: q) = parse_text (p ++ [NEWLINE]) ++ parse_text q.
Proof.
  unfold parse_text. rewrite !from_utf8_lossy_ascii by (unfold NEWLINE; lia).
  change (from_utf8_lossy []) with (@nil Z). rewrite lines_app. apply omap_app.
Qed.

Lemma take_newline (p q : list Z) :
  take (S (length p)) (p ++ NEWLINE :: q) = p ++ [NEWLINE].
Proof.
  rewrite take_app, take_ge by lia. replace (S (length p) - length p)%nat with 1%nat by lia. done.
Qed.

(** [read_new] on the unread part of a file that did not shrink. *)
Lemma read_new_unread bytes t done_ buf :
  bytes = done_ ++ buf -> offset t = Z.of_nat (length done_) ->
  read_new bytes t =
  match rposition is_newline buf with
  | None => (t, [])
  | Some i => (t <| offset := offset t + Z.of_nat (S i) |>, parse_text (take (S i) buf))
  end.
Proof.
  intros -> Ho. unfold read_new. rewrite Ho, length_app, Nat2Z.inj_add.
  rewrite (bool_decide_eq_false_2 (_ < _)) by lia. rewrite Ho, Nat2Z.id, drop_app_length.
  case_bool_decide as Hl; [|destruct (rposition _ _); simpl; by rewrite ?Ho].
  destruct buf; [done|]. simpl in Hl. lia.
Qed.

(** ** Properties *)

Definition perf_map_line (start size : Z) (name : list Z) : list Z :=
  to_hex start ++ str " " ++ to_hex size ++ str " " ++ name.

(** A printed [START SIZE NAME] line parses back to its fields, for every
    pair of 64-bit numbers and every non-empty name that neither starts nor
    ends with whitespace (inner spaces are kept). *)
Theorem perf_map_line_roundtrip start size name :
  is_u64 start -> is_u64 size -> name <> [] -> trim name = name ->
  parse_perf_map_line (perf_map_line start size name) = Some (start, size, name).
Proof.
  intros Hst Hsz Hn Htrim. unfold parse_perf_map_line, perf_map_line.
  change (str " ") with [32]. cbn [app].
  assert (Hhex : forall n, is_u64 n -> Forall (fun c => is_whitespace c = false) (to_hex n)).
  { intros n Hnn. apply Forall_forall. intros c Hc. apply hex_not_space.
    apply (to_hex_range n); [apply Hnn|done]. }
  assert (Hhead : forall n s, is_u64 n -> trim_start (to_hex n ++ s) = to_hex n ++ s).
  { intros n s Hnn. apply trim_start_id. intros c Hc. specialize (Hhex n Hnn).
    destruct (to_hex n) as [|d l] eqn:Hd; [by apply to_hex_nonempty in Hd|].
    simpl in Hc. injection Hc as <-. by inversion Hhex. }
  rewrite Hhead by done. rewrite (split_once_first is_whitespace (to_hex start) 32) by auto.
  cbn [mbind option_bind]. rewrite Hhead by done. rewrite (split_once_first is_whitespace (to_hex size) 32) by auto.
  cbn [mbind option_bind]. rewrite Htrim, bool_decide_eq_false_2 by done.
  assert (Hp : forall n, is_u64 n -> parse_hex (to_hex n) = Some n).
  { intros n Hnn. unfold parse_hex, strip_prefix.
    assert (Hx : forall x, 102 < x \/ x = 88 -> starts_with [48; x] (to_hex n) = false).
    { intros x Hx. destruct (to_hex n) as [|a [|b l]] eqn:Hl; cbn [starts_with]; [done|apply andb_false_r|].
      destruct (to_hex_range n b); [apply Hnn|rewrite Hl; right; by left| |];
        rewrite (bool_decide_eq_false_2 (x = b)) by lia; apply andb_false_r. }
    change (str "0x") with [48; 120]. change (str "0X") with [48; 88].
    rewrite !Hx by lia. by apply u64_from_to_hex. }
  by rewrite !Hp.
Qed.

Lemma perf_map_line_roundtrip_witness :
  parse_perf_map_line (str "7f0012340000 40 name with spaces (closure #1)")
  = Some (0x7f0012340000, 0x40, str "name with spaces (closure #1)").
Proof.
  apply (perf_map_line_roundtrip 0x7f0012340000 0x40 (str "name with spaces (closure #1)"));
    vm_compute; first [done | split; congruence].
Defined.

(** Tailing loses and repeats nothing: reading a file while it grows, at two
    moments, yields the entries of reading it once at the second moment, and
    leaves the reader at the same place, whatever the cut (a line half written,
    a character half written). *)
Theorem tailing_incremental before more t :
  0 <= offset t <= Z.of_nat (length before) ->
  let '(t1, out1) := read_new before t in
  let '(t2, out2) := read_new (before ++ more) t1 in
  read_new (before ++ more) t = (t2, out1 ++ out2).
Proof.
  intros Ho. destruct t as [f o]; simpl in Ho.
  set (done_ := take (Z.to_nat o) before). set (buf := drop (Z.to_nat o) before).
  assert (Hb : before = done_ ++ buf) by (symmetry; apply take_drop).
  assert (Hlen : o = Z.of_nat (length done_)) by (subst done_; rewrite length_take; lia).
  clearbody done_ buf. subst before. clear Ho.
  rewrite (read_new_unread _ (mkPerfMapTailer f o) done_ buf eq_refl Hlen).
  rewrite (read_new_unread ((done_ ++ buf) ++ more) (mkPerfMapTailer f o) done_ (buf ++ more))
    by (by rewrite ?app_assoc).
  destruct (last_newline buf) as [[_ ->]|(p & q & -> & Hq & ->)]; cbn [fst snd].
  { rewrite (read_new_unread _ _ done_ (buf ++ more)) by (by rewrite ?app_assoc).
    by destruct (rposition is_newline (buf ++ more)). }
  rewrite (read_new_unread _ _ (done_ ++ p ++ [NEWLINE]) (q ++ more));
    [|by rewrite <- !app_assoc|simpl; rewrite !length_app; simpl; lia].
  rewrite <- (app_assoc p), <- app_comm_cons. rewrite take_newline. cbn [offset].
  destruct (last_newline (q ++ more)) as [[Hn Hr]|(p' & q' & Hqm & Hq' & Hr)]; rewrite Hr.
  - rewrite rposition_newline, take_newline, app_nil_r by done. done.
  - rewrite Hqm. replace (p ++ NEWLINE :: p' ++ NEWLINE :: q')
      with ((p ++ NEWLINE :: p') ++ NEWLINE :: q') by (by rewrite <- app_assoc).
    rewrite rposition_newline, !take_newline by done.
    rewrite <- (app_assoc p), <- app_comm_cons, parse_text_app. f_equal.
    simpl. f_equal. rewrite length_app. simpl. lia.
Qed.

Lemma tailing_incremental_witness :
  snd (read_new (str "10 20 first" ++ [10] ++ str "30 4" ++ str "0 second" ++ [10]) new) =
  [(0x10, 0x20, str "first"); (0x30, 0x40, str "second")].
Proof.
  pose proof (tailing_incremental (str "10 20 first" ++ [10] ++ str "30 4")
                (str "0 second" ++ [10]) new) as H.
  specialize (H ltac:(vm_compute; split; congruence)).
  destruct (read_new (str "10 20 first" ++ [10] ++ str "30 4") new) as [t1 o1] eqn:E1.
  destruct (read_new _ t1) as [t2 o2] eqn:E2.
  rewrite <- !app_assoc in H. rewrite H. vm_compute in E1. injection E1 as <- <-.
  vm_compute in E2. injection E2 as <- <-. reflexivity.
Defined.

End PerfMap.
