(* ===== verification/Jitdump.v ===== *)
(** * The jitdump reader

    [stax-mac-capture/src/jitdump_tail.rs]: the incremental reader of
    [/tmp/jit-<pid>.dump] and its [CodeLoad] records. *)

From S2P Require Import Prelude Text.

Module Jitdump.
Import Text.

Definition JITDUMP_MAGIC_LE : Z := 0x4474694A.
Definition JITDUMP_MAGIC_BE : Z := 0x4A695444.
Definition JIT_CODE_LOAD : Z := 0.

Record JitCodeLoad := mkJitCodeLoad {
  avma : Z;
  code_size : Z;
  name : list Z;
  code : list Z
}.

Record JitdumpTailer := mkJitdumpTailer {
  offset : Z;
  header_parsed : bool
}.

#[export] Instance eta_JitdumpTailer : Eta JitdumpTailer := fun t =>
  mkJitdumpTailer (offset t) (header_parsed t).

(** [JitdumpTailer::open] *)
Definition opened : JitdumpTailer := mkJitdumpTailer 0 false.

(** [uN::from_le_bytes] *)
Fixpoint from_le (l : list Z) : Z :=
  match l with
  | [] => 0
  | b :: l' => b + 256 * from_le l'
  end.

(** [parse_code_load].  The end of the code is computed with wrapping [usize]
    addition; slicing from beyond its end panics. *)
Definition parse_code_load (payload : list Z) : outcome (option JitCodeLoad) :=
  if bool_decide (length payload < 40)%nat then Ret None else
  let avma := from_le (slice 8 16 payload) in
  let code_size := from_le (slice 24 32 payload) in
  let name_bytes := drop 40 payload in
  match position (fun b => bool_decide (b = 0)) name_bytes with
  | None => Ret None
  | Some nul =>
      let name := from_utf8_lossy (take nul name_bytes) in
      let code_start := 40 + Z.of_nat nul + 1 in
      let code_end := wadd64 code_start code_size in
      if bool_decide (code_end <= Z.of_nat (length payload)) then
        if bool_decide (code_start <= code_end) then
          Ret (Some (mkJitCodeLoad avma code_size name
                       (slice (Z.to_nat code_start) (Z.to_nat code_end) payload)))
        else Panic
      else Ret (Some (mkJitCodeLoad avma code_size name []))
  end.

(** The record loop of [tick] on the unread bytes: the records it produced and
    the number of bytes it consumed.  Every turn consumes at least 16 bytes, so
    the length of the buffer is fuel enough ([records_fuel]). *)
Fixpoint records (fuel : nat) (rest : list Z) : outcome (list JitCodeLoad * nat) :=
  match fuel with
  | O => Ret ([], 0%nat)
  | S fuel =>
      if bool_decide (length rest < 16)%nat then Ret ([], 0%nat) else
      let id := from_le (slice 0 4 rest) in
      let total_size := Z.to_nat (from_le (slice 4 8 rest)) in
      if bool_decide (total_size < 16 \/ length rest < total_size)%nat then Ret ([], 0%nat) else
      let loaded :=
        if bool_decide (id = JIT_CODE_LOAD)
        then parse_code_load (slice 16 total_size rest) else Ret None in
      match loaded with
      | Panic => Panic
      | Ret o =>
          match records fuel (drop total_size rest) with
          | Panic => Panic
          | Ret (out, n) => Ret (from_option (fun r => [r]) [] o ++ out, (total_size + n)%nat)
          end
      end
  end.

(** [JitdumpTailer::tick] on the whole file as it is now. *)
Definition tick (bytes : list Z) (t : JitdumpTailer) : outcome (JitdumpTailer * list JitCodeLoad) :=
  let len := Z.of_nat (length bytes) in
  if bool_decide (len <= offset t) then Ret (t, []) else
  let buf := drop (Z.to_nat (offset t)) bytes in
  if header_parsed t then
    match records (length buf) buf with
    | Panic => Panic
    | Ret (out, n) => Ret (t <| offset ::= fun o => o + Z.of_nat n |>, out)
    end
  else if bool_decide (length buf < 40)%nat then Ret (t, [])
  else
    let magic := from_le (slice 0 4 buf) in
    if bool_decide (magic <> JITDUMP_MAGIC_LE /\ magic <> JITDUMP_MAGIC_BE)
    then Ret (t <| offset := len |>, [])
    else
      match records (length buf) (drop 40 buf) with
      | Panic => Panic
      | Ret (out, n) =>
          Ret (t <| header_parsed := true |> <| offset ::= fun o => o + Z.of_nat (40 + n) |>, out)
      end.

(** ** Lemmas *)

(** More fuel than bytes changes nothing. *)
Lemma records_fuel fuel : forall rest,
  (length rest <= fuel)%nat -> records fuel rest = records (length rest) rest.
Proof.
  assert (H : forall n f1 f2 rest, (length rest <= n)%nat -> (length rest <= f1)%nat ->
            (length rest <= f2)%nat -> records f1 rest = records f2 rest).
  { induction n as [|n IH]; intros f1 f2 rest Hn H1 H2.
    - destruct rest; [|simpl in *; lia]. destruct f1, f2; reflexivity.
    - destruct f1 as [|f1], f2 as [|f2]; [done| | |].
      1,2: destruct rest; [reflexivity|simpl in *; lia].
      cbn [records]. case_bool_decide; [done|]. case_bool_decide as Hb; [done|].
      rewrite (IH f1 f2); [done|..]; rewrite length_drop; lia. }
  intros rest Hl. by apply (H (length rest)).
Qed.

(** One turn of the loop, with as much fuel as bytes. *)
Lemma records_unfold rest :
  records (length rest) rest =
  if bool_decide (length rest < 16)%nat then Ret ([], 0%nat) else
  let total_size := Z.to_nat (from_le (slice 4 8 rest)) in
  if bool_decide (total_size < 16 \/ length rest < total_size)%nat then Ret ([], 0%nat) else
  match (if bool_decide (from_le (slice 0 4 rest) = JIT_CODE_LOAD)
         then parse_code_load (slice 16 total_size rest) else Ret None) with
  | Panic => Panic
  | Ret o =>
      match records (length (drop total_size rest)) (drop total_size rest) with
      | Panic => Panic
      | Ret (out, n) => Ret (from_option (fun r => [r]) [] o ++ out, (total_size + n)%nat)
      end
  end.
Proof.
  rewrite <- (records_fuel (S (length rest))) by lia. cbn [records]. cbv zeta.
  by rewrite (records_fuel (length rest)) by (rewrite length_drop; lia).
Qed.

Lemma records_consumed rest out n :
  records (length rest) rest = Ret (out, n) -> (n <= length rest)%nat.
Proof.
  remember (length rest) as k eqn:Hk. revert rest out n Hk.
  induction k as [k IH] using lt_wf_ind; intros rest out n ->.
  rewrite records_unfold. cbv zeta. case_bool_decide; [intros [= <- <-]; lia|].
  case_bool_decide; [intros [= <- <-]; lia|].
  destruct (if bool_decide _ then _ else _) as [o|]; [|done].
  destruct (records _ (drop _ rest)) as [[out' n']|] eqn:Hr; [|done].
  intros [= <- <-]. apply IH in Hr; [|rewrite length_drop; lia|done].
  rewrite length_drop in Hr. lia.
Qed.

Lemma slice_app {A} i j (l m : list A) : (j <= length l)%nat -> slice i j (l ++ m) = slice i j l.
Proof.
  intros Hj. unfold slice. destruct (decide (i <= j)%nat).
  - rewrite drop_app_le, take_app_le by (rewrite ?length_drop; lia). done.
  - replace (j - i)%nat with 0%nat by lia. done.
Qed.

(** Reading a prefix, then what is left of the whole, is reading the whole. *)
Lemma records_app l more out1 n1 :
  records (length l) l = Ret (out1, n1) ->
  records (length (l ++ more)) (l ++ more) =
  match records (length (drop n1 l ++ more)) (drop n1 l ++ more) with
  | Panic => Panic
  | Ret (out2, n2) => Ret (out1 ++ out2, (n1 + n2)%nat)
  end.
Proof.
  remember (length l) as k eqn:Hk. revert l out1 n1 Hk.
  induction k as [k IH] using lt_wf_ind; intros l out1 n1 -> Hr.
  assert (Hzero : (out1, n1) = ([], 0%nat) ->
    records (length (l ++ more)) (l ++ more) =
    match records (length (drop n1 l ++ more)) (drop n1 l ++ more) with
    | Panic => Panic
    | Ret (out2, n2) => Ret (out1 ++ out2, (n1 + n2)%nat)
    end).
  { intros [= -> ->]. rewrite drop_0. by destruct (records _ (l ++ more)) as [[]|]. }
  rewrite records_unfold in Hr. revert Hr. cbv zeta.
  case_bool_decide as H16; [intros [= <- <-]; by apply Hzero|].
  set (total := Z.to_nat (from_le (slice 4 8 l))).
  case_bool_decide as Ht; [intros [= <- <-]; by apply Hzero|].
  destruct (if bool_decide _ then _ else _) as [o|] eqn:Hl; [|done].
  destruct (records _ (drop total l)) as [[out' n']|] eqn:Hrest; [|done].
  intros [= <- <-].
  rewrite (records_unfold (l ++ more)). cbv zeta.
  rewrite !(slice_app 0 4), !(slice_app 4 8) by lia. fold total.
  rewrite (slice_app 16 total) by lia.
  rewrite bool_decide_eq_false_2 by (rewrite length_app; lia).
  rewrite bool_decide_eq_false_2 by (rewrite length_app; lia).
  rewrite Hl, drop_app_le by lia.
  rewrite (IH (length (drop total l))) with (out1 := out') (n1 := n'); [|rewrite length_drop; lia|done|done].
  rewrite drop_drop. destruct (records _ (drop (total + n') l ++ more)) as [[out2 n2]|]; [|done].
  by rewrite app_assoc, Nat.add_assoc.
Qed.

(** The magic of a file, when its header is there. *)
Definition good_magic (bytes : list Z) : bool :=
  bool_decide (from_le (slice 0 4 bytes) = JITDUMP_MAGIC_LE)
  || bool_decide (from_le (slice 0 4 bytes) = JITDUMP_MAGIC_BE).

(** [tick] on the unread bytes [buf] behind the [done_] consumed ones. *)
Lemma tick_unread done_ buf t :
  offset t = Z.of_nat (length done_) ->
  (header_parsed t = true \/ good_magic buf = true) ->
  tick (done_ ++ buf) t =
  let hdr := if header_parsed t then 0%nat else 40%nat in
  if bool_decide (length buf < hdr \/ buf = [])%nat then Ret (t, []) else
  match records (length (drop hdr buf)) (drop hdr buf) with
  | Panic => Panic
  | Ret (out, n) =>
      Ret (mkJitdumpTailer (Z.of_nat (length done_) + Z.of_nat (hdr + n)) true, out)
  end.
Proof.
  intros Ho Hh. unfold tick. rewrite Ho, length_app, Nat2Z.inj_add, Nat2Z.id, drop_app_length.
  destruct buf as [|b buf].
  { rewrite bool_decide_eq_true_2 by (simpl; lia). cbv zeta. by rewrite bool_decide_eq_true_2 by (by right). }
  rewrite bool_decide_eq_false_2 by (rewrite length_cons; lia). cbv zeta.
  destruct t as [o [|]]; cbn [header_parsed offset] in *; cbv iota.
  - rewrite bool_decide_eq_false_2 by (intros [|]; [lia|done]). rewrite drop_0.
    destruct (records _ _) as [[]|]; [|done]. simpl. by rewrite Ho.
  - destruct Hh as [|Hh]; [done|]. case_bool_decide as H40.
    { by rewrite bool_decide_eq_true_2 by auto. }
    rewrite (bool_decide_eq_false_2 (_ \/ _)) by (intros [|]; [lia|done]).
    unfold good_magic in Hh. apply orb_true_iff in Hh.
    rewrite bool_decide_eq_false_2 by (rewrite !bool_decide_eq_true in Hh; naive_solver).
    rewrite (records_fuel (length (b :: buf))) by (rewrite length_drop; lia).
    destruct (records _ _) as [[]|]; [|done]. simpl. by rewrite Ho.
Qed.

(** ** Writing jitdump files *)

Fixpoint to_le (k : nat) (n : Z) : list Z :=
  match k with
  | O => []
  | S k => n mod 256 :: to_le k (n / 256)
  end.

Lemma to_le_length k n : length (to_le k n) = k.
Proof. revert n; induction k; intros; simpl; auto. Qed.

Lemma from_to_le k n : 0 <= n < 256 ^ Z.of_nat k -> from_le (to_le k n) = n.
Proof.
  revert n; induction k as [|k IH]; intros n Hn; [simpl in *; lia|].
  cbn [to_le from_le]. rewrite Nat2Z.inj_succ, Z.pow_succ_r in Hn by lia.
  rewrite IH; [Z.to_euclidean_division_equations; lia|].
  split; [apply Z.div_pos; lia|apply Z.div_lt_upper_bound; lia].
Qed.

(** The payload and the record of one code load, and a file of them. *)
Definition code_load_payload (pid tid code_addr code_index : Z) (r : JitCodeLoad) : list Z :=
  to_le 4 pid ++ to_le 4 tid ++ to_le 8 (avma r) ++ to_le 8 code_addr
  ++ to_le 8 (code_size r) ++ to_le 8 code_index ++ (as_bytes (name r) ++ [0]) ++ code r.

(** A record of the file: its id, its time stamp and what follows; one that is a
    code load carries the ids of the process and the thread, the address the code
    is at (beside the one it runs at) and a running number. *)
Inductive file_record :=
  | CodeLoad (ts pid tid code_addr code_index : Z) (r : JitCodeLoad)
  | OtherRecord (id ts : Z) (payload : list Z).

Definition record_parts (x : file_record) : Z * Z * list Z :=
  match x with
  | CodeLoad ts pid tid code_addr code_index r => (JIT_CODE_LOAD, ts, code_load_payload pid tid code_addr code_index r)
  | OtherRecord id ts payload => (id, ts, payload)
  end.

Definition record_bytes (x : file_record) : list Z :=
  let '(id, ts, payload) := record_parts x in
  to_le 4 id ++ to_le 4 (16 + Z.of_nat (length payload)) ++ to_le 8 ts ++ payload.

Definition jitdump_file (magic : Z) (header : list Z) (l : list file_record) : list Z :=
  to_le 4 magic ++ header ++ (l ≫= record_bytes).

(** The code loads among the records. *)
Definition loads_of (l : list file_record) : list JitCodeLoad :=
  omap (fun x => match x with CodeLoad _ _ _ _ _ r => Some r | OtherRecord _ _ _ => None end) l.

(** A load a runtime can have written: addresses of 64 bits, a text without NUL
    for a name, the code bytes it announces, and a record size of 32 bits. *)
Definition load_ok (r : JitCodeLoad) : Prop :=
  is_u64 (avma r) /\ code_size r = Z.of_nat (length (code r)) /\
  Forall is_scalar (name r) /\ (0 ∉ name r) /\
  Z.of_nat (length (as_bytes (name r)) + length (code r)) + 57 < 2 ^ 32.

(** Any other record is of another kind, and its size fits its field too. *)
Definition record_ok (x : file_record) : Prop :=
  match x with
  | CodeLoad _ _ _ _ _ r => load_ok r
  | OtherRecord id _ payload => 0 < id < 2 ^ 32 /\ 16 + Z.of_nat (length payload) < 2 ^ 32
  end.

Lemma as_bytes_no_nul s : Forall is_scalar s -> 0 ∉ s -> Forall (fun b => bool_decide (b = 0) = false) (as_bytes s).
Proof.
  intros Hs Hz. apply Forall_forall. intros b (c & Hb & Hc)%list_elem_of_bind.
  apply bool_decide_eq_false_2. rewrite Forall_forall in Hs. specialize (Hs _ Hc).
  assert (c <> 0) by (intros ->; done). unfold is_scalar in Hs. unfold utf8_char in Hb.
  destruct (base64_digits c) as (_ & _ & _ & _); [lia|].
  repeat case_decide; set_unfold; repeat destruct Hb as [Hb|Hb]; subst;
    try done; Z.to_euclidean_division_equations; lia.
Qed.

Lemma slice_skip {A} i j (l m : list A) k :
  length l = k -> (k <= i)%nat -> slice i j (l ++ m) = slice (i - k) (j - k) m.
Proof.
  intros Hk Hi. unfold slice. rewrite drop_app_ge by lia. rewrite Hk.
  destruct (decide (i <= j)%nat); f_equal; lia.
Qed.

Lemma slice_here {A} j (l m : list A) : length l = j -> slice 0 j (l ++ m) = l.
Proof. intros Hj. unfold slice. rewrite drop_0, Nat.sub_0_r. by rewrite take_app_length'. Qed.

Lemma parse_code_load_payload pid tid ca ci r :
  load_ok r -> parse_code_load (code_load_payload pid tid ca ci r) = Ret (Some r).
Proof.
  intros (Ha & Hc & Hn & Hz & Hlen). unfold parse_code_load.
  assert (Hl : length (code_load_payload pid tid ca ci r) =
               (41 + length (as_bytes (name r)) + length (code r))%nat).
  { unfold code_load_payload. rewrite !length_app, !to_le_length. simpl. lia. }
  rewrite bool_decide_eq_false_2 by lia.
  assert (Havma : from_le (slice 8 16 (code_load_payload pid tid ca ci r)) = avma r).
  { unfold code_load_payload. rewrite !(slice_skip _ _ (to_le 4 _) _ 4) by (rewrite ?to_le_length; lia).
    rewrite slice_here by apply to_le_length. by apply from_to_le. }
  assert (Hsize : from_le (slice 24 32 (code_load_payload pid tid ca ci r)) = code_size r).
  { unfold code_load_payload. rewrite !(slice_skip _ _ (to_le 4 _) _ 4) by (rewrite ?to_le_length; lia).
    rewrite !(slice_skip _ _ (to_le 8 _) _ 8) by (rewrite ?to_le_length; lia).
    rewrite slice_here by apply to_le_length. apply from_to_le.
    change (256 ^ Z.of_nat 8) with (2 ^ 64). lia. }
  assert (Hname : drop 40 (code_load_payload pid tid ca ci r) = as_bytes (name r) ++ 0 :: code r).
  { set (pre := to_le 4 pid ++ to_le 4 tid ++ to_le 8 (avma r) ++ to_le 8 ca
                  ++ to_le 8 (code_size r) ++ to_le 8 ci).
    assert (code_load_payload pid tid ca ci r = pre ++ (as_bytes (name r) ++ 0 :: code r)) as ->
      by (unfold code_load_payload, pre; by rewrite <- !app_assoc).
    apply drop_app_length'. unfold pre. by rewrite !length_app, !to_le_length. }
  rewrite Havma, Hsize, Hname.
  rewrite (position_first _ (as_bytes (name r)) 0 (code r)) by first [by apply as_bytes_no_nul | done].
  rewrite take_app_length, from_utf8_lossy_as_bytes by done. cbv zeta.
  rewrite wadd64_small by lia. rewrite Hl, Hc.
  rewrite !bool_decide_eq_true_2 by lia.
  assert (slice (Z.to_nat (40 + Z.of_nat (length (as_bytes (name r))) + 1))
            (Z.to_nat (40 + Z.of_nat (length (as_bytes (name r))) + 1 + Z.of_nat (length (code r))))
            (code_load_payload pid tid ca ci r) = code r) as ->; [|by destruct r; simpl in *; subst].
  unfold slice.
  replace (Z.to_nat (40 + Z.of_nat (length (as_bytes (name r))) + 1))
    with (40 + (length (as_bytes (name r)) + 1))%nat by lia.
  rewrite <- drop_drop, Hname. rewrite cons_middle, app_assoc, drop_app_length';
    [apply take_ge; lia|rewrite length_app; simpl; lia].
Qed.

Lemma record_bytes_size x : record_ok x ->
  let '(id, _, payload) := record_parts x in
  length (record_bytes x) = (16 + length payload)%nat /\ 0 <= id < 2 ^ 32 /\ 16 + Z.of_nat (length payload) < 2 ^ 32.
Proof.
  intros Hx. unfold record_bytes. destruct (record_parts x) as [[id ts] payload] eqn:E.
  rewrite !length_app, !to_le_length. split; [lia|]. destruct x as [ts' pid tid ca ci r|id' ts' p]; cbn [record_parts] in E; injection E as <- <- <-.
  - destruct Hx as (_ & _ & _ & _ & Hlen). unfold JIT_CODE_LOAD, code_load_payload.
    rewrite !length_app, !to_le_length. cbn [length]. lia.
  - cbn in Hx. lia.
Qed.

(** One turn of the loop on a record that is all there. *)
Lemma records_record x rest : record_ok x ->
  records (length (record_bytes x ++ rest)) (record_bytes x ++ rest) =
  match records (length rest) rest with
  | Panic => Panic
  | Ret (out, n) => Ret (loads_of [x] ++ out, (length (record_bytes x) + n)%nat)
  end.
Proof.
  intros Hx. pose proof (record_bytes_size x Hx) as Hl. pose proof (eq_refl (record_bytes x)) as Hb.
  unfold record_bytes in Hb at 2. destruct (record_parts x) as [[id ts] payload] eqn:E.
  destruct Hl as (Hlen & Hid & Hsize). set (bytes := record_bytes x) in *.
  assert (Hi : from_le (slice 0 4 (bytes ++ rest)) = id).
  { rewrite slice_app by lia. rewrite Hb, slice_here by apply to_le_length. apply from_to_le.
    change (256 ^ Z.of_nat 4) with (2 ^ 32). lia. }
  assert (Htot : Z.to_nat (from_le (slice 4 8 (bytes ++ rest))) = (16 + length payload)%nat).
  { rewrite slice_app by lia. rewrite Hb, (slice_skip _ _ (to_le 4 _) _ 4) by (rewrite ?to_le_length; lia).
    rewrite slice_here by apply to_le_length. rewrite from_to_le; [lia|].
    change (256 ^ Z.of_nat 4) with (2 ^ 32). lia. }
  assert (Hpay : slice 16 (16 + length payload) (bytes ++ rest) = payload).
  { rewrite slice_app by lia. rewrite Hb, !app_assoc.
    rewrite (slice_skip _ _ _ _ 16) by (rewrite ?length_app, ?to_le_length; lia).
    unfold slice. rewrite drop_0. apply take_ge. lia. }
  rewrite records_unfold. cbv zeta. rewrite Htot, Hi, Hpay, length_app, Hlen.
  rewrite bool_decide_eq_false_2 by lia. rewrite bool_decide_eq_false_2 by lia.
  rewrite drop_app_length' by done.
  destruct x as [ts' pid tid ca ci r|id' ts' p]; cbn [record_parts] in E; injection E as <- <- <-.
  - rewrite bool_decide_eq_true_2 by done. by rewrite (parse_code_load_payload pid tid ca ci r Hx).
  - rewrite bool_decide_eq_false_2 by (cbn in Hx; unfold JIT_CODE_LOAD; lia). by destruct (records _ rest) as [[]|].
Qed.

Lemma records_all l :
  Forall record_ok l ->
  let bytes := l ≫= record_bytes in
  records (length bytes) bytes = Ret (loads_of l, length bytes).
Proof.
  induction 1 as [|x l Hx _ IH]; [done|]. cbv zeta in *. rewrite bind_cons, records_record, IH by done.
  rewrite length_app. unfold loads_of. by destruct x.
Qed.

(** ** Properties *)

(** C14. A jitdump file that a runtime writes reads back: whatever its header holds
    behind either magic, whatever time stamps, ids, addresses of the code and
    running numbers its records carry, and whatever records of other kinds stand
    between them, a freshly opened reader returns exactly the code loads, in order,
    each with the address it runs at, its size, its name and its code, and then
    stands at the end of the file. *)
Theorem jitdump_roundtrip magic header l :
  magic = JITDUMP_MAGIC_LE \/ magic = JITDUMP_MAGIC_BE ->
  length header = 36%nat -> Forall record_ok l ->
  tick (jitdump_file magic header l) opened =
  Ret (mkJitdumpTailer (Z.of_nat (length (jitdump_file magic header l))) true, loads_of l).
Proof.
  intros Hm Hh Hl. pose proof (records_all l Hl) as Hr. cbv zeta in Hr.
  set (file := jitdump_file magic header l).
  assert (Hdrop : drop 40 file = l ≫= record_bytes).
  { unfold file, jitdump_file. rewrite app_assoc. apply drop_app_length'.
    by rewrite length_app, to_le_length, Hh. }
  assert (Hlen : (40 + length (l ≫= record_bytes))%nat = length file).
  { unfold file, jitdump_file. rewrite !length_app, to_le_length. lia. }
  change (tick file opened) with (tick ([] ++ file) opened).
  rewrite (tick_unread [] file); [|done|right].
  - cbn [header_parsed opened]. cbv zeta iota. rewrite bool_decide_eq_false_2.
    + rewrite Hdrop, Hr. rewrite <- Hlen. done.
    + intros [?|Hn]; [lia|]. rewrite Hn in Hlen. simpl in Hlen. lia.
  - unfold good_magic, file, jitdump_file. rewrite slice_here by apply to_le_length.
    rewrite from_to_le by (destruct Hm as [-> | ->]; vm_compute; split; congruence).
    apply orb_true_iff. rewrite !bool_decide_eq_true. exact Hm.
Qed.

(** Two loads, the second of a thread other than the first and at an address
    other than the one it runs at, around a record of line numbers. *)
Definition demo_load : JitCodeLoad := mkJitCodeLoad 0x80000000 16 (str "vix::jitted") (replicate 16 0x90).

Definition demo_records : list file_record :=
  [CodeLoad 1000 41 42 0x80000000 0 demo_load; OtherRecord 2 1001 (replicate 24 7);
   CodeLoad 1002 41 43 0x7f0000001000 1 demo_load].

Lemma jitdump_roundtrip_witness :
  match tick (jitdump_file JITDUMP_MAGIC_LE (replicate 36 1) demo_records) opened with
  | Ret (t, out) => header_parsed t = true /\ out = [demo_load; demo_load]
  | Panic => False
  end.
Proof.
  assert (load_ok demo_load) as Hok.
  { unfold load_ok. cbn [demo_load avma code_size name code]. split_ands.
    - vm_compute; split; congruence.
    - reflexivity.
    - repeat (constructor; [left; vm_compute; split; congruence|]). constructor.
    - apply (bool_decide_eq_false_1 (0 ∈ str "vix::jitted")). vm_compute. reflexivity.
    - vm_compute. reflexivity. }
  rewrite (jitdump_roundtrip JITDUMP_MAGIC_LE (replicate 36 1) demo_records); [by split|by left|done|].
  constructor; [exact Hok|]. constructor; [by vm_compute|]. constructor; [exact Hok|constructor].
Defined.

(** Tailing a growing jitdump: reading the file at two moments yields the
    records of reading it once at the second moment and leaves the reader at
    the same place, wherever the first read cut a record, provided the header
    was accepted or carries a known magic. *)
Theorem jitdump_incremental done_ buf more t t1 out1 :
  offset t = Z.of_nat (length done_) ->
  (header_parsed t = true \/ (good_magic (buf ++ more) = true /\ (4 <= length buf)%nat)) ->
  tick (done_ ++ buf) t = Ret (t1, out1) ->
  tick (done_ ++ buf ++ more) t =
  match tick (done_ ++ buf ++ more) t1 with
  | Panic => Panic
  | Ret (t2, out2) => Ret (t2, out1 ++ out2)
  end.
Proof.
  intros Ho Hh H1.
  assert (Hh1 : header_parsed t = true \/ good_magic buf = true).
  { destruct Hh as [|[Hg H4]]; [by left|right]. unfold good_magic in *. by rewrite slice_app in Hg. }
  assert (Hh2 : header_parsed t = true \/ good_magic (buf ++ more) = true) by (destruct Hh as [|[]]; auto).
  rewrite (tick_unread done_ buf t Ho Hh1) in H1. cbv zeta in H1.
  set (hdr := if header_parsed t then 0%nat else 40%nat) in *.
  revert H1. case_bool_decide as Hshort.
  { intros [= <- <-]. by destruct (tick _ t) as [[]|]. }
  destruct (records _ (drop hdr buf)) as [[out n]|] eqn:Hr; [|done]. intros [= <- <-].
  pose proof (records_consumed _ _ _ Hr) as Hn. rewrite length_drop in Hn.
  assert (Hhdr : (hdr <= length buf)%nat) by lia.
  rewrite (tick_unread done_ (buf ++ more) t Ho Hh2). cbv zeta. fold hdr.
  rewrite bool_decide_eq_false_2.
  2: { rewrite length_app. intros [?|[-> _]%app_nil]; [lia|auto]. }
  rewrite drop_app_le by lia. rewrite (records_app _ more _ _ Hr), drop_drop.
  replace (done_ ++ buf ++ more) with ((done_ ++ take (hdr + n) buf) ++ drop (hdr + n) buf ++ more)
    by (rewrite <- app_assoc; f_equal; rewrite app_assoc; by rewrite take_drop).
  rewrite tick_unread; [|simpl; rewrite length_app, length_take; lia|by left].
  cbn [header_parsed]. cbv zeta iota. rewrite drop_0.
  rewrite (length_app done_), length_take, Nat.min_l by lia.
  set (rest := drop (hdr + n) buf ++ more).
  case_bool_decide as Hrest.
  - assert (rest = []) as -> by (destruct Hrest; [lia|done]). simpl. f_equal.
    rewrite app_nil_r. f_equal. f_equal. lia.
  - destruct (records _ rest) as [[out2 n2]|]; [|done]. f_equal. f_equal. f_equal. lia.
Qed.

Lemma jitdump_incremental_witness :
  let file := jitdump_file JITDUMP_MAGIC_LE (replicate 36 0)
                [CodeLoad 1 1 1 0x1000 0 (mkJitCodeLoad 0x1000 4 (str "a") [1; 2; 3; 4]);
                 CodeLoad 2 1 1 0x2000 1 (mkJitCodeLoad 0x2000 2 (str "b") [5; 6])] in
  exists t1, tick (take 150 file) opened = Ret (t1, [mkJitCodeLoad 0x1000 4 (str "a") [1; 2; 3; 4]]) /\
  match tick file t1 with
  | Ret (t2, out2) => tick file opened = Ret (t2, mkJitCodeLoad 0x1000 4 (str "a") [1; 2; 3; 4] :: out2)
  | Panic => False
  end.
Proof.
  intros file. eexists. split; [vm_compute; reflexivity|].
  pose proof (jitdump_incremental [] (take 150 file) (drop 150 file) opened
    (mkJitdumpTailer 102 true) [mkJitCodeLoad 0x1000 4 (str "a") [1; 2; 3; 4]]) as H.
  rewrite !app_nil_l, !take_drop in H.
  rewrite H; [|reflexivity|right; vm_compute; split; [done|lia]|vm_compute; reflexivity].
  vm_compute. reflexivity.
Defined.

(** The record loop terminates having consumed whole records only: with the
    buffer's length as fuel it stops where fewer than 16 bytes are left or the
    next record is malformed or incomplete, never because fuel ran out. *)
Theorem records_stop rest out n :
  records (length rest) rest = Ret (out, n) ->
  let left := drop n rest in
  (n <= length rest)%nat /\
  ((length left < 16)%nat \/
   (Z.to_nat (from_le (slice 4 8 left)) < 16)%nat \/
   (length left < Z.to_nat (from_le (slice 4 8 left)))%nat).
Proof.
  intros H. cbv zeta. split; [by eapply records_consumed|].
  remember (length rest) as k eqn:Hk. revert rest out n Hk H.
  induction k as [k IH] using lt_wf_ind; intros rest out n ->.
  rewrite records_unfold. cbv zeta. case_bool_decide; [intros [= <- <-]; rewrite drop_0; auto|].
  case_bool_decide as Ht; [intros [= <- <-]; rewrite drop_0; auto|].
  destruct (if bool_decide _ then _ else _) as [o|]; [|done].
  destruct (records _ (drop _ rest)) as [[out' n']|] eqn:Hr; [|done].
  intros [= <- <-]. apply IH in Hr; [|rewrite length_drop; lia|done].
  by rewrite drop_drop in Hr.
Qed.

Lemma records_stop_witness :
  (length (drop 0 (replicate 3 7)) < 16)%nat.
Proof.
  destruct (records_stop (replicate 3 7) [] 0 eq_refl) as [_ [H|[H|H]]]; [exact H| |];
    vm_compute in H; vm_compute; lia.
Defined.

(** A code size close to [u64::MAX] wraps the end of the code around below
    its start, and the slice that takes the code panics: one malformed record
    stops the recorder. *)
Theorem huge_code_size_panics :
  let r := mkJitCodeLoad 0x1000 (2 ^ 64 - 1) (str "f") [] in
  tick (jitdump_file JITDUMP_MAGIC_LE (replicate 36 0) [CodeLoad 1 1 1 0x1000 0 r]) opened = Panic.
Proof. vm_compute. reflexivity. Qed.

End Jitdump.
