(* ===== verification/Elf.v ===== *)
(** * ELF images

    [stax-linux-capture/src/elf.rs]: the symbol table and the segments of an
    image on disk, the detached debug symbols of its build id, and the link-time
    address of a mapping.  The [object] crate parses the file; an [ElfFile] is
    what it reports, and reading and parsing are arguments. *)

From S2P Require Import Prelude Sink Text.

Module Elf.

Export Sink (MachOSymbol, mkMachOSymbol, start_svma, end_svma, sym_name).
Import Text.

(** ** Data *)

Record LoadSeg := mkLoadSeg { p_offset : Z; p_vaddr : Z; p_filesz : Z }.

Record SectionSlice := mkSectionSlice { ss_start : Z; ss_end : Z; ss_bytes : list Z }.

Record ElfImage := mkElfImage {
  arch : option (list Z);
  is_executable : bool;
  build_id : option (list Z);
  build_id_full : list Z;
  symbols : list MachOSymbol;
  loads : list LoadSeg;
  text : option SectionSlice;
  eh_frame : option SectionSlice;
  eh_frame_hdr : option SectionSlice
}.

#[export] Instance eta_ElfImage : Eta ElfImage := fun i =>
  mkElfImage (arch i) (is_executable i) (build_id i) (build_id_full i) (symbols i) (loads i) (text i)
    (eh_frame i) (eh_frame_hdr i).

#[export] Instance eta_MachOSymbol : Eta MachOSymbol := fun s =>
  mkMachOSymbol (start_svma s) (end_svma s) (sym_name s).

(** What the [object] crate reports of a 64-bit ELF file. *)
Inductive Architecture := Aarch64 | X86_64 | I386 | Arm | OtherArchitecture.

Record ProgramHeader := mkProgramHeader {
  p_type : Z; p_flags : Z; ph_offset : Z; ph_vaddr : Z; ph_filesz : Z
}.

Record ElfSymbol := mkElfSymbol {
  is_definition : bool; sy_address : Z; sy_size : Z; name_bytes : option (list Z)
}.

Record ElfSection := mkElfSection { section_name : option (list Z); section_address : Z; section_data : option (list Z) }.

Record ElfFile := mkElfFile {
  architecture : Architecture;
  kind_executable : bool;
  program_headers : option (list ProgramHeader);
  build_id_note : option (list Z);
  file_symbols : list ElfSymbol;
  dynamic_symbols : list ElfSymbol;
  sections : list ElfSection
}.

Definition PT_LOAD : Z := 1.
Definition PF_X : Z := 1.
Definition PAGE : Z := 0x1000.

(** ** Reading an image *)

Fixpoint find_load (file_off : Z) (l : list LoadSeg) : option Z :=
  match l with
  | [] => None
  | s :: l =>
      let lo := Z.land (p_offset s) (Z.lnot (PAGE - 1)) in
      if bool_decide (lo <= file_off < as_u64 (p_offset s + p_filesz s))
      then Some (wadd64 (as_u64 (file_off - p_offset s)) (p_vaddr s))
      else find_load file_off l
  end.

Definition svma_for_file_off (file_off : Z) (i : ElfImage) : option Z := find_load file_off (loads i).

Definition arch_str (a : Architecture) : option (list Z) :=
  match a with
  | Aarch64 => Some (str "aarch64")
  | X86_64 => Some (str "x86_64")
  | I386 => Some (str "i386")
  | Arm => Some (str "arm")
  | OtherArchitecture => None
  end.

Definition read_section (file : ElfFile) (name : list Z) : option SectionSlice :=
  '(_, section) ← list_find (fun s => section_name s = Some name) (sections file);
  data ← section_data section;
  if bool_decide (data = []) then None
  else Some (mkSectionSlice (section_address section)
               (sadd64 (section_address section) (Z.of_nat (length data))) data).

(** A symbol kept: defined, with an address and a name. *)
Definition code_symbol (s : ElfSymbol) : option MachOSymbol :=
  if negb (is_definition s) then None
  else if bool_decide (sy_address s = 0) then None
  else match name_bytes s with
       | Some name =>
           if bool_decide (name = []) then None
           else Some (mkMachOSymbol (sy_address s) (sadd64 (sy_address s) (Z.max (sy_size s) 4)) name)
       | None => None
       end.

Definition by_start (x y : MachOSymbol) : bool := bool_decide (start_svma x <= start_svma y).

(** [dedup_by_key(|s| s.start_svma)] *)
Fixpoint dedup_from (prev : Z) (l : list MachOSymbol) : list MachOSymbol :=
  match l with
  | [] => []
  | s :: l => if bool_decide (start_svma s = prev) then dedup_from prev l else s :: dedup_from (start_svma s) l
  end.

Definition dedup_by_start (l : list MachOSymbol) : list MachOSymbol :=
  match l with
  | [] => []
  | s :: l => s :: dedup_from (start_svma s) l
  end.

(** Every symbol reaches to the next. *)
Fixpoint close_gaps (l : list MachOSymbol) : list MachOSymbol :=
  match l with
  | s :: ((n :: _) as rest) =>
      (if bool_decide (start_svma s < start_svma n) then s <| end_svma := start_svma n |> else s) :: close_gaps rest
  | _ => l
  end.

Definition extract_symbols (file : ElfFile) : list MachOSymbol :=
  close_gaps (dedup_by_start (sort_by by_start (omap code_symbol (file_symbols file ++ dynamic_symbols file)))).

Definition executable_load (ph : ProgramHeader) : option LoadSeg :=
  if bool_decide (p_type ph = PT_LOAD) && bool_decide (Z.land (p_flags ph) PF_X <> 0)
  then Some (mkLoadSeg (ph_offset ph) (ph_vaddr ph) (ph_filesz ph)) else None.

(** The first 16 bytes, padded with zeros. *)
Definition short_build_id (id : list Z) : option (list Z) :=
  if bool_decide (id = []) then None else Some (take 16 (id ++ replicate 16 0)).

Section Reading.
Variable parse : list Z -> option ElfFile.

Definition scan (bytes : list Z) : option ElfImage :=
  file ← parse bytes;
  let id := default [] (build_id_note file) in
  Some (mkElfImage (arch_str (architecture file)) (kind_executable file) (short_build_id id) id
          (extract_symbols file) (omap executable_load (default [] (program_headers file)))
          (read_section file (str ".text")) (read_section file (str ".eh_frame"))
          (read_section file (str ".eh_frame_hdr"))).

(** ** Detached debug symbols *)

Definition hex_lower (bytes : list Z) : list Z :=
  bytes ≫= fun b => [hex_char (Z.shiftr b 4); hex_char (Z.land b 15)].

Definition DEBUG_BUILD_ID_ROOT : list Z := str "/usr/lib/debug/.build-id".

(** [<root>/<XX>/<YYY..><suffix>] *)
Definition build_id_path (root suffix hex : list Z) : list Z :=
  root ++ str "/" ++ take 2 hex ++ str "/" ++ drop 2 hex ++ suffix.

Definition load_separate_debug_by_build_id (read : list Z -> option (list Z)) (id : list Z)
    : option (list MachOSymbol) :=
  if bool_decide (length id < 2)%nat then None else
  bytes ← read (build_id_path DEBUG_BUILD_ID_ROOT (str ".debug") (hex_lower id));
  extract_symbols <$> parse bytes.

Record DebuginfodConfig := mkDebuginfodConfig { urls : list (list Z); cache_dir : list Z }.

Definition debuginfod_cached (read : list Z -> option (list Z)) (cfg : DebuginfodConfig) (id : list Z)
    : option (list MachOSymbol) :=
  if bool_decide (urls cfg = []) || bool_decide (length id < 2)%nat then None else
  bytes ← read (build_id_path (cache_dir cfg) (str ".debug") (hex_lower id));
  extract_symbols <$> parse bytes.
End Reading.

(** ** Symbol tables *)

(** Sorted by start, and each symbol ends by the next one's start. *)
Definition table_ok (l : list MachOSymbol) : Prop :=
  StronglySorted (fun x y => start_svma x < start_svma y /\ end_svma x <= start_svma y) l.

Lemma dedup_from_spec prev l :
  StronglySorted (fun x y => start_svma x <= start_svma y) l -> Forall (fun s => prev <= start_svma s) l ->
  StronglySorted (fun x y => start_svma x < start_svma y) (dedup_from prev l) /\
  Forall (fun s => prev < start_svma s) (dedup_from prev l).
Proof.
  intros Hs. revert prev. induction Hs as [|s l Hs IH Hl]; intros prev Hp; [by split; constructor|].
  apply Forall_cons in Hp as [Hp Hpl]. cbn. case_bool_decide as E.
  - apply IH. done.
  - destruct (IH (start_svma s) Hl) as [H1 H2]. split; constructor; [done|done|lia|].
    eapply Forall_impl; [exact H2|]. cbn. lia.
Qed.

Lemma dedup_sorted l :
  StronglySorted (fun x y => start_svma x <= start_svma y) l ->
  StronglySorted (fun x y => start_svma x < start_svma y) (dedup_by_start l).
Proof.
  intros Hs. destruct Hs as [|s l Hs Hl]; [constructor|]. cbn.
  destruct (dedup_from_spec (start_svma s) l Hs Hl) as [H1 H2]. by constructor.
Qed.

(** Of the symbols at one address the first stays. *)
Lemma dedup_from_elem prev l s :
  StronglySorted (fun x y => start_svma x <= start_svma y) l -> Forall (fun x => prev <= start_svma x) l ->
  s ∈ dedup_from prev l <->
  start_svma s <> prev /\ exists l1 l2, l = l1 ++ s :: l2 /\ Forall (fun x => start_svma x <> start_svma s) l1.
Proof.
  intros Hs. revert prev. induction Hs as [|x l Hs IH Hl]; intros prev Hp.
  - cbn. rewrite elem_of_nil. split; [intros []|]. intros (_ & l1 & l2 & Heq & _). by destruct l1.
  - apply Forall_cons in Hp as [Hp Hpl]. cbn. case_bool_decide as E.
    + rewrite IH by done. split; intros [Hne (l1 & l2 & Heq & Hf)]; (split; [done|]).
      * exists (x :: l1), l2. rewrite Heq. split; [done|]. constructor; [congruence|done].
      * destruct l1 as [|y l1]; [injection Heq as -> _; congruence|]. injection Heq as -> ->.
        exists l1, l2. split; [done|]. by apply Forall_cons in Hf as [_ Hf].
    + rewrite elem_of_cons, IH by done. split.
      * intros [->|[Hne (l1 & l2 & -> & Hf)]]; [split; [done|]; by exists [], l|].
        assert (start_svma x <= start_svma s) by (eapply Forall_forall in Hl; [exact Hl|set_solver]).
        split; [lia|]. exists (x :: l1), l2. split; [done|]. constructor; [lia|done].
      * intros [Hne (l1 & l2 & Heq & Hf)]. destruct l1 as [|y l1]; injection Heq as -> ->; [by left|right].
        apply Forall_cons in Hf as [Hy Hf]. split; [congruence|]. by exists l1, l2.
Qed.

Lemma dedup_elem l s :
  StronglySorted (fun x y => start_svma x <= start_svma y) l ->
  s ∈ dedup_by_start l <-> exists l1 l2, l = l1 ++ s :: l2 /\ Forall (fun x => start_svma x <> start_svma s) l1.
Proof.
  intros Hs. destruct Hs as [|x l Hs Hl]; cbn.
  - rewrite elem_of_nil. split; [intros []|]. intros (l1 & l2 & Heq & _). by destruct l1.
  - rewrite elem_of_cons, dedup_from_elem by done. split.
    + intros [->|[Hne (l1 & l2 & -> & Hf)]]; [by exists [], l|]. exists (x :: l1), l2. split; [done|].
      constructor; [congruence|done].
    + intros (l1 & l2 & Heq & Hf). destruct l1 as [|y l1]; injection Heq as -> ->; [by left|right].
      apply Forall_cons in Hf as [Hy Hf]. split; [congruence|]. by exists l1, l2.
Qed.

Lemma close_gaps_starts l : map start_svma (close_gaps l) = map start_svma l.
Proof.
  induction l as [|s [|n l] IH]; [done|done|]. cbn [close_gaps]. cbn [map] in IH |- *. rewrite <- IH. f_equal.
  by case_bool_decide.
Qed.

Lemma close_gaps_ok l : StronglySorted (fun x y => start_svma x < start_svma y) l -> table_ok (close_gaps l).
Proof.
  induction 1 as [|s l Hs IH Hl]; [constructor|]. destruct l as [|n l]; [repeat constructor|].
  cbn [close_gaps]. apply Forall_cons in Hl as [Hn Hl]. rewrite bool_decide_true by done.
  constructor; [exact IH|]. apply Forall_forall. intros y Hy.
  assert (start_svma n <= start_svma y); [|cbn; lia].
  assert (start_svma y ∈ map start_svma (n :: l)) as Hin.
  { rewrite <- (close_gaps_starts (n :: l)). by apply list_elem_of_fmap_2. }
  apply list_elem_of_fmap in Hin as (z & -> & Hz). apply elem_of_cons in Hz as [->|Hz]; [done|].
  inversion Hs as [|? ? _ Hnl]; subst. eapply Forall_forall in Hnl; [|exact Hz]. lia.
Qed.

Lemma by_start_total x y : by_start x y = false -> by_start y x = true.
Proof. unfold by_start. intros H%bool_decide_eq_false. apply bool_decide_eq_true. lia. Qed.

Lemma by_start_trans x y z : by_start x y = true -> by_start y z = true -> by_start x z = true.
Proof.
  unfold by_start. intros H1%bool_decide_eq_true H2%bool_decide_eq_true. apply bool_decide_eq_true. lia.
Qed.

Lemma sorted_by_start l : StronglySorted (fun x y => start_svma x <= start_svma y) (sort_by by_start l).
Proof.
  apply StronglySorted_weaken with (fun x y => by_start x y = true); [by intros x y H%bool_decide_eq_true|].
  apply sort_by_sorted; [apply by_start_total|apply by_start_trans].
Qed.

Lemma extract_symbols_ok file : table_ok (extract_symbols file).
Proof. apply close_gaps_ok, dedup_sorted, sorted_by_start. Qed.

(** The first symbol listed at an address, in the order of the file. *)
Definition first_at (addr : Z) (l : list MachOSymbol) : option MachOSymbol :=
  head (filter (fun s => start_svma s = addr) l).

Lemma filter_sort_by addr l :
  filter (fun s => start_svma s = addr) (sort_by by_start l) = filter (fun s => start_svma s = addr) l.
Proof.
  assert (forall m : list MachOSymbol, filter (fun s => start_svma s = addr) m =
            omap (fun s => if decide (start_svma s = addr) then Some s else None) m) as Hom.
  { intros m. induction m as [|s m IH]; [done|]. rewrite filter_cons. cbn [omap list_omap]. rewrite IH.
    by case_decide. }
  rewrite !Hom, (sort_by_omap by_start by_start_total by_start_trans by_start).
  - apply sort_by_id. rewrite <- Hom. assert (Forall (fun s => start_svma s = addr) (filter (fun s => start_svma s = addr) l)) as H.
    { apply Forall_forall. by intros s [? _]%list_elem_of_filter. }
    induction H as [|s m Hs Hm IH]; constructor; [done|]. eapply Forall_impl; [exact Hm|]. cbn. intros x Hx.
    unfold by_start. apply bool_decide_eq_true. lia.
  - intros x y a b Hx Hy. do 2 case_decide; simplify_eq. done.
Qed.

Lemma first_at_split addr l s :
  first_at addr l = Some s <->
  start_svma s = addr /\ exists l1 l2, l = l1 ++ s :: l2 /\ Forall (fun x => start_svma x <> addr) l1.
Proof.
  unfold first_at. induction l as [|x l IH].
  - cbn. split; [done|]. intros (_ & l1 & l2 & Heq & _). by destruct l1.
  - destruct (decide (start_svma x = addr)) as [E|E].
    + rewrite filter_cons_True by done. cbn [head]. split.
      * intros [= <-]. split; [done|]. by exists [], l.
      * intros (Hs & l1 & l2 & Heq & Hf). destruct l1 as [|y l1]; injection Heq as -> ->; [done|].
        by apply Forall_cons in Hf as [? _].
    + rewrite filter_cons_False, IH by done. split; intros (Hs & l1 & l2 & Heq & Hf); (split; [done|]).
      * exists (x :: l1), l2. rewrite Heq. split; [done|by constructor].
      * destruct l1 as [|y l1]; injection Heq as -> ->; [done|]. exists l1, l2. split; [done|].
        by apply Forall_cons in Hf as [_ ?].
Qed.

(** The symbols of the file that count, in its order. *)
Definition listed (file : ElfFile) : list MachOSymbol := omap code_symbol (file_symbols file ++ dynamic_symbols file).

Lemma deduped file s :
  s ∈ dedup_by_start (sort_by by_start (listed file)) <-> first_at (start_svma s) (listed file) = Some s.
Proof.
  rewrite dedup_elem by apply sorted_by_start.
  assert (first_at (start_svma s) (sort_by by_start (listed file)) = first_at (start_svma s) (listed file)) as <-.
  { unfold first_at. by rewrite filter_sort_by. }
  rewrite first_at_split. split; [intros H; by split|by intros [_ H]].
Qed.

Lemma elem_of_close_gaps l s :
  s ∈ close_gaps l -> exists s', s' ∈ l /\ start_svma s' = start_svma s /\ sym_name s' = sym_name s.
Proof.
  induction l as [|x [|n l] IH]; [by intros ?%elem_of_nil| |].
  - intros ->%list_elem_of_singleton. exists x. split; [left|done].
  - cbn [close_gaps]. intros [->|H]%elem_of_cons.
    + exists x. split; [left|]. by case_bool_decide.
    + destruct (IH H) as (s' & Hs & H1 & H2). exists s'. split; [by right|done].
Qed.

(** C29. The symbol table read from an ELF file lists exactly the addresses, other than
    0, of its named definitions, once and in order; at each address it has the name
    that the static table, or else the dynamic one, gives first; and no two of its
    symbols overlap. The code does not look at the type of a symbol: the definitions
    are data objects too, where the comments of [elf.rs] speak of functions. *)
Theorem extract_symbols_exact file :
  table_ok (extract_symbols file) /\
  (forall addr, addr ∈ map start_svma (extract_symbols file) <->
     exists sym, sym ∈ file_symbols file ++ dynamic_symbols file /\ code_symbol sym <> None /\ sy_address sym = addr) /\
  (forall s, s ∈ extract_symbols file -> exists s', first_at (start_svma s) (listed file) = Some s' /\ sym_name s' = sym_name s).
Proof.
  split; [apply extract_symbols_ok|]. unfold extract_symbols. fold (listed file). split.
  - intros addr. rewrite close_gaps_starts, list_elem_of_fmap. split.
    + intros (s & -> & (Hs & l1 & l2 & Heq & _)%deduped%first_at_split).
      assert (s ∈ listed file) as (sym & Hsym & Hc)%list_elem_of_omap by (rewrite Heq; set_solver).
      exists sym. split; [done|]. rewrite Hc. split; [done|].
      unfold code_symbol in Hc. repeat (case_match; [done|..]); repeat case_match; by simplify_eq.
    + intros (sym & Hsym & Hc & <-). destruct (code_symbol sym) as [s|] eqn:E; [|done].
      assert (start_svma s = sy_address sym) as Ha.
      { unfold code_symbol in E. repeat case_match; by simplify_eq. }
      assert (s ∈ filter (fun x => start_svma x = sy_address sym) (listed file)) as Hin.
      { apply list_elem_of_filter. split; [done|]. apply list_elem_of_omap. by exists sym. }
      destruct (first_at (sy_address sym) (listed file)) as [x|] eqn:Ef.
      * exists x. apply first_at_split in Ef as Hx. destruct Hx as [Hx _]. split; [done|]. apply deduped. by rewrite Hx.
      * unfold first_at in Ef. destruct (filter _ _); [by apply elem_of_nil in Hin|done].
  - intros s (s' & Hs' & Hst & Hn)%elem_of_close_gaps. apply deduped in Hs'. exists s'. by rewrite <- Hst.
Qed.

(** ** Segments *)

Lemma page_floor x : 0 <= x -> Z.land x (Z.lnot (PAGE - 1)) = x - x mod PAGE.
Proof.
  intros Hx. change (PAGE - 1) with (Z.ones 12). rewrite <- Z.ldiff_land, Z.ldiff_ones_r by lia.
  rewrite Z.shiftl_mul_pow2, Z.shiftr_div_pow2 by lia. change PAGE with (2 ^ 12).
  pose proof (Z.div_mod x (2 ^ 12) ltac:(done)). lia.
Qed.

(** The run-time address of a link-time address of a segment that is mapped at
    [base] from the page of its first byte, leads back to it: what the analysis
    computes as [pc - base_avma + text_svma]. *)
Theorem mapping_resolves l1 s l2 base svma :
  let pgoff := Z.land (p_offset s) (Z.lnot (PAGE - 1)) in
  Forall (fun s' => ~ (Z.land (p_offset s') (Z.lnot (PAGE - 1)) <= pgoff < as_u64 (p_offset s' + p_filesz s'))) l1 ->
  is_u64 (p_offset s) -> is_u64 (p_offset s + p_filesz s) -> 0 < p_filesz s -> is_u64 svma ->
  exists text_svma, find_load pgoff (l1 ++ s :: l2) = Some text_svma /\
    let pc := as_u64 (base + (svma - p_vaddr s + p_offset s - pgoff)) in
    wadd64 (as_u64 (pc - base)) text_svma = svma.
Proof.
  intros pgoff Hl1 Ho He Hsz Hsv. exists (wadd64 (as_u64 (pgoff - p_offset s)) (p_vaddr s)). split.
  - induction Hl1 as [|s' l1 Hs' Hl1 IH]; cbn [app find_load].
    + rewrite bool_decide_true; [done|]. fold pgoff. split; [done|]. rewrite as_u64_small by done.
      unfold pgoff. rewrite page_floor by apply Ho. pose proof (Z.mod_pos_bound (p_offset s) PAGE ltac:(done)). lia.
    + rewrite bool_decide_false by done. exact IH.
  - cbn zeta. rewrite <- (as_u64_small svma) at 2 by done. unfold wadd64. apply as_u64_proper.
    rewrite <- (Z.add_opp_r _ base), ?as_u64_eq64. unfold eq64. f_equal. lia.
Qed.

End Elf.
