(* ===== verification/Dwarf.v ===== *)
(** * Unwinding user stacks

    [stax-linux-capture/src/dwarf.rs]: the walk over the frames [framehop] finds
    in a stack snapshot, and the splice of a walk that was cut short onto the
    kernel's frame-pointer chain.  The unwinder itself is an argument: what it
    yields for the modules it knows, the registers and a reader of the stack. *)

From S2P Require Import Prelude Jitdump.

Module Dwarf.

(** [framehop::Module], as [add_image] describes it. *)
Record UnwindModule := mkUnwindModule {
  um_path : list Z;
  um_avma_start : Z;
  um_avma_end : Z;
  um_base_avma : Z;
  um_text_svma : option (Z * Z);
  um_text : option (list Z);
  um_eh_frame_svma : Z * Z;
  um_eh_frame : list Z;
  um_eh_frame_hdr_svma : option (Z * Z);
  um_eh_frame_hdr : option (list Z)
}.

(** What [iter.next()] returns. *)
Inductive FrameResult := Frame (pc : Z) | EndOfStack | Cut.

(** The unwinder: modules, then ip, sp, bp, then the stack reader; the frames as
    the iterator yields them. *)
Class Framehop := iter_frames : list UnwindModule -> Z -> Z -> Z -> (Z -> option Z) -> nat -> FrameResult.

Definition add_image (path : list Z) (mapping_avma image_base_avma vmsize : Z) (text_svma : option (Z * Z))
    (text : option (list Z)) (eh_frame_svma : Z * Z) (eh_frame : list Z) (eh_frame_hdr_svma : option (Z * Z))
    (eh_frame_hdr : option (list Z)) (modules : list UnwindModule) : list UnwindModule :=
  modules ++ [mkUnwindModule path mapping_avma (sadd64 mapping_avma vmsize) image_base_avma text_svma text
                eh_frame_svma eh_frame eh_frame_hdr_svma eh_frame_hdr].

(** The closure [read_stack]. *)
Definition read_stack (stack_base_addr : Z) (stack_bytes : list Z) (addr : Z) : option Z :=
  if bool_decide (addr < stack_base_addr) then None else
  let off := addr - stack_base_addr in
  let end_ := off + 8 in
  if bool_decide (u64_max < end_) then None else
  if bool_decide (Z.of_nat (length stack_bytes) < end_) then None else
  Some (Jitdump.from_le (slice (Z.to_nat off) (Z.to_nat end_) stack_bytes)).

(** The loop over the frames, which gives up behind 256 of them. *)
Fixpoint walk (fuel : nat) (next : nat -> FrameResult) (i : nat) (frames : list Z) : list Z * bool :=
  match fuel with
  | O => (frames, true)
  | S fuel =>
      match next i with
      | Frame pc =>
          let frames := frames ++ [pc] in
          if bool_decide (256 < length frames)%nat then (frames, true) else walk fuel next (S i) frames
      | EndOfStack => (frames, false)
      | Cut => (frames, true)
      end
  end.

Definition unwind `{Framehop} (modules : list UnwindModule) (ip sp bp stack_base_addr : Z) (stack_bytes : list Z)
    : list Z * bool :=
  walk 257 (iter_frames modules ip sp bp (read_stack stack_base_addr stack_bytes)) 0 [].

(** The frames of [dwarf] from the [i]-th on, the first of which that the chain
    has too is where the chain goes on. *)
Fixpoint splice_at (i : nat) (rest dwarf fp : list Z) : option (list Z) :=
  match rest with
  | [] => None
  | pc :: rest =>
      match position (fun f => bool_decide (f = pc)) (drop 1 fp) with
      | Some j => Some (take i dwarf ++ drop (S j) fp)
      | None => splice_at (S i) rest dwarf fp
      end
  end.

Definition longer (dwarf fp : list Z) : list Z :=
  if bool_decide (length fp <= length dwarf)%nat then dwarf else fp.

Definition splice (dwarf : list Z) (truncated : bool) (fp : list Z) : list Z :=
  if negb truncated then longer dwarf fp else
  match splice_at 1 (drop 1 dwarf) dwarf fp with
  | Some out => out
  | None => longer dwarf fp
  end.

(** ** The unit tests of [dwarf.rs] *)

Example spliced : splice [0x10; 0x20; 0x30] true [0x10; 0x30; 0x40; 0x50; 0x60] = [0x10; 0x20; 0x30; 0x40; 0x50; 0x60].
Proof. reflexivity. Qed.

Example complete_kept : splice [0x10; 0x20; 0x30] false [0x10; 0x30] = [0x10; 0x20; 0x30].
Proof. reflexivity. Qed.

Example longer_kept : splice [0x10; 0x20] true [0x10; 0x70; 0x80] = [0x10; 0x70; 0x80].
Proof. reflexivity. Qed.

(** ** The walk *)

(** The turns are enough: with more of them nothing changes. *)
Lemma walk_fuel fuel next i frames :
  (257 <= fuel + length frames)%nat -> (length frames <= 256)%nat ->
  walk fuel next i frames = walk (257 - length frames) next i frames.
Proof.
  revert i frames. induction fuel as [|fuel IH]; intros i frames Hf Hl; [lia|].
  replace (257 - length frames)%nat with (S (256 - length frames)) by lia. cbn [walk].
  destruct (next i) as [pc| |]; [|done..]. case_bool_decide as E; [done|].
  rewrite length_app in E. cbn in E. rewrite IH by (rewrite length_app; cbn; lia).
  f_equal. rewrite length_app. cbn. lia.
Qed.

Lemma splice_at_skip i h x rest dwarf fp :
  Forall (fun pc => pc ∉ drop 1 fp) h ->
  splice_at i (h ++ x :: rest) dwarf fp = splice_at (i + length h) (x :: rest) dwarf fp.
Proof.
  intros Hh. revert i. induction Hh as [|pc h Hpc Hh IH]; intros i; [by rewrite Nat.add_0_r|].
  transitivity (splice_at (S i) (h ++ x :: rest) dwarf fp).
  - cbn [app splice_at]. assert (position (fun f => bool_decide (f = pc)) (drop 1 fp) = None) as ->; [|done].
    apply position_None, Forall_forall. intros f Hf. apply bool_decide_eq_false. by intros ->.
  - rewrite IH. cbn [length]. by rewrite Nat.add_succ_r.
Qed.

(** C30. A walk that was cut short is completed to the whole stack: when the
    frame-pointer chain has lost only frames in front of [x], the first return
    address the walk and the chain share, the spliced stack is the real one,
    whatever the walk saw behind [x]. *)
Theorem splice_completes leaf h x t leaf' g d :
  Forall (fun pc => pc ∉ g ++ x :: t) h -> x ∉ g ->
  splice (leaf :: h ++ x :: d) true (leaf' :: g ++ x :: t) = leaf :: h ++ x :: t.
Proof.
  intros Hh Hg. unfold splice. cbn [negb drop]. rewrite drop_0, splice_at_skip by done. cbn [splice_at drop].
  rewrite drop_0. rewrite (position_first (fun f => bool_decide (f = x)) g x t).
  - cbn [Nat.add take drop]. rewrite !drop_app_length, take_app_length. done.
  - apply Forall_forall. intros f Hf. apply bool_decide_eq_false. by intros ->.
  - by apply bool_decide_eq_true.
Qed.

Lemma splice_completes_witness :
  splice (1 :: [2] ++ 3 :: []) true (1 :: [] ++ 3 :: [4; 5]) = [1; 2; 3; 4; 5].
Proof.
  apply (splice_completes 1 [2] 3 [4; 5] 1 [] []); [|by apply not_elem_of_nil].
  repeat constructor. cbn. set_solver.
Defined.

End Dwarf.
