(* ===== verification/Perf.v ===== *)
(** * perf records

    The byte level of [stax-linux-capture/src/session.rs] (the cursor over one
    record's bytes, call chains, the split of a drained buffer into records) and
    the drain of a ring of [sys.rs]. *)

From S2P Require Import Prelude Jitdump.

Module Perf.

Import Jitdump (from_le, to_le).

Definition PERF_RECORD_MMAP : Z := 1.
Definition PERF_RECORD_LOST : Z := 2.
Definition PERF_RECORD_COMM : Z := 3.
Definition PERF_RECORD_FORK : Z := 7.
Definition PERF_RECORD_SAMPLE : Z := 9.
Definition PERF_RECORD_MMAP2 : Z := 10.
Definition PERF_RECORD_SWITCH_CPU_WIDE : Z := 15.
Definition PERF_RECORD_MISC_SWITCH_OUT : Z := Z.shiftl 1 13.
Definition PERF_RECORD_MISC_SWITCH_OUT_PREEMPT : Z := Z.shiftl 1 14.
Definition PERF_CONTEXT_KERNEL : Z := 2 ^ 64 - 128.
Definition PERF_CONTEXT_USER : Z := 2 ^ 64 - 512.
Definition PERF_CONTEXT_MAX : Z := 2 ^ 64 - 4095.
Definition PERF_SAMPLE_REGS_ABI_64 : Z := 2.

Inductive PerfRingKind := Sampling | Switch | Waking.

#[export] Instance PerfRingKind_eq_dec : EqDecision PerfRingKind.
Proof. solve_decision. Defined.

(** ** The cursor *)

(** The bytes of the record that are not read yet. *)
Definition Cur : Type := list Z.

Definition read_le (n : nat) (c : Cur) : option Z * Cur :=
  if bool_decide (n <= length c)%nat then (Some (from_le (take n c)), drop n c) else (None, c).

Definition read_u32 : Cur -> option Z * Cur := read_le 4.
Definition read_u64 : Cur -> option Z * Cur := read_le 8.

(** [c.u32().unwrap_or(0)] *)
Definition u32_or_0 (c : Cur) : Z * Cur := let '(v, c) := read_u32 c in (default 0 v, c).
Definition u64_or_0 (c : Cur) : Z * Cur := let '(v, c) := read_u64 c in (default 0 v, c).

Definition skip (n : nat) (c : Cur) : Cur := drop n c.

Definition cstr (c : Cur) : list Z :=
  match position (fun b => bool_decide (b = 0)) c with
  | Some i => take i c
  | None => c
  end.

Definition read_bytes (n : Z) (c : Cur) : option (list Z) * Cur :=
  if bool_decide (n <= Z.of_nat (length c)) then (Some (take (Z.to_nat n) c), drop (Z.to_nat n) c) else (None, c).

(** ** Call chains *)

(** The user and kernel frames so far, and the context the next one is in. *)
Definition push_ip (st : list Z * list Z * bool) (ip : Z) : list Z * list Z * bool :=
  let '(user, kernel, in_kernel) := st in
  if bool_decide (PERF_CONTEXT_MAX <= ip) then
    if bool_decide (ip = PERF_CONTEXT_KERNEL) then (user, kernel, true)
    else if bool_decide (ip = PERF_CONTEXT_USER) then (user, kernel, false)
    else st
  else if in_kernel then (user, kernel ++ [ip], in_kernel)
  else (user ++ [ip], kernel, in_kernel).

(** [for _ in 0..nr]: the addresses read, the rest, and whether the record had
    them all.  Every turn takes eight bytes, so the length is fuel enough. *)
Fixpoint read_ips (fuel : nat) (nr : Z) (c : Cur) : list Z * Cur * bool :=
  if bool_decide (nr <= 0) then ([], c, true) else
  match fuel with
  | O => ([], c, false)
  | S fuel =>
      match read_u64 c with
      | (Some ip, c) => let '(ips, c, all) := read_ips fuel (nr - 1) c in (ip :: ips, c, all)
      | (None, c) => ([], c, false)
      end
  end.

Definition ips (nr : Z) (c : Cur) : list Z * Cur * bool := read_ips (length c) nr c.

Definition callchain (ips : list Z) : list Z * list Z :=
  let '(user, kernel, _) := foldl push_ip ([], [], false) ips in (user, kernel).

(** ** Records in a buffer *)

(** The loop of [drain_dispatch]: type, misc and body of each complete record.
    A record takes eight bytes at least. *)
Fixpoint split_records (fuel : nat) (scratch : list Z) : list (Z * Z * list Z) :=
  match fuel with
  | O => []
  | S fuel =>
      if bool_decide (length scratch < 8)%nat then [] else
      let ty := from_le (slice 0 4 scratch) in
      let misc := from_le (slice 4 6 scratch) in
      let size := Z.to_nat (from_le (slice 6 8 scratch)) in
      if bool_decide (size < 8 \/ length scratch < size)%nat then [] else
      (ty, misc, slice 8 size scratch) :: split_records fuel (drop size scratch)
  end.

Definition records (scratch : list Z) : list (Z * Z * list Z) := split_records (length scratch) scratch.

(** ** The ring *)

Record PerfRing := mkPerfRing { r_kind : PerfRingKind; r_data : list Z; r_tail : Z }.

#[export] Instance eta_PerfRing : Eta PerfRing := fun r => mkPerfRing (r_kind r) (r_data r) (r_tail r).

(** The copy of one record, in two parts when it crosses the end. *)
Definition ring_slice (data : list Z) (start rec_size : nat) : list Z :=
  let end_ := (start + rec_size)%nat in
  if bool_decide (end_ <= length data)%nat then slice start end_ data
  else slice start (length data) data ++ slice 0 (rec_size - (length data - start)) data.

(** The loop of [drain], from [tail] to [head]. *)
Fixpoint drain_from (fuel : nat) (data : list Z) (tail head : Z) : list Z :=
  match fuel with
  | O => []
  | S fuel =>
      if bool_decide (head <= tail) then [] else
      let off := Z.to_nat (tail mod Z.of_nat (length data)) in
      let rec_size := from_le (slice (off + 6) (off + 8) data) in
      if bool_decide (rec_size = 0) then [] else
      ring_slice data off (Z.to_nat rec_size) ++ drain_from fuel data (tail + rec_size) head
  end.

(** [PerfRing::drain] when the kernel has written up to [head]: the bytes handed
    out, and the ring. *)
Definition drain (head : Z) (r : PerfRing) : list Z * PerfRing :=
  if bool_decide (head = r_tail r) then ([], r) else
  (drain_from (Z.to_nat (head - r_tail r)) (r_data r) (r_tail r) head, r <| r_tail := head |>).

(** ** Reading what was written *)

Lemma read_le_app n l c : length l = n -> read_le n (l ++ c) = (Some (from_le l), c).
Proof.
  intros Hl. unfold read_le. rewrite length_app, bool_decide_true by lia. subst n.
  by rewrite take_app_length, drop_app_length.
Qed.

Lemma read_u32_le v c : is_u32 v -> read_u32 (to_le 4 v ++ c) = (Some v, c).
Proof.
  intros Hv. unfold read_u32. rewrite read_le_app by apply Jitdump.to_le_length.
  by rewrite Jitdump.from_to_le by (revert Hv; width; cbn; lia).
Qed.

Lemma read_u64_le v c : is_u64 v -> read_u64 (to_le 8 v ++ c) = (Some v, c).
Proof.
  intros Hv. unfold read_u64. rewrite read_le_app by apply Jitdump.to_le_length.
  by rewrite Jitdump.from_to_le by (revert Hv; width; cbn; lia).
Qed.

Definition ips_bytes (l : list Z) : list Z := l ≫= to_le 8.

Lemma ips_bytes_length l : length (ips_bytes l) = (8 * length l)%nat.
Proof.
  unfold ips_bytes. induction l as [|x l IH]; [done|]. rewrite bind_cons, length_app, Jitdump.to_le_length, IH.
  cbn [length]. lia.
Qed.

Lemma read_ips_bytes fuel l c :
  Forall is_u64 l -> (length l <= fuel)%nat ->
  read_ips fuel (Z.of_nat (length l)) (ips_bytes l ++ c) = (l, c, true).
Proof.
  intros Hl. revert fuel. induction Hl as [|x l Hx Hl IH]; intros fuel Hf.
  - destruct fuel; done.
  - destruct fuel as [|fuel]; [cbn in Hf; lia|]. cbn [read_ips length].
    rewrite bool_decide_false by lia. unfold ips_bytes. rewrite bind_cons, <- app_assoc, read_u64_le by done.
    fold (ips_bytes l). rewrite Nat2Z.inj_succ. replace (Z.succ (Z.of_nat (length l)) - 1) with (Z.of_nat (length l)) by lia.
    by rewrite IH by (cbn in Hf; lia).
Qed.

Lemma ips_written l c : Forall is_u64 l -> ips (Z.of_nat (length l)) (ips_bytes l ++ c) = (l, c, true).
Proof.
  intros Hl. apply read_ips_bytes; [done|]. rewrite length_app, ips_bytes_length. lia.
Qed.

(** A chain as the kernel writes it: kernel frames behind their marker, then user
    frames behind theirs. *)
Lemma callchain_marked kernel user :
  Forall (fun ip => ip < PERF_CONTEXT_MAX) kernel -> Forall (fun ip => ip < PERF_CONTEXT_MAX) user ->
  callchain (PERF_CONTEXT_KERNEL :: kernel ++ PERF_CONTEXT_USER :: user) = (user, kernel).
Proof.
  intros Hk Hu. unfold callchain. cbn [foldl]. rewrite foldl_app. cbn [foldl].
  assert (forall l u k b, Forall (fun ip => ip < PERF_CONTEXT_MAX) l ->
    foldl push_ip (u, k, b) l = if b then (u, k ++ l, b) else (u ++ l, k, b)) as Hf.
  { intros l u k b Hl. revert u k. induction Hl as [|ip l Hip Hl IH]; intros u k; [by rewrite !app_nil_r; destruct b|].
    cbn [foldl]. unfold push_ip at 2. rewrite bool_decide_false by lia.
    destruct b; rewrite IH; by rewrite <- app_assoc. }
  change (push_ip ([], [], false) PERF_CONTEXT_KERNEL) with (@nil Z, @nil Z, true).
  rewrite Hf by done. change (push_ip ([], [] ++ kernel, true) PERF_CONTEXT_USER) with (@nil Z, [] ++ kernel, false).
  by rewrite Hf.
Qed.

(** ** Records *)

Definition record_bytes (r : Z * Z * list Z) : list Z :=
  to_le 4 r.1.1 ++ to_le 2 r.1.2 ++ to_le 2 (8 + Z.of_nat (length r.2)) ++ r.2.

Definition record_ok (r : Z * Z * list Z) : Prop :=
  0 <= r.1.1 < 2 ^ 32 /\ 0 <= r.1.2 < 2 ^ 16 /\ 8 + Z.of_nat (length r.2) < 2 ^ 16.

Lemma record_bytes_length r : length (record_bytes r) = (8 + length r.2)%nat.
Proof. unfold record_bytes. rewrite !length_app, !Jitdump.to_le_length. lia. Qed.

(** The fields of the header. *)
Lemma record_header r c :
  record_ok r ->
  from_le (slice 0 4 (record_bytes r ++ c)) = r.1.1 /\ from_le (slice 4 6 (record_bytes r ++ c)) = r.1.2 /\
  from_le (slice 6 8 (record_bytes r ++ c)) = 8 + Z.of_nat (length r.2).
Proof.
  intros (H1 & H2 & H3). unfold record_bytes, slice. rewrite <- !app_assoc. split_ands.
  - rewrite drop_0, take_app_length' by (by rewrite Jitdump.to_le_length). apply Jitdump.from_to_le. cbn. lia.
  - rewrite drop_app_length' by (by rewrite Jitdump.to_le_length).
    rewrite take_app_length' by (by rewrite Jitdump.to_le_length). apply Jitdump.from_to_le. cbn. lia.
  - rewrite (app_assoc (to_le 4 _)), drop_app_length' by (rewrite length_app, !Jitdump.to_le_length; lia).
    rewrite take_app_length' by (by rewrite Jitdump.to_le_length). apply Jitdump.from_to_le. cbn. lia.
Qed.

Lemma split_records_written fuel rs :
  Forall record_ok rs -> (length (rs ≫= record_bytes) <= fuel)%nat -> split_records fuel (rs ≫= record_bytes) = rs.
Proof.
  intros Hr. revert fuel. induction Hr as [|r rs Hr Hrs IH]; intros fuel Hf; [by destruct fuel|].
  rewrite bind_cons, length_app, record_bytes_length in Hf. destruct fuel as [|fuel]; [lia|].
  rewrite bind_cons. cbn [split_records].
  rewrite length_app, record_bytes_length, bool_decide_false by lia.
  destruct (record_header r (rs ≫= record_bytes) Hr) as (-> & -> & ->).
  replace (Z.to_nat (8 + Z.of_nat (length r.2))) with (8 + length r.2)%nat by lia.
  rewrite bool_decide_false by lia. rewrite drop_app_length' by (by rewrite record_bytes_length).
  rewrite IH by lia. destruct r as [[ty misc] body]. f_equal. f_equal.
  unfold slice. cbn [fst snd]. replace (8 + length body - 8)%nat with (length body) by lia.
  unfold record_bytes. rewrite !app_assoc. rewrite <- (app_assoc _ body).
  rewrite drop_app_length' by (rewrite !length_app, !Jitdump.to_le_length; lia). by rewrite take_app_length.
Qed.

Lemma records_written rs : Forall record_ok rs -> records (rs ≫= record_bytes) = rs.
Proof. intros H. by apply split_records_written. Qed.

(** ** The ring *)

(** The [n] bytes of the ring from position [p] on, wrapping around. *)
Definition window (data : list Z) (p : Z) (n : nat) : list Z :=
  map (fun i => data !!! Z.to_nat ((p + Z.of_nat i) mod Z.of_nat (length data))) (seq 0 n).

Lemma window_length data p n : length (window data p n) = n.
Proof. unfold window. by rewrite length_map, length_seq. Qed.

Lemma window_app data p n m : window data p (n + m) = window data p n ++ window data (p + Z.of_nat n) m.
Proof.
  unfold window. rewrite seq_app, map_app. f_equal. rewrite Nat.add_0_l.
  replace (seq n m) with (seq (n + 0) m) by (f_equal; lia). rewrite <- fmap_add_seq. rewrite map_map. apply map_ext.
  intros i. do 3 f_equal. lia.
Qed.

Lemma ring_slice_window data p n :
  0 <= p -> (0 < length data)%nat -> (n <= length data)%nat ->
  ring_slice data (Z.to_nat (p mod Z.of_nat (length data))) n = window data p n.
Proof.
  intros Hp Hl Hn. set (L := Z.of_nat (length data)). pose proof (Z.mod_pos_bound p L ltac:(lia)) as Ho.
  set (off := Z.to_nat (p mod L)).
  assert (forall x, (Z.to_nat (x mod L) < length data)%nat) as Hin.
  { intros x. pose proof (Z.mod_pos_bound x L ltac:(lia)). unfold L in *. lia. }
  assert (forall i, (i < n)%nat -> window data p n !! i = data !! (if decide (off + i < length data)%nat
            then off + i else off + i - length data)%nat) as Hw.
  { intros i Hi. unfold window. rewrite list_lookup_fmap, lookup_seq_lt by done. cbn [fmap option_fmap option_map].
    rewrite Nat.add_0_l. fold L. rewrite <- list_lookup_lookup_total_lt by apply Hin.
    f_equal. fold L. rewrite <- Z.add_mod_idemp_l by lia. case_decide as E.
    - rewrite Z.mod_small by (unfold off, L in *; lia). lia.
    - rewrite <- (Z_mod_plus_full _ (-1)), Z.mod_small by (unfold off, L in *; lia). unfold off, L in *. lia. }
  apply list_eq_same_length with n; [by rewrite window_length| |].
  - unfold ring_slice. fold off. case_bool_decide; unfold slice; rewrite ?length_app, ?length_take, ?length_drop; lia.
  - intros i x y Hi Hx Hy. rewrite Hw in Hy by done. unfold ring_slice in Hx. fold off in Hx.
    case_bool_decide as E; unfold slice in Hx.
    + rewrite lookup_take, decide_True, lookup_drop in Hx by lia. rewrite decide_True in Hy by lia. congruence.
    + rewrite take_ge in Hx by (rewrite length_drop; lia). rewrite lookup_app, drop_0 in Hx. rewrite lookup_drop in Hx.
      case_decide as E2.
      * rewrite Hy in Hx. congruence.
      * rewrite lookup_ge_None_2 in Hx by lia. rewrite length_drop, Nat.sub_0_r in Hx.
        rewrite lookup_take, decide_True in Hx by lia.
        replace (i - (length data - off))%nat with (off + i - length data)%nat in Hx by lia. congruence.
Qed.

(** An aligned header does not straddle the end. *)
Lemma aligned_room (data : list Z) tail :
  (0 < length data)%nat -> (length data mod 8 = 0)%nat -> 0 <= tail -> tail mod 8 = 0 ->
  (Z.to_nat (tail mod Z.of_nat (length data)) + 8 <= length data)%nat.
Proof.
  intros Hl Hl8 Ht Ht8. apply Nat.Div0.div_exact in Hl8. set (k := (length data / 8)%nat) in *.
  apply Z.div_exact in Ht8; [|lia]. set (t := tail / 8) in *.
  assert (tail mod Z.of_nat (length data) = 8 * (t mod Z.of_nat k)) as ->.
  { rewrite Ht8, Hl8, Nat2Z.inj_mul. change (Z.of_nat 8) with 8. apply Z.mul_mod_distr_l; lia. }
  pose proof (Z.mod_pos_bound t (Z.of_nat k) ltac:(lia)). lia.
Qed.

Lemma ring_header data tail (r : Z * Z * list Z) :
  (0 < length data)%nat -> (length data mod 8 = 0)%nat -> 0 <= tail -> tail mod 8 = 0 -> record_ok r ->
  window data tail (8 + length r.2) = record_bytes r ->
  let off := Z.to_nat (tail mod Z.of_nat (length data)) in
  from_le (slice (off + 6) (off + 8) data) = 8 + Z.of_nat (length r.2).
Proof.
  intros Hl Hl8 Ht Ht8 Hr Hw off. pose proof (aligned_room data tail Hl Hl8 Ht Ht8) as Hroom. fold off in Hroom.
  destruct (record_header r [] Hr) as (_ & _ & <-). rewrite app_nil_r, <- Hw, window_app.
  rewrite <- (ring_slice_window data tail 8) by lia. fold off. unfold ring_slice. rewrite bool_decide_true by lia.
  f_equal. unfold slice. replace (off + 8 - off)%nat with 8%nat by lia. replace (off + 8 - (off + 6))%nat with 2%nat by lia.
  assert (length (take 8 (drop off data)) = 8%nat) as H8 by (rewrite length_take, length_drop; lia).
  rewrite drop_app_le by lia. rewrite take_app_le by (rewrite length_drop; lia).
  rewrite skipn_firstn_comm, drop_drop, take_take. done.
Qed.

(** The records the kernel has written into a ring and that are still there come
    out of a drain whole and in order, wherever they wrap around the end.  perf
    keeps records and ring a multiple of eight bytes. *)
Lemma drain_from_written data (rs : list (Z * Z * list Z)) : forall tail fuel,
  (0 < length data)%nat -> (length data mod 8 = 0)%nat -> 0 <= tail -> tail mod 8 = 0 ->
  Forall record_ok rs -> Forall (fun r => length r.2 mod 8 = 0)%nat rs ->
  (length (rs ≫= record_bytes) <= length data)%nat -> (length (rs ≫= record_bytes) <= fuel)%nat ->
  window data tail (length (rs ≫= record_bytes)) = rs ≫= record_bytes ->
  drain_from fuel data tail (tail + Z.of_nat (length (rs ≫= record_bytes))) = rs ≫= record_bytes.
Proof.
  induction rs as [|r rs IH]; intros tail fuel Hl Hl8 Ht Ht8 Hr Hr8 Hfit Hfuel Hw.
  - cbn. destruct fuel; [done|]. cbn. by rewrite bool_decide_true by lia.
  - apply Forall_cons in Hr as [Hr Hrs]. apply Forall_cons in Hr8 as [Hr8 Hrs8].
    rewrite bind_cons, length_app, record_bytes_length in Hfit, Hfuel, Hw |- *.
    rewrite window_app in Hw. apply app_inj_1 in Hw as [Hw1 Hw2];
      [|by rewrite window_length, record_bytes_length].
    destruct fuel as [|fuel]; [lia|]. cbn [drain_from]. rewrite bool_decide_false by lia.
    rewrite (ring_header data tail r) by done. rewrite bool_decide_false by lia.
    rewrite ring_slice_window by lia. replace (Z.to_nat (8 + Z.of_nat (length r.2))) with (8 + length r.2)%nat by lia.
    rewrite Hw1. f_equal.
    replace (tail + Z.of_nat (8 + length r.2 + length (rs ≫= record_bytes)))
      with (tail + (8 + Z.of_nat (length r.2)) + Z.of_nat (length (rs ≫= record_bytes))) by lia.
    apply IH; try done; try lia.
    + apply Z.mod_divide in Ht8; [|done]. apply Nat.Div0.mod_divides in Hr8 as [k Hk]. destruct Ht8 as [j Hj].
      rewrite Hj, Hk. replace (j * 8 + (8 + Z.of_nat (8 * k))) with ((j + 1 + Z.of_nat k) * 8) by lia. apply Z_mod_mult.
    + rewrite <- Hw2 at 2. f_equal. lia.
Qed.

(** C24. What the kernel writes into a ring is what the session handles: the
    records pending in a ring, wherever they wrap around its end, are drained
    and split into exactly those records, in order, and the ring is then
    empty. *)
Theorem ring_delivers r rs :
  (0 < length (r_data r))%nat -> (length (r_data r) mod 8 = 0)%nat -> 0 <= r_tail r -> r_tail r mod 8 = 0 ->
  Forall record_ok rs -> Forall (fun x => length x.2 mod 8 = 0)%nat rs ->
  (length (rs ≫= record_bytes) <= length (r_data r))%nat ->
  window (r_data r) (r_tail r) (length (rs ≫= record_bytes)) = rs ≫= record_bytes ->
  let head := r_tail r + Z.of_nat (length (rs ≫= record_bytes)) in
  let '(out, r') := drain head r in
  records out = rs /\ r_tail r' = head /\ drain head r' = ([], r').
Proof.
  intros Hl Hl8 Ht Ht8 Hr Hr8 Hfit Hw head. unfold drain. case_bool_decide as E.
  - destruct rs as [|x rs]; [split; [done|]; split; [done|]; by rewrite bool_decide_true|]. unfold head in E. rewrite bind_cons, length_app, record_bytes_length in E. lia.
  - unfold head at 1 2. rewrite drain_from_written by (done || lia).
    rewrite records_written by done. split; [done|]. split; [done|]. by rewrite bool_decide_true.
Qed.

(** A ring of 16 bytes with a record that wraps around its end. *)
Lemma ring_delivers_witness :
  let r := mkPerfRing Switch (to_le 8 7 ++ record_bytes (14, 8192, [])) 24 in
  let r' := mkPerfRing Switch (to_le 8 0x1122334455667788 ++ to_le 4 9 ++ to_le 2 0 ++ to_le 2 16) 24 in
  records (drain 32 r).1 = [(14, 8192, [])] /\ records (drain 40 r').1 = [(9, 0, to_le 8 0x1122334455667788)].
Proof.
  split.
  - refine (proj1 (ring_delivers (mkPerfRing Switch (to_le 8 7 ++ record_bytes (14, 8192, [])) 24) [(14, 8192, [])]
      _ _ _ _ _ _ _ _)); try (repeat constructor; vm_compute; congruence); try done; vm_compute; reflexivity || lia.
  - refine (proj1 (ring_delivers (mkPerfRing Switch (to_le 8 0x1122334455667788 ++ to_le 4 9 ++ to_le 2 0 ++ to_le 2 16) 24)
      [(9, 0, to_le 8 0x1122334455667788)] _ _ _ _ _ _ _ _)); try (repeat constructor; vm_compute; congruence); try done;
      vm_compute; reflexivity || lia.
Defined.

End Perf.
