(* ===== verification/Proc.v ===== *)
(** * What the Linux back end reads of the system's text files

    [stax-linux-capture/src/proc.rs] (the mappings and threads of a running
    process), [parse_kallsyms_names] and [wchan_addr] of [session.rs], and the
    tracepoint format of [sys.rs].  The contents of the files are arguments. *)

From S2P Require Import Prelude Text JitImages.

Module Proc.
Import Text.

(** ** [/proc/<pid>/maps] *)

(** A byte of the permissions: they are text, of which the byte at index 2 is
    read. *)
Definition is_exec (perms : list Z) : bool := bool_decide (as_bytes perms !! 2%nat = Some 120).

(** [join] with one space between the words. *)
Fixpoint join (words : list (list Z)) : list Z :=
  match words with
  | [] => []
  | [w] => w
  | w :: words => w ++ 32 :: join words
  end.

Definition parse_mapping (line : list Z) : option (Z * Z * Z * list Z) :=
  match split_whitespace line with
  | range :: perms :: rest =>
      if negb (is_exec perms) then None else
      let offset := default (str "0") (head rest) in
      let path := join (drop 3 rest) in
      '(s, e) ← split_once (fun c => bool_decide (c = 45)) range;
      a ← u64_from_hex s;
      b ← u64_from_hex e;
      o ← u64_from_hex offset;
      if bool_decide (a < b) then Some (a, b, o, path) else None
  | _ => None
  end.

(** The text is [None] when the file cannot be read as text. *)
Definition exec_mappings (maps : option (list Z)) : list (Z * Z * Z * list Z) :=
  match maps with
  | Some text => omap parse_mapping (lines text)
  | None => []
  end.

Record MapRegion := mkMapRegion { base_avma : Z; vmsize : Z; pgoff : Z; path : list Z }.

Definition file_backed (path : list Z) : bool :=
  negb (bool_decide (path = []) || starts_with (str "[") path || bool_decide (path = str "//anon"))
  && negb (JitImages.is_jit_mapping path).

Definition maps (text : option (list Z)) : list MapRegion :=
  omap (fun '(start, end_, pgoff, path) =>
          if file_backed path then Some (mkMapRegion start (end_ - start) pgoff path) else None)
    (exec_mappings text).

Definition jit_maps (text : option (list Z)) : list (Z * Z) :=
  omap (fun '(start, end_, _, path) => if JitImages.is_jit_mapping path then Some (start, end_) else None)
    (exec_mappings text).

(** ** [/proc/<pid>/task] *)

Fixpoint dec_fold (limit acc : Z) (s : list Z) : option Z :=
  match s with
  | [] => Some acc
  | c :: s' =>
      if between 48 57 c then
        let acc' := acc * 10 + (c - 48) in
        if bool_decide (acc' <= limit) then dec_fold limit acc' s' else None
      else None
  end.

(** [s.parse::<u32>().ok()] *)
Definition u32_from_dec (s : list Z) : option Z :=
  match s with
  | [] => None
  | c :: s' => if bool_decide (c = 43) then (if bool_decide (s' = []) then None else dec_fold u32_max 0 s')
               else dec_fold u32_max 0 s
  end.

Definition trim_end (s : list Z) : list Z := reverse (trim_start (reverse s)).

(** The entries of the directory, each with the text of its [comm]. *)
Definition threads (task : list (list Z * option (list Z))) : list (Z * list Z) :=
  omap (fun '(name, comm) =>
          tid ← u32_from_dec name;
          let comm := trim_end (default [] comm) in
          if bool_decide (comm = []) then None else Some (tid, comm)) task.

(** ** [/proc/kallsyms] *)

Definition kernel_text_kind (kind : list Z) : bool :=
  bool_decide (kind = str "t") || bool_decide (kind = str "T")
  || bool_decide (kind = str "w") || bool_decide (kind = str "W").

Definition parse_kallsyms_name (line : list Z) : option (list Z * Z) :=
  match split_whitespace line with
  | addr :: kind :: name :: _ =>
      if negb (kernel_text_kind kind) then None else
      a ← u64_from_hex addr;
      if bool_decide (0xffff000000000000 <= a) then Some (name, a) else None
  | _ => None
  end.

(** [map.entry(name).or_insert(a)] *)
Definition or_insert (m : gmap (list Z) Z) (e : list Z * Z) : gmap (list Z) Z :=
  match m !! e.1 with Some _ => m | None => <[e.1 := e.2]> m end.

Definition parse_kallsyms_names (bytes : list Z) : gmap (list Z) Z :=
  match from_utf8 bytes with
  | None => ∅
  | Some text => foldl or_insert ∅ (omap parse_kallsyms_name (lines text))
  end.

(** [wchan_addr]: the wait channel's text, when it can be read. *)
Definition wchan_addr (wchan : option (list Z)) (kallsyms : gmap (list Z) Z) : option Z :=
  s ← wchan;
  let name := trim s in
  if bool_decide (name = []) || bool_decide (name = str "0") then None else kallsyms !! name.

(** ** The format of [sched_waking] *)

(** [split([';', '\t'])] *)
Fixpoint split_from (f : Z -> bool) (cur : list Z) (s : list Z) : list (list Z) :=
  match s with
  | [] => [reverse cur]
  | c :: s => if f c then reverse cur :: split_from f [] s else split_from f (c :: cur) s
  end.

Definition split (f : Z -> bool) (s : list Z) : list (list Z) := split_from f [] s.

Definition semicolon_or_tab (c : Z) : bool := bool_decide (c = 59) || bool_decide (c = 9).

Definition parts_of (line : list Z) : list (list Z) :=
  filter (fun s => s <> []) (map trim (split semicolon_or_tab line)).

(** The loop over the parts: the last [offset:] and [size:], whether or not they
    are numbers. *)
Definition read_part (acc : option Z * option Z) (p : list Z) : option Z * option Z :=
  match strip_prefix (str "offset:") p with
  | Some v => (u32_from_dec v, acc.2)
  | None => match strip_prefix (str "size:") p with
            | Some v => (acc.1, u32_from_dec v)
            | None => acc
            end
  end.

(** The name a declaration ends with, without its array bounds. *)
Definition field_name (decl : list Z) : option (list Z) :=
  raw ← last (split_whitespace decl);
  head (split (fun c => bool_decide (c = 91)) raw).

(** What a line says: go on with the next line ([None]), or the answer. *)
Definition read_line (line : list Z) : option (option (Z * Z)) :=
  let line := trim line in
  if negb (starts_with (str "field:") line) then None else
  let parts := parts_of line in
  match head parts ≫= field_name with
  | None => Some None
  | Some name =>
      if bool_decide (name <> str "pid") then None else
      match foldl read_part (None, None) parts with
      | (Some o, Some s) => Some (Some (o, s))
      | _ => None
      end
  end.

Fixpoint first_answer (ls : list (list Z)) : option (Z * Z) :=
  match ls with
  | [] => None
  | l :: ls => match read_line l with Some r => r | None => first_answer ls end
  end.

Definition parse_waking_format (s : list Z) : option (Z * Z) := first_answer (lines s).

(** The unit test of [sys.rs]. *)
Example format_parsed :
  parse_waking_format
    (str "name: sched_waking" ++ [10] ++ str "ID: 336" ++ [10] ++ str "format:" ++ [10; 9]
     ++ str "field:unsigned short common_type;" ++ [9] ++ str "offset:0;" ++ [9] ++ str "size:2;" ++ [9] ++ str "signed:0;" ++ [10; 9]
     ++ str "field:int common_pid;" ++ [9] ++ str "offset:4;" ++ [9] ++ str "size:4;" ++ [9] ++ str "signed:1;" ++ [10; 10; 9]
     ++ str "field:char comm[16];" ++ [9] ++ str "offset:8;" ++ [9] ++ str "size:16;" ++ [9] ++ str "signed:0;" ++ [10; 9]
     ++ str "field:pid_t pid;" ++ [9] ++ str "offset:24;" ++ [9] ++ str "size:4;" ++ [9] ++ str "signed:1;" ++ [10])
  = Some (24, 4).
Proof. vm_compute. reflexivity. Qed.

(** ** Mappings read back *)

(** A line as the kernel prints it, with the fields the reader skips. *)
Record mapping := mkMapping {
  m_start : Z; m_end : Z; m_perms : list Z; m_offset : Z; m_dev : list Z; m_inode : list Z;
  m_words : list (list Z)      (* the words of the path *)
}.

Definition word_ok (w : list Z) : Prop :=
  w <> [] /\ Forall (fun c => is_whitespace c = false /\ is_scalar c) w.

Definition mapping_ok (m : mapping) : Prop :=
  is_u64 (m_start m) /\ is_u64 (m_end m) /\ m_start m < m_end m /\ is_u64 (m_offset m) /\
  word_ok (m_perms m) /\ word_ok (m_dev m) /\ word_ok (m_inode m) /\ Forall word_ok (m_words m).

Definition mapping_line (m : mapping) : list Z :=
  join ((to_hex (m_start m) ++ 45 :: to_hex (m_end m)) :: m_perms m :: to_hex (m_offset m) :: m_dev m
          :: m_inode m :: m_words m).

Definition maps_text (ms : list mapping) : list Z := ms ≫= fun m => mapping_line m ++ [NEWLINE].

(** What the reader makes of it. *)
Definition seen_mapping (m : mapping) : option (Z * Z * Z * list Z) :=
  if is_exec (m_perms m) then Some (m_start m, m_end m, m_offset m, join (m_words m)) else None.

Lemma to_hex_word n : is_u64 n -> word_ok (to_hex n).
Proof.
  intros Hn. split; [apply to_hex_nonempty|]. apply Forall_forall. intros c Hc.
  destruct (to_hex_range n c (proj1 Hn) Hc); (split; [apply hex_not_space; lia|left; lia]).
Qed.

Lemma split_join (ws : list (list Z)) : Forall word_ok ws -> split_whitespace (join ws) = ws.
Proof.
  induction 1 as [|w ws [Hne Hw] Hws IH]; [done|].
  assert (Forall (fun c => is_whitespace c = false) w) as Hsp by (eapply Forall_impl; [exact Hw|by intros ? [? _]]).
  destruct ws as [|w' ws]; [by apply split_whitespace_last|].
  change (join (w :: w' :: ws)) with (w ++ 32 :: join (w' :: ws)).
  by rewrite split_whitespace_word, IH.
Qed.

Lemma join_chars (P : Z -> Prop) ws : P 32 -> Forall (fun w => Forall P w) ws -> Forall P (join ws).
Proof.
  intros Hsp. induction 1 as [|w [|w' ws] Hw Hws IH]; [constructor|done|].
  change (join (w :: w' :: ws)) with (w ++ 32 :: join (w' :: ws)). apply Forall_app. split; [done|by constructor].
Qed.

Lemma range_word m : mapping_ok m -> word_ok (to_hex (m_start m) ++ 45 :: to_hex (m_end m)).
Proof.
  intros (Hs & He & _). split; [by destruct (to_hex (m_start m))|].
  apply Forall_app. split; [by apply to_hex_word|]. constructor; [|by apply to_hex_word].
  split; [by vm_compute|left; lia].
Qed.

Lemma line_words m : mapping_ok m ->
  Forall word_ok ((to_hex (m_start m) ++ 45 :: to_hex (m_end m)) :: m_perms m :: to_hex (m_offset m) :: m_dev m
          :: m_inode m :: m_words m).
Proof.
  intros Hm. pose proof (range_word m Hm). destruct Hm as (Hs & He & _ & Ho & Hp & Hd & Hi & Hw).
  rewrite !Forall_cons. split_ands; by try apply to_hex_word.
Qed.

Lemma parse_mapping_line m : mapping_ok m -> parse_mapping (mapping_line m) = seen_mapping m.
Proof.
  intros Hm. unfold parse_mapping, mapping_line. rewrite split_join by (by apply line_words).
  destruct Hm as (Hs & He & Hlt & Ho & _). unfold seen_mapping. destruct (is_exec (m_perms m)); [|done].
  cbn [negb head default drop].
  rewrite (split_once_first _ (to_hex (m_start m)) 45 (to_hex (m_end m))).
  - cbn [mbind option_bind from_option]. rewrite !u64_from_to_hex by done. cbn [mbind option_bind from_option id].
    rewrite u64_from_to_hex by done. cbn [mbind option_bind]. by rewrite bool_decide_eq_true_2, drop_0.
  - apply Forall_forall. intros c Hc. apply bool_decide_eq_false.
    destruct (to_hex_range _ c (proj1 Hs) Hc); lia.
  - by apply bool_decide_eq_true.
Qed.

Lemma word_chars w : word_ok w -> Forall (fun c => c <> NEWLINE /\ c <> 13) w.
Proof.
  intros [_ H]. eapply Forall_impl; [exact H|]. intros c [Hc _]. split; intros ->; by vm_compute in Hc.
Qed.

Lemma mapping_line_plain m : mapping_ok m -> Forall (fun c => c <> NEWLINE /\ c <> 13) (mapping_line m).
Proof.
  intros Hm. apply join_chars; [done|]. eapply Forall_impl; [by apply line_words|apply word_chars].
Qed.

(** The executable mappings read from [/proc/<pid>/maps] are exactly those
    the kernel prints, with their range, file offset and path; paths are
    understood as their words with one space in between. *)
Theorem maps_roundtrip ms :
  Forall mapping_ok ms -> exec_mappings (Some (maps_text ms)) = omap seen_mapping ms.
Proof.
  induction 1 as [|m ms Hm _ IH]; [done|]. cbn [exec_mappings] in IH |- *. unfold maps_text. rewrite bind_cons.
  fold (maps_text ms). rewrite <- app_assoc. cbn [app].
  pose proof (mapping_line_plain m Hm) as Hp.
  rewrite lines_line.
  - cbn [omap list_omap]. rewrite parse_mapping_line by done. by rewrite IH.
  - eapply Forall_impl; [exact Hp|]. by intros c [? _].
  - intros Hl. apply last_Some_elem_of in Hl. eapply Forall_forall in Hp; [|exact Hl]. by destruct Hp.
Qed.

Definition demo_maps : list mapping :=
  [mkMapping 0x55d0c0000000 0x55d0c0001000 (str "r--p") 0 (str "fd:01") (str "1234") [str "/opt/My"; str "App"];
   mkMapping 0x55d0c0001000 0x55d0c0005000 (str "r-xp") 0x1000 (str "fd:01") (str "1234") [str "/opt/My"; str "App"];
   mkMapping 0x7f0000000000 0x7f0000010000 (str "rwxp") 0 (str "00:00") (str "0") []].

#[local] Instance mapping_ok_dec m : Decision (mapping_ok m).
Proof. unfold mapping_ok, word_ok, is_u64, is_scalar. apply _. Defined.

Lemma demo_maps_ok : Forall mapping_ok demo_maps.
Proof. apply (bool_decide_unpack _). by vm_compute. Qed.

Lemma maps_roundtrip_witness :
  exec_mappings (Some (str "55d0c0000000-55d0c0001000 r--p 0 fd:01 1234 /opt/My App" ++ [10] ++
    str "55d0c0001000-55d0c0005000 r-xp 1000 fd:01 1234 /opt/My App" ++ [10] ++
    str "7f0000000000-7f0000010000 rwxp 0 00:00 0" ++ [10])) =
  [(0x55d0c0001000, 0x55d0c0005000, 0x1000, str "/opt/My App"); (0x7f0000000000, 0x7f0000010000, 0, [])].
Proof. exact (eq_trans (maps_roundtrip demo_maps demo_maps_ok) ltac:(vm_compute; reflexivity)). Defined.

(** A path with two spaces in a row is not read back. *)
Example double_space_lost :
  maps (Some (str "1000-2000 r-xp 0 fd:01 7 /opt/a  b" ++ [10])) = [mkMapRegion 0x1000 0x1000 0 (str "/opt/a b")].
Proof. vm_compute. reflexivity. Qed.

(** ** Names of kernel functions *)

(** The first function listed under a name has it. *)
Lemma or_insert_all l m name :
  foldl or_insert m l !! name = match m !! name with
                                | Some a => Some a
                                | None => snd <$> head (filter (fun e => e.1 = name) l)
                                end.
Proof.
  revert m. induction l as [|e l IH]; intros m; cbn [foldl]; [by destruct (m !! name)|].
  rewrite IH. unfold or_insert. destruct (m !! e.1) eqn:E.
  - destruct (decide (e.1 = name)) as [<-|Hne].
    + by rewrite E.
    + by rewrite filter_cons_False.
  - destruct (decide (e.1 = name)) as [<-|Hne].
    + by rewrite lookup_insert_eq, E, filter_cons_True.
    + by rewrite lookup_insert_ne, filter_cons_False.
Qed.

(** A wait channel resolves to the first kernel function of that name. *)
Lemma wchan_addr_first text ks name :
  from_utf8 ks = Some text -> trim name = name -> name <> [] -> name <> str "0" ->
  wchan_addr (Some (name ++ [NEWLINE])) (parse_kallsyms_names ks) =
  snd <$> head (filter (fun e => e.1 = name) (omap parse_kallsyms_name (lines text))).
Proof.
  intros Hu Ht Hn Hz. unfold wchan_addr, parse_kallsyms_names. rewrite Hu. cbn [mbind option_bind].
  assert (trim (name ++ [NEWLINE]) = name) as ->.
  { unfold trim in Ht |- *. destruct name as [|c name]; [done|]. cbn [app] in *.
    cbn [trim_start] in Ht |- *. destruct (is_whitespace c) eqn:E.
    - exfalso. assert (length (reverse (trim_start (reverse (trim_start name)))) <= length name)%nat as Hl.
      { rewrite length_reverse. assert (forall s, length (trim_start s) <= length s)%nat as Hts.
        { induction s as [|x s IH]; cbn; [lia|]. destruct (is_whitespace x); cbn; lia. }
        pose proof (Hts (reverse (trim_start name))). rewrite length_reverse in *. pose proof (Hts name). lia. }
      rewrite Ht in Hl. cbn in Hl. lia.
    - change (c :: name ++ [NEWLINE]) with ((c :: name) ++ [NEWLINE]). rewrite reverse_app. cbn [reverse]. exact Ht. }
  rewrite !bool_decide_eq_false_2 by done. cbn [orb]. rewrite or_insert_all. by rewrite lookup_empty.
Qed.

End Proc.
