(* ===== verification/LinuxSession.v ===== *)
(** * The Linux capture session

    [stax-linux-capture/src/session.rs] with [JitTracker] of [jit.rs]: the
    records of the perf rings drive the sample sink.  What the session reads from
    the system at one moment is a [World]; the object-file parser and the
    unwinder are arguments. *)

From S2P Require Import Prelude Sink Text BTree JitImages PerfMap Jitdump Elf Dwarf Perf Proc.

Module LinuxSession.

Export Sink.
Import Text Perf.

#[local] Existing Instance Elf.eta_ElfImage.
#[local] Existing Instance JitImages.eta_JitImages.

(** ** State *)

Inductive PmuKind := Cycles | Instructions | L1dMisses | BranchMisses.

#[export] Instance PmuKind_eq_dec : EqDecision PmuKind.
Proof. solve_decision. Defined.

Definition index (k : PmuKind) : nat :=
  match k with Cycles => 0 | Instructions => 1 | L1dMisses => 2 | BranchMisses => 3 end.

Record RecentWaking := mkRecentWaking {
  waker_tid : Z;
  waker_user_stack : list Z;
  waker_kernel_stack : list Z;
  time_ns : Z
}.

Definition WAKING_STALENESS_NS : Z := 100000000.

Record RecordSummary := mkRecordSummary {
  samples : Z;
  lost_records : Z;
  binaries : Z;
  intervals : Z;
  off_cpu_intervals : Z;
  dwarf_truncated : Z;
  jit_symbols : Z;
  session_ns : Z;
  target_exited : bool
}.

#[export] Instance eta_RecordSummary : Eta RecordSummary := fun s =>
  mkRecordSummary (samples s) (lost_records s) (binaries s) (intervals s) (off_cpu_intervals s)
    (dwarf_truncated s) (jit_symbols s) (session_ns s) (target_exited s).

Definition summary_default : RecordSummary := mkRecordSummary 0 0 0 0 0 0 0 0 false.

Record JitTracker := mkJitTracker {
  images : JitImages.JitImages;
  perf_map : PerfMap.PerfMapTailer;
  jitdump : option Jitdump.JitdumpTailer;
  next_poll : Z
}.

#[export] Instance eta_JitTracker : Eta JitTracker := fun j =>
  mkJitTracker (images j) (perf_map j) (jitdump j) (next_poll j).

Record Session := mkSession {
  pid : Z;                       (* opts.pid *)
  dwarf_unwind : bool;           (* opts.dwarf_unwind *)
  sink : list call;              (* the calls made so far *)
  seen : gset Z;                 (* images.seen *)
  thread_names : gmap Z (list Z);
  target_tids : gset Z;
  last_sample_ts : gmap Z Z;
  max_on_cpu_gap_ns : Z;
  last_user_stack : gmap Z (list Z);
  switch_stack : gmap Z (list Z);
  off_start : gmap Z (Z * list Z);
  kallsyms : gmap (list Z) Z;
  last_ts : Z;
  pmu_id_to_kind : gmap Z PmuKind;
  prev_pmu_per_cpu : gmap Z (list Z);
  waking_offsets : option (Z * Z);
  recent_waking : gmap Z RecentWaking;
  debuginfod : option Elf.DebuginfodConfig;
  dwarf : option (list Dwarf.UnwindModule);
  jit : JitTracker;
  summary : RecordSummary
}.

#[export] Instance eta_Session : Eta Session := fun s =>
  mkSession (pid s) (dwarf_unwind s) (sink s) (seen s) (thread_names s) (target_tids s) (last_sample_ts s)
    (max_on_cpu_gap_ns s) (last_user_stack s) (switch_stack s) (off_start s) (kallsyms s) (last_ts s)
    (pmu_id_to_kind s) (prev_pmu_per_cpu s) (waking_offsets s) (recent_waking s) (debuginfod s) (dwarf s)
    (jit s) (summary s).

(** What the system shows at one moment: the text of a thread's wait channel, of
    [/proc/<pid>/maps] and of the entries of [/proc/<pid>/task], files, the two
    JIT symbol files (whether the second exists and opens, and what it holds),
    and the clock. *)
Record World := mkWorld {
  wchan : Z -> option (list Z);
  maps_text : option (list Z);
  task_dir : list (list Z * option (list Z));
  read_file : list Z -> option (list Z);
  perf_map_file : PerfMap.file_view;
  jitdump_exists : bool;
  jitdump_opens : bool;
  jitdump_bytes : option (list Z);
  now : Z
}.

Section Capture.
Variable parse : list Z -> option Elf.ElfFile.
Context `{Dwarf.Framehop}.

(** [self.sink.f(..)] *)
Definition calls (c : call) (s : Session) : Session := s <| sink ::= fun l => l ++ [c] |>.

Definition valid_tid (tid : Z) : bool := bool_decide (tid <> 0 /\ tid <= 2 ^ 31 - 1).

Definition observe_thread (p tid : Z) (s : Session) : Session * bool :=
  if bool_decide (p <> pid s) || negb (valid_tid tid) then (s, false)
  else (s <| target_tids ::= fun t => {[tid]} ∪ t |>, true).

Definition on_fork (body : list Z) (s : Session) : Session :=
  match read_u32 body with
  | (Some p, c) =>
    match read_u32 c with
    | (Some _, c) =>
      match read_u32 c with
      | (Some tid, c) =>
        match read_u32 c with
        | (Some _, c) =>
          match read_u64 c with
          | (Some _, _) => fst (observe_thread p tid s)
          | _ => s
          end
        | _ => s
        end
      | _ => s
      end
    | _ => s
    end
  | _ => s
  end.

(** ** Samples *)

Definition on_switch_sample (body : list Z) (s : Session) : Session :=
  let '(p, c) := read_u32 body in
  let '(tid, c) := read_u32 c in
  match p, tid with
  | Some p, Some tid =>
      let '(s, ok) := observe_thread p tid s in
      if negb ok then s else
      let '(_, c) := read_u64 c in
      let '(_, c) := read_u32 c in
      let '(_, c) := read_u32 c in
      match read_u64 c with
      | (Some nr, c) =>
          let '(addrs, _, _) := ips nr c in
          let user := filter (fun ip => ip < PERF_CONTEXT_MAX) addrs in
          if bool_decide (user = []) then s else s <| switch_stack ::= insert tid user |>
      | (None, _) => s
      end
  | _, _ => s
  end.

(** The counters of one sample. *)
Fixpoint read_pmu (fuel : nat) (nr cpu : Z) (deltas : list Z) (c : Cur) (s : Session)
    : Session * option (list Z * Cur) :=
  if bool_decide (nr <= 0) then (s, Some (deltas, c)) else
  match fuel with
  | O => (s, None)
  | S fuel =>
      match read_u64 c with
      | (Some value, c) =>
          match read_u64 c with
          | (Some id, c) =>
              match pmu_id_to_kind s !! id with
              | Some kind =>
                  let slot := default (replicate 4 0) (prev_pmu_per_cpu s !! cpu) in
                  read_pmu fuel (nr - 1) cpu (<[index kind := ssub value (slot !!! index kind)]> deltas) c
                    (s <| prev_pmu_per_cpu ::= insert cpu (<[index kind := value]> slot) |>)
              | None => read_pmu fuel (nr - 1) cpu deltas c s
              end
          | (None, _) => (s, None)
          end
      | (None, _) => (s, None)
      end
  end.

(** The user stack after the registers and the stack snapshot of the record. *)
Definition dwarf_stack (c : Cur) (user : list Z) (s : Session) : Session * list Z :=
  if negb (dwarf_unwind s) then (s, user) else
  let '(abi, c) := u64_or_0 c in
  if bool_decide (abi <> PERF_SAMPLE_REGS_ABI_64) then (s, user) else
  let '(bp, c) := u64_or_0 c in
  let '(sp, c) := u64_or_0 c in
  let '(ip, c) := u64_or_0 c in
  let '(stack_size, c) := u64_or_0 c in
  let '(stack, c) := read_bytes stack_size c in
  let dyn_size := if bool_decide (stack_size <> 0) then fst (u64_or_0 c) else 0 in
  match stack, dwarf s with
  | Some stack, Some uw =>
      let filled := Z.min dyn_size (Z.of_nat (length stack)) in
      if bool_decide (16 <= filled /\ ip <> 0 /\ sp <> 0) then
        let '(unwound, truncated) := Dwarf.unwind uw ip sp bp sp (take (Z.to_nat filled) stack) in
        let s := if truncated : bool then s <| summary ::= fun m => m <| dwarf_truncated ::= fun n => sadd64 n 1 |> |> else s in
        (s, Dwarf.splice unwound truncated user)
      else (s, user)
  | _, _ => (s, user)
  end.

(** The on-CPU interval a sample closes. *)
Definition close_on_cpu (p tid time : Z) (s : Session) : Session :=
  if bool_decide (time = 0) then s else
  let prev := last_sample_ts s !! tid in
  let s := match prev with
           | Some prev =>
               if bool_decide (prev < time) then
                 let dur := Z.min (time - prev) (max_on_cpu_gap_ns s) in
                 if bool_decide (0 < dur) then
                   calls (on_cpu_interval (mkCpuIntervalEvent p tid prev (prev + dur) OnCpu)) s
                     <| summary ::= fun m => m <| intervals ::= fun n => sadd64 n 1 |> |>
                 else s
               else s
           | None => s
           end in
  let s := if match prev with Some prev => bool_decide (prev < time) | None => true end
           then s <| last_sample_ts ::= insert tid time |> else s in
  s <| last_ts ::= fun t => Z.max t time |>.

(** [on_sample] from where the stacks and counters are read. *)
Definition deliver_sample (p tid time : Z) (pmu user kernel : list Z) (s : Session) : Session :=
  let s := s <| summary ::= fun m => m <| samples ::= fun n => sadd64 n 1 |> |> in
  let s := calls (on_sample (mkSampleEvent time p tid user kernel (pmu !!! index Cycles) (pmu !!! index Instructions)
                    (pmu !!! index L1dMisses) (pmu !!! index BranchMisses))) s in
  let s := close_on_cpu p tid time s in
  if bool_decide (user = []) then s else s <| last_user_stack ::= insert tid user |>.

Definition handle_sample (body : list Z) (s : Session) : Session :=
  match read_u32 body with
  | (None, _) => s
  | (Some p, c) =>
      let '(tid, c) := read_u32 c in
      let '(time, c) := read_u64 c in
      let '(cpu, c) := read_u32 c in
      let '(res, c) := read_u32 c in
      match tid, time, cpu, res with
      | Some tid, Some time, Some cpu, Some _ =>
          let '(s, ok) := observe_thread p tid s in
          if negb ok then s else
          let '(nr_pmu, c) := u64_or_0 c in
          match read_pmu (length c) nr_pmu cpu (replicate 4 0) c s with
          | (s, None) => s
          | (s, Some (pmu, c)) =>
              match read_u64 c with
              | (None, _) => s
              | (Some nr, c) =>
                  let '(addrs, c, _) := ips nr c in
                  let '(user, kernel) := callchain addrs in
                  let '(s, user) := dwarf_stack c user s in
                  deliver_sample p tid time pmu user kernel s
              end
          end
      | _, _, _, _ => s
      end
  end.

(** ** Context switches *)

Definition flag (misc bit : Z) : bool := bool_decide (Z.land misc bit <> 0).

(** A voluntary switch out parks the thread with the stack it blocked in. *)
Definition switch_out (w : World) (tid time : Z) (s : Session) : Session :=
  let blocked_in := switch_stack s !! tid in
  let s := s <| switch_stack ::= delete tid |> in
  let parked := match blocked_in with Some b => Some b | None => last_user_stack s !! tid end in
  let stack := match Proc.wchan_addr (wchan w tid) (kallsyms s) with
               | Some waddr => waddr :: default [] parked
               | None => default [] parked
               end in
  s <| off_start ::= insert tid (time, stack) |>.

Definition switch_in (tid time : Z) (s : Session) : Session :=
  match off_start s !! tid with
  | None => s
  | Some (start, stack) =>
      let s := s <| off_start ::= delete tid |> in
      if bool_decide (start < time) then
        let waking := match recent_waking s !! tid with
                      | Some wk => if bool_decide (ssub time (time_ns wk) <= WAKING_STALENESS_NS) then Some wk else None
                      | None => None
                      end in
        let s := s <| recent_waking ::= delete tid |> in
        calls (on_cpu_interval (mkCpuIntervalEvent (pid s) tid start time
                 (OffCpu stack (waker_tid <$> waking) (waker_user_stack <$> waking)))) s
          <| summary ::= fun m => m <| off_cpu_intervals ::= fun n => sadd64 n 1 |> |>
      else s
  end.

(** What a switch record says of an observed thread. *)
Definition apply_switch (w : World) (misc tid time : Z) (s : Session) : Session :=
  let s := if bool_decide (time <> 0) then s <| last_ts ::= fun t => Z.max t time |> else s in
  if flag misc PERF_RECORD_MISC_SWITCH_OUT then
    if flag misc PERF_RECORD_MISC_SWITCH_OUT_PREEMPT then s <| switch_stack ::= delete tid |>
    else switch_out w tid time s
  else switch_in tid time s.

Definition on_switch (w : World) (misc : Z) (body : list Z) (s : Session) : Session :=
  let '(next_pid, c) := read_u32 body in
  let '(next_tid, c) := read_u32 c in
  let '(sid_pid, c) := read_u32 c in
  let '(sid_tid, c) := read_u32 c in
  let '(time, c) := read_u64 c in
  let '(cpu, c) := read_u32 c in
  let '(reserved, c) := read_u32 c in
  match next_pid, next_tid, sid_pid, sid_tid, time, cpu, reserved with
  | Some _, Some _, Some sid_pid, Some sid_tid, Some time, Some _, Some _ =>
      let '(s, ok) := observe_thread sid_pid sid_tid s in
      if negb ok then s else apply_switch w misc sid_tid time s
  | _, _, _, _, _, _, _ => s
  end.

(** ** Wakeups *)

(** The wakee's tid in the tracepoint's payload. *)
Definition wakee_of (offsets : Z * Z) (raw : list Z) : option Z :=
  let '(off, sz) := offsets in
  if bool_decide (Z.of_nat (length raw) < off + sz) then None else
  if bool_decide (sz = 4) then Some (Jitdump.from_le (slice (Z.to_nat off) (Z.to_nat (off + 4)) raw))
  else if bool_decide (sz = 8) then Some (as_u32 (Jitdump.from_le (slice (Z.to_nat off) (Z.to_nat (off + 8)) raw)))
  else None.

Definition deliver_waking (waker wakee time : Z) (user kernel : list Z) (s : Session) : Session :=
  if negb (valid_tid wakee) || negb (bool_decide (wakee ∈ target_tids s)) || bool_decide (2 ^ 31 - 1 < waker) then s else
  let s := if bool_decide (time <> 0) then s <| last_ts ::= fun t => Z.max t time |> else s in
  calls (on_wakeup (mkWakeupEvent time (pid s) waker wakee user kernel)) s
    <| recent_waking ::= insert wakee (mkRecentWaking waker user kernel time) |>.

Definition on_sample_from_waking (body : list Z) (s : Session) : Session :=
  match waking_offsets s with
  | None => s
  | Some offsets =>
      match read_u32 body with
      | (None, _) => s
      | (Some _, c) =>
          let '(waker, c) := u32_or_0 c in
          let '(time, c) := u64_or_0 c in
          let '(_, c) := read_u32 c in
          let '(_, c) := read_u32 c in
          match read_u64 c with
          | (None, _) => s
          | (Some nr, c) =>
              let '(addrs, c, all) := ips nr c in
              if negb all then s else
              let '(user, kernel) := callchain addrs in
              match read_u32 c with
              | (None, _) => s
              | (Some raw_size, c) =>
                  match read_bytes raw_size c with
                  | (None, _) => s
                  | (Some raw, _) =>
                      match wakee_of offsets raw with
                      | None => s
                      | Some wakee => deliver_waking waker wakee time user kernel s
                      end
                  end
              end
          end
      end
  end.

(** Threads still parked at the end. *)
Definition flush_one (s : Session) (e : Z * (Z * list Z)) : Session :=
  let '(tid, (start, stack)) := e in
  if bool_decide (start < last_ts s) then
    calls (on_cpu_interval (mkCpuIntervalEvent (pid s) tid start (last_ts s) (OffCpu stack None None))) s
      <| summary ::= fun m => m <| off_cpu_intervals ::= fun n => sadd64 n 1 |> |>
  else s.

Definition flush_off_cpu `{MapOrder} (s : Session) : Session :=
  foldl flush_one (s <| off_start := ∅ |>) (entries (off_start s)).

(** ** Images *)

(** The symbols of a detached debug file are added, then sorted in. *)
Definition add_debug_symbols (read : list Z -> option (list Z)) (cfg : option Elf.DebuginfodConfig) (img : Elf.ElfImage)
    : Elf.ElfImage :=
  if bool_decide (Elf.build_id_full img = []) then img else
  let extra := match Elf.load_separate_debug_by_build_id parse read (Elf.build_id_full img) with
               | Some l => Some l
               | None => cfg ≫= fun cfg => Elf.debuginfod_cached parse read cfg (Elf.build_id_full img)
               end in
  match extra with
  | Some extra => img <| Elf.symbols ::= fun l => Elf.dedup_by_start (sort_by Elf.by_start (l ++ extra)) |>
  | None => img
  end.

Definition span (x : Elf.SectionSlice) : Z * Z := (Elf.ss_start x, Elf.ss_end x).

Definition emit_image (w : World) (base_avma vmsize pgoff : Z) (path : list Z) (s : Session) : Session :=
  match read_file w path ≫= Elf.scan parse with
  | None => s
  | Some img =>
      let text_svma := default 0 (Elf.svma_for_file_off pgoff img) in
      let img := add_debug_symbols (read_file w) (debuginfod s) img in
      let s := match dwarf s, Elf.eh_frame img with
               | Some uw, Some eh =>
                   s <| dwarf := Some (Dwarf.add_image path base_avma (ssub base_avma pgoff) vmsize
                          (span <$> Elf.text img) (Elf.ss_bytes <$> Elf.text img) (span eh) (Elf.ss_bytes eh)
                          (span <$> Elf.eh_frame_hdr img) (Elf.ss_bytes <$> Elf.eh_frame_hdr img) uw) |>
               | _, _ => s
               end in
      let s := s <| summary ::= fun m => m <| binaries ::= fun n => sadd64 n 1 |> |> in
      calls (on_binary_loaded (mkBinaryLoadedEvent (pid s) base_avma vmsize text_svma path (Elf.build_id img)
               (Elf.arch img) (Elf.is_executable img) (Elf.symbols img) None)) s
  end.

(** [images.seen]: a mapping is announced once per base address. *)
Definition announce (w : World) (addr len pgoff : Z) (path : list Z) (s : Session) : Session :=
  if bool_decide (addr ∈ seen s) then s
  else emit_image w addr len pgoff path (s <| seen ::= fun m => {[addr]} ∪ m |>).

Definition JIT_IMAGE_PATH : list Z := str "[jit]".

Definition jit_event (s : Session) (img : JitImages.JitImage) : BinaryLoadedEvent :=
  mkBinaryLoadedEvent (pid s) (JitImages.img_start img) (JitImages.img_end img - JitImages.img_start img)
    (JitImages.img_start img) JIT_IMAGE_PATH None (Some (str "x86_64")) false (JitImages.img_symbols img) None.

Definition publish_jit (s : Session) : Session :=
  let '(imgs, dirty) := JitImages.take_dirty (images (jit s)) in
  let s := s <| jit ::= fun j => j <| images := imgs |> |> in
  let s := s <| sink ::= fun l => l ++ map (fun img => on_binary_loaded (jit_event s img)) dirty |> in
  s <| summary ::= fun m => m <| jit_symbols := JitImages.symbol_count (images (jit s)) |> |>.

Definition jit_mapping (start len : Z) (s : Session) : Session :=
  publish_jit (s <| jit ::= fun j => j <| images ::= fun i => fst (JitImages.add_mapping start (sadd64 start len) i) |> |>).

Definition POLL_PERIOD : Z := 250000000.

Definition add_named (j : JitImages.JitImages) (e : Z * Z * list Z) : JitImages.JitImages :=
  JitImages.add_symbol e.1.1 e.1.2 e.2 j.

(** The half of [poll] that reads the perf map. *)
Definition poll_perf_map (w : World) (j : JitTracker) : JitTracker :=
  let '(t, r) := PerfMap.tick (perf_map_file w) (perf_map j) in
  let j := j <| perf_map := t |> in
  match r with
  | inr entries => j <| images ::= fun i => foldl add_named i entries |>
  | inl _ => j
  end.

Definition loaded (r : Jitdump.JitCodeLoad) : Z * Z * list Z :=
  (Jitdump.avma r, Jitdump.code_size r, Jitdump.name r).

(** The half that opens and reads the jitdump. *)
Definition poll_jitdump (w : World) (j : JitTracker) : outcome JitTracker :=
  let j := if bool_decide (jitdump j = None) && jitdump_exists w && jitdump_opens w
           then j <| jitdump := Some Jitdump.opened |> else j in
  match jitdump j, jitdump_bytes w with
  | Some t, Some bytes =>
      match Jitdump.tick bytes t with
      | Panic => Panic
      | Ret (t, loads) =>
          Ret (j <| jitdump := Some t |> <| images ::= fun i => foldl add_named i (map loaded loads) |>)
      end
  | _, _ => Ret j
  end.

(** [JitTracker::poll]; the second component tells that orphans are left. *)
Definition poll (w : World) (force : bool) (j : JitTracker) : outcome (JitTracker * bool) :=
  if negb force && bool_decide (now w < next_poll j) then Ret (j, false) else
  match poll_jitdump w (poll_perf_map w (j <| next_poll := now w + POLL_PERIOD |>)) with
  | Panic => Panic
  | Ret j => Ret (j, JitImages.has_orphans (images j))
  end.

Definition add_region (i : JitImages.JitImages) (r : Z * Z) : JitImages.JitImages :=
  fst (JitImages.add_mapping r.1 r.2 i).

Definition poll_jit (w : World) (force : bool) (s : Session) : outcome Session :=
  match poll w force (jit s) with
  | Panic => Panic
  | Ret (j, orphans) =>
      let j := if orphans : bool
               then j <| images ::= fun i => JitImages.adopt_orphans (foldl add_region i (Proc.jit_maps (maps_text w))) |>
               else j in
      Ret (publish_jit (s <| jit := j |>))
  end.

(** Where a mapping goes: JIT code, an image, or neither. *)
Definition mapping (w : World) (addr len pgoff : Z) (path_bytes : list Z) (s : Session) : Session :=
  match from_utf8 path_bytes with
  | None => s
  | Some path =>
      if JitImages.is_jit_mapping path then jit_mapping addr len s
      else if starts_with (str "[") path then s
      else announce w addr len pgoff path s
  end.

Definition PROT_EXEC : Z := 4.

Definition on_mmap2 (w : World) (body : list Z) (s : Session) : Session :=
  let '(p, c) := u32_or_0 body in
  let '(_, c) := read_u32 c in
  if bool_decide (p <> pid s) then s else
  match read_u64 c with
  | (None, _) => s
  | (Some addr, c) =>
      let '(len, c) := u64_or_0 c in
      let '(pgoff, c) := u64_or_0 c in
      let c := skip 24 c in
      let '(prot, c) := u32_or_0 c in
      let '(_, c) := read_u32 c in
      if bool_decide (Z.land prot PROT_EXEC = 0) then s else mapping w addr len pgoff (cstr c) s
  end.

Definition on_mmap (w : World) (body : list Z) (s : Session) : Session :=
  let '(p, c) := u32_or_0 body in
  let '(_, c) := read_u32 c in
  if bool_decide (p <> pid s) then s else
  match read_u64 c with
  | (None, _) => s
  | (Some addr, c) =>
      let '(len, c) := u64_or_0 c in
      let '(pgoff, c) := u64_or_0 c in
      mapping w addr len pgoff (cstr c) s
  end.

Definition name_thread (p tid : Z) (name : list Z) (s : Session) : Session :=
  if bool_decide (thread_names s !! tid = Some name) then s
  else calls (on_thread_name (mkThreadNameEvent p tid name)) (s <| thread_names ::= insert tid name |>).

Definition on_comm (body : list Z) (s : Session) : Session :=
  let '(p, c) := u32_or_0 body in
  let '(tid, c) := u32_or_0 c in
  let '(s, ok) := observe_thread p tid s in
  if negb ok then s else name_thread p tid (from_utf8_lossy (cstr c)) s.

(** ** Dispatch *)

Definition on_lost (body : list Z) (s : Session) : Session :=
  let '(_, c) := read_u64 body in
  match read_u64 c with
  | (Some lost, _) => s <| summary ::= fun m => m <| lost_records ::= fun n => sadd64 n lost |> |>
  | (None, _) => s
  end.

Definition handle (w : World) (kind : PerfRingKind) (r : Z * Z * list Z) (s : Session) : Session :=
  let '(ty, misc, body) := r in
  if bool_decide (ty = PERF_RECORD_SAMPLE) then
    match kind with
    | Sampling => handle_sample body s
    | Waking => on_sample_from_waking body s
    | Switch => on_switch_sample body s
    end
  else if bool_decide (ty = PERF_RECORD_MMAP2) then on_mmap2 w body s
  else if bool_decide (ty = PERF_RECORD_MMAP) then on_mmap w body s
  else if bool_decide (ty = PERF_RECORD_COMM) then on_comm body s
  else if bool_decide (ty = PERF_RECORD_FORK) then on_fork body s
  else if bool_decide (ty = PERF_RECORD_SWITCH_CPU_WIDE) then on_switch w misc body s
  else if bool_decide (ty = PERF_RECORD_LOST) then on_lost body s
  else s.

Definition dispatch (w : World) (kind : PerfRingKind) (scratch : list Z) (s : Session) : Session :=
  foldl (fun s r => handle w kind r s) s (records scratch).

(** [drain_dispatch] when the kernel has written the ring up to [head]. *)
Definition drain_dispatch (w : World) (head : Z) (r : PerfRing) (s : Session) : PerfRing * Session :=
  let '(scratch, r) := drain head r in (r, dispatch w (r_kind r) scratch s).

(** ** A recording *)

(** [nominal_period_ns], four of which are the cap of an interval. *)
Definition nominal_period_ns (frequency_hz : Z) : Z :=
  if bool_decide (frequency_hz = 0) then 1000000 else 1000000000 / frequency_hz.

Definition new_session (pid frequency_hz : Z) (dwarf_unwind : bool) (kallsyms : option (list Z))
    (ids : gmap Z PmuKind) (offsets : option (Z * Z)) (cfg : option Elf.DebuginfodConfig) (t : Z) : Session :=
  mkSession pid dwarf_unwind (match kallsyms with Some k => [on_kallsyms k] | None => [] end) ∅ ∅ ∅ ∅
    (Z.min (nominal_period_ns frequency_hz * 4) u64_max) ∅ ∅ ∅
    (match kallsyms with Some k => Proc.parse_kallsyms_names k | None => ∅ end) 0 ids ∅ offsets ∅ cfg
    (if dwarf_unwind then Some [] else None) (mkJitTracker JitImages.default PerfMap.new None t) summary_default.

(** The threads and images that were there before the recording. *)
Definition synthesize_thread (s : Session) (e : Z * list Z) : Session :=
  let '(s, ok) := observe_thread (pid s) e.1 s in
  if negb ok then s else name_thread (pid s) e.1 e.2 s.

Definition synthesize_map (w : World) (s : Session) (m : Proc.MapRegion) : Session :=
  announce w (Proc.base_avma m) (Proc.vmsize m) (Proc.pgoff m) (Proc.path m) s.

Definition synthesize (w : World) (s : Session) : outcome Session :=
  let s := foldl synthesize_thread s (Proc.threads (task_dir w)) in
  let s := foldl (synthesize_map w) s (Proc.maps (maps_text w)) in
  let s := s <| jit ::= fun j => j <| images ::= fun i => foldl add_region i (Proc.jit_maps (maps_text w)) |> |> in
  poll_jit w true s.

(** What the kernel has written into each ring by now: the data and the head. *)
Definition written : Type := list (list Z * Z).

Fixpoint sweep (w : World) (rings : list PerfRing) (wr : written) (s : Session) : list PerfRing * Session :=
  match rings, wr with
  | r :: rings, (data, head) :: wr =>
      let '(r, s) := drain_dispatch w head (r <| r_data := data |>) s in
      let '(rings, s) := sweep w rings wr s in
      (r :: rings, s)
  | _, _ => (rings, s)
  end.

(** One turn of the loop behind [poll]. *)
Definition turn (rings : list PerfRing) (s : Session) (w : World) (wr : written) : outcome (list PerfRing * Session) :=
  let '(rings, s) := sweep w rings wr s in
  match poll_jit w false s with
  | Panic => Panic
  | Ret s => Ret (rings, s)
  end.

Fixpoint turns (rings : list PerfRing) (s : Session) (l : list (World * written)) : outcome (list PerfRing * Session) :=
  match l with
  | [] => Ret (rings, s)
  | (w, wr) :: l =>
      match turn rings s w wr with
      | Panic => Panic
      | Ret (rings, s) => turns rings s l
      end
  end.

(** What follows the loop. *)
Definition finish `{MapOrder} (w : World) (wr : written) (elapsed : Z) (rings : list PerfRing) (s : Session)
    : outcome Session :=
  let '(_, s) := sweep w rings wr s in
  match poll_jit w true (flush_off_cpu s) with
  | Panic => Panic
  | Ret s => Ret (s <| summary ::= fun m => m <| session_ns := elapsed |> |>)
  end.

(** [run_with_rings] from the synthesis on: the world at the start, the turns the
    loop makes, the world and the rings after it, and whether the target's exit
    ended it. *)
Definition run_with_rings `{MapOrder} (rings switch_rings waking_rings : list PerfRing) (w0 : World)
    (l : list (World * written)) (exited : bool) (w : World) (wr : written) (elapsed : Z) (s : Session) : outcome Session :=
  match synthesize w0 s with
  | Panic => Panic
  | Ret s =>
      match turns (rings ++ switch_rings ++ waking_rings) s l with
      | Panic => Panic
      | Ret (rings, s) =>
          finish w wr elapsed rings
            (if exited then s <| summary ::= fun m => m <| target_exited := true |> |> else s)
      end
  end.
End Capture.

(** ** Records as the kernel writes them *)

(** The user registers and the copy of the stack a sample carries for unwinding;
    of the copy the kernel filled [sn_filled] bytes. *)
Record Snapshot := mkSnapshot { sn_bp : Z; sn_sp : Z; sn_ip : Z; sn_stack : list Z; sn_filled : Z }.

Record PerfSample := mkPerfSample {
  ps_pid : Z; ps_tid : Z; ps_time : Z; ps_cpu : Z;
  ps_readings : list (Z * Z);        (* value, id *)
  ps_kernel : list Z; ps_user : list Z;
  ps_snapshot : option Snapshot
}.

Definition frames_ok (l : list Z) : Prop := Forall (fun ip => 0 <= ip < PERF_CONTEXT_MAX) l.

Definition snapshot_ok (n : Snapshot) : Prop :=
  is_u64 (sn_bp n) /\ is_u64 (sn_sp n) /\ is_u64 (sn_ip n) /\ is_u64 (sn_filled n) /\
  is_u64 (Z.of_nat (length (sn_stack n))).

Definition sample_ok (x : PerfSample) : Prop :=
  from_option snapshot_ok True (ps_snapshot x) /\
  is_u32 (ps_pid x) /\ is_u32 (ps_tid x) /\ is_u64 (ps_time x) /\ is_u32 (ps_cpu x) /\
  Forall (fun r => is_u64 r.1 /\ is_u64 r.2) (ps_readings x) /\ is_u64 (Z.of_nat (length (ps_readings x))) /\
  frames_ok (ps_kernel x) /\ frames_ok (ps_user x) /\ is_u64 (Z.of_nat (length (ps_kernel x) + length (ps_user x) + 2)).

(** A call chain: the kernel frames, then the user frames, behind their markers. *)
Definition chain_ips (kernel user : list Z) : list Z := PERF_CONTEXT_KERNEL :: kernel ++ PERF_CONTEXT_USER :: user.

Definition chain_bytes (kernel user : list Z) : list Z :=
  Jitdump.to_le 8 (Z.of_nat (length (chain_ips kernel user))) ++ ips_bytes (chain_ips kernel user).

Definition readings_bytes (l : list (Z * Z)) : list Z := l ≫= fun r => Jitdump.to_le 8 r.1 ++ Jitdump.to_le 8 r.2.

(** [TID | TIME | CPU]: the fields every record of the session carries. *)
Definition id_bytes (pid tid time cpu : Z) : list Z :=
  Jitdump.to_le 4 pid ++ Jitdump.to_le 4 tid ++ Jitdump.to_le 8 time ++ Jitdump.to_le 4 cpu ++ Jitdump.to_le 4 0.

(** [REGS_USER | STACK_USER] *)
Definition snapshot_bytes (n : Snapshot) : list Z :=
  Jitdump.to_le 8 PERF_SAMPLE_REGS_ABI_64 ++ Jitdump.to_le 8 (sn_bp n) ++ Jitdump.to_le 8 (sn_sp n) ++
  Jitdump.to_le 8 (sn_ip n) ++ Jitdump.to_le 8 (Z.of_nat (length (sn_stack n))) ++ sn_stack n ++
  if decide (sn_stack n = []) then [] else Jitdump.to_le 8 (sn_filled n).

Definition sample_body (x : PerfSample) : list Z :=
  id_bytes (ps_pid x) (ps_tid x) (ps_time x) (ps_cpu x) ++
  Jitdump.to_le 8 (Z.of_nat (length (ps_readings x))) ++ readings_bytes (ps_readings x) ++
  chain_bytes (ps_kernel x) (ps_user x) ++ from_option snapshot_bytes [] (ps_snapshot x).

Definition switch_body (next_pid next_tid pid tid time cpu : Z) : list Z :=
  Jitdump.to_le 4 next_pid ++ Jitdump.to_le 4 next_tid ++ id_bytes pid tid time cpu.

Definition waking_body (pid tid time cpu : Z) (kernel user raw : list Z) : list Z :=
  id_bytes pid tid time cpu ++ chain_bytes kernel user ++ Jitdump.to_le 4 (Z.of_nat (length raw)) ++ raw.

Lemma frames_below l : frames_ok l -> Forall (fun ip => ip < PERF_CONTEXT_MAX) l.
Proof. intros H. eapply Forall_impl; [exact H|]. cbn. lia. Qed.

Lemma frames_u64 l : frames_ok l -> Forall is_u64 l.
Proof. intros H. eapply Forall_impl; [exact H|]. unfold PERF_CONTEXT_MAX. cbn. width. lia. Qed.

Lemma chain_u64 kernel user : frames_ok kernel -> frames_ok user -> Forall is_u64 (chain_ips kernel user).
Proof.
  intros Hk%frames_u64 Hu%frames_u64. constructor; [by vm_compute|]. apply Forall_app. split; [done|].
  constructor; [by vm_compute|done].
Qed.

Lemma chain_written kernel user c :
  frames_ok kernel -> frames_ok user -> is_u64 (Z.of_nat (length kernel + length user + 2)) ->
  exists rest, read_u64 (chain_bytes kernel user ++ c) = (Some (Z.of_nat (length (chain_ips kernel user))), rest) /\
    ips (Z.of_nat (length (chain_ips kernel user))) rest = (chain_ips kernel user, c, true) /\
    callchain (chain_ips kernel user) = (user, kernel).
Proof.
  intros Hk Hu Hl. unfold chain_bytes. rewrite <- app_assoc. eexists. split_ands.
  - apply read_u64_le. unfold chain_ips. cbn [length]. rewrite length_app. cbn [length]. revert Hl. width. lia.
  - apply ips_written. by apply chain_u64.
  - apply callchain_marked; by apply frames_below.
Qed.

(** The counters, one reading at a time. *)
Definition count_reading (ids : gmap Z PmuKind) (cpu : Z) (st : gmap Z (list Z) * list Z) (r : Z * Z)
    : gmap Z (list Z) * list Z :=
  match ids !! r.2 with
  | Some kind =>
      let slot := default (replicate 4 0) (st.1 !! cpu) in
      (<[cpu := <[index kind := r.1]> slot]> st.1, <[index kind := ssub r.1 (slot !!! index kind)]> st.2)
  | None => st
  end.

Lemma read_pmu_written cpu rs : forall fuel deltas c s,
  Forall (fun r => is_u64 r.1 /\ is_u64 r.2) rs -> (length rs <= fuel)%nat ->
  read_pmu fuel (Z.of_nat (length rs)) cpu deltas (readings_bytes rs ++ c) s =
  let st := foldl (count_reading (pmu_id_to_kind s) cpu) (prev_pmu_per_cpu s, deltas) rs in
  (s <| prev_pmu_per_cpu := st.1 |>, Some (st.2, c)).
Proof.
  induction rs as [|[value id] rs IH]; intros fuel deltas c s Hrs Hf.
  - destruct fuel; cbn; by destruct s.
  - apply Forall_cons in Hrs as [[Hv Hi] Hrs]. destruct fuel as [|fuel]; [cbn in Hf; lia|].
    cbn [read_pmu length]. rewrite bool_decide_eq_false_2 by lia.
    unfold readings_bytes. rewrite bind_cons, <- !app_assoc, read_u64_le by done. cbn [fst snd] in *.
    rewrite read_u64_le by done. fold (readings_bytes rs).
    replace (Z.of_nat (S (length rs)) - 1) with (Z.of_nat (length rs)) by lia. cbn [foldl].
    set (st := count_reading _ _ (prev_pmu_per_cpu s, deltas) (value, id)).
    destruct (pmu_id_to_kind s !! id) as [kind|] eqn:E; rewrite IH by (done || (cbn in Hf; lia));
      unfold st, count_reading; cbn [fst snd]; rewrite E; done.
Qed.

(** The count of a kind a CPU had at its last sample. *)
Definition counter (prev : gmap Z (list Z)) (cpu : Z) (k : PmuKind) : Z :=
  default (replicate 4 0) (prev !! cpu) !!! index k.

Definition slots_ok (prev : gmap Z (list Z)) : Prop := forall cpu slot, prev !! cpu = Some slot -> length slot = 4%nat.

(** What a sample reads of a kind. *)
Definition reading_of (ids : gmap Z PmuKind) (k : PmuKind) (r : Z * Z) : option Z :=
  kind ← ids !! r.2; if bool_decide (kind = k) then Some r.1 else None.

Lemma slot_length prev cpu : slots_ok prev -> length (default (replicate 4 0) (prev !! cpu)) = 4%nat.
Proof. intros Hp. destruct (prev !! cpu) as [slot|] eqn:E; [by apply (Hp cpu)|done]. Qed.

Lemma index_inj k k' : index k = index k' -> k = k'.
Proof. by destruct k, k'. Qed.

Lemma count_readings ids cpu rs : forall prev deltas,
  slots_ok prev -> length deltas = 4%nat ->
  (forall k, (length (omap (reading_of ids k) rs) <= 1)%nat) ->
  let st := foldl (count_reading ids cpu) (prev, deltas) rs in
  slots_ok st.1 /\ length st.2 = 4%nat /\
  forall k, match head (omap (reading_of ids k) rs) with
            | Some v => st.2 !!! index k = ssub v (counter prev cpu k) /\ counter st.1 cpu k = v
            | None => st.2 !!! index k = deltas !!! index k /\ counter st.1 cpu k = counter prev cpu k
            end.
Proof.
  induction rs as [|r rs IH]; intros prev deltas Hp Hd Honce; [done|]. cbn [foldl].
  assert (forall k, (length (omap (reading_of ids k) rs) <= 1)%nat) as Honce'.
  { intros k. specialize (Honce k). cbn in Honce. destruct (reading_of ids k r); cbn in Honce; lia. }
  destruct (ids !! r.2) as [kind|] eqn:E.
  - set (slot := default (replicate 4 0) (prev !! cpu)). pose proof (slot_length prev cpu Hp) as Hs. fold slot in Hs.
    assert (count_reading ids cpu (prev, deltas) r =
      (<[cpu := <[index kind := r.1]> slot]> prev, <[index kind := ssub r.1 (slot !!! index kind)]> deltas)) as ->.
    { unfold count_reading. by rewrite E. }
    destruct (IH (<[cpu := <[index kind := r.1]> slot]> prev) (<[index kind := ssub r.1 (slot !!! index kind)]> deltas))
      as (H1 & H2 & H3); [|by rewrite length_insert|done|].
    { intros c sl. destruct (decide (c = cpu)) as [->|Hne]; [rewrite lookup_insert_eq; intros [= <-]; by rewrite length_insert|].
      rewrite lookup_insert_ne by done. apply Hp. }
    split_ands; [done|done|]. intros k. specialize (H3 k). cbn [omap list_omap]. unfold reading_of at 1. rewrite E.
    cbn [mbind option_bind]. assert (index kind < 4)%nat as Hi by (destruct kind; cbn; lia).
    assert (forall k', counter (<[cpu := <[index kind := r.1]> slot]> prev) cpu k' =
              if bool_decide (kind = k') then r.1 else counter prev cpu k') as Hc.
    { intros k'. unfold counter. rewrite lookup_insert_eq. cbn [default from_option id]. fold slot. case_bool_decide as Ek.
      - subst k'. by rewrite list_lookup_total_insert_eq by lia.
      - rewrite list_lookup_total_insert_ne; [done|]. intros Heq. by apply Ek, index_inj. }
    rewrite Hc in H3. case_bool_decide as Ek.
    + subst k. specialize (Honce kind). cbn in Honce. unfold reading_of at 1 in Honce. rewrite E in Honce. cbn in Honce.
      rewrite bool_decide_eq_true_2 in Honce by done. cbn in Honce.
      destruct (omap (reading_of ids kind) rs); [|cbn in Honce; lia]. cbn [head] in *. destruct H3 as [-> ->].
      split; [|done]. by rewrite list_lookup_total_insert_eq by lia.
    + destruct (head (omap (reading_of ids k) rs)); [done|]. destruct H3 as [-> ->]. split; [|done].
      rewrite list_lookup_total_insert_ne; [done|]. intros Heq. by apply Ek, index_inj.
  - assert (count_reading ids cpu (prev, deltas) r = (prev, deltas)) as -> by (unfold count_reading; by rewrite E).
    destruct (IH prev deltas Hp Hd Honce') as (H1 & H2 & H3). split_ands; [done|done|]. intros k. specialize (H3 k).
    cbn [omap list_omap]. assert (reading_of ids k r = None) as -> by (unfold reading_of; by rewrite E). done.
Qed.

(** The four fields behind the thread's ids. *)
Lemma id_written p tid time cpu c :
  is_u32 p -> is_u32 tid -> is_u64 time -> is_u32 cpu ->
  exists c1 c2 c3 c4, read_u32 (id_bytes p tid time cpu ++ c) = (Some p, c1) /\ read_u32 c1 = (Some tid, c2) /\
    read_u64 c2 = (Some time, c3) /\ read_u32 c3 = (Some cpu, c4) /\ read_u32 c4 = (Some 0, c).
Proof.
  intros Hp Ht Hti Hc. unfold id_bytes. rewrite <- !app_assoc. do 4 eexists. split_ands.
  - by apply read_u32_le.
  - by apply read_u32_le.
  - by apply read_u64_le.
  - by apply read_u32_le.
  - by apply read_u32_le.
Qed.

Lemma read_le_shrinks n c v c' : read_le n c = (v, c') -> (length c' <= length c)%nat.
Proof. unfold read_le. case_bool_decide; intros [= <- <-]; [rewrite length_drop|]; lia. Qed.

Lemma readings_length rs : length (readings_bytes rs) = (16 * length rs)%nat.
Proof.
  unfold readings_bytes. induction rs as [|r rs IH]; [done|].
  rewrite bind_cons, !length_app, !Jitdump.to_le_length, IH. cbn [length]. lia.
Qed.

Lemma observe_target tid s : valid_tid tid = true ->
  observe_thread (pid s) tid s = (s <| target_tids ::= fun t => {[tid]} ∪ t |>, true).
Proof. intros Hv. unfold observe_thread. by rewrite bool_decide_eq_false_2, Hv by auto. Qed.

(** The walk over the sample's copy of the stack, with unwinding and enough of a
    copy. *)
Definition unwound `{Dwarf.Framehop} (x : PerfSample) (s : Session) : option (list Z * bool) :=
  n ← ps_snapshot x; uw ← dwarf s;
  let filled := Z.min (if decide (sn_stack n = []) then 0 else sn_filled n) (Z.of_nat (length (sn_stack n))) in
  if decide (dwarf_unwind s = true /\ 16 <= filled /\ sn_ip n <> 0 /\ sn_sp n <> 0)
  then Some (Dwarf.unwind uw (sn_ip n) (sn_sp n) (sn_bp n) (sn_sp n) (take (Z.to_nat filled) (sn_stack n))) else None.

(** The user frames of a sample: those of the walk, joined to the call chain. *)
Definition user_frames `{Dwarf.Framehop} (x : PerfSample) (s : Session) : list Z :=
  match unwound x s with
  | Some (walked, truncated) => Dwarf.splice walked truncated (ps_user x)
  | None => ps_user x
  end.

(** A walk that was cut short is counted. *)
Definition count_truncated `{Dwarf.Framehop} (x : PerfSample) (s : Session) : Session :=
  match unwound x s with
  | Some (_, true) => s <| summary ::= fun m => m <| dwarf_truncated ::= fun n => sadd64 n 1 |> |>
  | _ => s
  end.

Lemma read_bytes_all l c : read_bytes (Z.of_nat (length l)) (l ++ c) = (Some l, c).
Proof.
  unfold read_bytes. rewrite Nat2Z.id, take_app_length, drop_app_length.
  by rewrite bool_decide_eq_true_2 by (rewrite length_app; lia).
Qed.

Lemma dwarf_stack_written `{Dwarf.Framehop} x s :
  from_option snapshot_ok True (ps_snapshot x) ->
  dwarf_stack (from_option snapshot_bytes [] (ps_snapshot x)) (ps_user x) s = (count_truncated x s, user_frames x s).
Proof.
  unfold dwarf_stack, count_truncated, user_frames, unwound. destruct (ps_snapshot x) as [n|]; cbn [from_option mbind option_bind].
  - intros (Hb & Hs & Hi & Hf & Hl). destruct (dwarf_unwind s) eqn:Hdw; cbn [negb].
    2: { destruct (dwarf s); [|done]. cbn [mbind option_bind]. destruct (decide _) as [[? _]|_]; done. }
    unfold snapshot_bytes, u64_or_0. rewrite read_u64_le by done. cbn [default from_option id].
    rewrite bool_decide_eq_false_2 by tauto. do 4 rewrite read_u64_le by done. cbn [default from_option id].
    rewrite read_bytes_all. destruct (dwarf s) as [uw|]; cbn [mbind option_bind]; [|done].
    set (filled := if bool_decide (Z.of_nat (length (sn_stack n)) <> 0) then _ else _).
    assert (filled = if decide (sn_stack n = []) then 0 else sn_filled n) as ->.
    { unfold filled. destruct (decide (sn_stack n = [])) as [->|Hne]; [done|].
      rewrite bool_decide_eq_true_2 by (rewrite <- length_zero_iff_nil in Hne; lia).
      rewrite <- (app_nil_r (Jitdump.to_le 8 _)). by rewrite read_u64_le. }
    set (k := Z.min _ _). case_bool_decide as E;
      [rewrite !decide_True by done|by rewrite !decide_False by (by intros [_ ?])].
    by destruct (Dwarf.unwind _ _ _ _ _ _) as [walked []].
  - intros _. by destruct (negb _).
Qed.

(** A sample as the session sees it. *)
Lemma handle_sample_written `{Dwarf.Framehop} x s :
  sample_ok x -> ps_pid x = pid s -> valid_tid (ps_tid x) = true ->
  let st := foldl (count_reading (pmu_id_to_kind s) (ps_cpu x)) (prev_pmu_per_cpu s, replicate 4 0) (ps_readings x) in
  handle_sample (sample_body x) s =
  deliver_sample (ps_pid x) (ps_tid x) (ps_time x) st.2 (user_frames x s) (ps_kernel x)
    (count_truncated x (s <| target_tids ::= fun t => {[ps_tid x]} ∪ t |> <| prev_pmu_per_cpu := st.1 |>)).
Proof.
  intros (Hsn & Hp & Ht & Hti & Hc & Hr & Hrn & Hk & Hu & Hl) Hpid Hv. cbn zeta. unfold handle_sample, sample_body.
  destruct (id_written (ps_pid x) (ps_tid x) (ps_time x) (ps_cpu x)
    (Jitdump.to_le 8 (Z.of_nat (length (ps_readings x))) ++ readings_bytes (ps_readings x) ++
     chain_bytes (ps_kernel x) (ps_user x) ++ from_option snapshot_bytes [] (ps_snapshot x)) Hp Ht Hti Hc)
    as (c1 & c2 & c3 & c4 & -> & -> & -> & -> & ->).
  rewrite Hpid, observe_target by done. cbn [negb]. unfold u64_or_0 at 1. rewrite read_u64_le by done.
  cbn [default from_option id]. rewrite read_pmu_written by (rewrite ?length_app, ?readings_length; done || lia).
  destruct (chain_written (ps_kernel x) (ps_user x) (from_option snapshot_bytes [] (ps_snapshot x)) Hk Hu Hl)
    as (rest & Hn & Hi & Hcc).
  cbv beta iota zeta. rewrite Hn, Hi, Hcc. by rewrite dwarf_stack_written.
Qed.

(** The on-CPU interval that a sample at [time] ends. *)
Definition slice_closed (s : Session) (p tid time : Z) : list call :=
  match last_sample_ts s !! tid with
  | Some prev =>
      if bool_decide (time <> 0 /\ prev < time /\ 0 < max_on_cpu_gap_ns s)
      then [on_cpu_interval (mkCpuIntervalEvent p tid prev (Z.min time (prev + max_on_cpu_gap_ns s)) OnCpu)] else []
  | None => []
  end.

Lemma close_on_cpu_sink p tid time s :
  sink (close_on_cpu p tid time s) = sink s ++ slice_closed s p tid time.
Proof.
  unfold close_on_cpu, slice_closed. destruct (last_sample_ts s !! tid) as [prev|].
  - case_bool_decide as E0; [rewrite bool_decide_eq_false_2 by (intros (? & _); done); by rewrite app_nil_r|].
    case_bool_decide as E1; [|rewrite bool_decide_eq_false_2 by (intros (_ & ? & _); done); cbn; by rewrite app_nil_r].
    case_bool_decide as E2.
    + rewrite bool_decide_eq_true_2 by lia. cbn. do 4 f_equal. lia.
    + rewrite bool_decide_eq_false_2 by lia. cbn. by rewrite app_nil_r.
  - case_bool_decide; cbn; by rewrite app_nil_r.
Qed.

(** C22. A sample the kernel writes is the sample that is published. The record that
    carries the target's thread, its counters, none of them twice, and both halves
    of its call chain, with or without registers and a copy of the stack, becomes
    one call with the kernel frames of the chain and the user frames of the chain,
    joined, when the session unwinds and the copy is usable, to those of the walk
    over the copy from the sample's registers; per counter it has what the counter
    has grown by on that CPU since the last sample there (0 when the group does not
    have it); the sample ends the thread's running on-CPU slice at its time, or at
    the cap; and the CPU's counters are then those of the sample. *)
Theorem sample_exact `{Dwarf.Framehop} x s :
  sample_ok x -> ps_pid x = pid s -> valid_tid (ps_tid x) = true ->
  slots_ok (prev_pmu_per_cpu s) ->
  (forall k, (length (omap (reading_of (pmu_id_to_kind s) k) (ps_readings x)) <= 1)%nat) ->
  let before k := counter (prev_pmu_per_cpu s) (ps_cpu x) k in
  let reading k := head (omap (reading_of (pmu_id_to_kind s) k) (ps_readings x)) in
  let grown k := match reading k with Some v => ssub v (before k) | None => 0 end in
  let s' := handle_sample (sample_body x) s in
  sink s' = sink s
    ++ on_sample (mkSampleEvent (ps_time x) (ps_pid x) (ps_tid x) (user_frames x s) (ps_kernel x)
                    (grown Cycles) (grown Instructions) (grown L1dMisses) (grown BranchMisses))
    :: slice_closed s (ps_pid x) (ps_tid x) (ps_time x) /\
  (forall k, counter (prev_pmu_per_cpu s') (ps_cpu x) k = default (before k) (reading k)).
Proof.
  intros Hx Hp Hv Hs Honce before reading grown s'. unfold s'. rewrite handle_sample_written by done. cbn zeta.
  destruct (count_readings (pmu_id_to_kind s) (ps_cpu x) (ps_readings x) (prev_pmu_per_cpu s) (replicate 4 0)
              Hs eq_refl Honce) as (_ & _ & Hk).
  set (st := foldl _ _ _) in *.
  assert (forall k, st.2 !!! index k = grown k /\ counter st.1 (ps_cpu x) k = default (before k) (reading k)) as Hst.
  { intros k. specialize (Hk k). unfold grown, before. fold (reading k) in Hk.
    destruct (reading k); [done|]. destruct Hk as [-> ->]. by destruct k. }
  set (s0 := count_truncated _ _).
  assert (sink s0 = sink s /\ last_sample_ts s0 = last_sample_ts s /\ max_on_cpu_gap_ns s0 = max_on_cpu_gap_ns s /\
          prev_pmu_per_cpu s0 = st.1) as (K1 & K2 & K3 & K4).
  { unfold s0, count_truncated. by destruct (unwound _ _) as [[? []]|]. }
  unfold deliver_sample. destruct (Hst Cycles) as [-> _], (Hst Instructions) as [-> _], (Hst L1dMisses) as [-> _],
    (Hst BranchMisses) as [-> _]. clearbody s0. split.
  - set (s1 := close_on_cpu _ _ _ _). transitivity (sink s1); [by case_bool_decide|]. unfold s1.
    rewrite close_on_cpu_sink. cbn [sink calls]. unfold slice_closed. cbn. by rewrite K1, K2, K3, <- app_assoc.
  - intros k. destruct (Hst k) as [_ <-]. f_equal. set (s1 := close_on_cpu _ _ _ _).
    transitivity (prev_pmu_per_cpu s1); [by case_bool_decide|]. rewrite <- K4. unfold s1, close_on_cpu.
    repeat case_bool_decide; try done; destruct (last_sample_ts _ !! _); repeat case_bool_decide; done.
Qed.

#[local] Instance sample_ok_dec x : Decision (sample_ok x).
Proof.
  unfold sample_ok, frames_ok, snapshot_ok, is_u32, is_u64. apply and_dec; [|apply _].
  destruct (ps_snapshot x); cbn; apply _.
Defined.

#[local] Instance no_unwinder : Dwarf.Framehop := fun _ _ _ _ _ _ => Dwarf.Cut.

(** An unwinder that finds the caller in the word the stack pointer is at. *)
Definition one_caller : Dwarf.Framehop := fun _ ip sp _ read i =>
  match i with
  | O => Dwarf.Frame ip
  | 1%nat => match read sp with Some pc => Dwarf.Frame pc | None => Dwarf.Cut end
  | _ => Dwarf.EndOfStack
  end.

(** A session that has seen a thread's first sample. *)

Definition demo_session : Session :=
  (new_session 100 1000 false None {[7 := Cycles; 8 := Instructions]} (Some (24, 4)) None 0)
    <| prev_pmu_per_cpu := {[2 := [1000; 50; 0; 0]]} |> <| last_sample_ts := {[101 := 5000000]} |>
    <| last_user_stack := {[101 := [0x55d0c0001234]]} |> <| target_tids := {[101; 102]} |>.

Definition demo_sample : PerfSample :=
  mkPerfSample 100 101 6000000 2 [(90000, 4); (1400, 7); (80, 8)] [0xffffffff81000010] [0x55d0c0001234; 0x55d0c0001000] None.

(** The same sample with a copy of the stack whose first word is the caller that
    the frame pointers miss, in a session that unwinds. *)
Definition demo_unwound : PerfSample :=
  mkPerfSample 100 101 6000000 2 [(90000, 4); (1400, 7); (80, 8)] [0xffffffff81000010] [0x55d0c0001234]
    (Some (mkSnapshot 0x7ffc00000020 0x7ffc00000000 0x55d0c0001234
       (Jitdump.to_le 8 0x55d0c0002000 ++ Jitdump.to_le 8 0) 16)).

Definition unwinding_session : Session := demo_session <| dwarf_unwind := true |> <| dwarf := Some [] |>.

Lemma sample_exact_witness :
  sink (handle_sample (H := one_caller) (sample_body demo_unwound) unwinding_session) =
  [on_sample (mkSampleEvent 6000000 100 101 [0x55d0c0001234; 0x55d0c0002000] [0xffffffff81000010] 400 30 0 0);
   on_cpu_interval (mkCpuIntervalEvent 100 101 5000000 6000000 OnCpu)].
Proof.
  refine (eq_trans (proj1 (sample_exact (H := one_caller) demo_unwound unwinding_session _ eq_refl eq_refl _ _)) _).
  - apply (bool_decide_unpack _). by vm_compute.
  - intros cpu slot. cbn. intros [<- <-]%lookup_singleton_Some. done.
  - intros k. destruct k; vm_compute; lia.
  - vm_compute. reflexivity.
Defined.

(** ** A wait and its wakeup *)

Lemma on_switch_written w misc np nt tid time cpu s :
  is_u32 np -> is_u32 nt -> is_u32 (pid s) -> is_u32 tid -> is_u64 time -> is_u32 cpu -> valid_tid tid = true ->
  on_switch w misc (switch_body np nt (pid s) tid time cpu) s =
  apply_switch w misc tid time (s <| target_tids ::= fun t => {[tid]} ∪ t |>).
Proof.
  intros Hnp Hnt Hp Ht Hti Hc Hv. unfold on_switch, switch_body. rewrite read_u32_le by done. rewrite read_u32_le by done.
  destruct (id_written (pid s) tid time cpu [] Hp Ht Hti Hc) as (c1 & c2 & c3 & c4 & H1 & H2 & H3 & H4 & H5).
  rewrite app_nil_r in H1. rewrite H1, H2, H3, H4, H5. by rewrite observe_target.
Qed.

Lemma on_waking_written off sz p waker time cpu kernel user raw s :
  waking_offsets s = Some (off, sz) ->
  is_u32 p -> is_u32 waker -> is_u64 time -> is_u32 cpu -> frames_ok kernel -> frames_ok user ->
  is_u64 (Z.of_nat (length kernel + length user + 2)) -> is_u32 (Z.of_nat (length raw)) ->
  on_sample_from_waking (waking_body p waker time cpu kernel user raw) s =
  match wakee_of (off, sz) raw with
  | Some wakee => deliver_waking waker wakee time user kernel s
  | None => s
  end.
Proof.
  intros Ho Hp Ht Hti Hc Hk Hu Hl Hraw. unfold on_sample_from_waking, waking_body. rewrite Ho.
  destruct (id_written p waker time cpu (chain_bytes kernel user ++ Jitdump.to_le 4 (Z.of_nat (length raw)) ++ raw)
              Hp Ht Hti Hc) as (c1 & c2 & c3 & c4 & H1 & H2 & H3 & H4 & H5).
  rewrite H1. unfold u32_or_0, u64_or_0. rewrite H2, H3, H4, H5. cbn [default from_option id].
  destruct (chain_written kernel user (Jitdump.to_le 4 (Z.of_nat (length raw)) ++ raw) Hk Hu Hl) as (rest & Hn & Hi & Hcc).
  rewrite Hn, Hi, Hcc. cbn [negb]. rewrite read_u32_le by done. unfold read_bytes. rewrite bool_decide_eq_true_2 by lia.
  by rewrite Nat2Z.id, firstn_all.
Qed.

(** The waker a switch-in at [time] finds. *)
Definition waker_at (s : Session) (tid time : Z) : option RecentWaking :=
  wk ← recent_waking s !! tid; if bool_decide (ssub time (time_ns wk) <= WAKING_STALENESS_NS) then Some wk else None.

(** The stack a wait is charged to: the kernel function waited in, then the
    stack the thread blocked in, or else its last sample's. *)
Definition waiting_stack (w : World) (s : Session) (tid : Z) : list Z :=
  option_list (Proc.wchan_addr (wchan w tid) (kallsyms s)) ++
  default [] (match switch_stack s !! tid with Some b => Some b | None => last_user_stack s !! tid end).

Lemma switch_out_parks w tid time s :
  off_start (switch_out w tid time s) !! tid = Some (time, waiting_stack w s tid).
Proof.
  unfold switch_out, waiting_stack. cbn. rewrite lookup_insert_eq. do 2 f_equal.
  by destruct (Proc.wchan_addr _ _).
Qed.

Lemma switch_in_sink tid time start stack s :
  off_start s !! tid = Some (start, stack) -> start < time ->
  sink (switch_in tid time s) = sink s ++ [on_cpu_interval (mkCpuIntervalEvent (pid s) tid start time
    (OffCpu stack (waker_tid <$> waker_at s tid time) (waker_user_stack <$> waker_at s tid time)))].
Proof.
  intros Hoff Hlt. unfold switch_in. rewrite Hoff, bool_decide_eq_true_2 by done. cbn. do 4 f_equal; by f_equal.
Qed.

Lemma apply_switch_in w tid time s : apply_switch w 0 tid time s =
  switch_in tid time (if bool_decide (time <> 0) then s <| last_ts ::= fun t => Z.max t time |> else s).
Proof. done. Qed.

Lemma apply_switch_out w tid time s : apply_switch w PERF_RECORD_MISC_SWITCH_OUT tid time s =
  switch_out w tid time (if bool_decide (time <> 0) then s <| last_ts ::= fun t => Z.max t time |> else s).
Proof. done. Qed.

(** A switch out and back in, as the session sees the two records. *)
Section Wait.
Variables (w w' : World) (tid t0 t2 cpu np nt : Z).
Hypothesis Htid : is_u32 tid /\ valid_tid tid = true.
Hypothesis Htimes : is_u64 t0 /\ is_u64 t2 /\ t0 < t2.
Hypothesis Hids : is_u32 cpu /\ is_u32 np /\ is_u32 nt.

Definition out_record (s : Session) : Z * Z * list Z :=
  (PERF_RECORD_SWITCH_CPU_WIDE, PERF_RECORD_MISC_SWITCH_OUT, switch_body np nt (pid s) tid t0 cpu).
Definition in_record (s : Session) : Z * Z * list Z :=
  (PERF_RECORD_SWITCH_CPU_WIDE, 0, switch_body np nt (pid s) tid t2 cpu).

Lemma wait_in parse `{Dwarf.Framehop} stack s :
  off_start s !! tid = Some (t0, stack) -> is_u32 (pid s) ->
  let s' := handle parse w' Switch (in_record s) s in
  sink s' = sink s ++ [on_cpu_interval (mkCpuIntervalEvent (pid s) tid t0 t2
              (OffCpu stack (waker_tid <$> waker_at s tid t2) (waker_user_stack <$> waker_at s tid t2)))] /\
  recent_waking s' = delete tid (recent_waking s) /\ off_start s' !! tid = None /\
  pid s' = pid s /\ tid ∈ target_tids s' /\ waking_offsets s' = waking_offsets s.
Proof using Htid Htimes Hids.
  intros Hoff Hpid. destruct Htid as [Ht Hv], Htimes as (H0 & H2 & Hlt), Hids as (Hc & Hn1 & Hn2).
  cbn zeta. change (handle parse w' Switch (in_record s) s) with (on_switch w' 0 (switch_body np nt (pid s) tid t2 cpu) s).
  rewrite on_switch_written by done. rewrite apply_switch_in.
  set (s2 := if bool_decide _ then _ else _).
  assert (off_start s2 = off_start s /\ sink s2 = sink s /\ recent_waking s2 = recent_waking s /\ pid s2 = pid s /\
          tid ∈ target_tids s2 /\ waking_offsets s2 = waking_offsets s) as (E1 & E2 & E3 & E4 & E5 & E6).
  { unfold s2. case_bool_decide; cbn; split_ands; try done; set_solver. }
  rewrite (switch_in_sink tid t2 t0 stack) by (by rewrite ?E1).
  assert (waker_at s2 tid t2 = waker_at s tid t2) as -> by (unfold waker_at; by rewrite E3).
  rewrite E2, E4. split; [done|]. unfold switch_in. rewrite E1, Hoff, bool_decide_eq_true_2 by done. cbn.
  by rewrite E3, E4, E1, E6, lookup_delete_eq.
Qed.

Lemma wait_out parse `{Dwarf.Framehop} s :
  is_u32 (pid s) ->
  let s1 := handle parse w Switch (out_record s) s in
  off_start s1 !! tid = Some (t0, waiting_stack w s tid) /\ pid s1 = pid s /\ sink s1 = sink s /\
  waking_offsets s1 = waking_offsets s /\ recent_waking s1 = recent_waking s /\ tid ∈ target_tids s1.
Proof using Htid Htimes Hids.
  intros Hpid. destruct Htid as [Ht Hv], Htimes as (H0 & H2 & Hlt), Hids as (Hc & Hn1 & Hn2).
  cbn zeta. change (handle parse w Switch (out_record s) s)
    with (on_switch w PERF_RECORD_MISC_SWITCH_OUT (switch_body np nt (pid s) tid t0 cpu) s).
  rewrite on_switch_written by done. rewrite apply_switch_out. rewrite switch_out_parks.
  case_bool_decide; cbn; split_ands; try done; set_solver.
Qed.
End Wait.

(** A wakeup of the thread, as the tracepoint reports it. *)
Section Wakeup.
Variables (off : Z) (waker_pid waker t1 wcpu : Z) (kernel user raw : list Z).
Hypothesis Hwaker : is_u32 waker_pid /\ 0 <= waker <= 2 ^ 31 - 1 /\ is_u64 t1 /\ is_u32 wcpu.
Hypothesis Hchain : frames_ok kernel /\ frames_ok user /\ is_u64 (Z.of_nat (length kernel + length user + 2)) /\
  is_u32 (Z.of_nat (length raw)).

Definition wake_record : Z * Z * list Z :=
  (PERF_RECORD_SAMPLE, 0, waking_body waker_pid waker t1 wcpu kernel user raw).

Lemma wake parse `{Dwarf.Framehop} w tid sz s :
  waking_offsets s = Some (off, sz) -> wakee_of (off, sz) raw = Some tid -> valid_tid tid = true -> tid ∈ target_tids s ->
  let s' := handle parse w Waking wake_record s in
  sink s' = sink s ++ [on_wakeup (mkWakeupEvent t1 (pid s) waker tid user kernel)] /\
  recent_waking s' = <[tid := mkRecentWaking waker user kernel t1]> (recent_waking s) /\
  off_start s' = off_start s /\ pid s' = pid s /\ waking_offsets s' = waking_offsets s.
Proof using Hwaker Hchain.
  intros Ho Hw Hv Hin. destruct Hwaker as (H1 & H2 & H3 & H4), Hchain as (H5 & H6 & H7 & H8). cbn zeta.
  change (handle parse w Waking wake_record s)
    with (on_sample_from_waking (waking_body waker_pid waker t1 wcpu kernel user raw) s).
  rewrite (on_waking_written off sz) by (width; done || lia). rewrite Hw. unfold deliver_waking.
  rewrite Hv, (bool_decide_eq_true_2 (tid ∈ _)), (bool_decide_eq_false_2 (_ < waker)) by (done || lia). cbn [negb orb].
  by case_bool_decide.
Qed.
End Wakeup.

(** C23. A wait is reported as it was: a thread that blocks at [t0], is woken at
    [t1] and runs again at [t2] becomes one off-CPU interval from [t0] to [t2],
    with the kernel function it waits in and the stack it blocked in, and with
    its waker and the waker's stack, when the records are handled in this order
    and the wakeup is recent. *)
Theorem wait_exact `{Dwarf.Framehop} parse w w1 w2 s tid t0 t1 t2 cpu np nt off sz waker_pid waker wcpu kernel user raw :
  is_u32 tid /\ valid_tid tid = true -> is_u64 t0 /\ is_u64 t2 /\ t0 < t2 -> is_u32 cpu /\ is_u32 np /\ is_u32 nt ->
  is_u32 waker_pid /\ 0 <= waker <= 2 ^ 31 - 1 /\ is_u64 t1 /\ is_u32 wcpu ->
  frames_ok kernel /\ frames_ok user /\ is_u64 (Z.of_nat (length kernel + length user + 2)) /\
    is_u32 (Z.of_nat (length raw)) ->
  is_u32 (pid s) -> waking_offsets s = Some (off, sz) -> wakee_of (off, sz) raw = Some tid ->
  t2 - t1 <= WAKING_STALENESS_NS ->
  let s1 := handle parse w Switch (out_record tid t0 cpu np nt s) s in
  let s2 := handle parse w1 Waking (wake_record waker_pid waker t1 wcpu kernel user raw) s1 in
  let s' := handle parse w2 Switch (in_record tid t2 cpu np nt s2) s2 in
  sink s' = sink s ++
    [on_wakeup (mkWakeupEvent t1 (pid s) waker tid user kernel);
     on_cpu_interval (mkCpuIntervalEvent (pid s) tid t0 t2 (OffCpu (waiting_stack w s tid) (Some waker) (Some user)))] /\
  recent_waking s' !! tid = None.
Proof.
  intros Htid Htimes Hids Hwaker Hchain Hp Ho Hw Hst s1 s2 s'.
  destruct (wait_out w tid t0 t2 cpu np nt Htid Htimes Hids parse s Hp) as (O1 & O2 & O3 & O4 & O5 & O6). fold s1 in O1, O2, O3, O4, O5, O6.
  destruct (wake off waker_pid waker t1 wcpu kernel user raw Hwaker Hchain parse w1 tid sz s1) as (W1 & W2 & W3 & W4 & W5);
    [by rewrite O4|done|apply Htid|done|]. fold s2 in W1, W2, W3, W4, W5.
  assert (waker_at s2 tid t2 = Some (mkRecentWaking waker user kernel t1)) as Hwk.
  { unfold waker_at. rewrite W2, lookup_insert_eq. cbn. rewrite bool_decide_eq_true_2; [done|]. unfold WAKING_STALENESS_NS in *. width. lia. }
  destruct (wait_in w2 tid t0 t2 cpu np nt Htid Htimes Hids parse (waiting_stack w s tid) s2) as (I1 & I2 & _);
    [by rewrite W3|by rewrite W4, O2|]. fold s' in I1, I2.
  rewrite I1, I2, W1, O3, W4, O2, Hwk, lookup_delete_eq. by rewrite <- app_assoc.
Qed.

(** The rings are drained one after the other, so the records of a turn are
    handled ring by ring. *)
Lemma sweep_two `{Dwarf.Framehop} parse w r1 r2 d1 h1 d2 h2 s :
  let a := records (drain h1 (r1 <| r_data := d1 |>)).1 in
  let b := records (drain h2 (r2 <| r_data := d2 |>)).1 in
  (sweep parse w [r1; r2] [(d1, h1); (d2, h2)] s).2 =
  foldl (fun s r => handle parse w (r_kind r2) r s) (foldl (fun s r => handle parse w (r_kind r1) r s) s a) b.
Proof.
  assert (forall h r, r_kind (drain h r).2 = r_kind r) as Hk by (intros h r; unfold drain; by case_bool_decide).
  pose proof (Hk h1 (r1 <| r_data := d1 |>)) as H1. pose proof (Hk h2 (r2 <| r_data := d2 |>)) as H2.
  cbn zeta. cbn [sweep]. unfold drain_dispatch. destruct (drain h1 _) as [a r1'], (drain h2 _) as [b r2'].
  cbn [snd fst] in *. rewrite H1, H2. done.
Qed.

(** C40. The waker of a short wait is lost, and then blamed for another one: when
    a thread blocks, is woken and runs again within one turn of the loop, the
    switch ring is drained before the wakeup ring, so the interval is
    published without its waker, and the wakeup stays to be charged to any
    later wait of the thread that ends within 100 ms, even one that starts
    after it. *)
Theorem wakeup_misattributed `{Dwarf.Framehop} parse w s tid t0 t1 t2 cpu np nt off sz waker_pid waker wcpu kernel user raw
    d1 h1 tl1 d2 h2 tl2 :
  is_u32 tid /\ valid_tid tid = true -> is_u64 t0 /\ is_u64 t2 /\ t0 < t2 -> is_u32 cpu /\ is_u32 np /\ is_u32 nt ->
  is_u32 waker_pid /\ 0 <= waker <= 2 ^ 31 - 1 /\ is_u64 t1 /\ is_u32 wcpu ->
  frames_ok kernel /\ frames_ok user /\ is_u64 (Z.of_nat (length kernel + length user + 2)) /\
    is_u32 (Z.of_nat (length raw)) ->
  is_u32 (pid s) -> waking_offsets s = Some (off, sz) -> wakee_of (off, sz) raw = Some tid -> recent_waking s !! tid = None ->
  records (drain h1 (mkPerfRing Switch d1 tl1)).1 = [out_record tid t0 cpu np nt s; in_record tid t2 cpu np nt s] ->
  records (drain h2 (mkPerfRing Waking d2 tl2)).1 = [wake_record waker_pid waker t1 wcpu kernel user raw] ->
  let s' := (sweep parse w [mkPerfRing Switch d1 tl1; mkPerfRing Waking d2 tl2] [(d1, h1); (d2, h2)] s).2 in
  sink s' = sink s ++
    [on_cpu_interval (mkCpuIntervalEvent (pid s) tid t0 t2 (OffCpu (waiting_stack w s tid) None None));
     on_wakeup (mkWakeupEvent t1 (pid s) waker tid user kernel)] /\
  forall w3 w4 t3 t4, is_u64 t3 -> is_u64 t4 -> t1 < t3 < t4 -> t4 - t1 <= WAKING_STALENESS_NS ->
    let s1 := handle parse w3 Switch (out_record tid t3 cpu np nt s') s' in
    let s2 := handle parse w4 Switch (in_record tid t4 cpu np nt s1) s1 in
    sink s2 = sink s' ++ [on_cpu_interval (mkCpuIntervalEvent (pid s) tid t3 t4
                            (OffCpu (waiting_stack w3 s' tid) (Some waker) (Some user)))].
Proof.
  intros Htid Htimes Hids Hwaker Hchain Hp Ho Hw Hnone Hr1 Hr2 s'. unfold s'. rewrite sweep_two.
  change ((mkPerfRing Switch d1 tl1) <| r_data := d1 |>) with (mkPerfRing Switch d1 tl1).
  change ((mkPerfRing Waking d2 tl2) <| r_data := d2 |>) with (mkPerfRing Waking d2 tl2).
  rewrite Hr1, Hr2. cbn [foldl r_kind]. clear s'.
  destruct (wait_out w tid t0 t2 cpu np nt Htid Htimes Hids parse s Hp) as (O1 & O2 & O3 & O4 & O5 & O6).
  set (s1 := handle parse w Switch (out_record tid t0 cpu np nt s) s) in *.
  assert (in_record tid t2 cpu np nt s = in_record tid t2 cpu np nt s1) as -> by (unfold in_record; by rewrite O2).
  destruct (wait_in w tid t0 t2 cpu np nt Htid Htimes Hids parse (waiting_stack w s tid) s1)
    as (I1 & I2 & I3 & I4 & I5 & I6); [done|by rewrite O2|].
  set (s2 := handle parse w Switch (in_record tid t2 cpu np nt s1) s1) in *.
  destruct (wake off waker_pid waker t1 wcpu kernel user raw Hwaker Hchain parse w tid sz s2) as (W1 & W2 & W3 & W4 & W5);
    [by rewrite I6, O4|done|apply Htid|done|].
  set (s3 := handle parse w Waking _ s2) in *. split.
  - assert (waker_at s1 tid t2 = None) as Hn by (unfold waker_at; by rewrite O5, Hnone).
    rewrite W1, I1, I4, O2, O3, Hn. by rewrite <- app_assoc.
  - intros w3 w4 t3 t4 Ht3 Ht4 Hlt Hst. assert (pid s3 = pid s) as Hp3 by (by rewrite W4, I4, O2).
    assert (is_u64 t3 /\ is_u64 t4 /\ t3 < t4) as Htimes' by (split; [done|]; split; [done|lia]).
    destruct (wait_out w3 tid t3 t4 cpu np nt Htid Htimes' Hids parse s3) as (P1 & P2 & P3 & P4 & P5 & P6); [by rewrite Hp3|].
    cbn zeta. set (s4 := handle parse w3 Switch (out_record tid t3 cpu np nt s3) s3) in *.
    destruct (wait_in w4 tid t3 t4 cpu np nt Htid Htimes' Hids parse (waiting_stack w3 s3 tid) s4) as (J1 & _);
      [done|by rewrite P2, Hp3|].
    assert (waker_at s4 tid t4 = Some (mkRecentWaking waker user kernel t1)) as Hwk.
    { unfold waker_at. rewrite P5, W2, lookup_insert_eq. cbn. rewrite bool_decide_eq_true_2; [done|].
      unfold WAKING_STALENESS_NS in *. width. lia. }
    rewrite J1, Hwk, P3, P2, Hp3. done.
Qed.

#[local] Instance frames_ok_dec l : Decision (frames_ok l).
Proof. unfold frames_ok. apply _. Defined.
#[local] Instance is_u64_dec z : Decision (is_u64 z).
Proof. unfold is_u64. apply _. Defined.
#[local] Instance is_u32_dec z : Decision (is_u32 z).
Proof. unfold is_u32. apply _. Defined.

(** A world in which thread 101 waits in [futex_wait_queue]. *)
Definition demo_world : World :=
  mkWorld (fun _ => Some (str "futex_wait_queue")) None [] (fun _ => None) PerfMap.NotFound false false None 0.

Definition waiting_session : Session := demo_session <| kallsyms := {[str "futex_wait_queue" := 0xffffffff81089000]} |>.

(** The tracepoint's payload, whose wakee is thread 101. *)
Definition demo_raw : list Z := replicate 24 0 ++ Jitdump.to_le 4 101 ++ Jitdump.to_le 4 120.

Lemma wait_exact_witness :
  let s1 := handle (fun _ => None) demo_world Switch (out_record 101 6000000 2 0 0 waiting_session) waiting_session in
  let s2 := handle (fun _ => None) demo_world Waking (wake_record 100 102 7000000 3 [] [0x55d0c0002000] demo_raw) s1 in
  sink (handle (fun _ => None) demo_world Switch (in_record 101 7010000 2 0 0 s2) s2) =
  [on_wakeup (mkWakeupEvent 7000000 100 102 101 [0x55d0c0002000] []);
   on_cpu_interval (mkCpuIntervalEvent 100 101 6000000 7010000
     (OffCpu [0xffffffff81089000; 0x55d0c0001234] (Some 102) (Some [0x55d0c0002000])))].
Proof.
  assert (frames_ok [] /\ frames_ok [0x55d0c0002000] /\ is_u64 (Z.of_nat (0 + 1 + 2)) /\
          is_u32 (Z.of_nat (length demo_raw))) as Hchain by (apply (bool_decide_unpack _); by vm_compute).
  pose proof (wait_exact (fun _ => None) demo_world demo_world demo_world waiting_session 101 6000000 7000000
    7010000 2 0 0 24 4 100 102 3 [] [0x55d0c0002000] demo_raw ltac:(by vm_compute) ltac:(by vm_compute) ltac:(by vm_compute)
    ltac:(by vm_compute) Hchain ltac:(by vm_compute) eq_refl ltac:(by vm_compute) ltac:(by vm_compute)) as W.
  cbv zeta in W |- *. rewrite (proj1 W). vm_compute. reflexivity.
Defined.

Definition data_of (rs : list (Z * Z * list Z)) : list Z := rs ≫= record_bytes.

Definition demo_switches : list (Z * Z * list Z) :=
  [out_record 101 6000000 2 0 0 waiting_session; in_record 101 7010000 2 0 0 waiting_session].
Definition demo_wakes : list (Z * Z * list Z) := [wake_record 100 102 7000000 3 [] [0x55d0c0002000] demo_raw].

Lemma wakeup_misattributed_witness :
  sink (sweep (fun _ => None) demo_world [mkPerfRing Switch (data_of demo_switches) 0; mkPerfRing Waking (data_of demo_wakes) 0]
          [(data_of demo_switches, Z.of_nat (length (data_of demo_switches)));
           (data_of demo_wakes, Z.of_nat (length (data_of demo_wakes)))] waiting_session).2 =
  [on_cpu_interval (mkCpuIntervalEvent 100 101 6000000 7010000 (OffCpu [0xffffffff81089000; 0x55d0c0001234] None None));
   on_wakeup (mkWakeupEvent 7000000 100 102 101 [0x55d0c0002000] [])].
Proof.
  assert (frames_ok [] /\ frames_ok [0x55d0c0002000] /\ is_u64 (Z.of_nat (0 + 1 + 2)) /\
          is_u32 (Z.of_nat (length demo_raw))) as Hchain by (apply (bool_decide_unpack _); by vm_compute).
  pose proof (wakeup_misattributed (fun _ => None) demo_world waiting_session 101 6000000 7000000
    7010000 2 0 0 24 4 100 102 3 [] [0x55d0c0002000] demo_raw (data_of demo_switches)
    (Z.of_nat (length (data_of demo_switches))) 0 (data_of demo_wakes)
    (Z.of_nat (length (data_of demo_wakes))) 0 ltac:(by vm_compute) ltac:(by vm_compute) ltac:(by vm_compute)
    ltac:(by vm_compute) Hchain ltac:(by vm_compute) eq_refl ltac:(by vm_compute) eq_refl ltac:(by vm_compute)
    ltac:(by vm_compute)) as W.
  cbv zeta in W |- *. rewrite (proj1 W). vm_compute. reflexivity.
Defined.

(** A thread that blocks on one CPU and wakes up on a lower one within a turn is
    parked behind its switch-in: here it runs from 7 ms on, is sampled at 50 ms,
    and is reported blocked from 6 ms to 50 ms. *)
Example migrated_thread_blocked :
  let ring rs := mkPerfRing Switch (data_of rs) 0 in
  let cpu0 := [in_record 101 7000000 0 0 0 waiting_session] in
  let cpu1 := [out_record 101 6000000 1 0 0 waiting_session] in
  let s := (sweep (fun _ => None) demo_world [ring cpu0; ring cpu1]
              [(data_of cpu0, Z.of_nat (length (data_of cpu0))); (data_of cpu1, Z.of_nat (length (data_of cpu1)))]
              waiting_session).2 in
  let s := handle_sample (sample_body (mkPerfSample 100 101 50000000 0 [] [] [0x55d0c0001234] None)) s in
  last (sink (flush_off_cpu (H0 := canonical_order) s)) =
  Some (on_cpu_interval (mkCpuIntervalEvent 100 101 6000000 50000000
          (OffCpu [0xffffffff81089000; 0x55d0c0001234] None None))).
Proof. vm_compute. reflexivity. Qed.

End LinuxSession.
