(* ===== verification/LinuxRecording.v ===== *)
(** * What a Linux recording emits

    The abstract specification of the session of LinuxSession.v: a machine that
    knows the target's threads, which of them are parked, the images and names it
    has announced, and the log of its calls.  Every operation of the session, on
    any bytes, is a sequence of its steps, so its invariant holds of every
    recording. *)

From S2P Require Import Prelude Sink Text JitImages Jitdump Elf Dwarf Perf Proc LinuxSession.

Module LinuxRecording.

Export LinuxSession.
Import Perf.

(** ** The machine *)

Record View := mkView {
  v_pid : Z;
  v_gap : Z;
  v_tids : gset Z;
  v_parked : gset Z;
  v_last : gmap Z Z;
  v_names : gmap Z (list Z);
  v_seen : gset Z;
  v_log : list call;
  v_samples : Z;
  v_intervals : Z;
  v_off_cpu : Z;
  v_binaries : Z
}.

#[export] Instance eta_View : Eta View := fun v =>
  mkView (v_pid v) (v_gap v) (v_tids v) (v_parked v) (v_last v) (v_names v) (v_seen v) (v_log v) (v_samples v)
    (v_intervals v) (v_off_cpu v) (v_binaries v).

Definition view (s : Session) : View :=
  mkView (pid s) (max_on_cpu_gap_ns s) (target_tids s) (dom (off_start s)) (last_sample_ts s) (thread_names s) (seen s)
    (sink s) (samples (summary s)) (intervals (summary s)) (off_cpu_intervals (summary s)) (binaries (summary s)).

Inductive emits : View -> View -> Prop :=
  | observes tid v :
      valid_tid tid = true -> emits v (v <| v_tids ::= fun t => {[tid]} ∪ t |>)
  | samples_thread e v :
      se_pid e = v_pid v -> se_tid e ∈ v_tids v ->
      emits v (v <| v_log ::= fun l => l ++ [on_sample e] |> <| v_samples ::= fun n => sadd64 n 1 |>)
  | ticks tid time v :
      (forall prev, v_last v !! tid = Some prev -> prev < time) ->
      emits v (v <| v_last ::= insert tid time |>)
  | closes_slice tid prev time v :
      tid ∈ v_tids v -> v_last v !! tid = Some prev -> prev < time -> 0 < v_gap v ->
      emits v (v <| v_log ::= fun l => l ++ [on_cpu_interval
                      (mkCpuIntervalEvent (v_pid v) tid prev (prev + Z.min (time - prev) (v_gap v)) OnCpu)] |>
                 <| v_intervals ::= fun n => sadd64 n 1 |> <| v_last ::= insert tid time |>)
  | parks tid v :
      tid ∈ v_tids v -> emits v (v <| v_parked ::= fun p => {[tid]} ∪ p |>)
  | unparks p v :
      p ⊆ v_parked v -> emits v (v <| v_parked := p |>)
  | closes_wait tid start time stack waker waker_stack v :
      tid ∈ v_tids v -> start < time ->
      emits v (v <| v_log ::= fun l => l ++ [on_cpu_interval
                      (mkCpuIntervalEvent (v_pid v) tid start time (OffCpu stack waker waker_stack))] |>
                 <| v_off_cpu ::= fun n => sadd64 n 1 |>)
  | wakes e v :
      we_pid e = v_pid v -> we_wakee_tid e ∈ v_tids v -> we_waker_tid e <= 2 ^ 31 - 1 ->
      emits v (v <| v_log ::= fun l => l ++ [on_wakeup e] |>)
  | names_thread tid name v :
      tid ∈ v_tids v -> v_names v !! tid <> Some name ->
      emits v (v <| v_log ::= fun l => l ++ [on_thread_name (mkThreadNameEvent (v_pid v) tid name)] |>
                 <| v_names ::= insert tid name |>)
  | sees_image base v :
      base ∉ v_seen v -> emits v (v <| v_seen ::= fun m => {[base]} ∪ m |>)
  | announces_image e v :
      bl_pid e = v_pid v -> bl_path e <> JIT_IMAGE_PATH -> bl_base_avma e ∉ v_seen v ->
      emits v (v <| v_log ::= fun l => l ++ [on_binary_loaded e] |> <| v_seen ::= fun m => {[bl_base_avma e]} ∪ m |>
                 <| v_binaries ::= fun n => sadd64 n 1 |>)
  | announces_jit e v :
      bl_pid e = v_pid v -> bl_path e = JIT_IMAGE_PATH ->
      emits v (v <| v_log ::= fun l => l ++ [on_binary_loaded e] |>).

(** ** Its invariant *)

Definition slice_of (tid : Z) (c : call) : option (Z * Z) :=
  match c with
  | on_cpu_interval e =>
      match ci_kind e with
      | OnCpu => if bool_decide (ci_tid e = tid) then Some (ci_start_ns e, ci_end_ns e) else None
      | OffCpu _ _ _ => None
      end
  | _ => None
  end.

Definition name_of (tid : Z) (c : call) : option (list Z) :=
  match c with
  | on_thread_name e => if bool_decide (tn_tid e = tid) then Some (tn_name e) else None
  | _ => None
  end.

Definition image_base (c : call) : option Z :=
  match c with
  | on_binary_loaded e => if bool_decide (bl_path e = JIT_IMAGE_PATH) then None else Some (bl_base_avma e)
  | _ => None
  end.

Definition is_sample (c : call) : Z := match c with on_sample _ => 1 | _ => 0 end.
Definition image_loaded (c : call) : Z := match image_base c with Some _ => 1 | None => 0 end.

Definition is_interval (on_cpu : bool) (c : call) : Z :=
  match c with
  | on_cpu_interval e =>
      match ci_kind e with OnCpu => if on_cpu then 1 else 0 | OffCpu _ _ _ => if on_cpu then 0 else 1 end
  | _ => 0
  end.

(** A call is about the target and one of its threads; no interval is empty, and
    an on-CPU one is not longer than the cap. *)
Definition call_ok (p gap : Z) (tids : gset Z) (c : call) : Prop :=
  match c with
  | on_sample e => se_pid e = p /\ se_tid e ∈ tids
  | on_cpu_interval e =>
      ci_pid e = p /\ ci_tid e ∈ tids /\ ci_start_ns e < ci_end_ns e /\
      (ci_kind e = OnCpu -> ci_end_ns e - ci_start_ns e <= gap)
  | on_wakeup e => we_pid e = p /\ we_wakee_tid e ∈ tids /\ we_waker_tid e <= 2 ^ 31 - 1
  | on_thread_name e => tn_pid e = p /\ tn_tid e ∈ tids
  | on_binary_loaded e => bl_pid e = p
  | on_kallsyms _ => True
  | on_binary_unloaded _ | on_jitdump _ | on_macho_byte_source => False
  end.

Record threads_ok (v : View) : Prop := {
  ok_tids : forall tid, tid ∈ v_tids v -> valid_tid tid = true;
  ok_parked : v_parked v ⊆ v_tids v;
  ok_calls : Forall (call_ok (v_pid v) (v_gap v) (v_tids v)) (v_log v)
}.

(** The on-CPU slices of a thread follow each other, up to its last sample. *)
Definition slices_ok (v : View) : Prop := forall tid,
  StronglySorted (fun a b => a.2 <= b.1) (omap (slice_of tid) (v_log v)) /\
  Forall (fun a => exists t, v_last v !! tid = Some t /\ a.2 <= t) (omap (slice_of tid) (v_log v)).

Definition names_ok (v : View) : Prop := forall tid, last (omap (name_of tid) (v_log v)) = v_names v !! tid.

(** No base address is announced twice. *)
Definition images_ok (v : View) : Prop :=
  NoDup (omap image_base (v_log v)) /\ Forall (fun b => b ∈ v_seen v) (omap image_base (v_log v)).

Definition counts_ok (v : View) : Prop :=
  v_samples v = sat_sum is_sample (v_log v) /\ v_intervals v = sat_sum (is_interval true) (v_log v) /\
  v_off_cpu v = sat_sum (is_interval false) (v_log v) /\ v_binaries v = sat_sum image_loaded (v_log v).

Record view_ok (v : View) : Prop := {
  ok_threads : threads_ok v;
  ok_slices : slices_ok v;
  ok_names : names_ok v;
  ok_images : images_ok v;
  ok_counts : counts_ok v
}.

Lemma call_ok_mono p gap tids tids' c : tids ⊆ tids' -> call_ok p gap tids c -> call_ok p gap tids' c.
Proof. intros Hs. destruct c; cbn; set_solver. Qed.

Lemma sorted_snoc {A} (R : relation A) l x :
  StronglySorted R l -> Forall (fun y => R y x) l -> StronglySorted R (l ++ [x]).
Proof.
  intros Hs. induction Hs as [|y l Hs IH Hy]; intros Hf; [by repeat constructor|].
  apply Forall_cons in Hf as [Hyx Hf]. cbn. constructor; [by apply IH|]. apply Forall_app. split; [done|]. by constructor.
Qed.

Lemma emits_threads v v' : emits v v' -> threads_ok v -> threads_ok v'.
Proof.
  intros He [Ht Hp Hc]. destruct He; constructor; cbn; try done; try (by apply Forall_app; split; [|repeat constructor]).
  - intros t [->%elem_of_singleton|Hin]%elem_of_union; auto.
  - set_solver.
  - eapply Forall_impl; [exact Hc|]. intros c. apply call_ok_mono. set_solver.
  - apply Forall_app. split; [done|]. repeat constructor; cbn; [done|lia|lia].
  - set_solver.
  - set_solver.
Qed.

Lemma emits_slices v v' : emits v v' -> slices_ok v -> slices_ok v'.
Proof.
  intros He H tid'. specialize (H tid'). destruct H as [Hs Hl].
  destruct He as [| |tid time v Hlast|tid prev time v _ Hprev Hlt _| | | | | | | |]; cbn; rewrite ?omap_snoc; cbn;
    rewrite ?app_nil_r; try done.
  - split; [done|]. eapply Forall_impl; [exact Hl|]. intros a (t & Ht & Ha).
    destruct (decide (tid = tid')) as [->|Hne].
    + exists time. rewrite lookup_insert_eq. split; [done|]. pose proof (Hlast t Ht). lia.
    + exists t. by rewrite lookup_insert_ne.
  - case_bool_decide as E; [subst tid'|].
    + assert (Forall (fun a => a.2 <= prev) (omap (slice_of tid) (v_log v))) as Hle.
      { eapply Forall_impl; [exact Hl|]. intros a (t & Ht & Ha). rewrite Hprev in Ht. by injection Ht as ->. }
      cbn. split; [by apply sorted_snoc|]. apply Forall_app. split; [|apply Forall_singleton].
      * eapply Forall_impl; [exact Hle|]. intros a Ha. exists time. rewrite lookup_insert_eq. split; [done|cbn in *; lia].
      * exists time. rewrite lookup_insert_eq. split; [done|]. cbn. lia.
    + cbn. rewrite app_nil_r. split; [done|]. eapply Forall_impl; [exact Hl|]. intros a (t & Ht & Ha). exists t.
      by rewrite lookup_insert_ne.
Qed.

Lemma emits_names v v' : emits v v' -> names_ok v -> names_ok v'.
Proof.
  intros He H tid'. specialize (H tid'). destruct He; cbn; rewrite ?omap_snoc; cbn; rewrite ?app_nil_r; try done.
  case_bool_decide as E; [subst tid'; cbn; by rewrite lookup_insert_eq, last_snoc|].
  cbn. by rewrite app_nil_r, lookup_insert_ne.
Qed.

Lemma emits_images v v' : emits v v' -> images_ok v -> images_ok v'.
Proof.
  intros He [Hn Hs]. destruct He as [| | | | | | | | |base v Hb|e v _ Hpath Hb|e v _ Hpath]; unfold images_ok; cbn;
    rewrite ?omap_snoc; cbn; rewrite ?app_nil_r; try done.
  - split; [done|]. eapply Forall_impl; [exact Hs|]. set_solver.
  - rewrite bool_decide_eq_false_2 by done. cbn. split.
    + apply NoDup_app. split; [done|]. split; [|apply NoDup_singleton].
      intros b Hin ->%list_elem_of_singleton. eapply Forall_forall in Hs; [|exact Hin]. done.
    + apply Forall_app. split; [|apply Forall_singleton; set_solver]. eapply Forall_impl; [exact Hs|]. set_solver.
  - rewrite bool_decide_eq_true_2 by done. cbn. by rewrite app_nil_r.
Qed.

Lemma emits_counts v v' : emits v v' -> counts_ok v -> counts_ok v'.
Proof.
  intros He (H1 & H2 & H3 & H4). destruct He as [| | | | | | | | | |e v _ Hpath _|e v _ Hpath]; unfold counts_ok; cbn; try done;
    rewrite H1, H2, H3, H4; split_ands; try (by rewrite sat_sum_snoc_0); try (by rewrite (sat_sum_snoc_eq _ _ _ 1)).
  - rewrite (sat_sum_snoc_eq _ _ _ 1); [done| |done]. unfold image_loaded, image_base. by rewrite bool_decide_eq_false_2.
  - rewrite sat_sum_snoc_0; [done|]. unfold image_loaded, image_base. by rewrite bool_decide_eq_true_2.
Qed.

Lemma emits_ok v v' : rtc emits v v' -> view_ok v -> view_ok v'.
Proof.
  induction 1 as [|v w v' He _ IH]; [done|]. intros [H1 H2 H3 H4 H5]. apply IH. constructor;
    eauto using emits_threads, emits_slices, emits_names, emits_images, emits_counts.
Qed.

(** ** The session implements it *)

Section Refinement.
Variable parse : list Z -> option Elf.ElfFile.
Context `{Dwarf.Framehop}.

Definition becomes (s s' : Session) : Prop := rtc emits (view s) (view s').
Local Infix "⇝" := becomes (at level 70).

#[local] Instance becomes_preorder : PreOrder becomes.
Proof. split; [intros s; apply rtc_refl|intros s1 s2 s3; unfold becomes; apply transitivity]. Qed.

Lemma becomes_same s s' : view s = view s' -> s ⇝ s'.
Proof. unfold becomes. by intros ->. Qed.

Lemma becomes_step s v s' : emits (view s) v -> view s' = v -> s ⇝ s'.
Proof. unfold becomes. intros He ->. by apply rtc_once. Qed.

Lemma becomes_foldl {A} (f : Session -> A -> Session) l s :
  (forall s x, x ∈ l -> s ⇝ f s x) -> s ⇝ foldl f s l.
Proof.
  revert s. induction l as [|x l IH]; intros s Hf; cbn [foldl]; [done|].
  transitivity (f s x); [apply Hf; by left|]. apply IH. intros s' y Hy. apply Hf. by right.
Qed.

(** What a step never changes or shrinks. *)
Lemma emits_grows v v' : rtc emits v v' -> v_pid v' = v_pid v /\ v_tids v ⊆ v_tids v'.
Proof.
  induction 1 as [|v w v' He _ [IH1 IH2]]; [done|]. destruct He; cbn in *; (split; [done|]); set_solver.
Qed.

#[local] Hint Extern 0 (becomes ?s ?s) => reflexivity : core.

Lemma observe_becomes p tid s s' ok :
  observe_thread p tid s = (s', ok) ->
  s ⇝ s' /\ pid s' = pid s /\ (ok = true -> p = pid s' /\ tid ∈ target_tids s').
Proof.
  unfold observe_thread. case_bool_decide as E; cbn [orb]; [intros [= <- <-]; done|].
  destruct (valid_tid tid) eqn:Hv; cbn [negb]; intros [= <- <-]; [|done].
  split; [|split; [done|]].
  - eapply becomes_step; [by apply (observes tid)|done].
  - intros _. split; [done|]. cbn. set_solver.
Qed.

(** The guard of a handler: the thread is one of the target's. *)
Lemma observed_becomes p tid s (k : Session -> Session) :
  (forall s, p = pid s -> tid ∈ target_tids s -> s ⇝ k s) ->
  s ⇝ (let '(s, ok) := observe_thread p tid s in if negb ok then s else k s).
Proof.
  intros Hk. destruct (observe_thread p tid s) as [s' ok] eqn:E. apply observe_becomes in E as (Hs & _ & Hok).
  destruct ok; cbn [negb]; [|done]. destruct (Hok eq_refl). etransitivity; [exact Hs|by apply Hk].
Qed.

Lemma on_fork_becomes body s : s ⇝ on_fork body s.
Proof.
  unfold on_fork. repeat (case_match; try done). destruct (observe_thread _ _ s) as [s' ok] eqn:E.
  by apply observe_becomes in E as [? _].
Qed.

Lemma on_switch_sample_becomes body s : s ⇝ on_switch_sample body s.
Proof.
  unfold on_switch_sample. destruct (read_u32 body) as [[p|] c]; [|by destruct (read_u32 c)].
  destruct (read_u32 c) as [[tid|] c']; [|done]. apply observed_becomes. intros s' _ _.
  repeat (case_match; try done); by apply becomes_same.
Qed.

(** *** Samples *)

Lemma read_pmu_view fuel nr cpu deltas c s : view (read_pmu fuel nr cpu deltas c s).1 = view s.
Proof.
  revert nr deltas c s. induction fuel as [|fuel IH]; intros nr deltas c s; cbn [read_pmu];
    (case_bool_decide; [done|]); [done|].
  destruct (read_u64 c) as [[value|] c1]; [|done]. destruct (read_u64 c1) as [[id|] c2]; [|done].
  destruct (pmu_id_to_kind s !! id); by rewrite IH.
Qed.

Lemma dwarf_stack_view c user s : view (dwarf_stack c user s).1 = view s.
Proof.
  unfold dwarf_stack. destruct (negb _); [done|]. destruct (u64_or_0 c) as [abi c1].
  case_bool_decide; [done|]. destruct (u64_or_0 c1) as [bp c2], (u64_or_0 c2) as [sp c3], (u64_or_0 c3) as [ip c4],
    (u64_or_0 c4) as [n c5], (read_bytes n c5) as [[stack|] c6]; [|done].
  destruct (dwarf s); [|done]. case_bool_decide; [|done].
  destruct (Dwarf.unwind _ _ _ _ _ _) as [unwound truncated]. by destruct truncated.
Qed.

Lemma close_on_cpu_becomes p tid time s : p = pid s -> tid ∈ target_tids s -> s ⇝ close_on_cpu p tid time s.
Proof.
  intros -> Htid. unfold close_on_cpu. case_bool_decide; [done|].
  destruct (last_sample_ts s !! tid) as [prev|] eqn:Hprev.
  - case_bool_decide as Hlt; [|by apply becomes_same]. case_bool_decide as Hd.
    + eapply becomes_step; [apply (closes_slice tid prev time); cbn; done || lia|done].
    + eapply becomes_step; [apply (ticks tid time)|done]. cbn. intros ? Hp. rewrite Hprev in Hp. by injection Hp as <-.
  - eapply becomes_step; [apply (ticks tid time)|done]. cbn. intros ? Hp. by rewrite Hprev in Hp.
Qed.

Lemma deliver_sample_becomes p tid time pmu user kernel s :
  p = pid s -> tid ∈ target_tids s -> s ⇝ deliver_sample p tid time pmu user kernel s.
Proof.
  intros Hp Htid. unfold deliver_sample. set (e := mkSampleEvent _ _ _ _ _ _ _ _ _).
  set (s1 := calls _ _). transitivity s1; [by eapply becomes_step; [apply (samples_thread e)|]|].
  transitivity (close_on_cpu p tid time s1); [by apply close_on_cpu_becomes|]. by case_bool_decide; apply becomes_same.
Qed.

Lemma handle_sample_becomes body s : s ⇝ handle_sample body s.
Proof.
  unfold handle_sample. destruct (read_u32 body) as [[p|] c]; [|done].
  destruct (read_u32 c) as [tid c1], (read_u64 c1) as [time c2], (read_u32 c2) as [cpu c3], (read_u32 c3) as [res c4].
  destruct tid as [tid|], time as [time|], cpu as [cpu|], res; try done.
  apply observed_becomes. clear s. intros s Hp Htid. destruct (u64_or_0 c4) as [nr_pmu c5].
  pose proof (read_pmu_view (length c5) nr_pmu cpu (replicate 4 0) c5 s) as Hv.
  destruct (read_pmu _ _ _ _ _ s) as [s1 [[pmu c6]|]]; [|by apply becomes_same].
  assert (pid s1 = pid s /\ target_tids s1 = target_tids s) as [Hp1 Ht1] by (by injection Hv).
  apply eq_sym, becomes_same in Hv. destruct (read_u64 c6) as [[nr|] c7]; [|done].
  destruct (ips nr c7) as [[addrs c8] all], (callchain addrs) as [user kernel].
  pose proof (dwarf_stack_view c8 user s1) as Hv2. destruct (dwarf_stack c8 user s1) as [s2 user'].
  assert (pid s2 = pid s1 /\ target_tids s2 = target_tids s1) as [Hp2 Ht2] by (by injection Hv2).
  apply eq_sym, becomes_same in Hv2. etransitivity; [exact Hv|]. etransitivity; [exact Hv2|].
  apply deliver_sample_becomes; congruence.
Qed.

(** *** Switches and wakeups *)

Lemma switch_out_becomes w tid time s : tid ∈ target_tids s -> s ⇝ switch_out w tid time s.
Proof.
  intros Htid. unfold switch_out. eapply becomes_step; [by apply (parks tid)|]. unfold view. cbn. by rewrite dom_insert_L.
Qed.

Lemma unparked_becomes tid s : s ⇝ s <| off_start ::= delete tid |>.
Proof.
  eapply becomes_step; [apply (unparks (dom (off_start s) ∖ {[tid]})); cbn; set_solver|].
  unfold view. cbn. by rewrite dom_delete_L.
Qed.

Lemma switch_in_becomes tid time s : tid ∈ target_tids s -> s ⇝ switch_in tid time s.
Proof.
  intros Htid. unfold switch_in. destruct (off_start s !! tid) as [[start stack]|]; [|done].
  etransitivity; [apply (unparked_becomes tid)|]. case_bool_decide; [|done].
  eapply becomes_step; [by apply (closes_wait tid start time)|done].
Qed.

Lemma apply_switch_becomes w misc tid time s : tid ∈ target_tids s -> s ⇝ apply_switch w misc tid time s.
Proof.
  intros Htid. unfold apply_switch. set (s1 := if bool_decide (time <> 0) then _ else _).
  assert (s ⇝ s1 /\ tid ∈ target_tids s1) as [H1 Ht1].
  { unfold s1. case_bool_decide; [|done]. split; [by apply becomes_same|done]. }
  etransitivity; [exact H1|]. destruct (flag misc PERF_RECORD_MISC_SWITCH_OUT).
  - destruct (flag misc PERF_RECORD_MISC_SWITCH_OUT_PREEMPT); [by apply becomes_same|by apply switch_out_becomes].
  - by apply switch_in_becomes.
Qed.

Lemma on_switch_becomes w misc body s : s ⇝ on_switch w misc body s.
Proof.
  unfold on_switch. destruct (read_u32 body) as [a c1], (read_u32 c1) as [b c2], (read_u32 c2) as [p c3],
    (read_u32 c3) as [tid c4], (read_u64 c4) as [time c5], (read_u32 c5) as [cpu c6], (read_u32 c6) as [r c7].
  destruct a, b, p as [p|], tid as [tid|], time as [time|], cpu, r; try done.
  apply observed_becomes. intros s' _ Htid. by apply apply_switch_becomes.
Qed.

Lemma deliver_waking_becomes waker wakee time user kernel s : s ⇝ deliver_waking waker wakee time user kernel s.
Proof.
  unfold deliver_waking. destruct (valid_tid wakee); [|done]. cbn [negb orb].
  case_bool_decide as Hin; [|done]. cbn [negb orb]. case_bool_decide as Hw; [done|].
  set (s1 := if bool_decide (time <> 0) then _ else _).
  assert (view s1 = view s) as Hv by (unfold s1; by case_bool_decide).
  transitivity s1; [by apply becomes_same|]. assert (target_tids s1 = target_tids s) as Ht by (by injection Hv).
  eapply becomes_step; [apply (wakes (mkWakeupEvent time (pid s1) waker wakee user kernel))|done]; cbn; [done| |lia].
  by rewrite Ht.
Qed.

Lemma on_sample_from_waking_becomes body s : s ⇝ on_sample_from_waking body s.
Proof.
  unfold on_sample_from_waking. destruct (waking_offsets s) as [offsets|]; [|done].
  destruct (read_u32 body) as [[?|] c]; [|done].
  destruct (u32_or_0 c) as [waker c1], (u64_or_0 c1) as [time c2], (read_u32 c2) as [? c3], (read_u32 c3) as [? c4].
  destruct (read_u64 c4) as [[nr|] c5]; [|done]. destruct (ips nr c5) as [[addrs c6] all].
  destruct all; [|done]. cbn [negb]. destruct (callchain addrs) as [user kernel].
  destruct (read_u32 c6) as [[n|] c7]; [|done]. destruct (read_bytes n c7) as [[raw|] c8]; [|done].
  destruct (wakee_of offsets raw); [|done]. apply deliver_waking_becomes.
Qed.

(** Threads that are parked are the target's. *)
Lemma flush_becomes `{MapOrder} s : dom (off_start s) ⊆ target_tids s -> s ⇝ flush_off_cpu s.
Proof.
  intros Hd. unfold flush_off_cpu. set (s0 := s <| off_start := ∅ |>).
  transitivity s0; [eapply becomes_step; [by apply (unparks ∅)|]; unfold view; cbn; by rewrite dom_empty_L|].
  assert (Forall (fun e => e.1 ∈ target_tids s0) (entries (off_start s))) as Hall.
  { apply Forall_forall. intros [tid p] Hin. apply Hd, elem_of_dom. exists p. apply elem_of_map_to_list.
    by rewrite <- entries_perm. }
  clearbody s0. clear Hd. revert s0 Hall. induction (entries (off_start s)) as [|[tid [start stack]] l IH]; [done|].
  intros s0 [Htid Hall]%Forall_cons. cbn [foldl]. etransitivity; [|apply IH].
  - unfold flush_one. case_bool_decide; [|done]. eapply becomes_step; [by apply (closes_wait tid start (last_ts s0))|done].
  - unfold flush_one. by case_bool_decide.
Qed.

(** *** Images *)

Definition plain (path : list Z) : Prop := starts_with (str "[") path = false.

Lemma plain_not_jit path : plain path -> path <> JIT_IMAGE_PATH.
Proof. by intros Hp ->. Qed.

Lemma announce_becomes w addr len pgoff path s : plain path -> s ⇝ announce parse w addr len pgoff path s.
Proof.
  intros Hp%plain_not_jit. unfold announce. case_bool_decide as Hin; [done|]. unfold emit_image.
  destruct (read_file w path ≫= Elf.scan parse) as [img|].
  - set (s1 := match dwarf _ with Some _ => _ | None => _ end). set (e := mkBinaryLoadedEvent _ _ _ _ _ _ _ _ _ _).
    assert (view s1 = view (s <| seen ::= fun m => {[addr]} ∪ m |>)) as Hv.
    { unfold s1. destruct (dwarf _); [|done]. by destruct (Elf.eh_frame _). }
    eapply becomes_step; [apply (announces_image e)|]; try done; [exact (f_equal v_pid Hv)|].
    unfold view in Hv |- *. cbn in *. injection Hv as -> -> -> -> -> -> -> -> -> -> -> ->. done.
  - eapply becomes_step; [by apply (sees_image addr)|done].
Qed.

Lemma publish_jit_becomes s : s ⇝ publish_jit s.
Proof.
  unfold publish_jit. destruct (JitImages.take_dirty (images (jit s))) as [imgs dirty].
  set (s1 := s <| jit ::= _ |>). transitivity s1; [by apply becomes_same|].
  transitivity (s1 <| sink ::= fun l => l ++ map (fun img => on_binary_loaded (jit_event s1 img)) dirty |>); [|by apply becomes_same].
  clearbody s1. clear s imgs. assert (forall s, pid s = pid s1 -> s ⇝ s <| sink ::= fun l => l ++ map (fun img => on_binary_loaded (jit_event s1 img)) dirty |>) as Hg.
  { induction dirty as [|img dirty IH]; intros s Hs.
    - apply becomes_same. unfold view. cbn. by rewrite app_nil_r.
    - transitivity (calls (on_binary_loaded (jit_event s1 img)) s).
      + eapply becomes_step; [apply (announces_jit (jit_event s1 img)); [exact (eq_sym Hs)|done]|done].
      + etransitivity; [by apply IH|]. apply becomes_same. unfold view. cbn. by rewrite <- app_assoc. }
  by apply Hg.
Qed.

Lemma jit_mapping_becomes start len s : s ⇝ jit_mapping start len s.
Proof. unfold jit_mapping. etransitivity; [|apply publish_jit_becomes]. by apply becomes_same. Qed.

Lemma mapping_becomes w addr len pgoff path s : s ⇝ mapping parse w addr len pgoff path s.
Proof.
  unfold mapping. destruct (Text.from_utf8 path) as [p|]; [|done].
  destruct (JitImages.is_jit_mapping p); [apply jit_mapping_becomes|].
  destruct (starts_with (str "[") p) eqn:E; [done|]. by apply announce_becomes.
Qed.

Lemma on_mmap2_becomes w body s : s ⇝ on_mmap2 parse w body s.
Proof. unfold on_mmap2. repeat (case_match; try done); apply mapping_becomes. Qed.

Lemma on_mmap_becomes w body s : s ⇝ on_mmap parse w body s.
Proof. unfold on_mmap. repeat (case_match; try done); apply mapping_becomes. Qed.

(** *** Names and the rest *)

Lemma name_thread_becomes p tid name s : p = pid s -> tid ∈ target_tids s -> s ⇝ name_thread p tid name s.
Proof.
  intros -> Htid. unfold name_thread. case_bool_decide; [done|].
  eapply becomes_step; [by apply (names_thread tid name)|done].
Qed.

Lemma on_comm_becomes body s : s ⇝ on_comm body s.
Proof.
  unfold on_comm. destruct (u32_or_0 body) as [p c], (u32_or_0 c) as [tid c'].
  apply observed_becomes. intros s' Hp Htid. by apply name_thread_becomes.
Qed.

Lemma handle_becomes w kind r s : s ⇝ handle parse w kind r s.
Proof.
  destruct r as [[ty misc] body]. unfold handle.
  repeat case_bool_decide; try done.
  - destruct kind; [apply handle_sample_becomes|apply on_switch_sample_becomes|apply on_sample_from_waking_becomes].
  - apply on_mmap2_becomes.
  - apply on_mmap_becomes.
  - apply on_comm_becomes.
  - apply on_fork_becomes.
  - apply on_switch_becomes.
  - unfold on_lost. destruct (read_u64 body) as [? c], (read_u64 c) as [[lost|] c']; [by apply becomes_same|done].
Qed.

Lemma dispatch_becomes w kind scratch s : s ⇝ dispatch parse w kind scratch s.
Proof. apply becomes_foldl. intros s' r _. apply handle_becomes. Qed.

(** *** The whole recording *)

(** The jitdump holds no record that makes the tailer panic. *)
Definition readable (w : World) : Prop :=
  forall bytes t, jitdump_bytes w = Some bytes -> Jitdump.tick bytes t <> Panic.

Lemma poll_returns w force j : readable w -> exists r, poll w force j = Ret r.
Proof.
  intros Hr. unfold poll. destruct (negb force && _); [by eexists|]. set (j1 := poll_perf_map w _).
  assert (exists j2, poll_jitdump w j1 = Ret j2) as [j2 ->]; [|by eexists].
  unfold poll_jitdump. set (j2 := if _ && _ then _ else j1). destruct (jitdump j2) as [t|]; [|by eexists].
  destruct (jitdump_bytes w) as [bytes|] eqn:E; [|by eexists].
  destruct (Jitdump.tick bytes t) as [[t' loads]|] eqn:Ht; [by eexists|]. by apply Hr in Ht.
Qed.

Lemma poll_jit_becomes w force s : readable w -> exists s', poll_jit w force s = Ret s' /\ s ⇝ s'.
Proof.
  intros Hr. unfold poll_jit. destruct (poll_returns w force (jit s) Hr) as [[j orphans] ->].
  eexists. split; [done|]. etransitivity; [|apply publish_jit_becomes]. by apply becomes_same.
Qed.

Lemma maps_plain text m : m ∈ Proc.maps text -> plain (Proc.path m).
Proof.
  unfold Proc.maps. intros ([[[start end_] pgoff] path] & _ & Hm)%list_elem_of_omap.
  destruct (Proc.file_backed path) eqn:E; [|done]. injection Hm as <-. cbn. unfold plain.
  unfold Proc.file_backed in E. destruct (starts_with (str "[") path); [|done]. by destruct (bool_decide (path = [])).
Qed.

Lemma synthesize_becomes w s : readable w -> exists s', synthesize parse w s = Ret s' /\ s ⇝ s'.
Proof.
  intros Hr. unfold synthesize. set (s1 := foldl synthesize_thread s _). set (s2 := foldl (synthesize_map parse w) s1 _).
  destruct (poll_jit_becomes w true (s2 <| jit ::= fun j => j <| images ::= fun i =>
              foldl add_region i (Proc.jit_maps (maps_text w)) |> |>) Hr) as (s' & -> & Hs').
  eexists. split; [done|]. transitivity s1; [|transitivity s2].
  - apply becomes_foldl. intros s0 [tid name] _. unfold synthesize_thread. cbn [fst snd].
    apply observed_becomes. intros s3 _ Htid. by apply name_thread_becomes.
  - apply becomes_foldl. intros s0 m Hm. apply announce_becomes. by eapply maps_plain.
  - etransitivity; [|exact Hs']. by apply becomes_same.
Qed.

Lemma sweep_becomes w rings wr s : s ⇝ (sweep parse w rings wr s).2.
Proof.
  revert wr s. induction rings as [|r rings IH]; intros wr s; [done|]. destruct wr as [|[data head] wr]; [done|].
  cbn [sweep]. unfold drain_dispatch. destruct (drain head _) as [scratch r']. cbn [fst snd].
  set (s1 := dispatch parse w _ scratch s). specialize (IH wr s1). destruct (sweep parse w rings wr s1) as [rings' s'].
  etransitivity; [apply dispatch_becomes|exact IH].
Qed.

Lemma turns_becomes l : forall rings s,
  Forall (fun x => readable x.1) l ->
  exists rings' s', turns parse rings s l = Ret (rings', s') /\ s ⇝ s'.
Proof.
  induction l as [|[w wr] l IH]; intros rings s Hl; [by exists rings, s|]. apply Forall_cons in Hl as [Hw Hl].
  cbn [turns]. unfold turn. pose proof (sweep_becomes w rings wr s) as Hs.
  destruct (sweep parse w rings wr s) as [rings1 s1]. destruct (poll_jit_becomes w false s1 Hw) as (s2 & -> & Hs2).
  destruct (IH rings1 s2 Hl) as (rings' & s' & -> & Hs'). exists rings', s'. split; [done|].
  etransitivity; [exact Hs|]. by etransitivity.
Qed.

Lemma finish_becomes `{MapOrder} w wr elapsed rings s :
  readable w -> view_ok (view s) -> exists s', finish parse w wr elapsed rings s = Ret s' /\ s ⇝ s' .
Proof.
  intros Hw Hok. unfold finish. pose proof (sweep_becomes w rings wr s) as Hs.
  destruct (sweep parse w rings wr s) as [rings1 s1]. pose proof (emits_ok _ _ Hs Hok) as [[_ Hp _] _ _ _ _].
  destruct (poll_jit_becomes w true (flush_off_cpu s1) Hw) as (s2 & -> & Hs2). eexists. split; [done|].
  transitivity s1; [exact Hs|]. transitivity (flush_off_cpu s1); [by apply flush_becomes|].
  etransitivity; [exact Hs2|]. by apply becomes_same.
Qed.
End Refinement.

Lemma new_session_ok p freq dw ks ids offsets cfg t : view_ok (view (new_session p freq dw ks ids offsets cfg t)).
Proof.
  unfold new_session. destruct ks as [k|]; constructor; try constructor; cbn; try done; try set_solver;
    try (intros tid; cbn; split; constructor); try constructor; repeat constructor.
Qed.

(** C10. Whatever bytes the kernel writes into the rings, whatever files and processes
    the session meets and in whatever order it walks its maps, a recording ends
    (unless the jitdump tailer panics) and its calls are sound: each is about the
    target and one of its known threads; no interval is empty and no on-CPU interval
    longer than the cap; the on-CPU slices of a thread never overlap and never go
    back; no image of a file is announced at a base that another was announced at (a
    JIT region is announced again, at its base, whenever its symbols change); the
    name a thread was last given is the one announced; and the summary counts the
    samples, the intervals and the images of files that were announced. *)
Theorem recording_sound `{Dwarf.Framehop} `{MapOrder} parse rings switch_rings waking_rings w0 l exited w wr elapsed
    p freq dw ks ids offsets cfg t :
  readable w0 -> Forall (fun x => readable x.1) l -> readable w ->
  exists s, run_with_rings parse rings switch_rings waking_rings w0 l exited w wr elapsed
              (new_session p freq dw ks ids offsets cfg t) = Ret s /\ view_ok (view s).
Proof.
  intros Hw0 Hl Hw. unfold run_with_rings. pose proof (new_session_ok p freq dw ks ids offsets cfg t) as Hok.
  destruct (synthesize_becomes parse w0 (new_session p freq dw ks ids offsets cfg t) Hw0) as (s1 & -> & H1).
  destruct (turns_becomes parse l (rings ++ switch_rings ++ waking_rings) s1 Hl) as (rings' & s2 & -> & H2).
  set (s3 := if exited then _ else s2). assert (view s3 = view s2) as H3 by (unfold s3; by destruct exited).
  assert (view_ok (view s3)) as Hok3 by (rewrite H3; eapply emits_ok; [exact H2|]; by eapply emits_ok; [exact H1|]).
  destruct (finish_becomes parse w wr elapsed rings' s3 Hw Hok3) as (s' & -> & Hs').
  exists s'. split; [done|]. by eapply emits_ok; [exact Hs'|].
Qed.
(** One turn with a sample, a wait and a wakeup. *)
Lemma recording_sound_witness :
  let samples_ := [(PERF_RECORD_SAMPLE, 0, sample_body demo_sample)] in
  let ring kind rs := mkPerfRing kind (data_of rs) 0 in
  let wr := map (fun rs => (data_of rs, Z.of_nat (length (data_of rs)))) [samples_; demo_switches; demo_wakes] in
  exists s, run_with_rings (H := no_unwinder) (H0 := canonical_order) (fun _ => None) [ring Sampling samples_]
              [ring Switch demo_switches] [ring Waking demo_wakes] demo_world [(demo_world, wr)] true demo_world wr 9000000
              (new_session 100 1000 false None ∅ (Some (24, 4)) None 0) = Ret s /\
            view_ok (view s) /\ length (sink s) = 3%nat /\ samples (summary s) = 1.
Proof.
  assert (readable demo_world) as Hw by done. cbv zeta.
  set (samples_ := [(PERF_RECORD_SAMPLE, 0, sample_body demo_sample)]).
  set (wr := map (fun rs => (data_of rs, Z.of_nat (length (data_of rs)))) [samples_; demo_switches; demo_wakes]).
  destruct (recording_sound (H := no_unwinder) (H0 := canonical_order) (fun _ => None)
    [mkPerfRing Sampling (data_of samples_) 0] [mkPerfRing Switch (data_of demo_switches) 0]
    [mkPerfRing Waking (data_of demo_wakes) 0] demo_world [(demo_world, wr)] true demo_world wr 9000000 100 1000 false None ∅
    (Some (24, 4)) None 0 Hw ltac:(by repeat constructor) Hw) as (s & Hr & Hok).
  exists s. split; [exact Hr|]. split; [exact Hok|].
  revert Hr. vm_compute. intros [= <-]. done.
Defined.

End LinuxRecording.
