(* ===== verification/Classify.v ===== *)
(** * Off-CPU classifier

    [stax-live/src/classify.rs]: the name of the leaf frame a thread blocked in,
    turned into the reason it blocked.  The [match] arms of the source are
    tables here, in the order of the source; a name is a byte string, as the
    patterns compared with it are ASCII. *)

From S2P Require Import Prelude.
From Stdlib Require Import Ascii.

Module Classify.

Inductive OffCpuReason :=
  | Idle | LockWait | SemaphoreWait | IpcWait | IoRead | IoWrite
  | Readiness | Sleep | ConnectionSetup | Other.

#[export] Instance OffCpuReason_eq_dec : EqDecision OffCpuReason.
Proof. solve_decision. Defined.

(** The arms of [classify_linux_kernel]: kernel blocking sites. *)
Definition linux_kernel_arms : list (list string * OffCpuReason) := [
  (["futex_wait_queue"; "futex_wait"; "futex_wait_setup"; "do_futex"; "futex_do_wait";
    "mutex_lock"; "mutex_lock_slowpath"; "rwsem_down_read_slowpath";
    "rwsem_down_write_slowpath"; "down_read"; "down_write"; "down"; "down_common";
    "rt_mutex_slowlock"; "rt_mutex_slowlock_block"], LockWait);
  (["hrtimer_nanosleep"; "do_nanosleep"; "schedule_hrtimeout_range";
    "schedule_hrtimeout_range_clock"], Sleep);
  (["do_select"; "core_sys_select"; "do_sys_poll"; "do_poll"; "do_epoll_wait"; "ep_poll";
    "do_epoll_pwait"; "poll_schedule_timeout"], Readiness);
  (["pipe_read"; "tcp_recvmsg"; "tcp_recvmsg_locked"; "sock_recvmsg"; "sys_recvmsg";
    "unix_stream_read_generic"; "unix_dgram_recvmsg"; "inet_recvmsg";
    "skb_wait_for_more_packets"; "skb_recv_datagram"; "io_schedule"; "bit_wait_io";
    "folio_wait_bit_common"; "lock_page"; "wait_on_page_bit"], IoRead);
  (["pipe_write"; "tcp_sendmsg"; "tcp_sendmsg_locked"; "sock_sendmsg"; "sys_sendmsg";
    "sk_stream_wait_memory"], IoWrite);
  (["inet_csk_accept"; "inet_csk_wait_for_connect"; "inet_wait_for_connect";
    "inet_stream_connect"], ConnectionSetup);
  (["wait_for_completion"; "wait_for_completion_state"; "wait_for_completion_timeout";
    "pipe_wait"; "do_wait"; "do_sigtimedwait"; "sigsuspend"; "worker_thread"; "kthread";
    "rescuer_thread"; "smpboot_thread_fn"; "kthread_worker_fn"], Idle)
]%string.

(** The arms of [classify_linux]: glibc and NPTL blocking leaves. *)
Definition linux_arms : list (list string * OffCpuReason) := [
  (["pthread_cond_wait"; "pthread_cond_timedwait"; "pthread_cond_wait64"; "futex_wait";
    "futex_abstimed_wait"; "futex_abstimed_wait_common"; "futex_abstimed_wait_common64";
    "futex_abstimed_wait_cancelable"], Idle);
  (["lll_lock_wait"; "lll_lock_wait_private"; "pthread_mutex_lock"; "pthread_mutex_timedlock";
    "pthread_mutex_clocklock"; "pthread_rwlock_rdlock"; "pthread_rwlock_wrlock";
    "pthread_rwlock_timedrdlock"; "pthread_rwlock_timedwrlock"], LockWait);
  (["sem_wait"; "sem_timedwait"; "sem_clockwait"; "new_sem_wait"; "new_sem_wait_slow";
    "new_sem_wait_slow64"], SemaphoreWait);
  (["epoll_wait"; "epoll_pwait"; "epoll_pwait2"; "epoll_wait_nocancel"; "poll"; "ppoll";
    "ppoll64"; "poll_nocancel"; "select"; "pselect"; "pselect6"; "pselect32"; "select_nocancel"], Readiness);
  (["nanosleep"; "nanosleep64"; "nanosleep_nocancel"; "clock_nanosleep"; "clock_nanosleep64";
    "clock_nanosleep_time64"; "usleep"; "sleep"], Sleep);
  (["read"; "read_nocancel"; "pread"; "pread64"; "preadv"; "preadv64"; "readv"; "recv";
    "recvfrom"; "recvmsg"; "recvmmsg"], IoRead);
  (["write"; "write_nocancel"; "pwrite"; "pwrite64"; "pwritev"; "pwritev64"; "writev"; "send";
    "sendto"; "sendmsg"; "sendmmsg"], IoWrite);
  (["connect"; "connect_nocancel"; "accept"; "accept4"; "open"; "open64"; "openat"; "openat64";
    "open_nocancel"; "openat_nocancel"], ConnectionSetup)
]%string.

(** The [if] chain that closes [classify_offcpu]: the macOS leaves, in order. *)
Definition macos_arms : list (list string * OffCpuReason) := [
  (["__psynch_cvwait"; "__ulock_wait"; "__ulock_wait2"; "__workq_kernreturn"; "start_wqthread";
    "_pthread_cond_wait"; "_pthread_cond_timedwait"; "_dispatch_workloop_worker_thread"], Idle);
  (["__psynch_mutexwait"; "__psynch_rw_rdlock"; "__psynch_rw_wrlock";
    "__psynch_rw_yieldwrlock"; "__psynch_rw_upgrade"; "__psynch_rw_downgrade";
    "_pthread_mutex_firstfit_lock_wait"; "_pthread_mutex_lock"; "_pthread_mutex_lock_wait"], LockWait);
  (["__semwait_signal"; "__semwait_signal_nocancel"; "semaphore_wait_signal_trap";
    "semaphore_wait_trap"; "semaphore_timedwait_trap"; "_dispatch_semaphore_wait"], SemaphoreWait);
  (["mach_msg2_trap"; "mach_msg_trap"; "mach_msg_overwrite_trap"; "mach_msg2"; "mach_msg";
    "mach_msg_overwrite"], IpcWait);
  (["kevent"; "kevent_id"; "kevent_qos"; "select"; "select$DARWIN_EXTSN";
    "select$DARWIN_EXTSN$NOCANCEL"; "pselect"; "poll"; "ppoll"], Readiness);
  (["nanosleep"; "__semwait_signal_nocancel"; "__nanosleep"; "usleep"], Sleep);
  (["read"; "__read_nocancel"; "recv"; "__recvfrom"; "recvfrom"; "__recvfrom_nocancel";
    "recvmsg"; "__recvmsg_nocancel"; "pread"; "__pread_nocancel"; "readv"], IoRead);
  (["write"; "__write_nocancel"; "send"; "__sendto"; "sendto"; "__sendto_nocancel"; "sendmsg";
    "__sendmsg_nocancel"; "pwrite"; "__pwrite_nocancel"; "writev"], IoWrite);
  (["connect"; "__connect_nocancel"; "accept"; "__accept_nocancel"; "open"; "__open_nocancel";
    "openat"; "__openat_nocancel"], ConnectionSetup)
]%string.

(** The first arm that lists the name. *)
Fixpoint first_arm (arms : list (list string * OffCpuReason)) (name : string)
    : option OffCpuReason :=
  match arms with
  | [] => None
  | (names, reason) :: rest =>
      if existsb (String.eqb name) names then Some reason else first_arm rest name
  end.

(** [name.split(['@', '.', '+', ' ']).next()] *)
Definition is_cut (c : ascii) : bool := existsb (Ascii.eqb c) ["@"; "."; "+"; " "]%char.

Fixpoint cut (s : string) : string :=
  match s with
  | EmptyString => EmptyString
  | String c s => if is_cut c then EmptyString else String c (cut s)
  end.

Fixpoint strip_prefix (p s : string) : option string :=
  match p, s with
  | EmptyString, _ => Some s
  | String a p, String b s => if Ascii.eqb a b then strip_prefix p s else None
  | _, EmptyString => None
  end.

Fixpoint trim_underscores (s : string) : string :=
  match s with
  | String "_" s' => trim_underscores s'
  | _ => s
  end.

Definition glibc_core (name : string) : string :=
  let n := cut name in
  let n := default n (strip_prefix "__GI_" n) in
  let n := default n (strip_prefix "__libc_" n) in
  trim_underscores n.

Definition classify_linux_kernel (core : string) : option OffCpuReason :=
  first_arm linux_kernel_arms core.

Definition classify_linux (core : string) : option OffCpuReason :=
  first_arm linux_arms core.

Definition classify_macos (name : string) : OffCpuReason :=
  default Other (first_arm macos_arms name).

Definition classify_offcpu (function_name : option string) : OffCpuReason :=
  match function_name with
  | None => Other
  | Some name =>
      let core := glibc_core name in
      match classify_linux_kernel core with
      | Some reason => reason
      | None =>
          match classify_linux core with
          | Some reason => reason
          | None => classify_macos name
          end
      end
  end.

(** ** The tables *)

Definition names_of (arms : list (list string * OffCpuReason)) : list string :=
  concat (map fst arms).

Lemma existsb_name name names : existsb (String.eqb name) names = true <-> name ∈ names.
Proof.
  rewrite existsb_exists. split.
  - intros (x & Hx & Heq). apply String.eqb_eq in Heq as ->. by apply list_elem_of_In.
  - intros Hx. exists name. split; [by apply list_elem_of_In | apply String.eqb_refl].
Qed.

Lemma first_arm_names arms name reason :
  first_arm arms name = Some reason -> name ∈ names_of arms.
Proof.
  unfold names_of. induction arms as [|[names r] arms IH]; cbn; [done|].
  destruct (existsb _ names) eqn:E; intros Hr; apply elem_of_app.
  - left. by apply existsb_name.
  - right. by apply IH.
Qed.

(** What holds of every listed name holds of every name an arm matches. *)
Lemma first_arm_ind (P : string -> Prop) arms :
  Forall P (names_of arms) ->
  forall name reason, first_arm arms name = Some reason -> P name.
Proof.
  intros HP name reason Hr%first_arm_names. rewrite Forall_forall in HP. by apply HP.
Qed.

(** The reason the two Linux tables give, kernel sites first. *)
Definition linux_reason (core : string) : option OffCpuReason :=
  match classify_linux_kernel core with
  | Some reason => Some reason
  | None => classify_linux core
  end.

Lemma classify_offcpu_linux name reason :
  linux_reason (glibc_core name) = Some reason -> classify_offcpu (Some name) = reason.
Proof.
  unfold linux_reason, classify_offcpu. cbn zeta.
  destruct (classify_linux_kernel (glibc_core name)); [by intros [= ->]|].
  by intros ->.
Qed.

(** A core name no decoration rule would change. *)
Fixpoint no_cut (s : string) : bool :=
  match s with
  | EmptyString => true
  | String c s => negb (is_cut c) && no_cut s
  end.

Definition plain (core : string) : bool :=
  no_cut core && String.eqb (trim_underscores core) core
  && negb (String.prefix "GI_" core) && negb (String.prefix "libc_" core).

Lemma linux_reason_plain core reason : linux_reason core = Some reason -> plain core = true.
Proof.
  unfold linux_reason. destruct (classify_linux_kernel core) eqn:E; intros Hr.
  - revert E. apply (first_arm_ind (fun n => plain n = true)).
    apply List.Forall_forall, forallb_forall. by vm_compute.
  - revert Hr. apply (first_arm_ind (fun n => plain n = true)).
    apply List.Forall_forall, forallb_forall. by vm_compute.
Qed.

(** ** Decorations *)

#[local] Arguments String.append !_ _ /.

Fixpoint underscores (k : nat) : string :=
  match k with O => "" | S k => String "_" (underscores k) end.

(** The forms compilers, the kernel and glibc give a symbol. *)
Definition decorate (gi libc : bool) (k : nat) (core suffix : string) : string :=
  ((if gi then "__GI_" else "") ++ (if libc then "__libc_" else "")
   ++ underscores k ++ core ++ suffix)%string.

Definition cut_suffix (suffix : string) : bool :=
  match suffix with EmptyString => true | String c _ => is_cut c end.

Lemma cut_app a suffix :
  no_cut a = true -> cut_suffix suffix = true -> cut (a ++ suffix) = a.
Proof.
  intros Ha Hs. induction a as [|c a IH]; cbn [String.append cut no_cut] in *.
  - destruct suffix as [|c s]; [done|]. cbn [cut cut_suffix] in *. by rewrite Hs.
  - apply andb_prop in Ha as [Hc Ha]. apply negb_true_iff in Hc. rewrite Hc. by rewrite IH.
Qed.

Lemma no_cut_app a b : no_cut (a ++ b) = no_cut a && no_cut b.
Proof. induction a as [|c a IH]; cbn; [done|]. by rewrite IH, andb_assoc. Qed.

Lemma no_cut_underscores k : no_cut (underscores k) = true.
Proof. by induction k. Qed.

Lemma trim_underscores_app k s : trim_underscores (underscores k ++ s) = trim_underscores s.
Proof. by induction k. Qed.

Lemma string_app_assoc (a b c : string) : ((a ++ b) ++ c = a ++ b ++ c)%string.
Proof. induction a as [|x a IH]; cbn; [done|]. by rewrite IH. Qed.

Lemma strip_prefix_neq p s : String.prefix p s = false -> strip_prefix p s = None.
Proof.
  revert s. induction p as [|a p IH]; intros [|b s]; cbn; try done.
  destruct (ascii_dec a b) as [->|Hne].
  - rewrite Ascii.eqb_refl. apply IH.
  - intros _. by rewrite (proj2 (Ascii.eqb_neq a b) Hne).
Qed.

(** A double-underscore prefix is not seen through a run of underscores. *)
Lemma strip_prefix_underscores k p core :
  String.prefix p core = false -> String.eqb (trim_underscores core) core = true ->
  (forall c p', p = String c p' -> c <> "_"%char) -> p <> EmptyString ->
  strip_prefix (String "_" (String "_" p)) (underscores k ++ core) = None.
Proof.
  intros Hp Htrim Hc Hne. destruct p as [|c p]; [done|]. specialize (Hc c p eq_refl).
  assert (Hu : forall q, strip_prefix (String "_" q) core = None).
  { intros q. destruct core as [|b core]; [done|]. cbn [strip_prefix].
    destruct (Ascii.eqb "_" b) eqn:E; [|done]. apply Ascii.eqb_eq in E as <-. exfalso.
    apply String.eqb_eq in Htrim. cbn in Htrim.
    assert (Hlen : forall s, (String.length (trim_underscores s) <= String.length s)%nat).
    { clear. induction s as [|a s IH]; cbn; [lia|].
      destruct a as [[] [] [] [] [] [] [] []]; cbn; lia. }
    specialize (Hlen core). rewrite Htrim in Hlen. cbn in Hlen. lia. }
  destruct k as [|[|[|k]]].
  - exact (Hu (String "_" (String c p))).
  - exact (Hu (String c p)).
  - exact (strip_prefix_neq (String c p) core Hp).
  - cbn. destruct (Ascii.eqb c "_") eqn:E; [|done]. by apply Ascii.eqb_eq in E.
Qed.

(** The core of every decorated form is the name itself. *)
Lemma glibc_core_decorate gi libc k core suffix :
  plain core = true -> cut_suffix suffix = true ->
  glibc_core (decorate gi libc k core suffix) = core.
Proof.
  unfold plain, glibc_core, decorate. rewrite !andb_true_iff, !negb_true_iff.
  intros [[[Hcut Htrim] Hgi] Hlibc] Hs.
  rewrite <- !string_app_assoc, cut_app; [|rewrite !no_cut_app, no_cut_underscores, Hcut; by destruct gi, libc | done].
  rewrite !string_app_assoc.
  assert (Hg : strip_prefix "__GI_" (underscores k ++ core) = None)
    by (apply strip_prefix_underscores; try done; by intros ? ? [= <-]).
  assert (Hl : strip_prefix "__libc_" (underscores k ++ core) = None)
    by (apply strip_prefix_underscores; try done; by intros ? ? [= <-]).
  assert (Ht : trim_underscores (underscores k ++ core) = core)
    by (rewrite trim_underscores_app; by apply String.eqb_eq).
  destruct gi, libc.
  - exact Ht.
  - change (trim_underscores (default (underscores k ++ core)%string
              (strip_prefix "__libc_" (underscores k ++ core)%string)) = core).
    by rewrite Hl.
  - exact Ht.
  - change (trim_underscores (default (default (underscores k ++ core)%string
                (strip_prefix "__GI_" (underscores k ++ core)%string))
              (strip_prefix "__libc_" (default (underscores k ++ core)%string
                (strip_prefix "__GI_" (underscores k ++ core)%string)))) = core).
    rewrite Hg. cbn [default from_option id]. by rewrite Hl.
Qed.

(** ** Properties *)

(** Decorations never change the reason: a Linux leaf in any of the forms
    [glibc_core] names (the [__GI_] and [__libc_] aliases, any run of leading
    underscores, a symbol version, a compiler suffix or an offset at the end)
    is classified as the table entry of its core name. *)
Theorem decorated_leaf_classified gi libc k core suffix reason :
  linux_reason core = Some reason -> cut_suffix suffix = true ->
  classify_offcpu (Some (decorate gi libc k core suffix)) = reason.
Proof.
  intros Hr Hs. apply classify_offcpu_linux.
  by rewrite glibc_core_decorate by eauto using linux_reason_plain.
Qed.

Lemma decorated_leaf_classified_witness :
  linux_reason "read" = Some IoRead /\ cut_suffix "@@GLIBC_2.2.5" = true /\
  decorate true true 0 "read" "@@GLIBC_2.2.5" = "__GI___libc_read@@GLIBC_2.2.5"%string /\
  classify_offcpu (Some (decorate true true 0 "read" "@@GLIBC_2.2.5")) = IoRead.
Proof.
  split; [reflexivity|]. split; [reflexivity|]. split; [reflexivity|].
  by apply decorated_leaf_classified.
Defined.

(** The Linux tables come first but never change a macOS answer: every name
    a macOS arm matches keeps the reason of that arm, whatever its stripped
    core means to the Linux tables. *)
Theorem macos_arms_unchanged name :
  classify_macos name <> Other -> classify_offcpu (Some name) = classify_macos name.
Proof.
  intros Hne. unfold classify_macos in Hne. destruct (first_arm macos_arms name) eqn:E; [|done].
  revert E. apply (first_arm_ind (fun n => classify_offcpu (Some n) = classify_macos n)).
  apply (bool_decide_unpack _). by vm_compute.
Qed.

Lemma macos_arms_unchanged_witness :
  classify_macos "__psynch_mutexwait" <> Other /\
  classify_offcpu (Some "__psynch_mutexwait"%string) = classify_macos "__psynch_mutexwait".
Proof. split; [by vm_compute|]. apply macos_arms_unchanged. by vm_compute. Defined.

(** Two arms of the source can never be taken: [futex_wait] of the glibc
    table (an idle park) is shadowed by the kernel table, which calls it lock
    contention, and [__semwait_signal_nocancel] of the sleep arm by the
    semaphore arm.  Every other listed glibc name gets the reason of its own
    arm. *)
Theorem shadowed_arms :
  (classify_linux "futex_wait" = Some Idle /\
   classify_offcpu (Some "futex_wait"%string) = LockWait) /\
  (Sleep ∈ map snd (filter (fun a => "__semwait_signal_nocancel"%string ∈ a.1) macos_arms) /\
   classify_offcpu (Some "__semwait_signal_nocancel"%string) = SemaphoreWait) /\
  forall core reason, classify_linux core = Some reason -> core <> "futex_wait"%string ->
    classify_offcpu (Some core) = reason.
Proof.
  split; [by vm_compute|]. split; [by split; [apply (bool_decide_unpack _); vm_compute|vm_compute]|].
  intros core reason Hr. revert core Hr.
  intros core Hr Hne. apply classify_offcpu_linux.
  assert (Hcore : glibc_core core = core /\ (core = "futex_wait"%string \/ classify_linux_kernel core = None)).
  { revert Hr. apply (first_arm_ind (fun n => glibc_core n = n /\ (n = "futex_wait"%string \/ classify_linux_kernel n = None))).
    apply (bool_decide_unpack _). by vm_compute. }
  destruct Hcore as [-> [?|Hk]]; [done|]. unfold linux_reason. by rewrite Hk.
Qed.

End Classify.
