(* ===== verification/StackTree.v ===== *)
(** * Stack trees and per-address counters

    The data an aggregation pass of [stax-live/src/aggregator.rs] builds: the
    flame tree ([StackNode]), the per-address rollups ([AddressStats]), the
    functions that credit a stack to both, and the merge of two trees.  The
    counters are [u64]s that only grow by [saturating_add]; the theorems say
    what each of them holds after any list of credits. *)

From S2P Require Import Prelude Classify.

Module StackTree.

Export Classify.

(** ** Counters *)

Record PmuSample := mkPmuSample {
  cycles : Z; instructions : Z; l1d_misses : Z; branch_mispreds : Z
}.

Definition pmu_default : PmuSample := mkPmuSample 0 0 0 0.

Record PmcAccum := mkPmcAccum {
  acc_cycles : Z; acc_instructions : Z; acc_l1d_misses : Z; acc_branch_mispreds : Z
}.

#[export] Instance eta_PmcAccum : Eta PmcAccum := fun a =>
  mkPmcAccum (acc_cycles a) (acc_instructions a) (acc_l1d_misses a) (acc_branch_mispreds a).

Definition pmc_default : PmcAccum := mkPmcAccum 0 0 0 0.

Definition pmc_add (s : PmuSample) (a : PmcAccum) : PmcAccum :=
  a <| acc_cycles ::= fun x => sadd64 x (cycles s) |>
    <| acc_instructions ::= fun x => sadd64 x (instructions s) |>
    <| acc_l1d_misses ::= fun x => sadd64 x (l1d_misses s) |>
    <| acc_branch_mispreds ::= fun x => sadd64 x (branch_mispreds s) |>.

Definition pmc_add_other (o a : PmcAccum) : PmcAccum :=
  a <| acc_cycles ::= fun x => sadd64 x (acc_cycles o) |>
    <| acc_instructions ::= fun x => sadd64 x (acc_instructions o) |>
    <| acc_l1d_misses ::= fun x => sadd64 x (acc_l1d_misses o) |>
    <| acc_branch_mispreds ::= fun x => sadd64 x (acc_branch_mispreds o) |>.

Record OffCpuBreakdown := mkOffCpuBreakdown {
  idle_ns : Z; lock_ns : Z; semaphore_ns : Z; ipc_ns : Z; io_read_ns : Z;
  io_write_ns : Z; readiness_ns : Z; sleep_ns : Z; connect_ns : Z; other_ns : Z
}.

#[export] Instance eta_OffCpuBreakdown : Eta OffCpuBreakdown := fun b =>
  mkOffCpuBreakdown (idle_ns b) (lock_ns b) (semaphore_ns b) (ipc_ns b) (io_read_ns b)
    (io_write_ns b) (readiness_ns b) (sleep_ns b) (connect_ns b) (other_ns b).

Definition breakdown_default : OffCpuBreakdown := mkOffCpuBreakdown 0 0 0 0 0 0 0 0 0 0.

Definition add_reason (reason : OffCpuReason) (duration_ns : Z) (b : OffCpuBreakdown)
    : OffCpuBreakdown :=
  let bump x := sadd64 x duration_ns in
  match reason with
  | Idle => b <| idle_ns ::= bump |>
  | LockWait => b <| lock_ns ::= bump |>
  | SemaphoreWait => b <| semaphore_ns ::= bump |>
  | IpcWait => b <| ipc_ns ::= bump |>
  | IoRead => b <| io_read_ns ::= bump |>
  | IoWrite => b <| io_write_ns ::= bump |>
  | Readiness => b <| readiness_ns ::= bump |>
  | Sleep => b <| sleep_ns ::= bump |>
  | ConnectionSetup => b <| connect_ns ::= bump |>
  | Other => b <| other_ns ::= bump |>
  end.

Definition add_other (o b : OffCpuBreakdown) : OffCpuBreakdown :=
  b <| idle_ns ::= fun x => sadd64 x (idle_ns o) |>
    <| lock_ns ::= fun x => sadd64 x (lock_ns o) |>
    <| semaphore_ns ::= fun x => sadd64 x (semaphore_ns o) |>
    <| ipc_ns ::= fun x => sadd64 x (ipc_ns o) |>
    <| io_read_ns ::= fun x => sadd64 x (io_read_ns o) |>
    <| io_write_ns ::= fun x => sadd64 x (io_write_ns o) |>
    <| readiness_ns ::= fun x => sadd64 x (readiness_ns o) |>
    <| sleep_ns ::= fun x => sadd64 x (sleep_ns o) |>
    <| connect_ns ::= fun x => sadd64 x (connect_ns o) |>
    <| other_ns ::= fun x => sadd64 x (other_ns o) |>.

Definition total_ns (b : OffCpuBreakdown) : Z :=
  sadd64 (sadd64 (sadd64 (sadd64 (sadd64 (sadd64 (sadd64 (sadd64 (sadd64
    (idle_ns b) (lock_ns b)) (semaphore_ns b)) (ipc_ns b)) (io_read_ns b)) (io_write_ns b))
    (readiness_ns b)) (sleep_ns b)) (connect_ns b)) (other_ns b).

Inductive TargetLaneKind := Generic | Metal.

Definition set_target_kind (kind slot : option TargetLaneKind) : option TargetLaneKind :=
  match kind, slot with
  | Some kind, None => Some kind
  | _, _ => slot
  end.

(** ** The tree *)

Inductive StackNode := mkStackNode {
  on_cpu_ns : Z;
  target_ns : Z;
  off_cpu : OffCpuBreakdown;
  pet_samples : Z;
  target_spans : Z;
  off_cpu_intervals : Z;
  pmc : PmcAccum;
  target_kind : option TargetLaneKind;
  children : gmap Z StackNode
}.

#[export] Instance eta_StackNode : Eta StackNode := fun n =>
  mkStackNode (on_cpu_ns n) (target_ns n) (off_cpu n) (pet_samples n) (target_spans n)
    (off_cpu_intervals n) (pmc n) (target_kind n) (children n).

Definition node_default : StackNode :=
  mkStackNode 0 0 breakdown_default 0 0 0 pmc_default None ∅.

Fixpoint merge (self other : StackNode) {struct other} : StackNode :=
  mkStackNode
    (sadd64 (on_cpu_ns self) (on_cpu_ns other))
    (sadd64 (target_ns self) (target_ns other))
    (add_other (off_cpu other) (off_cpu self))
    (sadd64 (pet_samples self) (pet_samples other))
    (sadd64 (target_spans self) (target_spans other))
    (sadd64 (off_cpu_intervals self) (off_cpu_intervals other))
    (pmc_add_other (pmc other) (pmc self))
    (set_target_kind (target_kind other) (target_kind self))
    (map_fold (fun addr child acc => <[addr := merge (default node_default (acc !! addr)) child]> acc)
       (children self) (children other)).

(** ** Per-address counters *)

Record AddressStats := mkAddressStats {
  self_on_cpu_ns : Z; total_on_cpu_ns : Z;
  self_target_ns : Z; total_target_ns : Z;
  self_off_cpu : OffCpuBreakdown; total_off_cpu : OffCpuBreakdown;
  self_pet_samples : Z; total_pet_samples : Z;
  self_target_spans : Z; total_target_spans : Z;
  self_off_cpu_intervals : Z; total_off_cpu_intervals : Z;
  self_pmc : PmcAccum; total_pmc : PmcAccum;
  addr_target_kind : option TargetLaneKind
}.

#[export] Instance eta_AddressStats : Eta AddressStats := fun s =>
  mkAddressStats (self_on_cpu_ns s) (total_on_cpu_ns s) (self_target_ns s) (total_target_ns s)
    (self_off_cpu s) (total_off_cpu s) (self_pet_samples s) (total_pet_samples s)
    (self_target_spans s) (total_target_spans s) (self_off_cpu_intervals s)
    (total_off_cpu_intervals s) (self_pmc s) (total_pmc s) (addr_target_kind s).

Definition address_default : AddressStats :=
  mkAddressStats 0 0 0 0 breakdown_default breakdown_default 0 0 0 0 0 0
    pmc_default pmc_default None.

(** [SmallSet]: a vector scanned from the front. *)
Definition smallset_insert (items : list Z) (value : Z) : list Z * bool :=
  if bool_decide (value ∈ items) then (items, false) else (items ++ [value], true).

(** [for &addr in stack { if seen.insert(addr) { ... } }] *)
Definition credit_totals (f : AddressStats -> AddressStats) (stack : list Z)
    (by_address : gmap Z AddressStats) : gmap Z AddressStats :=
  (foldl (fun '(seen, m) addr =>
     let '(seen, fresh) := smallset_insert seen addr in
     (seen, if fresh : bool then entry_update address_default f addr m else m))
   ([], by_address) stack).2.

(** [for &addr in stack.iter().rev() { node = node.children.entry(addr).or_default(); ... }] *)
Fixpoint credit_path (f : StackNode -> StackNode) (path : list Z) (node : StackNode) : StackNode :=
  match path with
  | [] => node
  | addr :: path =>
      node <| children ::= entry_update node_default (fun n => credit_path f path (f n)) addr |>
  end.

Definition self_on_cpu (credit_ns : Z) (p : PmuSample) (is_target : bool)
    (kind : option TargetLaneKind) (s : AddressStats) : AddressStats :=
  let s := s <| self_on_cpu_ns ::= fun x => sadd64 x credit_ns |>
             <| self_pet_samples ::= fun x => sadd64 x 1 |> in
  let s := if is_target then
             s <| self_target_ns ::= fun x => sadd64 x credit_ns |>
               <| self_target_spans ::= fun x => sadd64 x 1 |>
               <| addr_target_kind ::= set_target_kind kind |>
           else s in
  s <| self_pmc ::= pmc_add p |>.

Definition total_on_cpu (credit_ns : Z) (p : PmuSample) (is_target : bool)
    (kind : option TargetLaneKind) (s : AddressStats) : AddressStats :=
  let s := s <| total_on_cpu_ns ::= fun x => sadd64 x credit_ns |>
             <| total_pet_samples ::= fun x => sadd64 x 1 |> in
  let s := if is_target then
             s <| total_target_ns ::= fun x => sadd64 x credit_ns |>
               <| total_target_spans ::= fun x => sadd64 x 1 |>
               <| addr_target_kind ::= set_target_kind kind |>
           else s in
  s <| total_pmc ::= pmc_add p |>.

Definition node_on_cpu (credit_ns : Z) (p : PmuSample) (is_target : bool)
    (kind : option TargetLaneKind) (n : StackNode) : StackNode :=
  let n := n <| on_cpu_ns ::= fun x => sadd64 x credit_ns |>
             <| pet_samples ::= fun x => sadd64 x 1 |> in
  let n := if is_target then
             n <| target_ns ::= fun x => sadd64 x credit_ns |>
               <| target_spans ::= fun x => sadd64 x 1 |>
               <| target_kind ::= set_target_kind kind |>
           else n in
  n <| pmc ::= pmc_add p |>.

(** The pair of accumulators the two [credit_*_to_tree] functions update. *)
Definition tables : Type := StackNode * gmap Z AddressStats.

Definition credit_on_cpu_to_tree (stack : list Z) (credit_ns : Z) (p : PmuSample)
    (is_target : bool) (kind : option TargetLaneKind) (t : tables) : tables :=
  match stack with
  | [] => t
  | leaf :: _ =>
      let '(flame_root, by_address) := t in
      let by_address :=
        entry_update address_default (self_on_cpu credit_ns p is_target kind) leaf by_address in
      let by_address := credit_totals (total_on_cpu credit_ns p is_target kind) stack by_address in
      (credit_path (node_on_cpu credit_ns p is_target kind) (reverse stack) flame_root, by_address)
  end.

Definition credit_off_cpu_to_tree (stack : list Z) (reason : OffCpuReason) (duration_ns : Z)
    (t : tables) : tables :=
  match stack with
  | [] => t
  | leaf :: _ =>
      let '(flame_root, by_address) := t in
      let by_address := entry_update address_default (fun s =>
        s <| self_off_cpu ::= add_reason reason duration_ns |>
          <| self_off_cpu_intervals ::= fun x => sadd64 x 1 |>) leaf by_address in
      let by_address := credit_totals (fun s =>
        s <| total_off_cpu ::= add_reason reason duration_ns |>
          <| total_off_cpu_intervals ::= fun x => sadd64 x 1 |>) stack by_address in
      (credit_path (fun n =>
         n <| off_cpu ::= add_reason reason duration_ns |>
           <| off_cpu_intervals ::= fun x => sadd64 x 1 |>) (reverse stack) flame_root, by_address)
  end.

Definition target_lane_stack (stack : list Z) : list Z := take (Nat.min (length stack) 2) stack.

(** [merged_flame_root] over the flame roots of the aggregations. *)
Definition merged_flame_root (roots : list StackNode) : StackNode :=
  match roots with
  | [] => node_default
  | first :: rest => foldl merge first rest
  end.

(** ** Reading a counter

    Every [u64] of a node, of the self half and of the total half of an
    address, by name; a credit gives each of them a weight. *)

Inductive pmc_field := Cycles | Instructions | L1dMisses | BranchMispreds.

Inductive counter :=
  | OnCpuNs | TargetNs | OffCpuNs (reason : OffCpuReason)
  | PetSamples | TargetSpans | OffCpuIntervals | Pmc (f : pmc_field).

Definition read_pmc (f : pmc_field) (a : PmcAccum) : Z :=
  match f with
  | Cycles => acc_cycles a | Instructions => acc_instructions a
  | L1dMisses => acc_l1d_misses a | BranchMispreds => acc_branch_mispreds a
  end.

Definition pmu_weight (f : pmc_field) (p : PmuSample) : Z :=
  match f with
  | Cycles => cycles p | Instructions => instructions p
  | L1dMisses => l1d_misses p | BranchMispreds => branch_mispreds p
  end.

Definition read_reason (r : OffCpuReason) (b : OffCpuBreakdown) : Z :=
  match r with
  | Idle => idle_ns b | LockWait => lock_ns b | SemaphoreWait => semaphore_ns b
  | IpcWait => ipc_ns b | IoRead => io_read_ns b | IoWrite => io_write_ns b
  | Readiness => readiness_ns b | Sleep => sleep_ns b | ConnectionSetup => connect_ns b
  | Other => other_ns b
  end.

Definition read (k : counter) (n : StackNode) : Z :=
  match k with
  | OnCpuNs => on_cpu_ns n | TargetNs => target_ns n | OffCpuNs r => read_reason r (off_cpu n)
  | PetSamples => pet_samples n | TargetSpans => target_spans n
  | OffCpuIntervals => off_cpu_intervals n | Pmc f => read_pmc f (pmc n)
  end.

Definition read_self (k : counter) (s : AddressStats) : Z :=
  match k with
  | OnCpuNs => self_on_cpu_ns s | TargetNs => self_target_ns s
  | OffCpuNs r => read_reason r (self_off_cpu s)
  | PetSamples => self_pet_samples s | TargetSpans => self_target_spans s
  | OffCpuIntervals => self_off_cpu_intervals s | Pmc f => read_pmc f (self_pmc s)
  end.

Definition read_total (k : counter) (s : AddressStats) : Z :=
  match k with
  | OnCpuNs => total_on_cpu_ns s | TargetNs => total_target_ns s
  | OffCpuNs r => read_reason r (total_off_cpu s)
  | PetSamples => total_pet_samples s | TargetSpans => total_target_spans s
  | OffCpuIntervals => total_off_cpu_intervals s | Pmc f => read_pmc f (total_pmc s)
  end.

(** One call of a [credit_*_to_tree] function. *)
Inductive credit :=
  | CreditOn (stack : list Z) (credit_ns : Z) (p : PmuSample) (is_target : bool)
             (kind : option TargetLaneKind)
  | CreditOff (stack : list Z) (reason : OffCpuReason) (duration_ns : Z).

Definition apply_credit (t : tables) (c : credit) : tables :=
  match c with
  | CreditOn stack ns p tgt kind => credit_on_cpu_to_tree stack ns p tgt kind t
  | CreditOff stack reason ns => credit_off_cpu_to_tree stack reason ns t
  end.

Definition apply_credits (cs : list credit) : tables := foldl apply_credit (node_default, ∅) cs.

Definition credit_stack (c : credit) : list Z :=
  match c with CreditOn stack _ _ _ _ | CreditOff stack _ _ => stack end.

Definition weight (k : counter) (c : credit) : Z :=
  match c, k with
  | CreditOn _ ns _ _ _, OnCpuNs => ns
  | CreditOn _ _ _ _ _, PetSamples => 1
  | CreditOn _ ns _ tgt _, TargetNs => if tgt then ns else 0
  | CreditOn _ _ _ tgt _, TargetSpans => if tgt then 1 else 0
  | CreditOn _ _ p _ _, Pmc f => pmu_weight f p
  | CreditOff _ r ns, OffCpuNs r' => if decide (r = r') then ns else 0
  | CreditOff _ _ _, OffCpuIntervals => 1
  | _, _ => 0
  end.

Definition pmu_ok (p : PmuSample) : Prop := forall f, 0 <= pmu_weight f p.

Definition credit_ok (c : credit) : Prop :=
  match c with
  | CreditOn _ ns p _ _ => 0 <= ns /\ pmu_ok p
  | CreditOff _ _ ns => 0 <= ns
  end.

Lemma weight_nonneg k c : credit_ok c -> 0 <= weight k c.
Proof.
  destruct c as [? ns p [] ?|? r ns], k; cbn; repeat case_decide;
    try (intros [? Hp]; try apply Hp); lia.
Qed.

Lemma sadd64_0_r a : a <= u64_max -> sadd64 a 0 = a.
Proof. width. lia. Qed.

Lemma sadd64_0_l a : a <= u64_max -> sadd64 0 a = a.
Proof. width. lia. Qed.

Lemma read_pmc_add f p a : read_pmc f (pmc_add p a) = sadd64 (read_pmc f a) (pmu_weight f p).
Proof. by destruct f. Qed.

Lemma read_pmc_add_other f o a :
  read_pmc f (pmc_add_other o a) = sadd64 (read_pmc f a) (read_pmc f o).
Proof. by destruct f. Qed.

Lemma read_add_reason r r' ns b :
  read_reason r' b <= u64_max ->
  read_reason r' (add_reason r ns b) = sadd64 (read_reason r' b) (if decide (r = r') then ns else 0).
Proof.
  intros H. case_decide as E; [subst r'; by destruct r|].
  rewrite sadd64_0_r by done. destruct r, r'; done.
Qed.

Lemma read_add_other r o b :
  read_reason r (add_other o b) = sadd64 (read_reason r b) (read_reason r o).
Proof. by destruct r. Qed.

(** [total_ns] is the clamped sum of the ten buckets. *)
Definition all_reasons : list OffCpuReason :=
  [Idle; LockWait; SemaphoreWait; IpcWait; IoRead; IoWrite; Readiness; Sleep; ConnectionSetup; Other].

Lemma total_ns_sum b :
  (forall r, 0 <= read_reason r b) ->
  total_ns b = sat_sum (fun r => read_reason r b) all_reasons.
Proof.
  intros H. pose proof (H Idle). pose proof (H LockWait). pose proof (H SemaphoreWait).
  pose proof (H IpcWait). pose proof (H IoRead). pose proof (H IoWrite).
  pose proof (H Readiness). pose proof (H Sleep). pose proof (H ConnectionSetup).
  pose proof (H Other). clear H. unfold sat_sum, total_ns. cbn in *. width. lia.
Qed.

(** What a credit does to the node it walks over and to its address. *)
Definition bump_node (c : credit) : StackNode -> StackNode :=
  match c with
  | CreditOn _ ns p tgt kind => node_on_cpu ns p tgt kind
  | CreditOff _ r ns => fun n => n <| off_cpu ::= add_reason r ns |>
                                   <| off_cpu_intervals ::= fun x => sadd64 x 1 |>
  end.

Definition bump_self (c : credit) : AddressStats -> AddressStats :=
  match c with
  | CreditOn _ ns p tgt kind => self_on_cpu ns p tgt kind
  | CreditOff _ r ns => fun s => s <| self_off_cpu ::= add_reason r ns |>
                                   <| self_off_cpu_intervals ::= fun x => sadd64 x 1 |>
  end.

Definition bump_total (c : credit) : AddressStats -> AddressStats :=
  match c with
  | CreditOn _ ns p tgt kind => total_on_cpu ns p tgt kind
  | CreditOff _ r ns => fun s => s <| total_off_cpu ::= add_reason r ns |>
                                   <| total_off_cpu_intervals ::= fun x => sadd64 x 1 |>
  end.

Lemma apply_credit_eq root ba c :
  apply_credit (root, ba) c =
  match credit_stack c with
  | [] => (root, ba)
  | leaf :: _ =>
      (credit_path (bump_node c) (reverse (credit_stack c)) root,
       credit_totals (bump_total c) (credit_stack c)
         (entry_update address_default (bump_self c) leaf ba))
  end.
Proof. by destruct c as [[] | []]. Qed.

(** One reading lemma for all nineteen counters of each of the three places. *)
Ltac bump_reads := intros;
  match goal with
  | c : credit, k : counter |- _ =>
      destruct c as [? ? ? [] ?|? ? ?]; destruct k; cbn in *;
      rewrite ?read_pmc_add, ?read_add_reason by done;
      rewrite ?sadd64_0_r by done; try done
  end.

Lemma read_bump_node k c n :
  read k n <= u64_max -> read k (bump_node c n) = sadd64 (read k n) (weight k c).
Proof. bump_reads. Qed.

Lemma read_bump_self k c s :
  read_self k s <= u64_max -> read_self k (bump_self c s) = sadd64 (read_self k s) (weight k c).
Proof. bump_reads. Qed.

Lemma read_bump_total k c s :
  read_total k s <= u64_max ->
  read_total k (bump_total c s) = sadd64 (read_total k s) (weight k c).
Proof. bump_reads. Qed.

Lemma read_self_bump_total k c s : read_self k (bump_total c s) = read_self k s.
Proof. by destruct c as [? ? ? [] ?|], k. Qed.

Lemma read_total_bump_self k c s : read_total k (bump_self c s) = read_total k s.
Proof. by destruct c as [? ? ? [] ?|], k. Qed.

Lemma children_bump_node c n : children (bump_node c n) = children n.
Proof. by destruct c as [? ? ? [] ?|]. Qed.

Lemma read_default k : read k node_default = 0.
Proof. by destruct k as [| |[]| | | |[]]. Qed.

Lemma read_self_default k : read_self k address_default = 0.
Proof. by destruct k as [| |[]| | | |[]]. Qed.

Lemma read_total_default k : read_total k address_default = 0.
Proof. by destruct k as [| |[]| | | |[]]. Qed.

(** ** Nodes by their path from the root *)

Fixpoint node_at (path : list Z) (n : StackNode) : option StackNode :=
  match path with
  | [] => Some n
  | a :: path => children n !! a ≫= node_at path
  end.

(** The counter of the node at a path, 0 where the tree has no such node. *)
Definition read_at (k : counter) (path : list Z) (n : StackNode) : Z :=
  default 0 (read k <$> node_at path n).

Lemma read_at_nil k n : read_at k [] n = read k n.
Proof. done. Qed.

Lemma read_at_default k path : read_at k path node_default = 0.
Proof. destruct path; [apply read_default|done]. Qed.

Lemma read_at_cons k a path n :
  read_at k (a :: path) n = read_at k path (default node_default (children n !! a)).
Proof.
  unfold read_at at 1. cbn [node_at]. destruct (children n !! a) as [c|]; cbn [mbind option_bind default].
  - done.
  - by rewrite read_at_default.
Qed.

Definition clamped (n : StackNode) : Prop := forall k path, read_at k path n <= u64_max.

Lemma u64_max_pos : 0 <= u64_max.
Proof. width. lia. Qed.

Lemma clamped_default : clamped node_default.
Proof. intros k path. rewrite read_at_default. apply u64_max_pos. Qed.

Lemma clamped_child n a : clamped n -> clamped (default node_default (children n !! a)).
Proof. intros H k path. rewrite <- read_at_cons. apply H. Qed.

(** The weight a credit has at a path: its own where the path leads to or
    above the leaf of its stack, caller first. *)
Definition on_path (path : list Z) (c : credit) : bool :=
  bool_decide (path `prefix_of` reverse (credit_stack c)).

Definition path_weight (k : counter) (path : list Z) (c : credit) : Z :=
  if on_path path c then weight k c else 0.

Lemma path_weight_nonneg k path c : credit_ok c -> 0 <= path_weight k path c.
Proof. intros H%(weight_nonneg k). unfold path_weight. case_match; lia. Qed.

Lemma read_at_credit_path k c path stack n :
  clamped n -> path <> [] ->
  read_at k path (credit_path (bump_node c) stack n) =
  sadd64 (read_at k path n) (if bool_decide (path `prefix_of` stack) then weight k c else 0).
Proof.
  revert path n. induction stack as [|a stack IH]; intros path n Hn Hne.
  - rewrite bool_decide_eq_false_2 by by intros ?%prefix_nil_inv.
    by rewrite sadd64_0_r by apply Hn.
  - destruct path as [|b path]; [done|]. rewrite !read_at_cons. cbn [credit_path].
    cbn [field_update children]. rewrite lookup_entry_update. case_decide as E.
    + subst b. cbn [default from_option id].
      set (m := default node_default (children n !! a)).
      assert (Hm : clamped m) by by apply clamped_child.
      destruct path as [|b path].
      * rewrite bool_decide_eq_true_2 by by apply prefix_cons, prefix_nil.
        rewrite !read_at_nil. rewrite <- read_bump_node by apply (Hm k []).
        destruct stack; [done|]. by destruct k.
      * assert (Hb : forall q, q <> [] -> forall j, read_at j q (bump_node c m) = read_at j q m).
        { intros [|x q] Hq j; [done|]. by rewrite !read_at_cons, children_bump_node. }
        assert (Hbm : clamped (bump_node c m)).
        { intros j [|x q]; [|by rewrite Hb; [apply Hm|]].
          rewrite read_at_nil, read_bump_node by apply (Hm j []). width. lia. }
        rewrite IH by done. rewrite Hb by done. f_equal.
        rewrite (bool_decide_ext (b :: path `prefix_of` stack)
                   (a :: b :: path `prefix_of` a :: stack)); [done|]. split; [by apply prefix_cons|by apply prefix_cons_inv_2].
    + rewrite bool_decide_eq_false_2; [|by intros ->%prefix_cons_inv_1].
      rewrite sadd64_0_r; [done|]. rewrite <- read_at_cons. apply Hn.
Qed.

Lemma read_credit_path_root k f stack n : read k (credit_path f stack n) = read k n.
Proof. destruct stack; [done|]. by destruct k. Qed.

Lemma read_at_apply_credit k c path root ba :
  clamped root -> path <> [] ->
  read_at k path (apply_credit (root, ba) c).1 = sadd64 (read_at k path root) (path_weight k path c).
Proof.
  intros Hr Hne. rewrite apply_credit_eq. unfold path_weight, on_path.
  destruct (credit_stack c) as [|leaf stack] eqn:E; cbn [fst].
  - rewrite bool_decide_eq_false_2 by by intros ?%prefix_nil_inv.
    by rewrite sadd64_0_r by apply Hr.
  - by rewrite read_at_credit_path.
Qed.

(** The tree's counters are the clamped sums of the credits' weights. *)
Lemma read_at_apply_credits k path cs :
  Forall credit_ok cs -> path <> [] ->
  read_at k path (apply_credits cs).1 = sat_sum (path_weight k path) cs.
Proof.
  intros Hok. revert k path.
  enough (H : clamped (apply_credits cs).1 /\
              forall k path, path <> [] ->
                read_at k path (apply_credits cs).1 = sat_sum (path_weight k path) cs) by apply H.
  unfold apply_credits. induction cs as [|c cs IH] using rev_ind; cbn [foldl].
  - split; [apply clamped_default|]. intros. by rewrite read_at_default.
  - apply Forall_app in Hok as [Hcs [Hc _]%Forall_cons]. rewrite foldl_app. cbn [foldl].
    destruct (IH Hcs) as [Hcl Hread].
    destruct (foldl apply_credit _ cs) as [root ba]. cbn [fst] in *.
    assert (Hat : forall k path, path <> [] ->
      read_at k path (apply_credit (root, ba) c).1 = sat_sum (path_weight k path) (cs ++ [c])).
    { intros k path Hne. rewrite read_at_apply_credit, Hread by done.
      by apply sat_sum_snoc, path_weight_nonneg. }
    split; [|done]. intros k [|a path].
    + rewrite read_at_nil, apply_credit_eq.
      destruct (credit_stack c); cbn [fst]; [|rewrite read_credit_path_root]; apply (Hcl k []).
    + rewrite Hat by done. unfold sat_sum. lia.
Qed.

Lemma read_root_apply_credits k cs : read k (apply_credits cs).1 = 0.
Proof.
  unfold apply_credits. induction cs as [|c cs IH] using rev_ind; cbn [foldl].
  - apply read_default.
  - rewrite foldl_app. cbn [foldl]. destruct (foldl apply_credit _ cs) as [root ba].
    rewrite apply_credit_eq. destruct (credit_stack c); cbn [fst] in *; [done|].
    by rewrite read_credit_path_root.
Qed.

Lemma clamped_apply_credits cs : Forall credit_ok cs -> clamped (apply_credits cs).1.
Proof.
  intros H k [|a path].
  - rewrite read_at_nil, read_root_apply_credits. apply u64_max_pos.
  - rewrite read_at_apply_credits by done. unfold sat_sum. lia.
Qed.

(** A node exists exactly at the paths credits walked over. *)
Lemma node_at_credit_path f path stack n :
  (forall m, children (f m) = children m) ->
  is_Some (node_at path (credit_path f stack n)) <->
  is_Some (node_at path n) \/ path `prefix_of` stack.
Proof.
  intros Hf. revert path n. induction stack as [|a stack IH]; intros path n.
  - split; [by left|]. intros [?| ->%prefix_nil_inv]; done.
  - destruct path as [|b path]; cbn [node_at credit_path].
    { split; [right; apply prefix_nil|done]. }
    cbn [field_update children]. rewrite lookup_entry_update. case_decide as E.
    + subst b. cbn [mbind option_bind]. rewrite IH.
      assert (Hsame : is_Some (node_at path (f (default node_default (children n !! a)))) <->
                      is_Some (children n !! a ≫= node_at path) \/ path = []).
      { destruct path as [|x path]; cbn [node_at]; [naive_solver|]. rewrite Hf.
        destruct (children n !! a); cbn; [naive_solver|]. naive_solver. }
      rewrite Hsame. split.
      * intros [[?| ->]|?]; [by left|right..]; [apply prefix_cons, prefix_nil|by apply prefix_cons].
      * intros [?|?%prefix_cons_inv_2]; [by left; left|by right].
    + split; [by left|]. intros [?| ->%prefix_cons_inv_1]; done.
Qed.

Lemma node_at_apply_credits path cs :
  path <> [] ->
  is_Some (node_at path (apply_credits cs).1) <-> exists c, c ∈ cs /\ on_path path c = true.
Proof.
  intros Hne. unfold apply_credits. induction cs as [|c cs IH] using rev_ind; cbn [foldl].
  - split; [|set_solver]. destruct path; [done|]. cbn. by intros [].
  - rewrite foldl_app. cbn [foldl]. destruct (foldl apply_credit _ cs) as [root ba].
    cbn [fst] in IH. rewrite apply_credit_eq.
    assert (Hnew : is_Some (node_at path (match credit_stack c with
        | [] => (root, ba)
        | leaf :: _ => (credit_path (bump_node c) (reverse (credit_stack c)) root,
             credit_totals (bump_total c) (credit_stack c)
               (entry_update address_default (bump_self c) leaf ba)) end).1) <->
      is_Some (node_at path root) \/ on_path path c = true).
    { unfold on_path. rewrite bool_decide_eq_true.
      destruct (credit_stack c) as [|leaf stack] eqn:E; cbn [fst].
      - split; [by left|]. intros [?| ?%prefix_nil_inv]; done.
      - apply node_at_credit_path, children_bump_node. }
    rewrite Hnew, IH. set_solver.
Qed.

(** ** Addresses *)

(** Recursion counts once: an address on the stack is updated exactly once. *)
Lemma lookup_credit_totals f stack m a :
  credit_totals f stack m !! a =
  if bool_decide (a ∈ stack) then Some (f (default address_default (m !! a))) else m !! a.
Proof.
  unfold credit_totals.
  assert (H : forall seen m,
    (foldl (fun '(seen, m) addr =>
       let '(seen, fresh) := smallset_insert seen addr in
       (seen, if fresh : bool then entry_update address_default f addr m else m))
     (seen, m) stack).2 !! a =
    if bool_decide (a ∈ stack /\ a ∉ seen)
    then Some (f (default address_default (m !! a))) else m !! a).
  { clear m. induction stack as [|x stack IH]; intros seen m; cbn [foldl].
    - rewrite bool_decide_eq_false_2; [done|]. set_solver.
    - unfold smallset_insert at 2. case_bool_decide as Hx; rewrite IH.
      + rewrite (bool_decide_ext (a ∈ x :: stack /\ a ∉ seen) (a ∈ stack /\ a ∉ seen)); [done|].
        set_solver.
      + rewrite lookup_entry_update. destruct (decide (a = x)) as [<-|Hne].
        * rewrite bool_decide_eq_false_2 by set_solver.
          by rewrite bool_decide_eq_true_2 by set_solver.
        * rewrite (bool_decide_ext (a ∈ x :: stack /\ a ∉ seen)
                     (a ∈ stack /\ a ∉ seen ++ [x])); [done|]. set_solver. }
  rewrite H. rewrite (bool_decide_ext (a ∈ stack /\ a ∉ []) (a ∈ stack)); [done|]. set_solver.
Qed.

Definition leaf_weight (k : counter) (a : Z) (c : credit) : Z :=
  if bool_decide (head (credit_stack c) = Some a) then weight k c else 0.

Definition stack_weight (k : counter) (a : Z) (c : credit) : Z :=
  if bool_decide (a ∈ credit_stack c) then weight k c else 0.

Definition stats_at (a : Z) (m : gmap Z AddressStats) : AddressStats :=
  default address_default (m !! a).

Definition stats_clamped (s : AddressStats) : Prop :=
  forall k, read_self k s <= u64_max /\ read_total k s <= u64_max.

Lemma stats_at_apply_credit k a c root ba :
  stats_clamped (stats_at a ba) ->
  let s := stats_at a (apply_credit (root, ba) c).2 in
  read_self k s = sadd64 (read_self k (stats_at a ba)) (leaf_weight k a c) /\
  read_total k s = sadd64 (read_total k (stats_at a ba)) (stack_weight k a c).
Proof.
  intros Hc. destruct (Hc k) as [Hself Htot]. cbn. rewrite apply_credit_eq.
  unfold leaf_weight, stack_weight, stats_at in *.
  destruct (credit_stack c) as [|leaf stack]; cbn [snd head].
  - rewrite !bool_decide_eq_false_2 by (try set_solver; done). by rewrite !sadd64_0_r.
  - rewrite lookup_credit_totals, lookup_entry_update.
    destruct (decide (a = leaf)) as [->|Hne]; [rewrite !bool_decide_eq_true_2 by (try set_solver; done)|].
    + cbn [default from_option id].
      rewrite read_self_bump_total, read_bump_self, read_bump_total, read_total_bump_self;
        rewrite ?read_total_bump_self; done.
    + rewrite (bool_decide_eq_false_2 (Some leaf = Some a)) by congruence.
      rewrite sadd64_0_r by done.
      case_bool_decide; cbn [default from_option id]; [|by rewrite sadd64_0_r].
      by rewrite read_self_bump_total, read_bump_total.
Qed.

Lemma weight_if_nonneg (b : bool) k c : credit_ok c -> 0 <= if b then weight k c else 0.
Proof. intros H%(weight_nonneg k). destruct b; lia. Qed.

Lemma stats_at_apply_credits a cs :
  Forall credit_ok cs ->
  forall k, read_self k (stats_at a (apply_credits cs).2) = sat_sum (leaf_weight k a) cs /\
            read_total k (stats_at a (apply_credits cs).2) = sat_sum (stack_weight k a) cs.
Proof.
  unfold apply_credits. induction cs as [|c cs IH] using rev_ind; cbn [foldl]; intros Hok.
  - intros k. unfold stats_at. cbn [snd]. rewrite lookup_empty. cbn [default from_option id].
    by rewrite read_self_default, read_total_default.
  - apply Forall_app in Hok as [Hcs [Hc _]%Forall_cons]. rewrite foldl_app. cbn [foldl].
    specialize (IH Hcs). destruct (foldl apply_credit _ cs) as [root ba]. cbn [snd] in IH.
    intros k. destruct (stats_at_apply_credit k a c root ba) as [-> ->].
    { intros j. destruct (IH j) as [-> ->]. unfold sat_sum. lia. }
    destruct (IH k) as [-> ->]. split; by apply sat_sum_snoc, weight_if_nonneg.
Qed.

(** ** Merging *)

Lemma children_merge a b k :
  children (merge a b) !! k =
  match children b !! k with
  | Some c => Some (merge (default node_default (children a !! k)) c)
  | None => children a !! k
  end.
Proof.
  destruct b as [? ? ? ? ? ? ? ? cb]. cbn [merge children].
  apply (map_fold_weak_ind (fun acc m =>
    acc !! k = match m !! k with
               | Some c => Some (merge (default node_default (children a !! k)) c)
               | None => children a !! k end)).
  - by rewrite lookup_empty.
  - intros i c m acc Hi IH. destruct (decide (i = k)) as [->|Hne].
    + rewrite !lookup_insert_eq. rewrite Hi in IH. by rewrite IH.
    + by rewrite !lookup_insert_ne.
Qed.

Lemma read_merge k a b : read k (merge a b) = sadd64 (read k a) (read k b).
Proof.
  destruct b. destruct k; cbn; rewrite ?read_add_other, ?read_pmc_add_other; done.
Qed.

(** Every counter of the merged tree is the sum of the two trees' counters. *)
Lemma read_at_merge k path a b :
  clamped a -> clamped b ->
  read_at k path (merge a b) = sadd64 (read_at k path a) (read_at k path b).
Proof.
  revert a b. induction path as [|x path IH]; intros a b Ha Hb.
  - apply read_merge.
  - rewrite !read_at_cons, children_merge.
    pose proof (clamped_child a x Ha) as Hca. pose proof (clamped_child b x Hb) as Hcb.
    destruct (children b !! x) as [c|]; cbn [default from_option id] in *.
    + by apply IH.
    + rewrite read_at_default. by rewrite sadd64_0_r by apply Hca.
Qed.

Lemma clamped_merge a b : clamped a -> clamped b -> clamped (merge a b).
Proof. intros Ha Hb k path. rewrite read_at_merge by done. width. lia. Qed.

(** ** Properties *)

Lemma snoc_prefix_lookup (path s : list Z) a :
  path ++ [a] `prefix_of` s -> s !! length path = Some a /\ path `prefix_of` s.
Proof.
  intros [t ->]. rewrite <- (assoc_L (++)). split; [by apply list_lookup_middle|].
  by exists ([a] ++ t).
Qed.

(** At most one child of a node lies on the path of a credit. *)
Lemma child_weights k path c addrs :
  NoDup addrs -> credit_ok c ->
  sum_of (fun a => path_weight k (path ++ [a]) c) addrs <= path_weight k path c.
Proof.
  intros Hnd Hok. pose proof (path_weight_nonneg k path c Hok) as Hpos.
  induction Hnd as [|a l Ha Hnd IH]; [done|].
  rewrite sum_of_cons.
  destruct (decide (path ++ [a] `prefix_of` reverse (credit_stack c))) as [Hp|Hp].
  - apply snoc_prefix_lookup in Hp as Hp'. destruct Hp' as [Hlook Hpath].
    rewrite (sum_of_ext _ (fun _ => 0) l), sum_of_const.
    + unfold path_weight, on_path. rewrite !bool_decide_eq_true_2 by done. lia.
    + intros b Hb. unfold path_weight, on_path. rewrite bool_decide_eq_false_2; [done|].
      intros [? _]%snoc_prefix_lookup. naive_solver.
  - unfold path_weight at 1, on_path. rewrite bool_decide_eq_false_2 by done. lia.
Qed.

Lemma child_sums k path cs addrs :
  NoDup addrs -> Forall credit_ok cs ->
  sum_of (fun a => sum_of (path_weight k (path ++ [a])) cs) addrs <= sum_of (path_weight k path) cs.
Proof.
  intros Hnd. induction 1 as [|c cs Hc _ IH].
  - cbn. rewrite sum_of_const. lia.
  - rewrite (sum_of_ext _ (fun a => path_weight k (path ++ [a]) c +
               sum_of (path_weight k (path ++ [a])) cs)) by done.
    rewrite sum_of_plus, sum_of_cons. pose proof (child_weights k path c addrs Hnd Hc). lia.
Qed.

(** What the outermost frames of a tree hold of a counter. *)
Definition top_level (k : counter) (n : StackNode) : Z :=
  sum_of (fun e => read k e.2) (map_to_list (children n)).

(** A credit without a stack goes nowhere. *)
Definition placed (k : counter) (c : credit) : Z := if decide (credit_stack c = []) then 0 else weight k c.

(** Of the outermost frames exactly one lies on the path of a credit with a
    stack. *)
Lemma top_weights k c addrs :
  NoDup addrs -> (forall a, reverse (credit_stack c) !! 0%nat = Some a -> a ∈ addrs) ->
  sum_of (fun a => path_weight k [a] c) addrs = placed k c.
Proof.
  intros Hnd Hin. unfold placed.
  assert (forall a, path_weight k [a] c = if decide (reverse (credit_stack c) !! 0%nat = Some a) then weight k c else 0) as Hw.
  { intros a. unfold path_weight, on_path. destruct (decide (reverse (credit_stack c) !! 0%nat = Some a)) as [E|E].
    - rewrite bool_decide_eq_true_2; [done|]. destruct (reverse (credit_stack c)) as [|x l]; [done|]. injection E as ->.
      apply prefix_cons, prefix_nil.
    - rewrite bool_decide_eq_false_2; [done|]. intros [l Hl]. apply E. by rewrite Hl. }
  rewrite (sum_of_ext _ _ addrs (fun a _ => Hw a)). destruct (decide (credit_stack c = [])) as [->|Hne].
  - rewrite (sum_of_ext _ (fun _ => 0)), sum_of_const by done. lia.
  - destruct (reverse (credit_stack c)) as [|x l] eqn:E; [by apply (f_equal reverse) in E; rewrite reverse_involutive in E|].
    rewrite (sum_of_single _ x); [by rewrite decide_True|done|by apply Hin|].
    intros y _ Hy. destruct (decide _) as [[= ->]|]; done.
Qed.

(** The outermost frames hold what was credited to some stack, below
    saturation. *)
Lemma top_level_placed k cs :
  Forall credit_ok cs -> sum_of (weight k) cs < 2 ^ 64 ->
  top_level k (apply_credits cs).1 = sum_of (placed k) cs.
Proof.
  intros Hok Hsum. set (root := (apply_credits cs).1). unfold top_level.
  assert (Hle : forall p, sum_of (path_weight k p) cs < 2 ^ 64).
  { intros p. eapply Z.le_lt_trans; [|exact Hsum]. apply sum_of_le.
    eapply Forall_impl; [exact Hok|]. intros c Hc%(weight_nonneg k). unfold path_weight. case_match; lia. }
  transitivity (sum_of (fun a => sum_of (path_weight k [a]) cs) (map_to_list (children root)).*1).
  - rewrite sum_of_map. apply sum_of_ext. intros [a n] Hn%elem_of_map_to_list. cbn [fst snd].
    rewrite <- sat_sum_exact, <- read_at_apply_credits by done. fold root. unfold read_at. cbn [node_at]. by rewrite Hn.
  - assert (forall c a, c ∈ cs -> reverse (credit_stack c) !! 0%nat = Some a -> a ∈ (map_to_list (children root)).*1) as Hin.
    { intros c a Hc Ha. destruct (node_at_apply_credits [a] cs ltac:(done)) as [_ [n Hn]].
      - exists c. split; [done|]. apply bool_decide_eq_true. destruct (reverse (credit_stack c)) as [|x l]; [done|].
        injection Ha as ->. apply prefix_cons, prefix_nil.
      - fold root in Hn. cbn [node_at] in Hn. destruct (children root !! a) as [m|] eqn:E; [|done].
        apply list_elem_of_fmap. exists (a, m). split; [done|]. by apply elem_of_map_to_list. }
    rewrite sum_of_exchange. apply sum_of_ext. intros c Hc. apply top_weights; [apply NoDup_fst_map_to_list|].
    intros a. by apply Hin.
Qed.

(** C20. The flame tree is exact: after any list of credits a node exists at
    precisely the caller-first paths some credited stack runs along, and each of
    its nineteen counters is the (once clamped) sum of what the credits whose
    stack runs along the path gave; the synthetic root's own counters stay 0. *)
Theorem flame_tree_exact cs :
  Forall credit_ok cs ->
  let root := (apply_credits cs).1 in
  (forall k, read k root = 0) /\
  forall path, path <> [] ->
    (is_Some (node_at path root) <->
     exists c, c ∈ cs /\ path `prefix_of` reverse (credit_stack c)) /\
    forall k, read_at k path root = sat_sum (path_weight k path) cs.
Proof.
  intros Hok. cbn zeta. split; [intros; apply read_root_apply_credits|].
  intros path Hne. split; [|intros; by apply read_at_apply_credits].
  rewrite node_at_apply_credits by done. unfold on_path. by setoid_rewrite bool_decide_eq_true.
Qed.

Definition demo_credits : list credit :=
  [CreditOn [30; 20; 10] 400 (mkPmuSample 5 6 7 8) false None;
   CreditOn [20; 20; 10] 100 (mkPmuSample 1 1 1 1) false None;
   CreditOff [20; 10] LockWait 70;
   CreditOn [40; 10] u64_max pmu_default true (Some Metal)].

Lemma demo_credits_ok : Forall credit_ok demo_credits.
Proof.
  repeat constructor; try lia; try (intros []; vm_compute; congruence); vm_compute; congruence.
Qed.

Lemma flame_tree_exact_witness :
  Forall credit_ok demo_credits /\
  read_at OnCpuNs [10; 20] (apply_credits demo_credits).1 = 500 /\
  sat_sum (path_weight OnCpuNs [10; 20]) demo_credits = 500 /\
  read_at OnCpuNs [10] (apply_credits demo_credits).1 = u64_max.
Proof.
  split; [exact demo_credits_ok|].
  destruct (flame_tree_exact demo_credits demo_credits_ok) as [_ H].
  destruct (H [10; 20]) as [_ Hread]; [done|]. rewrite Hread.
  destruct (H [10]) as [_ Hread1]; [done|]. rewrite Hread1.
  vm_compute. repeat split.
Defined.

(** The per-address rollups are exact: an address's self counters sum the
    credits whose leaf it is, its total counters the credits whose stack holds
    it anywhere, each credit once however often recursion repeats the address;
    so self never exceeds total. *)
Theorem address_rollups_exact cs a :
  Forall credit_ok cs ->
  let s := stats_at a (apply_credits cs).2 in
  forall k,
    read_self k s = sat_sum (leaf_weight k a) cs /\
    read_total k s = sat_sum (stack_weight k a) cs /\
    read_self k s <= read_total k s.
Proof.
  intros Hok s k. destruct (stats_at_apply_credits a cs Hok k) as [Hs Ht].
  unfold s. rewrite Hs, Ht. split; [done|]. split; [done|].
  enough (sum_of (leaf_weight k a) cs <= sum_of (stack_weight k a) cs) by (unfold sat_sum; lia).
  apply sum_of_le. eapply Forall_impl; [exact Hok|]. intros c Hc.
  pose proof (weight_nonneg k c Hc). unfold leaf_weight, stack_weight.
  destruct (credit_stack c) as [|x l]; cbn [head]; [by repeat case_bool_decide|].
  repeat case_bool_decide; try done; simplify_eq; set_solver.
Qed.

Lemma address_rollups_exact_witness :
  Forall credit_ok demo_credits /\
  read_self OnCpuNs (stats_at 20 (apply_credits demo_credits).2) = 100 /\
  read_total OnCpuNs (stats_at 20 (apply_credits demo_credits).2) = 500.
Proof.
  split; [exact demo_credits_ok|].
  destruct (address_rollups_exact demo_credits 20 demo_credits_ok OnCpuNs) as (-> & -> & _).
  by vm_compute.
Defined.

(** In the flame tree the children of a node never exceed it: over any set
    of distinct child addresses a counter sums to at most the node's own, as
    long as the credits do not saturate it; what is left over is the node's
    self share. *)
Theorem children_within_parent cs path addrs k :
  Forall credit_ok cs -> path <> [] -> NoDup addrs -> sum_of (weight k) cs < 2 ^ 64 ->
  sum_of (fun a => read_at k (path ++ [a]) (apply_credits cs).1) addrs
    <= read_at k path (apply_credits cs).1.
Proof.
  intros Hok Hne Hnd Hsum.
  assert (Hle : forall p, sum_of (path_weight k p) cs < 2 ^ 64).
  { intros p. eapply Z.le_lt_trans; [|exact Hsum]. apply sum_of_le.
    eapply Forall_impl; [exact Hok|]. intros c Hc%(weight_nonneg k).
    unfold path_weight. case_match; lia. }
  rewrite read_at_apply_credits, sat_sum_exact by done.
  rewrite (sum_of_ext _ (fun a => sum_of (path_weight k (path ++ [a])) cs)).
  - by apply child_sums.
  - intros a _. rewrite read_at_apply_credits by (try done; by destruct path).
    by apply sat_sum_exact.
Qed.

Lemma children_within_parent_witness :
  NoDup [20; 30] /\ sum_of (weight OffCpuIntervals) demo_credits < 2 ^ 64 /\
  sum_of (fun a => read_at OffCpuIntervals ([10] ++ [a]) (apply_credits demo_credits).1) [20; 30]
    <= read_at OffCpuIntervals [10] (apply_credits demo_credits).1.
Proof.
  assert (Hnd : NoDup [20; 30]) by (apply (bool_decide_unpack _); by vm_compute).
  split; [exact Hnd|]. split; [by vm_compute|].
  apply children_within_parent; [exact demo_credits_ok|done|exact Hnd|by vm_compute].
Defined.

(** Merging the flame roots of several aggregations gives, at every path
    and in every counter, the tree one aggregation of all their credits would
    have built. *)
Theorem merged_flame_root_is_union css :
  Forall (Forall credit_ok) css ->
  forall k path,
    read_at k path (merged_flame_root (map (fun cs => (apply_credits cs).1) css)) =
    read_at k path (apply_credits (concat css)).1.
Proof.
  intros Hok.
  assert (Hstep : forall css acc t, Forall (Forall credit_ok) css -> Forall credit_ok acc ->
    clamped t -> (forall k path, read_at k path t = read_at k path (apply_credits acc).1) ->
    forall k path, read_at k path (foldl merge t (map (fun cs => (apply_credits cs).1) css)) =
                   read_at k path (apply_credits (acc ++ concat css)).1).
  { clear. induction css as [|cs css IH]; intros acc t Hok Hacc Ht Heq k path; cbn.
    - by rewrite app_nil_r.
    - apply Forall_cons in Hok as [Hcs Hok]. rewrite app_assoc.
      pose proof (clamped_apply_credits cs Hcs). apply IH; [done|by apply Forall_app|by apply clamped_merge|].
      intros j q. rewrite read_at_merge, Heq by done. destruct q as [|a q].
      + by rewrite !read_at_nil, !read_root_apply_credits.
      + rewrite !read_at_apply_credits by (try done; by apply Forall_app).
        apply sat_sum_app; (eapply Forall_impl; [eassumption|]); intros; by apply path_weight_nonneg. }
  destruct css as [|cs css]; intros k path; cbn; [done|].
  apply Forall_cons in Hok as [Hcs Hok]. apply Hstep; try done. by apply clamped_apply_credits.
Qed.

Lemma merged_flame_root_is_union_witness :
  Forall (Forall credit_ok) [demo_credits; demo_credits] /\
  read_at OffCpuIntervals [10; 20]
    (merged_flame_root (map (fun cs => (apply_credits cs).1) [demo_credits; demo_credits])) = 2.
Proof.
  assert (H : Forall (Forall credit_ok) [demo_credits; demo_credits])
    by (repeat (constructor; [exact demo_credits_ok|]); constructor).
  split; [exact H|]. rewrite (merged_flame_root_is_union _ H). by vm_compute.
Defined.

End StackTree.
