(* ===== verification/Aggregator.v ===== *)
(** * The aggregator's event log

    [stax-live/src/aggregator.rs]: the raw per-thread streams (stack samples,
    CPU intervals, wakeups), their recording, the session bounds, the queries
    that read the log directly, and the archive form of
    [stax-live-proto/src/lib.rs] the log is saved to and restored from.  A
    [HashMap] is a [gmap]; its iteration order is an argument. *)

From S2P Require Import Prelude StackTree.

Module Aggregator.

Export StackTree.

(** ** Data *)

Record PetSample := mkPetSample {
  ps_timestamp_ns : Z;
  stack : list Z;
  kernel_stack : list Z;
  ps_pmc : PmuSample
}.

Inductive IntervalKind :=
  | OnCpu
  | SyntheticSpan (stack : list Z) (origin_tid : option Z) (lane_kind : TargetLaneKind)
  | OffCpu (stack : list Z) (waker_tid : option Z) (waker_user_stack : option (list Z)).

Record RawInterval := mkRawInterval { start_ns : Z; end_ns : Z; kind : IntervalKind }.

Record RawWakeup := mkRawWakeup {
  rw_timestamp_ns : Z;
  rw_waker_tid : Z;
  rw_waker_user_stack : list Z;
  rw_waker_kernel_stack : list Z
}.

Definition MAX_EVENTS_PER_THREAD : Z := 100000.

Record ThreadStats := mkThreadStats {
  samples : list PetSample;
  intervals : list RawInterval;
  wakeups : list RawWakeup
}.

#[export] Instance eta_ThreadStats : Eta ThreadStats := fun s =>
  mkThreadStats (samples s) (intervals s) (wakeups s).

Definition stats_default : ThreadStats := mkThreadStats [] [] [].

Record RunMarker := mkRunMarker { rm_timestamp_ns : Z; label : string }.

Record Aggregator := mkAggregator {
  threads : gmap Z ThreadStats;
  thread_names : gmap Z string;
  session_start_ns : option Z;
  last_event_ns : option Z;
  markers : list RunMarker
}.

#[export] Instance eta_Aggregator : Eta Aggregator := fun a =>
  mkAggregator (threads a) (thread_names a) (session_start_ns a) (last_event_ns a) (markers a).

Definition aggregator_default : Aggregator := mkAggregator ∅ ∅ None None [].

(** ** Recording *)

Definition note_timestamp (ts : Z) (a : Aggregator) : Aggregator :=
  if bool_decide (ts = 0) then a else
  let a := if session_start_ns a is None then a <| session_start_ns := Some ts |> else a in
  a <| last_event_ns ::= fun last => Some (match last with
                                           | Some prev => Z.max prev ts
                                           | None => ts
                                           end) |>.

(** [self.threads.entry(tid).or_default()] and an update of the entry. *)
Definition with_thread (tid : Z) (f : ThreadStats -> ThreadStats) (a : Aggregator) : Aggregator :=
  a <| threads ::= entry_update stats_default f tid |>.

Definition record_pet_sample (tid timestamp_ns : Z) (user_addrs kernel_addrs : list Z)
    (p : PmuSample) (a : Aggregator) : Aggregator :=
  with_thread tid (fun stats =>
    stats <| samples ::= push_bounded MAX_EVENTS_PER_THREAD
               (mkPetSample timestamp_ns user_addrs kernel_addrs p) |>)
    (note_timestamp timestamp_ns a).

Definition record_interval (tid start_ns end_ns : Z) (kind : IntervalKind) (a : Aggregator)
    : Aggregator :=
  let a := note_timestamp start_ns a in
  let a := if bool_decide (end_ns = 0) then a else note_timestamp end_ns a in
  with_thread tid (fun stats =>
    stats <| intervals ::= push_bounded MAX_EVENTS_PER_THREAD
               (mkRawInterval start_ns end_ns kind) |>) a.

Definition record_wakeup (timestamp_ns waker_tid wakee_tid : Z)
    (waker_user_stack waker_kernel_stack : list Z) (a : Aggregator) : Aggregator :=
  with_thread wakee_tid (fun stats =>
    stats <| wakeups ::= push_bounded MAX_EVENTS_PER_THREAD
               (mkRawWakeup timestamp_ns waker_tid waker_user_stack waker_kernel_stack) |>)
    (note_timestamp timestamp_ns a).

Definition note_external_timestamp_range (start_ns end_ns : Z) (a : Aggregator) : Aggregator :=
  let a := note_timestamp end_ns (note_timestamp start_ns a) in
  match session_start_ns a with
  | Some current => a <| session_start_ns := Some (Z.min current start_ns) |>
  | None => a
  end.

Definition record_marker (label : string) (a : Aggregator) : Aggregator * Z :=
  let timestamp_ns := default 0 (last_event_ns a) in
  (a <| markers ::= fun ms => ms ++ [mkRunMarker timestamp_ns label] |>, timestamp_ns).

Definition set_thread_name (tid : Z) (name : string) (a : Aggregator) : Aggregator :=
  a <| thread_names ::= insert tid name |>.

Definition thread_name (tid : Z) (a : Aggregator) : option string := thread_names a !! tid.

(** ** Queries on the log *)

Record RawWakerEntry := mkRawWakerEntry {
  we_waker_tid : Z; waker_leaf_address : Z; count : Z
}.

(** The leaf a wakeup is grouped under: the waker's user leaf, else its kernel
    leaf, else 0. *)
Definition waker_leaf (w : RawWakeup) : Z :=
  match rw_waker_user_stack w, rw_waker_kernel_stack w with
  | leaf :: _, _ => leaf
  | [], leaf :: _ => leaf
  | [], [] => 0
  end.

Definition count_wakeup (groups : gmap (Z * Z) RawWakerEntry) (w : RawWakeup)
    : gmap (Z * Z) RawWakerEntry :=
  let leaf := waker_leaf w in
  let key := (rw_waker_tid w, leaf) in
  match groups !! key with
  | Some e => <[key := mkRawWakerEntry (we_waker_tid e) (waker_leaf_address e) (wadd64 (count e) 1)]> groups
  | None => <[key := mkRawWakerEntry (rw_waker_tid w) leaf 1]> groups
  end.

Definition top_wakers (into_values : gmap (Z * Z) RawWakerEntry -> list RawWakerEntry)
    (wakee_tid : Z) (limit : nat) (a : Aggregator) : list RawWakerEntry :=
  match threads a !! wakee_tid with
  | None => []
  | Some stats =>
      let groups := foldl count_wakeup ∅ (wakeups stats) in
      take limit (sort_by (fun x y => bool_decide (count y <= count x)) (into_values groups))
  end.

Record NearestPetStack := mkNearestPetStack { np_stack : list Z; distance_ns : Z }.

Inductive NearestPetStackError :=
  | NoThread
  | NoUserStack
  | TooFar (distance_ns max_distance_ns : Z).

(** [Iterator::min_by_key]: the first of the least elements. *)
Fixpoint min_by_key {A} (f : A -> Z) (l : list A) : option A :=
  match l with
  | [] => None
  | x :: l =>
      match min_by_key f l with
      | Some y => if bool_decide (f x <= f y) then Some x else Some y
      | None => Some x
      end
  end.

Definition nearest_pet_stack_with_distance (tid timestamp_ns max_distance_ns : Z) (a : Aggregator)
    : NearestPetStack + NearestPetStackError :=
  match threads a !! tid with
  | None => inr NoThread
  | Some stats =>
      match min_by_key (fun s => abs_diff (ps_timestamp_ns s) timestamp_ns)
              (filter (fun s => stack s <> []) (samples stats)) with
      | None => inr NoUserStack
      | Some sample =>
          let distance := abs_diff (ps_timestamp_ns sample) timestamp_ns in
          if bool_decide (distance <= max_distance_ns)
          then inl (mkNearestPetStack (stack sample) distance)
          else inr (TooFar distance max_distance_ns)
      end
  end.

Definition nearest_pet_stack (tid timestamp_ns max_distance_ns : Z) (a : Aggregator)
    : option (list Z) :=
  match nearest_pet_stack_with_distance tid timestamp_ns max_distance_ns a with
  | inl nearest => Some (np_stack nearest)
  | inr _ => None
  end.

(** ** The archive *)

Record SavedPmuSample := mkSavedPmuSample {
  sv_cycles : Z; sv_instructions : Z; sv_l1d_misses : Z; sv_branch_mispreds : Z
}.

Record SavedPetSample := mkSavedPetSample {
  sp_timestamp_ns : Z; sp_stack : list Z; sp_kernel_stack : list Z; sp_pmc : SavedPmuSample
}.

Inductive SavedIntervalKind :=
  | SavedOnCpu
  | SavedSyntheticSpan (stack : list Z) (origin_tid : option Z) (lane_kind : TargetLaneKind)
  | SavedOffCpu (stack : list Z) (waker_tid : option Z) (waker_user_stack : option (list Z)).

Record SavedInterval := mkSavedInterval {
  si_start_ns : Z; si_end_ns : Z; si_kind : SavedIntervalKind
}.

Record SavedWakeup := mkSavedWakeup {
  sw_timestamp_ns : Z; sw_waker_tid : Z; sw_waker_user_stack : list Z;
  sw_waker_kernel_stack : list Z
}.

Record SavedThread := mkSavedThread {
  st_tid : Z; st_pet_samples : list SavedPetSample; st_intervals : list SavedInterval;
  st_wakeups : list SavedWakeup
}.

Record SavedThreadName := mkSavedThreadName { sn_tid : Z; sn_name : string }.

Record SavedAggregator := mkSavedAggregator {
  sa_session_start_ns : option Z;
  sa_last_event_ns : option Z;
  sa_thread_names : list SavedThreadName;
  sa_threads : list SavedThread;
  sa_markers : list RunMarker
}.

Definition save_sample (s : PetSample) : SavedPetSample :=
  let p := ps_pmc s in
  mkSavedPetSample (ps_timestamp_ns s) (stack s) (kernel_stack s)
    (mkSavedPmuSample (cycles p) (instructions p) (l1d_misses p) (branch_mispreds p)).

Definition save_interval (i : RawInterval) : SavedInterval :=
  mkSavedInterval (start_ns i) (end_ns i)
    (match kind i with
     | OnCpu => SavedOnCpu
     | SyntheticSpan stack origin_tid lane_kind => SavedSyntheticSpan stack origin_tid lane_kind
     | OffCpu stack waker_tid waker_user_stack => SavedOffCpu stack waker_tid waker_user_stack
     end).

Definition save_wakeup (w : RawWakeup) : SavedWakeup :=
  mkSavedWakeup (rw_timestamp_ns w) (rw_waker_tid w) (rw_waker_user_stack w)
    (rw_waker_kernel_stack w).

Definition save_thread (t : Z * ThreadStats) : SavedThread :=
  mkSavedThread t.1 (map save_sample (samples t.2)) (map save_interval (intervals t.2))
    (map save_wakeup (wakeups t.2)).

(** [names] and [ts] are the entries of the two maps in iteration order. *)
Definition to_saved (names : list (Z * string)) (ts : list (Z * ThreadStats)) (a : Aggregator)
    : SavedAggregator :=
  let names := map (fun n => mkSavedThreadName n.1 n.2) names in
  let names := sort_by (fun x y => bool_decide (sn_tid x <= sn_tid y)) names in
  let ts := map save_thread ts in
  let ts := sort_by (fun x y => bool_decide (st_tid x <= st_tid y)) ts in
  mkSavedAggregator (session_start_ns a) (last_event_ns a) names ts (markers a).

Definition load_sample (s : SavedPetSample) : PetSample :=
  let p := sp_pmc s in
  mkPetSample (sp_timestamp_ns s) (sp_stack s) (sp_kernel_stack s)
    (mkPmuSample (sv_cycles p) (sv_instructions p) (sv_l1d_misses p) (sv_branch_mispreds p)).

Definition load_interval (i : SavedInterval) : RawInterval :=
  mkRawInterval (si_start_ns i) (si_end_ns i)
    (match si_kind i with
     | SavedOnCpu => OnCpu
     | SavedSyntheticSpan stack origin_tid lane_kind => SyntheticSpan stack origin_tid lane_kind
     | SavedOffCpu stack waker_tid waker_user_stack => OffCpu stack waker_tid waker_user_stack
     end).

Definition load_wakeup (w : SavedWakeup) : RawWakeup :=
  mkRawWakeup (sw_timestamp_ns w) (sw_waker_tid w) (sw_waker_user_stack w)
    (sw_waker_kernel_stack w).

Definition load_thread (t : SavedThread) : ThreadStats :=
  mkThreadStats (map load_sample (st_pet_samples t)) (map load_interval (st_intervals t))
    (map load_wakeup (st_wakeups t)).

Definition replace_from_saved (saved : SavedAggregator) (self : Aggregator) : Aggregator :=
  let self := self <| threads := ∅ |> <| thread_names := ∅ |>
                   <| session_start_ns := sa_session_start_ns saved |>
                   <| last_event_ns := sa_last_event_ns saved |>
                   <| markers := sa_markers saved |> in
  let self := foldl (fun a n => a <| thread_names ::= insert (sn_tid n) (sn_name n) |>)
                self (sa_thread_names saved) in
  foldl (fun a t => a <| threads ::= insert (st_tid t) (load_thread t) |>)
    self (sa_threads saved).

(** [order] lists the entries of the thread map in iteration order. *)
Definition iter_pet_samples (order : list (Z * ThreadStats)) (tid : option Z) (a : Aggregator)
    : list (Z * PetSample) :=
  match tid with
  | Some tid => match threads a !! tid with
                | Some t => map (pair tid) (samples t)
                | None => []
                end
  | None => t ← order; map (pair t.1) (samples t.2)
  end.

Definition iter_intervals (order : list (Z * ThreadStats)) (tid : option Z) (a : Aggregator)
    : list (Z * RawInterval) :=
  match tid with
  | Some tid => match threads a !! tid with
                | Some t => map (pair tid) (intervals t)
                | None => []
                end
  | None => t ← order; map (pair t.1) (intervals t.2)
  end.

(** ** Archives *)

Lemma load_save_sample s : load_sample (save_sample s) = s.
Proof. by destruct s as [? ? ? []]. Qed.

Lemma load_save_interval i : load_interval (save_interval i) = i.
Proof. by destruct i as [? ? []]. Qed.

Lemma load_save_wakeup w : load_wakeup (save_wakeup w) = w.
Proof. by destruct w. Qed.

Lemma map_cancel {A B} (f : A -> B) (g : B -> A) l : (forall x, g (f x) = x) -> map g (map f l) = l.
Proof. intros H. rewrite map_map. induction l as [|x l IH]; cbn; [done|]. by rewrite H, IH. Qed.

Lemma load_save_thread t : load_thread (save_thread t) = t.2.
Proof.
  destruct t as [tid [ss ivs ws]]. unfold load_thread. cbn.
  by rewrite !map_cancel by auto using load_save_sample, load_save_interval, load_save_wakeup.
Qed.

(** The two restoring loops insert the entries of the lists into the maps. *)
Lemma replace_from_saved_eq saved self :
  replace_from_saved saved self =
  mkAggregator
    (foldl (fun m t => <[st_tid t := load_thread t]> m) ∅ (sa_threads saved))
    (foldl (fun m n => <[sn_tid n := sn_name n]> m) ∅ (sa_thread_names saved))
    (sa_session_start_ns saved) (sa_last_event_ns saved) (sa_markers saved).
Proof.
  unfold replace_from_saved. cbn.
  assert (Hn : forall l ts ns s e m,
    foldl (fun a n => a <| thread_names ::= insert (sn_tid n) (sn_name n) |>)
      (mkAggregator ts ns s e m) l =
    mkAggregator ts (foldl (fun m n => <[sn_tid n := sn_name n]> m) ns l) s e m).
  { induction l as [|n l IH]; intros; cbn; [done|]. apply IH. }
  assert (Ht : forall l ts ns s e m,
    foldl (fun a t => a <| threads ::= insert (st_tid t) (load_thread t) |>)
      (mkAggregator ts ns s e m) l =
    mkAggregator (foldl (fun m t => <[st_tid t := load_thread t]> m) ts l) ns s e m).
  { induction l as [|t l IH]; intros; cbn; [done|]. apply IH. }
  rewrite Hn. apply Ht.
Qed.

(** Inserting the entries of a map in any order rebuilds it. *)
Lemma foldl_insert_perm {A V} (key : A -> Z) (value : A -> V) (l : list A) (m : gmap Z V) :
  map (fun x => (key x, value x)) l ≡ₚ map_to_list m ->
  foldl (fun acc x => <[key x := value x]> acc) ∅ l = m.
Proof.
  intros Hp.
  assert (Hnd : NoDup (map fst (map (fun x => (key x, value x)) l))).
  { rewrite Hp. apply NoDup_fst_map_to_list. }
  assert (H : foldl (fun acc x => <[key x := value x]> acc) ∅ l =
              (list_to_map (reverse (map (fun x => (key x, value x)) l)) : gmap Z V)).
  { clear Hp Hnd. induction l as [|x l IH] using rev_ind; [done|].
    rewrite foldl_app, map_app, reverse_app, IH. done. }
  rewrite H. rewrite <- (list_to_map_to_list m). apply list_to_map_proper.
  - rewrite <- (reverse_Permutation (map _ l)) in Hnd. exact Hnd.
  - by rewrite reverse_Permutation.
Qed.

Lemma saved_threads_perm (ts : list (Z * ThreadStats)) (l : list SavedThread) :
  l ≡ₚ map save_thread ts -> map (fun t => (st_tid t, load_thread t)) l ≡ₚ ts.
Proof.
  intros ->. rewrite map_map. induction ts as [|t ts IH]; cbn -[load_thread save_thread]; [done|].
  rewrite load_save_thread, IH. by destruct t.
Qed.

Lemma saved_names_perm (ns : list (Z * string)) (l : list SavedThreadName) :
  l ≡ₚ map (fun n => mkSavedThreadName n.1 n.2) ns -> map (fun n => (sn_tid n, sn_name n)) l ≡ₚ ns.
Proof.
  intros ->. rewrite map_map. induction ns as [|n ns IH]; cbn; [done|]. rewrite IH. by destruct n.
Qed.

(** Sorting entries with distinct keys by key does not depend on their order. *)
Lemma sort_by_key_unique {A B} (key : B -> Z) (f : A -> B) (l1 l2 : list A) :
  NoDup (map (fun x => key (f x)) l1) -> l1 ≡ₚ l2 ->
  sort_by (fun x y => bool_decide (key x <= key y)) (map f l1) =
  sort_by (fun x y => bool_decide (key x <= key y)) (map f l2).
Proof.
  intros Hnd Hp. apply sort_by_unique.
  - intros x y ?%bool_decide_eq_false. apply bool_decide_eq_true. lia.
  - intros x y z ?%bool_decide_eq_true ?%bool_decide_eq_true. apply bool_decide_eq_true. lia.
  - intros x y Hx Hy ?%bool_decide_eq_true ?%bool_decide_eq_true.
    apply list_elem_of_fmap in Hx as (u & -> & Hu). apply list_elem_of_fmap in Hy as (v & -> & Hv).
    f_equal. assert (Hk : key (f u) = key (f v)) by lia.
    apply list_elem_of_lookup in Hu as [i Hi], Hv as [j Hj].
    assert (i = j); [|congruence]. eapply (NoDup_lookup _ _ _ (key (f u)) Hnd).
    + rewrite list_lookup_fmap, Hi. done.
    + rewrite list_lookup_fmap, Hj. cbn. by rewrite Hk.
  - by apply Permutation_map.
Qed.

(** ** Runs of the log *)

Inductive op :=
  | PetOp (tid timestamp_ns : Z) (user_addrs kernel_addrs : list Z) (p : PmuSample)
  | IntervalOp (tid start_ns end_ns : Z) (kind : IntervalKind)
  | WakeupOp (timestamp_ns waker_tid wakee_tid : Z) (user_stack kernel_stack : list Z)
  | ExternalOp (start_ns end_ns : Z)
  | MarkerOp (label : string)
  | NameOp (tid : Z) (name : string).

Definition step (a : Aggregator) (o : op) : Aggregator :=
  match o with
  | PetOp tid ts us ks p => record_pet_sample tid ts us ks p a
  | IntervalOp tid s e kind => record_interval tid s e kind a
  | WakeupOp ts waker wakee us ks => record_wakeup ts waker wakee us ks a
  | ExternalOp s e => note_external_timestamp_range s e a
  | MarkerOp label => (record_marker label a).1
  | NameOp tid name => set_thread_name tid name a
  end.

Definition run (ops : list op) : Aggregator := foldl step aggregator_default ops.

(** The times an operation notes, 0 meaning none. *)
Definition stamps (o : op) : list Z :=
  filter (fun ts => ts <> 0)
    (match o with
     | PetOp _ ts _ _ _ | WakeupOp ts _ _ _ _ => [ts]
     | IntervalOp _ s e _ | ExternalOp s e => [s; e]
     | MarkerOp _ | NameOp _ _ => []
     end).

Definition sample_of (tid : Z) (o : op) : option PetSample :=
  match o with
  | PetOp t ts us ks p => if decide (t = tid) then Some (mkPetSample ts us ks p) else None
  | _ => None
  end.

Definition interval_of (tid : Z) (o : op) : option RawInterval :=
  match o with
  | IntervalOp t s e kind => if decide (t = tid) then Some (mkRawInterval s e kind) else None
  | _ => None
  end.

Definition wakeup_of (tid : Z) (o : op) : option RawWakeup :=
  match o with
  | WakeupOp ts waker wakee us ks =>
      if decide (wakee = tid) then Some (mkRawWakeup ts waker us ks) else None
  | _ => None
  end.

(** The last [cap] elements. *)
Definition newest {A} (cap : Z) (l : list A) : list A := drop (length l - Z.to_nat cap) l.

Lemma newest_snoc {A} cap (l : list A) x :
  0 < cap -> push_bounded cap x (newest cap l) = newest cap (l ++ [x]).
Proof.
  intros Hcap. unfold push_bounded, newest. rewrite length_app, length_drop. cbn [length].
  rewrite drop_app_le by lia. f_equal. case_bool_decide.
  - assert (Htail : forall q : list A, tail q = drop 1 q) by by intros [].
    rewrite Htail, drop_drop. f_equal. lia.
  - f_equal. lia.
Qed.

Lemma newest_length {A} cap (l : list A) : 0 <= cap -> Z.of_nat (length (newest cap l)) <= cap.
Proof. unfold newest. rewrite length_drop. lia. Qed.

Definition log_of (tid : Z) (ops : list op) : ThreadStats :=
  mkThreadStats (newest MAX_EVENTS_PER_THREAD (omap (sample_of tid) ops))
                (newest MAX_EVENTS_PER_THREAD (omap (interval_of tid) ops))
                (newest MAX_EVENTS_PER_THREAD (omap (wakeup_of tid) ops)).

Definition thread_log (tid : Z) (a : Aggregator) : ThreadStats :=
  default stats_default (threads a !! tid).

Lemma threads_note_timestamp ts a : threads (note_timestamp ts a) = threads a.
Proof. unfold note_timestamp. case_bool_decide; [done|]. by destruct (session_start_ns a). Qed.

Lemma threads_record_marker l a : threads (record_marker l a).1 = threads a.
Proof. done. Qed.

Lemma threads_external s e a : threads (note_external_timestamp_range s e a) = threads a.
Proof.
  unfold note_external_timestamp_range. cbn zeta.
  destruct (session_start_ns _); cbn; by rewrite !threads_note_timestamp.
Qed.

Lemma thread_log_with_thread tid t f a :
  thread_log tid (with_thread t f a) =
  if decide (tid = t) then f (thread_log tid a) else thread_log tid a.
Proof.
  unfold thread_log, with_thread. cbn. rewrite lookup_entry_update.
  destruct (decide (tid = t)) as [->|]; done.
Qed.

Lemma thread_log_same tid a a' : threads a = threads a' -> thread_log tid a = thread_log tid a'.
Proof. unfold thread_log. by intros ->. Qed.

(** The event belongs to the thread asked about, or the log is unchanged. *)
Ltac logged t tid :=
  destruct (decide (t = tid)) as [->|];
  [ rewrite decide_True by done;
    cbn [option_list field_update samples intervals wakeups log_of]; by rewrite newest_snoc
  | rewrite decide_False by done; cbn [option_list]; by rewrite app_nil_r ].

(** One operation appends its own event, if it has one for the thread. *)
Lemma log_of_snoc tid ops o : thread_log tid (run ops) = log_of tid ops ->
  thread_log tid (step (run ops) o) = log_of tid (ops ++ [o]).
Proof.
  assert (Hcap : 0 < MAX_EVENTS_PER_THREAD) by done.
  intros IH. unfold log_of. rewrite !omap_snoc. destruct o as [t ts us ks p|t s e k|ts t' t us ks|s e|l|t n];
    cbn [step sample_of interval_of wakeup_of option_list]; rewrite ?app_nil_r.
  - unfold record_pet_sample. rewrite thread_log_with_thread.
    rewrite (thread_log_same _ _ (run ops)), IH by apply threads_note_timestamp.
    logged t tid.
  - unfold record_interval. rewrite thread_log_with_thread.
    rewrite (thread_log_same _ _ (run ops)), IH
      by (case_bool_decide; by rewrite ?threads_note_timestamp).
    logged t tid.
  - unfold record_wakeup. rewrite thread_log_with_thread.
    rewrite (thread_log_same _ _ (run ops)), IH by apply threads_note_timestamp.
    logged t tid.
  - by rewrite (thread_log_same _ _ (run ops)), IH by apply threads_external.
  - by rewrite (thread_log_same _ _ (run ops)), IH.
  - by rewrite (thread_log_same _ _ (run ops)), IH.
Qed.

Lemma thread_log_run tid ops : thread_log tid (run ops) = log_of tid ops.
Proof.
  induction ops as [|o ops IH] using rev_ind; [done|].
  unfold run. rewrite foldl_app. cbn [foldl]. by apply log_of_snoc.
Qed.

(** *** Session bounds *)

Definition latest (l : list Z) : option Z := foldl (fun m ts => Some (match m with Some p => Z.max p ts | None => ts end)) None l.

Lemma latest_snoc l ts :
  latest (l ++ [ts]) = Some (match latest l with Some p => Z.max p ts | None => ts end).
Proof. unfold latest. by rewrite foldl_app. Qed.

Lemma last_event_note_timestamp ts a l :
  last_event_ns a = latest l ->
  last_event_ns (note_timestamp ts a) = latest (l ++ filter (fun t => t <> 0) [ts]).
Proof.
  intros H. unfold note_timestamp. case_bool_decide as E.
  - subst ts. rewrite filter_cons_False by auto. by rewrite app_nil_r.
  - rewrite filter_cons_True by done. rewrite latest_snoc, <- H. by destruct (session_start_ns a).
Qed.

Lemma last_event_step o a l :
  last_event_ns a = latest l -> last_event_ns (step a o) = latest (l ++ stamps o).
Proof.
  intros H. unfold stamps.
  assert (H2 : forall s e, last_event_ns (note_timestamp e (note_timestamp s a)) =
    latest (l ++ filter (fun t => t <> 0) [s; e])).
  { intros s e. change [s; e] with ([s] ++ [e]). rewrite filter_app, (assoc_L (++)).
    by apply last_event_note_timestamp, last_event_note_timestamp. }
  destruct o as [t ts us ks p|t s e k|ts t' t us ks|s e|lb|t n]; cbn [step].
  - by apply last_event_note_timestamp.
  - unfold record_interval. cbn zeta. case_bool_decide as E; [|apply H2].
    subst e. change [s; 0] with ([s] ++ [0]). rewrite filter_app, (filter_cons_False _ 0) by auto.
    rewrite app_nil_r. by apply last_event_note_timestamp.
  - by apply last_event_note_timestamp.
  - unfold note_external_timestamp_range. cbn zeta. rewrite <- H2.
    by destruct (session_start_ns _).
  - by rewrite app_nil_r.
  - by rewrite app_nil_r.
Qed.

Lemma latest_spec l :
  (latest l = None <-> l = []) /\
  forall t, latest l = Some t -> t ∈ l /\ Forall (fun ts => ts <= t) l.
Proof.
  induction l as [|ts l [IHn IH]] using rev_ind; [by split|].
  rewrite latest_snoc. split; [split; [done|by destruct l]|].
  intros t [= <-]. destruct (latest l) as [p|] eqn:E.
  - destruct (IH p eq_refl) as [Hin Hall]. split.
    + destruct (Z.max_spec p ts) as [[_ ->]|[_ ->]]; set_solver.
    + apply Forall_app. split; [|repeat constructor; lia].
      eapply Forall_impl; [exact Hall|]. cbn. lia.
  - rewrite (proj1 IHn) by done. split; [set_solver|]. repeat constructor. lia.
Qed.

(** The start is set with the last event and never after it. *)
Definition bounds_ok (a : Aggregator) : Prop :=
  match session_start_ns a, last_event_ns a with
  | None, None => True
  | Some s, Some e => s <= e
  | _, _ => False
  end.

Lemma bounds_ok_note_timestamp ts a : bounds_ok a -> bounds_ok (note_timestamp ts a).
Proof.
  unfold bounds_ok, note_timestamp. case_bool_decide; [done|].
  destruct (session_start_ns a) eqn:Es, (last_event_ns a) eqn:Ee; cbn; rewrite ?Es, ?Ee; try done; lia.
Qed.

Lemma bounds_ok_step o a : bounds_ok a -> bounds_ok (step a o).
Proof.
  intros H. destruct o as [t ts us ks p|t s e k|ts t' t us ks|s e|lb|t n]; cbn [step].
  - by apply (bounds_ok_note_timestamp ts a).
  - unfold record_interval, bounds_ok, with_thread. cbn zeta.
    case_bool_decide; [by apply (bounds_ok_note_timestamp s a)|].
    by apply (bounds_ok_note_timestamp e), (bounds_ok_note_timestamp s a).
  - by apply (bounds_ok_note_timestamp ts a).
  - unfold note_external_timestamp_range. cbn zeta.
    assert (H2 : bounds_ok (note_timestamp e (note_timestamp s a)))
      by by apply bounds_ok_note_timestamp, bounds_ok_note_timestamp.
    revert H2. unfold bounds_ok.
    destruct (session_start_ns _) eqn:Es, (last_event_ns _) eqn:Ee; cbn; rewrite ?Es, ?Ee; try done. lia.
  - done.
  - done.
Qed.

(** *** Markers *)

Definition marker_times_ok (a : Aggregator) : Prop :=
  StronglySorted Z.le (map rm_timestamp_ns (markers a)) /\
  Forall (fun t => t <= default 0 (last_event_ns a)) (map rm_timestamp_ns (markers a)).

Lemma markers_step o a :
  markers (step a o) =
  markers a ++ match o with MarkerOp l => [mkRunMarker (default 0 (last_event_ns a)) l] | _ => [] end.
Proof.
  assert (Hn : forall ts a, markers (note_timestamp ts a) = markers a).
  { intros ts b. unfold note_timestamp. case_bool_decide; [done|]. by destruct (session_start_ns b). }
  destruct o as [t ts us ks p|t s e k|ts t' t us ks|s e|lb|t n]; cbn [step]; rewrite ?app_nil_r; try done.
  - apply Hn.
  - unfold record_interval. cbn. case_bool_decide; by rewrite !Hn.
  - apply Hn.
  - unfold note_external_timestamp_range. cbn zeta. destruct (session_start_ns _); cbn; by rewrite !Hn.
Qed.

Lemma last_event_mono o a :
  Forall (fun ts => 0 <= ts) (stamps o) ->
  default 0 (last_event_ns a) <= default 0 (last_event_ns (step a o)).
Proof.
  intros Hpos. set (l := option_list (last_event_ns a)).
  assert (Hl : last_event_ns a = latest l) by (unfold l; by destruct (last_event_ns a)).
  rewrite (last_event_step o a l Hl), Hl. clear Hl.
  induction (stamps o) as [|t ts IH] using rev_ind; [by rewrite app_nil_r|].
  apply Forall_app in Hpos as [Hts [Ht _]%Forall_cons]. specialize (IH Hts).
  rewrite (assoc_L (++)), latest_snoc. destruct (latest (l ++ ts)); cbn in *; lia.
Qed.

Lemma marker_times_step o a :
  Forall (fun ts => 0 <= ts) (stamps o) -> marker_times_ok a -> marker_times_ok (step a o).
Proof.
  intros Hpos [Hs Hle]. unfold marker_times_ok. pose proof (last_event_mono o a Hpos) as Hmono.
  rewrite markers_step, map_app.
  assert (Hle' : Forall (fun t => t <= default 0 (last_event_ns (step a o)))
                   (map rm_timestamp_ns (markers a)))
    by (eapply Forall_impl; [exact Hle|]; cbn; lia).
  destruct o; cbn [map]; rewrite ?app_nil_r; try done.
  split; [|apply Forall_app; split; [done|]; repeat constructor; done].
  apply StronglySorted_app. split; [|split; [done|repeat constructor]].
  intros x y Hx Hy. rewrite Forall_forall in Hle. cbn in Hy.
  apply list_elem_of_singleton in Hy as ->. by apply Hle.
Qed.

(** *** Wakers *)

Definition waker_key (w : RawWakeup) : Z * Z := (rw_waker_tid w, waker_leaf w).

Definition entry_key (e : RawWakerEntry) : Z * Z := (we_waker_tid e, waker_leaf_address e).

Definition wakeups_with (key : Z * Z) (ws : list RawWakeup) : Z :=
  Z.of_nat (length (filter (fun w => waker_key w = key) ws)).

Lemma wakeups_with_snoc key ws w :
  wakeups_with key (ws ++ [w]) = wakeups_with key ws + (if decide (waker_key w = key) then 1 else 0).
Proof.
  unfold wakeups_with. rewrite filter_app, length_app. case_decide as E.
  - rewrite filter_cons_True by done. cbn. lia.
  - rewrite filter_cons_False by done. cbn. lia.
Qed.

Lemma wakeups_with_bound key ws : 0 <= wakeups_with key ws <= Z.of_nat (length ws).
Proof. unfold wakeups_with. pose proof (length_filter (fun w => waker_key w = key) ws). lia. Qed.

Lemma count_wakeups_spec ws key :
  Z.of_nat (length ws) <= MAX_EVENTS_PER_THREAD ->
  foldl count_wakeup ∅ ws !! key =
  if decide (wakeups_with key ws = 0) then None
  else Some (mkRawWakerEntry key.1 key.2 (wakeups_with key ws)).
Proof.
  unfold MAX_EVENTS_PER_THREAD. revert key.
  induction ws as [|w ws IH] using rev_ind; intros key Hlen; [done|].
  rewrite length_app in Hlen. cbn in Hlen.
  pose proof (wakeups_with_bound key ws) as Hb.
  rewrite foldl_app, wakeups_with_snoc. cbn [foldl]. unfold count_wakeup at 1. fold (waker_key w).
  rewrite IH by lia. destruct (decide (waker_key w = key)) as [<-|Hne].
  - rewrite (decide_False (P := wakeups_with (waker_key w) ws + 1 = 0)) by lia.
    case_decide as E; rewrite lookup_insert_eq.
    + by rewrite E.
    + cbn. rewrite wadd64_small by lia. done.
  - rewrite Z.add_0_r. destruct (decide _); rewrite lookup_insert_ne by done; apply IH; lia.
Qed.

(** The groups hold one entry per pair that woke the thread, with its count. *)
Lemma group_entries ws all :
  Z.of_nat (length ws) <= MAX_EVENTS_PER_THREAD ->
  all ≡ₚ map snd (map_to_list (foldl count_wakeup ∅ ws)) ->
  NoDup (map entry_key all) /\
  forall e, e ∈ all <->
    wakeups_with (entry_key e) ws <> 0 /\ count e = wakeups_with (entry_key e) ws.
Proof.
  intros Hlen Hall. split; [|intros e]; rewrite Hall.
  - rewrite map_map, (map_ext_in _ fst); [apply NoDup_fst_map_to_list|].
    intros [key e] He%list_elem_of_In%elem_of_map_to_list.
    rewrite count_wakeups_spec in He by done. case_decide; [done|]. injection He as <-. by destruct key.
  - rewrite list_elem_of_fmap. split.
    + intros ([key e'] & -> & He%elem_of_map_to_list). cbn.
      rewrite count_wakeups_spec in He by done. case_decide; [done|]. injection He as <-.
      unfold entry_key. cbn. by destruct key.
    + intros [Hne Hc]. exists (entry_key e, e). split; [done|]. apply elem_of_map_to_list.
      rewrite count_wakeups_spec, decide_False by done.
      destruct e as [tid leaf c]. cbn in *. by rewrite Hc.
Qed.

Lemma sort_by_count_sorted l :
  StronglySorted (fun x y => count y <= count x)
    (sort_by (fun x y => bool_decide (count y <= count x)) l).
Proof.
  eapply StronglySorted_weaken; [|apply sort_by_sorted].
  - by intros x y ?%bool_decide_eq_true.
  - intros x y ?%bool_decide_eq_false. apply bool_decide_eq_true. lia.
  - intros x y z ?%bool_decide_eq_true ?%bool_decide_eq_true. apply bool_decide_eq_true. lia.
Qed.

Lemma wakeups_with_pos w ws : w ∈ ws -> wakeups_with (waker_key w) ws <> 0.
Proof.
  intros Hw. unfold wakeups_with.
  assert (Hin : w ∈ filter (fun v => waker_key v = waker_key w) ws) by by apply list_elem_of_filter.
  destruct (filter _ ws); [set_solver|cbn; lia].
Qed.

(** *** Nearest stacks *)

Lemma min_by_key_spec {A} (f : A -> Z) l x :
  min_by_key f l = Some x ->
  exists l1 l2, l = l1 ++ x :: l2 /\ Forall (fun y => f x < f y) l1 /\ Forall (fun y => f x <= f y) l2.
Proof.
  revert x. induction l as [|y l IH]; intros x; cbn; [done|].
  destruct (min_by_key f l) as [z|] eqn:E.
  - destruct (IH z eq_refl) as (l1 & l2 & -> & H1 & H2).
    case_bool_decide; intros [= <-].
    + exists [], (l1 ++ z :: l2). split; [done|]. split; [constructor|].
      apply Forall_app. split; [|constructor; [done|]].
      * eapply Forall_impl; [exact H1|]. cbn. lia.
      * eapply Forall_impl; [exact H2|]. cbn. lia.
    + exists (y :: l1), l2. split; [done|]. split; [|done]. constructor; [lia|done].
  - intros [= <-]. exists [], l. split; [done|]. split; [constructor|].
    destruct l; [constructor|]. cbn in E. by destruct (min_by_key f l) as [?|]; [case_bool_decide|].
Qed.

Lemma min_by_key_None {A} (f : A -> Z) l : min_by_key f l = None <-> l = [].
Proof.
  split; [|by intros ->]. destruct l; [done|]. cbn.
  destruct (min_by_key f l); [by case_bool_decide|done].
Qed.

(** ** Properties *)

Lemma saved_log_restored a self names ts :
  names ≡ₚ map_to_list (thread_names a) -> ts ≡ₚ map_to_list (threads a) ->
  replace_from_saved (to_saved names ts a) self = a.
Proof.
  intros Hn Ht. rewrite replace_from_saved_eq. unfold to_saved. cbn [sa_threads sa_thread_names
    sa_session_start_ns sa_last_event_ns sa_markers]. destruct a as [tm nm s e m]. f_equal.
  - apply foldl_insert_perm. rewrite <- Ht. apply saved_threads_perm, sort_by_perm.
  - apply foldl_insert_perm. rewrite <- Hn. apply saved_names_perm, sort_by_perm.
Qed.

(** Saving and restoring loses nothing: whatever order the hash maps are
    iterated in, the archive is the same, and restoring it over any aggregator
    gives back the saved one: every thread's samples, intervals and wakeups in
    order, the names, the session bounds and the markers. *)
Theorem archive_roundtrip a self names ts names' ts' :
  names ≡ₚ map_to_list (thread_names a) -> ts ≡ₚ map_to_list (threads a) ->
  names' ≡ₚ map_to_list (thread_names a) -> ts' ≡ₚ map_to_list (threads a) ->
  replace_from_saved (to_saved names ts a) self = a /\
  to_saved names ts a = to_saved names' ts' a.
Proof.
  intros Hn Ht Hn' Ht'. split; [by apply saved_log_restored|].
  unfold to_saved. f_equal; apply sort_by_key_unique.
  - cbn. rewrite Hn. apply NoDup_fst_map_to_list.
  - by rewrite Hn, Hn'.
  - cbn. rewrite Ht. apply NoDup_fst_map_to_list.
  - by rewrite Ht, Ht'.
Qed.

Definition demo_ops : list op :=
  [NameOp 7 "main"; PetOp 7 100 [30; 20; 10] [] (mkPmuSample 1 2 3 4);
   IntervalOp 7 90 130 OnCpu; WakeupOp 135 8 7 [50] []; WakeupOp 140 8 7 [50; 51] [];
   WakeupOp 141 9 7 [] [77]; MarkerOp "warm";
   IntervalOp 7 130 0 (OffCpu [20; 10] (Some 8) (Some [50])); ExternalOp 40 60;
   PetOp 9 150 [] [77] pmu_default; NameOp 3 "idle"; MarkerOp "done"].

Lemma archive_roundtrip_witness :
  let a := run demo_ops in
  let names := reverse (map_to_list (thread_names a)) in
  let ts := reverse (map_to_list (threads a)) in
  names ≡ₚ map_to_list (thread_names a) /\ ts ≡ₚ map_to_list (threads a) /\
  replace_from_saved (to_saved names ts a) aggregator_default = a.
Proof.
  cbn zeta. split; [apply reverse_Permutation|]. split; [apply reverse_Permutation|].
  eapply archive_roundtrip; try apply reverse_Permutation; reflexivity.
Defined.

(** The log of a thread is exactly what was recorded for it, bounded: after
    any run each of its three queues holds, in order, the newest 100000 of the
    events recorded for that thread and no other, and never more. *)
Theorem log_keeps_newest ops tid :
  let stats := thread_log tid (run ops) in
  samples stats = newest MAX_EVENTS_PER_THREAD (omap (sample_of tid) ops) /\
  intervals stats = newest MAX_EVENTS_PER_THREAD (omap (interval_of tid) ops) /\
  wakeups stats = newest MAX_EVENTS_PER_THREAD (omap (wakeup_of tid) ops) /\
  Z.of_nat (length (samples stats)) <= MAX_EVENTS_PER_THREAD /\
  Z.of_nat (length (intervals stats)) <= MAX_EVENTS_PER_THREAD /\
  Z.of_nat (length (wakeups stats)) <= MAX_EVENTS_PER_THREAD.
Proof.
  cbn zeta. rewrite thread_log_run. unfold log_of. cbn [samples intervals wakeups].
  split_ands; try done; by apply newest_length.
Qed.

(** The session bounds follow the events: the last event is the latest
    non-zero time any operation noted (none when there was none), and a session
    start exists with it and never lies after it. *)
Theorem session_bounds ops :
  let a := run ops in
  bounds_ok a /\
  (last_event_ns a = None <-> ops ≫= stamps = []) /\
  forall t, last_event_ns a = Some t ->
    t ∈ ops ≫= stamps /\ Forall (fun ts => ts <= t) (ops ≫= stamps).
Proof.
  assert (H : bounds_ok (run ops) /\ last_event_ns (run ops) = latest (ops ≫= stamps)).
  { induction ops as [|o ops [IHb IHl]] using rev_ind; [done|].
    unfold run. rewrite foldl_app, bind_app. cbn [foldl]. fold (run ops).
    split; [by apply bounds_ok_step|]. rewrite bind_cons, app_nil_r. by apply last_event_step. }
  cbn zeta. destruct H as [Hb ->]. split; [done|]. apply latest_spec.
Qed.

(** Markers stay in timestamp order, and none is stamped after the last
    event, as long as event times are not negative. *)
Theorem markers_in_order ops :
  Forall (fun o => Forall (fun ts => 0 <= ts) (stamps o)) ops ->
  StronglySorted Z.le (map rm_timestamp_ns (markers (run ops))) /\
  Forall (fun t => t <= default 0 (last_event_ns (run ops)))
    (map rm_timestamp_ns (markers (run ops))).
Proof.
  intros Hpos. change (marker_times_ok (run ops)).
  induction ops as [|o ops IH] using rev_ind; [by repeat constructor|].
  apply Forall_app in Hpos as [Hops [Ho _]%Forall_cons].
  unfold run. rewrite foldl_app. by apply marker_times_step; [|apply IH].
Qed.

Lemma markers_in_order_witness :
  Forall (fun o => Forall (fun ts => 0 <= ts) (stamps o)) demo_ops /\
  map rm_timestamp_ns (markers (run demo_ops)) = [141; 150] /\
  StronglySorted Z.le (map rm_timestamp_ns (markers (run demo_ops))).
Proof.
  assert (H : Forall (fun o => Forall (fun ts => 0 <= ts) (stamps o)) demo_ops)
    by (apply (bool_decide_unpack _); by vm_compute).
  split; [exact H|]. split; [by vm_compute|]. by apply markers_in_order.
Defined.

(** The top wakers of a thread: at most [limit] entries, in descending
    order of count, at most one per (waker, leaf) pair, each counting exactly
    the wakeups of its pair; and a pair that is left out occurs no more often
    than any pair that is listed, the list being full.  Any iteration order of
    the group map will do. *)
Theorem top_wakers_exact into_values wakee limit a :
  (forall m, into_values m ≡ₚ map snd (map_to_list m)) ->
  Z.of_nat (length (wakeups (thread_log wakee a))) <= MAX_EVENTS_PER_THREAD ->
  let ws := wakeups (thread_log wakee a) in
  let out := top_wakers into_values wakee limit a in
  (length out <= limit)%nat /\
  StronglySorted (fun x y => count y <= count x) out /\
  NoDup (map entry_key out) /\
  (forall e, e ∈ out -> count e = wakeups_with (entry_key e) ws /\ 0 < count e) /\
  (forall w, w ∈ ws -> waker_key w ∉ map entry_key out ->
     length out = limit /\ forall e, e ∈ out -> wakeups_with (waker_key w) ws <= count e).
Proof.
  intros Hiter. unfold thread_log, top_wakers.
  destruct (threads a !! wakee) as [stats|]; cbn [default from_option id]; cycle 1.
  { intros _. cbn. split_ands; try done; [lia|constructor|constructor|set_solver|set_solver]. }
  intros Hlen. cbn zeta. set (ws := wakeups stats) in *.
  set (all := sort_by _ (into_values (foldl count_wakeup ∅ ws))).
  destruct (group_entries ws all Hlen) as [Hnd Hin]; [unfold all; by rewrite sort_by_perm|].
  pose proof (sort_by_count_sorted (into_values (foldl count_wakeup ∅ ws))) as Hsort.
  fold all in Hsort. pose proof (take_drop limit all) as Hsplit.
  rewrite <- Hsplit in Hsort. apply StronglySorted_app in Hsort as (Hcross & Hs & _).
  split; [rewrite length_take; lia|]. split; [done|].
  split; [rewrite <- Hsplit, map_app in Hnd; by apply NoDup_app in Hnd as [? _]|].
  split.
  - intros e He. assert (He' : e ∈ all) by (rewrite <- Hsplit; set_solver).
    apply Hin in He' as [Hne Hc]. pose proof (wakeups_with_bound (entry_key e) ws). lia.
  - intros w Hw Hout.
    set (e := mkRawWakerEntry (waker_key w).1 (waker_key w).2 (wakeups_with (waker_key w) ws)).
    assert (He : e ∈ all) by (apply Hin; split; [by apply wakeups_with_pos|done]).
    rewrite <- Hsplit in He. apply elem_of_app in He as [He|He].
    + exfalso. apply Hout. apply (list_elem_of_fmap_2 entry_key) in He. exact He.
    + split; [|intros e' He'; exact (Hcross e' e He' He)].
      rewrite length_take. enough (limit <= length all)%nat by lia.
      destruct (decide (limit <= length all)%nat); [done|]. rewrite drop_ge in He by lia. set_solver.
Qed.

Lemma top_wakers_exact_witness :
  let into_values := fun m : gmap (Z * Z) RawWakerEntry => map snd (map_to_list m) in
  (forall m, into_values m ≡ₚ map snd (map_to_list m)) /\
  Z.of_nat (length (wakeups (thread_log 7 (run demo_ops)))) <= MAX_EVENTS_PER_THREAD /\
  top_wakers into_values 7 1 (run demo_ops) = [mkRawWakerEntry 8 50 2] /\
  (length (top_wakers into_values 7 1 (run demo_ops)) <= 1)%nat.
Proof.
  cbn zeta. split; [done|]. split; [by vm_compute|]. split; [by vm_compute|].
  apply (top_wakers_exact (fun m => map snd (map_to_list m)) 7 1 (run demo_ops)); [done|by vm_compute].
Defined.

(** The nearest stack query: with no log for the thread it fails with
    [NoThread]; else it looks at the samples with a user stack and answers with
    the first of those nearest in time to the asked moment when that one is
    within the limit, reports its distance as [TooFar] when it is not, and
    [NoUserStack] when there is none. *)
Theorem nearest_pet_stack_exact tid ts limit a :
  match nearest_pet_stack_with_distance tid ts limit a with
  | inl n => exists stats l1 s l2,
      threads a !! tid = Some stats /\ filter (fun s => stack s <> []) (samples stats) = l1 ++ s :: l2 /\
      np_stack n = stack s /\ distance_ns n = abs_diff (ps_timestamp_ns s) ts /\
      distance_ns n <= limit /\
      Forall (fun s' => distance_ns n < abs_diff (ps_timestamp_ns s') ts) l1 /\
      Forall (fun s' => distance_ns n <= abs_diff (ps_timestamp_ns s') ts) l2
  | inr NoThread => threads a !! tid = None
  | inr NoUserStack => exists stats, threads a !! tid = Some stats /\
      Forall (fun s => stack s = []) (samples stats)
  | inr (TooFar d limit') => limit' = limit /\ limit < d /\ exists stats,
      threads a !! tid = Some stats /\
      (exists s, s ∈ samples stats /\ stack s <> [] /\ d = abs_diff (ps_timestamp_ns s) ts) /\
      Forall (fun s => stack s <> [] -> d <= abs_diff (ps_timestamp_ns s) ts) (samples stats)
  end.
Proof.
  unfold nearest_pet_stack_with_distance. destruct (threads a !! tid) as [stats|] eqn:Et; [|done].
  destruct (min_by_key _ _) as [s|] eqn:Em.
  - apply min_by_key_spec in Em as (l1 & l2 & Hl & H1 & H2). cbn zeta. case_bool_decide as Hd.
    + exists stats, l1, s, l2. split_ands; done.
    + split; [done|]. split; [lia|]. exists stats. split; [done|].
      assert (Hs : forall s', s' ∈ l1 ++ s :: l2 <-> stack s' <> [] /\ s' ∈ samples stats).
      { intros s'. by rewrite <- Hl, list_elem_of_filter. }
      split; [exists s; split_ands; [apply Hs; set_solver|apply Hs; set_solver|done]|].
      apply Forall_forall. intros s' Hin Hne.
      assert (Hin' : s' ∈ l1 ++ s :: l2) by (apply Hs; done).
      rewrite Forall_forall in H1, H2. apply elem_of_app in Hin' as [Hx|[->|Hx]%elem_of_cons].
      * specialize (H1 s' Hx). lia.
      * lia.
      * by apply H2.
  - apply min_by_key_None in Em. exists stats. split; [done|]. apply Forall_forall. intros s Hs.
    destruct (decide (stack s = [])) as [|Hne]; [done|].
    assert (Hin : s ∈ filter (fun s => stack s <> []) (samples stats)) by by apply list_elem_of_filter.
    rewrite Em in Hin. set_solver.
Qed.

End Aggregator.
