(* ===== verification/Aggregate.v ===== *)
(** * The aggregation pass

    [Aggregator::aggregate] of [stax-live/src/aggregator.rs]: one walk over every
    thread's intervals that distributes on-CPU time over the samples inside it,
    credits target spans and classifies blocked time.  The detailed pass (a
    cursor over the samples, accumulators updated in place) refines a
    declarative list of credits, and the counters of its result follow from the
    theorems on [StackTree]. *)

From S2P Require Import Prelude Aggregator.

Module Aggregate.

Export Aggregator.

Inductive EventCtx :=
  | PetSampleCtx (tid : Z) (sample : PetSample)
  | IntervalCtx (tid : Z) (interval : RawInterval).

Record Aggregation := mkAggregation {
  flame_root : StackNode;
  by_address : gmap Z AddressStats;
  agg_on_cpu_ns : Z;
  agg_target_ns : Z;
  agg_target_spans : Z;
  agg_off_cpu : OffCpuBreakdown
}.

#[export] Instance eta_Aggregation : Eta Aggregation := fun a =>
  mkAggregation (flame_root a) (by_address a) (agg_on_cpu_ns a) (agg_target_ns a)
    (agg_target_spans a) (agg_off_cpu a).

Definition total_off_cpu_ns (a : Aggregation) : Z := total_ns (agg_off_cpu a).

Definition aggregation_new : Aggregation := mkAggregation node_default ∅ 0 0 0 breakdown_default.

Definition with_tables (f : tables -> tables) (a : Aggregation) : Aggregation :=
  let '(root, ba) := f (flame_root a, by_address a) in
  a <| flame_root := root |> <| by_address := ba |>.

(** What the registry promises the pass: a name for some addresses. *)
Class SymbolLookup := lookup_function : Z -> option string.

(** Open intervals end at the newest event, or where they start. *)
Definition interval_end (now : Z) (i : RawInterval) : Z :=
  if bool_decide (end_ns i = 0) then Z.max now (start_ns i) else end_ns i.

Definition duration (now : Z) (i : RawInterval) : Z := ssub (interval_end now i) (start_ns i).

Section Pass.
Context `{Lookup : SymbolLookup} (predicate : EventCtx -> bool).

(** [stack.first().and_then(lookup_symbol).map(|r| r.function_name)], classified. *)
Definition block_reason (stack : list Z) : OffCpuReason :=
  classify_offcpu (head stack ≫= lookup_function).

Section Query.
Variables (tid : option Z) (now : Z).

(** [tid.is_some_and(|query_tid| query_tid != event_tid)] *)
Definition other_thread (event_tid : Z) : bool :=
  match tid with Some q => bool_decide (q <> event_tid) | None => false end.

Definition not_origin (origin_tid : option Z) : bool :=
  match tid with Some q => bool_decide (Some q <> origin_tid) | None => false end.

(** The arm for an on-CPU interval; the cursor is the suffix of the samples it
    points at. *)
Definition on_cpu_step (event_tid : Z) (i : RawInterval) (cursor : list PetSample)
    (agg : Aggregation) : list PetSample * Aggregation :=
  if other_thread event_tid then (cursor, agg) else
  let start := start_ns i in
  let cursor := drop_while (fun s => bool_decide (ps_timestamp_ns s < start)) cursor in
  let matching :=
    filter (fun s => predicate (PetSampleCtx event_tid s) = true)
      (take_while (fun s => bool_decide (ps_timestamp_ns s < interval_end now i)) cursor) in
  if bool_decide (matching = []) then (cursor, agg) else
  let credit_ns := duration now i / Z.of_nat (length matching) in
  if bool_decide (credit_ns = 0) then (cursor, agg) else
  let agg := agg <| agg_on_cpu_ns ::= fun t => sadd64 t (duration now i) |> in
  (cursor, foldl (fun agg s =>
     with_tables (credit_on_cpu_to_tree (stack s) credit_ns (ps_pmc s) false None) agg)
     agg matching).

Definition interval_step (event_tid : Z) (st : list PetSample * Aggregation) (i : RawInterval)
    : list PetSample * Aggregation :=
  let '(cursor, agg) := st in
  let d := duration now i in
  if bool_decide (d = 0) then (cursor, agg) else
  match kind i with
  | OnCpu => on_cpu_step event_tid i cursor agg
  | SyntheticSpan stack origin_tid lane_kind =>
      if other_thread event_tid && not_origin origin_tid then (cursor, agg) else
      if negb (predicate (IntervalCtx event_tid i)) then (cursor, agg) else
      let agg := agg <| agg_on_cpu_ns ::= fun t => sadd64 t d |>
                     <| agg_target_ns ::= fun t => sadd64 t d |>
                     <| agg_target_spans ::= fun t => sadd64 t 1 |> in
      (cursor, with_tables (credit_on_cpu_to_tree (target_lane_stack stack) d pmu_default true
                              (Some lane_kind)) agg)
  | OffCpu stack _ _ =>
      if other_thread event_tid then (cursor, agg) else
      if negb (predicate (IntervalCtx event_tid i)) then (cursor, agg) else
      let reason := block_reason stack in
      let agg := agg <| agg_off_cpu ::= add_reason reason d |> in
      (cursor, with_tables (credit_off_cpu_to_tree stack reason d) agg)
  end.

Definition aggregate_thread (event_tid : Z) (stats : ThreadStats) (agg : Aggregation)
    : Aggregation :=
  (foldl (interval_step event_tid) (samples stats, agg) (intervals stats)).2.
End Query.

(** [tids] is [self.threads.keys()] in iteration order. *)
Definition aggregate (tids : list Z) (tid : option Z) (a : Aggregator) : Aggregation :=
  let now := default 0 (last_event_ns a) in
  foldl (fun agg event_tid =>
    match threads a !! event_tid with
    | Some stats => aggregate_thread tid now event_tid stats agg
    | None => agg
    end) aggregation_new tids.

(** ** The declarative credits *)

Section Spec.
Variables (tid : option Z) (now : Z).

(** The samples an on-CPU interval is distributed over. *)
Definition inside (event_tid : Z) (i : RawInterval) (ss : list PetSample) : list PetSample :=
  filter (fun s => start_ns i <= ps_timestamp_ns s < interval_end now i /\
                   predicate (PetSampleCtx event_tid s) = true) ss.

Definition interval_share (event_tid : Z) (i : RawInterval) (ss : list PetSample) : Z :=
  duration now i / Z.of_nat (length (inside event_tid i ss)).

(** Whether the interval contributes: it has a length, the query is about it
    and the filter keeps it, and an on-CPU one has samples to carry at least a
    nanosecond each. *)
Definition counted (event_tid : Z) (ss : list PetSample) (i : RawInterval) : bool :=
  bool_decide (duration now i <> 0) &&
  match kind i with
  | OnCpu => negb (other_thread tid event_tid) &&
      bool_decide (inside event_tid i ss <> []) && bool_decide (interval_share event_tid i ss <> 0)
  | SyntheticSpan _ origin _ =>
      negb (other_thread tid event_tid && not_origin tid origin) && predicate (IntervalCtx event_tid i)
  | OffCpu _ _ _ => negb (other_thread tid event_tid) && predicate (IntervalCtx event_tid i)
  end.

Definition interval_credits (event_tid : Z) (ss : list PetSample) (i : RawInterval) : list credit :=
  if counted event_tid ss i then
    match kind i with
    | OnCpu => map (fun s => CreditOn (stack s) (interval_share event_tid i ss) (ps_pmc s) false None)
                 (inside event_tid i ss)
    | SyntheticSpan stack _ lane =>
        [CreditOn (target_lane_stack stack) (duration now i) pmu_default true (Some lane)]
    | OffCpu stack _ _ => [CreditOff stack (block_reason stack) (duration now i)]
    end
  else [].

(** What the interval adds to the headline totals. *)
Definition on_time (event_tid : Z) (ss : list PetSample) (i : RawInterval) : Z :=
  if counted event_tid ss i
  then match kind i with OffCpu _ _ _ => 0 | _ => duration now i end else 0.

Definition target_time (event_tid : Z) (ss : list PetSample) (i : RawInterval) : Z :=
  if counted event_tid ss i
  then match kind i with SyntheticSpan _ _ _ => duration now i | _ => 0 end else 0.

Definition target_count (event_tid : Z) (ss : list PetSample) (i : RawInterval) : Z :=
  if counted event_tid ss i
  then match kind i with SyntheticSpan _ _ _ => 1 | _ => 0 end else 0.

Definition off_time (r : OffCpuReason) (event_tid : Z) (ss : list PetSample) (i : RawInterval) : Z :=
  if counted event_tid ss i
  then match kind i with
       | OffCpu stack _ _ => if decide (block_reason stack = r) then duration now i else 0
       | _ => 0
       end
  else 0.
End Spec.

(** Every interval of the log with its thread and the thread's samples, threads
    in iteration order. *)
Definition log_intervals (tids : list Z) (a : Aggregator) : list (Z * list PetSample * RawInterval) :=
  t ← tids; match threads a !! t with
            | Some stats => map (fun i => (t, samples stats, i)) (intervals stats)
            | None => []
            end.

Definition log_credits (tids : list Z) (tid : option Z) (a : Aggregator) : list credit :=
  '(t, ss, i) ← log_intervals tids a;
  interval_credits tid (default 0 (last_event_ns a)) t ss i.

(** ** Refinement *)

Definition breakdown_of (f : OffCpuReason -> Z) : OffCpuBreakdown :=
  mkOffCpuBreakdown (f Idle) (f LockWait) (f SemaphoreWait) (f IpcWait) (f IoRead) (f IoWrite)
    (f Readiness) (f Sleep) (f ConnectionSetup) (f Other).

Lemma read_breakdown_of r f : read_reason r (breakdown_of f) = f r.
Proof. by destruct r. Qed.

Lemma breakdown_of_ext f g : (forall r, f r = g r) -> breakdown_of f = breakdown_of g.
Proof. intros H. unfold breakdown_of. by rewrite !H. Qed.

Lemma add_reason_breakdown_of r d f :
  add_reason r d (breakdown_of f) =
  breakdown_of (fun r' => if decide (r = r') then sadd64 (f r') d else f r').
Proof. by destruct r. Qed.

Section Refinement.
Variables (tid : option Z) (now : Z).

Let credits_of (e : Z * list PetSample * RawInterval) : list credit :=
  interval_credits tid now e.1.1 e.1.2 e.2.

(** A measure of an interval, over log entries. *)
Let on_entry (f : Z -> list PetSample -> RawInterval -> Z) (e : Z * list PetSample * RawInterval) : Z :=
  f e.1.1 e.1.2 e.2.

(** The aggregation a list of log entries stands for. *)
Definition spec_aggregation (l : list (Z * list PetSample * RawInterval)) : Aggregation :=
  let '(root, ba) := apply_credits (l ≫= credits_of) in
  mkAggregation root ba
    (sat_sum (on_entry (on_time tid now)) l)
    (sat_sum (on_entry (target_time tid now)) l)
    (sat_sum (on_entry (target_count tid now)) l)
    (breakdown_of (fun r => sat_sum (on_entry (off_time tid now r)) l)).

Lemma duration_nonneg i : 0 <= duration now i.
Proof. unfold duration. width. lia. Qed.

Lemma credit_steps cs agg :
  foldl (fun agg c => with_tables (fun t => apply_credit t c) agg) agg cs =
  with_tables (fun t => foldl apply_credit t cs) agg.
Proof.
  revert agg. induction cs as [|c cs IH]; intros agg; cbn [foldl].
  - by destruct agg.
  - rewrite IH. unfold with_tables. cbn.
    destruct (apply_credit (flame_root agg, by_address agg) c) as [root ba] eqn:E. cbn.
    destruct (foldl apply_credit (root, ba) cs) as [root' ba']. by destruct agg.
Qed.

Lemma apply_credits_snoc l e :
  apply_credits ((l ++ [e]) ≫= credits_of) =
  foldl apply_credit (apply_credits (l ≫= credits_of)) (credits_of e).
Proof. unfold apply_credits. by rewrite bind_app, bind_cons, app_nil_r, foldl_app. Qed.

(** An entry that is not counted changes nothing. *)
Lemma spec_skip l t ss i :
  counted tid now t ss i = false -> spec_aggregation (l ++ [(t, ss, i)]) = spec_aggregation l.
Proof.
  intros Hc. unfold spec_aggregation. rewrite apply_credits_snoc.
  unfold credits_of at 2. cbn [fst snd]. unfold interval_credits. rewrite Hc. cbn [foldl].
  destruct (apply_credits _) as [root ba].
  rewrite !sat_sum_snoc_0
    by (unfold on_entry, on_time, target_time, target_count; cbn [fst snd]; by rewrite Hc).
  f_equal. apply breakdown_of_ext. intros r. apply sat_sum_snoc_0.
  unfold on_entry, off_time. cbn [fst snd]. by rewrite Hc.
Qed.

(** A counted one adds its credits and its share of the totals. *)
Lemma spec_count l t ss i :
  counted tid now t ss i = true ->
  spec_aggregation (l ++ [(t, ss, i)]) =
  let agg := spec_aggregation l in
  let d := duration now i in
  with_tables (fun tb => foldl apply_credit tb (interval_credits tid now t ss i))
    (match kind i with
     | OnCpu => agg <| agg_on_cpu_ns ::= fun x => sadd64 x d |>
     | SyntheticSpan _ _ _ =>
         agg <| agg_on_cpu_ns ::= fun x => sadd64 x d |>
             <| agg_target_ns ::= fun x => sadd64 x d |>
             <| agg_target_spans ::= fun x => sadd64 x 1 |>
     | OffCpu stack _ _ => agg <| agg_off_cpu ::= add_reason (block_reason stack) d |>
     end).
Proof.
  intros Hc. pose proof (duration_nonneg i) as Hd.
  unfold spec_aggregation. rewrite apply_credits_snoc.
  change (credits_of (t, ss, i)) with (interval_credits tid now t ss i).
  destruct (apply_credits (l ≫= credits_of)) as [root ba]. cbn zeta.
  assert (Hoff : forall r, (forall stack w ws, kind i <> OffCpu stack w ws) ->
    sat_sum (on_entry (off_time tid now r)) (l ++ [(t, ss, i)]) =
    sat_sum (on_entry (off_time tid now r)) l).
  { intros r Hk. apply sat_sum_snoc_0. unfold on_entry, off_time. cbn. rewrite Hc.
    destruct (kind i); [done|done|]. by destruct (Hk stack0 waker_tid waker_user_stack). }
  unfold with_tables. destruct (kind i) as [|? ? ?|stack ? ?] eqn:Ek;
    cbn [field_update flame_root by_address agg_on_cpu_ns agg_target_ns agg_target_spans agg_off_cpu];
    destruct (foldl apply_credit (root, ba) _) as [root' ba']; cbn;
    rewrite ?(sat_sum_snoc_eq (on_entry (on_time tid now)) _ _ (duration now i)),
            ?(sat_sum_snoc_eq (on_entry (target_time tid now)) _ _ (duration now i)),
            ?(sat_sum_snoc_eq (on_entry (target_count tid now)) _ _ 1),
            ?(sat_sum_snoc_0 (on_entry (on_time tid now))),
            ?(sat_sum_snoc_0 (on_entry (target_time tid now))),
            ?(sat_sum_snoc_0 (on_entry (target_count tid now)))
      by (try lia; unfold on_entry, on_time, target_time, target_count; cbn; by rewrite Hc, Ek).
  - f_equal. apply breakdown_of_ext. intros r. by apply Hoff.
  - f_equal. apply breakdown_of_ext. intros r. by apply Hoff.
  - f_equal. rewrite add_reason_breakdown_of. apply breakdown_of_ext. intros r.
    case_decide as E; [apply sat_sum_snoc_eq; [|done]|apply sat_sum_snoc_0];
      unfold on_entry, off_time; cbn; rewrite Hc, Ek;
      [by rewrite decide_True|by rewrite decide_False].
Qed.

(** The cursor is as good as the whole queue for intervals starting at [b] or
    later. *)
Definition cursor_ok (b : Z) (ss cursor : list PetSample) : Prop :=
  forall start, b <= start ->
    drop_while (fun s => bool_decide (ps_timestamp_ns s < start)) cursor =
    drop_while (fun s => bool_decide (ps_timestamp_ns s < start)) ss.

Lemma cursor_ok_advance b start ss cursor :
  b <= start -> cursor_ok b ss cursor ->
  cursor_ok start ss (drop_while (fun s => bool_decide (ps_timestamp_ns s < start)) cursor).
Proof.
  intros Hb Hc start' Hs. rewrite drop_while_weaker; [apply Hc; lia|].
  intros s ?%bool_decide_eq_true. apply bool_decide_eq_true. lia.
Qed.

Definition by_time : relation PetSample := fun s s' => ps_timestamp_ns s <= ps_timestamp_ns s'.

(** On a time-ordered queue the walk selects the samples inside the interval. *)
Lemma window_inside t i ss :
  StronglySorted by_time ss ->
  filter (fun s => predicate (PetSampleCtx t s) = true)
    (take_while (fun s => bool_decide (ps_timestamp_ns s < interval_end now i))
       (drop_while (fun s => bool_decide (ps_timestamp_ns s < start_ns i)) ss)) =
  inside now t i ss.
Proof.
  intros Hs. unfold by_time in *.
  assert (Hdown : forall b (x y : PetSample), ps_timestamp_ns x <= ps_timestamp_ns y ->
    bool_decide (ps_timestamp_ns y < b) = true -> bool_decide (ps_timestamp_ns x < b) = true).
  { intros b x y Hxy ?%bool_decide_eq_true. apply bool_decide_eq_true. lia. }
  rewrite (drop_while_sorted by_time) by (try done; apply Hdown).
  rewrite (take_while_sorted by_time); [|apply Hdown|].
  - rewrite !list_filter_filter. unfold inside. apply list_filter_iff. intros s.
    rewrite bool_decide_eq_true, bool_decide_eq_false. split; intros; repeat split; lia || naive_solver lia.
  - clear Hdown. induction Hs as [|x l Hl IH Hx]; [constructor|].
    rewrite filter_cons. case_decide; [|done]. constructor; [done|].
    apply Forall_forall. intros y [_ Hy]%list_elem_of_filter. rewrite Forall_forall in Hx. by apply Hx.
Qed.

Definition is_on_cpu (i : RawInterval) : Prop := kind i = OnCpu.

#[export] Instance is_on_cpu_dec i : Decision (is_on_cpu i).
Proof. unfold is_on_cpu. destruct (kind i); [left|right|right]; done. Defined.

Lemma on_cpu_step_refines b t ss cursor l i :
  StronglySorted by_time ss -> cursor_ok b ss cursor -> is_on_cpu i -> b <= start_ns i ->
  duration now i <> 0 ->
  exists cursor',
    on_cpu_step tid now t i cursor (spec_aggregation l) =
      (cursor', spec_aggregation (l ++ [(t, ss, i)])) /\
    cursor_ok (if other_thread tid t then b else start_ns i) ss cursor'.
Proof.
  intros Hs Hc Hon Hb Hd. unfold on_cpu_step.
  assert (Hct : counted tid now t ss i = negb (other_thread tid t) &&
    bool_decide (inside now t i ss <> []) && bool_decide (interval_share now t i ss <> 0)).
  { unfold counted. rewrite Hon. by rewrite bool_decide_eq_true_2. }
  destruct (other_thread tid t).
  { exists cursor. by rewrite spec_skip. }
  cbn zeta. rewrite (Hc (start_ns i) Hb), (window_inside t i ss Hs), <- (Hc (start_ns i) Hb).
  eexists; split; [|by apply (cursor_ok_advance b)].
  fold (interval_share now t i ss).
  destruct (decide (inside now t i ss = [])) as [Hin|Hin].
  { rewrite bool_decide_eq_true_2, spec_skip by (try done; by rewrite Hct, Hin). done. }
  rewrite (bool_decide_eq_false_2 (inside now t i ss = [])) by done.
  destruct (decide (interval_share now t i ss = 0)) as [Hcr|Hcr].
  { rewrite bool_decide_eq_true_2, spec_skip
      by (try done; rewrite Hct, Hcr; by rewrite andb_false_r). done. }
  rewrite bool_decide_eq_false_2 by done.
  assert (Hcount : counted tid now t ss i = true) by by rewrite Hct, !bool_decide_eq_true_2.
  rewrite spec_count by done. cbn zeta. f_equal. rewrite <- credit_steps.
  unfold interval_credits. rewrite Hcount, Hon.
  rewrite (foldl_fmap _ _ (inside now t i ss)). done.
Qed.

(** One interval of the detailed pass is one entry of the specification. *)
Lemma interval_step_refines b t ss cursor l i :
  StronglySorted by_time ss -> cursor_ok b ss cursor -> (is_on_cpu i -> b <= start_ns i) ->
  exists cursor',
    interval_step tid now t (cursor, spec_aggregation l) i =
      (cursor', spec_aggregation (l ++ [(t, ss, i)])) /\
    cursor_ok (if decide (is_on_cpu i) then start_ns i else b) ss cursor'.
Proof.
  intros Hs Hc Hb. unfold interval_step.
  assert (Hlater : forall c', b <= c' -> cursor_ok c' ss cursor) by (intros c' Hc' ? ?; apply Hc; lia).
  assert (Hcur : cursor_ok (if decide (is_on_cpu i) then start_ns i else b) ss cursor)
    by (case_decide; auto with lia).
  case_bool_decide as Hd.
  { exists cursor. rewrite spec_skip; [done|]. unfold counted. by rewrite bool_decide_eq_false_2 by auto. }
  assert (Hct : counted tid now t ss i = match kind i with
    | OnCpu => counted tid now t ss i
    | SyntheticSpan _ o _ => negb (other_thread tid t && not_origin tid o) && predicate (IntervalCtx t i)
    | OffCpu _ _ _ => negb (other_thread tid t) && predicate (IntervalCtx t i) end).
  { unfold counted. rewrite bool_decide_eq_true_2 by done. by destruct (kind i). }
  destruct (kind i) as [|stack origin lane|stack waker wstack] eqn:Ek.
  - assert (Hon : is_on_cpu i) by done.
    destruct (on_cpu_step_refines b t ss cursor l i) as (c' & -> & Hc'); try done; [by apply Hb|].
    exists c'. split; [done|]. rewrite decide_True by done.
    destruct (other_thread tid t); [|done]. intros ? ?. apply Hc'. specialize (Hb Hon). lia.
  - exists cursor. split; [|done].
    destruct (other_thread tid t && not_origin tid origin) eqn:Ho; [by rewrite spec_skip by (rewrite Hct, ?Ek, ?Ho; done)|].
    destruct (predicate (IntervalCtx t i)) eqn:Hp; [|by rewrite spec_skip by (rewrite Hct, ?Ek, ?Ho, ?Hp; done)].
    rewrite spec_count by (rewrite Hct, ?Ek, ?Ho, ?Hp; done). unfold interval_credits. rewrite Hct, ?Ek, ?Ho, ?Hp. done.
  - exists cursor. split; [|done].
    destruct (other_thread tid t) eqn:Ho; [by rewrite spec_skip by (rewrite Hct, ?Ek, ?Ho; done)|].
    destruct (predicate (IntervalCtx t i)) eqn:Hp; [|by rewrite spec_skip by (rewrite Hct, ?Ek, ?Ho, ?Hp; done)].
    rewrite spec_count by (rewrite Hct, ?Ek, ?Ho, ?Hp; done). unfold interval_credits. rewrite Hct, ?Ek, ?Ho, ?Hp. done.
Qed.

(** On-CPU intervals in the order their threads produced them. *)
Definition chronological (ivs : list RawInterval) : Prop :=
  StronglySorted (fun i j => start_ns i <= start_ns j) (filter is_on_cpu ivs).

Lemma interval_steps_refine b t ss cursor l ivs :
  StronglySorted by_time ss -> cursor_ok b ss cursor -> chronological ivs ->
  Forall (fun i => b <= start_ns i) (filter is_on_cpu ivs) ->
  (foldl (interval_step tid now t) (cursor, spec_aggregation l) ivs).2 =
  spec_aggregation (l ++ map (fun i => (t, ss, i)) ivs).
Proof.
  intros Hs. revert b cursor l. induction ivs as [|i ivs IH]; intros b cursor l Hc Hch Hb; cbn [foldl map].
  - by rewrite app_nil_r.
  - destruct (interval_step_refines b t ss cursor l i) as (c' & -> & Hc'); try done.
    { intros Hon. rewrite filter_cons_True in Hb by done. by apply Forall_inv in Hb. }
    unfold chronological in *. rewrite filter_cons in Hch, Hb.
    rewrite (IH _ c' _ Hc'); [by rewrite <- (assoc_L (++))|..]; case_decide; try done.
    + by inversion Hch.
    + by inversion Hch.
Qed.

Lemma aggregate_thread_refines t stats l :
  StronglySorted by_time (samples stats) -> chronological (intervals stats) ->
  aggregate_thread tid now t stats (spec_aggregation l) =
  spec_aggregation (l ++ map (fun i => (t, samples stats, i)) (intervals stats)).
Proof.
  intros Hs Hch. unfold aggregate_thread.
  destruct (filter is_on_cpu (intervals stats)) as [|i rest] eqn:E.
  - apply (interval_steps_refine 0); try done. by rewrite E.
  - apply (interval_steps_refine (start_ns i)); try done.
    unfold chronological in Hch. rewrite E in *. apply StronglySorted_inv in Hch as [_ H].
    by constructor.
Qed.
End Refinement.

(** A log in time order with counters in range, as the recorder produces it. *)
Definition log_ok (a : Aggregator) : Prop :=
  map_Forall (fun _ stats =>
    StronglySorted by_time (samples stats) /\ chronological (intervals stats) /\
    Forall (fun s => pmu_ok (ps_pmc s)) (samples stats)) (threads a).

Lemma aggregate_eq tids tid a :
  log_ok a ->
  aggregate tids tid a =
  spec_aggregation tid (default 0 (last_event_ns a)) (log_intervals tids a).
Proof.
  intros Hok. unfold aggregate. set (now := default 0 (last_event_ns a)).
  induction tids as [|t tids IH] using rev_ind; [done|].
  rewrite foldl_app. cbn [foldl]. rewrite IH. unfold log_intervals. rewrite bind_app, bind_cons, app_nil_r.
  destruct (threads a !! t) as [stats|] eqn:E; [|by rewrite app_nil_r].
  destruct (Hok t stats E) as (Hs & Hch & _). by rewrite aggregate_thread_refines.
Qed.

Lemma inside_subset now t i ss s : s ∈ inside now t i ss -> s ∈ ss.
Proof. unfold inside. intros [_ H]%list_elem_of_filter. exact H. Qed.

Lemma interval_share_nonneg now t i ss : 0 <= interval_share now t i ss.
Proof.
  unfold interval_share. pose proof (duration_nonneg now i).
  destruct (inside now t i ss); [by rewrite Z.div_0_r|]. apply Z.div_pos; [done|]. cbn. lia.
Qed.

Lemma pmu_default_ok : pmu_ok pmu_default.
Proof. by intros []. Qed.

Lemma interval_credits_ok tid now t ss i :
  Forall (fun s => pmu_ok (ps_pmc s)) ss -> Forall credit_ok (interval_credits tid now t ss i).
Proof.
  intros Hss. unfold interval_credits. pose proof (duration_nonneg now i).
  destruct (counted _ _ _ _ _); [|constructor].
  destruct (kind i) as [|? ? ?|? ? ?]; [|apply Forall_singleton; cbn; auto using pmu_default_ok..].
  apply Forall_fmap, Forall_forall. intros s Hs. cbn. split; [apply interval_share_nonneg|].
  rewrite Forall_forall in Hss. by apply Hss, (inside_subset now t i).
Qed.

Lemma log_credits_ok tids tid a : log_ok a -> Forall credit_ok (log_credits tids tid a).
Proof.
  intros Hok. unfold log_credits, log_intervals. apply Forall_bind, Forall_bind, Forall_forall.
  intros t _. cbn. destruct (threads a !! t) as [stats|] eqn:E; [|constructor].
  destruct (Hok t stats E) as (_ & _ & Hp). apply Forall_fmap, Forall_forall.
  intros i _. cbn. by apply interval_credits_ok.
Qed.

Lemma aggregate_tables tids tid a :
  log_ok a ->
  (flame_root (aggregate tids tid a), by_address (aggregate tids tid a)) =
  apply_credits (log_credits tids tid a).
Proof.
  intros Hok. rewrite aggregate_eq by done. unfold spec_aggregation, log_credits.
  replace (log_intervals tids a ≫= (fun '(t, ss, i) =>
      interval_credits tid (default 0 (last_event_ns a)) t ss i))
    with (log_intervals tids a ≫= (fun e =>
      interval_credits tid (default 0 (last_event_ns a)) e.1.1 e.1.2 e.2))
    by (apply list_bind_ext; [by intros [[? ?] ?]|done]).
  by destruct (apply_credits _).
Qed.

(** A measure of an interval summed, clamped, over a log. *)
Definition log_total (f : Z -> list PetSample -> RawInterval -> Z) (tids : list Z) (a : Aggregator) : Z :=
  sat_sum (fun e => f e.1.1 e.1.2 e.2) (log_intervals tids a).

Lemma aggregate_totals tids tid a :
  log_ok a ->
  let agg := aggregate tids tid a in
  let now := default 0 (last_event_ns a) in
  agg_on_cpu_ns agg = log_total (on_time tid now) tids a /\
  agg_target_ns agg = log_total (target_time tid now) tids a /\
  agg_target_spans agg = log_total (target_count tid now) tids a /\
  agg_off_cpu agg = breakdown_of (fun r => log_total (off_time tid now r) tids a).
Proof.
  intros Hok. cbn zeta. rewrite aggregate_eq by done.
  unfold spec_aggregation. by destruct (apply_credits _).
Qed.

Lemma log_intervals_perm tids tids' a :
  tids ≡ₚ tids' -> log_intervals tids a ≡ₚ log_intervals tids' a.
Proof. intros H. by apply bind_Permutation. Qed.

Lemma log_credits_perm tids tids' tid a :
  tids ≡ₚ tids' -> log_credits tids tid a ≡ₚ log_credits tids' tid a.
Proof. intros H. by apply bind_Permutation, log_intervals_perm. Qed.

(** ** Properties *)

(** C25. The pass refines its specification: on a time-ordered log, with any
    query and any filter, the tree and the rollups are those of the declarative
    list of credits (every interval the query and filter keep, an on-CPU one
    shared evenly over exactly the kept samples with [start <= t < end]), and
    the headline totals are the clamped sums of the counted durations, blocked
    time split by reason. *)
Theorem aggregate_refines tids tid a :
  log_ok a ->
  let agg := aggregate tids tid a in
  let now := default 0 (last_event_ns a) in
  (flame_root agg, by_address agg) = apply_credits (log_credits tids tid a) /\
  agg_on_cpu_ns agg = log_total (on_time tid now) tids a /\
  agg_target_ns agg = log_total (target_time tid now) tids a /\
  agg_target_spans agg = log_total (target_count tid now) tids a /\
  (forall r, read_reason r (agg_off_cpu agg) = log_total (off_time tid now r) tids a).
Proof.
  intros Hok. cbn zeta. split; [by apply aggregate_tables|].
  destruct (aggregate_totals tids tid a Hok) as (-> & -> & -> & ->).
  split_ands; try done. intros r. by rewrite read_breakdown_of.
Qed.

(** The iteration order of the thread map does not show in any number:
    every counter of every flame node and address and every total is the same
    for two orders of the same threads. *)
Theorem aggregate_order_irrelevant tids tids' tid a :
  log_ok a -> tids ≡ₚ tids' ->
  let agg := aggregate tids tid a in
  let agg' := aggregate tids' tid a in
  (forall k path, read_at k path (flame_root agg) = read_at k path (flame_root agg')) /\
  (forall k x, read_self k (stats_at x (by_address agg)) = read_self k (stats_at x (by_address agg')) /\
               read_total k (stats_at x (by_address agg)) = read_total k (stats_at x (by_address agg'))) /\
  agg_on_cpu_ns agg = agg_on_cpu_ns agg' /\ agg_target_ns agg = agg_target_ns agg' /\
  agg_target_spans agg = agg_target_spans agg' /\ agg_off_cpu agg = agg_off_cpu agg'.
Proof.
  intros Hok Hp. cbn zeta.
  pose proof (aggregate_tables tids tid a Hok) as Ht.
  pose proof (aggregate_tables tids' tid a Hok) as Ht'.
  pose proof (log_credits_ok tids tid a Hok) as Hc.
  pose proof (log_credits_ok tids' tid a Hok) as Hc'.
  pose proof (log_credits_perm tids tids' tid a Hp) as Hcp.
  apply (f_equal fst) in Ht as Hr. apply (f_equal snd) in Ht as Hb.
  apply (f_equal fst) in Ht' as Hr'. apply (f_equal snd) in Ht' as Hb'. cbn [fst snd] in *.
  destruct (aggregate_totals tids tid a Hok) as (-> & -> & -> & ->).
  destruct (aggregate_totals tids' tid a Hok) as (-> & -> & -> & ->).
  rewrite Hr, Hr', Hb, Hb'. split_ands.
  - intros k [|x path]; [by rewrite !read_at_nil, !read_root_apply_credits|].
    rewrite !read_at_apply_credits by done. by apply sat_sum_perm.
  - intros k x. destruct (stats_at_apply_credits x _ Hc k) as [-> ->].
    destruct (stats_at_apply_credits x _ Hc' k) as [-> ->]. split; by apply sat_sum_perm.
  - by apply sat_sum_perm, log_intervals_perm.
  - by apply sat_sum_perm, log_intervals_perm.
  - by apply sat_sum_perm, log_intervals_perm.
  - apply breakdown_of_ext. intros r. by apply sat_sum_perm, log_intervals_perm.
Qed.

(** The credits of one interval carry its time but for the remainder of the
    division, less than a nanosecond per sample. *)
Lemma interval_on_cpu_loss tid now t ss i :
  let given := sum_of (weight OnCpuNs) (interval_credits tid now t ss i) in
  given <= on_time tid now t ss i <= given + Z.of_nat (length (interval_credits tid now t ss i)).
Proof.
  cbn zeta. unfold on_time, interval_credits. pose proof (duration_nonneg now i).
  destruct (counted _ _ _ _ _) eqn:Hc; [|cbn; lia].
  destruct (kind i) as [|? ? ?|? ? ?] eqn:Ek; [|cbn; lia..].
  assert (Hin : inside now t i ss <> []).
  { unfold counted in Hc. rewrite Ek in Hc. by intros Hn; rewrite Hn, !andb_false_r in Hc. }
  rewrite length_fmap. set (n := length (inside now t i ss)).
  rewrite sum_of_map. cbn [weight]. rewrite sum_of_const. fold n.
  assert (0 < Z.of_nat n) by (unfold n; destruct (inside now t i ss); [done|cbn; lia]).
  unfold interval_share. fold n.
  pose proof (Z.mul_div_le (duration now i) (Z.of_nat n)).
  pose proof (Z.mul_succ_div_gt (duration now i) (Z.of_nat n)). lia.
Qed.

(** Each credit of on-CPU time is of at least a nanosecond. *)
Lemma interval_credit_weights tid now t ss i :
  Forall (fun c => 0 <= weight PetSamples c <= weight OnCpuNs c) (interval_credits tid now t ss i).
Proof.
  unfold interval_credits. pose proof (duration_nonneg now i). destruct (counted _ _ _ _ _) eqn:Hc; [|constructor].
  unfold counted in Hc. apply andb_true_iff in Hc as [Hd Hc]. apply bool_decide_eq_true in Hd.
  destruct (kind i) as [|? ? ?|? ? ?]; [|apply Forall_singleton; cbn; lia..].
  apply andb_true_iff in Hc as [_ Hsh%bool_decide_eq_true]. pose proof (interval_share_nonneg now t i ss).
  apply Forall_fmap, Forall_forall. intros s _. cbn. lia.
Qed.

(** Every sample and every interval of the log has a stack. *)
Definition stacked (a : Aggregator) : Prop :=
  map_Forall (fun _ stats => Forall (fun s => stack s <> []) (samples stats) /\
    Forall (fun i => match kind i with
                     | OnCpu => True
                     | SyntheticSpan stack _ _ | OffCpu stack _ _ => stack <> []
                     end) (intervals stats)) (threads a).

Lemma stacked_credits tids tid a : stacked a -> Forall (fun c => credit_stack c <> []) (log_credits tids tid a).
Proof.
  intros Hst. unfold log_credits, log_intervals. apply Forall_bind, Forall_bind, Forall_forall.
  intros t _. cbn. destruct (threads a !! t) as [stats|] eqn:E; [|constructor].
  destruct (Hst t stats E) as [Hs Hi]. apply Forall_fmap. eapply Forall_impl; [exact Hi|].
  intros i Hk. cbn in Hk |- *. unfold interval_credits. destruct (counted _ _ _ _ _); [|constructor].
  revert Hk. destruct (kind i) as [|l ? ?|l ? ?]; intros Hk;
    [|apply Forall_singleton; by destruct l as [|? [|? ?]]|apply Forall_singleton; exact Hk].
  apply Forall_fmap, Forall_forall. intros s Hin. cbn. rewrite Forall_forall in Hs. by eapply Hs, inside_subset.
Qed.

(** The headline total against the credits, below saturation. *)
Lemma on_cpu_total_bounds tids tid a :
  log_ok a -> agg_on_cpu_ns (aggregate tids tid a) < u64_max ->
  let cs := log_credits tids tid a in
  sum_of (weight OnCpuNs) cs <= agg_on_cpu_ns (aggregate tids tid a) <= sum_of (weight OnCpuNs) cs + sum_of (weight PetSamples) cs.
Proof.
  intros Hok. cbn zeta. destruct (aggregate_totals tids tid a Hok) as (-> & _). unfold log_total, sat_sum, log_credits.
  set (now := default 0 (last_event_ns a)). set (l := log_intervals tids a). intros Hlt.
  rewrite Z.min_l by lia. rewrite !sum_of_bind, <- sum_of_plus.
  split; apply sum_of_le, Forall_forall; intros [[t ss] i] _; pose proof (interval_on_cpu_loss tid now t ss i) as Hi; cbn in *; [lia|].
  revert Hi. unfold on_time, interval_credits. destruct (counted _ _ _ _ _); [|cbn; lia].
  destruct (kind i); [|cbn; lia..]. rewrite !sum_of_map, length_fmap. cbn [weight]. rewrite !sum_of_const. lia.
Qed.

Lemma off_cpu_total tids tid a r :
  log_ok a -> read_reason r (agg_off_cpu (aggregate tids tid a)) = sat_sum (weight (OffCpuNs r)) (log_credits tids tid a).
Proof.
  intros Hok. destruct (aggregate_totals tids tid a Hok) as (_ & _ & _ & ->). unfold log_total, log_credits.
  rewrite read_breakdown_of. unfold sat_sum. f_equal. rewrite sum_of_bind.
  apply sum_of_ext. intros [[t ss] i] _. unfold off_time, interval_credits. cbn [fst snd].
  destruct (counted _ _ _ _ _); [|done]. destruct (kind i); [|done|].
  - rewrite sum_of_map. cbn [weight]. rewrite sum_of_const. lia.
  - cbn. case_decide; lia.
Qed.

Lemma sum_of_placed k cs : Forall credit_ok cs -> sum_of (placed k) cs <= sum_of (weight k) cs.
Proof.
  intros Hok. apply sum_of_le. eapply Forall_impl; [exact Hok|]. intros c Hc%(weight_nonneg k). unfold placed. case_decide; lia.
Qed.

Lemma sum_of_placed_stacked k cs : Forall (fun c => credit_stack c <> []) cs -> sum_of (placed k) cs = sum_of (weight k) cs.
Proof. rewrite Forall_forall. intros Hst. apply sum_of_ext. intros c Hc. unfold placed. case_decide; [|done]. by destruct (Hst c Hc). Qed.

(** C26. Time is conserved in the flame tree of a log in time order. Unless the headline
    total is saturated, the outermost frames of the tree never hold more on-CPU time
    than the headline shows, and, when everything in the log has a stack, they fall
    short of it by at most a nanosecond for each sample they hold (the remainders of
    the even split). Of the blocked time, unless its total is saturated, they hold
    no more than the headline shows for each reason, and all of it when everything
    in the log has a stack. *)
Theorem cpu_time_conserved tids tid a :
  log_ok a ->
  let agg := aggregate tids tid a in
  let held k := top_level k (flame_root agg) in
  (agg_on_cpu_ns agg < u64_max ->
   held OnCpuNs <= agg_on_cpu_ns agg /\ (stacked a -> agg_on_cpu_ns agg <= held OnCpuNs + held PetSamples)) /\
  forall r, read_reason r (agg_off_cpu agg) < u64_max ->
    held (OffCpuNs r) <= read_reason r (agg_off_cpu agg) /\
    (stacked a -> held (OffCpuNs r) = read_reason r (agg_off_cpu agg)).
Proof.
  intros Hok agg held. pose proof (log_credits_ok tids tid a Hok) as Hcs. pose proof (stacked_credits tids tid a) as Hst.
  pose proof (off_cpu_total tids tid a) as Hoff. pose proof (on_cpu_total_bounds tids tid a Hok) as Hon.
  pose proof (f_equal fst (aggregate_tables tids tid a Hok)) as Ht. cbn [fst] in Ht. unfold held, agg. rewrite Ht.
  fold agg in Hon, Hoff |- *. set (cs := log_credits tids tid a) in *.
  assert (sum_of (weight PetSamples) cs <= sum_of (weight OnCpuNs) cs) as Hpet.
  { apply sum_of_le. unfold cs, log_credits. apply Forall_bind, Forall_forall. intros [[t ss] i] _.
    eapply Forall_impl; [apply interval_credit_weights|]. cbn. lia. }
  split.
  - intros Hlt. destruct (Hon Hlt) as [H1 H2]. pose proof (sum_of_placed OnCpuNs cs Hcs).
    rewrite top_level_placed by (done || (revert Hlt; width; lia)). split; [lia|]. intros Hs%Hst.
    rewrite (top_level_placed PetSamples) by (done || (revert Hlt; width; lia)). rewrite !sum_of_placed_stacked by done. lia.
  - intros r. rewrite (Hoff r Hok). unfold sat_sum. intros Hlt. rewrite Z.min_l by lia.
    rewrite top_level_placed by (done || (revert Hlt; width; lia)). split; [by apply sum_of_placed|].
    intros Hs%Hst. by apply sum_of_placed_stacked.
Qed.
End Pass.

(** ** A concrete log *)

Definition demo_lookup : SymbolLookup :=
  fun a => if bool_decide (a = 20) then Some "__psynch_mutexwait"%string else None.

Definition demo_thread : ThreadStats := mkThreadStats
  [mkPetSample 100 [30; 10] [] (mkPmuSample 5 6 7 8);
   mkPetSample 150 [20; 10] [] (mkPmuSample 1 1 1 1);
   mkPetSample 320 [30; 10] [] (mkPmuSample 2 2 2 2)]
  [mkRawInterval 90 291 OnCpu; mkRawInterval 291 310 (OffCpu [20; 10] (Some 9) None);
   mkRawInterval 310 0 OnCpu] [].

Definition demo_lane : ThreadStats := mkThreadStats []
  [mkRawInterval 400 460 (SyntheticSpan [77; 78; 79] (Some 7) Metal)] [].

Definition demo_log : Aggregator :=
  mkAggregator (<[7 := demo_thread]> {[9 := demo_lane]}) ∅ (Some 90) (Some 1000) [].

Lemma demo_log_ok : log_ok demo_log.
Proof.
  unfold log_ok, demo_log. cbn [threads]. apply map_Forall_insert_2; [|apply map_Forall_singleton].
  - split; [|split].
    + repeat constructor; vm_compute; congruence.
    + unfold chronological, demo_thread. cbn [intervals].
      rewrite filter_cons_True, filter_cons_False, filter_cons_True by done.
      repeat constructor; vm_compute; congruence.
    + repeat constructor; intros []; vm_compute; congruence.
  - split; [constructor|split; [|constructor]]. unfold chronological, demo_lane. cbn [intervals].
    rewrite filter_cons_False by done. constructor.
Qed.

#[local] Instance demo_registry : SymbolLookup := demo_lookup.

Definition keep_all : EventCtx -> bool := fun _ => true.

Lemma aggregate_refines_witness :
  log_ok demo_log /\
  agg_on_cpu_ns (aggregate keep_all [7; 9] (Some 7) demo_log) = 951 /\
  log_total (on_time keep_all (Some 7) 1000) [7; 9] demo_log = 951 /\
  read_reason LockWait (agg_off_cpu (aggregate keep_all [7; 9] (Some 7) demo_log)) = 19.
Proof.
  split; [exact demo_log_ok|].
  pose proof (aggregate_refines keep_all [7; 9] (Some 7) demo_log demo_log_ok) as H.
  cbv zeta in H. destruct H as (_ & Hon & _ & _ & Hoff). specialize (Hoff LockWait).
  rewrite Hon, Hoff. clear Hon Hoff. vm_compute. repeat split.
Defined.

Lemma aggregate_order_irrelevant_witness :
  log_ok demo_log /\ [7; 9] ≡ₚ [9; 7] /\
  agg_on_cpu_ns (aggregate keep_all [7; 9] None demo_log) =
  agg_on_cpu_ns (aggregate keep_all [9; 7] None demo_log).
Proof.
  assert (Hp : [7; 9] ≡ₚ [9; 7]) by constructor.
  split; [exact demo_log_ok|]. split; [exact Hp|].
  destruct (aggregate_order_irrelevant keep_all [7; 9] [9; 7] None demo_log demo_log_ok Hp)
    as (_ & _ & Hon & _).
  exact Hon.
Defined.

Lemma demo_log_stacked : stacked demo_log.
Proof.
  unfold stacked, demo_log. cbn [threads]. apply map_Forall_insert_2; [|apply map_Forall_singleton]; split; by repeat constructor.
Qed.

Lemma cpu_time_conserved_witness :
  let agg := aggregate keep_all [7; 9] None demo_log in
  agg_on_cpu_ns agg = 951 /\ top_level OnCpuNs (flame_root agg) <= agg_on_cpu_ns agg /\
  agg_on_cpu_ns agg <= top_level OnCpuNs (flame_root agg) + top_level PetSamples (flame_root agg) /\
  top_level (OffCpuNs LockWait) (flame_root agg) = 19.
Proof.
  intros agg. assert (agg_on_cpu_ns agg = 951) as Hn by (vm_compute; reflexivity).
  destruct (cpu_time_conserved keep_all [7; 9] None demo_log demo_log_ok) as [Hon Hoff]. fold agg in Hon, Hoff.
  destruct Hon as [H1 H2]; [rewrite Hn; vm_compute; reflexivity|]. split; [exact Hn|]. split; [exact H1|].
  split; [exact (H2 demo_log_stacked)|]. destruct (Hoff LockWait) as [_ H3]; [vm_compute; reflexivity|].
  rewrite (H3 demo_log_stacked). vm_compute. reflexivity.
Defined.

End Aggregate.
