(* ===== verification/Demangle.v ===== *)
(** * Demangling

    [stax-demangle/src/lib.rs]: the preprocessing and the choice of language
    around the demangling library.  A [&str] is its list of UTF-8 bytes; the
    library's demangler for one language is a parameter, as is done with its
    output here. *)

From S2P Require Import Prelude Text.

Module Demangle.

Inductive Language := Rust | Cpp | Swift | ObjC | ObjCpp | C | Unknown.

#[export] Instance Language_eq_dec : EqDecision Language.
Proof. solve_decision. Defined.

Definition as_str (l : Language) : list Z :=
  match l with
  | Rust => str "rust" | Cpp => str "cpp" | Swift => str "swift" | ObjC => str "objc"
  | ObjCpp => str "objcpp" | C => str "c" | Unknown => str "unknown"
  end.

Record Demangled := mkDemangled { name : list Z; language : Language }.

Definition is_ascii_digit (b : Z) : bool := bool_decide (48 <= b <= 57).

Definition is_ascii_hexdigit (b : Z) : bool :=
  is_ascii_digit b || bool_decide (65 <= b <= 70) || bool_decide (97 <= b <= 102).

(** The position after which only digits follow. *)
Definition digits_start (s : list Z) : nat := length s - length (take_while is_ascii_digit (reverse s)).

Definition strip_isra (s : list Z) : list Z :=
  let end_ := digits_start s in
  let suffix := str ".isra." in
  if bool_decide (length suffix <= end_ /\ end_ < length s)%nat &&
     bool_decide (slice (end_ - length suffix) end_ s = suffix)
  then take (end_ - length suffix) s else s.

Definition strip_prefix (p s : list Z) : option (list Z) :=
  if starts_with p s then Some (drop (length p) s) else None.

Definition strip_global_init (s : list Z) : option (list Z) := strip_prefix (str "_GLOBAL__sub_I_") s.

Definition rust_hash_stem (s : list Z) : option (list Z) :=
  if bool_decide (length s < 19)%nat then None else
  let stem_end := (length s - 19)%nat in
  if negb (bool_decide (slice stem_end (stem_end + 3) s = str "::h")) then None else
  if negb (forallb is_ascii_hexdigit (drop (stem_end + 3) s)) then None else
  Some (take stem_end s).

(** The languages the library is asked for. *)
Inductive SymLanguage := SymRust | SymCpp | SymSwift | SymObjC.

Section WithLibrary.
(** [Name::new(input, NameMangling::Mangled, lang).demangle(name_only())] *)
Variable demangler : SymLanguage -> list Z -> option (list Z).

Definition try_lang (input : list Z) (lang : SymLanguage) : option (list Z) :=
  match demangler lang input with
  | None => None
  | Some demangled => if bool_decide (demangled = input) then None else Some demangled
  end.

(** The secondary languages, for symbols that look mangled. *)
Definition classify_mangled (input : list Z) : Demangled :=
  if bool_decide (head input = Some 95) then
    match try_lang input SymRust with
    | Some d => mkDemangled d Rust
    | None =>
    match try_lang input SymSwift with
    | Some d => mkDemangled d Swift
    | None =>
    match try_lang input SymObjC with
    | Some d => mkDemangled d ObjC
    | None => mkDemangled input Unknown
    end end end
  else mkDemangled input Unknown.

(** Itanium and legacy Rust, then the rest. *)
Definition classify_itanium (input : list Z) : Demangled :=
  match try_lang input SymCpp with
  | Some cpp_out =>
      match rust_hash_stem cpp_out with
      | Some stem =>
          match try_lang input SymRust with
          | Some rust_out => mkDemangled rust_out Rust
          | None => mkDemangled stem Rust
          end
      | None => mkDemangled cpp_out Cpp
      end
  | None => classify_mangled input
  end.

Definition classify_swift (input : list Z) : Demangled :=
  match (if starts_with (str "_$s") input || starts_with (str "$s") input
         then try_lang input SymSwift else None) with
  | Some d => mkDemangled d Swift
  | None => classify_itanium input
  end.

Definition classify (input : list Z) : Demangled :=
  match (if starts_with (str "_R") input then try_lang input SymRust else None) with
  | Some d => mkDemangled d Rust
  | None => classify_swift input
  end.

Definition demangle_str (raw : list Z) : Demangled :=
  let cleaned := strip_isra raw in
  let '(target, is_global_init) :=
    match strip_global_init cleaned with
    | Some inner => (inner, true)
    | None => (cleaned, false)
    end in
  let direct := classify target in
  let chosen :=
    if bool_decide (language direct <> Unknown) then direct else
    match strip_prefix [95] target with
    | Some stripped_input =>
        let stripped := classify stripped_input in
        if bool_decide (language stripped <> Unknown) then stripped
        else mkDemangled stripped_input Unknown
    | None => direct
    end in
  if is_global_init : bool
  then mkDemangled (str "global init " ++ name chosen) (language chosen)
  else chosen.

Definition demangle_bytes (raw : list Z) : Demangled :=
  match Text.from_utf8 raw with
  | Some _ => demangle_str raw
  | None => mkDemangled (Text.as_bytes (Text.from_utf8_lossy raw)) Unknown
  end.

(** ** Lemmas *)

Lemma starts_with_app p s : starts_with p (p ++ s) = true.
Proof. induction p as [|c p IH]; [done|]. cbn. by rewrite bool_decide_eq_true_2. Qed.

Lemma strip_prefix_app p s : strip_prefix p (p ++ s) = Some s.
Proof. unfold strip_prefix. by rewrite starts_with_app, drop_app_length. Qed.

Lemma slice_middle (a b c : list Z) : slice (length a) (length a + length b) (a ++ b ++ c) = b.
Proof.
  unfold slice. rewrite drop_app_length. replace (length a + length b - length a)%nat with (length b) by lia.
  apply take_app_length.
Qed.

Lemma take_while_all (f : Z -> bool) l r :
  Forall (fun x => f x = true) l -> (forall x, head r = Some x -> f x = false) ->
  take_while f (l ++ r) = l.
Proof.
  intros Hl Hr. induction Hl as [|x l Hx _ IH]; cbn.
  - destruct r as [|y r]; [done|]. cbn. by rewrite (Hr y).
  - by rewrite Hx, IH.
Qed.

(** The suffix GCC's IPA-SRA adds is cut off. *)
Lemma strip_isra_suffix sym digits :
  digits <> [] -> Forall (fun b => is_ascii_digit b = true) digits ->
  strip_isra (sym ++ str ".isra." ++ digits) = sym.
Proof.
  intros Hne Hd. unfold strip_isra.
  assert (Hstart : digits_start (sym ++ str ".isra." ++ digits) = (length sym + length (str ".isra."))%nat).
  { unfold digits_start. rewrite (assoc_L (++)), reverse_app, take_while_all.
    - rewrite length_reverse, !length_app. lia.
    - by apply Forall_reverse.
    - intros x. rewrite reverse_app. cbn. by intros [= <-]. }
  rewrite Hstart. replace (length sym + length (str ".isra.") - length (str ".isra."))%nat with (length sym) by lia.
  rewrite slice_middle, !bool_decide_eq_true_2; [apply take_app_length|done|].
  rewrite !length_app. destruct digits; [done|]. cbn [length]. lia.
Qed.

(** A hash the library left on a C++ reading of a legacy Rust symbol. *)
Definition is_hash (h : list Z) : Prop := length h = 16%nat /\ Forall (fun b => is_ascii_hexdigit b = true) h.

Lemma rust_hash_stem_app stem h : is_hash h -> rust_hash_stem (stem ++ str "::h" ++ h) = Some stem.
Proof.
  intros [Hlen Hh]. unfold rust_hash_stem.
  assert (Hl : length (stem ++ str "::h" ++ h) = (length stem + 19)%nat)
    by (rewrite !length_app, Hlen; cbn; lia).
  rewrite Hl, bool_decide_eq_false_2 by lia. replace (length stem + 19 - 19)%nat with (length stem) by lia.
  change 3%nat with (length (str "::h")) at 1 2.
  rewrite slice_middle, bool_decide_eq_true_2 by done. cbn [negb].
  rewrite (assoc_L (++)), drop_app_length' by (rewrite length_app; done).
  rewrite (proj2 (forallb_forall _ h)); [cbn [negb]|].
  - by rewrite <- (assoc_L (++)), take_app_length.
  - intros x Hx. rewrite Forall_forall in Hh. by apply Hh, list_elem_of_In.
Qed.

Definition refuses (s : list Z) : Prop := forall lang, try_lang s lang = None.

Lemma classify_refused s : refuses s -> classify s = mkDemangled s Unknown.
Proof.
  intros H. unfold classify, classify_swift, classify_itanium, classify_mangled.
  rewrite !H. by repeat case_match.
Qed.

(** A symbol no demangler takes, with or without its leading underscore, is
    shown as it is but for that underscore. *)
Lemma demangle_plain raw :
  strip_isra raw = raw -> strip_global_init raw = None ->
  refuses raw -> (forall inner, raw = 95 :: inner -> refuses inner) ->
  demangle_str raw = mkDemangled (match raw with 95 :: inner => inner | _ => raw end) Unknown.
Proof.
  intros Hi Hg Hr Hr'. unfold demangle_str. rewrite Hi, Hg, (classify_refused raw Hr).
  cbn [language]. rewrite bool_decide_eq_false_2 by auto.
  destruct (decide (head raw = Some 95)) as [Hu|Hu].
  - destruct raw as [|c inner]; [done|]. injection Hu as ->.
    change (95 :: inner) with ([95] ++ inner). rewrite strip_prefix_app.
    rewrite (classify_refused inner) by by apply Hr'. done.
  - destruct raw as [|c inner]; [done|]. cbn [head] in Hu.
    assert (Hc : c <> 95) by congruence.
    assert (Hsp : strip_prefix [95] (c :: inner) = None).
    { unfold strip_prefix. cbn. by rewrite bool_decide_eq_false_2 by congruence. }
    rewrite Hsp. f_equal.
    repeat match goal with |- context [match ?x with _ => _ end] => is_var x; destruct x end; done.
Qed.
End WithLibrary.

(** ** Properties *)

(** The legacy Rust hash never reaches the user: when the C++ demangler
    reads a symbol as [stem::h<16 hex digits>], whatever else the library can
    do with it, the symbol is reported as Rust and its name is the Rust
    demangler's, or the stem when that one refuses; with or without a
    [.isra.<n>] suffix of the compiler. *)
Theorem legacy_rust_hash_hidden demangler sym stem h digits :
  starts_with (str "_R") sym = false -> starts_with (str "_$s") sym = false ->
  starts_with (str "$s") sym = false -> strip_global_init sym = None ->
  is_hash h -> try_lang demangler sym SymCpp = Some (stem ++ str "::h" ++ h) ->
  digits <> [] -> Forall (fun b => is_ascii_digit b = true) digits ->
  demangle_str demangler (sym ++ str ".isra." ++ digits) =
  mkDemangled (default stem (try_lang demangler sym SymRust)) Rust.
Proof.
  intros HR Hs1 Hs2 Hg Hh Hcpp Hne Hd. unfold demangle_str.
  rewrite strip_isra_suffix, Hg by done. unfold classify, classify_swift, classify_itanium.
  rewrite HR, Hs1, Hs2, Hcpp, rust_hash_stem_app by done. cbn [orb].
  by destruct (try_lang demangler sym SymRust).
Qed.

(** A library that reads one C++ symbol. *)
Definition demo_demangler (lang : SymLanguage) (s : list Z) : option (list Z) :=
  match lang with
  | SymCpp => if bool_decide (s = str "_ZN1a1b17h0123456789abcdefE")
              then Some (str "a::b::h0123456789abcdef") else None
  | _ => None
  end.

Lemma legacy_rust_hash_hidden_witness :
  is_hash (str "0123456789abcdef") /\
  demangle_str demo_demangler (str "_ZN1a1b17h0123456789abcdefE" ++ str ".isra." ++ str "3") =
  mkDemangled (str "a::b") Rust.
Proof.
  assert (Hh : is_hash (str "0123456789abcdef")).
  { split; [by vm_compute|]. by repeat (constructor; [by vm_compute|]). }
  split; [exact Hh|].
  apply (legacy_rust_hash_hidden demo_demangler (str "_ZN1a1b17h0123456789abcdefE") (str "a::b")
           (str "0123456789abcdef") (str "3"));
    first [exact Hh | by vm_compute | by repeat (constructor; [by vm_compute|])].
Defined.

End Demangle.
