(* ===== verification/KernelSymbols.v ===== *)
(** * Kernel symbols

    [stax-live/src/kernel_symbols.rs]: the [/proc/kallsyms] text, the tables
    built from it, and the nearest-function lookup of a kernel address.  Names
    are UTF-8 byte strings.  The macOS loader of a kernel collection (Mach-O
    parsing by a library) is left out; the tables it fills are here, with their
    module ranges. *)

From S2P Require Import Prelude Text Demangle.

Module KernelSymbols.

Export Demangle.

Record KernelImageRange := mkKernelImageRange {
  range_module : list Z; range_start : Z; range_end : Z
}.

Record KernelFunctionEntry := mkKernelFunctionEntry {
  module : list Z; address : Z; fn_name : option (list Z)
}.

Record KernelSymbols := mkKernelSymbols {
  ranges : list KernelImageRange;
  functions_by_module : gmap (list Z) (list KernelFunctionEntry);
  global_functions : list KernelFunctionEntry
}.

Inductive KernelSymbolState := Uninitialized | Ready (symbols : KernelSymbols) | Failed.

Record KernelResolvedSymbol := mkKernelResolvedSymbol {
  kr_module : list Z; function_name : list Z; kr_language : Language
}.

Definition is_kernel_address (address : Z) : bool := bool_decide (0xffff000000000000 <= address).

(** ** Parsing *)

(** [matches!(kind, "t" | "T" | "w" | "W")] *)
Definition is_code_kind (kind : list Z) : bool :=
  existsb (fun k => bool_decide (kind = k)) [str "t"; str "T"; str "w"; str "W"].

Definition is_bracket (c : Z) : bool := bool_decide (c = 91) || bool_decide (c = 93).

(** One line; [None] for the lines the loop skips. *)
Definition parse_kallsyms_line (line : list Z) : option KernelFunctionEntry :=
  match Text.split_whitespace line with
  | addr :: kind :: sym :: rest =>
      if negb (is_code_kind kind) then None else
      match Text.u64_from_hex addr with
      | None => None
      | Some address =>
          if negb (is_kernel_address address) then None else
          let module := match rest with
                        | m :: _ => Text.trim_matches is_bracket m
                        | [] => str "kernel"
                        end in
          Some (mkKernelFunctionEntry (Text.as_bytes module) address (Some (Text.as_bytes sym)))
      end
  | _ => None
  end.

Definition parse_kallsyms (bytes : list Z) : list KernelFunctionEntry :=
  match Text.from_utf8 bytes with
  | None => []
  | Some text => omap parse_kallsyms_line (Text.lines text)
  end.

(** ** The tables *)

Definition by_address (x y : KernelFunctionEntry) : bool := bool_decide (address x <= address y).

(** [functions_by_module.entry(module).or_default().push(function)] *)
Definition push_function (m : gmap (list Z) (list KernelFunctionEntry)) (f : KernelFunctionEntry) :=
  <[module f := default [] (m !! module f) ++ [f]]> m.

Definition from_parts (ranges : list KernelImageRange) (functions : list KernelFunctionEntry)
    : KernelSymbols :=
  let functions := sort_by by_address functions in
  let by_module := foldl push_function ∅ functions in
  let by_module := sort_by by_address <$> by_module in
  let ranges := sort_by (fun x y => bool_decide (range_start x <= range_start y)) ranges in
  mkKernelSymbols ranges by_module functions.

Definition nearest_function (functions : list KernelFunctionEntry) (addr : Z)
    : option KernelFunctionEntry :=
  match partition_point (fun f => bool_decide (address f <= addr)) functions with
  | O => None
  | S i => functions !! i
  end.

(** A return address right behind an unnamed function belongs to the call
    before it. *)
Definition nearest_function_for_pc (functions : list KernelFunctionEntry) (addr : Z)
    : option (KernelFunctionEntry * Z) :=
  match nearest_function functions addr with
  | None => None
  | Some raw =>
      if bool_decide (address raw = addr /\ fn_name raw = None) && bool_decide (4 <= addr) then
        match nearest_function functions (addr - 4) with
        | Some adjusted =>
            if bool_decide (address adjusted <> address raw) then Some (adjusted, addr - 4)
            else Some (raw, addr)
        | None => Some (raw, addr)
        end
      else Some (raw, addr)
  end.

Definition module_for_address (s : KernelSymbols) (addr : Z) : option (list Z) :=
  match partition_point (fun r => bool_decide (range_start r <= addr)) (ranges s) with
  | O => None
  | S i =>
      match ranges s !! i with
      | Some range => if bool_decide (addr < range_end range) then Some (range_module range) else None
      | None => None
      end
  end.

Definition format_symbol_with_offset (name : list Z) (offset : Z) : list Z :=
  if bool_decide (offset = 0) then name else name ++ str "+0x" ++ Text.to_hex offset.

(** [format!("sub_{:016x}", n)] *)
Definition format_sub (n : Z) : list Z :=
  str "sub_" ++ replicate (16 - length (Text.to_hex n)) 48 ++ Text.to_hex n.

Section WithLibrary.
Variable demangler : SymLanguage -> list Z -> option (list Z).

Definition lookup_symbols (s : KernelSymbols) (addr : Z) : option KernelResolvedSymbol :=
  let functions := match module_for_address s addr with
                   | Some m => default (global_functions s) (functions_by_module s !! m)
                   | None => global_functions s
                   end in
  match nearest_function_for_pc functions addr with
  | None => None
  | Some (entry, normalized_address) =>
      let offset := ssub normalized_address (address entry) in
      let '(n, language) :=
        match fn_name entry with
        | Some n => let d := demangle_str demangler n in (Demangle.name d, Demangle.language d)
        | None => (format_sub (address entry), Unknown)
        end in
      Some (mkKernelResolvedSymbol (module entry) (format_symbol_with_offset n offset) language)
  end.

(** [KernelSymbolResolver::lookup] where nothing is loaded lazily (Linux). *)
Definition lookup (state : KernelSymbolState) (addr : Z) : option KernelResolvedSymbol :=
  if negb (is_kernel_address addr) then None else
  match state with
  | Ready symbols => lookup_symbols symbols addr
  | Failed => None
  | Uninitialized => None
  end.
End WithLibrary.

Definition set_from_kallsyms (bytes : list Z) (state : KernelSymbolState) : KernelSymbolState :=
  match parse_kallsyms bytes with
  | [] => state
  | functions => Ready (from_parts [] functions)
  end.

(** ** Lemmas *)

Lemma by_address_total x y : by_address x y = false -> by_address y x = true.
Proof. unfold by_address. rewrite bool_decide_eq_false, bool_decide_eq_true. lia. Qed.

Lemma by_address_trans x y z : by_address x y = true -> by_address y z = true -> by_address x z = true.
Proof. unfold by_address. rewrite !bool_decide_eq_true. lia. Qed.

Definition address_sorted : list KernelFunctionEntry -> Prop :=
  StronglySorted (fun x y => address x <= address y).

Lemma sort_by_address_sorted l : address_sorted (sort_by by_address l).
Proof.
  eapply StronglySorted_weaken; [|apply sort_by_sorted].
  - intros x y. apply bool_decide_eq_true.
  - apply by_address_total.
  - apply by_address_trans.
Qed.

(** The nearest function at or below an address, the last of those that share
    its address. *)
Lemma nearest_function_spec fs addr :
  address_sorted fs ->
  match nearest_function fs addr with
  | None => Forall (fun f => addr < address f) fs
  | Some f => f ∈ fs /\ address f <= addr /\
      forall g, g ∈ fs -> address g <= addr -> address g <= address f
  end.
Proof.
  intros Hs. unfold nearest_function.
  pose proof (partition_point_pred (fun x y => address x <= address y)
    (fun f => bool_decide (address f <= addr)) fs) as H.
  destruct (partition_point _ fs) as [|i].
  - assert (Hall : Forall (fun f => bool_decide (address f <= addr) = false) fs).
    { apply H; [|done]. intros x y Hxy. rewrite !bool_decide_eq_true. lia. }
    eapply Forall_impl; [exact Hall|]. intros f. cbn. rewrite bool_decide_eq_false. lia.
  - destruct H as (f & l1 & l2 & -> & -> & Hf & H1 & H2).
    { intros x y Hxy. rewrite !bool_decide_eq_true. lia. }
    { done. }
    apply bool_decide_eq_true in Hf. split; [set_solver|]. split; [done|].
    intros g [Hg|[->|Hg]%elem_of_cons]%elem_of_app Hle; [|done|].
    + rewrite Forall_forall in H1. by apply (H1 g Hg).
    + rewrite Forall_forall in H2. specialize (H2 g Hg). cbn in H2.
      apply bool_decide_eq_false in H2. lia.
Qed.

Definition named (f : KernelFunctionEntry) : Prop := fn_name f <> None.

Lemma nearest_named fs addr : Forall named fs ->
  nearest_function_for_pc fs addr = (fun f => (f, addr)) <$> nearest_function fs addr.
Proof.
  intros Hn. unfold nearest_function_for_pc.
  destruct (nearest_function fs addr) as [f|] eqn:E; [|done].
  assert (Hf : f ∈ fs).
  { unfold nearest_function in E. destruct (partition_point _ _); [done|].
    by eapply list_elem_of_lookup_2. }
  rewrite Forall_forall in Hn. specialize (Hn f Hf).
  rewrite (bool_decide_eq_false_2 (address f = addr /\ fn_name f = None)); [done|].
  intros [_ ?]. by apply Hn.
Qed.

Lemma parse_kallsyms_named bytes : Forall (fun f => named f /\ is_kernel_address (address f) = true) (parse_kallsyms bytes).
Proof.
  unfold parse_kallsyms. destruct (Text.from_utf8 bytes) as [text|]; [|constructor].
  apply Forall_forall. intros f (line & _ & Hline)%list_elem_of_omap.
  unfold parse_kallsyms_line in Hline.
  destruct (Text.split_whitespace line) as [|addr [|kind [|sym rest]]]; try done.
  destruct (negb (is_code_kind kind)); [done|].
  destruct (Text.u64_from_hex addr) as [a|]; [|done].
  destruct (is_kernel_address a) eqn:Ea; [|done]. cbn in Hline. by injection Hline as <-.
Qed.

(** ** Printing *)

(** One symbol as the kernel lists it. *)
Record listed := mkListed { l_address : Z; l_kind : list Z; l_name : list Z; l_module : option (list Z) }.

Definition kallsyms_line (e : listed) : list Z :=
  Text.to_hex (l_address e) ++ 32 :: l_kind e ++ 32 :: l_name e ++
  match l_module e with Some m => [9; 91] ++ m ++ [93] | None => [] end.

Definition kallsyms_text (es : list listed) : list Z := es ≫= fun e => kallsyms_line e ++ [Text.NEWLINE].

Definition entry_of (e : listed) : KernelFunctionEntry :=
  mkKernelFunctionEntry (Text.as_bytes (default (str "kernel") (l_module e))) (l_address e)
    (Some (Text.as_bytes (l_name e))).

(** A word: characters, none of them whitespace. *)
Definition word (s : list Z) : Prop :=
  s <> [] /\ Forall (fun c => Text.is_scalar c /\ Text.is_whitespace c = false) s.

Definition listed_ok (e : listed) : Prop :=
  is_u64 (l_address e) /\ is_kernel_address (l_address e) = true /\
  is_code_kind (l_kind e) = true /\ word (l_name e) /\
  match l_module e with
  | Some m => word m /\ Forall (fun c => is_bracket c = false) m
  | None => True
  end.

#[export] Instance is_scalar_dec c : Decision (Text.is_scalar c).
Proof. unfold Text.is_scalar. apply _. Defined.

#[export] Instance word_dec s : Decision (word s).
Proof. unfold word. apply _. Defined.

#[export] Instance listed_ok_dec e : Decision (listed_ok e).
Proof. unfold listed_ok, is_u64. destruct (l_module e); apply _. Defined.

Lemma word_plain s : word s -> Forall (fun c => Text.is_whitespace c = false) s.
Proof. intros [_ H]. eapply Forall_impl; [exact H|]. by intros c []. Qed.

Lemma hex_word n : is_u64 n -> word (Text.to_hex n).
Proof.
  intros Hn. split; [apply Text.to_hex_nonempty|]. apply Forall_forall. intros c Hc.
  apply Text.to_hex_range in Hc; [|apply Hn]. split; [left; lia|]. by apply Text.hex_not_space.
Qed.

Lemma kind_word k : is_code_kind k = true -> word k.
Proof.
  unfold is_code_kind. cbn [existsb]. rewrite !orb_true_iff, !bool_decide_eq_true.
  intros [->|[->|[->|[->|?]]]]; try done; (split; [done|]); (constructor; [|constructor]);
    (split; [left; by vm_compute|by vm_compute]).
Qed.

Lemma trim_brackets m :
  m <> [] -> Forall (fun c => is_bracket c = false) m ->
  Text.trim_matches is_bracket (91 :: m ++ [93]) = m.
Proof.
  intros Hne Hm. unfold Text.trim_matches.
  assert (Hkeep : forall l, Forall (fun c => is_bracket c = false) l -> l <> [] ->
    forall r, drop_while is_bracket (l ++ r) = l ++ r).
  { intros l Hl Hnil r. destruct Hl as [|c l Hc _]; [done|]. cbn. by rewrite Hc. }
  cbn [drop_while]. change (is_bracket 91) with true. cbv iota.
  rewrite Hkeep by done. rewrite reverse_app. cbn [app reverse rev_append drop_while].
  change (is_bracket 93) with true. cbv iota.
  rewrite <- (app_nil_r (reverse m)), Hkeep, app_nil_r; [apply reverse_involutive|by apply Forall_reverse|].
  intros Hr. apply Hne. by rewrite <- (reverse_involutive m), Hr.
Qed.

Lemma parse_kallsyms_line_print e : listed_ok e -> parse_kallsyms_line (kallsyms_line e) = Some (entry_of e).
Proof.
  intros (Hu & Hk & Hkind & Hname & Hmod). unfold parse_kallsyms_line, kallsyms_line, entry_of.
  destruct (hex_word _ Hu) as [Hhne _]. destruct (kind_word _ Hkind) as [Hkne _].
  rewrite Text.split_whitespace_word by (try done; by apply word_plain, hex_word).
  rewrite Text.split_whitespace_word by (try done; by apply word_plain, kind_word).
  destruct (l_module e) as [m|].
  - destruct Hmod as [Hm Hb]. cbn [app].
    rewrite Text.split_whitespace_word by first [apply Hname | by apply word_plain | done].
    rewrite Text.split_whitespace_last; [|done|constructor; [done|]; apply Forall_app; split; [by apply word_plain|by repeat constructor]].
    rewrite Hkind, Text.u64_from_to_hex, Hk by done. cbn [negb default from_option id].
    by rewrite trim_brackets by (try done; apply Hm).
  - rewrite app_nil_r, Text.split_whitespace_last by (try apply Hname; by apply word_plain).
    by rewrite Hkind, Text.u64_from_to_hex, Hk by done.
Qed.

Lemma word_no_newline s : word s -> Forall (fun c => c <> Text.NEWLINE) s.
Proof. intros [_ H]. eapply Forall_impl; [exact H|]. by intros c [_ Hc] ->. Qed.

Lemma kallsyms_line_text e : listed_ok e ->
  Forall (fun c => c <> Text.NEWLINE) (kallsyms_line e) /\ last (kallsyms_line e) <> Some 13 /\
  Forall Text.is_scalar (kallsyms_line e).
Proof.
  intros (Hu & _ & Hkind & Hname & Hmod). unfold kallsyms_line.
  apply hex_word in Hu. apply kind_word in Hkind.
  assert (Hsc : forall s, word s -> Forall Text.is_scalar s).
  { intros s [_ H]. eapply Forall_impl; [exact H|]. by intros c []. }
  assert (Hm : forall m, l_module e = Some m -> word m) by (intros m Em; rewrite Em in Hmod; apply Hmod).
  split; [|split].
  - repeat first [apply Forall_app; split | by apply word_no_newline | apply Forall_cons; split; [done|]].
    destruct (l_module e) as [m|]; [|constructor].
    repeat (constructor; [done|]). apply Forall_app. split; [by apply word_no_newline, Hm|by repeat constructor].
  - destruct (l_module e) as [m|].
    + rewrite !app_comm_cons, !(assoc_L (++)), last_snoc. done.
    + rewrite app_nil_r. destruct Hname as [Hne Hw]. destruct (l_name e) as [|x l _] using rev_ind; [done|].
      rewrite !app_comm_cons, !(assoc_L (++)), last_snoc.
      apply Forall_app in Hw as [_ [[_ Hx] _]%Forall_cons]. intros [= ->]. done.
  - repeat first [apply Forall_app; split | by apply Hsc | apply Forall_cons; split; [left; lia|]].
    destruct (l_module e) as [m|]; [|constructor].
    repeat (constructor; [left; lia|]). apply Forall_app. split; [by apply Hsc, Hm|constructor; [left; lia|constructor]].
Qed.

(** ** Properties *)

(** The kernel's symbol list reads back: printing any list of code symbols
    in the kernel half (each with its kind, name and optional module in
    brackets) as [/proc/kallsyms] does and parsing the text gives exactly those
    entries, in order. *)
Theorem kallsyms_roundtrip es :
  Forall listed_ok es -> parse_kallsyms (Text.as_bytes (kallsyms_text es)) = map entry_of es.
Proof.
  intros Hok. unfold parse_kallsyms.
  rewrite Text.from_utf8_as_bytes; cycle 1.
  { apply Forall_bind. eapply Forall_impl; [exact Hok|]. intros e He. cbn.
    apply Forall_app. split; [by apply kallsyms_line_text|]. constructor; [left; by vm_compute|constructor]. }
  induction Hok as [|e es He _ IH]; [done|]. unfold kallsyms_text in *. rewrite bind_cons.
  rewrite <- (assoc_L (++)). cbn [app].
  rewrite Text.lines_line by (by apply kallsyms_line_text).
  cbn [omap list_omap map]. rewrite parse_kallsyms_line_print by done. by rewrite <- IH.
Qed.

Definition demo_symbols : list listed :=
  [mkListed 0xffffffff81000000 (str "T") (str "_text") None;
   mkListed 0xffffffff81089000 (str "t") (str "futex_wait_queue") None;
   mkListed 0xffffffffc0001000 (str "w") (str "nf_hook") (Some (str "nf_tables"))].

Lemma demo_symbols_ok : Forall listed_ok demo_symbols.
Proof. apply (bool_decide_unpack _). by vm_compute. Qed.

Lemma kallsyms_roundtrip_witness :
  Forall listed_ok demo_symbols /\
  parse_kallsyms (str "ffffffff81000000 T _text" ++ [10] ++
                  str "ffffffff81089000 t futex_wait_queue" ++ [10] ++
                  str "ffffffffc0001000 w nf_hook" ++ [9] ++ str "[nf_tables]" ++ [10])
  = map entry_of demo_symbols.
Proof. split; [exact demo_symbols_ok|]. exact (kallsyms_roundtrip demo_symbols demo_symbols_ok). Defined.

(** A kernel address resolves to the nearest listed function at or below it:
    no listed function lies closer, the name is that function's, demangled,
    with the distance in hexadecimal when there is one; only an address below
    every function resolves to nothing. *)
Theorem kernel_lookup_nearest demangler bytes state addr :
  parse_kallsyms bytes <> [] -> is_kernel_address addr = true ->
  match lookup demangler (set_from_kallsyms bytes state) addr with
  | None => Forall (fun f => addr < address f) (parse_kallsyms bytes)
  | Some r => exists f n,
      f ∈ parse_kallsyms bytes /\ fn_name f = Some n /\ address f <= addr /\
      (forall g, g ∈ parse_kallsyms bytes -> address g <= addr -> address g <= address f) /\
      kr_module r = module f /\ kr_language r = Demangle.language (demangle_str demangler n) /\
      function_name r = Demangle.name (demangle_str demangler n) ++
        (if bool_decide (addr = address f) then [] else str "+0x" ++ Text.to_hex (addr - address f))
  end.
Proof.
  intros Hne Hk. unfold lookup, set_from_kallsyms. rewrite Hk. cbn [negb].
  pose proof (parse_kallsyms_named bytes) as Hnamed.
  set (fs := parse_kallsyms bytes) in *. destruct fs as [|f0 fs0] eqn:Efs; [done|].
  rewrite <- Efs in *. clear Hne. unfold lookup_symbols, module_for_address, from_parts.
  cbn [ranges global_functions partition_point take_while length sort_by foldr].
  set (sorted := sort_by by_address fs).
  assert (Hp : sorted ≡ₚ fs) by apply sort_by_perm.
  rewrite nearest_named by (rewrite Hp; eapply Forall_impl; [exact Hnamed|]; by intros ? []).
  pose proof (nearest_function_spec sorted addr (sort_by_address_sorted fs)) as Hn.
  destruct (nearest_function sorted addr) as [f|]; cbn [fmap option_fmap option_map].
  - destruct Hn as (Hin & Hle & Hmax). rewrite Hp in Hin.
    rewrite Forall_forall in Hnamed. destruct (Hnamed f Hin) as [Hname _].
    unfold named in Hname. destruct (fn_name f) as [n|] eqn:En; [|done].
    exists f, n. split_ands; try done.
    + intros g Hg. apply Hmax. by rewrite Hp.
    + cbn [function_name]. unfold format_symbol_with_offset, ssub. rewrite Z.max_l by lia.
      rewrite (bool_decide_ext (addr - address f = 0) (addr = address f)) by lia.
      case_bool_decide; by rewrite ?app_nil_r.
  - by rewrite <- Hp.
Qed.

Lemma kernel_lookup_nearest_witness :
  let bytes := Text.as_bytes (kallsyms_text demo_symbols) in
  parse_kallsyms bytes <> [] /\ is_kernel_address 0xffffffff81089042 = true /\
  exists f n, f ∈ parse_kallsyms bytes /\ fn_name f = Some n /\ address f <= 0xffffffff81089042 /\
    str "futex_wait_queue+0x42" = Demangle.name (demangle_str (fun _ _ => None) n) ++
      (if bool_decide (0xffffffff81089042 = address f) then []
       else str "+0x" ++ Text.to_hex (0xffffffff81089042 - address f)).
Proof.
  cbn zeta. set (bytes := Text.as_bytes (kallsyms_text demo_symbols)).
  assert (Hne : parse_kallsyms bytes <> []) by (vm_compute; congruence).
  split; [exact Hne|]. split; [by vm_compute|].
  pose proof (kernel_lookup_nearest (fun _ _ => None) bytes Uninitialized 0xffffffff81089042 Hne eq_refl) as H.
  assert (E : lookup (fun _ _ => None) (set_from_kallsyms bytes Uninitialized) 0xffffffff81089042 =
              Some (mkKernelResolvedSymbol (str "kernel") (str "futex_wait_queue+0x42") Unknown))
    by (vm_compute; reflexivity).
  rewrite E in H. destruct H as (f & n & Hin & Hn & Hle & _ & _ & _ & Hname).
  exists f, n. split; [exact Hin|]. split; [exact Hn|]. split; [exact Hle|]. exact Hname.
Defined.

End KernelSymbols.
