(* ===== verification/Binaries.v ===== *)
(** * The live binary registry

    [stax-live/src/binaries.rs] as built for Linux: the images mapped into the
    target, the lazily built address index, symbol lookup and function
    resolution with their fallbacks, and the archive form of
    [stax-live-proto/src/lib.rs].  Parameters: the demangling library, the
    object-file reader behind [load_image] and the read of the target's memory.
    The LRU cache in front of the demangler returns what the demangler would
    and is not represented. *)

From S2P Require Import Prelude Text Demangle KernelSymbols.

Module Binaries.

Export Demangle.

(** ** Data *)

Record LiveSymbolOwned := mkLiveSymbolOwned { start_svma : Z; end_svma : Z; sym_name : list Z }.

Record LoadedBinary := mkLoadedBinary {
  path : list Z;
  base_avma : Z;
  avma_end : Z;
  text_svma : Z;
  arch : option (list Z);
  is_executable : bool;
  symbols : list LiveSymbolOwned;
  text_bytes : option (list Z)
}.

#[export] Instance eta_LoadedBinary : Eta LoadedBinary := fun b =>
  mkLoadedBinary (path b) (base_avma b) (avma_end b) (text_svma b) (arch b) (is_executable b)
    (symbols b) (text_bytes b).

Record LoadHeader := mkLoadHeader {
  h_address : Z; memory_size : Z; file_size : Z; file_offset : Z
}.

Record CodeImage := mkCodeImage { bytes : list Z; load_headers : list LoadHeader }.

Record ResolvedSymbol := mkResolvedSymbol {
  rs_function_name : list Z; binary : list Z; is_main : bool; rs_language : Language
}.

Record ResolvedAddress := mkResolvedAddress {
  ra_binary_path : list Z; ra_arch : option (list Z); ra_function_name : list Z;
  ra_language : Language; base_address : Z; end_address : Z; ra_bytes : list Z;
  fn_start_svma : Z; ra_image : option CodeImage
}.

Record BinaryRegistry := mkBinaryRegistry {
  by_base : list LoadedBinary;
  by_base_index : option (list (Z * Z * nat));
  images : gmap (list Z) (option CodeImage);
  dyld_arch : option (list Z);
  target_pid : option Z;
  target_task_port : option Z;
  kernel_symbols : KernelSymbols.KernelSymbolState
}.

#[export] Instance eta_BinaryRegistry : Eta BinaryRegistry := fun r =>
  mkBinaryRegistry (by_base r) (by_base_index r) (images r) (dyld_arch r) (target_pid r)
    (target_task_port r) (kernel_symbols r).

Definition new : BinaryRegistry :=
  mkBinaryRegistry [] None ∅ None None None KernelSymbols.Uninitialized.

Definition set_target (pid task_port : Z) (r : BinaryRegistry) : BinaryRegistry :=
  let r := r <| target_pid := Some pid |> in
  if bool_decide (task_port <> 0) then r <| target_task_port := Some task_port |> else r.

Definition set_kallsyms (blob : list Z) (r : BinaryRegistry) : BinaryRegistry :=
  r <| kernel_symbols ::= KernelSymbols.set_from_kallsyms blob |>.

(** ** Loading and unloading *)

Definition invalidate_index (r : BinaryRegistry) : BinaryRegistry := r <| by_base_index := None |>.

Definition sort_symbols (l : list LiveSymbolOwned) : list LiveSymbolOwned :=
  sort_by (fun x y => bool_decide (start_svma x <= start_svma y)) l.

Definition insert (b : LoadedBinary) (r : BinaryRegistry) : BinaryRegistry :=
  let r := r <| by_base ::= filter (fun x => base_avma x <> base_avma b) |> in
  let r := if dyld_arch r is None then r <| dyld_arch := arch b |> else r in
  let b := b <| symbols ::= sort_symbols |> in
  invalidate_index (r <| by_base ::= fun l => l ++ [b] |>).

Definition remove (base : Z) (r : BinaryRegistry) : BinaryRegistry :=
  invalidate_index (r <| by_base ::= filter (fun x => base_avma x <> base) |>).

(** ** Address lookup *)

Definition build_index (l : list LoadedBinary) : list (Z * Z * nat) :=
  sort_by (fun x y => bool_decide (x.1.1 <= y.1.1))
    (imap (fun i b => (base_avma b, avma_end b, i)) l).

Definition candidate (idx : list (Z * Z * nat)) (address : Z) : option nat :=
  match partition_point (fun e => bool_decide (e.1.1 <= address)) idx with
  | O => None
  | S pos =>
      match idx !! pos with
      | Some (_, end_, i) => if bool_decide (address < end_) then Some i else None
      | None => None
      end
  end.

Definition binary_for_address (address : Z) (r : BinaryRegistry) : BinaryRegistry * option nat :=
  let idx := match by_base_index r with
             | Some idx => idx
             | None => build_index (by_base r)
             end in
  (r <| by_base_index := Some idx |>, candidate idx address).

Definition any_symbol_contains (needle : list Z) (r : BinaryRegistry) : bool :=
  bool_decide (needle = []) ||
  existsb (fun b => existsb (fun s => contains needle (sym_name s)) (symbols b)) (by_base r).

Definition svma_for (b : LoadedBinary) (address : Z) : Z :=
  as_u64 (as_u64 (address - base_avma b) + text_svma b).

Definition avma_for_svma (base text svma : Z) : Z := as_u64 (as_u64 (svma - text) + base).

Definition short_path (p : list Z) : list Z := after_last 47 p.

(** [format!("{:#x}", n)] *)
Definition hex_literal (n : Z) : list Z := str "0x" ++ Text.to_hex n.

(** The symbol before the partition point, if it covers the address. *)
Definition symbol_before (svma : Z) (syms : list LiveSymbolOwned) : option LiveSymbolOwned :=
  match partition_point (fun s => bool_decide (start_svma s <= svma)) syms with
  | O => None
  | S i => s ← syms !! i; if bool_decide (svma < end_svma s) then Some s else None
  end.

(** ** Image bytes *)

Definition checked_add (a b : Z) : option Z := if bool_decide (a + b < 2 ^ 64) then Some (a + b) else None.

Fixpoint fetch_from (start len end_ : Z) (file : list Z) (headers : list LoadHeader)
    : option (list Z) :=
  match headers with
  | [] => None
  | h :: headers =>
      header_end ← checked_add (h_address h) (memory_size h);
      if bool_decide (h_address h <= start /\ end_ <= header_end) then
        let in_segment := start - h_address h in
        seg_end ← checked_add in_segment len;
        if bool_decide (file_size h < seg_end) then None else
        let file_off := wadd64 (file_offset h) in_segment in
        file_end ← checked_add file_off len;
        if bool_decide (Z.of_nat (length file) < file_end) then None
        else Some (slice (Z.to_nat file_off) (Z.to_nat (file_off + len)) file)
      else fetch_from start len end_ file headers
  end.

Definition fetch (start len : Z) (image : CodeImage) : option (list Z) :=
  end_ ← checked_add start len;
  fetch_from start len end_ (bytes image) (load_headers image).

Section WithSystem.
Variable demangler : SymLanguage -> list Z -> option (list Z).
(** [std::fs::read] and [object::File::parse] of a path. *)
Variable open_image : list Z -> option CodeImage.
(** One [read] of [/proc/<pid>/mem]: at most [len] bytes, [None] on an error. *)
Variable read_mem : Z -> Z -> Z -> option (list Z).

Definition lookup_symbol_in_kernel_collection (address : Z) (r : BinaryRegistry)
    : option ResolvedSymbol :=
  s ← KernelSymbols.lookup demangler (kernel_symbols r) address;
  Some (mkResolvedSymbol (KernelSymbols.function_name s)
    (str "kernel:" ++ KernelSymbols.kr_module s) false (KernelSymbols.kr_language s)).

Definition lookup_symbol (address : Z) (r : BinaryRegistry)
    : outcome (BinaryRegistry * option ResolvedSymbol) :=
  match binary_for_address address r with
  | (r, None) => Ret (r, lookup_symbol_in_kernel_collection address r)
  | (r, Some idx) =>
      match by_base r !! idx with
      | None => Panic
      | Some b =>
          let svma := svma_for b address in
          let basename := short_path (path b) in
          let '(function_name, language) :=
            match symbol_before svma (symbols b) with
            | Some s => let d := demangle_bytes demangler (sym_name s) in
                        (Demangle.name d, Demangle.language d)
            | None => (basename ++ str "+" ++ hex_literal svma, Unknown)
            end in
          Ret (r, Some (mkResolvedSymbol function_name basename (is_executable b) language))
      end
  end.

Definition load_image (p : list Z) : option CodeImage :=
  if starts_with (str "[") p || bool_decide (p = []) then None else open_image p.

Definition image_for (p : list Z) (r : BinaryRegistry) : BinaryRegistry * option CodeImage :=
  match images r !! p with
  | Some entry => (r, entry)
  | None => let loaded := load_image p in (r <| images ::= base.insert p loaded |>, loaded)
  end.

Definition read_target_memory (address len : Z) (r : BinaryRegistry) : option (list Z) :=
  pid ← target_pid r;
  buf ← read_mem pid address len;
  if bool_decide (buf = []) then None else Some buf.

(** The window of [resolve_unmapped]. *)
Definition WINDOW : Z := 256.

Definition resolve_unmapped (address : Z) (r : BinaryRegistry) : option ResolvedAddress :=
  let base := Z.ldiff (ssub address (WINDOW / 2)) 3 in
  buf ← read_target_memory base WINDOW r;
  Some (mkResolvedAddress (str "(target memory)") (dyld_arch r)
    (str "(unmapped) " ++ hex_literal address) Unknown base
    (wadd64 base (Z.of_nat (length buf))) buf base None).

(** The code the recorder shipped with the load event. *)
Definition inline_slice (start text len : Z) (inline : list Z) : option (list Z) :=
  if bool_decide (start < text) then None else
  let off := start - text in
  end_ ← checked_add off len;
  if bool_decide (Z.of_nat (length inline) < end_) then None
  else Some (slice (Z.to_nat off) (Z.to_nat end_) inline).

Definition resolve (address : Z) (r : BinaryRegistry)
    : outcome (BinaryRegistry * option ResolvedAddress) :=
  match binary_for_address address r with
  | (r, None) => Ret (r, resolve_unmapped address r)
  | (r, Some idx) =>
      match by_base r !! idx with
      | None => Panic
      | Some b =>
          let svma := svma_for b address in
          let sym := find (fun s => bool_decide (start_svma s <= svma < end_svma s)) (symbols b) in
          let '(r, image) := image_for (path b) r in
          let '(function_name, language, start, end_) :=
            match sym with
            | Some s => let d := demangle_bytes demangler (sym_name s) in
                        (Demangle.name d, Demangle.language d, start_svma s, end_svma s)
            | None => (short_path (path b) ++ str "+" ++ hex_literal svma, Unknown,
                       ssub svma 32, sadd64 svma 32)
            end in
          let len := ssub end_ start in
          if bool_decide (len = 0) then Ret (r, None) else
          let base := avma_for_svma (base_avma b) (text_svma b) start in
          let buf :=
            match image ≫= fetch start len with
            | Some buf => Some buf
            | None =>
                match read_target_memory base len r with
                | Some buf => Some buf
                | None => text_bytes b ≫= inline_slice start (text_svma b) len
                end
            end in
          Ret (r, buf ← buf;
            Some (mkResolvedAddress (path b) (arch b) function_name language base
              (avma_for_svma (base_avma b) (text_svma b) end_) buf start image))
      end
  end.
End WithSystem.

(** ** The archive *)

Record SavedLiveSymbol := mkSavedLiveSymbol { sl_start_svma : Z; sl_end_svma : Z; sl_name : list Z }.

Record SavedLoadedBinary := mkSavedLoadedBinary {
  sb_path : list Z; sb_base_avma : Z; sb_avma_end : Z; sb_text_svma : Z;
  sb_arch : option (list Z); sb_is_executable : bool; sb_symbols : list SavedLiveSymbol;
  sb_text_bytes : option (list Z)
}.

Definition save_binary (b : LoadedBinary) : SavedLoadedBinary :=
  mkSavedLoadedBinary (path b) (base_avma b) (avma_end b) (text_svma b) (arch b) (is_executable b)
    (map (fun s => mkSavedLiveSymbol (start_svma s) (end_svma s) (sym_name s)) (symbols b))
    (text_bytes b).

Definition load_binary (b : SavedLoadedBinary) : LoadedBinary :=
  mkLoadedBinary (sb_path b) (sb_base_avma b) (sb_avma_end b) (sb_text_svma b) (sb_arch b)
    (sb_is_executable b)
    (map (fun s => mkLiveSymbolOwned (sl_start_svma s) (sl_end_svma s) (sl_name s)) (sb_symbols b))
    (sb_text_bytes b).

Definition to_saved (r : BinaryRegistry) : list SavedLoadedBinary := map save_binary (by_base r).

Definition replace_from_saved (saved : list SavedLoadedBinary) (self : BinaryRegistry)
    : BinaryRegistry :=
  foldl (fun restored b => insert (load_binary b) restored) new saved.

(** ** The index *)

Definition covers (address : Z) (b : LoadedBinary) : Prop := base_avma b <= address < avma_end b.

Lemma elem_of_build_index l e :
  e ∈ build_index l <-> exists b, l !! e.2 = Some b /\ e.1 = (base_avma b, avma_end b).
Proof.
  unfold build_index. rewrite sort_by_perm, elem_of_lookup_imap. split.
  - intros (i & b & -> & Hi). by exists b.
  - intros (b & Hi & He). exists e.2, b. split; [|done]. destruct e as [p i]. cbn in *. by rewrite He.
Qed.

Lemma build_index_sorted l : StronglySorted (fun x y : Z * Z * nat => x.1.1 <= y.1.1) (build_index l).
Proof.
  eapply StronglySorted_weaken; [|apply sort_by_sorted].
  - intros x y. by rewrite bool_decide_eq_true.
  - intros x y. rewrite bool_decide_eq_false, bool_decide_eq_true. lia.
  - intros x y z. rewrite !bool_decide_eq_true. lia.
Qed.

(** The candidate is the binary with the greatest base at or below the address,
    when the address is below its end. *)
Lemma candidate_spec l address :
  match candidate (build_index l) address with
  | Some i => exists b, l !! i = Some b /\ covers address b /\
      forall b', b' ∈ l -> base_avma b' <= address -> base_avma b' <= base_avma b
  | None => Forall (fun b => address < base_avma b) l \/
      exists b, b ∈ l /\ avma_end b <= address /\ base_avma b <= address /\
        forall b', b' ∈ l -> base_avma b' <= address -> base_avma b' <= base_avma b
  end.
Proof.
  unfold candidate.
  pose proof (partition_point_pred (fun x y : Z * Z * nat => x.1.1 <= y.1.1)
    (fun e => bool_decide (e.1.1 <= address)) (build_index l)) as H.
  destruct (partition_point _ _) as [|pos].
  - left. assert (Hall : Forall (fun e => bool_decide (e.1.1 <= address) = false) (build_index l)).
    { apply H; [|apply build_index_sorted]. intros x y. rewrite !bool_decide_eq_true. lia. }
    apply Forall_forall. intros b [i Hi]%list_elem_of_lookup. rewrite Forall_forall in Hall.
    specialize (Hall (base_avma b, avma_end b, i)). cbn in Hall. rewrite bool_decide_eq_false in Hall.
    enough (~ base_avma b <= address) by lia. apply Hall, elem_of_build_index. by exists b.
  - destruct H as ([[base end_] i] & l1 & l2 & Hpos & Hl & Hx & H1 & H2).
    { intros x y. rewrite !bool_decide_eq_true. lia. }
    { apply build_index_sorted. }
    rewrite Hpos. cbn in Hx. apply bool_decide_eq_true in Hx.
    assert (Hin : (base, end_, i) ∈ build_index l) by (rewrite Hl; set_solver).
    apply elem_of_build_index in Hin as (b & Hi & [= -> ->]). cbn in Hi.
    assert (Hmax : forall b', b' ∈ l -> base_avma b' <= address -> base_avma b' <= base_avma b).
    { intros b' [j Hj]%list_elem_of_lookup Hle.
      assert (Hin' : (base_avma b', avma_end b', j) ∈ build_index l) by (apply elem_of_build_index; by exists b').
      rewrite Hl in Hin'. apply elem_of_app in Hin' as [Hj'|[Heq|Hj']%elem_of_cons].
      - rewrite Forall_forall in H1. apply (H1 _ Hj').
      - injection Heq as -> _ _. lia.
      - rewrite Forall_forall in H2. specialize (H2 _ Hj'). cbn in H2. rewrite bool_decide_eq_false in H2. lia. }
    case_bool_decide.
    + exists b. split; [done|]. split; [split; lia|done].
    + right. exists b. split; [by eapply list_elem_of_lookup_2|]. split; [lia|]. done.
Qed.

(** Ranges that do not overlap, as the loader of the target lays them out. *)
Definition disjoint_ranges (l : list LoadedBinary) : Prop :=
  forall i j b b', l !! i = Some b -> l !! j = Some b' -> i <> j ->
    avma_end b <= base_avma b' \/ avma_end b' <= base_avma b.

Lemma candidate_exact l address i :
  disjoint_ranges l -> NoDup (map base_avma l) -> Forall (fun b => base_avma b <= avma_end b) l ->
  candidate (build_index l) address = Some i <-> exists b, l !! i = Some b /\ covers address b.
Proof.
  intros Hdis Hnd Hwf. pose proof (candidate_spec l address) as Hc. split.
  - intros Hi. rewrite Hi in Hc. destruct Hc as (b & ? & ? & _). by exists b.
  - intros (b & Hb & Hcov). unfold covers in Hcov.
    assert (Hbase : forall j b', l !! j = Some b' -> base_avma b <= base_avma b' <= address -> j = i).
    { intros j b' Hj Hle. destruct (decide (j = i)) as [|Hne]; [done|exfalso].
      rewrite Forall_forall in Hwf.
      assert (base_avma b' <= avma_end b') by (eapply Hwf, list_elem_of_lookup_2; exact Hj).
      destruct (Hdis i j b b' Hb Hj) as [?|?]; [done|lia|].
      apply Hne. eapply (NoDup_lookup _ _ _ (base_avma b) Hnd).
      - rewrite list_lookup_fmap, Hj. cbn. f_equal. lia.
      - by rewrite list_lookup_fmap, Hb. }
    assert (Hin : b ∈ l) by (eapply list_elem_of_lookup_2; exact Hb).
    destruct (candidate (build_index l) address) as [j|].
    + destruct Hc as (b' & Hj & Hcov' & Hmax). unfold covers in Hcov'.
      f_equal. apply (Hbase j b' Hj). specialize (Hmax b Hin). lia.
    + destruct Hc as [Hnone|(b' & Hb' & Hend & Hle & Hmax)].
      * rewrite Forall_forall in Hnone. specialize (Hnone b Hin). lia.
      * apply list_elem_of_lookup in Hb' as [j Hj]. specialize (Hmax b Hin).
        assert (j = i) as -> by (apply (Hbase j b' Hj); lia).
        assert (b' = b) as -> by congruence. lia.
Qed.

(** ** Symbols of one binary *)

Definition symbol_covers (svma : Z) (s : LiveSymbolOwned) : Prop := start_svma s <= svma < end_svma s.

Definition symbols_sorted : list LiveSymbolOwned -> Prop :=
  StronglySorted (fun s t => start_svma s <= start_svma t).

Lemma sort_symbols_sorted l : symbols_sorted (sort_symbols l).
Proof.
  eapply StronglySorted_weaken; [|apply sort_by_sorted].
  - intros x y. by rewrite bool_decide_eq_true.
  - intros x y. rewrite bool_decide_eq_false, bool_decide_eq_true. lia.
  - intros x y z. rewrite !bool_decide_eq_true. lia.
Qed.

(** Symbols that do not overlap: each ends where a later one starts or before. *)
Definition symbols_apart : list LiveSymbolOwned -> Prop :=
  StronglySorted (fun s t => end_svma s <= start_svma t).

Lemma symbol_before_spec svma l :
  symbols_sorted l ->
  match symbol_before svma l with
  | Some s => s ∈ l /\ symbol_covers svma s
  | None => symbols_apart l -> Forall (fun s => ~ symbol_covers svma s) l
  end.
Proof.
  intros Hs. unfold symbol_before.
  pose proof (partition_point_pred (fun s t => start_svma s <= start_svma t)
    (fun s => bool_decide (start_svma s <= svma)) l) as H.
  assert (Hdown : forall x y : LiveSymbolOwned, start_svma x <= start_svma y ->
    bool_decide (start_svma y <= svma) = true -> bool_decide (start_svma x <= svma) = true)
    by (intros x y; rewrite !bool_decide_eq_true; lia).
  destruct (partition_point _ _) as [|i].
  - intros _. eapply Forall_impl; [by apply H|]. intros s. cbn. rewrite bool_decide_eq_false.
    unfold symbol_covers. lia.
  - destruct (H Hdown Hs) as (s & l1 & l2 & -> & -> & Hle & _ & H2). cbn [mbind option_bind].
    apply bool_decide_eq_true in Hle. case_bool_decide as Hend.
    + split; [set_solver|]. split; lia.
    + intros Hap. apply StronglySorted_app in Hap as (Hl1 & _ & _).
      apply Forall_app. split; [|apply Forall_cons; split].
      * apply Forall_forall. intros t Ht [? ?]. specialize (Hl1 t s Ht ltac:(by left)). cbn in Hl1. lia.
      * unfold symbol_covers. lia.
      * eapply Forall_impl; [exact H2|]. intros t. cbn. rewrite bool_decide_eq_false.
        unfold symbol_covers. lia.
Qed.

(** ** Runs of the registry *)

Record registry_ok (r : BinaryRegistry) : Prop := {
  index_ok : by_base_index r = None \/ by_base_index r = Some (build_index (by_base r));
  bases_distinct : NoDup (map base_avma (by_base r));
  tables_sorted : Forall (fun b => symbols_sorted (symbols b)) (by_base r)
}.

Lemma new_ok : registry_ok new.
Proof. split; [by left|constructor|constructor]. Qed.

Lemma retain_bases base l : NoDup (map base_avma l) ->
  NoDup (map base_avma (filter (fun x => base_avma x <> base) l)).
Proof.
  induction l as [|x l IH]; [done|]. cbn [map]. intros [Hx Hl]%NoDup_cons.
  rewrite filter_cons. case_decide; [|by apply IH]. cbn [map]. apply NoDup_cons. split; [|by apply IH].
  intros (y & Hy & [_ Hin]%list_elem_of_filter)%list_elem_of_fmap. apply Hx.
  rewrite Hy. by apply list_elem_of_fmap_2.
Qed.

Lemma retain_forall (P : LoadedBinary -> Prop) base l :
  Forall P l -> Forall P (filter (fun x => base_avma x <> base) l).
Proof.
  intros H. rewrite Forall_forall in *. intros x [_ Hx]%list_elem_of_filter. by apply H.
Qed.

Lemma insert_by_base b r :
  by_base (insert b r) =
  filter (fun x => base_avma x <> base_avma b) (by_base r) ++ [b <| symbols ::= sort_symbols |>].
Proof. unfold insert. cbn. by destruct (dyld_arch r). Qed.

Lemma insert_ok b r : registry_ok r -> registry_ok (insert b r).
Proof.
  intros [_ Hnd Hs]. split; [by left| |]; rewrite insert_by_base.
  - rewrite map_app. apply NoDup_app. split; [by apply retain_bases|].
    split; [|apply NoDup_singleton]. intros x Hx ->%list_elem_of_singleton.
    apply list_elem_of_fmap in Hx as (y & Hy & [Hne _]%list_elem_of_filter). by apply Hne.
  - apply Forall_app. split; [by apply retain_forall|]. constructor; [|constructor].
    apply sort_symbols_sorted.
Qed.

Lemma remove_ok base r : registry_ok r -> registry_ok (remove base r).
Proof. intros [_ Hnd Hs]. split; [by left|by apply retain_bases|by apply retain_forall]. Qed.

Lemma restore_ok saved self : registry_ok (replace_from_saved saved self).
Proof.
  unfold replace_from_saved. generalize new_ok. generalize new.
  induction saved as [|b saved IH]; intros r Hr; [done|]. cbn. by apply IH, insert_ok.
Qed.

(** Looking up an address builds the index and nothing else. *)
Lemma binary_for_address_ok address r :
  registry_ok r ->
  exists r', binary_for_address address r = (r', candidate (build_index (by_base r)) address) /\
    registry_ok r' /\ by_base r' = by_base r /\ kernel_symbols r' = kernel_symbols r.
Proof.
  intros [Hi Hnd Hs]. unfold binary_for_address.
  assert (Hidx : (match by_base_index r with Some idx => idx | None => build_index (by_base r) end)
                 = build_index (by_base r)) by by destruct Hi as [-> | ->].
  rewrite Hidx. eexists. split; [done|]. split; [|done]. split; [by right|done|done].
Qed.

(** The index never names a binary that is gone. *)
Lemma candidate_lookup l address i :
  candidate (build_index l) address = Some i -> exists b, l !! i = Some b /\ covers address b.
Proof.
  intros H. pose proof (candidate_spec l address) as Hc. rewrite H in Hc.
  destruct Hc as (b & ? & ? & _). by exists b.
Qed.

Section Runs.
Variable demangler : SymLanguage -> list Z -> option (list Z).
Variable open_image : list Z -> option CodeImage.
Variable read_mem : Z -> Z -> Z -> option (list Z).

Inductive op :=
  | Insert (b : LoadedBinary)
  | Remove (base : Z)
  | Lookup (address : Z)
  | Resolve (address : Z)
  | Restore (saved : list SavedLoadedBinary)
  | SetTarget (pid task_port : Z)
  | SetKallsyms (blob : list Z).

Definition step (r : BinaryRegistry) (o : op) : outcome BinaryRegistry :=
  match o with
  | Insert b => Ret (insert b r)
  | Remove base => Ret (remove base r)
  | Lookup address => match lookup_symbol demangler address r with
                      | Ret (r, _) => Ret r
                      | Panic => Panic
                      end
  | Resolve address => match resolve demangler open_image read_mem address r with
                       | Ret (r, _) => Ret r
                       | Panic => Panic
                       end
  | Restore saved => Ret (replace_from_saved saved r)
  | SetTarget pid port => Ret (set_target pid port r)
  | SetKallsyms blob => Ret (set_kallsyms blob r)
  end.

Fixpoint run (r : BinaryRegistry) (ops : list op) : outcome BinaryRegistry :=
  match ops with
  | [] => Ret r
  | o :: ops => match step r o with Ret r => run r ops | Panic => Panic end
  end.

Lemma lookup_symbol_runs address r :
  registry_ok r ->
  exists r' res, lookup_symbol demangler address r = Ret (r', res) /\ registry_ok r' /\
    by_base r' = by_base r /\
    match candidate (build_index (by_base r)) address with
    | None => res = lookup_symbol_in_kernel_collection demangler address r
    | Some i => exists b, by_base r !! i = Some b /\ covers address b /\
        let svma := svma_for b address in
        res = Some (match symbol_before svma (symbols b) with
          | Some s => mkResolvedSymbol (Demangle.name (demangle_bytes demangler (sym_name s)))
              (short_path (path b)) (is_executable b) (Demangle.language (demangle_bytes demangler (sym_name s)))
          | None => mkResolvedSymbol (short_path (path b) ++ str "+" ++ hex_literal svma)
              (short_path (path b)) (is_executable b) Unknown
          end)
    end.
Proof.
  intros Hok. destruct (binary_for_address_ok address r Hok) as (r' & Hb & Hok' & Hbase & Hk).
  unfold lookup_symbol. rewrite Hb. destruct (candidate _ address) as [i|] eqn:Ec.
  - destruct (candidate_lookup _ _ _ Ec) as (b & Hi & Hcov). rewrite Hbase, Hi. cbn zeta.
    destruct (symbol_before _ _) as [s|] eqn:Es;
      (eexists _, _; split; [done|]; split; [done|]; split; [done|];
       exists b; rewrite Es; split; [done|]; split; [done|]; reflexivity).
  - eexists _, _. split; [done|]. split; [done|]. split; [done|].
    unfold lookup_symbol_in_kernel_collection. by rewrite Hk.
Qed.

Lemma image_for_ok p r : registry_ok r -> registry_ok (image_for open_image p r).1 /\
  by_base (image_for open_image p r).1 = by_base r.
Proof. intros [? ? ?]. unfold image_for. by destruct (images r !! p). Qed.

Lemma resolve_runs address r :
  registry_ok r ->
  exists r' res, resolve demangler open_image read_mem address r = Ret (r', res) /\ registry_ok r'.
Proof.
  intros Hok. destruct (binary_for_address_ok address r Hok) as (r' & Hb & Hok' & Hbase & Hk).
  unfold resolve. rewrite Hb. destruct (candidate _ address) as [i|] eqn:Ec; [|by eexists _, _].
  destruct (candidate_lookup _ _ _ Ec) as (b & Hi & Hcov). rewrite Hbase, Hi.
  destruct (image_for_ok (path b) r' Hok') as [Hok'' _].
  destruct (image_for open_image (path b) r') as [r'' image]. cbn [fst] in Hok''.
  destruct (find _ _) as [s|]; cbn zeta; case_bool_decide; by eexists _, _.
Qed.

Lemma step_ok r o : registry_ok r -> exists r', step r o = Ret r' /\ registry_ok r'.
Proof.
  intros Hok. destruct o as [b|base|address|address|saved|pid port|blob]; cbn [step].
  - eexists. split; [done|]. by apply insert_ok.
  - eexists. split; [done|]. by apply remove_ok.
  - destruct (lookup_symbol_runs address r Hok) as (r' & res & -> & ? & _). by exists r'.
  - destruct (resolve_runs address r Hok) as (r' & res & -> & ?). by exists r'.
  - eexists. split; [done|]. apply restore_ok.
  - eexists. split; [done|]. destruct Hok as [? ? ?]. unfold set_target.
    case_bool_decide; by split.
  - eexists. split; [done|]. by destruct Hok as [? ? ?].
Qed.

(** ** Properties *)

(** The registry's cached index is never stale and no operation can panic:
    after any sequence of loads, unloads, lookups, resolutions and restores the
    cached index is absent or exactly what rebuilding it would give, the bases
    are distinct and every symbol table is sorted, so indexing by a cached
    position always finds a binary. *)
Theorem registry_never_panics ops :
  exists r, run new ops = Ret r /\ registry_ok r.
Proof.
  generalize new_ok. generalize new. induction ops as [|o ops IH]; intros r Hr; cbn; [by exists r|].
  destruct (step_ok r o Hr) as (r' & -> & Hr'). by apply IH.
Qed.

(** C28. Symbol lookup meets its contract on a coherent registry whose ranges and
    symbols do not overlap: an address some binary covers is answered from that
    binary, with the demangled name of the symbol covering it and, only when no
    symbol does, with the file name and the offset; an address no binary covers
    is answered by the kernel symbols. *)
Theorem lookup_symbol_exact address r :
  registry_ok r -> disjoint_ranges (by_base r) ->
  Forall (fun b => base_avma b <= avma_end b /\ symbols_apart (symbols b)) (by_base r) ->
  exists r' res, lookup_symbol demangler address r = Ret (r', res) /\ by_base r' = by_base r /\
    ((Forall (fun b => ~ covers address b) (by_base r) /\
      res = lookup_symbol_in_kernel_collection demangler address r) \/
     exists b rs, b ∈ by_base r /\ covers address b /\ res = Some rs /\
       binary rs = short_path (path b) /\ is_main rs = is_executable b /\
       ((exists s, s ∈ symbols b /\ symbol_covers (svma_for b address) s /\
           rs_function_name rs = Demangle.name (demangle_bytes demangler (sym_name s))) \/
        (Forall (fun s => ~ symbol_covers (svma_for b address) s) (symbols b) /\
         rs_function_name rs = short_path (path b) ++ str "+" ++ hex_literal (svma_for b address)))).
Proof.
  intros Hok Hdis Hwf. destruct (lookup_symbol_runs address r Hok) as (r' & res & -> & _ & Hbase & Hres).
  exists r', res. split; [done|]. split; [done|].
  assert (Hends : Forall (fun b => base_avma b <= avma_end b) (by_base r))
    by (eapply Forall_impl; [exact Hwf|]; by intros b []).
  destruct Hok as [_ Hnd Hsorted]. destruct (candidate _ address) as [i|] eqn:Ec.
  - right. destruct Hres as (b & Hi & Hcov & ->). apply list_elem_of_lookup_2 in Hi.
    rewrite Forall_forall in Hsorted, Hwf. specialize (Hsorted b Hi). destruct (Hwf b Hi) as [_ Hap].
    pose proof (symbol_before_spec (svma_for b address) (symbols b) Hsorted) as Hsym.
    destruct (symbol_before _ _) as [s|]; (eexists b, _; split_ands; [done|done|done|done|done|]).
    + left. exists s. by destruct Hsym.
    + right. split; [by apply Hsym|done].
  - left. split; [|done]. apply Forall_forall. intros b [i Hi]%list_elem_of_lookup Hcov.
    assert (H : candidate (build_index (by_base r)) address = Some i)
      by (apply candidate_exact; [done..|by exists b]). congruence.
Qed.
End Runs.

Definition demo_binary (p : list Z) (base end_ : Z) (syms : list LiveSymbolOwned) : LoadedBinary :=
  mkLoadedBinary p base end_ 0x1000 None false syms None.

Definition demo_registry : BinaryRegistry :=
  insert (demo_binary (str "/usr/lib/libb.so") 0x9000 0xa000 [])
    (insert (demo_binary (str "/bin/app") 0x4000 0x6000
       [mkLiveSymbolOwned 0x1100 0x1200 (str "work"); mkLiveSymbolOwned 0x1000 0x1100 (str "main")])
       new).

Lemma demo_registry_ok : registry_ok demo_registry /\ disjoint_ranges (by_base demo_registry) /\
  Forall (fun b => base_avma b <= avma_end b /\ symbols_apart (symbols b)) (by_base demo_registry).
Proof.
  split; [by apply insert_ok, insert_ok, new_ok|]. split.
  - intros [|[|i]] [|[|j]] b b' Hi Hj Hne; vm_compute in Hi, Hj; simplify_eq; try done; vm_compute; (left; congruence) || (right; congruence).
  - repeat constructor; vm_compute; try congruence; done.
Qed.

Lemma lookup_symbol_exact_witness :
  let none := fun (_ : SymLanguage) (_ : list Z) => None in
  registry_ok demo_registry /\
  lookup_symbol none 0x4140 demo_registry <> Panic /\
  exists r res, lookup_symbol none 0x4140 demo_registry = Ret (r, res) /\
    rs_function_name <$> res = Some (str "work").
Proof.
  cbn zeta. destruct demo_registry_ok as (Hok & Hdis & Hwf).
  destruct (lookup_symbol_exact (fun _ _ => None) 0x4140 demo_registry Hok Hdis Hwf)
    as (r & res & Heq & _).
  split; [exact Hok|]. split; [rewrite Heq; discriminate|].
  exists r, res. split; [exact Heq|]. clear - Heq. vm_compute in Heq. injection Heq as <- <-. reflexivity.
Defined.

Lemma saved_registry_restored r self :
  registry_ok r -> by_base (replace_from_saved (to_saved r) self) = by_base r.
Proof.
  intros [_ Hnd Hsorted].
  assert (Hload : forall b, load_binary (save_binary b) = b).
  { intros [p ba e t a x ss tb]. unfold load_binary, save_binary. cbn. f_equal.
    rewrite map_map. rewrite (map_ext _ id); [apply map_id|]. by intros []. }
  unfold replace_from_saved, to_saved.
  enough (H : forall l r0, NoDup (map base_avma (by_base r0 ++ l)) ->
    Forall (fun b => symbols_sorted (symbols b)) l ->
    by_base (foldl (fun restored b => insert (load_binary b) restored) r0 (map save_binary l)) =
    by_base r0 ++ l) by (apply (H (by_base r) new); done).
  induction l as [|b l IH]; intros r0 Hn Hs; cbn; [by rewrite app_nil_r|].
  apply Forall_cons in Hs as [Hb Hs]. rewrite Hload.
  assert (Hkeep : by_base (insert b r0) = by_base r0 ++ [b]).
  { rewrite insert_by_base. rewrite filter_all.
    - do 2 f_equal. destruct b. cbn in *. f_equal. apply sort_by_id.
      eapply StronglySorted_weaken; [|exact Hb]. intros x y Hxy. by apply bool_decide_eq_true.
    - apply Forall_forall. intros x Hx Heq. rewrite map_app in Hn.
      apply NoDup_app in Hn as (_ & Hn & _). apply (Hn (base_avma b)); [|by left].
      rewrite <- Heq. by apply list_elem_of_fmap_2. }
  rewrite IH, Hkeep by (try done; rewrite Hkeep, <- (assoc_L (++)); done).
  by rewrite <- (assoc_L (++)).
Qed.

(** The registry's archive round trip: restoring what a coherent registry
    saved, over any registry, gives back its binaries in order with their
    symbol tables and inline code. *)
Theorem registry_archive_roundtrip r self :
  registry_ok r ->
  by_base (replace_from_saved (to_saved r) self) = by_base r /\
  registry_ok (replace_from_saved (to_saved r) self).
Proof.
  intros Hok. split; [by apply saved_registry_restored|apply restore_ok].
Qed.

Lemma registry_archive_roundtrip_witness :
  registry_ok demo_registry /\
  by_base (replace_from_saved (to_saved demo_registry) new) = by_base demo_registry.
Proof.
  split; [apply demo_registry_ok|]. apply registry_archive_roundtrip, demo_registry_ok.
Defined.

(** Lookup and resolution disagree on nested symbols: for an address past an
    inner symbol but still inside the outer one, [resolve] answers with the
    outer function while [lookup_symbol] finds no symbol and labels the address
    with the file name and offset. *)
Theorem nested_symbol_disagreement :
  let r := insert (mkLoadedBinary (str "/bin/app") 0x1000 0x2000 0x1000 None false
             [mkLiveSymbolOwned 0x1000 0x1100 (str "outer"); mkLiveSymbolOwned 0x1010 0x1020 (str "inner")]
             (Some (replicate 4096 0))) new in
  let none := fun (_ : SymLanguage) (_ : list Z) => None in
  (exists r' rs, lookup_symbol none 0x1050 r = Ret (r', Some rs) /\ rs_function_name rs = str "app+0x1050") /\
  (exists r' ra, resolve none (fun _ => None) (fun _ _ _ => None) 0x1050 r = Ret (r', Some ra) /\
     ra_function_name ra = str "outer").
Proof. split; (eexists _, _; split; [vm_compute; reflexivity|reflexivity]). Qed.

End Binaries.
