(* ===== verification/Symbols.v ===== *)
(** * What a query sees of the binaries

    The queries of [stax-live/src/lib.rs] name addresses through
    [BinaryRegistry::lookup_symbol]; they are defined against the class
    [SymbolTable], which the registry of Binaries.v implements.  Here too the
    string table of the tree views, [StringInterner]. *)

From S2P Require Import Prelude Text Demangle Binaries Aggregate.

Module Symbols.

Module Bin := Binaries.

(** ** Names of addresses *)

Class SymbolTable := lookup_symbol : Z -> option Bin.ResolvedSymbol.

Abbreviation function_name := Bin.rs_function_name.
Abbreviation binary := Bin.binary.

(** A [String] from its bytes. *)
Definition string_of_bytes (b : list Z) : string :=
  String.string_of_list_ascii (map (fun b => Ascii.ascii_of_N (Z.to_N b)) b).

(** What the aggregation pass needs of the names. *)
#[export] Instance symbol_names `{SymbolTable} : Aggregate.SymbolLookup :=
  fun address => (fun r => string_of_bytes (function_name r)) <$> lookup_symbol address.

(** The function and binary an address is shown under. *)
Definition SymbolKey : Type := option (list Z) * option (list Z).

Definition symbol_key (r : option Bin.ResolvedSymbol) : SymbolKey :=
  match r with
  | Some r => (Some (function_name r), Some (binary r))
  | None => (None, None)
  end.

Definition key_at `{SymbolTable} (address : Z) : SymbolKey := symbol_key (lookup_symbol address).

Definition symbol_main (r : option Bin.ResolvedSymbol) : bool :=
  match r with Some r => Bin.is_main r | None => false end.

Definition symbol_language (r : option Bin.ResolvedSymbol) : Demangle.Language :=
  match r with Some r => Bin.rs_language r | None => Demangle.Unknown end.

Section Registry.
Variable demangler : Demangle.SymLanguage -> list Z -> option (list Z).

(** The registry as a table of names. *)
Definition registry_symbols (r : Bin.BinaryRegistry) : SymbolTable :=
  fun address => match Bin.lookup_symbol demangler address r with
                 | Ret (_, res) => res
                 | Panic => None
                 end.

(** It is the table its lookups use: none panics, and none changes the table. *)
Lemma registry_implements r address :
  Bin.registry_ok r ->
  exists r', Bin.lookup_symbol demangler address r = Ret (r', registry_symbols r address) /\
    Bin.registry_ok r' /\ Bin.by_base r' = Bin.by_base r.
Proof.
  intros Hok. destruct (Bin.lookup_symbol_runs demangler address r Hok) as (r' & res & E & Hok' & Hb & _).
  exists r'. unfold registry_symbols. by rewrite E.
Qed.
End Registry.

(** ** The string table *)

Record StringInterner := mkStringInterner { strings : list (list Z); index : gmap (list Z) Z }.

#[export] Instance eta_StringInterner : Eta StringInterner := fun i => mkStringInterner (strings i) (index i).

Definition interner_new : StringInterner := mkStringInterner [] ∅.

Definition intern (s : list Z) (i : StringInterner) : Z * StringInterner :=
  match index i !! s with
  | Some k => (k, i)
  | None => let k := as_u32 (Z.of_nat (length (strings i))) in
            (k, i <| index ::= <[s := k]> |> <| strings ::= fun l => l ++ [s] |>)
  end.

Definition intern_opt (s : option (list Z)) (i : StringInterner) : option Z * StringInterner :=
  match s with
  | Some s => let '(k, i) := intern s i in (Some k, i)
  | None => (None, i)
  end.

(** The string an identifier stands for. *)
Definition string_at (strs : list (list Z)) (k : Z) : option (list Z) := strs !! Z.to_nat k.

(** The identifiers fit a [u32] and name each string once. *)
Definition interner_ok (i : StringInterner) : Prop :=
  NoDup (strings i) /\ forall s k, index i !! s = Some k <-> 0 <= k /\ string_at (strings i) k = Some s.

(** [i] and then more strings, of which there are few enough. *)
Definition table_grows (i i' : StringInterner) : Prop :=
  strings i `prefix_of` strings i' /\
  (Z.of_nat (length (strings i')) <= 2 ^ 32 -> interner_ok i -> interner_ok i').

#[export] Instance table_grows_preorder : PreOrder table_grows.
Proof.
  split; [done|]. intros i j k [H1 H1'] [H2 H2']. split; [by trans (strings j)|].
  intros Hk Hi. apply H2'; [done|]. apply H1'; [|done]. apply prefix_length in H2. lia.
Qed.

Lemma string_at_prefix strs strs' k s :
  strs `prefix_of` strs' -> string_at strs k = Some s -> string_at strs' k = Some s.
Proof. intros [l ->] H. unfold string_at in *. by apply lookup_app_l_Some. Qed.

Lemma interner_new_ok : interner_ok interner_new.
Proof.
  split; [constructor|]. intros s k. unfold interner_new, string_at; cbn. rewrite lookup_empty.
  by split; [|intros [_ ?]].
Qed.

Lemma intern_spec s i :
  interner_ok i -> Z.of_nat (length (strings (intern s i).2)) <= 2 ^ 32 ->
  interner_ok (intern s i).2 /\ 0 <= (intern s i).1 /\
  string_at (strings (intern s i).2) (intern s i).1 = Some s.
Proof.
  intros [Hnd Hi]. unfold intern. destruct (index i !! s) as [k|] eqn:E; cbn; intros Hlen.
  - split; [done|]. by apply Hi.
  - rewrite length_app in Hlen. cbn in Hlen.
    rewrite as_u32_small by (width; lia). unfold string_at in *. rewrite Nat2Z.id.
    split; [|split; [lia|by apply list_lookup_middle]]. split; cbn.
    + apply NoDup_app. split; [done|]. split; [|repeat constructor; set_solver].
      intros x Hx ->%list_elem_of_singleton. apply list_elem_of_lookup in Hx as [n Hn].
      assert (index i !! s = Some (Z.of_nat n)) as Hs by (apply Hi; split; [lia|by rewrite Nat2Z.id]).
      congruence.
    + intros x k. unfold string_at in *. destruct (decide (s = x)) as [<-|Hne].
      * rewrite lookup_insert_eq. split.
        -- intros [= <-]. rewrite Nat2Z.id. split; [lia|by apply list_lookup_middle].
        -- intros [Hk Hs]. f_equal. apply lookup_app_Some in Hs as [Hs|[Hge Hs]].
           ++ assert (index i !! s = Some k) by (by apply Hi). congruence.
           ++ apply list_lookup_singleton_Some in Hs as [Hz _]. lia.
      * rewrite lookup_insert_ne by done. rewrite Hi. split; intros [Hk Hs]; (split; [done|]).
        -- by apply lookup_app_l_Some.
        -- apply lookup_app_Some in Hs as [Hs|[_ Hs]]; [done|].
           apply list_lookup_singleton_Some in Hs as [_ Hs]. congruence.
Qed.

Lemma intern_grows s i : table_grows i (intern s i).2.
Proof.
  split.
  - unfold intern. destruct (index i !! s); cbn; [done|]. by apply prefix_app_r.
  - intros Hl Hi. by apply intern_spec.
Qed.

Lemma intern_opt_grows s i : table_grows i (intern_opt s i).2.
Proof. destruct s as [s|]; [|done]. cbn. pose proof (intern_grows s i). by destruct (intern s i). Qed.

(** The identifier of a string means the string, now and in any later table. *)
Lemma intern_resolves s i strs :
  interner_ok i -> strings (intern s i).2 `prefix_of` strs -> Z.of_nat (length strs) <= 2 ^ 32 ->
  string_at strs (intern s i).1 = Some s.
Proof.
  intros Hi Hp Hl. pose proof (prefix_length _ _ Hp).
  eapply string_at_prefix; [exact Hp|]. apply intern_spec; [done|lia].
Qed.

Lemma intern_opt_resolves s i strs :
  interner_ok i -> strings (intern_opt s i).2 `prefix_of` strs -> Z.of_nat (length strs) <= 2 ^ 32 ->
  (intern_opt s i).1 ≫= string_at strs = s.
Proof.
  destruct s as [s|]; [|done]. intros Hi Hp Hl. pose proof (intern_resolves s i strs Hi) as H.
  cbn in *. destruct (intern s i) as [k i']. cbn in *. auto.
Qed.

(** ** An example

    Two call sites of [f], which [main] calls, and [g]. *)
Definition demo_table : SymbolTable := fun address =>
  let named s := Some (Bin.mkResolvedSymbol (str s) (str "app") true Demangle.Rust) in
  if decide (address = 10) then named "main"
  else if decide (20 <= address <= 21) then named "f"
  else if decide (address = 30) then named "g" else None.

Definition demo_key (s : string) : SymbolKey := (Some (str s), Some (str "app")).

End Symbols.
