(* ===== verification/Flame.v ===== *)
(** * The flame graph a client sees

    [compute_flame_update] of [stax-live/src/lib.rs]: the tree of addresses an
    aggregation built is shown as a tree of symbols; call sites of one function
    become one row, names go through a string table, and direct recursion is
    folded.  Hash maps are iterated in the order of [MapOrder]. *)

From S2P Require Import Prelude Order Text Demangle Binaries Aggregate Symbols.

Module Flame.

Import Order Symbols Aggregate.

(** ** Data *)

Inductive FlameNode := mkFlameNode {
  f_address : Z;
  f_on_cpu_ns : Z;
  f_target_ns : Z;
  f_off_cpu : OffCpuBreakdown;
  f_pet_samples : Z;
  f_target_spans : Z;
  f_off_cpu_intervals : Z;
  f_function_name : option Z;
  f_binary : option Z;
  f_is_main : bool;
  f_language : Z;
  f_target_kind : option TargetLaneKind;
  f_cycles : Z;
  f_instructions : Z;
  f_l1d_misses : Z;
  f_branch_mispreds : Z;
  f_children : list FlameNode
}.

#[export] Instance eta_FlameNode : Eta FlameNode := fun f =>
  mkFlameNode (f_address f) (f_on_cpu_ns f) (f_target_ns f) (f_off_cpu f) (f_pet_samples f)
    (f_target_spans f) (f_off_cpu_intervals f) (f_function_name f) (f_binary f) (f_is_main f)
    (f_language f) (f_target_kind f) (f_cycles f) (f_instructions f) (f_l1d_misses f)
    (f_branch_mispreds f) (f_children f).

Record FlamegraphUpdate := mkFlamegraphUpdate {
  fu_total_on_cpu_ns : Z;
  fu_total_target_ns : Z;
  fu_total_target_spans : Z;
  fu_total_off_cpu : OffCpuBreakdown;
  fu_strings : list (list Z);
  fu_root : FlameNode
}.

(** The row of one symbol while it is put together. *)
Record Acc := mkAcc {
  ac_on_cpu_ns : Z;
  ac_target_ns : Z;
  ac_off_cpu : OffCpuBreakdown;
  ac_pet_samples : Z;
  ac_target_spans : Z;
  ac_off_cpu_intervals : Z;
  ac_pmc : PmcAccum;
  rep_addr : Z;
  rep_self_ns : Z;
  ac_is_main : bool;
  ac_language : Demangle.Language;
  ac_target_kind : option TargetLaneKind;
  sub_sources : list StackNode
}.

#[export] Instance eta_Acc : Eta Acc := fun a =>
  mkAcc (ac_on_cpu_ns a) (ac_target_ns a) (ac_off_cpu a) (ac_pet_samples a) (ac_target_spans a)
    (ac_off_cpu_intervals a) (ac_pmc a) (rep_addr a) (rep_self_ns a) (ac_is_main a) (ac_language a)
    (ac_target_kind a) (sub_sources a).

(** How deep a tree is below its root. *)
Fixpoint height (n : StackNode) : nat :=
  map_fold (fun _ c h => Nat.max (S (height c)) h) 0%nat (children n).

Definition heights (sources : list StackNode) : nat := max_list (map height sources).

Section Build.
Context `{Order : MapOrder} `{Table : SymbolTable}.

Abbreviation cache := (gmap Z Bin.ResolvedSymbol).

Definition resolve (c : cache) (addr : Z) : cache * option Bin.ResolvedSymbol :=
  match c !! addr with
  | Some r => (c, Some r)
  | None => match lookup_symbol addr with
            | Some r => (<[addr := r]> c, Some r)
            | None => (c, None)
            end
  end.

Definition acc_new (addr : Z) (r : option Bin.ResolvedSymbol) (child : StackNode) : Acc :=
  mkAcc 0 0 breakdown_default 0 0 0 pmc_default addr 0 (symbol_main r) (symbol_language r)
    (target_kind child) [].

Definition acc_add (addr : Z) (r : option Bin.ResolvedSymbol) (child : StackNode) (acc : Acc) : Acc :=
  let acc := acc <| ac_on_cpu_ns ::= fun x => sadd64 x (on_cpu_ns child) |>
                 <| ac_target_ns ::= fun x => sadd64 x (target_ns child) |>
                 <| ac_off_cpu ::= add_other (off_cpu child) |>
                 <| ac_pet_samples ::= fun x => sadd64 x (pet_samples child) |>
                 <| ac_target_spans ::= fun x => sadd64 x (target_spans child) |>
                 <| ac_off_cpu_intervals ::= fun x => sadd64 x (off_cpu_intervals child) |>
                 <| ac_pmc ::= pmc_add_other (pmc child) |> in
  let acc := if decide (rep_self_ns acc < on_cpu_ns child)
             then acc <| rep_addr := addr |> <| rep_self_ns := on_cpu_ns child |>
                      <| ac_is_main := symbol_main r |> <| ac_language := symbol_language r |>
             else acc in
  acc <| ac_target_kind ::= set_target_kind (target_kind child) |>
      <| sub_sources ::= fun l => l ++ [child] |>.

(** The children of the sources, with the addresses they are called at. *)
Definition occurrences (sources : list StackNode) : list (Z * StackNode) :=
  sources ≫= fun src => entries (children src).

Definition group_step (st : gmap SymbolKey Acc * cache) (e : Z * StackNode) : gmap SymbolKey Acc * cache :=
  let '(groups, c) := st in
  let '(c, r) := resolve c e.1 in
  let key := symbol_key r in
  (<[key := acc_add e.1 r e.2 (default (acc_new e.1 r e.2) (groups !! key))]> groups, c).

Definition acc_total (a : Acc) : Z := sadd64 (ac_on_cpu_ns a) (total_ns (ac_off_cpu a)).

(** Longest first, then by name and binary. *)
Definition row_cmp (a b : SymbolKey * Acc) : comparison :=
  then_with (acc_total b.2 ?= acc_total a.2)
    (then_with (name_cmp a.1.1 b.1.1) (name_cmp a.1.2 b.1.2)).

(** One row, its children built by [build] before its names are interned. *)
Definition show_row
    (build : list StackNode -> StringInterner * cache -> list FlameNode * (StringInterner * cache))
    (out : list FlameNode * (StringInterner * cache)) (row : SymbolKey * Acc)
    : list FlameNode * (StringInterner * cache) :=
  let '(visible, st) := out in
  let '((fname, bin), acc) := row in
  let '(grandchildren, (it, c)) := build (sub_sources acc) st in
  let '(fn, it) := intern_opt fname it in
  let '(bn, it) := intern_opt bin it in
  let '(lang, it) := intern (Demangle.as_str (ac_language acc)) it in
  (visible ++
   [mkFlameNode (rep_addr acc) (ac_on_cpu_ns acc) (ac_target_ns acc) (ac_off_cpu acc)
      (ac_pet_samples acc) (ac_target_spans acc) (ac_off_cpu_intervals acc) fn bn (ac_is_main acc) lang
      (ac_target_kind acc) (acc_cycles (ac_pmc acc)) (acc_instructions (ac_pmc acc))
      (acc_l1d_misses (ac_pmc acc)) (acc_branch_mispreds (ac_pmc acc)) grandchildren], (it, c)).

Fixpoint build_children (fuel : nat) (sources : list StackNode) (st : StringInterner * cache)
    : list FlameNode * (StringInterner * cache) :=
  match fuel with
  | O => ([], st)
  | S fuel =>
      let '(groups, c) := foldl group_step (∅, st.2) (occurrences sources) in
      foldl (show_row (build_children fuel)) ([], (st.1, c)) (sort_by (le_of row_cmp) (entries groups))
  end.

(** ** Folding direct recursion *)

Definition symbol_eq (a b : FlameNode) : bool :=
  bool_decide (is_Some (f_function_name a)) &&
  bool_decide (f_function_name a = f_function_name b) && bool_decide (f_binary a = f_binary b).

Fixpoint nodes (f : FlameNode) : nat := S (sum_list_with nodes (f_children f)).

(** The loop over [node]'s children: what is in front of [i] and what is not; a
    child that is [node] again gives its place to its children. *)
Fixpoint splice_loop (fuel : nat) (node : FlameNode) (done todo : list FlameNode) : list FlameNode :=
  match fuel, todo with
  | _, [] => done
  | O, _ => done ++ todo
  | S fuel, c :: todo =>
      if symbol_eq c node then splice_loop fuel node done (f_children c ++ todo)
      else splice_loop fuel node (done ++ [c]) todo
  end.

Fixpoint fold_from (fuel : nat) (node : FlameNode) : FlameNode :=
  match fuel with
  | O => node
  | S fuel =>
      node <| f_children := map (fold_from fuel)
                (splice_loop (sum_list_with nodes (f_children node)) node [] (f_children node)) |>
  end.

Definition fold_recursion (node : FlameNode) : FlameNode := fold_from (nodes node) node.

(** [iter().map(f).sum()] *)
Definition wrapping_sum {A} (f : A -> Z) (l : list A) : Z := foldl (fun n x => wadd64 n (f x)) 0 l.

Definition compute_flame_update (a : Aggregation) : FlamegraphUpdate :=
  let root := flame_root a in
  let '(rows, (it, _)) := build_children (heights [root]) [root] (interner_new, ∅) in
  let rows := map fold_recursion rows in
  let '(unknown_lang, it) := intern (Demangle.as_str Demangle.Unknown) it in
  let '(all_label, it) := intern (str "(all)") it in
  mkFlamegraphUpdate (agg_on_cpu_ns a) (agg_target_ns a) (agg_target_spans a) (agg_off_cpu a) (strings it)
    (mkFlameNode 0 (agg_on_cpu_ns a) (agg_target_ns a) (agg_off_cpu a)
       (wrapping_sum f_pet_samples rows) (agg_target_spans a) (wrapping_sum f_off_cpu_intervals rows)
       (Some all_label) None false unknown_lang None
       (wrapping_sum f_cycles rows) (wrapping_sum f_instructions rows)
       (wrapping_sum f_l1d_misses rows) (wrapping_sum f_branch_mispreds rows) rows).

(** ** What the rows stand for *)

(** The counters of a tree are not negative. *)
Definition tree_ok (n : StackNode) : Prop := forall path m k, node_at path n = Some m -> 0 <= read k m.

Definition read_acc (k : counter) (a : Acc) : Z :=
  match k with
  | OnCpuNs => ac_on_cpu_ns a | TargetNs => ac_target_ns a | OffCpuNs r => read_reason r (ac_off_cpu a)
  | PetSamples => ac_pet_samples a | TargetSpans => ac_target_spans a
  | OffCpuIntervals => ac_off_cpu_intervals a | Pmc f => read_pmc f (ac_pmc a)
  end.

Definition read_flame (k : counter) (f : FlameNode) : Z :=
  match k with
  | OnCpuNs => f_on_cpu_ns f | TargetNs => f_target_ns f | OffCpuNs r => read_reason r (f_off_cpu f)
  | PetSamples => f_pet_samples f | TargetSpans => f_target_spans f
  | OffCpuIntervals => f_off_cpu_intervals f
  | Pmc Cycles => f_cycles f | Pmc Instructions => f_instructions f
  | Pmc L1dMisses => f_l1d_misses f | Pmc BranchMispreds => f_branch_mispreds f
  end.

Definition flame_total (f : FlameNode) : Z := sadd64 (f_on_cpu_ns f) (total_ns (f_off_cpu f)).

(** The calls of one symbol among the children of the sources. *)
Definition calls_of (key : SymbolKey) (l : list (Z * StackNode)) : list (Z * StackNode) :=
  filter (fun e => key_at e.1 = key) l.

Definition kids (key : SymbolKey) (sources : list StackNode) : list StackNode :=
  map snd (calls_of key (occurrences sources)).

(** The nodes whose stack, as symbols, is [path] below the sources. *)
Fixpoint along (path : list SymbolKey) (sources : list StackNode) : list StackNode :=
  match path with
  | [] => sources
  | key :: path => along path (kids key sources)
  end.

(** The symbol of a row, through the string table. *)
Definition node_key (strs : list (list Z)) (f : FlameNode) : SymbolKey :=
  (f_function_name f ≫= string_at strs, f_binary f ≫= string_at strs).

(** Rows that show the sources: one for each symbol called, longest first, with
    the sums of its calls, and below it the rows of those calls. *)
Inductive flame_of (strs : list (list Z)) : list StackNode -> list FlameNode -> Prop :=
  | flame_rows sources rows :
      NoDup (map (node_key strs) rows) ->
      (forall key, key ∈ map (node_key strs) rows <-> kids key sources <> []) ->
      StronglySorted (fun a b => flame_total b <= flame_total a) rows ->
      (forall f k, f ∈ rows -> read_flame k f = sat_sum (read k) (kids (node_key strs f) sources)) ->
      (forall f, f ∈ rows -> flame_of strs (kids (node_key strs f) sources) (f_children f)) ->
      flame_of strs sources rows.

(** ** Lemmas *)

Lemma map_fold_max_le `{Countable K} {V} (f : V -> nat) (m : gmap K V) a v :
  m !! a = Some v -> (f v <= map_fold (fun _ c h => Nat.max (f c) h) 0%nat m)%nat.
Proof.
  revert a v. apply (map_fold_weak_ind (fun h m => forall a v, m !! a = Some v -> (f v <= h)%nat)).
  - by intros a v.
  - intros i x m' h Hi IH a v. rewrite lookup_insert. case_decide; [intros [= <-]; lia|].
    intros Hv. specialize (IH _ _ Hv). lia.
Qed.

Lemma height_child n a c : children n !! a = Some c -> (height c < height n)%nat.
Proof. intros H. destruct n. by apply (map_fold_max_le (fun c => S (height c))) in H. Qed.

Lemma heights_le sources h : (heights sources <= h)%nat <-> Forall (fun n => height n <= h)%nat sources.
Proof.
  unfold heights. induction sources as [|n sources IH]; cbn; [split; [constructor|lia]|].
  rewrite Forall_cons, <- IH. unfold max_list. cbn. lia.
Qed.

Lemma elem_of_occurrences e sources :
  e ∈ occurrences sources <-> exists src, src ∈ sources /\ children src !! e.1 = Some e.2.
Proof.
  unfold occurrences. rewrite list_elem_of_bind. destruct e as [a c]. cbn.
  by setoid_rewrite entries_perm; setoid_rewrite elem_of_map_to_list; split; intros (src & ? & ?); exists src.
Qed.

Lemma elem_of_kids key sources c :
  c ∈ kids key sources <->
  exists src a, src ∈ sources /\ children src !! a = Some c /\ key_at a = key.
Proof.
  unfold kids, calls_of. rewrite list_elem_of_fmap. setoid_rewrite list_elem_of_filter.
  setoid_rewrite elem_of_occurrences. split.
  - intros ([a c'] & -> & Hk & src & Hs & Hc). by exists src, a.
  - intros (src & a & Hs & Hc & Hk). exists (a, c). split; [done|]. split; [done|]. by exists src.
Qed.

Lemma kids_heights key sources h : (heights sources <= S h)%nat -> (heights (kids key sources) <= h)%nat.
Proof.
  rewrite !heights_le, !Forall_forall. intros H c (src & a & Hs & Hc & _)%elem_of_kids.
  apply H in Hs. apply height_child in Hc. lia.
Qed.

Lemma kids_flat key sources : (heights sources <= 0)%nat -> kids key sources = [].
Proof.
  rewrite heights_le, Forall_forall. intros H.
  destruct (kids key sources) as [|c l] eqn:E; [done|]. exfalso.
  assert (c ∈ kids key sources) as (src & a & Hs & Hc & _)%elem_of_kids by (rewrite E; left).
  apply H in Hs. apply height_child in Hc. lia.
Qed.

Lemma tree_ok_read n k : tree_ok n -> 0 <= read k n.
Proof. intros H. by apply (H [] n k). Qed.

Lemma kids_ok key sources : Forall tree_ok sources -> Forall tree_ok (kids key sources).
Proof.
  rewrite !Forall_forall. intros H c (src & a & Hs & Hc & _)%elem_of_kids path m k Hm.
  apply (H src Hs (a :: path) m k). cbn. by rewrite Hc.
Qed.

(** The cache is transparent. *)
Definition cache_ok (c : cache) : Prop := forall a r, c !! a = Some r -> lookup_symbol a = Some r.

Lemma resolve_spec c a : cache_ok c -> (resolve c a).2 = lookup_symbol a /\ cache_ok (resolve c a).1.
Proof.
  intros H. unfold resolve. destruct (c !! a) as [r|] eqn:E.
  - by rewrite (H _ _ E).
  - destruct (lookup_symbol a) as [r|] eqn:El; [|done]. split; [done|]. intros b r'. cbn.
    rewrite lookup_insert. case_decide; [intros [= <-]; congruence|apply H].
Qed.

Lemma read_acc_new k addr r child : read_acc k (acc_new addr r child) = 0.
Proof. by destruct k as [| |[]| | | |[]]. Qed.

Lemma read_acc_add k addr r child a : read_acc k (acc_add addr r child a) = sadd64 (read_acc k a) (read k child).
Proof.
  unfold acc_add. case_decide; destruct k; cbn [read_acc read]; cbn;
    rewrite ?read_add_other, ?read_pmc_add_other; done.
Qed.

Lemma sub_sources_add addr r child a : sub_sources (acc_add addr r child a) = sub_sources a ++ [child].
Proof. unfold acc_add. by case_decide. Qed.

(** The row of a symbol after the calls [l]. *)
Definition row_ok (g : gmap SymbolKey Acc) (l : list (Z * StackNode)) (key : SymbolKey) : Prop :=
  match g !! key with
  | None => calls_of key l = []
  | Some acc => calls_of key l <> [] /\ sub_sources acc = map snd (calls_of key l) /\
      forall k, read_acc k acc = sat_sum (read k) (sub_sources acc)
  end.

Lemma calls_of_snoc key l e :
  calls_of key (l ++ [e]) = calls_of key l ++ (if decide (key_at e.1 = key) then [e] else []).
Proof. unfold calls_of. by rewrite filter_app. Qed.

Lemma groups_spec l c :
  cache_ok c -> Forall (fun e => tree_ok e.2) l ->
  let '(g, c') := foldl group_step (∅, c) l in cache_ok c' /\ forall key, row_ok g l key.
Proof.
  intros Hc. induction l as [|e l IH] using rev_ind; intros Hl.
  { split; [done|]. intros key. by unfold row_ok; rewrite lookup_empty. }
  apply Forall_app in Hl as [Hl [He _]%Forall_cons]. rewrite foldl_app. cbn [foldl].
  destruct (foldl group_step (∅, c) l) as [g c'] eqn:E. destruct (IH Hl) as [Hc' Hg].
  unfold group_step. destruct (resolve_spec c' e.1 Hc') as [Hr Hc''].
  destruct (resolve c' e.1) as [c'' r]. cbn in Hr, Hc''. subst r. split; [done|].
  intros key. specialize (Hg key). unfold row_ok in *. rewrite calls_of_snoc, lookup_insert.
  change (symbol_key (lookup_symbol e.1)) with (key_at e.1).
  case_decide as Hk; [|by rewrite app_nil_r]. subst key. split; [by destruct (calls_of _ l)|].
  rewrite sub_sources_add, map_app. destruct (g !! key_at e.1) as [a|] eqn:Ea; cbn [from_option id].
  - destruct Hg as (Hne & Hs & Hsum). rewrite Hs in Hsum |- *. split; [done|]. intros k.
    rewrite read_acc_add, Hsum. cbn [map]. apply sat_sum_snoc, (tree_ok_read _ _ He).
  - rewrite Hg. split; [done|]. intros k. rewrite read_acc_add, read_acc_new. cbn [map app].
    apply (sat_sum_snoc (read k) [] e.2), (tree_ok_read _ _ He).
Qed.

#[local] Instance row_ordered : Ordered row_cmp.
Proof.
  unfold row_cmp. apply then_ordered.
  - apply (reverse_key_ordered (fun x : SymbolKey * Acc => acc_total x.2)). apply _.
  - apply then_ordered; [apply (key_ordered (fun x : SymbolKey * Acc => x.1.1))
                        |apply (key_ordered (fun x : SymbolKey * Acc => x.1.2))]; apply _.
Qed.

(** A row and the entry it shows. *)
Record shows (strs : list (list Z)) (row : SymbolKey * Acc) (f : FlameNode) : Prop := {
  shows_key : node_key strs f = row.1;
  shows_counters : forall k, read_flame k f = read_acc k row.2;
  shows_children : flame_of strs (sub_sources row.2) (f_children f)
}.

(** What building the rows of some sources promises. *)
Definition builds (sources : list StackNode)
    (build : StringInterner * cache -> list FlameNode * (StringInterner * cache)) : Prop :=
  forall it c, cache_ok c ->
  let '(rows, (it', c')) := build (it, c) in
  cache_ok c' /\ table_grows it it' /\
  forall strs, interner_ok it -> strings it' `prefix_of` strs -> Z.of_nat (length strs) <= 2 ^ 32 ->
    flame_of strs sources rows.

Lemma show_row_spec build row visible it c :
  builds (sub_sources row.2) (build (sub_sources row.2)) -> cache_ok c ->
  let '(visible', (it', c')) := show_row build (visible, (it, c)) row in
  exists f, visible' = visible ++ [f] /\ cache_ok c' /\ table_grows it it' /\
  forall strs, interner_ok it -> strings it' `prefix_of` strs -> Z.of_nat (length strs) <= 2 ^ 32 ->
    shows strs row f.
Proof.
  destruct row as [[fname bin] acc]. cbn [snd]. intros Hb Hc. unfold show_row. specialize (Hb it c Hc).
  destruct (build (sub_sources acc) (it, c)) as [rows [it1 c1]]. destruct Hb as (Hc1 & G1 & Hrows).
  pose proof (intern_opt_grows fname it1) as G2. pose proof (fun s => intern_opt_resolves fname it1 s) as R2.
  destruct (intern_opt fname it1) as [fn it2]. cbn [fst snd] in G2, R2.
  pose proof (intern_opt_grows bin it2) as G3. pose proof (fun s => intern_opt_resolves bin it2 s) as R3.
  destruct (intern_opt bin it2) as [bn it3]. cbn [fst snd] in G3, R3.
  pose proof (intern_grows (Demangle.as_str (ac_language acc)) it3) as G4.
  destruct (intern _ it3) as [lang it4]. cbn [fst snd] in G4.
  eexists. split; [reflexivity|]. split; [done|]. split; [by trans it1; [|trans it2; [|trans it3]]|].
  intros strs Hok Hp Hl. pose proof (prefix_length _ _ Hp) as Hl4.
  assert (strings it3 `prefix_of` strs) as P3 by (trans (strings it4); [apply G4|done]).
  assert (strings it2 `prefix_of` strs) as P2 by (trans (strings it3); [apply G3|done]).
  assert (strings it1 `prefix_of` strs) as P1 by (trans (strings it2); [apply G2|done]).
  assert (interner_ok it1) as Hok1 by (apply G1; [apply prefix_length in P1; lia|done]).
  assert (interner_ok it2) as Hok2 by (apply G2; [apply prefix_length in P2; lia|done]).
  split; cbn [fst snd f_children].
  - unfold node_key. cbn [f_function_name f_binary]. by rewrite R2, R3.
  - intros [| |r| | | |[]]; done.
  - by apply Hrows.
Qed.

Lemma rows_spec build (rs : list (SymbolKey * Acc)) it c :
  (forall row, row ∈ rs -> builds (sub_sources row.2) (build (sub_sources row.2))) -> cache_ok c ->
  let '(rows, (it', c')) := foldl (show_row build) ([], (it, c)) rs in
  cache_ok c' /\ table_grows it it' /\
  forall strs, interner_ok it -> strings it' `prefix_of` strs -> Z.of_nat (length strs) <= 2 ^ 32 ->
    Forall2 (shows strs) rs rows.
Proof.
  induction rs as [|row rs IH] using rev_ind; intros Hb Hc.
  { split; [done|]. split; [done|]. intros. constructor. }
  rewrite foldl_app. cbn [foldl]. destruct (foldl _ _ rs) as [rows [it1 c1]].
  destruct IH as (Hc1 & G1 & H1); [|done|]. { intros x Hx. apply Hb. set_solver. }
  pose proof (show_row_spec build row rows it1 c1) as H. destruct (show_row _ _ _) as [rows' [it2 c2]].
  destruct H as (f & -> & Hc2 & G2 & H2); [apply Hb; set_solver|done|].
  split; [done|]. split; [by trans it1|]. intros strs Hok Hp Hl.
  assert (strings it1 `prefix_of` strs) as P1 by (trans (strings it2); [apply G2|done]).
  apply Forall2_app; [by apply H1|]. constructor; [|constructor]. apply H2; [|done..].
  apply G1; [|done]. apply prefix_length in P1. lia.
Qed.

Lemma shows_total strs row f : shows strs row f -> flame_total f = acc_total row.2.
Proof.
  intros H. unfold flame_total, acc_total.
  pose proof (shows_counters _ _ _ H OnCpuNs) as H1. cbn in H1. rewrite H1. f_equal.
  pose proof (fun r => shows_counters _ _ _ H (OffCpuNs r)) as H2. cbn in H2.
  pose proof (H2 Idle). pose proof (H2 LockWait). pose proof (H2 SemaphoreWait). pose proof (H2 IpcWait).
  pose proof (H2 IoRead). pose proof (H2 IoWrite). pose proof (H2 Readiness). pose proof (H2 Sleep).
  pose proof (H2 ConnectionSetup). pose proof (H2 Other). clear H2. unfold total_ns. cbn in *. congruence.
Qed.

Lemma shows_sorted strs rs rows :
  Forall2 (shows strs) rs rows -> StronglySorted (fun a b => row_cmp a b <> Gt) rs ->
  StronglySorted (fun a b => flame_total b <= flame_total a) rows.
Proof.
  induction 1 as [|row f rs rows Hf Hrs IH]; intros Hs; [constructor|].
  apply StronglySorted_inv in Hs as [Hs Hall]. constructor; [by apply IH|].
  apply Forall_forall. intros g Hg. apply list_elem_of_lookup in Hg as [i Hi].
  destruct (Forall2_lookup_r _ _ _ _ _ Hrs Hi) as (row' & Hr & Hg).
  apply (Forall_lookup_1 _ _ _ _ Hall) in Hr. unfold row_cmp in Hr.
  rewrite (shows_total _ _ _ Hf), (shows_total _ _ _ Hg).
  destruct (acc_total row'.2 ?= acc_total row.2) eqn:E;
    [rewrite Z.compare_eq_iff in E; lia|rewrite Z.compare_lt_iff in E; lia|done].
Qed.

Lemma shows_keys strs rs rows : Forall2 (shows strs) rs rows -> map (node_key strs) rows = map fst rs.
Proof. induction 1 as [|row f rs rows Hf _ IH]; [done|]. cbn [map]. by rewrite (shows_key _ _ _ Hf), IH. Qed.

Lemma shows_row strs rs rows f :
  Forall2 (shows strs) rs rows -> f ∈ rows -> exists row, row ∈ rs /\ shows strs row f.
Proof.
  intros H [i Hi]%list_elem_of_lookup. destruct (Forall2_lookup_r _ _ _ _ _ H Hi) as (row & Hr & Hs).
  exists row. split; [|done]. by eapply list_elem_of_lookup_2.
Qed.

Lemma occurrences_ok sources :
  Forall tree_ok sources -> Forall (fun e => tree_ok e.2) (occurrences sources).
Proof.
  rewrite !Forall_forall. intros H e (src & Hs & He)%elem_of_occurrences path m k Hm.
  apply (H src Hs (e.1 :: path) m k). cbn. by rewrite He.
Qed.

Lemma build_spec fuel sources :
  (heights sources <= fuel)%nat -> Forall tree_ok sources -> builds sources (build_children fuel sources).
Proof.
  revert sources. induction fuel as [|fuel IH]; intros sources Hh Hok it c Hc.
  { cbn. split; [done|]. split; [done|]. intros. constructor; [constructor| |constructor|set_solver..].
    intros key. rewrite kids_flat by done. cbn. by rewrite elem_of_nil. }
  cbn [build_children fst snd].
  pose proof (groups_spec (occurrences sources) c Hc (occurrences_ok _ Hok)) as Hg.
  destruct (foldl group_step (∅, c) (occurrences sources)) as [g c1]. destruct Hg as [Hc1 Hg].
  set (rs := sort_by (le_of row_cmp) (entries g)).
  assert (rs ≡ₚ map_to_list g) as Hp by (unfold rs; by rewrite sort_by_perm, entries_perm).
  assert (forall key acc, (key, acc) ∈ rs -> g !! key = Some acc) as Hin.
  { intros key acc H. rewrite Hp in H. by apply elem_of_map_to_list. }
  assert (forall key acc, (key, acc) ∈ rs -> kids key sources <> [] /\ sub_sources acc = kids key sources /\
    forall k, read_acc k acc = sat_sum (read k) (kids key sources)) as Hrow.
  { intros key acc H. specialize (Hg key). unfold row_ok in Hg. rewrite (Hin _ _ H) in Hg.
    destruct Hg as (Hne & Hs & Hsum). unfold kids. rewrite <- Hs. split; [|done].
    rewrite Hs. by destruct (calls_of key _). }
  pose proof (rows_spec (build_children fuel) rs it c1) as H.
  destruct (foldl _ _ rs) as [rows [it' c']]. destruct H as (Hc' & G & H); [|done|].
  { intros [key acc] Hr. cbn [snd]. destruct (Hrow _ _ Hr) as (_ & -> & _).
    apply IH; [by apply kids_heights|by apply kids_ok]. }
  split; [done|]. split; [done|]. intros strs Hoki Hpre Hl. specialize (H strs Hoki Hpre Hl).
  assert (forall f, f ∈ rows -> exists key acc, (key, acc) ∈ rs /\ node_key strs f = key /\ shows strs (key, acc) f) as Hf.
  { intros f Hf. destruct (shows_row _ _ _ _ H Hf) as ([key acc] & Hr & Hs). exists key, acc.
    split; [done|]. split; [|done]. apply (shows_key _ _ _ Hs). }
  constructor.
  - rewrite (shows_keys _ _ _ H), Hp. apply NoDup_fst_map_to_list.
  - intros key. rewrite (shows_keys _ _ _ H), Hp. split.
    + intros ([key' acc] & -> & He)%list_elem_of_fmap. rewrite <- Hp in He. by apply Hrow in He as [? _].
    + intros Hne. specialize (Hg key). unfold row_ok in Hg. destruct (g !! key) as [acc|] eqn:E.
      * apply list_elem_of_fmap. exists (key, acc). split; [done|]. by apply elem_of_map_to_list.
      * unfold kids in Hne. by rewrite Hg in Hne.
  - apply (shows_sorted _ _ _ H). apply sort_by_le_of. apply _.
  - intros f k (key & acc & Hr & -> & Hs)%Hf. rewrite (shows_counters _ _ _ Hs). by apply Hrow.
  - intros f (key & acc & Hr & -> & Hs)%Hf. destruct (Hrow _ _ Hr) as (_ & <- & _). apply (shows_children _ _ _ Hs).
Qed.

(** ** Rows and call stacks *)

Lemma calls_of_bind {A} key (f : A -> list (Z * StackNode)) l :
  calls_of key (l ≫= f) = l ≫= fun x => calls_of key (f x).
Proof.
  induction l as [|x l IH]; [done|]. rewrite !bind_cons, <- IH. unfold calls_of. by rewrite filter_app.
Qed.

(** [along], with the address path of each node. *)
Definition located_step (key : SymbolKey) (l : list (list Z * StackNode)) : list (list Z * StackNode) :=
  l ≫= fun e => map (fun x => (e.1 ++ [x.1], x.2)) (calls_of key (entries (children e.2))).

Fixpoint located (path : list SymbolKey) (l : list (list Z * StackNode)) : list (list Z * StackNode) :=
  match path with
  | [] => l
  | key :: path => located path (located_step key l)
  end.

Lemma located_step_snd key l : map snd (located_step key l) = kids key (map snd l).
Proof.
  unfold located_step, kids, occurrences. induction l as [|e l IH]; [done|].
  cbn [map]. rewrite !bind_cons, map_app, IH. unfold calls_of. rewrite filter_app, map_app. f_equal.
  by rewrite map_map.
Qed.

Lemma located_snd path l : map snd (located path l) = along path (map snd l).
Proof.
  revert l. induction path as [|key path IH]; intros l; [done|]. cbn [located along].
  by rewrite IH, located_step_snd.
Qed.

(** The nodes of [root] at the address paths that read [keys] as symbols. *)
Definition all_located (root : StackNode) (keys : list SymbolKey) (l : list (list Z * StackNode)) : Prop :=
  NoDup l /\ forall q n, (q, n) ∈ l <-> node_at q root = Some n /\ map key_at q = keys.

Lemma node_at_snoc q a n : node_at (q ++ [a]) n = node_at q n ≫= fun m => children m !! a.
Proof.
  revert n. induction q as [|b q IH]; intros n; cbn [node_at app].
  - cbn. by destruct (children n !! a).
  - destruct (children n !! b) as [m|]; [|done]. cbn. apply IH.
Qed.

Lemma located_step_all root keys key l :
  all_located root keys l -> all_located root (keys ++ [key]) (located_step key l).
Proof.
  intros [Hnd Hl]. unfold located_step. split.
  - apply NoDup_bind; [|intros e _|done].
    + intros [q1 n1] [q2 n2] y H1 H2 (x1 & -> & _)%list_elem_of_fmap (x2 & E & _)%list_elem_of_fmap.
      injection E as [E _]%app_inj_tail _. cbn in E. subst q2. apply Hl in H1 as [H1 _], H2 as [H2 _]. congruence.
    + apply NoDup_fmap_2.
      * intros [a1 c1] [a2 c2] [= [_ <-]%app_inj_tail <-]. done.
      * unfold calls_of. apply NoDup_filter. rewrite entries_perm. apply NoDup_map_to_list.
  - intros q n. rewrite list_elem_of_bind. split.
    + intros ([q' m] & ([a c] & [= -> ->] & [Hk Hc]%list_elem_of_filter)%list_elem_of_fmap & He).
      rewrite entries_perm, elem_of_map_to_list in Hc. apply Hl in He as [He <-]. cbn in *.
      rewrite node_at_snoc, He, map_app. cbn. by rewrite Hk.
    + intros [Hn Hk]. destruct (decide (q = [])) as [->|Hne]; [by destruct keys|].
      apply exists_last in Hne as (q' & a & ->). rewrite map_app in Hk.
      apply app_inj_tail in Hk as [Hk Ha]. rewrite node_at_snoc in Hn.
      destruct (node_at q' root) as [m|] eqn:Hm; [|done]. cbn in Hn. exists (q', m).
      split; [|by apply Hl]. apply list_elem_of_fmap. exists (a, n). split; [done|].
      apply list_elem_of_filter. split; [done|]. rewrite entries_perm. by apply elem_of_map_to_list.
Qed.

Lemma located_all root keys path l :
  all_located root keys l -> all_located root (keys ++ path) (located path l).
Proof.
  revert keys l. induction path as [|key path IH]; intros keys l H; [by rewrite app_nil_r|].
  cbn [located]. replace (keys ++ key :: path) with ((keys ++ [key]) ++ path) by (by rewrite <- app_assoc).
  apply IH. by apply located_step_all.
Qed.

Lemma located_root root path : all_located root path (located path [([], root)]).
Proof.
  apply (located_all root []). split; [repeat constructor; set_solver|].
  intros q n. rewrite list_elem_of_singleton. split.
  - by intros [= -> ->].
  - intros [Hn Hk]. destruct q as [|a q]; [|done]. cbn in Hn. congruence.
Qed.

(** Whether a call stack, as symbols and outermost first, starts with a path. *)
Definition on_symbols (path : list SymbolKey) (c : credit) : bool :=
  bool_decide (path `prefix_of` map key_at (reverse (credit_stack c))).

Definition symbols_weight (k : counter) (path : list SymbolKey) (c : credit) : Z :=
  if on_symbols path c then weight k c else 0.

Lemma located_credit k path cs c :
  path <> [] -> c ∈ cs ->
  sum_of (fun e => path_weight k e.1 c) (located path [([], (apply_credits cs).1)]) = symbols_weight k path c.
Proof.
  intros Hne Hc. destruct (located_root (apply_credits cs).1 path) as [Hnd Hl].
  set (l := located _ _) in *. set (st := reverse (credit_stack c)).
  assert (forall e, e ∈ l -> on_path e.1 c = true -> e.1 = take (length path) st /\ on_symbols path c = true) as Hon.
  { intros [q n] [_ <-]%Hl Hq%bool_decide_eq_true. cbn [fst] in *. fold st in Hq. destruct Hq as [r Hr].
    rewrite length_map. split; [by rewrite Hr, take_app_length|].
    apply bool_decide_eq_true. fold st. rewrite Hr, map_app. by apply prefix_app_r. }
  unfold symbols_weight. destruct (on_symbols path c) eqn:E.
  - apply bool_decide_eq_true in E. fold st in E. destruct E as [r Hr].
    set (q := take (length path) st).
    assert (map key_at q = path) as Hq by (unfold q; by rewrite <- firstn_map, Hr, take_app_length).
    assert (on_path q c = true) as Hp by (apply bool_decide_eq_true; apply prefix_take).
    assert (q <> []) as Hq0 by (intros E; by rewrite E in Hq).
    destruct (proj2 (node_at_apply_credits q cs Hq0)) as [n Hn]; [by exists c|].
    assert ((q, n) ∈ l) as Hin by (by apply Hl).
    rewrite (sum_of_single _ (q, n)); [unfold path_weight; cbn; by rewrite Hp|done|done|].
    intros [q' n'] Hin' Hd. unfold path_weight. destruct (on_path (q', n').1 c) eqn:Ep; [|done].
    exfalso. apply Hd. destruct (Hon _ Hin' Ep) as [Eq _]. cbn [fst] in Eq. change (q' = q) in Eq.
    apply Hl in Hin as [H1 _], Hin' as [H2 _]. rewrite Eq in H2 |- *. congruence.
  - rewrite (sum_of_ext _ (fun _ => 0)).
    + rewrite sum_of_const. lia.
    + intros e He. unfold path_weight. destruct (on_path e.1 c) eqn:Ep; [|done].
      destruct (Hon _ He Ep) as [_ ?]. congruence.
Qed.

Lemma along_sum k path cs :
  Forall credit_ok cs -> path <> [] ->
  sat_sum (read k) (along path [(apply_credits cs).1]) = sat_sum (symbols_weight k path) cs.
Proof.
  intros Hok Hne. set (root := (apply_credits cs).1).
  change [root] with (map (snd (A := list Z)) [([], root)]). rewrite <- located_snd.
  destruct (located_root root path) as [_ Hl]. set (l := located path [([], root)]) in *.
  unfold sat_sum. rewrite sum_of_map.
  rewrite (sum_of_ext _ (fun e => Z.min (sum_of (path_weight k e.1) cs) u64_max)).
  - rewrite sum_of_clamped; [|apply Forall_forall; intros e _|width; lia].
    + rewrite (sum_of_exchange (fun e c => path_weight k e.1 c)). f_equal. apply sum_of_ext.
      intros c Hc. by apply located_credit.
    + apply sum_of_nonneg. eapply Forall_impl; [exact Hok|]. intros c. apply path_weight_nonneg.
  - intros [q n] [Hn Hq]%Hl. cbn [fst snd].
    assert (q <> []) as Hq0 by (intros E; rewrite E in Hq; by apply Hne).
    pose proof (read_at_apply_credits k q cs Hok Hq0) as H. unfold read_at in H. fold root in H.
    rewrite Hn in H. exact H.
Qed.

Lemma along_credits path cs :
  path <> [] ->
  along path [(apply_credits cs).1] <> [] <-> exists c, c ∈ cs /\ on_symbols path c = true.
Proof.
  intros Hne. set (root := (apply_credits cs).1).
  change [root] with (map (snd (A := list Z)) [([], root)]). rewrite <- located_snd.
  destruct (located_root root path) as [_ Hl]. set (l := located path [([], root)]) in *. split.
  - destruct l as [|[q n] l'] eqn:El; [done|]. intros _.
    destruct (proj1 (Hl q n)) as [Hn Hq]; [left|].
    assert (q <> []) as Hq0 by (intros E; rewrite E in Hq; by apply Hne).
    destruct (proj1 (node_at_apply_credits q cs Hq0)) as (c & Hc & Hp); [by exists n|].
    exists c. split; [done|]. apply bool_decide_eq_true in Hp as [r Hr]. apply bool_decide_eq_true.
    rewrite Hr, map_app, Hq. by apply prefix_app_r.
  - intros (c & Hc & [r Hr]%bool_decide_eq_true). set (q := take (length path) (reverse (credit_stack c))).
    assert (map key_at q = path) as Hq by (unfold q; by rewrite <- firstn_map, Hr, take_app_length).
    assert (q <> []) as Hq0 by (intros E; rewrite E in Hq; by apply Hne).
    destruct (proj2 (node_at_apply_credits q cs Hq0)) as [n Hn].
    { exists c. split; [done|]. apply bool_decide_eq_true, prefix_take. }
    assert ((q, n) ∈ l) as Hin by (by apply Hl). by destruct l; [apply elem_of_nil in Hin|].
Qed.

(** The row at a path of symbols. *)
Fixpoint cell (strs : list (list Z)) (path : list SymbolKey) (rows : list FlameNode) : option FlameNode :=
  match path with
  | [] => None
  | key :: path =>
      match list_find (fun f => node_key strs f = key) rows with
      | Some (_, f) => match path with [] => Some f | _ => cell strs path (f_children f) end
      | None => None
      end
  end.

Lemma along_nil path : along path [] = [].
Proof. by induction path. Qed.

Lemma cell_spec strs path sources rows :
  flame_of strs sources rows -> path <> [] ->
  match cell strs path rows with
  | Some f => along path sources <> [] /\ forall k, read_flame k f = sat_sum (read k) (along path sources)
  | None => along path sources = []
  end.
Proof.
  revert sources rows. induction path as [|key path IH]; intros sources rows H Hne; [done|].
  destruct H as [sources rows Hnd Hkeys _ Hread Hsub]. cbn [cell along].
  destruct (list_find _ rows) as [[i f]|] eqn:E.
  - apply list_find_Some in E as (Hi & <- & _). apply list_elem_of_lookup_2 in Hi.
    destruct path as [|key' path].
    + cbn [along]. split; [|by intros k; apply Hread]. apply Hkeys. apply list_elem_of_fmap. by exists f.
    + apply IH; [by apply Hsub|done].
  - apply list_find_None in E. assert (kids key sources = []) as ->; [|apply along_nil].
    destruct (kids key sources) as [|c l] eqn:Ek; [done|]. exfalso.
    assert (key ∈ map (node_key strs) rows) as (f & Hf & Hin)%list_elem_of_fmap by (apply Hkeys; congruence).
    rewrite Forall_forall in E. by apply (E f Hin).
Qed.

Lemma credits_tree_ok cs : Forall credit_ok cs -> tree_ok (apply_credits cs).1.
Proof.
  intros Hok path m k Hm. destruct (decide (path = [])) as [->|Hne].
  - cbn in Hm. injection Hm as <-. rewrite read_root_apply_credits. lia.
  - pose proof (read_at_apply_credits k path cs Hok Hne) as H. unfold read_at in H. rewrite Hm in H.
    cbn in H. rewrite H. unfold sat_sum. apply Z.min_glb; [|width; lia].
    apply sum_of_nonneg. eapply Forall_impl; [exact Hok|]. intros c. apply path_weight_nonneg.
Qed.

(** ** Folding *)

Lemma FlameNode_rect' (P : FlameNode -> Prop) :
  (forall f, Forall P (f_children f) -> P f) -> forall f, P f.
Proof.
  intros H. fix go 1. intros f. apply H. destruct f as [? ? ? ? ? ? ? ? ? ? ? ? ? ? ? ? l]. cbn.
  induction l as [|c l IH]; constructor; [apply go|apply IH].
Qed.

Definition sym : Type := option Z * option Z.

Definition sym_of (f : FlameNode) : sym := (f_function_name f, f_binary f).

(** A row without the rows below it. *)
Definition row_data (f : FlameNode) : FlameNode := f <| f_children := [] |>.

(** The rows of a tree in the order they are drawn, each with the symbols from
    the top down to it. *)
Fixpoint cells (above : list sym) (f : FlameNode) : list (list sym * FlameNode) :=
  (above ++ [sym_of f], row_data f) :: (f_children f ≫= cells (above ++ [sym_of f])).

(** A named symbol that calls itself. *)
Definition recursive (caller callee : sym) : bool :=
  bool_decide (is_Some callee.1) && bool_decide (callee = caller).

(** A stack with directly recursive calls counted once. *)
Fixpoint collapse (path : list sym) : list sym :=
  match path with
  | a :: (b :: _) as rest => if recursive a b then collapse rest else a :: collapse rest
  | _ => path
  end.

Definition folded (path : list sym) : bool :=
  match reverse path with
  | callee :: caller :: _ => recursive caller callee
  | _ => false
  end.

Lemma symbol_eq_recursive c f : symbol_eq c f = recursive (sym_of f) (sym_of c).
Proof.
  unfold symbol_eq, recursive, sym_of. cbn. rewrite <- andb_assoc. f_equal.
  apply eq_true_iff_eq. rewrite andb_true_iff, !bool_decide_eq_true. split; [by intros [-> ->]|by intros [= -> ->]].
Qed.

Lemma collapse_snoc r a b :
  collapse (r ++ [a; b]) = if recursive a b then collapse (r ++ [a]) else collapse (r ++ [a]) ++ [b].
Proof.
  induction r as [|x r IH]; cbn [app].
  - cbn [collapse]. destruct (recursive a b) eqn:E; [|done].
    apply andb_true_iff in E as [_ E%bool_decide_eq_true]. by subst.
  - destruct r as [|y r]; cbn [app] in *.
    + change (collapse (x :: a :: [b])) with (if recursive x a then collapse (a :: [b]) else x :: collapse (a :: [b])).
      change (collapse (x :: [a])) with (if recursive x a then [a] else [x; a]).
      rewrite IH. cbn [collapse]. by destruct (recursive x a), (recursive a b).
    + change (collapse (x :: y :: r ++ [a; b])) with
        (if recursive x y then collapse (y :: r ++ [a; b]) else x :: collapse (y :: r ++ [a; b])).
      change (collapse (x :: y :: r ++ [a])) with
        (if recursive x y then collapse (y :: r ++ [a]) else x :: collapse (y :: r ++ [a])).
      rewrite IH. by destruct (recursive x y), (recursive a b).
Qed.

Lemma folded_snoc r a b : folded (r ++ [a; b]) = recursive a b.
Proof. unfold folded. by rewrite reverse_app. Qed.

(** The rows below one whose collapsed path is [path]. *)
Fixpoint below (path : list sym) (f : FlameNode) : list (list sym * FlameNode) :=
  f_children f ≫= fun c =>
    if symbol_eq c f then below path c
    else (path ++ [sym_of c], row_data c) :: below (path ++ [sym_of c]) c.

Lemma cells_below f r :
  omap (fun e => if folded e.1 then None else Some (collapse e.1, e.2)) (cells r f) =
  (if folded (r ++ [sym_of f]) then [] else [(collapse (r ++ [sym_of f]), row_data f)]) ++
  below (collapse (r ++ [sym_of f])) f.
Proof.
  revert r. induction f as [f IH] using FlameNode_rect'. intros r.
  assert (forall r' l, Forall (fun f => forall r, omap (fun e => if folded e.1 then None else Some (collapse e.1, e.2)) (cells r f) =
    (if folded (r ++ [sym_of f]) then [] else [(collapse (r ++ [sym_of f]), row_data f)]) ++
    below (collapse (r ++ [sym_of f])) f) l ->
    omap (fun e => if folded e.1 then None else Some (collapse e.1, e.2)) (l ≫= cells (r' ++ [sym_of f])) =
    l ≫= fun c => if symbol_eq c f then below (collapse (r' ++ [sym_of f])) c
      else (collapse (r' ++ [sym_of f]) ++ [sym_of c], row_data c) :: below (collapse (r' ++ [sym_of f]) ++ [sym_of c]) c) as H.
  { intros r' l Hl. induction Hl as [|c l Hc Hl IHl]; [done|].
    rewrite !bind_cons, omap_app, IHl, Hc. f_equal.
    rewrite <- app_assoc. cbn [app]. rewrite folded_snoc, collapse_snoc, symbol_eq_recursive.
    by destruct (recursive _ _). }
  destruct f as [? ? ? ? ? ? ? ? ? ? ? ? ? ? ? ? l]. cbn [cells omap list_omap below f_children].
  rewrite H by done. by destruct (folded _).
Qed.

(** The children that take a place in the end. *)
Fixpoint hoist (node : FlameNode) (c : FlameNode) : list FlameNode :=
  if symbol_eq c node then f_children c ≫= hoist node else [c].

Lemma splice_loop_spec fuel node done todo :
  (sum_list_with nodes todo <= fuel)%nat -> splice_loop fuel node done todo = done ++ (todo ≫= hoist node).
Proof.
  revert done todo. induction fuel as [|fuel IH]; intros done [|c todo] H; cbn [splice_loop].
  1, 3: by rewrite app_nil_r.
  - destruct c; cbn in H; lia.
  - rewrite bind_cons. assert (hoist node c = if symbol_eq c node then f_children c ≫= hoist node else [c]) as ->
      by (by destruct c).
    assert (nodes c = S (sum_list_with nodes (f_children c))) as Hc by (by destruct c). cbn in H.
    destruct (symbol_eq c node).
    + rewrite IH, bind_app; [done|]. rewrite sum_list_with_app. lia.
    + rewrite IH by lia. by rewrite <- app_assoc.
Qed.

Lemma hoist_nodes node c x : x ∈ hoist node c -> (nodes x <= nodes c)%nat.
Proof.
  revert x. induction c as [c IH] using FlameNode_rect'. intros x.
  assert (hoist node c = if symbol_eq c node then f_children c ≫= hoist node else [c]) as -> by (by destruct c).
  assert (nodes c = S (sum_list_with nodes (f_children c))) as -> by (by destruct c).
  destruct (symbol_eq c node); [|intros ->%list_elem_of_singleton; by destruct c].
  intros (d & Hx & Hd)%list_elem_of_bind. rewrite Forall_forall in IH. specialize (IH d Hd x Hx).
  pose proof (sum_list_with_in d nodes (f_children c) Hd). lia.
Qed.

Lemma hoist_below node path c :
  symbol_eq c node = true -> sym_of c = sym_of node ->
  (f_children c ≫= hoist node) ≫= (fun x => (path ++ [sym_of x], row_data x) :: below (path ++ [sym_of x]) x) =
  below path c.
Proof.
  induction c as [c IH] using FlameNode_rect'. intros He Hs.
  assert (below path c = f_children c ≫= fun d => if symbol_eq d c then below path d
    else (path ++ [sym_of d], row_data d) :: below (path ++ [sym_of d]) d) as -> by (by destruct c).
  clear He. induction IH as [|d l Hd Hl IHl]; [done|]. rewrite !bind_cons, bind_app, IHl. f_equal.
  assert (hoist node d = if symbol_eq d node then f_children d ≫= hoist node else [d]) as -> by (by destruct d).
  rewrite !symbol_eq_recursive, Hs in *. destruct (recursive _ _) eqn:E.
  - apply Hd; [done|]. apply andb_true_iff in E as [_ E]. by apply bool_decide_eq_true in E.
  - cbn. by rewrite app_nil_r.
Qed.

Lemma map_bind {A B C} (g : A -> B) (h : B -> list C) l : map g l ≫= h = l ≫= fun x => h (g x).
Proof. induction l as [|x l IH]; [done|]. cbn [map]. by rewrite !bind_cons, IH. Qed.

Lemma bind_ext {A B} (f g : A -> list B) l : (forall x, x ∈ l -> f x = g x) -> l ≫= f = l ≫= g.
Proof.
  induction l as [|x l IH]; intros H; [done|]. rewrite !bind_cons, H, IH by set_solver. done.
Qed.

Lemma bind_assoc_list {A B C} (f : A -> list B) (g : B -> list C) l :
  (l ≫= f) ≫= g = l ≫= fun x => f x ≫= g.
Proof. induction l as [|x l IH]; [done|]. by rewrite !bind_cons, bind_app, IH. Qed.

Lemma fold_from_cells fuel f path :
  (nodes f <= fuel)%nat ->
  cells path (fold_from fuel f) = (path ++ [sym_of f], row_data f) :: below (path ++ [sym_of f]) f.
Proof.
  revert f path. induction fuel as [|fuel IH]; intros f path Hf; [destruct f; cbn in Hf; lia|].
  assert (nodes f = S (sum_list_with nodes (f_children f))) as Hn by (by destruct f).
  cbn [fold_from]. rewrite splice_loop_spec by done. cbn [app].
  set (hoisted := f_children f ≫= hoist f).
  transitivity ((path ++ [sym_of f], row_data f) :: (map (fold_from fuel) hoisted ≫= cells (path ++ [sym_of f])));
    [by destruct f|]. f_equal.
  rewrite map_bind.
  rewrite (bind_ext _ (fun x => ((path ++ [sym_of f]) ++ [sym_of x], row_data x) ::
                                below ((path ++ [sym_of f]) ++ [sym_of x]) x)).
  2: { intros x (c & Hx & Hc)%list_elem_of_bind. apply IH. pose proof (hoist_nodes _ _ _ Hx).
       pose proof (sum_list_with_in c nodes (f_children f) Hc). lia. }
  unfold hoisted. rewrite bind_assoc_list.
  assert (below (path ++ [sym_of f]) f = f_children f ≫= fun c =>
    if symbol_eq c f then below (path ++ [sym_of f]) c
    else ((path ++ [sym_of f]) ++ [sym_of c], row_data c) :: below ((path ++ [sym_of f]) ++ [sym_of c]) c) as ->
    by (by destruct f).
  apply bind_ext. intros c _.
  assert (hoist f c = if symbol_eq c f then f_children c ≫= hoist f else [c]) as -> by (by destruct c).
  destruct (symbol_eq c f) eqn:E.
  - apply hoist_below; [done|]. rewrite symbol_eq_recursive in E.
    apply andb_true_iff in E as [_ E]. by apply bool_decide_eq_true in E.
  - cbn. by rewrite app_nil_r.
Qed.

Lemma last_collapse r a : exists r', collapse (r ++ [a]) = r' ++ [a].
Proof.
  induction r as [|x r IH]; [by exists []|]. destruct IH as [r' IH]. cbn [app].
  destruct (r ++ [a]) as [|y l] eqn:E; [by destruct r|].
  change (collapse (x :: y :: l)) with (if recursive x y then collapse (y :: l) else x :: collapse (y :: l)).
  rewrite IH. destruct (recursive x y); [by exists r'|by exists (x :: r')].
Qed.

Lemma folded_collapse path : folded path = false -> folded (collapse path) = false.
Proof.
  destruct path as [|b path _] using rev_ind; [done|]. destruct path as [|a path _] using rev_ind; [done|].
  rewrite <- app_assoc. cbn [app]. rewrite folded_snoc, collapse_snoc. intros E. rewrite E.
  destruct (last_collapse path a) as [r' ->]. rewrite <- app_assoc. cbn [app]. by rewrite folded_snoc.
Qed.

(** Folding recursion drops exactly the rows of a named symbol that calls
    itself directly: the rows left keep their counters and their order, each under
    its stack with such calls counted once, and none is left under a row of its
    own symbol. *)
Theorem fold_recursion_exact f :
  cells [] (fold_recursion f) =
    omap (fun e => if folded e.1 then None else Some (collapse e.1, e.2)) (cells [] f) /\
  Forall (fun e => folded e.1 = false) (cells [] (fold_recursion f)).
Proof.
  assert (cells [] (fold_recursion f) =
    omap (fun e => if folded e.1 then None else Some (collapse e.1, e.2)) (cells [] f)) as H.
  { unfold fold_recursion. rewrite fold_from_cells by done. by rewrite cells_below. }
  split; [done|]. rewrite H. apply Forall_forall. intros e (e' & _ & He)%list_elem_of_omap.
  destruct (folded e'.1) eqn:E; [done|]. injection He as <-. by apply folded_collapse.
Qed.

(** C21. The flame graph shows symbols exactly. Before recursion is folded, a
    path of symbols has a row if and only if some credited stack reads so from its
    outermost frame on, it has only one, and each counter of the row is the sum,
    clamped once, of what the stacks that read so were credited with: however
    many addresses a symbol is called at, and in whatever order the hash maps are
    iterated. Rows are longest first. *)
Theorem flame_rows_exact a cs :
  Forall credit_ok cs -> flame_root a = (apply_credits cs).1 ->
  let u := compute_flame_update a in
  Z.of_nat (length (fu_strings u)) <= 2 ^ 32 ->
  exists rows,
    f_children (fu_root u) = map fold_recursion rows /\
    flame_of (fu_strings u) [flame_root a] rows /\
    forall path, path <> [] ->
      match cell (fu_strings u) path rows with
      | Some f => (exists c, c ∈ cs /\ on_symbols path c = true) /\
          forall k, read_flame k f = sat_sum (symbols_weight k path) cs
      | None => forall c, c ∈ cs -> on_symbols path c = false
      end.
Proof.
  intros Hok Hr u Hl. subst u. unfold compute_flame_update in *. rewrite Hr in *.
  set (root := (apply_credits cs).1) in *.
  pose proof (build_spec (heights [root]) [root] ltac:(lia)
    ltac:(constructor; [by apply credits_tree_ok|constructor]) interner_new ∅) as Hb.
  destruct (build_children _ _ _) as [rows [it c]]. destruct Hb as (_ & G & Hrows); [done|].
  pose proof (intern_grows (Demangle.as_str Demangle.Unknown) it) as G1. destruct (intern _ it) as [lang it1].
  pose proof (intern_grows (str "(all)") it1) as G2. destruct (intern _ it1) as [all it2].
  cbn [fu_strings fu_root f_children fst snd] in *. exists rows. split; [done|].
  assert (flame_of (strings it2) [root] rows) as Hf.
  { apply Hrows; [apply interner_new_ok| |done]. trans (strings it1); [apply G1|apply G2]. }
  split; [done|]. intros path Hne. pose proof (cell_spec _ path _ _ Hf Hne) as Hc.
  destruct (cell _ path rows) as [f|].
  - destruct Hc as [Ha Hk]. split; [by apply along_credits|]. intros k. rewrite Hk. by apply along_sum.
  - intros c' Hc'. destruct (on_symbols path c') eqn:E; [|done]. exfalso.
    apply (proj2 (along_credits path cs Hne)); [by exists c'|done].
Qed.

End Build.

(** ** Examples *)

#[local] Existing Instance canonical_order.
#[local] Existing Instance demo_table.

(** [f] also calls itself. *)
Definition demo_stacks : list credit :=
  [CreditOn [30; 20; 10] 400 (mkPmuSample 5 6 7 8) false None;
   CreditOn [30; 21; 20; 10] 100 pmu_default false None;
   CreditOff [21; 10] LockWait 70].

Definition demo_aggregation : Aggregation :=
  aggregation_new <| flame_root := (apply_credits demo_stacks).1 |>.

Lemma flame_demo_ok : Forall credit_ok demo_stacks.
Proof. repeat constructor; try lia; try (intros []; vm_compute; congruence); vm_compute; congruence. Qed.

Lemma flame_rows_exact_witness :
  exists rows f, f_children (fu_root (compute_flame_update demo_aggregation)) = map fold_recursion rows /\
    cell (fu_strings (compute_flame_update demo_aggregation)) [demo_key "main"; demo_key "f"] rows = Some f /\
    f_on_cpu_ns f = 500 /\ total_ns (f_off_cpu f) = 70 /\ f_instructions f = 6.
Proof.
  destruct (flame_rows_exact demo_aggregation demo_stacks flame_demo_ok eq_refl) as (rows & Hr & _ & H).
  { vm_compute. discriminate. }
  specialize (H [demo_key "main"; demo_key "f"] ltac:(discriminate)).
  destruct (cell _ _ rows) as [f|] eqn:E.
  - destruct H as [_ H]. exists rows, f. split; [exact Hr|]. split; [exact E|].
    split; [exact (eq_trans (H OnCpuNs) ltac:(vm_compute; reflexivity))|].
    split; [|exact (eq_trans (H (Pmc Instructions)) ltac:(vm_compute; reflexivity))].
    rewrite total_ns_sum.
    + unfold sat_sum, all_reasons, sum_of. cbn [foldr].
      change (read_reason ?r (f_off_cpu f)) with (read_flame (OffCpuNs r) f). rewrite !H. vm_compute. reflexivity.
    + intros r. change (read_reason r (f_off_cpu f)) with (read_flame (OffCpuNs r) f). rewrite H.
      destruct r; vm_compute; discriminate.
  - exfalso. specialize (H (CreditOff [21; 10] LockWait 70) ltac:(right; right; left)). vm_compute in H. discriminate.
Defined.

(** Folding can put one symbol into two rows: a function called both by a
    recursive function and by its inner call has two rows under the one row that
    is left of them. *)
Theorem folding_splits_symbol :
  exists cs m f g1 g2,
    Forall credit_ok cs /\
    let u := compute_flame_update (aggregation_new <| flame_root := (apply_credits cs).1 |>) in
    f_children (fu_root u) = [m] /\ f_children m = [f] /\ f_children f = [g1; g2] /\
    node_key (fu_strings u) g1 = demo_key "g" /\ node_key (fu_strings u) g2 = demo_key "g".
Proof.
  exists demo_stacks. do 4 eexists. split; [apply flame_demo_ok|]. vm_compute.
  split; [reflexivity|]. split; [reflexivity|]. split; [reflexivity|]. split; reflexivity.
Qed.

End Flame.
