(* ===== verification/Top.v ===== *)
(** * The list of hottest symbols

    [group_top_entries] of [stax-live/src/lib.rs]: the per-address rollups of an
    aggregation are grouped by symbol, sorted and cut at a limit. *)

From S2P Require Import Prelude Order Text Demangle Binaries Aggregate Symbols.

Module Top.

Import Order Symbols Aggregate.

Inductive TopSort := BySelf | ByTotal.

(** The counters of an entry, which has them field by field, are an
    [AddressStats] here, as are those of a group. *)
Record TopEntry := mkTopEntry {
  t_address : Z;
  t_function_name : option (list Z);
  t_binary : option (list Z);
  t_is_main : bool;
  t_language : list Z;
  t_stats : AddressStats
}.

Record Agg := mkAgg {
  g_address : Z;
  representative_self_ns : Z;
  g_stats : AddressStats;
  g_function_name : option (list Z);
  g_binary : option (list Z);
  g_is_main : bool;
  g_language : Demangle.Language
}.

#[export] Instance eta_Agg : Eta Agg := fun g =>
  mkAgg (g_address g) (representative_self_ns g) (g_stats g) (g_function_name g) (g_binary g)
    (g_is_main g) (g_language g).

Definition off_cpu_total_proto (b : OffCpuBreakdown) : Z :=
  sadd64 (sadd64 (sadd64 (sadd64 (sadd64 (sadd64 (sadd64 (sadd64 (sadd64
    (idle_ns b) (lock_ns b)) (semaphore_ns b)) (ipc_ns b)) (io_read_ns b)) (io_write_ns b))
    (readiness_ns b)) (sleep_ns b)) (connect_ns b)) (other_ns b).

Definition add_stats (s g : AddressStats) : AddressStats :=
  g <| self_on_cpu_ns ::= fun x => sadd64 x (self_on_cpu_ns s) |>
    <| total_on_cpu_ns ::= fun x => sadd64 x (total_on_cpu_ns s) |>
    <| self_target_ns ::= fun x => sadd64 x (self_target_ns s) |>
    <| total_target_ns ::= fun x => sadd64 x (total_target_ns s) |>
    <| self_off_cpu ::= add_other (self_off_cpu s) |>
    <| total_off_cpu ::= add_other (total_off_cpu s) |>
    <| self_pet_samples ::= fun x => sadd64 x (self_pet_samples s) |>
    <| total_pet_samples ::= fun x => sadd64 x (total_pet_samples s) |>
    <| self_target_spans ::= fun x => sadd64 x (self_target_spans s) |>
    <| total_target_spans ::= fun x => sadd64 x (total_target_spans s) |>
    <| self_off_cpu_intervals ::= fun x => sadd64 x (self_off_cpu_intervals s) |>
    <| total_off_cpu_intervals ::= fun x => sadd64 x (total_off_cpu_intervals s) |>
    <| self_pmc ::= pmc_add_other (self_pmc s) |>
    <| total_pmc ::= pmc_add_other (total_pmc s) |>
    <| addr_target_kind ::= set_target_kind (addr_target_kind s) |>.

(** Stable tie-breaks: name, binary, address. *)
Definition top_cmp (sort : TopSort) (a b : TopEntry) : comparison :=
  let self e := sadd64 (self_on_cpu_ns (t_stats e)) (off_cpu_total_proto (self_off_cpu (t_stats e))) in
  let total e := sadd64 (total_on_cpu_ns (t_stats e)) (off_cpu_total_proto (total_off_cpu (t_stats e))) in
  let primary := match sort with
                 | BySelf => then_with (self b ?= self a) (total b ?= total a)
                 | ByTotal => then_with (total b ?= total a) (self b ?= self a)
                 end in
  then_with primary
    (then_with (name_cmp (t_function_name a) (t_function_name b))
      (then_with (name_cmp (t_binary a) (t_binary b)) (t_address a ?= t_address b))).

Section Query.
Context `{Order : MapOrder} `{Table : SymbolTable}.

(** The group of an address: its symbol, or the address itself. *)
Definition group_name (address : Z) : list Z * list Z :=
  match lookup_symbol address with
  | Some r => (function_name r, binary r)
  | None => (Bin.hex_literal address, [])
  end.

Definition group_first (e : Z * AddressStats) : Agg :=
  let r := lookup_symbol e.1 in
  mkAgg e.1 (self_on_cpu_ns e.2) e.2 (fst (symbol_key r)) (snd (symbol_key r)) (symbol_main r)
    (symbol_language r).

Definition group_add (e : Z * AddressStats) (g : Agg) : Agg :=
  let g := g <| g_stats ::= add_stats e.2 |> in
  if decide (representative_self_ns g < self_on_cpu_ns e.2)
  then g <| g_address := e.1 |> <| representative_self_ns := self_on_cpu_ns e.2 |> else g.

Definition groups (by_address : gmap Z AddressStats) : gmap (list Z * list Z) Agg :=
  group_all (fun e => group_name e.1) group_first group_add (entries by_address).

Definition shown (sort : TopSort) (g : Agg) : bool :=
  let s := g_stats g in
  match sort with
  | BySelf => bool_decide (0 < self_on_cpu_ns s) || bool_decide (0 < total_ns (self_off_cpu s)) ||
              bool_decide (0 < self_pet_samples s) || bool_decide (0 < self_off_cpu_intervals s)
  | ByTotal => bool_decide (0 < total_on_cpu_ns s) || bool_decide (0 < total_ns (total_off_cpu s)) ||
              bool_decide (0 < total_pet_samples s) || bool_decide (0 < total_off_cpu_intervals s)
  end.

Definition top_entry (g : Agg) : TopEntry :=
  mkTopEntry (g_address g) (g_function_name g) (g_binary g) (g_is_main g)
    (Demangle.as_str (g_language g)) (g_stats g).

Definition group_top_entries (a : Aggregation) (sort : TopSort) (limit : nat) : list TopEntry :=
  let out := map top_entry (filter (fun g => shown sort g = true) (map snd (entries (groups (by_address a))))) in
  take limit (sort_by (le_of (top_cmp sort)) out).

(** ** Lemmas *)

#[export] Instance top_ordered sort : Ordered (top_cmp sort).
Proof.
  unfold top_cmp.
  set (self := fun e => sadd64 (self_on_cpu_ns (t_stats e)) (off_cpu_total_proto (self_off_cpu (t_stats e)))).
  set (total := fun e => sadd64 (total_on_cpu_ns (t_stats e)) (off_cpu_total_proto (total_off_cpu (t_stats e)))).
  apply then_ordered.
  - destruct sort; (apply then_ordered;
      [apply (reverse_key_ordered self) || apply (reverse_key_ordered total)
      |apply (reverse_key_ordered total) || apply (reverse_key_ordered self)]; apply _).
  - apply then_ordered; [apply (key_ordered t_function_name); apply _|].
    apply then_ordered; [apply (key_ordered t_binary)|apply (key_ordered t_address)]; apply _.
Qed.

(** A half of the counters of an address. *)
Inductive half := Self | Total.

Definition read_half (h : half) : counter -> AddressStats -> Z :=
  match h with Self => read_self | Total => read_total end.

Lemma read_add_stats h k s g : read_half h k (add_stats s g) = sadd64 (read_half h k g) (read_half h k s).
Proof. by destruct h, k as [| |[]| | | |[]]. Qed.

Lemma read_group h k x l :
  Forall (fun e => 0 <= read_half h k e.2 <= u64_max) (x :: l) ->
  read_half h k (g_stats (foldl (fun g e => group_add e g) (group_first x) l)) =
  sat_sum (fun e => read_half h k e.2) (x :: l).
Proof.
  intros H. induction l as [|y l IH] using rev_ind.
  - apply Forall_cons_1 in H as [H _]. change (read_half h k x.2 = Z.min (read_half h k x.2 + 0) u64_max). lia.
  - rewrite app_comm_cons in H. apply Forall_app in H as [Hl [Hy _]%Forall_cons].
    rewrite foldl_app. cbn [foldl]. rewrite app_comm_cons, <- sat_sum_snoc, <- IH by (done || lia).
    unfold group_add. case_decide; apply read_add_stats.
Qed.

(** The representative has the most time of its own. *)
Lemma group_representative x l :
  let g := foldl (fun g e => group_add e g) (group_first x) l in
  (exists s, (g_address g, s) ∈ x :: l /\ representative_self_ns g = self_on_cpu_ns s) /\
  Forall (fun e => self_on_cpu_ns e.2 <= representative_self_ns g) (x :: l).
Proof.
  induction l as [|y l IH] using rev_ind; cbn zeta.
  - cbn. split; [|repeat constructor; cbn; lia]. exists x.2. destruct x. split; [left|done].
  - rewrite foldl_app. cbn [foldl]. destruct IH as [(s & Hs & Hr) Hmax].
    set (g := foldl _ _ l) in *. unfold group_add. rewrite app_comm_cons, Forall_app, Forall_singleton.
    case_decide as Hd; cbn in Hd |- *.
    + split; [exists y.2; destruct y; split; [set_solver|done]|].
      split; [|lia]. eapply Forall_impl; [exact Hmax|]. intros e He. cbn in *. lia.
    + split; [exists s; split; [set_solver|done]|]. split; [done|lia].
Qed.

(** ** Groups and call stacks *)

(** What a credit gives to a symbol as the leaf of the stack, and for being on
    it: once for each of the symbol's addresses. *)
Definition self_weight (k : counter) (name : list Z * list Z) (c : credit) : Z :=
  if decide (group_name <$> head (credit_stack c) = Some name) then weight k c else 0.

Definition total_weight (k : counter) (name : list Z * list Z) (c : credit) : Z :=
  Z.of_nat (length (filter (fun a => group_name a = name) (remove_dups (credit_stack c)))) * weight k c.

Definition half_weight (h : half) : counter -> list Z * list Z -> credit -> Z :=
  match h with Self => self_weight | Total => total_weight end.

Definition address_weight (h : half) : counter -> Z -> credit -> Z :=
  match h with Self => leaf_weight | Total => stack_weight end.

Lemma sum_of_if {A} (P : A -> Prop) `{!forall x, Decision (P x)} w l :
  sum_of (fun x => if bool_decide (P x) then w else 0) l = Z.of_nat (length (filter P l)) * w.
Proof.
  induction l as [|x l IH]; [done|]. rewrite sum_of_cons, IH. case_bool_decide.
  - rewrite filter_cons_True by done. cbn [length]. lia.
  - rewrite filter_cons_False by done. lia.
Qed.

Lemma NoDup_map_filter {A B} (f : A -> B) (P : A -> Prop) `{!forall x, Decision (P x)} l :
  NoDup (map f l) -> NoDup (map f (filter P l)).
Proof.
  induction l as [|x l IH]; [done|]. cbn [map]. intros [Hx Hnd]%NoDup_cons. destruct (decide (P x)).
  - rewrite filter_cons_True by done. cbn [map]. apply NoDup_cons. split; [|by apply IH]. contradict Hx.
    apply list_elem_of_fmap in Hx as (y & -> & [_ Hy]%list_elem_of_filter). by apply list_elem_of_fmap_2.
  - rewrite filter_cons_False by done. by apply IH.
Qed.

Section Table.
Variable cs : list credit.
Hypothesis Hok : Forall credit_ok cs.

Let m : gmap Z AddressStats := (apply_credits cs).2.

Lemma read_table h k a s : m !! a = Some s -> read_half h k s = sat_sum (address_weight h k a) cs.
Proof.
  intros Ha. pose proof (stats_at_apply_credits a cs Hok k) as [H1 H2].
  unfold stats_at in *. fold m in H1, H2. rewrite Ha in H1, H2. by destruct h.
Qed.

Lemma address_weight_nonneg h k a c : credit_ok c -> 0 <= address_weight h k a c.
Proof. intros Hc. pose proof (weight_nonneg k c Hc). destruct h; cbn; unfold leaf_weight, stack_weight; by case_bool_decide. Qed.

(** A credit counts at least one of something. *)
Definition event_counter (c : credit) : counter :=
  match c with CreditOn _ _ _ _ _ => PetSamples | CreditOff _ _ _ => OffCpuIntervals end.

Lemma event_weight c : weight (event_counter c) c = 1.
Proof. by destruct c. Qed.

Lemma sum_of_ge {A} (f : A -> Z) l x : Forall (fun y => 0 <= f y) l -> x ∈ l -> f x <= sum_of f l.
Proof.
  induction 1 as [|y l Hy Hl IH]; intros Hx; [by apply elem_of_nil in Hx|]. rewrite sum_of_cons.
  apply sum_of_nonneg in Hl. apply elem_of_cons in Hx as [->|Hx]; [lia|]. specialize (IH Hx). lia.
Qed.

Lemma stack_in_table c a : c ∈ cs -> a ∈ credit_stack c -> is_Some (m !! a).
Proof.
  intros Hc Ha. destruct (m !! a) as [s|] eqn:E; [done|]. exfalso.
  pose proof (stats_at_apply_credits a cs Hok (event_counter c)) as [_ H]. unfold stats_at in H. fold m in H.
  rewrite E in H. cbn [from_option id] in H.
  assert (stack_weight (event_counter c) a c <= sum_of (stack_weight (event_counter c) a) cs) as Hle.
  { apply sum_of_ge; [|done]. eapply Forall_impl; [exact Hok|]. intros d. apply (address_weight_nonneg Total). }
  unfold stack_weight in Hle at 1. rewrite bool_decide_eq_true_2, event_weight in Hle by done.
  unfold sat_sum in H. destruct c; cbn [event_counter] in *; cbn in H; width; lia.
Qed.

Definition members (name : list Z * list Z) : list (Z * AddressStats) :=
  filter (fun e => group_name e.1 = name) (entries m).

Lemma elem_of_members name a s : (a, s) ∈ members name <-> m !! a = Some s /\ group_name a = name.
Proof. unfold members. rewrite list_elem_of_filter, entries_perm, elem_of_map_to_list. naive_solver. Qed.

Lemma members_nodup name : NoDup (map fst (members name)).
Proof.
  assert (NoDup (map fst (entries m))) as H by (rewrite entries_perm; apply NoDup_fst_map_to_list).
  by apply (NoDup_map_filter fst).
Qed.

Lemma members_credit h k name c :
  c ∈ cs -> sum_of (fun e => address_weight h k e.1 c) (members name) = half_weight h k name c.
Proof.
  intros Hc. rewrite <- (sum_of_map (fun a => address_weight h k a c) fst).
  pose proof (members_nodup name) as Hnd. destruct h; cbn [address_weight half_weight].
  - unfold self_weight, leaf_weight. case_decide as Hd.
    + destruct (head (credit_stack c)) as [a|] eqn:Eh; [|done]. cbn in Hd. injection Hd as Hd.
      assert (a ∈ credit_stack c) as Ha by (destruct (credit_stack c); [done|injection Eh as ->; left]).
      destruct (stack_in_table c a Hc Ha) as [s Hs].
      rewrite (sum_of_single _ a); [by rewrite bool_decide_eq_true_2|done| |].
      * apply list_elem_of_fmap. exists (a, s). split; [done|]. by apply elem_of_members.
      * intros b _ Hb. apply bool_decide_eq_false_2 || rewrite bool_decide_eq_false_2; [done|]. congruence.
    + rewrite (sum_of_ext _ (fun _ => 0)); [rewrite sum_of_const; lia|]. intros a Ha.
      apply list_elem_of_fmap in Ha as ([b s] & -> & [_ Hb]%elem_of_members). cbn [fst].
      case_bool_decide as Eh; [|done]. rewrite Eh in Hd. cbn in Hd. congruence.
  - unfold total_weight, stack_weight. rewrite (sum_of_if (fun a => a ∈ credit_stack c)). f_equal. f_equal.
    apply Permutation_length, NoDup_Permutation.
    + by apply NoDup_filter.
    + apply NoDup_filter, NoDup_remove_dups.
    + intros a. rewrite !list_elem_of_filter, elem_of_remove_dups, list_elem_of_fmap. split.
      * intros [Ha ([b s] & -> & [_ Hb]%elem_of_members)]. done.
      * intros [Hn Ha]. split; [done|]. destruct (stack_in_table c a Hc Ha) as [s Hs].
        exists (a, s). split; [done|]. by apply elem_of_members.
Qed.

Lemma group_get name :
  groups m !! name =
  match members name with
  | [] => None
  | x :: l => Some (foldl (fun g e => group_add e g) (group_first x) l)
  end.
Proof. apply group_all_get. Qed.

Lemma group_counters h k name g :
  groups m !! name = Some g -> read_half h k (g_stats g) = sat_sum (half_weight h k name) cs.
Proof.
  rewrite group_get. pose proof (elem_of_members name) as Hm.
  assert (forall c, c ∈ cs -> sum_of (fun e => address_weight h k e.1 c) (members name) = half_weight h k name c)
    as Hc by (intros c; apply members_credit).
  destruct (members name) as [|x l]; [done|]. intros [= <-].
  assert (Forall (fun e => read_half h k e.2 = sat_sum (address_weight h k e.1) cs) (x :: l)) as Hr.
  { apply Forall_forall. intros [a s] [Ha _]%Hm. by apply read_table. }
  assert (forall e : Z * AddressStats, 0 <= sum_of (address_weight h k e.1) cs) as Hpos.
  { intros e. apply sum_of_nonneg. eapply Forall_impl; [exact Hok|]. intros c. apply address_weight_nonneg. }
  rewrite read_group.
  - unfold sat_sum at 1. rewrite (sum_of_ext _ (fun e => Z.min (sum_of (address_weight h k e.1) cs) u64_max)).
    + rewrite sum_of_clamped; [|by apply Forall_forall|width; lia].
      rewrite (sum_of_exchange (fun (e : Z * AddressStats) c => address_weight h k e.1 c)).
      unfold sat_sum. f_equal. by apply sum_of_ext.
    + intros e He. rewrite Forall_forall in Hr. by apply Hr.
  - eapply Forall_impl; [exact Hr|]. intros e ->. specialize (Hpos e). unfold sat_sum. width. lia.
Qed.

(** The half a sort shows, and the stacks that have a symbol in it. *)
Definition sort_half (sort : TopSort) : half := match sort with BySelf => Self | ByTotal => Total end.

Definition mentions (h : half) (name : list Z * list Z) (c : credit) : Prop :=
  match h with
  | Self => group_name <$> head (credit_stack c) = Some name
  | Total => exists a, a ∈ credit_stack c /\ group_name a = name
  end.

Lemma half_weight_nonneg h k name c : credit_ok c -> 0 <= half_weight h k name c.
Proof.
  intros Hc. pose proof (weight_nonneg k c Hc). destruct h; cbn; unfold self_weight, total_weight; [by case_decide|lia].
Qed.

Lemma half_weight_mentions h k name c : half_weight h k name c <> 0 -> mentions h name c.
Proof.
  destruct h; cbn; unfold self_weight, total_weight; [by case_decide|]. intros H.
  destruct (filter _ _) as [|a l] eqn:E; [cbn in H; lia|].
  assert (a ∈ filter (fun a => group_name a = name) (remove_dups (credit_stack c))) as Ha by (rewrite E; left).
  apply list_elem_of_filter in Ha as [? Ha]. exists a. by rewrite elem_of_remove_dups in Ha.
Qed.

Lemma mentions_weight h name c : mentions h name c -> 1 <= half_weight h (event_counter c) name c.
Proof.
  destruct h; cbn; unfold self_weight, total_weight; rewrite event_weight; [by intros ->; rewrite decide_True|].
  intros (a & Ha & Hn).
  assert (a ∈ filter (fun a => group_name a = name) (remove_dups (credit_stack c))) as Hin.
  { apply list_elem_of_filter. split; [done|]. by apply elem_of_remove_dups. }
  destruct (filter _ _); [by apply elem_of_nil in Hin|]. cbn [length]. lia.
Qed.

Lemma counter_mentions h k name g :
  groups m !! name = Some g -> 0 < read_half h k (g_stats g) -> exists c, c ∈ cs /\ mentions h name c.
Proof.
  intros Hg. rewrite (group_counters h k name g Hg). unfold sat_sum. intros H.
  assert (sum_of (half_weight h k name) cs <> 0) as Hne by lia. clear H. clearbody m. clear Hg m.
  induction cs as [|c l IH]; [done|]. apply Forall_cons in Hok as [Hc Hl].
  rewrite sum_of_cons in Hne. destruct (decide (half_weight h k name c = 0)) as [E|E].
  - destruct (IH Hl) as (d & Hd & Hm); [lia|]. exists d. split; [by right|done].
  - exists c. split; [left|by apply half_weight_mentions in E].
Qed.

Lemma total_ns_pos b : (forall r, 0 <= read_reason r b) -> 0 < total_ns b <-> exists r, 0 < read_reason r b.
Proof.
  intros H. rewrite total_ns_sum by done. unfold sat_sum, all_reasons, sum_of. cbn [foldr].
  pose proof (H Idle). pose proof (H LockWait). pose proof (H SemaphoreWait). pose proof (H IpcWait).
  pose proof (H IoRead). pose proof (H IoWrite). pose proof (H Readiness). pose proof (H Sleep).
  pose proof (H ConnectionSetup). pose proof (H Other). split.
    destruct (Z_lt_dec 0 (read_reason Idle b)); [by exists Idle|].
    destruct (Z_lt_dec 0 (read_reason LockWait b)); [by exists LockWait|].
    destruct (Z_lt_dec 0 (read_reason SemaphoreWait b)); [by exists SemaphoreWait|].
    destruct (Z_lt_dec 0 (read_reason IpcWait b)); [by exists IpcWait|].
    destruct (Z_lt_dec 0 (read_reason IoRead b)); [by exists IoRead|].
    destruct (Z_lt_dec 0 (read_reason IoWrite b)); [by exists IoWrite|].
    destruct (Z_lt_dec 0 (read_reason Readiness b)); [by exists Readiness|].
    destruct (Z_lt_dec 0 (read_reason Sleep b)); [by exists Sleep|].
    destruct (Z_lt_dec 0 (read_reason ConnectionSetup b)); [by exists ConnectionSetup|].
    exists Other. lia.
  - intros [[] Hr]; width; lia.
Qed.

Lemma shown_mentions sort name g :
  groups m !! name = Some g ->
  shown sort g = true <-> exists c, c ∈ cs /\ mentions (sort_half sort) name c.
Proof.
  intros Hg. set (h := sort_half sort).
  assert (forall k, 0 <= read_half h k (g_stats g)) as Hpos.
  { intros k. rewrite (group_counters h k name g Hg). unfold sat_sum. apply Z.min_glb; [|width; lia].
    apply sum_of_nonneg. eapply Forall_impl; [exact Hok|]. intros c. apply half_weight_nonneg. }
  assert (shown sort g = true <-> exists k, 0 < read_half h k (g_stats g) /\
    match k with OnCpuNs | OffCpuNs _ | PetSamples | OffCpuIntervals => True | _ => False end) as ->.
  { pose proof (fun r => Hpos (OffCpuNs r)) as Hr. unfold shown, h in *.
    destruct sort; cbn [sort_half read_half] in *; rewrite !orb_true_iff, !bool_decide_eq_true, total_ns_pos by exact Hr.
    all: split; [intros [[[H|[r H]]|H]|H];
                 [by exists OnCpuNs|by exists (OffCpuNs r)|by exists PetSamples|by exists OffCpuIntervals]
                |intros ([] & H & Hk); try done; cbn in H; eauto]. }
  split.
  - intros (k & Hk & _). by apply (counter_mentions h k name g).
  - intros (c & Hc & Hm). exists (event_counter c). split; [|by destruct c].
    rewrite (group_counters h _ name g Hg). apply mentions_weight in Hm.
    assert (half_weight h (event_counter c) name c <= sum_of (half_weight h (event_counter c) name) cs).
    { apply sum_of_ge; [|done]. eapply Forall_impl; [exact Hok|]. intros d. apply half_weight_nonneg. }
    unfold sat_sum. width. lia.
Qed.

Lemma mentions_group h name c : c ∈ cs -> mentions h name c -> is_Some (groups m !! name).
Proof.
  intros Hc Hm. assert (exists a, a ∈ credit_stack c /\ group_name a = name) as (a & Ha & Hn).
  { destruct h; [|done]. cbn in Hm. destruct (credit_stack c) as [|a l]; [done|]. injection Hm as Hm.
    exists a. split; [left|done]. }
  destruct (stack_in_table c a Hc Ha) as [s Hs]. rewrite group_get.
  assert ((a, s) ∈ members name) as Hin by (by apply elem_of_members).
  destruct (members name); [by apply elem_of_nil in Hin|done].
Qed.

End Table.

Lemma sort_by_map {A B} (f : A -> B) (le : B -> B -> bool) l :
  sort_by le (map f l) = map f (sort_by (fun a b => le (f a) (f b)) l).
Proof.
  induction l as [|x l IH]; [done|]. cbn [map].
  change (sort_by le (f x :: map f l)) with (sort_insert le (f x) (sort_by le (map f l))). rewrite IH.
  change (sort_by (fun a b => le (f a) (f b)) (x :: l)) with
    (sort_insert (fun a b => le (f a) (f b)) x (sort_by (fun a b => le (f a) (f b)) l)).
  clear IH. induction (sort_by _ l) as [|y l' IH']; [done|]. cbn [map sort_insert].
  destruct (le (f x) (f y)); [done|]. cbn [map]. by rewrite IH'.
Qed.

Lemma filter_map {A B} (f : A -> B) (P : B -> Prop) `{!forall x, Decision (P x)} l :
  filter P (map f l) = map f (filter (fun x => P (f x)) l).
Proof.
  induction l as [|x l IH]; [done|]. cbn [map]. destruct (decide (P (f x))).
  - rewrite !filter_cons_True by done. cbn [map]. by rewrite IH.
  - by rewrite !filter_cons_False by done.
Qed.

(** C32. The list of hottest symbols is what the code adds up. It shows one entry for
    each symbol (or address without one) that some credited stack has as its leaf
    or, sorted by total, anywhere; the self counters of an entry are the clamped
    sums of what the stacks with the symbol as their leaf were credited with, its
    total counters those of the stacks it is on, once for each address of the symbol
    on the stack, so that the total of a function that calls itself from another
    address counts a stack twice, unlike the protocol documents; its address has the
    most time of its own; and the entries come in the order of the sort, the first
    [limit] of them. *)
Theorem top_entries_exact a cs sort limit :
  Forall credit_ok cs -> by_address a = (apply_credits cs).2 ->
  exists rows : list ((list Z * list Z) * TopEntry),
    group_top_entries a sort limit = take limit (map snd rows) /\
    NoDup (map fst rows) /\
    StronglySorted (fun x y => top_cmp sort x y <> Gt) (map snd rows) /\
    (forall name, name ∈ map fst rows <-> exists c, c ∈ cs /\ mentions (sort_half sort) name c) /\
    forall name e, (name, e) ∈ rows ->
      group_name (t_address e) = name /\
      (forall addr, group_name addr = name ->
         self_on_cpu_ns (stats_at addr (by_address a)) <= self_on_cpu_ns (stats_at (t_address e) (by_address a))) /\
      forall h k, read_half h k (t_stats e) = sat_sum (half_weight h k name) cs.
Proof.
  intros Hok Ha. unfold group_top_entries. rewrite Ha. set (m := (apply_credits cs).2).
  set (shown_groups := filter (fun x => shown sort x.2 = true) (entries (groups m))).
  set (le := le_of (top_cmp sort)).
  set (rows := sort_by (fun x y => le x.2 y.2) (map (fun x => (x.1, top_entry x.2)) shown_groups)).
  assert (rows ≡ₚ map (fun x => (x.1, top_entry x.2)) shown_groups) as Hp by apply sort_by_perm.
  assert (forall name e, (name, e) ∈ rows ->
    exists g, groups m !! name = Some g /\ shown sort g = true /\ e = top_entry g) as Hrow.
  { intros name e H. rewrite Hp in H. apply list_elem_of_fmap in H as ([n g] & [= -> ->] & [Hs H]%list_elem_of_filter).
    rewrite entries_perm, elem_of_map_to_list in H. by exists g. }
  assert (map snd rows = sort_by le (map top_entry (filter (fun g => shown sort g = true) (map snd (entries (groups m))))))
    as Hsnd.
  { unfold rows. rewrite filter_map, map_map. fold shown_groups. rewrite !sort_by_map, !map_map. done. }
  exists rows. rewrite Hsnd. split_ands.
  - done.
  - rewrite Hp, map_map. cbn. unfold shown_groups.
    assert (NoDup (map fst (entries (groups m)))) as Hnd by (rewrite entries_perm; apply NoDup_fst_map_to_list).
    by apply (NoDup_map_filter fst).
  - apply sort_by_le_of. apply _.
  - intros name. split.
    + intros ([n e] & -> & (g & Hg & Hs & _)%Hrow)%list_elem_of_fmap. by apply (shown_mentions cs Hok sort n g).
    + intros (c & Hc & Hm). destruct (mentions_group cs Hok _ _ _ Hc Hm) as [g Hg].
      apply list_elem_of_fmap. exists (name, top_entry g). split; [done|]. rewrite Hp.
      apply list_elem_of_fmap. exists (name, g). split; [done|]. apply list_elem_of_filter. cbn [snd]. split.
      * apply (shown_mentions cs Hok sort name g Hg). by exists c.
      * rewrite entries_perm. by apply elem_of_map_to_list.
  - intros name e (g & Hg & _ & ->)%Hrow. cbn [t_address t_stats top_entry].
    pose proof Hg as Hgm. rewrite (group_get cs) in Hgm. fold m in Hgm.
    pose proof (elem_of_members cs name) as Hm. fold m in Hm.
    destruct (members cs name) as [|x l] eqn:El; [done|]. injection Hgm as <-.
    destruct (group_representative x l) as [(s & Hs & Hr) Hmax]. set (g := foldl _ _ l) in *.
    apply Hm in Hs as [Hs Hn]. split; [done|]. split; [|intros h k; by apply (group_counters cs Hok)].
    intros addr Hname. unfold stats_at. rewrite Hs. cbn [from_option id]. rewrite <- Hr.
    destruct (m !! addr) as [s'|] eqn:E; cbn [from_option id].
    + rewrite Forall_forall in Hmax. apply (Hmax (addr, s')). by apply Hm.
    + rewrite Hr. pose proof (read_table cs Hok Self OnCpuNs _ _ Hs) as H. cbn in H. cbn. rewrite H.
      unfold sat_sum. apply Z.min_glb; [|width; lia]. apply sum_of_nonneg. eapply Forall_impl; [exact Hok|].
      intros c. apply (address_weight_nonneg Self).
Qed.

End Query.

(** ** Examples *)

#[local] Existing Instance canonical_order.
#[local] Existing Instance demo_table.

(** [f] calls itself from its second call site. *)
Definition demo_stacks : list credit :=
  [CreditOn [21; 20; 10] 100 pmu_default false None; CreditOff [30; 20; 10] LockWait 70].

Definition demo_aggregation : Aggregation :=
  aggregation_new <| by_address := (apply_credits demo_stacks).2 |>.

Lemma top_demo_ok : Forall credit_ok demo_stacks.
Proof. repeat constructor; try lia; try (intros []; vm_compute; congruence); vm_compute; congruence. Qed.

Lemma top_entries_exact_witness :
  exists rows : list ((list Z * list Z) * TopEntry),
    group_top_entries demo_aggregation BySelf 10 = take 10 (map snd rows) /\
    (str "f", str "app") ∈ map fst rows /\
    forall e, ((str "f", str "app"), e) ∈ rows ->
      group_name (t_address e) = (str "f", str "app") /\ self_on_cpu_ns (t_stats e) = 100.
Proof.
  destruct (top_entries_exact demo_aggregation demo_stacks BySelf 10 top_demo_ok eq_refl)
    as (rows & Hr & _ & _ & Hin & He).
  exists rows. split; [exact Hr|]. split.
  - apply Hin. eexists. split; [left|reflexivity].
  - intros e H. destruct (He _ _ H) as (Hn & _ & Hk). split; [exact Hn|].
    exact (eq_trans (Hk Self OnCpuNs) ltac:(vm_compute; reflexivity)).
Defined.

(** The total of a recursive symbol can exceed all the time there is: a
    stack counts for each of the symbol's addresses on it, though the total is
    described as the time the symbol is on the stack anywhere. *)
Theorem recursion_counted_twice :
  exists cs e,
    Forall credit_ok cs /\ sum_of (weight OnCpuNs) cs = 100 /\
    e ∈ group_top_entries (aggregation_new <| by_address := (apply_credits cs).2 |>) ByTotal 10 /\
    t_function_name e = Some (str "f") /\ total_on_cpu_ns (t_stats e) = 200.
Proof.
  exists demo_stacks. eexists. split; [apply top_demo_ok|]. split; [reflexivity|].
  split; [|split]; [vm_compute; left|reflexivity|reflexivity].
Qed.

End Top.
