(* ===== verification/KernelSlide.v ===== *)
(** * The kernel image and its slide

    [stax-mac-kperf-parse/src/kernel_symbols.rs]: what is kept of the on-disk
    kernel, the vote for the KASLR slide that fits the sampled kernel
    addresses, and the [/proc/kallsyms] blob printed once it is known.  The
    Mach-O reader is a library: the load commands and symbols it hands out are
    data here. *)

From S2P Require Import Prelude Text KernelSymbols.

Module KernelSlide.

Definition SLIDE_ALIGNMENT : Z := 0x4000.
Definition MAX_PER_OBS : Z := 4096.

(** ** The kernel image *)

Record KernelImage := mkKernelImage {
  path : list Z;
  symbols : list (Z * list Z);
  exec_segments : list (Z * Z)
}.

(** What the Mach-O library hands out: the load commands that parse (the others
    are skipped), a symbol table that may not, and one entry of it; the name is
    the text of a name that is found and is UTF-8. *)
Record Nlist := mkNlist { n_type : Z; n_value : Z; n_name : option (list Z) }.

Inductive LoadCommandVariant :=
  | Segment64 (initprot vmaddr vmsize : Z)
  | Symtab (table : option (list Nlist))
  | OtherCommand.

Definition N_STAB : Z := 0xe0.
Definition N_TYPE : Z := 0x0e.
Definition N_SECT : Z := 0x0e.

(** [rfind(needle)], as what follows the last occurrence. *)
Fixpoint after_last_needle (needle s : list Z) : option (list Z) :=
  match s with
  | [] => if bool_decide (needle = []) then Some [] else None
  | _ :: s' =>
      match after_last_needle needle s' with
      | Some r => Some r
      | None => if starts_with needle s then Some (drop (length needle) s) else None
      end
  end.

Definition is_ascii_alphanumeric (c : Z) : bool :=
  bool_decide (48 <= c <= 57) || bool_decide (65 <= c <= 90) || bool_decide (97 <= c <= 122).

Definition extract_chip (kver : list Z) : option (list Z) :=
  match after_last_needle (str "RELEASE_ARM64_T") kver with
  | None => None
  | Some rest =>
      let chip := take_while is_ascii_alphanumeric rest in
      if bool_decide (chip = []) then None else Some chip
  end.

(** The ASCII part of [to_lowercase], which is all a chip name has. *)
Definition to_lowercase (s : list Z) : list Z :=
  map (fun c => if bool_decide (65 <= c <= 90) then c + 32 else c) s.

(** The executable segments of the load-command loop. *)
Definition exec_segment (cmd : LoadCommandVariant) : option (Z * Z) :=
  match cmd with
  | Segment64 initprot vmaddr vmsize =>
      if bool_decide (Z.land initprot 4 = 0) then None else
      let hi := wadd64 vmaddr vmsize in
      if bool_decide (vmaddr < hi) then Some (vmaddr, hi) else None
  | _ => None
  end.

(** [symtab_cmd] after the loop: the last [LC_SYMTAB]. *)
Definition symtab_cmd (cmds : list LoadCommandVariant) : option (option (list Nlist)) :=
  last (omap (fun c => match c with Symtab t => Some t | _ => None end) cmds).

Definition text_symbol (s : Nlist) : option (Z * list Z) :=
  if bool_decide (Z.land (n_type s) N_STAB <> 0) then None
  else if bool_decide (Z.land (n_type s) N_TYPE <> N_SECT) then None
  else if bool_decide (n_value s = 0) then None
  else match n_name s with
       | Some n => if bool_decide (n = []) then None else Some (n_value s, n)
       | None => None
       end.

(** [KernelImage::load] after the [kern.version] sysctl: the file system and
    the Mach-O reader are arguments; [None] is every [Ok(None)]. *)
Definition load (read : list Z -> option (list Z))
    (load_commands : list Z -> option (list (option LoadCommandVariant)))
    (kver : list Z) : option KernelImage :=
  match extract_chip kver with
  | None => None
  | Some chip =>
      let path := str "/System/Library/Kernels/kernel.release.t" ++ to_lowercase chip in
      match read path with
      | None => None
      | Some bytes =>
          match load_commands bytes with
          | None => None
          | Some cmds =>
              let cmds := omap id cmds in
              let exec_segments := omap exec_segment cmds in
              match symtab_cmd cmds with
              | Some (Some table) =>
                  let symbols := omap text_symbol table in
                  if bool_decide (exec_segments = [] \/ symbols = []) then None
                  else Some (mkKernelImage path symbols exec_segments)
              | _ => None
              end
          end
      end
  end.

(** [{:016x}] *)
Definition hex16 (n : Z) : list Z :=
  replicate (16 - length (Text.to_hex n)) 48 ++ Text.to_hex n.

Definition format_line (slide : Z) (s : Z * list Z) : list Z :=
  hex16 (wadd64 s.1 slide) ++ str " T " ++ s.2.

(** [format_kallsyms]: the bytes of the text. *)
Definition format_kallsyms (slide : Z) (image : KernelImage) : list Z :=
  Text.as_bytes (symbols image ≫= fun s => format_line slide s ++ [Text.NEWLINE]).

(** ** The estimator *)

Record SlideEstimator := mkSlideEstimator {
  segments : list (Z * Z);
  votes : gmap Z Z;
  observed : Z
}.

#[export] Instance eta_SlideEstimator : Eta SlideEstimator := fun e =>
  mkSlideEstimator (segments e) (votes e) (observed e).

Definition new (exec_segments : list (Z * Z)) : SlideEstimator := mkSlideEstimator exec_segments ∅ 0.

(** [x & !(SLIDE_ALIGNMENT - 1)] on a u64. *)
Definition snap (x : Z) : Z := Z.land x (u64_max - (SLIDE_ALIGNMENT - 1)).

Definition vote (s : Z) : gmap Z Z -> gmap Z Z := entry_update 0 (fun n => as_u32 (n + 1)) s.

(** [while s <= hi { vote; s += SLIDE_ALIGNMENT }]; [None] when the turns run
    out.  [MAX_PER_OBS] bounds the turns of a loop that ends ([votes_exact]). *)
Fixpoint vote_loop (fuel : nat) (s hi : Z) (v : gmap Z Z) : option (gmap Z Z) :=
  if bool_decide (hi < s) then Some v else
  match fuel with
  | O => None
  | S fuel => vote_loop fuel (wadd64 s SLIDE_ALIGNMENT) hi (vote s v)
  end.

(** The candidates one segment gives. *)
Definition slide_lo (avma : Z) (seg : Z * Z) : Z :=
  snap (wadd64 (if bool_decide (seg.2 <= avma) then avma - seg.2 + 1 else 0) (SLIDE_ALIGNMENT - 1)).
Definition slide_hi (avma : Z) (seg : Z * Z) : Z := snap (avma - seg.1).

Definition observe_segment (avma : Z) (v : gmap Z Z) (seg : Z * Z) : option (gmap Z Z) :=
  if bool_decide (avma < seg.1) then Some v else
  let lo := slide_lo avma seg in
  let hi := slide_hi avma seg in
  let n := ssub hi lo / SLIDE_ALIGNMENT in
  if bool_decide (MAX_PER_OBS < n) then Some v
  else vote_loop (Z.to_nat MAX_PER_OBS + 1) lo hi v.

(** [observe]; [None] where the loop over the candidates does not end. *)
Definition observe (e : SlideEstimator) (avma : Z) : option SlideEstimator :=
  match foldlM (observe_segment avma) (votes e) (segments e) with
  | Some v => Some (e <| votes := v |> <| observed ::= fun n => as_u32 (n + 1) |>)
  | None => None
  end.

Definition observe_all : SlideEstimator -> list Z -> option SlideEstimator := foldlM observe.

(** [max_by_key]: the last of the largest, in iteration order. *)
Fixpoint max_vote (l : list (Z * Z)) : option (Z * Z) :=
  match l with
  | [] => None
  | x :: l' =>
      match max_vote l' with
      | Some y => if bool_decide (x.2 <= y.2) then Some y else Some x
      | None => Some x
      end
  end.

(** [finalize], with the hash map's entries in the order they are iterated.
    The support is the quotient of the two numbers. *)
Definition finalize (entries : list (Z * Z)) (e : SlideEstimator) : option (Z * (Z * Z)) :=
  let total := Z.max (observed e) 1 in
  (fun '(slide, count) => (slide, (count, total))) <$> max_vote entries.

(** ** Lemmas on the vote *)

Definition votes_at (v : gmap Z Z) (s : Z) : Z := default 0 (v !! s).

(** A slide that can be voted for, and one that puts a sampled address into a
    segment. *)
Definition candidate (s : Z) : bool := bool_decide (0 <= s /\ s mod SLIDE_ALIGNMENT = 0).
Definition fits (s avma : Z) (seg : Z * Z) : bool := bool_decide (seg.1 <= avma - s < seg.2).

Definition segment_ok (seg : Z * Z) : Prop :=
  SLIDE_ALIGNMENT <= seg.1 < seg.2 /\ seg.2 < 2 ^ 64 /\ seg.2 - seg.1 <= MAX_PER_OBS * SLIDE_ALIGNMENT.

Definition votes_ok (v : gmap Z Z) : Prop := map_Forall (fun s n => candidate s = true /\ is_u32 n) v.

Lemma candidate_iff s : candidate s = true <-> 0 <= s /\ s mod SLIDE_ALIGNMENT = 0.
Proof. unfold candidate. apply bool_decide_eq_true. Qed.

Lemma snap_spec x : is_u64 x -> snap x = x - x mod SLIDE_ALIGNMENT.
Proof.
  intros Hx. unfold snap.
  replace (u64_max - (SLIDE_ALIGNMENT - 1)) with (Z.land (Z.ones 64) (Z.lnot (Z.ones 14))) by reflexivity.
  rewrite Z.land_assoc, Z.land_ones by lia. rewrite Z.mod_small by apply Hx.
  rewrite <- Z.ldiff_land, Z.ldiff_ones_r by lia. rewrite Z.shiftr_div_pow2, Z.shiftl_mul_pow2 by lia.
  change (2 ^ 14) with SLIDE_ALIGNMENT. pose proof (Z.div_mod x SLIDE_ALIGNMENT). unfold SLIDE_ALIGNMENT in *. lia.
Qed.

Lemma votes_at_vote s s' v :
  votes_at (vote s v) s' = if decide (s' = s) then as_u32 (votes_at v s + 1) else votes_at v s'.
Proof. unfold votes_at, vote. rewrite lookup_entry_update. by case_decide. Qed.

Lemma votes_at_range v s : votes_ok v -> is_u32 (votes_at v s).
Proof.
  intros Hv. unfold votes_at. destruct (v !! s) eqn:E; simpl; [by apply (Hv _ _ E)|].
  unfold is_u32. lia.
Qed.

Lemma vote_ok s v : votes_ok v -> candidate s = true -> votes_ok (vote s v).
Proof. intros Hv Hs. apply map_Forall_insert_2; [|done]. split; [done|]. apply as_u32_range. Qed.

Lemma vote_loop_spec fuel : forall lo hi v,
  votes_ok v -> candidate lo = true -> candidate hi = true ->
  hi + SLIDE_ALIGNMENT < 2 ^ 64 -> hi - lo < Z.of_nat fuel * SLIDE_ALIGNMENT ->
  exists v', vote_loop fuel lo hi v = Some v' /\ votes_ok v' /\
    forall s, votes_at v' s = as_u32 (votes_at v s + Z.b2z (candidate s && bool_decide (lo <= s <= hi))).
Proof.
  induction fuel as [|fuel IH]; intros lo hi v Hv Hlo Hhi Hmax Hfuel; cbn [vote_loop].
  - rewrite bool_decide_eq_true_2 by lia. exists v. split_ands; [done|done|]. intros s.
    rewrite (bool_decide_eq_false_2 (lo <= s <= hi)) by lia. rewrite andb_false_r, Z.add_0_r.
    symmetry. by apply as_u32_small, votes_at_range.
  - case_bool_decide as Hle.
    + exists v. split_ands; [done|done|]. intros s.
      rewrite (bool_decide_eq_false_2 (lo <= s <= hi)) by lia. rewrite andb_false_r, Z.add_0_r.
      symmetry. by apply as_u32_small, votes_at_range.
    + pose proof Hlo as [Hlo0 Hlom]%candidate_iff.
      pose proof Hhi as [Hhi0 Hhim]%candidate_iff.
      assert (E : wadd64 lo SLIDE_ALIGNMENT = lo + SLIDE_ALIGNMENT)
        by (apply wadd64_small; unfold SLIDE_ALIGNMENT in *; lia).
      assert (Hnext : candidate (lo + SLIDE_ALIGNMENT) = true).
      { apply candidate_iff. split; [unfold SLIDE_ALIGNMENT; lia|].
        rewrite <- (Z.mul_1_l SLIDE_ALIGNMENT) at 1. by rewrite Z_mod_plus_full. }
      destruct (IH (lo + SLIDE_ALIGNMENT) hi (vote lo v)) as (v' & Hrun & Hv' & Hvotes);
        [by apply vote_ok|done|done|done|lia|].
      exists v'. rewrite E. split_ands; [done|done|]. intros s.
      rewrite Hvotes, votes_at_vote. unfold as_u32.
      destruct (candidate s) eqn:Hs; cbn [andb].
      * apply candidate_iff in Hs as [Hs0 Hsm]. destruct (decide (s = lo)) as [->|Hne].
        -- rewrite (bool_decide_eq_false_2 (lo + _ <= lo <= hi)) by (unfold SLIDE_ALIGNMENT; lia).
           rewrite (bool_decide_eq_true_2 (lo <= lo <= hi)) by lia. cbn [Z.b2z].
           by rewrite Z.add_0_r, Z.mod_mod by lia.
        -- rewrite (bool_decide_ext (lo + SLIDE_ALIGNMENT <= s <= hi) (lo <= s <= hi)); [done|].
           unfold SLIDE_ALIGNMENT in *. Z.to_euclidean_division_equations. lia.
      * rewrite decide_False; [done|]. intros ->. congruence.
Qed.

(** The window of one segment holds the candidates that fit it. *)
Lemma window avma seg :
  segment_ok seg -> is_u64 avma -> seg.1 <= avma ->
  candidate (slide_lo avma seg) = true /\ candidate (slide_hi avma seg) = true /\
  slide_hi avma seg + SLIDE_ALIGNMENT < 2 ^ 64 /\
  slide_hi avma seg - slide_lo avma seg < MAX_PER_OBS * SLIDE_ALIGNMENT /\
  forall s, candidate s = true ->
    bool_decide (slide_lo avma seg <= s <= slide_hi avma seg) = fits s avma seg.
Proof.
  destruct seg as [l h]. intros (Hl & Hh & Hsize) Ha Hle. unfold slide_lo, slide_hi, fits.
  cbn [fst snd] in *. set (m := if bool_decide (h <= avma) then avma - h + 1 else 0).
  assert (Hm : m = Z.max 0 (avma - h + 1)) by (subst m; case_bool_decide; lia). clearbody m.
  assert (Hw : wadd64 m (SLIDE_ALIGNMENT - 1) = m + (SLIDE_ALIGNMENT - 1))
    by (apply wadd64_small; unfold SLIDE_ALIGNMENT, is_u64 in *; lia).
  rewrite Hw, !snap_spec by (unfold SLIDE_ALIGNMENT, is_u64 in *; lia). clear Hw.
  unfold is_u64, SLIDE_ALIGNMENT, MAX_PER_OBS in *. rewrite !candidate_iff. unfold SLIDE_ALIGNMENT.
  split_ands; try (Z.to_euclidean_division_equations; lia).
  intros s [Hs Hsm]%candidate_iff. unfold SLIDE_ALIGNMENT in *. apply bool_decide_ext.
  Z.to_euclidean_division_equations. lia.
Qed.

Lemma observe_segment_spec avma seg v :
  segment_ok seg -> is_u64 avma -> votes_ok v ->
  exists v', observe_segment avma v seg = Some v' /\ votes_ok v' /\
    forall s, votes_at v' s = as_u32 (votes_at v s + Z.b2z (candidate s && fits s avma seg)).
Proof.
  intros Hseg Ha Hv. unfold observe_segment. case_bool_decide as Hlt.
  - exists v. split_ands; [done|done|]. intros s.
    assert (candidate s && fits s avma seg = false) as ->.
    { apply andb_false_iff. unfold candidate, fits. rewrite !bool_decide_eq_false. lia. }
    rewrite Z.add_0_r. symmetry. by apply as_u32_small, votes_at_range.
  - destruct (window avma seg Hseg Ha ltac:(lia)) as (Hlo & Hhi & Hmax & Hn & Hwin).
    rewrite bool_decide_eq_false_2; cycle 1.
    { unfold ssub, SLIDE_ALIGNMENT, MAX_PER_OBS in *. Z.to_euclidean_division_equations. lia. }
    destruct (vote_loop_spec (Z.to_nat MAX_PER_OBS + 1) _ _ v Hv Hlo Hhi Hmax) as (v' & Hrun & Hv' & Hvotes).
    { unfold SLIDE_ALIGNMENT, MAX_PER_OBS in *. lia. }
    exists v'. split_ands; [done|done|]. intros s. rewrite Hvotes.
    destruct (candidate s) eqn:Hs; [|done]. by rewrite Hwin.
Qed.
Lemma as_u32_add a b : as_u32 (as_u32 a + b) = as_u32 (a + b).
Proof. unfold as_u32. by rewrite Zplus_mod_idemp_l. Qed.

(** Votes of one address over all segments. *)
Lemma observe_segments_spec avma segs : forall v,
  Forall segment_ok segs -> is_u64 avma -> votes_ok v ->
  exists v', foldlM (observe_segment avma) v segs = Some v' /\ votes_ok v' /\
    forall s, votes_at v' s =
      as_u32 (votes_at v s + sum_of (fun seg => Z.b2z (candidate s && fits s avma seg)) segs).
Proof.
  induction segs as [|seg segs IH]; intros v Hsegs Ha Hv.
  - exists v. split_ands; [done|done|]. intros s. cbn. rewrite Z.add_0_r.
    symmetry. by apply as_u32_small, votes_at_range.
  - apply Forall_cons in Hsegs as [Hseg Hsegs].
    destruct (observe_segment_spec avma seg v Hseg Ha Hv) as (v1 & E1 & Hv1 & H1).
    destruct (IH v1 Hsegs Ha Hv1) as (v' & E' & Hv' & H').
    exists v'. cbn [foldlM]. rewrite E1. split_ands; [done|done|]. intros s.
    rewrite H', H1, sum_of_cons, as_u32_add. f_equal. lia.
Qed.

(** Two segments apart from each other never both hold an address. *)
Fixpoint disjoint_segments (segs : list (Z * Z)) : Prop :=
  match segs with
  | [] => True
  | seg :: segs' => Forall (fun seg' => seg.2 <= seg'.1 \/ seg'.2 <= seg.1) segs' /\ disjoint_segments segs'
  end.

(** The slide [s] explains an address: it puts it into a segment. *)
Definition explains (segs : list (Z * Z)) (s avma : Z) : bool := existsb (fits s avma) segs.

Lemma fits_once segs s avma :
  disjoint_segments segs -> sum_of (fun seg => Z.b2z (fits s avma seg)) segs = Z.b2z (explains segs s avma).
Proof.
  induction segs as [|seg segs IH]; [done|]. intros [Hd Hrest]. rewrite sum_of_cons, IH by done.
  unfold explains. cbn [existsb]. destruct (fits s avma seg) eqn:E; cbn [orb Z.b2z]; [|lia].
  assert (existsb (fits s avma) segs = false) as ->; [|done].
  apply not_true_iff_false. intros (seg' & Hin & Hfit)%existsb_exists.
  apply list_elem_of_In in Hin. rewrite Forall_forall in Hd. specialize (Hd seg' Hin). cbn in Hd.
  unfold fits in E, Hfit. apply bool_decide_eq_true in E, Hfit. lia.
Qed.

(** The number of addresses a slide explains. *)
Definition support (segs : list (Z * Z)) (avmas : list Z) (s : Z) : Z :=
  sum_of (fun avma => Z.b2z (explains segs s avma)) avmas.

Lemma support_bound segs avmas s : 0 <= support segs avmas s <= Z.of_nat (length avmas).
Proof.
  unfold support. induction avmas as [|a l IH]; [done|]. rewrite sum_of_cons. cbn [length].
  destruct (explains segs s a); cbn [Z.b2z]; lia.
Qed.

Lemma observe_all_spec segs avmas : forall e,
  segments e = segs -> Forall segment_ok segs -> disjoint_segments segs ->
  Forall is_u64 avmas -> votes_ok (votes e) -> is_u32 (observed e) ->
  exists e', observe_all e avmas = Some e' /\ votes_ok (votes e') /\
    observed e' = as_u32 (observed e + Z.of_nat (length avmas)) /\
    forall s, votes_at (votes e') s =
      as_u32 (votes_at (votes e) s + (if candidate s then support segs avmas s else 0)).
Proof.
  induction avmas as [|a avmas IH]; intros e Hs Hsegs Hd Ha Hv Ho.
  - exists e. split_ands; [done|done|by rewrite Z.add_0_r, as_u32_small|].
    intros s. replace (if candidate s then _ else _) with 0 by (by case_match).
    rewrite Z.add_0_r. symmetry. by apply as_u32_small, votes_at_range.
  - apply Forall_cons in Ha as [Ha Has].
    destruct (observe_segments_spec a segs (votes e) Hsegs Ha Hv) as (v1 & E1 & Hv1 & H1).
    destruct (IH (e <| votes := v1 |> <| observed ::= fun n => as_u32 (n + 1) |>))
      as (e' & E' & Hv' & Ho' & H'); try done.
    { apply as_u32_range. }
    exists e'. unfold observe_all in *. cbn [foldlM]. unfold observe. rewrite Hs, E1.
    split_ands; [exact E'|done| |].
    + rewrite Ho'. cbn. rewrite as_u32_add. f_equal. lia.
    + intros s. rewrite H'. change (votes (_ <| votes := v1 |> <| observed ::= _ |>)) with v1.
      rewrite H1, as_u32_add. f_equal. unfold support. rewrite sum_of_cons.
      destruct (candidate s); cbn [andb].
      * rewrite fits_once by done. lia.
      * cbn [Z.b2z]. rewrite (sum_of_const 0). lia.
Qed.

Lemma max_vote_spec l :
  match max_vote l with
  | None => l = []
  | Some x => x ∈ l /\ Forall (fun y => y.2 <= x.2) l
  end.
Proof.
  induction l as [|x l IH]; [done|]. cbn [max_vote]. destruct (max_vote l) as [y|].
  - destruct IH as [Hy Hl]. case_bool_decide.
    + split; [set_solver|]. by constructor.
    + split; [set_solver|]. constructor; [lia|]. eapply Forall_impl; [exact Hl|]. cbn. lia.
  - subst l. split; [set_solver|]. by repeat constructor.
Qed.

(** ** Properties of the estimator *)

(** Whatever the kernel's executable segments (apart, above the first page, of
    at most 64 MiB each) and the sampled addresses, observing them ends and
    counts for every slide exactly the addresses it explains; and in whatever
    order the votes are iterated, the answer is a page-aligned slide that
    explains as many sampled addresses as any other, with its count over the
    number of samples as support; there is none only when no slide explains any
    address. *)
Theorem slide_best_supported segs avmas :
  Forall segment_ok segs -> disjoint_segments segs ->
  Forall is_u64 avmas -> Z.of_nat (length avmas) < 2 ^ 32 ->
  exists e, observe_all (new segs) avmas = Some e /\
    (forall s, votes_at (votes e) s = if candidate s then support segs avmas s else 0) /\
    forall entries, entries ≡ₚ map_to_list (votes e) ->
    match finalize entries e with
    | None => forall s, candidate s = true -> support segs avmas s = 0
    | Some (slide, (count, total)) =>
        candidate slide = true /\ count = support segs avmas slide /\
        total = Z.max (Z.of_nat (length avmas)) 1 /\
        forall s, candidate s = true -> support segs avmas s <= count
    end.
Proof.
  intros Hsegs Hd Ha Hlen.
  destruct (observe_all_spec segs avmas (new segs)) as (e & E & Hv & Ho & Hvotes); try done.
  exists e. split; [done|].
  assert (Hexact : forall s, votes_at (votes e) s = if candidate s then support segs avmas s else 0).
  { intros s. rewrite Hvotes. apply as_u32_small. pose proof (support_bound segs avmas s).
    unfold votes_at, is_u32. cbn. case_match; lia. }
  split; [exact Hexact|]. intros entries Hp. unfold finalize.
  pose proof (max_vote_spec entries) as Hm.
  destruct (max_vote entries) as [[slide count]|]; cbn [fmap option_fmap option_map].
  - destruct Hm as [Hin Hmax]. rewrite Hp in Hin. apply elem_of_map_to_list in Hin.
    destruct (Hv _ _ Hin) as [Hc _].
    assert (Hcount : count = support segs avmas slide).
    { specialize (Hexact slide). unfold votes_at in Hexact. by rewrite Hin, Hc in Hexact. }
    split_ands; [done|done| |].
    + rewrite Ho. cbn. by rewrite as_u32_small by (unfold is_u32; lia).
    + intros s Hs. specialize (Hexact s). rewrite Hs in Hexact. rewrite <- Hexact. unfold votes_at.
      destruct (votes e !! s) as [n|] eqn:En; cbn.
      * rewrite Forall_forall in Hmax. apply (Hmax (s, n)). rewrite Hp. by apply elem_of_map_to_list.
      * rewrite Hcount. apply support_bound.
  - subst entries. apply Permutation_nil in Hp. apply map_to_list_empty_iff in Hp.
    intros s Hs. specialize (Hexact s). unfold votes_at in Hexact. by rewrite Hp, Hs in Hexact.
Qed.

(** One segment of four pages; three addresses in it at slide [0x8000]. *)
Definition demo_segments : list (Z * Z) := [(0x10000, 0x20000); (0x40000, 0x48000)].
Definition demo_avmas : list Z := [0x18000; 0x27ffc; 0x48000; 0x4fffc].

Lemma slide_best_supported_witness :
  exists e, observe_all (new demo_segments) demo_avmas = Some e /\
    votes_at (votes e) 0x8000 = 4 /\
    finalize (map_to_list (votes e)) e = Some (0x8000, (4, 4)).
Proof.
  destruct (slide_best_supported demo_segments demo_avmas) as (e & E & Hvotes & Hbest).
  - repeat constructor; cbn; unfold SLIDE_ALIGNMENT, MAX_PER_OBS; lia.
  - cbn. split_ands; try done. constructor; [left; cbn; lia|constructor].
  - repeat constructor; cbn; lia.
  - cbn. lia.
  - exists e. split; [exact E|]. split; [rewrite Hvotes; by vm_compute|].
    assert (E' : observe_all (new demo_segments) demo_avmas = Some e) by exact E.
    specialize (Hbest (map_to_list (votes e)) (Permutation_refl _)). clear Hbest Hvotes E.
    revert E'. vm_compute. intros [= <-]. vm_compute. reflexivity.
Defined.

(** ** Lemmas on the blob *)

Lemma hex_digits_length fuel k : forall n,
  (k < fuel)%nat -> 16 ^ Z.of_nat k <= n -> (k < length (Text.hex_digits_rev fuel n))%nat.
Proof.
  induction k as [|k IH] in fuel |- *; intros n Hf Hn; (destruct fuel as [|fuel]; [lia|]);
    cbn [Text.hex_digits_rev length]; [lia|].
  rewrite Nat2Z.inj_succ, Z.pow_succ_r in Hn by lia.
  assert (0 < 16 ^ Z.of_nat k) by lia.
  assert (Hq : 16 ^ Z.of_nat k <= n / 16) by (apply Z.div_le_lower_bound; lia).
  rewrite bool_decide_eq_false_2 by lia. specialize (IH fuel (n / 16) ltac:(lia) Hq). lia.
Qed.

Lemma hex16_kernel n : KernelSymbols.is_kernel_address n = true -> hex16 n = Text.to_hex n.
Proof.
  unfold KernelSymbols.is_kernel_address. rewrite bool_decide_eq_true. intros Hn.
  unfold hex16. replace (16 - length (Text.to_hex n))%nat with 0%nat; [done|].
  unfold Text.to_hex. rewrite length_reverse.
  pose proof (hex_digits_length 16 15 n ltac:(lia)). lia.
Qed.

(** A symbol the reader keeps: its slid address is in the kernel half and its
    name is one word. *)
Definition printable (slide : Z) (s : Z * list Z) : Prop :=
  KernelSymbols.is_kernel_address (wadd64 s.1 slide) = true /\ KernelSymbols.word s.2.

#[export] Instance printable_dec slide s : Decision (printable slide s).
Proof. unfold printable. apply _. Defined.

Definition as_listed (slide : Z) (s : Z * list Z) : KernelSymbols.listed :=
  KernelSymbols.mkListed (wadd64 s.1 slide) (str "T") s.2 None.

(** ** Properties of the blob *)

(** The blob reads back: parsing what [format_kallsyms] prints gives every
    symbol of the image, in order, at its slid address, as a function of the
    module [kernel]. *)
Theorem kallsyms_blob_roundtrip slide image :
  Forall (printable slide) (symbols image) ->
  KernelSymbols.parse_kallsyms (format_kallsyms slide image) =
  map (fun s => KernelSymbols.mkKernelFunctionEntry (str "kernel") (wadd64 s.1 slide)
                  (Some (Text.as_bytes s.2))) (symbols image).
Proof.
  intros Hok.
  assert (E : format_kallsyms slide image =
              Text.as_bytes (KernelSymbols.kallsyms_text (map (as_listed slide) (symbols image)))).
  { unfold format_kallsyms, KernelSymbols.kallsyms_text. f_equal.
    induction Hok as [|s l [Hk _] _ IH]; [done|]. cbn [map]. rewrite !bind_cons, IH.
    unfold format_line, KernelSymbols.kallsyms_line. rewrite hex16_kernel by done.
    cbn [as_listed KernelSymbols.l_address KernelSymbols.l_kind KernelSymbols.l_name KernelSymbols.l_module].
    rewrite app_nil_r. by rewrite <- !(assoc_L (++)). }
  rewrite E, KernelSymbols.kallsyms_roundtrip.
  - rewrite map_map. apply map_ext. intros s. unfold KernelSymbols.entry_of. cbn. done.
  - apply Forall_map. eapply Forall_impl; [exact Hok|]. intros s [Hk Hw].
    unfold KernelSymbols.listed_ok. split_ands; try done. apply as_u64_range.
Qed.

Definition demo_image : KernelImage :=
  mkKernelImage [] [(0xfffffe0007004000, str "_start"); (0xfffffe0007104abc, str "_thread_block")]
                [(0xfffffe0007004000, 0xfffffe0007800000)].

Lemma kallsyms_blob_roundtrip_witness :
  Forall (printable 0x14000) (symbols demo_image) /\
  KernelSymbols.parse_kallsyms (str "fffffe0007018000 T _start" ++ [10] ++
                                str "fffffe0007118abc T _thread_block" ++ [10]) =
  [KernelSymbols.mkKernelFunctionEntry (str "kernel") 0xfffffe0007018000 (Some (str "_start"));
   KernelSymbols.mkKernelFunctionEntry (str "kernel") 0xfffffe0007118abc (Some (str "_thread_block"))].
Proof.
  assert (H : Forall (printable 0x14000) (symbols demo_image))
    by (apply (bool_decide_unpack _); by vm_compute).
  split; [exact H|]. exact (kallsyms_blob_roundtrip 0x14000 demo_image H).
Defined.

End KernelSlide.
