(* ===== verification/ImageScan.v ===== *)
(** * The image scanner

    [stax-mac-kperf-parse/src/image_scan.rs]: the diff of the target's
    executable regions against the images known so far, and the symbol table of
    an on-disk image.  The region list (libproc), the Mach-O reader and the dyld
    shared cache are arguments. *)

From S2P Require Import Prelude Sink.

Module ImageScan.
Export Sink.

(** [libproc::Region] as the scanner reads it. *)
Record Region := mkRegion {
  r_path : list Z;
  r_address : Z;
  r_size : Z;
  r_is_executable : bool
}.

(** [known] is keyed by path and base address. *)
Record LoadedImage := mkLoadedImage {
  path : list Z;
  base_avma : Z;
  vmsize : Z;
  text_svma : Z;
  uuid : option (list Z);
  arch : option (list Z);
  is_executable : bool;
  img_symbols : list MachOSymbol;
  from_cache : bool
}.

Definition key : Type := list Z * Z.

Record ImageScanner := mkImageScanner { known : gmap key LoadedImage }.

Definition new : ImageScanner := mkImageScanner ∅.

(** ** The symbols of an on-disk image *)

Record ParsedMachO := mkParsedMachO {
  p_text_svma : Z;
  p_text_vmsize : Z;
  p_uuid : option (list Z);
  p_arch : option (list Z);
  p_is_executable : bool;
  p_symbols : list MachOSymbol
}.

(** What the Mach-O reader gives for a regular file that parses: the segments
    with their names, the symbols with the names that can be read, and the
    addresses of the function-starts table. *)
Inductive Architecture := Aarch64 | X86_64 | OtherArchitecture.

Record MachOFile := mkMachOFile {
  segments : list (option (list Z) * (Z * Z));
  mach_uuid : option (list Z);
  architecture : Architecture;
  kind_executable : bool;
  file_symbols : list (Z * option (list Z));
  function_starts : list Z
}.

(** The architecture string of an image. *)
Definition arch_str (a : Architecture) : option (list Z) :=
  match a with
  | Aarch64 => Some (str "aarch64")
  | X86_64 => Some (str "x86_64")
  | OtherArchitecture => None
  end.

(** The symbols kept: at a non-zero address and with a name. *)
Definition named_symbol (s : Z * option (list Z)) : option (Z * list Z) :=
  if bool_decide (s.1 = 0) then None
  else match s.2 with
       | Some n => if bool_decide (n = []) then None else Some (s.1, n)
       | None => None
       end.

(** [dedup_by_key]: of neighbours with one key the first stays. *)
Fixpoint dedup_from {V} (prev : Z) (l : list (Z * V)) : list (Z * V) :=
  match l with
  | [] => []
  | x :: l' => if bool_decide (x.1 = prev) then dedup_from prev l' else x :: dedup_from x.1 l'
  end.

Definition dedup_by_key {V} (l : list (Z * V)) : list (Z * V) :=
  match l with
  | [] => []
  | x :: l' => x :: dedup_from x.1 l'
  end.

Definition by_key {V} (x y : Z * V) : bool := bool_decide (x.1 <= y.1).

(** [raw] after the sort and the dedup, and [fn_starts] likewise. *)
Definition raw_symbols (file : MachOFile) : list (Z * list Z) :=
  dedup_by_key (sort_by by_key (omap named_symbol (file_symbols file))).

Definition sorted_starts (file : MachOFile) : list Z :=
  map fst (dedup_by_key (sort_by by_key (map (fun a => (a, tt)) (function_starts file)))).

(** The end of a symbol: the next function start, clamped to the segment; with
    no table, the next symbol. *)
Definition symbol_end (fn_starts : list Z) (text_end start : Z) (next : option Z) : Z :=
  if bool_decide (fn_starts = []) then default (wadd64 start 4) next
  else
    let i := partition_point (fun fs => bool_decide (fs <= start)) fn_starts in
    Z.max (Z.min (default text_end (fn_starts !! i)) text_end) (wadd64 start 1).

Fixpoint symbols_from (fn_starts : list Z) (text_end : Z) (raw : list (Z * list Z)) : list MachOSymbol :=
  match raw with
  | [] => []
  | (start, name) :: raw' =>
      mkMachOSymbol start (symbol_end fn_starts text_end start (fst <$> head raw')) name
      :: symbols_from fn_starts text_end raw'
  end.

(** [parse_disk_macho] on a file that parses; [None] is its [Err]. *)
Definition parse_disk_macho (file : MachOFile) : option ParsedMachO :=
  match list_find (fun s => s.1 = Some (str "__TEXT")) (segments file) with
  | None => None
  | Some (_, (_, (text_svma, text_vmsize))) =>
      let text_end := sadd64 text_svma text_vmsize in
      Some (mkParsedMachO text_svma text_vmsize (mach_uuid file) (arch_str (architecture file))
              (kind_executable file) (symbols_from (sorted_starts file) text_end (raw_symbols file)))
  end.

(** One image of the dyld shared cache. *)
Record CacheImage := mkCacheImage {
  c_text_vmsize : Z;
  c_text_svma : Z;
  c_uuid : option (list Z);
  c_symbols : list MachOSymbol
}.

Section Scan.

(** The files of the target system, the shared cache when there is one, and the
    architecture the recorder was built for. *)
Variable disk_file : list Z -> option MachOFile.
Variable shared_cache : option (list Z -> option CacheImage).
Variable host_arch : option (list Z).

Definition build_image (path : list Z) (base_avma region_size : Z) : LoadedImage :=
  match disk_file path ≫= parse_disk_macho with
  | Some parsed =>
      mkLoadedImage path base_avma (Z.max (p_text_vmsize parsed) region_size) (p_text_svma parsed)
        (p_uuid parsed) (p_arch parsed) (p_is_executable parsed) (p_symbols parsed) false
  | None =>
      match shared_cache ≫= (fun cache => cache path) with
      | Some img =>
          mkLoadedImage path base_avma (Z.max (c_text_vmsize img) region_size) (c_text_svma img)
            (c_uuid img) host_arch false (c_symbols img) false
      | None => mkLoadedImage path base_avma region_size base_avma None None false [] false
      end
  end.

(** ** The rescan *)

Definition region_key (r : Region) : key := (r_path r, r_address r).
Definition is_image (r : Region) : bool := negb (bool_decide (r_path r = [])) && r_is_executable r.

(** The loop that collects [current] and [to_add]. *)
Definition collect (k : gmap key LoadedImage) (acc : gset key * list Region) (r : Region)
    : gset key * list Region :=
  if negb (is_image r) then acc else
  let '(current, to_add) := acc in
  if bool_decide (region_key r ∈ current) then acc else
  ({[region_key r]} ∪ current,
   if bool_decide (k !! region_key r = None) then to_add ++ [r] else to_add).

Definition unloaded_event (pid : Z) (img : LoadedImage) : call :=
  on_binary_unloaded (mkBinaryUnloadedEvent pid (base_avma img) (path img)).

Definition loaded_event (pid : Z) (img : LoadedImage) : call :=
  on_binary_loaded (mkBinaryLoadedEvent pid (base_avma img) (vmsize img) (text_svma img) (path img)
    (uuid img) (arch img) (is_executable img) (img_symbols img) None).

(** One turn of the removal and of the insertion loop. *)
Definition remove_one (pid : Z) (acc : gmap key LoadedImage * list call) (k : key)
    : gmap key LoadedImage * list call :=
  match acc.1 !! k with
  | Some img => (delete k acc.1, acc.2 ++ [unloaded_event pid img])
  | None => acc
  end.

Definition add_one (pid : Z) (acc : gmap key LoadedImage * list call) (r : Region)
    : gmap key LoadedImage * list call :=
  let img := build_image (r_path r) (r_address r) (r_size r) in
  (<[region_key r := img]> acc.1, acc.2 ++ [loaded_event pid img]).

(** [rescan]: [entries] are the known images in the order the hash map is
    iterated; the calls made on the sink come with the new state. *)
Definition rescan (pid : Z) (regions : list Region) (entries : list (key * LoadedImage))
    (s : ImageScanner) : ImageScanner * list call :=
  let '(current, to_add) := foldl (collect (known s)) (∅, []) regions in
  let to_remove := map fst (filter (fun e => from_cache e.2 = false /\ e.1 ∉ current) entries) in
  let '(k, out) := foldl (remove_one pid) (known s, []) to_remove in
  let '(k, out) := foldl (add_one pid) (k, out) to_add in
  (mkImageScanner k, out).

(** Any number of rescans from a new scanner, with the calls they made. *)
Inductive scanned (pid : Z) : ImageScanner -> list call -> Prop :=
  | scanned_new : scanned pid new []
  | scanned_step s log regions entries :
      scanned pid s log -> entries ≡ₚ map_to_list (known s) ->
      scanned pid (rescan pid regions entries s).1 (log ++ (rescan pid regions entries s).2).

(** ** The sink's view *)

(** The images a sink holds after a log; [None] when the log loads an image that
    is already there or unloads one that is not. *)
Definition apply_call (m : gset key) (c : call) : option (gset key) :=
  match c with
  | on_binary_loaded ev =>
      if bool_decide ((bl_path ev, bl_base_avma ev) ∈ m) then None
      else Some ({[(bl_path ev, bl_base_avma ev)]} ∪ m)
  | on_binary_unloaded ev =>
      if bool_decide ((bu_path ev, bu_base_avma ev) ∈ m) then Some (m ∖ {[(bu_path ev, bu_base_avma ev)]})
      else None
  | _ => Some m
  end.

Definition replay : gset key -> list call -> option (gset key) := foldlM apply_call.

Definition known_ok (k : gmap key LoadedImage) : Prop :=
  map_Forall (fun i img => (path img, base_avma img) = i /\ from_cache img = false) k.

Definition image_keys (regions : list Region) : list key := region_key <$> filter (fun r => is_image r = true) regions.

Lemma build_image_key p b n : let img := build_image p b n in path img = p /\ base_avma img = b /\ from_cache img = false.
Proof.
  unfold build_image. destruct (disk_file p ≫= parse_disk_macho); [done|].
  by destruct (shared_cache ≫= _).
Qed.

Lemma collect_spec k regions : forall current to_add,
  NoDup (region_key <$> to_add) ->
  (forall i, i ∈ region_key <$> to_add <-> i ∈ current /\ k !! i = None) ->
  let '(current', to_add') := foldl (collect k) (current, to_add) regions in
  current' = current ∪ list_to_set (image_keys regions) /\
  NoDup (region_key <$> to_add') /\
  (forall i, i ∈ region_key <$> to_add' <-> i ∈ current' /\ k !! i = None).
Proof.
  unfold image_keys. induction regions as [|r regions IH]; intros current to_add Hnd Hin; cbn [foldl].
  { split_ands; [set_solver|done|done]. }
  unfold collect at 2. destruct (is_image r) eqn:Er; cbn [negb].
  - rewrite filter_cons_True by done. rewrite fmap_cons. cbn [list_to_set]. case_bool_decide as Hc.
    + specialize (IH current to_add Hnd Hin). destruct (foldl _ _ _) as [c' a'].
      destruct IH as (-> & ? & ?). split_ands; [set_solver|done|done].
    + case_bool_decide as Hk.
      * specialize (IH ({[region_key r]} ∪ current) (to_add ++ [r])).
        destruct (foldl _ _ _) as [c' a']. destruct IH as (-> & ? & ?).
        -- rewrite fmap_app. apply NoDup_app. split_ands; [done| |apply NoDup_singleton].
           intros i Hi Hr. apply list_elem_of_singleton in Hr as ->. apply Hin in Hi. by destruct Hi.
        -- intros i. rewrite fmap_app, elem_of_app, Hin. cbn. rewrite list_elem_of_singleton. set_solver.
        -- split_ands; [set_solver|done|done].
      * specialize (IH ({[region_key r]} ∪ current) to_add Hnd).
        destruct (foldl _ _ _) as [c' a']. destruct IH as (-> & ? & ?); [set_solver|].
        split_ands; [set_solver|done|done].
  - rewrite filter_cons_False by congruence. by apply IH.
Qed.

Lemma replay_snoc m log c : replay m (log ++ [c]) = replay m log ≫= (fun m' => apply_call m' c).
Proof.
  revert m. induction log as [|c' log IH]; intros m; cbn.
  - by destruct (apply_call m c).
  - destruct (apply_call m c'); [|done]. apply IH.
Qed.

Lemma replay_app a b : forall m, replay m (a ++ b) = replay m a ≫= (fun m' => replay m' b).
Proof.
  induction a as [|c a IH]; intros m; cbn; [done|]. destruct (apply_call m c); [|done]. apply IH.
Qed.

Lemma remove_all pid keys : forall k out m,
  known_ok k -> NoDup keys -> Forall (fun i => is_Some (k !! i)) keys -> replay m out = Some (dom k) ->
  let '(k', out') := foldl (remove_one pid) (k, out) keys in
  known_ok k' /\ dom k' = dom k ∖ list_to_set keys /\ replay m out' = Some (dom k').
Proof.
  induction keys as [|i keys IH]; intros k out m Hk Hnd Hin Hr; cbn [foldl].
  { split_ands; [done|set_solver|done]. }
  apply NoDup_cons in Hnd as [Hni Hnd]. apply Forall_cons in Hin as [[img Hi] Hin].
  unfold remove_one at 2. cbn [fst snd]. rewrite Hi. destruct (Hk _ _ Hi) as [Hkey _].
  specialize (IH (delete i k) (out ++ [unloaded_event pid img]) m).
  destruct (foldl _ _ _) as [k' out']. destruct IH as (Hk' & Hdom & Hr'); [| | | |split_ands]; try done.
  - by apply map_Forall_delete.
  - rewrite Forall_forall in *. intros j Hj. rewrite lookup_delete_ne by set_solver. by apply Hin.
  - rewrite replay_snoc, Hr. cbn. rewrite Hkey, bool_decide_eq_true_2 by (by apply elem_of_dom_2 in Hi).
    f_equal. by rewrite dom_delete_L.
  - rewrite Hdom, dom_delete_L. set_solver.
Qed.

Lemma add_all pid rs : forall k out m,
  known_ok k -> NoDup (region_key <$> rs) -> Forall (fun r => k !! region_key r = None) rs ->
  replay m out = Some (dom k) ->
  let '(k', out') := foldl (add_one pid) (k, out) rs in
  known_ok k' /\ dom k' = dom k ∪ list_to_set (region_key <$> rs) /\ replay m out' = Some (dom k').
Proof.
  induction rs as [|r rs IH]; intros k out m Hk Hnd Hin Hr; cbn [foldl].
  { split_ands; [done|set_solver|done]. }
  rewrite fmap_cons in Hnd. apply NoDup_cons in Hnd as [Hni Hnd]. apply Forall_cons in Hin as [Hi Hin].
  unfold add_one at 2. cbn [fst snd].
  destruct (build_image_key (r_path r) (r_address r) (r_size r)) as (Hp & Hb & Hc).
  set (img := build_image _ _ _) in *. clearbody img.
  specialize (IH (<[region_key r := img]> k) (out ++ [loaded_event pid img]) m).
  destruct (foldl _ _ _) as [k' out']. destruct IH as (Hk' & Hdom & Hr'); [| | | |split_ands]; try done.
  - apply map_Forall_insert_2; [|done]. unfold region_key. by rewrite Hp, Hb.
  - rewrite Forall_forall in *. intros r' Hr'. rewrite lookup_insert_ne; [by apply Hin|].
    intros E. apply Hni. rewrite E. by apply list_elem_of_fmap_2.
  - rewrite replay_snoc, Hr. cbn. rewrite Hp, Hb. rewrite bool_decide_eq_false_2.
    + f_equal. by rewrite dom_insert_L.
    + by apply not_elem_of_dom.
  - rewrite Hdom, dom_insert_L, fmap_cons. cbn [list_to_set]. set_solver.
Qed.

Lemma rescan_spec pid regions entries s log :
  known_ok (known s) -> replay ∅ log = Some (dom (known s)) -> entries ≡ₚ map_to_list (known s) ->
  let '(s', out) := rescan pid regions entries s in
  known_ok (known s') /\ dom (known s') = list_to_set (image_keys regions) /\
  replay ∅ (log ++ out) = Some (dom (known s')).
Proof.
  intros Hk Hr Hp. unfold rescan.
  pose proof (collect_spec (known s) regions ∅ []) as Hc.
  destruct (foldl (collect _) _ _) as [current to_add].
  destruct Hc as (Hcur & Hnd & Hadd); [constructor|set_solver|].
  set (to_remove := map fst _).
  assert (Hrem : forall i, i ∈ to_remove <-> is_Some (known s !! i) /\ i ∉ current).
  { intros i. subst to_remove. rewrite list_elem_of_fmap. split.
    - intros ([j img] & -> & [[_ Hj] He]%list_elem_of_filter). rewrite Hp in He.
      apply elem_of_map_to_list in He. split; [by eexists|done].
    - intros [[img Hi] Hni]. exists (i, img). split; [done|]. apply list_elem_of_filter.
      split; [split; [apply (Hk _ _ Hi)|done]|]. rewrite Hp. by apply elem_of_map_to_list. }
  pose proof (remove_all pid to_remove (known s) [] (dom (known s))) as H1.
  destruct (foldl (remove_one pid) _ _) as [k1 out1]. destruct H1 as (Hk1 & Hdom1 & Hr1); [done| | |done|].
  { subst to_remove. change (map fst) with (fmap (M := list) (fst (A := key) (B := LoadedImage))).
    eapply NoDup_fmap_fst; [|apply NoDup_filter; rewrite Hp; apply NoDup_map_to_list].
    intros i x y [_ Hx]%list_elem_of_filter [_ Hy]%list_elem_of_filter. rewrite Hp in Hx, Hy.
    apply elem_of_map_to_list in Hx, Hy. congruence. }
  { apply Forall_forall. intros i Hi. by apply Hrem in Hi as []. }
  pose proof (add_all pid to_add k1 out1 (dom (known s))) as H2.
  destruct (foldl (add_one pid) _ _) as [k2 out2]. destruct H2 as (Hk2 & Hdom2 & Hr2); [done|done| |done|].
  { apply Forall_forall. intros r Hr'. apply not_elem_of_dom. rewrite Hdom1.
    assert (Hi : region_key r ∈ region_key <$> to_add) by (by apply list_elem_of_fmap_2).
    apply Hadd in Hi as [_ Hi]. apply not_elem_of_dom in Hi. set_solver. }
  cbn [known]. split_ands; [done| |].
  - rewrite Hdom2, Hdom1, Hcur in *. apply set_eq. intros i.
    rewrite elem_of_union, elem_of_difference, !elem_of_list_to_set, Hadd, Hrem, elem_of_dom.
    rewrite <- not_elem_of_dom, elem_of_dom. rewrite elem_of_union, elem_of_list_to_set.
    clear. rewrite elem_of_empty. destruct (decide (is_Some (known s !! i))), (decide (i ∈ image_keys regions)); tauto.
  - rewrite replay_app, Hr. exact Hr2.
Qed.

Lemma scanned_ok pid s log : scanned pid s log -> known_ok (known s) /\ replay ∅ log = Some (dom (known s)).
Proof.
  induction 1 as [|s log regions entries _ [Hk Hr] Hp]; [by split|].
  pose proof (rescan_spec pid regions entries s log Hk Hr Hp) as H.
  destruct (rescan pid regions entries s). by destruct H as (? & _ & ?).
Qed.

(** ** Properties *)

(** The scanner and its sink never drift apart: over any number of rescans, in
    whatever order the hash map is iterated, the calls load only images that are
    absent and unload only images that are present, and after each rescan the
    images the sink holds are the scanner's, which are exactly the executable
    regions with a path that the rescan was given. *)
Theorem scan_in_sync pid s log regions entries :
  scanned pid s log -> entries ≡ₚ map_to_list (known s) ->
  let '(s', out) := rescan pid regions entries s in
  replay ∅ (log ++ out) = Some (dom (known s')) /\
  forall p a, is_Some (known s' !! (p, a)) <->
    exists r, r ∈ regions /\ r_path r = p /\ r_address r = a /\ p <> [] /\ r_is_executable r = true.
Proof.
  intros [Hk Hr]%scanned_ok Hp. pose proof (rescan_spec pid regions entries s log Hk Hr Hp) as H.
  destruct (rescan pid regions entries s) as [s' out]. destruct H as (_ & Hdom & Hr').
  split; [done|]. intros p a. rewrite <- elem_of_dom, Hdom, elem_of_list_to_set. unfold image_keys.
  rewrite list_elem_of_fmap. unfold is_image, region_key. split.
  - intros (r & [= -> ->] & [Hi Hin]%list_elem_of_filter).
    apply andb_true_iff in Hi as [Hne Hx]. apply negb_true_iff, bool_decide_eq_false in Hne. by exists r.
  - intros (r & Hin & <- & <- & Hne & Hx). exists r. split; [done|]. apply list_elem_of_filter.
    split; [|done]. by rewrite Hx, bool_decide_eq_false_2 by done.
Qed.
End Scan.

(** Two images; the first is unloaded while a third is mapped. *)
Definition demo_regions (i : nat) : list Region :=
  match i with
  | O => [mkRegion (str "/bin/app") 0x1000 0x1000 true; mkRegion [] 0x5000 0x1000 true;
          mkRegion (str "/lib/a") 0x8000 0x2000 true; mkRegion (str "/lib/a") 0x8000 0x2000 true]
  | _ => [mkRegion (str "/lib/a") 0x8000 0x2000 true; mkRegion (str "/lib/b") 0xc000 0x1000 true;
          mkRegion (str "/data") 0xf000 0x1000 false]
  end.

Definition demo_scan1 := rescan (fun _ => None) None None 7 (demo_regions 0) [] new.

Lemma demo_scanned : scanned (fun _ => None) None None 7 demo_scan1.1 demo_scan1.2.
Proof. apply (scanned_step _ _ _ 7 new [] (demo_regions 0) []); [constructor|done]. Qed.

Lemma scan_in_sync_witness :
  let '(s', out) := rescan (fun _ => None) None None 7 (demo_regions 1) (map_to_list (known demo_scan1.1)) demo_scan1.1 in
  replay ∅ (demo_scan1.2 ++ out) = Some (dom (known s')) /\ length out = 2%nat.
Proof.
  pose proof (scan_in_sync (fun _ => None) None None 7 demo_scan1.1 demo_scan1.2 (demo_regions 1) _
                demo_scanned (Permutation_refl _)) as H.
  destruct (rescan _ _ _ 7 (demo_regions 1) _ demo_scan1.1) as [s' out] eqn:E.
  split; [exact (proj1 H)|]. clear H. revert E. vm_compute. intros [= _ <-]. reflexivity.
Defined.

(** ** Lemmas on symbol tables *)

Lemma dedup_from_keys {V} (l : list (Z * V)) : forall prev k,
  k ∈ prev :: map fst (dedup_from prev l) <-> k ∈ prev :: map fst l.
Proof.
  induction l as [|x l IH]; intros prev k; [done|]. cbn [dedup_from map]. case_bool_decide as E.
  - rewrite IH. subst prev. set_solver.
  - cbn [map]. rewrite elem_of_cons, IH. set_solver.
Qed.

Lemma dedup_keys {V} (l : list (Z * V)) k : k ∈ map fst (dedup_by_key l) <-> k ∈ map fst l.
Proof. destruct l as [|x l]; [done|]. cbn [dedup_by_key map]. apply dedup_from_keys. Qed.

Lemma dedup_from_sub {V} (l : list (Z * V)) : forall prev, dedup_from prev l ⊆ l.
Proof.
  induction l as [|x l IH]; intros prev; [done|]. cbn [dedup_from].
  case_bool_decide; [|pose proof (IH x.1)]; set_solver.
Qed.

Lemma dedup_sub {V} (l : list (Z * V)) : dedup_by_key l ⊆ l.
Proof. destruct l as [|x l]; [done|]. cbn. pose proof (dedup_from_sub l x.1). set_solver. Qed.

Definition key_lt {V} (x y : Z * V) : Prop := x.1 < y.1.

Lemma dedup_from_sorted {V} (l : list (Z * V)) :
  StronglySorted (fun x y => x.1 <= y.1) l -> forall prev, Forall (fun x => prev <= x.1) l ->
  StronglySorted key_lt (dedup_from prev l) /\ Forall (fun x => prev < x.1) (dedup_from prev l).
Proof.
  induction 1 as [|x l Hl IH Hx]; intros prev Hp; [split; constructor|].
  apply Forall_cons in Hp as [Hpx Hp]. cbn [dedup_from]. case_bool_decide as E; [by apply IH|].
  destruct (IH x.1 Hx) as [Hs Hlt]. split; [by constructor|]. constructor; [lia|].
  eapply Forall_impl; [exact Hlt|]. cbn. lia.
Qed.

Lemma sort_dedup_sorted {V} (l : list (Z * V)) : StronglySorted key_lt (dedup_by_key (sort_by by_key l)).
Proof.
  assert (Hs : StronglySorted (fun x y => x.1 <= y.1) (sort_by by_key l)).
  { eapply StronglySorted_weaken; [|apply sort_by_sorted].
    - intros x y. apply bool_decide_eq_true.
    - intros x y. unfold by_key. rewrite bool_decide_eq_false, bool_decide_eq_true. lia.
    - intros x y z. unfold by_key. rewrite !bool_decide_eq_true. lia. }
  destruct (sort_by by_key l) as [|x l']; [constructor|]. inversion_clear Hs as [|? ? Hl' Hx].
  destruct (dedup_from_sorted l' Hl' x.1 Hx) as [? ?]. by constructor.
Qed.

Lemma sorted_starts_spec file :
  StronglySorted Z.lt (sorted_starts file) /\ forall a, a ∈ sorted_starts file <-> a ∈ function_starts file.
Proof.
  unfold sorted_starts. split.
  - pose proof (sort_dedup_sorted (map (fun a => (a, tt)) (function_starts file))) as H.
    induction H as [|x l Hl IH Hx]; cbn [map]; constructor; [done|]. by apply Forall_map.
  - intros a. rewrite dedup_keys. change (map fst) with (fmap (M := list) (fst (A := Z) (B := unit))).
    rewrite sort_by_perm. rewrite <- list_fmap_compose. change (fst ∘ _) with (@id Z). by rewrite list_fmap_id.
Qed.

(** The end of a symbol against the function starts. *)
Lemma symbol_end_spec starts text_end start next :
  StronglySorted Z.lt starts -> starts <> [] -> 0 <= start < text_end -> text_end < 2 ^ 64 ->
  let e := symbol_end starts text_end start next in
  start < e <= text_end /\ (e = text_end \/ e ∈ starts) /\ Forall (fun a => a <= start \/ e <= a) starts.
Proof.
  intros Hs Hne Hlt Hmax. unfold symbol_end. rewrite bool_decide_eq_false_2 by done.
  rewrite wadd64_small by lia. set (f := fun fs => bool_decide (fs <= start)).
  unfold partition_point. pose proof (take_while_drop_while f starts) as Hsplit.
  assert (Hdown : forall x y, x < y -> f y = true -> f x = true)
    by (intros x y ?; unfold f; rewrite !bool_decide_eq_true; lia).
  pose proof (take_while_sorted Z.lt f starts Hdown Hs) as Ht.
  pose proof (drop_while_sorted Z.lt f starts Hdown Hs) as Hd.
  assert (Hlow : Forall (fun a => a <= start) (take_while f starts)).
  { rewrite Ht. apply Forall_forall. intros a [Ha _]%list_elem_of_filter. by apply bool_decide_eq_true in Ha. }
  assert (Hhigh : Forall (fun a => start < a) (drop_while f starts)).
  { rewrite Hd. apply Forall_forall. intros a [Ha _]%list_elem_of_filter. apply bool_decide_eq_false in Ha. lia. }
  assert (Hi : starts !! length (take_while f starts) = head (drop_while f starts)).
  { assert (E : (take_while f starts ++ drop_while f starts) !! length (take_while f starts) = head (drop_while f starts)).
    { rewrite lookup_app_r, Nat.sub_diag by lia. by destruct (drop_while f starts). }
    by rewrite Hsplit in E. }
  rewrite Hi. clear Hi Ht Hd Hdown Hne. revert Hs Hlow Hhigh Hsplit.
  generalize (take_while f starts), (drop_while f starts). clear f. intros low high Hs Hlow Hhigh <-.
  apply StronglySorted_app in Hs as (_ & _ & Hs). rewrite Forall_app.
  destruct high as [|a rest]; cbn [head default from_option id].
  - rewrite Z.min_id, Z.max_l by lia. split_ands; [lia|lia|by left| |constructor].
    eapply Forall_impl; [exact Hlow|]. cbn. lia.
  - inversion_clear Hs as [|? ? _ Ha]. apply Forall_inv in Hhigh as Hsa.
    rewrite Z.max_l by lia. split_ands; [lia|lia| | |].
    + destruct (decide (a <= text_end)); [right|left; lia]. rewrite Z.min_l by lia. set_solver.
    + eapply Forall_impl; [exact Hlow|]. cbn. lia.
    + constructor; [lia|]. eapply Forall_impl; [exact Ha|]. cbn. lia.
Qed.

Lemma symbols_from_lookup starts text_end raw : forall i s,
  symbols_from starts text_end raw !! i = Some s ->
  raw !! i = Some (start_svma s, sym_name s) /\
  exists next, end_svma s = symbol_end starts text_end (start_svma s) next.
Proof.
  induction raw as [|[a n] raw IH]; intros i s; [done|]. cbn [symbols_from]. destruct i as [|i]; cbn [lookup list_lookup].
  - intros [= <-]. split; [done|by eexists].
  - apply IH.
Qed.

Lemma symbols_from_map starts text_end raw :
  map (fun s => (start_svma s, sym_name s)) (symbols_from starts text_end raw) = raw.
Proof. induction raw as [|[a n] raw IH]; [done|]. cbn [symbols_from map]. by rewrite IH. Qed.

Lemma named_symbol_Some s a n :
  named_symbol s = Some (a, n) <-> s = (a, Some n) /\ a <> 0 /\ n <> [].
Proof.
  destruct s as [a' [n'|]]; unfold named_symbol; cbn [fst snd]; repeat case_bool_decide; naive_solver.
Qed.

Lemma raw_symbols_sub file a n :
  (a, n) ∈ raw_symbols file -> (a, Some n) ∈ file_symbols file /\ a <> 0 /\ n <> [].
Proof.
  intros Hin. apply dedup_sub in Hin. rewrite sort_by_perm in Hin.
  apply list_elem_of_omap in Hin as (s & Hs & Hn). apply named_symbol_Some in Hn as (-> & ? & ?). done.
Qed.

Lemma raw_symbols_keys file a :
  a ∈ map fst (raw_symbols file) <-> exists n, (a, Some n) ∈ file_symbols file /\ a <> 0 /\ n <> [].
Proof.
  unfold raw_symbols. rewrite dedup_keys.
  change (map fst) with (fmap (M := list) (fst (A := Z) (B := list Z))). rewrite sort_by_perm, list_elem_of_fmap.
  split.
  - intros ([a' n] & -> & (s & Hs & Hn)%list_elem_of_omap). apply named_symbol_Some in Hn as (-> & ? & ?).
    by exists n.
  - intros (n & Hin & Ha & Hn). exists (a, n). split; [done|]. apply list_elem_of_omap.
    exists (a, Some n). split; [done|]. by apply named_symbol_Some.
Qed.

(** ** Properties of symbol tables *)

(** The symbol table of an on-disk image: one symbol for every non-zero address
    the file names, in strictly ascending order, under a name the file gives
    it; and where the file lists its function starts, a symbol of the segment
    ends exactly at the next function start or the segment's end: it is not
    empty, stays in the segment and no function starts inside it. *)
Theorem disk_symbols_exact file p :
  parse_disk_macho file = Some p ->
  let text_end := sadd64 (p_text_svma p) (p_text_vmsize p) in
  StronglySorted (fun x y => start_svma x < start_svma y) (p_symbols p) /\
  (forall a, a ∈ map start_svma (p_symbols p) <->
     exists n, (a, Some n) ∈ file_symbols file /\ a <> 0 /\ n <> []) /\
  (forall s, s ∈ p_symbols p ->
     (start_svma s, Some (sym_name s)) ∈ file_symbols file /\
     (function_starts file <> [] -> 0 <= start_svma s < text_end ->
        start_svma s < end_svma s <= text_end /\
        (end_svma s = text_end \/ end_svma s ∈ function_starts file) /\
        forall a, a ∈ function_starts file -> a <= start_svma s \/ end_svma s <= a)).
Proof.
  unfold parse_disk_macho. destruct (list_find _ _) as [[? [? [text_svma text_vmsize]]]|]; [|done].
  intros [= <-]. cbn [p_text_svma p_text_vmsize p_symbols]. cbv zeta.
  set (text_end := sadd64 text_svma text_vmsize). set (syms := symbols_from _ _ _).
  assert (Hmap : map (fun s => (start_svma s, sym_name s)) syms = raw_symbols file) by apply symbols_from_map.
  split; [|split].
  - assert (Hs : StronglySorted key_lt (raw_symbols file)) by apply sort_dedup_sorted.
    rewrite <- Hmap in Hs. clearbody syms. clear Hmap. induction syms as [|s l IH]; [constructor|].
    cbn [map] in Hs. inversion_clear Hs as [|? ? Hl Hx]. constructor; [by apply IH|].
    rewrite Forall_map in Hx. exact Hx.
  - intros a. rewrite <- raw_symbols_keys, <- Hmap, map_map. done.
  - intros s Hin. apply list_elem_of_lookup in Hin as [i Hi].
    apply symbols_from_lookup in Hi as (Hraw & next & Hend). apply list_elem_of_lookup_2 in Hraw.
    split; [by apply raw_symbols_sub in Hraw as []|]. intros Hne Hlt.
    destruct (sorted_starts_spec file) as [Hsorted Hstarts].
    destruct (symbol_end_spec (sorted_starts file) text_end (start_svma s) next) as (He & Hin & Hall);
      [done| |done|unfold text_end; width; lia|].
    { intros E. destruct (function_starts file) as [|a l] eqn:Ef; [done|].
      assert (Ha : a ∈ sorted_starts file) by (apply Hstarts; set_solver). rewrite E in Ha. set_solver. }
    rewrite <- Hend in *. split_ands; try lia.
    + destruct Hin; [by left|right]. by apply Hstarts.
    + intros a Ha%Hstarts. rewrite Forall_forall in Hall. by apply Hall.
Qed.

(** A helper function the symbol table does not name lies between two named
    ones. *)
Definition demo_file : MachOFile :=
  mkMachOFile [(Some (str "__PAGEZERO"), (0, 0x1000)); (Some (str "__TEXT"), (0x1000, 0x1000))]
    None Aarch64 true
    [(0x1800, Some (str "_main")); (0x1200, Some (str "_parse")); (0x1200, Some (str "ltmp0")); (0, Some (str "x"));
     (0x1900, None)]
    [0x1200; 0x1400; 0x1800; 0x1900].

Lemma disk_symbols_exact_witness :
  exists p, parse_disk_macho demo_file = Some p /\
    p_symbols p = [mkMachOSymbol 0x1200 0x1400 (str "_parse"); mkMachOSymbol 0x1800 0x1900 (str "_main")] /\
    (forall s, s ∈ p_symbols p -> (start_svma s, Some (sym_name s)) ∈ file_symbols demo_file).
Proof.
  destruct (parse_disk_macho demo_file) as [p|] eqn:E; [|by vm_compute in E].
  exists p. split; [done|]. destruct (disk_symbols_exact demo_file p E) as (_ & _ & H).
  split; [|intros s Hs; by apply H]. clear H. revert E. vm_compute. intros [= <-]. reflexivity.
Defined.
End ImageScan.
