(* ===== verification/Pipeline.v ===== *)
(** * The client-side pipeline

    [stax-mac-kperf-parse/src/pipeline.rs]: the driver that feeds batches of
    kdebug records to the parser and the interval tracker, runs the periodic
    scans and hands every event to the sample sink; and
    [stax-mac-capture/src/recorder.rs], the cache of thread names.  What is only
    logged is left out. *)

From S2P Require Import Prelude Sink Kdebug Parser OffCpu Text Jitdump ImageScan KernelSlide.

(** ** Thread names *)

Module ThreadNames.

(** [ThreadNameCache]: the name last reported of each tid. *)
Definition ThreadNameCache : Type := gmap Z (list Z).

Definition note_thread (tid : Z) (name : list Z) (seen : ThreadNameCache) : ThreadNameCache * bool :=
  if bool_decide (seen !! tid = Some name) then (seen, false) else (<[tid := name]> seen, true).

(** The loop of [scan_thread_names] and of [scan_thread_names_for_observed];
    the lookup of a name is a system call. *)
Fixpoint scan_names (pid : Z) (thread_name : Z -> option (list Z)) (tids : list Z)
    (cache : ThreadNameCache) : ThreadNameCache * list Sink.call :=
  match tids with
  | [] => (cache, [])
  | tid64 :: tids' =>
      let tid := as_u32 tid64 in
      let '(cache, out) :=
        match thread_name tid64 with
        | Some name =>
            let '(cache, fresh) := note_thread tid name cache in
            (cache, if fresh then [Sink.on_thread_name (Sink.mkThreadNameEvent pid tid name)] else [])
        | None => (cache, [])
        end in
      let '(cache, out') := scan_names pid thread_name tids' cache in
      (cache, out ++ out')
  end.

End ThreadNames.

Module Pipeline.
Import Kdebug ThreadNames.
Export Sink.

Definition IMAGE_RESCAN_PERIOD : Z := 250 * 1000000.
Definition THREAD_NAME_RESCAN_PERIOD : Z := 50 * 1000000.
Definition JITDUMP_PROBE_PERIOD : Z := 500 * 1000000.
Definition SAMPLE_COUNTERS_LOG_PERIOD : Z := 2000 * 1000000.

Record PipelineConfig := mkPipelineConfig {
  pid : Z;
  frequency_hz : Z;
  pmc_idx_l1d : option nat;
  pmc_idx_brmiss : option nat
}.

(** ** Time *)

Record MachTimebase := mkMachTimebase { numer : Z; denom : Z }.

(** [MachTimebase::current] from the answer of [mach_timebase_info]. *)
Definition timebase_current (rc numer denom : Z) : MachTimebase :=
  if bool_decide (rc <> 0 \/ denom = 0) then mkMachTimebase 1 1 else mkMachTimebase numer denom.

Definition ticks_to_ns (ticks : Z) (t : MachTimebase) : Z :=
  Z.min (Z.land ticks KDBG_TIMESTAMP_MASK * numer t / denom t) u64_max.

(** ** State *)

Record Pipeline := mkPipeline {
  config : PipelineConfig;
  parser : Parser.Parser;
  offcpu : OffCpu.CpuIntervalTracker;
  images : ImageScan.ImageScanner;
  thread_names : ThreadNameCache;
  seen_tids : gset Z;
  kernel_image : option KernelSlide.KernelImage;
  slide_est : option KernelSlide.SlideEstimator;
  jitdump_tailer : option Jitdump.JitdumpTailer;
  jitdump_emitted : bool;
  next_image : Z;
  next_thread : Z;
  next_jitdump : Z;
  histogram : gmap (Z * Z * Z) Z;
  total_drained : Z;
  pmu_total_cycles : Z;
  pmu_total_insns : Z;
  pmu_samples : Z;
  samples_seen : Z;
  samples_empty_user : Z;
  samples_emitted : Z;
  next_counters_log : Z;
  timebase : MachTimebase
}.

#[export] Instance eta_Pipeline : Eta Pipeline := fun p =>
  mkPipeline (config p) (parser p) (offcpu p) (images p) (thread_names p) (seen_tids p)
    (kernel_image p) (slide_est p) (jitdump_tailer p) (jitdump_emitted p) (next_image p)
    (next_thread p) (next_jitdump p) (histogram p) (total_drained p) (pmu_total_cycles p)
    (pmu_total_insns p) (pmu_samples p) (samples_seen p) (samples_empty_user p)
    (samples_emitted p) (next_counters_log p) (timebase p).

Definition normalize_record_timestamp (p : Pipeline) (rec : KdBuf) : KdBuf :=
  rec <| timestamp ::= fun ticks => ticks_to_ns ticks (timebase p) |>.

(** ** Samples *)

(** [pmc_idx.and_then(|i| sample.pmc.get(i).copied()).unwrap_or(0)] *)
Definition pmc_get (pmc : list Z) (idx : option nat) : Z := default 0 (idx ≫= fun i => pmc !! i).

Definition sample_event (c : PipelineConfig) (s : Parser.Sample) : SampleEvent :=
  mkSampleEvent (Parser.s_timestamp_ns s) (pid c) (Parser.s_tid s) (Parser.user_backtrace s)
    (Parser.kernel_backtrace s) (pmc_get (Parser.s_pmc s) (Some 0%nat)) (pmc_get (Parser.s_pmc s) (Some 1%nat))
    (pmc_get (Parser.s_pmc s) (pmc_idx_l1d c)) (pmc_get (Parser.s_pmc s) (pmc_idx_brmiss c)).

(** [est.observe] for each kernel frame. *)
Definition observe_kernel (frames : list Z) (est : option KernelSlide.SlideEstimator)
    : option (option KernelSlide.SlideEstimator) :=
  match est with
  | None => Some None
  | Some e => Some <$> KernelSlide.observe_all e frames
  end.

Definition add_pmu (pmc : list Z) (p : Pipeline) : Pipeline :=
  match pmc with
  | [] => p
  | c :: rest =>
      let p := p <| pmu_samples ::= fun n => wadd64 n 1 |> <| pmu_total_cycles ::= fun n => sadd64 n c |> in
      match rest with
      | [] => p
      | i :: _ => p <| pmu_total_insns ::= fun n => sadd64 n i |>
      end
  end.

(** The closure [process_records] passes to the parser; [None] where the slide
    estimator does not return. *)
Definition handle_sample (s : Parser.Sample) (p : Pipeline) : option (Pipeline * list call) :=
  let p := p <| samples_seen ::= fun n => wadd64 n 1 |>
             <| seen_tids ::= fun tids => {[Parser.s_tid s]} ∪ tids |> in
  match observe_kernel (Parser.kernel_backtrace s) (slide_est p) with
  | None => None
  | Some est =>
      let p := add_pmu (Parser.s_pmc s) (p <| slide_est := est |>) in
      let p := p <| offcpu ::= OffCpu.note_sample (Parser.s_tid s) (Parser.user_backtrace s)
                                 (Parser.kernel_backtrace s) |> in
      if bool_decide (Parser.user_backtrace s = []) then
        Some (p <| samples_empty_user ::= fun n => wadd64 n 1 |>, [])
      else
        Some (p <| samples_emitted ::= fun n => wadd64 n 1 |>, [on_sample (sample_event (config p) s)])
  end.

Definition wakeup_event (c : PipelineConfig) (w : OffCpu.PendingWakeup) : WakeupEvent :=
  mkWakeupEvent (OffCpu.pw_timestamp_ns w) (pid c) (OffCpu.pw_waker_tid w) (OffCpu.pw_wakee_tid w)
    (OffCpu.pw_waker_user_stack w) (OffCpu.pw_waker_kernel_stack w).

Definition interval_event (c : PipelineConfig) (i : OffCpu.PendingInterval) : CpuIntervalEvent :=
  mkCpuIntervalEvent (pid c) (OffCpu.pi_tid i) (OffCpu.start_ns i) (OffCpu.end_ns i)
    match OffCpu.kind i with
    | OffCpu.OnCpu => OnCpu
    | OffCpu.OffCpu user_stack _ waker_tid waker_user_stack => OffCpu user_stack waker_tid waker_user_stack
    end.

Section Process.
Variable strip_code_ptr : Z -> Z.

(** The histogram entry of a [DBG_PERF] record. *)
Definition count_perf (rec : KdBuf) (p : Pipeline) : Pipeline :=
  if bool_decide (kdbg_class (debugid rec) = DBG_PERF) then
    let key := (kdbg_subclass (debugid rec), kdbg_code (debugid rec), kdbg_func (debugid rec)) in
    p <| histogram ::= fun h => <[key := wadd64 (default 0 (h !! key)) 1]> h |>
  else p.

(** One turn of the loop of [process_records]. *)
Definition process_record (rec : KdBuf) (p : Pipeline) : option (Pipeline * list call) :=
  let rec := normalize_record_timestamp p rec in
  let class := kdbg_class (debugid rec) in
  if bool_decide (class <> DBG_PERF /\ class = DBG_MACH /\ kdbg_subclass (debugid rec) = DBG_MACH_SCHED) then
    Some (p <| offcpu ::= fun t => OffCpu.feed t rec |>, [])
  else
    let p := count_perf rec p in
    let '(q, emitted) := Parser.feed strip_code_ptr (parser p) rec in
    match emitted with
    | Some s => handle_sample s (p <| parser := q |>)
    | None => Some (p <| parser := q |>, [])
    end.

Fixpoint process_loop (records : list KdBuf) (p : Pipeline) : option (Pipeline * list call) :=
  match records with
  | [] => Some (p, [])
  | rec :: records' =>
      match process_record rec p with
      | None => None
      | Some (p, out) =>
          match process_loop records' p with
          | None => None
          | Some (p, out') => Some (p, out ++ out')
          end
      end
  end.

(** What follows the loop: the wakeups, then the intervals of the threads seen
    so far; the others are dropped. *)
Definition drain (p : Pipeline) : Pipeline * list call :=
  let '(t, wakeups) := OffCpu.drain_wakeups (offcpu p) in
  let '(t, intervals) := OffCpu.drain_pending t in
  (p <| offcpu := t |>,
   (on_wakeup ∘ wakeup_event (config p) <$> wakeups)
   ++ (on_cpu_interval ∘ interval_event (config p)
         <$> filter (fun i => OffCpu.pi_tid i ∈ seen_tids p) intervals)).

Definition process_records (records : list KdBuf) (p : Pipeline) : option (Pipeline * list call) :=
  let p := p <| total_drained ::= fun n => wadd64 n (Z.of_nat (length records)) |> in
  match process_loop records p with
  | None => None
  | Some (p, out) => let '(p, out') := drain p in Some (p, out ++ out')
  end.

End Process.

(** ** Start, periodic work and end *)

Section Environment.
Variable disk_file : list Z -> option ImageScan.MachOFile.
Variable shared_cache : option (list Z -> option ImageScan.CacheImage).
Variable host_arch : option (list Z).

(** [Pipeline::new]: the regions and thread names of the first scans, the
    kernel image when it loads, the time and the timebase.  The region scanner
    is new, so its hash map has no entries. *)
Definition new (c : PipelineConfig) (regions : list ImageScan.Region)
    (tids : option (list Z)) (thread_name : Z -> option (list Z))
    (image : option KernelSlide.KernelImage) (now : Z) (t : MachTimebase) : Pipeline * list call :=
  let out0 := match shared_cache with Some _ => [on_macho_byte_source] | None => [] end in
  let '(scanner, out1) := ImageScan.rescan disk_file shared_cache host_arch (pid c) regions [] ImageScan.new in
  let '(names, out2) := scan_names (pid c) thread_name (default [] tids) ∅ in
  (mkPipeline c Parser.new OffCpu.new scanner names ∅ image
     ((fun img => KernelSlide.new (KernelSlide.exec_segments img)) <$> image)
     None false (now + IMAGE_RESCAN_PERIOD) (now + THREAD_NAME_RESCAN_PERIOD) (now + JITDUMP_PROBE_PERIOD)
     ∅ 0 0 0 0 0 0 0 (now + SAMPLE_COUNTERS_LOG_PERIOD) t,
   out0 ++ out1 ++ out2).

(** What a tick finds: the time, the regions, the orders in which the two hash
    maps are iterated, the names of threads, and the jitdump file: whether it
    exists, opens, and what it holds when it can be read. *)
Record Surroundings := mkSurroundings {
  now : Z;
  regions : list ImageScan.Region;
  image_entries : list (ImageScan.key * ImageScan.LoadedImage);
  thread_name_by_id : Z -> option (list Z);
  seen_order : list Z;
  jitdump_exists : bool;
  jitdump_opens : bool;
  jitdump_bytes : option (list Z)
}.

(** [format!("/tmp/jit-{}.dump", pid)] *)
Definition jitdump_path (pid : Z) : list Z := str "/tmp/jit-" ++ Text.to_dec pid ++ str ".dump".

(** The synthetic image of a JIT'd function. *)
Definition jit_binary (pid : Z) (r : Jitdump.JitCodeLoad) : call :=
  on_binary_loaded (mkBinaryLoadedEvent pid (Jitdump.avma r) (Jitdump.code_size r) (Jitdump.avma r)
    (str "[jit] " ++ Jitdump.name r) None host_arch false
    [mkMachOSymbol (Jitdump.avma r) (wadd64 (Jitdump.avma r) (Jitdump.code_size r))
       (Text.as_bytes (Jitdump.name r))]
    (Some (Jitdump.code r))).

Definition tick_images (e : Surroundings) (p : Pipeline) : Pipeline * list call :=
  if bool_decide (next_image p <= now e) then
    let '(s, out) := ImageScan.rescan disk_file shared_cache host_arch (pid (config p)) (regions e)
                       (image_entries e) (images p) in
    (p <| images := s |> <| next_image := now e + IMAGE_RESCAN_PERIOD |>, out)
  else (p, []).

Definition tick_threads (e : Surroundings) (p : Pipeline) : Pipeline * list call :=
  if bool_decide (next_thread p <= now e) then
    let '(names, out) := scan_names (pid (config p)) (thread_name_by_id e) (seen_order e) (thread_names p) in
    (p <| thread_names := names |> <| next_thread := now e + THREAD_NAME_RESCAN_PERIOD |>, out)
  else (p, []).

(** The periodic log of the counters, of which only the deadline is state. *)
Definition tick_counters (e : Surroundings) (p : Pipeline) : Pipeline :=
  if bool_decide (next_counters_log p <= now e)
  then p <| next_counters_log := now e + SAMPLE_COUNTERS_LOG_PERIOD |> else p.

Definition tick_probe (e : Surroundings) (p : Pipeline) : Pipeline * list call :=
  if negb (jitdump_emitted p) && bool_decide (next_jitdump p <= now e) then
    if jitdump_exists e then
      let p := p <| jitdump_emitted := true |> in
      (if jitdump_opens e then p <| jitdump_tailer := Some Jitdump.opened |> else p,
       [on_jitdump (mkJitdumpEvent (pid (config p)) (jitdump_path (pid (config p))))])
    else (p <| next_jitdump := now e + JITDUMP_PROBE_PERIOD |>, [])
  else (p, []).

Definition tick_jitdump (e : Surroundings) (p : Pipeline) : outcome (Pipeline * list call) :=
  match jitdump_tailer p, jitdump_bytes e with
  | Some t, Some bytes =>
      match Jitdump.tick bytes t with
      | Panic => Panic
      | Ret (t, records) =>
          Ret (p <| jitdump_tailer := Some t |>, jit_binary (pid (config p)) <$> records)
      end
  | _, _ => Ret (p, [])
  end.

Definition tick (e : Surroundings) (p : Pipeline) : outcome (Pipeline * list call) :=
  let '(p, out1) := tick_images e p in
  let '(p, out2) := tick_threads e p in
  let '(p, out3) := tick_probe e (tick_counters e p) in
  match tick_jitdump e p with
  | Panic => Panic
  | Ret (p, out4) => Ret (p, out1 ++ out2 ++ out3 ++ out4)
  end.

End Environment.

(** [finish]: the kernel symbols, once a slide has votes. *)
Definition finish (entries : list (Z * Z)) (p : Pipeline) : list call :=
  match kernel_image p, slide_est p with
  | Some image, Some est =>
      match KernelSlide.finalize entries est with
      | Some (slide, _) => [on_kallsyms (KernelSlide.format_kallsyms slide image)]
      | None => []
      end
  | _, _ => []
  end.


(** ** The reference reading of a batch *)

Definition is_sched (rec : KdBuf) : Prop :=
  kdbg_class (debugid rec) = DBG_MACH /\ kdbg_subclass (debugid rec) = DBG_MACH_SCHED.

#[export] Instance is_sched_dec rec : Decision (is_sched rec).
Proof. unfold is_sched. apply _. Defined.

(** What a batch means to the interval tracker: its scheduler records, and the
    samples the parser completes, in the order of the records. *)
Fixpoint trace (strip : Z -> Z) (q : Parser.Parser) (recs : list KdBuf) : list OffCpu.event :=
  match recs with
  | [] => []
  | rec :: recs' =>
      if bool_decide (is_sched rec) then OffCpu.Rec rec :: trace strip q recs'
      else
        let '(q, o) := Parser.feed strip q rec in
        match o with
        | Some s => [OffCpu.Sampled (Parser.s_tid s) (Parser.user_backtrace s) (Parser.kernel_backtrace s)]
        | None => []
        end ++ trace strip q recs'
  end.

Definition args_ok (rec : KdBuf) : Prop :=
  is_u64 (arg1 rec) /\ is_u64 (arg2 rec) /\ is_u64 (arg3 rec) /\ is_u64 (arg4 rec).

(** The estimator of a pipeline always returns: its segments are ordinary ones
    and the frames in the parser are 64-bit. *)
Definition estimator_ok (est : option KernelSlide.SlideEstimator) : Prop :=
  match est with
  | None => True
  | Some e => Forall KernelSlide.segment_ok (KernelSlide.segments e) /\ KernelSlide.votes_ok (KernelSlide.votes e)
  end.

Definition pipeline_ok (p : Pipeline) : Prop :=
  estimator_ok (slide_est p) /\ Forall is_u64 (Parser.kernel_frames (parser p)).

Definition has_user (s : Parser.Sample) : Prop := Parser.user_backtrace s <> [].

(** ** Lemmas *)

Lemma take_chunk_u64 rec n : args_ok rec -> Forall is_u64 (take n (Parser.chunk rec)).
Proof. intros (?&?&?&?). apply Forall_take. unfold Parser.chunk. by rewrite !Forall_cons. Qed.

Lemma fixup_kernel strip q : Parser.kernel_frames (Parser.normalize_user_fixup strip q) = Parser.kernel_frames q.
Proof. unfold Parser.normalize_user_fixup. repeat case_bool_decide; try done; by destruct (_ && _). Qed.

Lemma feed_u64 strip q rec :
  args_ok rec -> Forall is_u64 (Parser.kernel_frames q) ->
  let '(q', o) := Parser.feed strip q rec in
  Forall is_u64 (Parser.kernel_frames q') /\
  forall s, o = Some s -> Forall is_u64 (Parser.kernel_backtrace s).
Proof.
  intros Ha Hq. unfold Parser.feed.
  repeat (case_bool_decide; [try (split; [|done])|]); try (split; [|done]); try done;
    try (destruct (Parser.in_sample q); done).
  - unfold Parser.end_sample. destruct (Parser.state q); [by split|]. cbn. rewrite fixup_kernel.
    split; [done|]. intros s [= <-]. cbn.
    destruct (Parser.before_null_prefix (Parser.kernel_frames q)) as [r Hr]. rewrite Hr in Hq.
    by apply Forall_app in Hq as [? _].
  - destruct (Parser.in_sample q); [|done]. cbn. apply Forall_app. split; [done|]. by apply take_chunk_u64.
  - unfold Parser.walk_error. by case_bool_decide.
Qed.

Lemma observe_all_total e frames :
  Forall KernelSlide.segment_ok (KernelSlide.segments e) -> KernelSlide.votes_ok (KernelSlide.votes e) ->
  Forall is_u64 frames ->
  exists e', KernelSlide.observe_all e frames = Some e' /\
    KernelSlide.segments e' = KernelSlide.segments e /\ KernelSlide.votes_ok (KernelSlide.votes e').
Proof.
  intros Hs Hv Hf. revert e Hs Hv. induction Hf as [|a frames Ha _ IH]; intros e Hs Hv; [by exists e|].
  unfold KernelSlide.observe_all in *. cbn [foldlM]. unfold KernelSlide.observe.
  destruct (KernelSlide.observe_segments_spec a _ _ Hs Ha Hv) as (v & -> & Hv' & _).
  destruct (IH (KernelSlide.mkSlideEstimator (KernelSlide.segments e) v (as_u32 (KernelSlide.observed e + 1))))
    as (e' & E & Hs' & ?); try done. by exists e'.
Qed.

Lemma observe_kernel_total est frames :
  estimator_ok est -> Forall is_u64 frames ->
  exists est', observe_kernel frames est = Some est' /\ estimator_ok est'.
Proof.
  destruct est as [e|]; intros He Hf; [|by exists None]. destruct He as [Hs Hv].
  destruct (observe_all_total e frames Hs Hv Hf) as (e' & E & Hs' & Hv').
  exists (Some e'). unfold observe_kernel. rewrite E. split; [done|]. split; [by rewrite Hs'|done].
Qed.

(** What one handled sample changes. *)
Lemma handle_sample_spec s p :
  estimator_ok (slide_est p) -> Forall is_u64 (Parser.kernel_backtrace s) ->
  exists p', handle_sample s p =
      Some (p', on_sample ∘ sample_event (config p) <$> filter has_user [s]) /\
    config p' = config p /\ timebase p' = timebase p /\ parser p' = parser p /\
    offcpu p' = OffCpu.note_sample (Parser.s_tid s) (Parser.user_backtrace s)
                  (Parser.kernel_backtrace s) (offcpu p) /\
    seen_tids p' = {[Parser.s_tid s]} ∪ seen_tids p /\
    observe_kernel (Parser.kernel_backtrace s) (slide_est p) = Some (slide_est p') /\
    estimator_ok (slide_est p') /\
    samples_seen p' = wadd64 (samples_seen p) 1 /\
    samples_emitted p' = (if bool_decide (has_user s) then wadd64 (samples_emitted p) 1 else samples_emitted p) /\
    samples_empty_user p' = (if bool_decide (has_user s) then samples_empty_user p else wadd64 (samples_empty_user p) 1).
Proof.
  intros He Hk. destruct (observe_kernel_total _ _ He Hk) as (est & Hest & Hok).
  unfold handle_sample. cbn -[observe_kernel add_pmu OffCpu.note_sample filter fmap].
  rewrite Hest.
  assert (Hpmu : forall pmc q, exists a b c, add_pmu pmc q = q <| pmu_samples := a |> <| pmu_total_cycles := b |> <| pmu_total_insns := c |>).
  { intros pmc q. destruct q, pmc as [|x [|y r]]; unfold add_pmu; cbn; eexists _, _, _; reflexivity. }
  destruct (Hpmu (Parser.s_pmc s) (p <| samples_seen ::= fun n => wadd64 n 1 |>
     <| seen_tids ::= fun tids => {[Parser.s_tid s]} ∪ tids |> <| slide_est := est |>)) as (a & b & c & E).
  cbn -[add_pmu] in E. rewrite E. unfold has_user. case_bool_decide as Hu.
  - rewrite bool_decide_eq_false_2, filter_cons_False by (intros H; by apply H).
    eexists. split; [reflexivity|]. done.
  - rewrite bool_decide_eq_true_2, filter_cons_True by done.
    eexists. split; [reflexivity|]. done.
Qed.

Section Advance.
Variable strip : Z -> Z.

(** The pipeline went from [p] to [p'] over the normalised records [recs],
    calling the sink with [out]. *)
Definition advanced (p : Pipeline) (recs : list KdBuf) (p' : Pipeline) (out : list call) : Prop :=
  let '(q, samples) := Parser.feed_all strip (parser p) recs in
  out = (on_sample ∘ sample_event (config p) <$> filter has_user samples) /\
  config p' = config p /\ timebase p' = timebase p /\ parser p' = q /\
  offcpu p' = OffCpu.run (offcpu p) (trace strip (parser p) recs) /\
  seen_tids p' = seen_tids p ∪ list_to_set (Parser.s_tid <$> samples) /\
  observe_kernel (samples ≫= Parser.kernel_backtrace) (slide_est p) = Some (slide_est p') /\
  (samples_seen p' ≡64 samples_seen p + Z.of_nat (length samples)) /\
  (samples_emitted p' ≡64 samples_emitted p + Z.of_nat (length (filter has_user samples))) /\
  (samples_empty_user p' ≡64
     samples_empty_user p + Z.of_nat (length (filter (fun s => ~ has_user s) samples))).

Lemma feed_scheduler q rec : is_sched rec -> Parser.feed strip q rec = (q, None).
Proof.
  intros [Hc _]. unfold Parser.feed. rewrite bool_decide_eq_true_2; [done|]. rewrite Hc. by vm_compute.
Qed.

Lemma trace_app q a b :
  trace strip q (a ++ b) = trace strip q a ++ trace strip (Parser.feed_all strip q a).1 b.
Proof.
  revert q. induction a as [|r a IH]; intros q; cbn [app trace Parser.feed_all]; [done|].
  case_bool_decide as Hs.
  - rewrite (feed_scheduler q r Hs), IH. by destruct (Parser.feed_all strip q a).
  - destruct (Parser.feed strip q r) as [q1 o]. rewrite IH.
    destruct (Parser.feed_all strip q1 a). by rewrite (assoc_L (++)).
Qed.

Lemma observe_all_app e a b :
  KernelSlide.observe_all e (a ++ b) = KernelSlide.observe_all e a ≫= fun e' => KernelSlide.observe_all e' b.
Proof.
  revert e. induction a as [|x a IH]; intros e; [done|]. unfold KernelSlide.observe_all in *.
  cbn [app foldlM]. destruct (KernelSlide.observe e x); [apply IH|done].
Qed.

Lemma observe_kernel_app est a b :
  observe_kernel (a ++ b) est = observe_kernel a est ≫= observe_kernel b.
Proof.
  destruct est as [e|]; [|done]. cbn. rewrite observe_all_app.
  by destruct (KernelSlide.observe_all e a).
Qed.

Lemma eq64_add_trans a b c x y z : a ≡64 b + x -> c ≡64 a + y -> z = x + y -> c ≡64 b + z.
Proof. intros H1 H2 ->. rewrite H2, H1. unfold eq64. f_equal. lia. Qed.

Lemma advanced_trans p r1 p1 o1 r2 p2 o2 :
  advanced p r1 p1 o1 -> advanced p1 r2 p2 o2 -> advanced p (r1 ++ r2) p2 (o1 ++ o2).
Proof.
  unfold advanced. rewrite Parser.feed_all_app, trace_app.
  destruct (Parser.feed_all strip (parser p) r1) as [q1 s1]. cbn [fst].
  intros (-> & Hc & Ht & <- & Ho & Hs & He & Hn1 & Hn2 & Hn3).
  destruct (Parser.feed_all strip (parser p1) r2) as [q2 s2].
  intros (-> & Hc' & Ht' & <- & Ho' & Hs' & He' & Hn1' & Hn2' & Hn3'). split_ands.
  - by rewrite Hc, filter_app, fmap_app.
  - congruence.
  - congruence.
  - done.
  - rewrite Ho', Ho. unfold OffCpu.run. by rewrite foldl_app.
  - rewrite Hs', Hs, fmap_app, list_to_set_app_L. set_solver.
  - rewrite bind_app, observe_kernel_app, He. exact He'.
  - eapply eq64_add_trans; [exact Hn1|exact Hn1'|]. rewrite length_app. lia.
  - eapply eq64_add_trans; [exact Hn2|exact Hn2'|]. rewrite filter_app, length_app. lia.
  - eapply eq64_add_trans; [exact Hn3|exact Hn3'|]. rewrite filter_app, length_app. lia.
Qed.

Lemma process_record_spec rec p :
  args_ok rec -> pipeline_ok p ->
  exists p' out, process_record strip rec p = Some (p', out) /\ pipeline_ok p' /\
    advanced p [normalize_record_timestamp p rec] p' out.
Proof.
  intros Ha [He Hk]. set (r := normalize_record_timestamp p rec).
  assert (Hr : args_ok r) by exact Ha. unfold process_record. fold r. clearbody r. clear Ha rec.
  unfold advanced. cbn [Parser.feed_all trace].
  destruct (decide (is_sched r)) as [Hs|Hs].
  - assert (Hc : kdbg_class (debugid r) <> DBG_PERF) by (rewrite (proj1 Hs); by vm_compute).
    rewrite (bool_decide_eq_true_2 (_ /\ _ /\ _)) by (destruct Hs; done).
    rewrite (bool_decide_eq_true_2 (is_sched r)) by done. rewrite feed_scheduler by done. cbn.
    eexists _, _. split; [reflexivity|]. split; [done|]. split_ands; try done.
    + set_solver.
    + by destruct (slide_est p).
    + by rewrite Z.add_0_r.
    + by rewrite Z.add_0_r.
    + by rewrite Z.add_0_r.
  - rewrite (bool_decide_eq_false_2 (_ /\ _ /\ _)) by (intros (_ & ? & ?); by apply Hs).
    rewrite (bool_decide_eq_false_2 (is_sched r)) by done.
    set (p1 := count_perf r p).
    assert (Hp1 : parser p1 = parser p /\ offcpu p1 = offcpu p /\ slide_est p1 = slide_est p /\
      seen_tids p1 = seen_tids p /\ config p1 = config p /\ timebase p1 = timebase p /\
      samples_seen p1 = samples_seen p /\ samples_emitted p1 = samples_emitted p /\
      samples_empty_user p1 = samples_empty_user p) by (subst p1; unfold count_perf; by case_bool_decide).
    clearbody p1. destruct Hp1 as (E1 & E2 & E3 & E4 & E5 & E6 & E7 & E8 & E9).
    rewrite <- E1, <- E2, <- E3, <- E4, <- E5, <- E6, <- E7, <- E8, <- E9. rewrite <- E3 in He. rewrite <- E1 in Hk.
    clear E1 E2 E3 E4 E5 E6 E7 E8 E9 p Hs. pose proof (feed_u64 strip (parser p1) r Hr Hk) as Hf.
    destruct (Parser.feed strip (parser p1) r) as [q [s|]]; cbn [from_option app] in *.
    + destruct Hf as [Hq Hframes]. specialize (Hframes s eq_refl).
      pose proof (handle_sample_spec s (p1 <| parser := q |>)) as Hspec.
      destruct (Hspec He Hframes)
        as (p' & E & Hc & Ht & Hp & Ho & Hseen & Hest & Hok & Hn1 & Hn2 & Hn3).
      rewrite E. exists p'. eexists. split; [reflexivity|].
      split; [split; [done|by rewrite Hp]|]. split_ands; try done.
      * rewrite Hseen. cbn. set_solver.
      * cbn. by rewrite app_nil_r.
      * rewrite Hn1. apply wadd64_eq64.
      * rewrite Hn2. rewrite filter_cons. destruct (decide (has_user s)); [rewrite bool_decide_eq_true_2 by done|rewrite bool_decide_eq_false_2 by done]; cbn.
        -- apply wadd64_eq64.
        -- by rewrite Z.add_0_r.
      * rewrite Hn3. rewrite filter_cons. destruct (decide (has_user s)); [rewrite bool_decide_eq_true_2 by done|rewrite bool_decide_eq_false_2 by done]; case_decide; try done; cbn.
        -- by rewrite Z.add_0_r.
        -- apply wadd64_eq64.
    + destruct Hf as [Hq _]. eexists _, _. split; [reflexivity|]. split; [done|]. cbn. split_ands; try done.
      * set_solver.
      * by destruct (slide_est p1).
      * by rewrite Z.add_0_r.
      * by rewrite Z.add_0_r.
      * by rewrite Z.add_0_r.
Qed.

Lemma process_loop_spec records : forall p,
  Forall args_ok records -> pipeline_ok p ->
  exists p' out, process_loop strip records p = Some (p', out) /\ pipeline_ok p' /\
    advanced p (normalize_record_timestamp p <$> records) p' out.
Proof.
  induction records as [|rec records IH]; intros p Ha Hp.
  - exists p, []. split_ands; [done|done|]. unfold advanced. cbn. rewrite !Z.add_0_r.
    split_ands; try done; [set_solver|by destruct (slide_est p)].
  - apply Forall_cons in Ha as [Hrec Ha]. cbn [process_loop].
    destruct (process_record_spec rec p Hrec Hp) as (p1 & o1 & -> & Hp1 & H1).
    destruct (IH p1 Ha Hp1) as (p2 & o2 & -> & Hp2 & H2). exists p2, (o1 ++ o2). split_ands; [done|done|].
    rewrite fmap_cons. eapply (advanced_trans p [_]); [exact H1|].
    assert (Ht : timebase p1 = timebase p).
    { unfold advanced in H1. destruct (Parser.feed_all _ _ _). by destruct H1 as (_ & _ & ? & _). }
    assert (E : normalize_record_timestamp p1 <$> records = normalize_record_timestamp p <$> records).
    { apply list_fmap_ext. intros i r _. unfold normalize_record_timestamp. by rewrite Ht. }
    by rewrite <- E.
Qed.
End Advance.

(** ** One batch *)

(** The calls of one batch, read off the samples the parser completes and the
    tracker's run. *)
Definition batch_calls (c : PipelineConfig) (samples : list Parser.Sample) (t : OffCpu.CpuIntervalTracker)
    (seen : gset Z) : list call :=
  (on_sample ∘ sample_event c <$> filter has_user samples)
  ++ (on_wakeup ∘ wakeup_event c <$> OffCpu.pending_wakeups t)
  ++ (on_cpu_interval ∘ interval_event c <$> filter (fun i => OffCpu.pi_tid i ∈ seen) (OffCpu.pending t)).

(** ** Batches *)

Definition samples_of (log : list call) : list SampleEvent :=
  omap (fun c => match c with on_sample s => Some s | _ => None end) log.
Definition wakeups_of (log : list call) : list WakeupEvent :=
  omap (fun c => match c with on_wakeup w => Some w | _ => None end) log.
Definition intervals_of (log : list call) : list CpuIntervalEvent :=
  omap (fun c => match c with on_cpu_interval i => Some i | _ => None end) log.

Lemma omap_map_Some {A B C} (f : B -> option C) (g : A -> B) (h : A -> C) (l : list A) :
  (forall x, f (g x) = Some (h x)) -> omap f (g <$> l) = h <$> l.
Proof. intros H. induction l as [|x l IH]; [done|]. cbn. rewrite H. by f_equal. Qed.

Lemma omap_map_None {A B C} (f : B -> option C) (g : A -> B) (l : list A) :
  (forall x, f (g x) = None) -> omap f (g <$> l) = [].
Proof. intros H. induction l as [|x l IH]; [done|]. cbn. by rewrite H. Qed.

Lemma omap_app' {A B} (f : A -> option B) (l1 l2 : list A) : omap f (l1 ++ l2) = omap f l1 ++ omap f l2.
Proof. induction l1 as [|x l1 IH]; [done|]. cbn. destruct (f x); cbn; by rewrite IH. Qed.

Lemma calls_split {A B C} (f : A -> SampleEvent) (g : B -> WakeupEvent) (h : C -> CpuIntervalEvent) ls lw li :
  let log := (on_sample ∘ f <$> ls) ++ (on_wakeup ∘ g <$> lw) ++ (on_cpu_interval ∘ h <$> li) in
  samples_of log = f <$> ls /\ wakeups_of log = g <$> lw /\ intervals_of log = h <$> li.
Proof.
  cbv zeta. unfold samples_of, wakeups_of, intervals_of. rewrite !omap_app'.
  rewrite (omap_map_Some _ (on_sample ∘ f) f), (omap_map_None _ (on_wakeup ∘ g)),
    (omap_map_None _ (on_cpu_interval ∘ h)), (omap_map_None _ (on_sample ∘ f)),
    (omap_map_Some _ (on_wakeup ∘ g) g), (omap_map_None _ (on_cpu_interval ∘ h)),
    (omap_map_None _ (on_sample ∘ f)), (omap_map_None _ (on_wakeup ∘ g)),
    (omap_map_Some _ (on_cpu_interval ∘ h) h) by done. by rewrite !app_nil_r.
Qed.

(** What waits in the tracker's queues, and the count of drained records, pass
    through the loop untouched. *)
Definition shift (l : list OffCpu.PendingInterval) (w : list OffCpu.PendingWakeup) (d : Z -> Z) (p : Pipeline) : Pipeline :=
  p <| offcpu ::= OffCpu.behind l w |> <| total_drained ::= d |>.

Definition shift_result l w d (r : Pipeline * list call) : Pipeline * list call := (shift l w d r.1, r.2).

Lemma handle_sample_shift l w d s p :
  handle_sample s (shift l w d p) = shift_result l w d <$> handle_sample s p.
Proof.
  unfold handle_sample, shift. destruct p. cbn -[observe_kernel add_pmu OffCpu.note_sample OffCpu.behind].
  destruct (observe_kernel _ _) as [est|]; [|done]. unfold add_pmu.
  destruct (Parser.s_pmc s) as [|x [|y r]]; case_bool_decide;
    cbn -[OffCpu.note_sample OffCpu.behind]; rewrite OffCpu.note_sample_behind; reflexivity.
Qed.

Lemma process_record_shift strip l w d rec p :
  process_record strip rec (shift l w d p) = shift_result l w d <$> process_record strip rec p.
Proof.
  unfold process_record. change (normalize_record_timestamp (shift l w d p) rec) with (normalize_record_timestamp p rec).
  set (r := normalize_record_timestamp p rec). clearbody r. case_bool_decide.
  - unfold shift, shift_result. destruct p. cbn -[OffCpu.feed OffCpu.behind]. by rewrite OffCpu.feed_behind.
  - assert (Hf : count_perf r (shift l w d p) = shift l w d (count_perf r p)).
    { unfold count_perf. case_bool_decide; [|done]. by destruct p. }
    rewrite Hf. generalize (count_perf r p). clear Hf p. intros p.
    change (parser (shift l w d p)) with (parser p).
    destruct (Parser.feed strip (parser p) r) as [q [s|]].
    + pose proof (handle_sample_shift l w d s (p <| parser := q |>)) as E. exact E.
    + reflexivity.
Qed.

Lemma process_loop_shift strip l w d records : forall p,
  process_loop strip records (shift l w d p) = shift_result l w d <$> process_loop strip records p.
Proof.
  induction records as [|rec records IH]; intros p; [done|]. cbn [process_loop].
  rewrite process_record_shift. destruct (process_record strip rec p) as [[p1 o1]|]; [|done]. cbn [fmap option_fmap option_map shift_result fst snd].
  rewrite IH. by destruct (process_loop strip records p1) as [[p2 o2]|].
Qed.

Lemma process_loop_app strip a b p :
  process_loop strip (a ++ b) p =
  match process_loop strip a p with
  | None => None
  | Some (p1, o1) =>
      match process_loop strip b p1 with Some (p2, o2) => Some (p2, o1 ++ o2) | None => None end
  end.
Proof.
  revert p. induction a as [|r a IH]; intros p; cbn [app process_loop].
  - by destruct (process_loop strip b p) as [[]|].
  - destruct (process_record strip r p) as [[p1 o1]|]; [|done]. rewrite IH.
    destruct (process_loop strip a p1) as [[p2 o2]|]; [|done].
    destruct (process_loop strip b p2) as [[p3 o3]|]; [|done]. by rewrite (assoc_L (++)).
Qed.

Definition drained (p : Pipeline) : Pipeline :=
  p <| offcpu ::= fun t => (OffCpu.drain_pending (OffCpu.drain_wakeups t).1).1 |>.

Lemma drain_eq p :
  drain p = (drained p,
    (on_wakeup ∘ wakeup_event (config p) <$> OffCpu.pending_wakeups (offcpu p))
    ++ (on_cpu_interval ∘ interval_event (config p)
          <$> filter (fun i => OffCpu.pi_tid i ∈ seen_tids p) (OffCpu.pending (offcpu p)))).
Proof. reflexivity. Qed.

Lemma filter_intervals c (seen : gset Z) (l : list OffCpu.PendingInterval) :
  interval_event c <$> filter (fun i => OffCpu.pi_tid i ∈ seen) l =
  filter (fun i => ci_tid i ∈ seen) (interval_event c <$> l).
Proof.
  induction l as [|i l IH]; [done|]. rewrite fmap_cons, !filter_cons.
  change (ci_tid (interval_event c i)) with (OffCpu.pi_tid i). case_decide; [|done].
  rewrite fmap_cons. by f_equal.
Qed.

(** The loop only makes sample calls. *)
Lemma process_loop_calls strip records p :
  Forall args_ok records -> pipeline_ok p ->
  exists p' samples, process_loop strip records p = Some (p', on_sample ∘ sample_event (config p) <$> samples) /\
    pipeline_ok p' /\ config p' = config p.
Proof.
  intros Ha Hp. destruct (process_loop_spec strip records p Ha Hp) as (p' & out & E & Hp' & Hadv).
  unfold advanced in Hadv. destruct (Parser.feed_all _ _ _) as [q samples].
  destruct Hadv as (-> & Hc & _). by exists p', (filter has_user samples).
Qed.

(** ** Sessions *)

Section Session.
Variable strip : Z -> Z.
Variable disk_file : list Z -> option ImageScan.MachOFile.
Variable shared_cache : option (list Z -> option ImageScan.CacheImage).
Variable host_arch : option (list Z).

(** What the driver does between [new] and [finish]: batches and ticks, in any
    order; the second component is everything the sink has been handed. *)
Inductive session (c : PipelineConfig) : Pipeline -> list call -> Prop :=
  | session_new regions tids thread_name image now t p log :
      new disk_file shared_cache host_arch c regions tids thread_name image now t = (p, log) ->
      estimator_ok (slide_est p) -> session c p log
  | session_batch p log records p' out :
      session c p log -> Forall args_ok records ->
      process_records strip records p = Some (p', out) -> session c p' (log ++ out)
  | session_tick p log e p' out :
      session c p log ->
      tick disk_file shared_cache host_arch e p = Ret (p', out) -> session c p' (log ++ out).

(** Calls that are neither samples nor intervals. *)
Definition quiet (c : call) : Prop :=
  match c with on_sample _ | on_cpu_interval _ => False | _ => True end.

Lemma quiet_log out : Forall quiet out -> samples_of out = [] /\ intervals_of out = [].
Proof.
  unfold samples_of, intervals_of. induction 1 as [|c out Hc _ [IH1 IH2]]; [done|].
  cbn. rewrite IH1, IH2. by destruct c.
Qed.

Lemma rescan_quiet pid rs es s : Forall quiet (ImageScan.rescan disk_file shared_cache host_arch pid rs es s).2.
Proof.
  unfold ImageScan.rescan. destruct (foldl _ _ rs) as [current to_add].
  set (to_remove := map fst _). clearbody to_remove.
  assert (H1 : forall k out, Forall quiet out -> Forall quiet (foldl (ImageScan.remove_one pid) (k, out) to_remove).2).
  { induction to_remove as [|i l IH]; intros k out Ho; [done|]. cbn [foldl].
    unfold ImageScan.remove_one at 2. cbn [fst snd]. destruct (k !! i); apply IH; [|done].
    apply Forall_app. split; [done|]. by repeat constructor. }
  specialize (H1 (ImageScan.known s) [] ltac:(constructor)).
  destruct (foldl (ImageScan.remove_one pid) _ _) as [k out]. cbn [snd] in H1.
  assert (H2 : forall k out, Forall quiet out ->
    Forall quiet (foldl (ImageScan.add_one disk_file shared_cache host_arch pid) (k, out) to_add).2).
  { clear. induction to_add as [|r l IH]; intros k out Ho; [done|]. cbn [foldl]. apply IH.
    apply Forall_app. split; [done|]. by repeat constructor. }
  specialize (H2 k out H1). by destruct (foldl (ImageScan.add_one _ _ _ pid) _ _).
Qed.

Lemma scan_names_quiet pid name tids : forall cache, Forall quiet (scan_names pid name tids cache).2.
Proof.
  induction tids as [|tid tids IH]; intros cache; cbn [scan_names]; [constructor|].
  destruct (name tid) as [n|].
  - unfold note_thread. case_bool_decide.
    + specialize (IH cache). by destruct (scan_names _ _ _ _).
    + specialize (IH (<[as_u32 tid := n]> cache)). destruct (scan_names _ _ _ _). by constructor.
  - specialize (IH cache). by destruct (scan_names _ _ _ _).
Qed.

(** The part of the state a tick leaves alone. *)
Definition same_counts (p q : Pipeline) : Prop :=
  parser q = parser p /\ slide_est q = slide_est p /\ seen_tids q = seen_tids p /\ config q = config p /\
  samples_seen q = samples_seen p /\ samples_emitted q = samples_emitted p /\
  samples_empty_user q = samples_empty_user p.

Lemma tick_quiet e p q out :
  tick disk_file shared_cache host_arch e p = Ret (q, out) -> same_counts p q /\ Forall quiet out.
Proof.
  unfold tick. intros H.
  assert (H1 : let '(q, out) := tick_images disk_file shared_cache host_arch e p in same_counts p q /\ Forall quiet out).
  { unfold tick_images. case_bool_decide; [|by repeat constructor].
    pose proof (rescan_quiet (pid (config p)) (regions e) (image_entries e) (images p)) as Hr.
    destruct (ImageScan.rescan _ _ _ _ _ _ _) as [s o]. by split. }
  destruct (tick_images _ _ _ e p) as [p1 o1]. destruct H1 as [S1 Q1].
  assert (H2 : let '(q, out) := tick_threads e p1 in same_counts p1 q /\ Forall quiet out).
  { unfold tick_threads. case_bool_decide; [|by repeat constructor].
    pose proof (scan_names_quiet (pid (config p1)) (thread_name_by_id e) (seen_order e) (thread_names p1)) as Hr.
    destruct (scan_names _ _ _ _) as [s o]. by split. }
  destruct (tick_threads e p1) as [p2 o2]. destruct H2 as [S2 Q2].
  assert (S2' : same_counts p2 (tick_counters e p2)) by (unfold tick_counters; by case_bool_decide).
  generalize dependent (tick_counters e p2). intros p2' H S2'.
  assert (H3 : let '(q, out) := tick_probe e p2' in same_counts p2' q /\ Forall quiet out).
  { unfold tick_probe. destruct (_ && _); [|by repeat constructor].
    destruct (jitdump_exists e); [destruct (jitdump_opens e)|]; (split; [done|]); by repeat constructor. }
  destruct (tick_probe e p2') as [p3 o3]. destruct H3 as [S3 Q3].
  assert (H4 : match tick_jitdump host_arch e p3 with Panic => True | Ret (q, out) => same_counts p3 q /\ Forall quiet out end).
  { unfold tick_jitdump. destruct (jitdump_tailer p3); [|by repeat constructor].
    destruct (jitdump_bytes e); [|by repeat constructor]. destruct (Jitdump.tick _ _) as [[t rs]|]; [|done].
    split; [done|]. apply Forall_fmap, Forall_true. done. }
  destruct (tick_jitdump host_arch e p3) as [[p4 o4]|]; [|done]. destruct H4 as [S4 Q4].
  injection H as <- <-. split; [unfold same_counts in *; naive_solver congruence|].
  by rewrite !Forall_app.
Qed.

(** What the counters and the tids seen say of the log. *)
Record accounted (c : PipelineConfig) (p : Pipeline) (log : list call) : Prop := {
  acc_ok : pipeline_ok p;
  acc_config : config p = c;
  acc_emitted : samples_emitted p ≡64 Z.of_nat (length (samples_of log));
  acc_seen : samples_seen p ≡64 samples_emitted p + samples_empty_user p;
  acc_samples : Forall (fun s => se_pid s = pid c /\ se_tid s ∈ seen_tids p /\ se_backtrace s <> []) (samples_of log);
  acc_intervals : Forall (fun i => ci_pid i = pid c /\ ci_tid i ∈ seen_tids p) (intervals_of log)
}.

Lemma batch_calls_logs c samples t seen :
  samples_of (batch_calls c samples t seen) = sample_event c <$> filter has_user samples /\
  intervals_of (batch_calls c samples t seen) =
    interval_event c <$> filter (fun i => OffCpu.pi_tid i ∈ seen) (OffCpu.pending t).
Proof.
  unfold batch_calls. by destruct (calls_split (sample_event c) (wakeup_event c) (interval_event c)
    (filter has_user samples) (OffCpu.pending_wakeups t)
    (filter (fun i => OffCpu.pi_tid i ∈ seen) (OffCpu.pending t))) as (? & _ & ?).
Qed.

Lemma samples_of_app l1 l2 : samples_of (l1 ++ l2) = samples_of l1 ++ samples_of l2.
Proof. apply omap_app'. Qed.
Lemma intervals_of_app l1 l2 : intervals_of (l1 ++ l2) = intervals_of l1 ++ intervals_of l2.
Proof. apply omap_app'. Qed.

(** One batch, with the counters. *)
Lemma process_records_counts records p p' out :
  Forall args_ok records -> pipeline_ok p -> process_records strip records p = Some (p', out) ->
  pipeline_ok p' /\ config p' = config p /\ seen_tids p ⊆ seen_tids p' /\
  (samples_emitted p' ≡64 samples_emitted p + Z.of_nat (length (samples_of out))) /\
  (samples_seen p ≡64 samples_emitted p + samples_empty_user p ->
   samples_seen p' ≡64 samples_emitted p' + samples_empty_user p') /\
  Forall (fun s => se_pid s = pid (config p) /\ se_tid s ∈ seen_tids p' /\ se_backtrace s <> []) (samples_of out) /\
  Forall (fun i => ci_pid i = pid (config p) /\ ci_tid i ∈ seen_tids p') (intervals_of out).
Proof.
  intros Ha Hp. unfold process_records. set (p0 := p <| total_drained ::= _ |>).
  destruct (process_loop_spec strip records p0 Ha Hp) as (p1 & o & -> & Hp1 & Hadv).
  unfold advanced in Hadv. destruct (Parser.feed_all _ _ _) as [q samples].
  destruct Hadv as (-> & Hc & _ & _ & _ & Hs & _ & Hn1 & Hn2 & Hn3).
  rewrite drain_eq. change (config p0) with (config p) in *. change (seen_tids p0) with (seen_tids p) in *.
  change (samples_seen p0) with (samples_seen p) in *. change (samples_emitted p0) with (samples_emitted p) in *.
  change (samples_empty_user p0) with (samples_empty_user p) in *. clear p0. rewrite Hc.
  intros [= <- <-].
  change ((on_sample ∘ sample_event (config p) <$> filter has_user samples) ++ _)
    with (batch_calls (config p) samples (offcpu p1) (seen_tids p1)).
  destruct (batch_calls_logs (config p) samples (offcpu p1) (seen_tids p1)) as [-> ->].
  split_ands; [exact Hp1|exact Hc|..].
  - change (seen_tids (drained p1)) with (seen_tids p1). rewrite Hs. set_solver.
  - by rewrite length_fmap.
  - intros Hseen. change (samples_seen p1 ≡64 samples_emitted p1 + samples_empty_user p1).
    rewrite Hn1, Hn2, Hn3, Hseen. unfold eq64. f_equal.
    enough (Z.of_nat (length samples) = Z.of_nat (length (filter has_user samples))
              + Z.of_nat (length (filter (fun s => ~ has_user s) samples))) by lia.
    clear. induction samples as [|s l IH]; [done|]. rewrite !filter_cons.
    destruct (decide (has_user s)), (decide (~ has_user s)); try done; cbn [length]; lia.
  - apply Forall_fmap, Forall_forall. intros s [Hu Hin]%list_elem_of_filter. cbn. split_ands; [done| |done].
    change (seen_tids (drained p1)) with (seen_tids p1). rewrite Hs. apply elem_of_union_r, elem_of_list_to_set.
    by apply list_elem_of_fmap_2.
  - apply Forall_fmap, Forall_forall. by intros i [Hi _]%list_elem_of_filter.
Qed.

Lemma session_accounted c p log : session c p log -> accounted c p log.
Proof.
  induction 1 as [regions tids name image now t p log Hnew He|p log records p' out _ [] Ha Hrun|p log e p' out _ [] Htick].
  - unfold new in Hnew.
    pose proof (rescan_quiet (pid c) regions [] ImageScan.new) as Q1.
    destruct (ImageScan.rescan _ _ _ _ _ _ _) as [scanner o1].
    pose proof (scan_names_quiet (pid c) name (default [] tids) ∅) as Q2.
    destruct (scan_names _ _ _ _) as [names o2]. injection Hnew as <- <-.
    destruct (quiet_log (match shared_cache with Some _ => [on_macho_byte_source] | None => [] end ++ o1 ++ o2)) as [E1 E2].
    { rewrite !Forall_app. split_ands; [by destruct shared_cache; repeat constructor|done|done]. }
    split; rewrite ?E1, ?E2; done.
  - destruct (process_records_counts _ _ _ _ Ha acc_ok0 Hrun) as (Hok & Hc & Hsub & Hn & Hseen & Hs & Hi).
    rewrite acc_config0 in *. split; try done.
    + rewrite Hn, acc_emitted0, samples_of_app, length_app. unfold eq64. f_equal. lia.
    + by apply Hseen.
    + rewrite samples_of_app. apply Forall_app. split; [|done].
      eapply Forall_impl; [exact acc_samples0|]. set_solver.
    + rewrite intervals_of_app. apply Forall_app. split; [|done].
      eapply Forall_impl; [exact acc_intervals0|]. set_solver.
  - destruct (tick_quiet _ _ _ _ Htick) as [(E1 & E2 & E3 & E4 & E5 & E6 & E7) [Q1 Q2]%quiet_log].
    destruct acc_ok0. split; rewrite ?samples_of_app, ?intervals_of_app, ?Q1, ?Q2, ?app_nil_r, ?E3, ?E4, ?E5, ?E6, ?E7; try done.
    split; by rewrite ?E1, ?E2.
Qed.
End Session.

(** ** Properties *)

(** C9. A batch is handled as its parts say: with the record times converted to
    nanoseconds, the calls made are one sample per completed parser sample that has
    a user stack, in order, then the wakeups and the closed intervals of the tracker
    run over the scheduler records interleaved with the samples, those intervals
    only whose thread has been sampled by the end of the batch; the new state is the
    parser's, the drained tracker's, the sampled tids' and the estimator's after
    every kernel frame. The call always returns, if the kernel segments of the
    estimator lie within 64 bits, as they do again afterwards. *)
Theorem process_records_exact strip p records :
  Forall args_ok records -> pipeline_ok p ->
  let recs := normalize_record_timestamp p <$> records in
  let '(q, samples) := Parser.feed_all strip (parser p) recs in
  let t := OffCpu.run (offcpu p) (trace strip (parser p) recs) in
  let seen := seen_tids p ∪ list_to_set (Parser.s_tid <$> samples) in
  exists p', process_records strip records p = Some (p', batch_calls (config p) samples t seen) /\
    pipeline_ok p' /\ config p' = config p /\ parser p' = q /\ seen_tids p' = seen /\
    offcpu p' = (OffCpu.drain_pending (OffCpu.drain_wakeups t).1).1 /\
    observe_kernel (samples ≫= Parser.kernel_backtrace) (slide_est p) = Some (slide_est p').
Proof.
  intros Ha Hp. cbv zeta. unfold process_records.
  set (p0 := p <| total_drained ::= _ |>).
  destruct (process_loop_spec strip records p0 Ha Hp) as (p1 & out & -> & [He1 Hk1] & Hadv).
  change (normalize_record_timestamp p0 <$> records) with (normalize_record_timestamp p <$> records) in Hadv.
  unfold advanced in Hadv. change (parser p0) with (parser p) in Hadv.
  destruct (Parser.feed_all strip (parser p) _) as [q samples].
  destruct Hadv as (-> & Hc & _ & Hq & Ho & Hs & He & _). unfold drain. cbn -[filter fmap].
  eexists. split; [f_equal; f_equal|].
  { unfold batch_calls. rewrite Hc, Ho, Hs. reflexivity. }
  split; [by split|]. split_ands; try done. rewrite Ho. reflexivity.
Qed.


(** C11. Where a batch ends does not matter for the state, the samples and the
    wakeups: two batches one after the other reach the state of the joined
    batch and report the same samples and wakeups in the same order.  It does
    matter for the intervals: of the intervals closed in the first batch the
    joined one reports those whose thread is sampled by the end of the second,
    the split one only those whose thread is sampled by the end of the first. *)
Theorem batches_agree strip p a b :
  Forall args_ok (a ++ b) -> pipeline_ok p ->
  exists pa la pb lb lab,
    process_records strip a p = Some (pa, la) /\ process_records strip b pa = Some (pb, lb) /\
    process_records strip (a ++ b) p = Some (pb, lab) /\
    samples_of lab = samples_of la ++ samples_of lb /\ wakeups_of lab = wakeups_of la ++ wakeups_of lb /\
    exists closed : list CpuIntervalEvent,
      intervals_of la = filter (fun i => ci_tid i ∈ seen_tids pa) closed /\
      intervals_of lab = filter (fun i => ci_tid i ∈ seen_tids pb) closed ++ intervals_of lb.
Proof.
  intros Hab Hp. pose proof Hab as [Ha Hb]%Forall_app. unfold process_records.
  rewrite process_loop_app, length_app, Nat2Z.inj_add.
  set (pa0 := p <| total_drained ::= fun n => wadd64 n (Z.of_nat (length a)) |>).
  set (fb := fun n => wadd64 n (Z.of_nat (length b))).
  destruct (process_loop_calls strip a pa0 Ha Hp) as (p1 & sa & E1 & Hp1 & Hc1). rewrite E1.
  assert (E0 : p <| total_drained ::= fun n => wadd64 n (Z.of_nat (length a) + Z.of_nat (length b)) |>
               = shift [] [] fb pa0).
  { unfold shift, pa0, fb. destruct p as [? ? [] ? ? ? ? ? ? ? ? ? ? ? ? ? ? ? ? ? ? ? ?]. cbn. f_equal.
    unfold wadd64, as_u64. rewrite Zplus_mod_idemp_l. f_equal. lia. }
  rewrite E0, process_loop_shift, E1. cbn [fmap option_fmap option_map shift_result fst snd].
  rewrite !drain_eq. set (P := OffCpu.pending (offcpu p1)). set (W := OffCpu.pending_wakeups (offcpu p1)).
  set (pb0 := drained p1 <| total_drained ::= fb |>).
  assert (E2 : shift [] [] fb p1 = shift P W id pb0).
  { unfold shift, pb0, drained, P, W. destruct p1. cbn -[OffCpu.behind]. f_equal.
    rewrite OffCpu.drained_behind. by destruct offcpu0. }
  rewrite E2, process_loop_shift.
  destruct (process_loop_calls strip b pb0 Hb) as (p2 & sb & E3 & _ & Hc2); [by destruct Hp1|].
  change (config pb0) with (config p1) in *. rewrite Hc1 in *. change (config pa0) with (config p) in *.
  exists (drained p1). rewrite E3. cbn [fmap option_fmap option_map shift_result fst snd].
  rewrite drain_eq. change (config (shift P W id p2)) with (config p2).
  change (seen_tids (shift P W id p2)) with (seen_tids p2).
  change (drained (shift P W id p2)) with (drained p2).
  change (OffCpu.pending (offcpu (shift P W id p2))) with (P ++ OffCpu.pending (offcpu p2)).
  change (OffCpu.pending_wakeups (offcpu (shift P W id p2))) with (W ++ OffCpu.pending_wakeups (offcpu p2)).
  match goal with |- context [process_loop strip b ?x] => change x with pb0 end. rewrite E3, drain_eq, !Hc2.
  eexists _, (drained p2), _, _. split; [reflexivity|]. split; [reflexivity|]. split; [reflexivity|].
  rewrite <- !fmap_app.
  destruct (calls_split (sample_event (config p)) (wakeup_event (config p)) (interval_event (config p)) sa W
    (filter (fun i => OffCpu.pi_tid i ∈ seen_tids p1) P)) as (-> & -> & ->).
  destruct (calls_split (sample_event (config p)) (wakeup_event (config p)) (interval_event (config p)) sb
    (OffCpu.pending_wakeups (offcpu p2))
    (filter (fun i => OffCpu.pi_tid i ∈ seen_tids p2) (OffCpu.pending (offcpu p2)))) as (-> & -> & ->).
  destruct (calls_split (sample_event (config p)) (wakeup_event (config p)) (interval_event (config p)) (sa ++ sb)
    (W ++ OffCpu.pending_wakeups (offcpu p2))
    (filter (fun i => OffCpu.pi_tid i ∈ seen_tids p2) (P ++ OffCpu.pending (offcpu p2)))) as (-> & -> & ->).
  split_ands; [apply fmap_app|apply fmap_app|]. exists (interval_event (config p) <$> P).
  split; [apply filter_intervals|]. rewrite filter_app, fmap_app. f_equal. apply filter_intervals.
Qed.



(** C27. The books of a whole session balance: whatever batches and ticks follow the
    start, the counter of emitted samples is the number of samples the sink has
    been handed and the samples seen are the emitted ones plus the dropped ones
    (the counters wrap at 64 bits); every sample handed on has a user stack, and
    every sample and interval is of the recorded process and of a thread that
    has been sampled. *)
Theorem session_accounts strip disk_file shared_cache host_arch c p log :
  session strip disk_file shared_cache host_arch c p log ->
  (samples_emitted p ≡64 Z.of_nat (length (samples_of log))) /\
  (samples_seen p ≡64 samples_emitted p + samples_empty_user p) /\
  Forall (fun s => se_pid s = pid c /\ se_tid s ∈ seen_tids p /\ se_backtrace s <> []) (samples_of log) /\
  Forall (fun i => ci_pid i = pid c /\ ci_tid i ∈ seen_tids p) (intervals_of log).
Proof. by intros []%session_accounted. Qed.

(** ** A run *)

Definition demo_config : PipelineConfig := mkPipelineConfig 42 1000 (Some 2%nat) None.

Definition demo_start : Pipeline * list call :=
  new (fun _ => None) None None demo_config [] None (fun _ => None) None 0 (mkMachTimebase 1 1).

(** Thread 7 runs from 100 to 150 and is first sampled at 160, when it runs
    again. *)
Definition demo_sched : list KdBuf :=
  [OffCpu.sched_rec SCHED 0 7 100; OffCpu.sched_rec SCHED 0 0 150; OffCpu.sched_rec SCHED 0 7 155].
Definition demo_sample : list KdBuf :=
  Parser.sample_records 160 7 3 [0x1000; 0x2000; 0x3000] [0xfffffe0007018000] 900 1800 5 0.

#[export] Instance args_ok_dec rec : Decision (args_ok rec).
Proof. unfold args_ok, is_u64. apply _. Defined.

Lemma demo_args : Forall args_ok (demo_sched ++ demo_sample).
Proof. apply (bool_decide_unpack _). by vm_compute. Qed.

Lemma demo_ok : pipeline_ok demo_start.1.
Proof. split; [done|constructor]. Qed.

Lemma process_records_exact_witness :
  exists p', process_records (fun a => a) (demo_sched ++ demo_sample) demo_start.1 =
    Some (p', [on_sample (mkSampleEvent 160 42 7 [0x1000; 0x3000; 0x2000] [0xfffffe0007018000] 900 1800 5 0);
               on_cpu_interval (mkCpuIntervalEvent 42 7 100 150 OnCpu)]) /\ pipeline_ok p'.
Proof.
  pose proof (process_records_exact (fun a => a) demo_start.1 (demo_sched ++ demo_sample) demo_args demo_ok) as H.
  cbv zeta in H.
  destruct (Parser.feed_all _ _ _) as [q samples] eqn:E. destruct H as (p' & H & Hok & _).
  exists p'. split; [|exact Hok]. rewrite H. f_equal. f_equal.
  revert E. vm_compute. intros [= _ <-]. reflexivity.
Defined.

Lemma batches_agree_witness :
  exists pa la pb lb lab,
    process_records (fun a => a) demo_sched demo_start.1 = Some (pa, la) /\
    process_records (fun a => a) demo_sample pa = Some (pb, lb) /\
    process_records (fun a => a) (demo_sched ++ demo_sample) demo_start.1 = Some (pb, lab) /\
    samples_of lab = samples_of la ++ samples_of lb.
Proof.
  destruct (batches_agree (fun a => a) demo_start.1 demo_sched demo_sample demo_args demo_ok)
    as (pa & la & pb & lb & lab & H1 & H2 & H3 & H4 & _).
  exists pa, la, pb, lb, lab. split_ands; [exact H1|exact H2|exact H3|exact H4].
Defined.

Lemma session_accounts_witness :
  exists p log, session (fun a => a) (fun _ => None) None None demo_config p log /\
    length (samples_of log) = 1%nat /\ samples_emitted p ≡64 1.
Proof.
  destruct (process_records (fun a => a) (demo_sched ++ demo_sample) demo_start.1) as [[p out]|] eqn:E;
    [|by vm_compute in E].
  assert (Hs : session (fun a => a) (fun _ => None) None None demo_config p ([] ++ out)).
  { eapply session_batch; [|exact demo_args|exact E]. apply (session_new _ _ _ _ _ [] None (fun _ => None) None 0 (mkMachTimebase 1 1)); [reflexivity|exact I]. }
  assert (Hl : length (samples_of ([] ++ out)) = 1%nat).
  { revert E. vm_compute. intros [= _ <-]. reflexivity. }
  exists p, ([] ++ out). split; [exact Hs|]. split; [exact Hl|].
  destruct (session_accounts _ _ _ _ _ _ _ Hs) as [H _]. rewrite Hl in H. exact H.
Defined.

(** Where the batches are cut decides which intervals are reported: when thread
    7 runs before it is first sampled, one batch reports that on-CPU interval,
    and the same records in two batches do not. *)
Theorem late_thread_interval_dropped :
  (exists p log, process_records (fun a => a) (demo_sched ++ demo_sample) demo_start.1 = Some (p, log) /\
     intervals_of log = [mkCpuIntervalEvent 42 7 100 150 OnCpu]) /\
  (exists p1 log1 p2 log2, process_records (fun a => a) demo_sched demo_start.1 = Some (p1, log1) /\
     process_records (fun a => a) demo_sample p1 = Some (p2, log2) /\
     intervals_of log1 = [] /\ intervals_of log2 = []).
Proof.
  split; [eexists _, _; split; vm_compute; reflexivity|].
  eexists _, _, _, _. split; [vm_compute; reflexivity|]. split; [vm_compute; reflexivity|]. by vm_compute.
Qed.

End Pipeline.
