(* ===== verification/Observability.v ===== *)
(** * The target observability store

    [stax-live/src/observability.rs]: the events, counters and contracts an
    instrumented target reports, their validation, the bounded time-sorted
    queues, the diagnostics, the queries over them and the archive form; the
    record types are those of [stax-live-proto/src/lib.rs].  Identifiers are
    their raw [u64]; a [HashMap]'s iteration order is an argument; an [f64] is
    the specification float of the Standard Library. *)

From Stdlib Require Import Floats.SpecFloat.
From S2P Require Import Prelude Classify.

Module Observability.

Export Classify.

(** ** Data *)

Inductive TargetCounterUnit :=
  | UnitCount | Nanoseconds | Ticks | Cycles | Bytes | Percent | Rate | UnitOther.

Record TargetCounterDefinition := mkTargetCounterDefinition {
  cd_name : string; cd_unit : TargetCounterUnit; cd_description : option string; monotonic : bool
}.

Record TargetCounterSetRecord := mkTargetCounterSetRecord {
  counter_set_id : Z; cs_name : string; counters : list TargetCounterDefinition
}.

Inductive TargetCounterSamplePoint :=
  | RuntimeDefined | BeforeDispatch | AfterDispatch | CommandBufferBegin | CommandBufferEnd
  | WaitBegin | WaitEnd | TimeSeries.

Inductive TargetCounterScalar :=
  | U64 (value : Z)
  | I64 (value : Z)
  | F64 (value : spec_float).

Record TargetCounterSampleRecord := mkTargetCounterSampleRecord {
  counter_sample_id : Z;
  cm_counter_set_id : Z;
  dispatch_id : option Z;
  command_buffer_id : option Z;
  sample_point : TargetCounterSamplePoint;
  cm_timestamp_ns : option Z;
  cm_source_pid : Z;
  cm_tid : option Z;
  cm_values : list TargetCounterScalar;
  error : option string
}.

Record TargetEventFieldDefinition := mkTargetEventFieldDefinition {
  ef_name : string; ef_unit : TargetCounterUnit; ef_description : option string
}.

Record TargetEventKindRecord := mkTargetEventKindRecord {
  event_kind_id : Z; ek_name : string; ek_description : option string;
  fields : list TargetEventFieldDefinition
}.

Record TargetEventRecord := mkTargetEventRecord {
  event_id : Z;
  ev_kind_id : Z;
  ev_timestamp_ns : Z;
  ev_source_pid : Z;
  ev_tid : option Z;
  correlation_id : option Z;
  ev_values : list TargetCounterScalar
}.

Inductive TargetContractSeverity := Info | Warn | Fail.

Inductive TargetSignalSelector :=
  | Event (kind : Z)
  | Counter (set index : Z).

Inductive TargetContractDuty :=
  | EntireRun (startup_grace_ns shutdown_grace_ns : Z)
  | WhileEventRecent (kind within_ns : Z).

Inductive TargetContractKind :=
  | MaxOffCpuInterval (tid max_ns : Z) (reasons : list OffCpuReason)
  | MaxSignalGap (signal : TargetSignalSelector) (owner_tid : option Z) (max_ns : Z)
  | MaxLatency (start_event end_event max_ns : Z).

Record TargetContractRecord := mkTargetContractRecord {
  contract_id : Z;
  ct_name : string;
  ct_description : option string;
  severity : TargetContractSeverity;
  duty : TargetContractDuty;
  ct_kind : TargetContractKind
}.

Record TargetSignalBatch := mkTargetSignalBatch {
  b_pid : Z;
  b_event_kinds : list TargetEventKindRecord;
  b_events : list TargetEventRecord;
  b_counter_sets : list TargetCounterSetRecord;
  b_counter_samples : list TargetCounterSampleRecord;
  b_contracts : list TargetContractRecord
}.

#[export] Instance TargetCounterUnit_eq_dec : EqDecision TargetCounterUnit.
Proof. solve_decision. Defined.
#[export] Instance TargetCounterDefinition_eq_dec : EqDecision TargetCounterDefinition.
Proof. solve_decision. Defined.
#[export] Instance TargetCounterSetRecord_eq_dec : EqDecision TargetCounterSetRecord.
Proof. solve_decision. Defined.
#[export] Instance TargetEventFieldDefinition_eq_dec : EqDecision TargetEventFieldDefinition.
Proof. solve_decision. Defined.
#[export] Instance TargetEventKindRecord_eq_dec : EqDecision TargetEventKindRecord.
Proof. solve_decision. Defined.
#[export] Instance TargetContractSeverity_eq_dec : EqDecision TargetContractSeverity.
Proof. solve_decision. Defined.
#[export] Instance TargetSignalSelector_eq_dec : EqDecision TargetSignalSelector.
Proof. solve_decision. Defined.
#[export] Instance TargetContractDuty_eq_dec : EqDecision TargetContractDuty.
Proof. solve_decision. Defined.
#[export] Instance TargetContractKind_eq_dec : EqDecision TargetContractKind.
Proof. solve_decision. Defined.
#[export] Instance TargetContractRecord_eq_dec : EqDecision TargetContractRecord.
Proof. solve_decision. Defined.

Definition batch_is_empty (b : TargetSignalBatch) : bool :=
  bool_decide (length (b_event_kinds b) = 0%nat) && bool_decide (length (b_events b) = 0%nat) &&
  bool_decide (length (b_counter_sets b) = 0%nat) &&
  bool_decide (length (b_counter_samples b) = 0%nat) &&
  bool_decide (length (b_contracts b) = 0%nat).

Record ObservabilityDiagnostics := mkObservabilityDiagnostics {
  signal_batches : Z;
  signal_batches_dropped_no_active_run : Z;
  signals_dropped_no_active_run : Z;
  signal_batches_dropped_wrong_pid : Z;
  signals_dropped_wrong_pid : Z;
  events_received : Z;
  events_recorded : Z;
  counter_samples_received : Z;
  counter_samples_recorded : Z;
  definitions_conflicting : Z;
  samples_unknown_definition : Z;
  samples_bad_value_count : Z;
  samples_invalid_tid : Z;
  samples_bad_timestamp : Z;
  monotonic_regressions : Z;
  events_dropped_store_full : Z;
  counter_samples_dropped_store_full : Z
}.

#[export] Instance eta_ObservabilityDiagnostics : Eta ObservabilityDiagnostics := fun d =>
  mkObservabilityDiagnostics (signal_batches d) (signal_batches_dropped_no_active_run d)
    (signals_dropped_no_active_run d) (signal_batches_dropped_wrong_pid d)
    (signals_dropped_wrong_pid d) (events_received d) (events_recorded d)
    (counter_samples_received d) (counter_samples_recorded d) (definitions_conflicting d)
    (samples_unknown_definition d) (samples_bad_value_count d) (samples_invalid_tid d)
    (samples_bad_timestamp d) (monotonic_regressions d) (events_dropped_store_full d)
    (counter_samples_dropped_store_full d).

Definition diagnostics_default : ObservabilityDiagnostics :=
  mkObservabilityDiagnostics 0 0 0 0 0 0 0 0 0 0 0 0 0 0 0 0 0.

Record ObservabilityStore := mkObservabilityStore {
  event_kinds : gmap (Z * Z) TargetEventKindRecord;
  events : list TargetEventRecord;
  counter_sets : gmap (Z * Z) TargetCounterSetRecord;
  counter_samples : list TargetCounterSampleRecord;
  contracts : gmap (Z * Z) TargetContractRecord;
  diagnostics : ObservabilityDiagnostics
}.

#[export] Instance eta_ObservabilityStore : Eta ObservabilityStore := fun s =>
  mkObservabilityStore (event_kinds s) (events s) (counter_sets s) (counter_samples s)
    (contracts s) (diagnostics s).

Definition store_default : ObservabilityStore :=
  mkObservabilityStore ∅ [] ∅ [] ∅ diagnostics_default.

Definition MAX_EVENTS : Z := 250000.
Definition MAX_COUNTER_SAMPLES : Z := 250000.
Definition SYNTH_TID_BASE : Z := 0xFFF00000.
Definition MAX_NAME_BYTES : nat := 128.
Definition MAX_DESCRIPTION_BYTES : nat := 512.
Definition MAX_FIELDS : nat := 16.
Definition TIMESTAMP_BOUND_SLOP_NS : Z := 5000000000.

(** ** Validation *)

Definition valid_description (d : option string) : bool :=
  match d with
  | Some d => bool_decide (String.length d <= MAX_DESCRIPTION_BYTES)%nat
  | None => true
  end.

Definition valid_event_definition (d : TargetEventKindRecord) : bool :=
  bool_decide (String.length (ek_name d) <= MAX_NAME_BYTES)%nat &&
  valid_description (ek_description d) &&
  bool_decide (length (fields d) <= MAX_FIELDS)%nat.

Definition valid_counter_definition (d : TargetCounterSetRecord) : bool :=
  bool_decide (String.length (cs_name d) <= MAX_NAME_BYTES)%nat &&
  bool_decide (length (counters d) <= MAX_FIELDS)%nat.

Definition valid_contract_definition (d : TargetContractRecord) : bool :=
  bool_decide (String.length (ct_name d) <= MAX_NAME_BYTES)%nat &&
  valid_description (ct_description d).

Definition invalid_tid (batch_pid source_pid : Z) (tid : option Z) : bool :=
  match tid with
  | Some tid => bool_decide (source_pid <> batch_pid) || bool_decide (SYNTH_TID_BASE <= tid)
  | None => false
  end.

Definition invalid_timestamp (timestamp : Z) (start last : option Z) : bool :=
  match start with
  | Some start => bool_decide (sadd64 timestamp TIMESTAMP_BOUND_SLOP_NS < start)
  | None => false
  end ||
  match last with
  | Some last => bool_decide (sadd64 last TIMESTAMP_BOUND_SLOP_NS < timestamp)
  | None => false
  end.

Definition extend_bounds (bounds : option (Z * Z)) (timestamp : Z) : option (Z * Z) :=
  Some match bounds with
       | Some (start, end_) => (Z.min start timestamp, Z.max end_ timestamp)
       | None => (timestamp, timestamp)
       end.

(** Both arms of the source's match are the same. *)
Definition sample_timestamp (s : TargetCounterSampleRecord) : option Z :=
  match sample_point s with
  | TimeSeries => cm_timestamp_ns s
  | _ => cm_timestamp_ns s
  end.

(** The queue and the number of elements it evicted. *)
Definition push_evicting {A} (limit : Z) (value : A) (q : list A) : list A * Z :=
  if decide (Z.of_nat (length q) = limit) then (tail q ++ [value], 1) else (q ++ [value], 0).

(** ** Scalars *)

Definition scalar_cmp (a b : TargetCounterScalar) : option comparison :=
  match a, b with
  | U64 a, U64 b => Some (a ?= b)
  | I64 a, I64 b => Some (a ?= b)
  | F64 a, F64 b => SFcompare a b
  | _, _ => None
  end.

Definition scalar_total_cmp (a b : TargetCounterScalar) : comparison := default Eq (scalar_cmp a b).

Definition i64_min : Z := - 2 ^ 63.
Definition i64_max : Z := 2 ^ 63 - 1.
Definition clamp_i64 (z : Z) : Z := Z.max i64_min (Z.min z i64_max).

Definition scalar_sub (a b : TargetCounterScalar) : option TargetCounterScalar :=
  match a, b with
  | U64 a, U64 b => Some (I64 (clamp_i64 (a - b)))
  | I64 a, I64 b => Some (I64 (clamp_i64 (a - b)))
  | F64 a, F64 b => Some (F64 (SFsub 53 1024 a b))
  | _, _ => None
  end.

(** ** Ingest *)

Definition count1 (n : Z) : Z := wadd64 n 1.

Definition record_dropped_no_active_run (signals : Z) (s : ObservabilityStore) : ObservabilityStore :=
  s <| diagnostics ::= fun d => d <| signal_batches_dropped_no_active_run ::= count1 |>
                                  <| signals_dropped_no_active_run ::= fun n => wadd64 n signals |> |>.

Definition record_dropped_wrong_pid (signals : Z) (s : ObservabilityStore) : ObservabilityStore :=
  s <| diagnostics ::= fun d => d <| signal_batches_dropped_wrong_pid ::= count1 |>
                                  <| signals_dropped_wrong_pid ::= fun n => wadd64 n signals |> |>.

Definition insert_definition {V} `{EqDecision V} (key : Z * Z) (value : V) (m : gmap (Z * Z) V)
    (d : ObservabilityDiagnostics) : gmap (Z * Z) V * ObservabilityDiagnostics :=
  match m !! key with
  | Some existing =>
      if decide (existing = value) then (m, d) else (m, d <| definitions_conflicting ::= count1 |>)
  | None => (<[key := value]> m, d)
  end.

Definition ingest_event_kind (pid : Z) (s : ObservabilityStore) (d : TargetEventKindRecord)
    : ObservabilityStore :=
  if valid_event_definition d then
    let '(m, diag) := insert_definition (pid, event_kind_id d) d (event_kinds s) (diagnostics s) in
    s <| event_kinds := m |> <| diagnostics := diag |>
  else s <| diagnostics ::= fun d => d <| definitions_conflicting ::= count1 |> |>.

Definition ingest_counter_set (pid : Z) (s : ObservabilityStore) (d : TargetCounterSetRecord)
    : ObservabilityStore :=
  if valid_counter_definition d then
    let '(m, diag) := insert_definition (pid, counter_set_id d) d (counter_sets s) (diagnostics s) in
    s <| counter_sets := m |> <| diagnostics := diag |>
  else s <| diagnostics ::= fun d => d <| definitions_conflicting ::= count1 |> |>.

Definition ingest_contract (pid : Z) (s : ObservabilityStore) (d : TargetContractRecord)
    : ObservabilityStore :=
  if valid_contract_definition d then
    let '(m, diag) := insert_definition (pid, contract_id d) d (contracts s) (diagnostics s) in
    s <| contracts := m |> <| diagnostics := diag |>
  else s <| diagnostics ::= fun d => d <| definitions_conflicting ::= count1 |> |>.

Definition ingest_event (pid : Z) (start last : option Z)
    (acc : ObservabilityStore * option (Z * Z)) (e : TargetEventRecord)
    : ObservabilityStore * option (Z * Z) :=
  let '(s, bounds) := acc in
  match event_kinds s !! (pid, ev_kind_id e) with
  | None => (s <| diagnostics ::= fun d => d <| samples_unknown_definition ::= count1 |> |>, bounds)
  | Some definition =>
      if decide (length (ev_values e) <> length (fields definition)) then
        (s <| diagnostics ::= fun d => d <| samples_bad_value_count ::= count1 |> |>, bounds)
      else if invalid_tid pid (ev_source_pid e) (ev_tid e) then
        (s <| diagnostics ::= fun d => d <| samples_invalid_tid ::= count1 |> |>, bounds)
      else if invalid_timestamp (ev_timestamp_ns e) start last then
        (s <| diagnostics ::= fun d => d <| samples_bad_timestamp ::= count1 |> |>, bounds)
      else
        let bounds := extend_bounds bounds (ev_timestamp_ns e) in
        let '(q, evicted) := push_evicting MAX_EVENTS e (events s) in
        (s <| events := q |>
           <| diagnostics ::= fun d => d <| events_dropped_store_full ::= fun n => wadd64 n evicted |>
                                         <| events_recorded ::= count1 |> |>, bounds)
  end.

(** The value at [index] of the last queued sample of the same source and set
    that has one. *)
Definition previous_value (s : ObservabilityStore) (sample : TargetCounterSampleRecord) (index : nat)
    : option TargetCounterScalar :=
  match list_find (fun previous =>
          cm_source_pid previous = cm_source_pid sample /\
          cm_counter_set_id previous = cm_counter_set_id sample /\
          is_Some (cm_values previous !! index)) (reverse (counter_samples s)) with
  | Some (_, previous) => cm_values previous !! index
  | None => None
  end.

Definition regressed (s : ObservabilityStore) (definition : TargetCounterSetRecord)
    (sample : TargetCounterSampleRecord) (index : nat) (value : TargetCounterScalar) : bool :=
  match counters definition !! index with
  | Some c => monotonic c
  | None => false
  end &&
  match previous_value s sample index with
  | Some previous => bool_decide (scalar_cmp value previous = Some Lt)
  | None => false
  end.

Definition check_monotonic_regression (definition : TargetCounterSetRecord)
    (sample : TargetCounterSampleRecord) (s : ObservabilityStore) : ObservabilityStore :=
  foldl (fun st '(index, value) =>
           if regressed s definition sample index value
           then st <| diagnostics ::= fun d => d <| monotonic_regressions ::= count1 |> |>
           else st)
    s (imap pair (cm_values sample)).

Definition ingest_counter_sample (pid : Z) (start last : option Z)
    (acc : ObservabilityStore * option (Z * Z)) (sample : TargetCounterSampleRecord)
    : ObservabilityStore * option (Z * Z) :=
  let '(s, bounds) := acc in
  let bad_timestamp :=
    (s <| diagnostics ::= fun d => d <| samples_bad_timestamp ::= count1 |> |>, bounds) in
  match counter_sets s !! (pid, cm_counter_set_id sample) with
  | None => (s <| diagnostics ::= fun d => d <| samples_unknown_definition ::= count1 |> |>, bounds)
  | Some definition =>
      if decide (length (cm_values sample) <> length (counters definition)) then
        (s <| diagnostics ::= fun d => d <| samples_bad_value_count ::= count1 |> |>, bounds)
      else if invalid_tid pid (cm_source_pid sample) (cm_tid sample) then
        (s <| diagnostics ::= fun d => d <| samples_invalid_tid ::= count1 |> |>, bounds)
      else match sample_timestamp sample with
      | None => bad_timestamp
      | Some timestamp =>
          if invalid_timestamp timestamp start last then bad_timestamp else
          let s := check_monotonic_regression definition sample s in
          let '(q, evicted) := push_evicting MAX_COUNTER_SAMPLES sample (counter_samples s) in
          (s <| counter_samples := q |>
             <| diagnostics ::= fun d =>
                  d <| counter_samples_dropped_store_full ::= fun n => wadd64 n evicted |>
                    <| counter_samples_recorded ::= count1 |> |>,
           extend_bounds bounds timestamp)
      end
  end.

Definition pair_le (a b : Z * Z) : bool :=
  bool_decide (a.1 < b.1 \/ a.1 = b.1 /\ a.2 <= b.2).

Definition event_key (e : TargetEventRecord) : Z * Z := (ev_timestamp_ns e, event_id e).
Definition counter_sample_key (s : TargetCounterSampleRecord) : Z * Z :=
  (default 0 (sample_timestamp s), counter_sample_id s).

Definition sort_samples (s : ObservabilityStore) : ObservabilityStore :=
  s <| events ::= sort_by (fun a b => pair_le (event_key a) (event_key b)) |>
    <| counter_samples ::= sort_by (fun a b => pair_le (counter_sample_key a) (counter_sample_key b)) |>.

Definition ingest_definitions (batch : TargetSignalBatch) (s : ObservabilityStore) : ObservabilityStore :=
  let s := foldl (ingest_event_kind (b_pid batch)) s (b_event_kinds batch) in
  let s := foldl (ingest_counter_set (b_pid batch)) s (b_counter_sets batch) in
  foldl (ingest_contract (b_pid batch)) s (b_contracts batch).

Definition count_batch (batch : TargetSignalBatch) (s : ObservabilityStore) : ObservabilityStore :=
  s <| diagnostics ::= fun d =>
    d <| signal_batches ::= count1 |>
      <| events_received ::= fun n => wadd64 n (Z.of_nat (length (b_events batch))) |>
      <| counter_samples_received ::= fun n => wadd64 n (Z.of_nat (length (b_counter_samples batch))) |> |>.

Definition ingest_samples (batch : TargetSignalBatch) (start last : option Z) (s : ObservabilityStore)
    : ObservabilityStore * option (Z * Z) :=
  let acc := foldl (ingest_event (b_pid batch) start last) (s, None) (b_events batch) in
  foldl (ingest_counter_sample (b_pid batch) start last) acc (b_counter_samples batch).

Definition ingest (batch : TargetSignalBatch) (start last : option Z) (s : ObservabilityStore)
    : ObservabilityStore * option (Z * Z) :=
  let s := ingest_definitions batch (count_batch batch s) in
  let '(s, bounds) := ingest_samples batch start last s in
  (sort_samples s, bounds).

(** ** The archive *)

Record SavedTargetEventKind := mkSavedTargetEventKind {
  sk_source_pid : Z; sk_definition : TargetEventKindRecord }.
Record SavedTargetCounterSet := mkSavedTargetCounterSet {
  ss_source_pid : Z; ss_definition : TargetCounterSetRecord }.
Record SavedTargetContract := mkSavedTargetContract {
  sc_source_pid : Z; sc_definition : TargetContractRecord }.

Record SavedObservability := mkSavedObservability {
  so_event_kinds : list SavedTargetEventKind;
  so_events : list TargetEventRecord;
  so_counter_sets : list SavedTargetCounterSet;
  so_counter_samples : list TargetCounterSampleRecord;
  so_contracts : list SavedTargetContract;
  so_diagnostics : ObservabilityDiagnostics
}.

#[export] Instance eta_SavedObservability : Eta SavedObservability := fun s =>
  mkSavedObservability (so_event_kinds s) (so_events s) (so_counter_sets s) (so_counter_samples s)
    (so_contracts s) (so_diagnostics s).

Definition saved_observability_default : SavedObservability :=
  mkSavedObservability [] [] [] [] [] diagnostics_default.

Definition saved_kind_key (e : SavedTargetEventKind) : Z * Z :=
  (sk_source_pid e, event_kind_id (sk_definition e)).
Definition saved_set_key (e : SavedTargetCounterSet) : Z * Z :=
  (ss_source_pid e, counter_set_id (ss_definition e)).
Definition saved_contract_key (e : SavedTargetContract) : Z * Z :=
  (sc_source_pid e, contract_id (sc_definition e)).

(** The arguments list the entries of the three maps in iteration order. *)
Definition to_saved (kinds : list ((Z * Z) * TargetEventKindRecord))
    (sets : list ((Z * Z) * TargetCounterSetRecord)) (cs : list ((Z * Z) * TargetContractRecord))
    (s : ObservabilityStore) : SavedObservability :=
  mkSavedObservability
    (sort_by (fun a b => pair_le (saved_kind_key a) (saved_kind_key b))
       (map (fun e => mkSavedTargetEventKind e.1.1 e.2) kinds))
    (events s)
    (sort_by (fun a b => pair_le (saved_set_key a) (saved_set_key b))
       (map (fun e => mkSavedTargetCounterSet e.1.1 e.2) sets))
    (counter_samples s)
    (sort_by (fun a b => pair_le (saved_contract_key a) (saved_contract_key b))
       (map (fun e => mkSavedTargetContract e.1.1 e.2) cs))
    (diagnostics s).

(** [into_iter().collect()] into a map: a later entry replaces an earlier one. *)
Definition collect_map {V E} (key : E -> Z * Z) (value : E -> V) (l : list E) : gmap (Z * Z) V :=
  foldl (fun m e => <[key e := value e]> m) ∅ l.

Definition replace_from_saved (saved : SavedObservability) (self : ObservabilityStore)
    : ObservabilityStore :=
  sort_samples
    (self <| event_kinds := collect_map saved_kind_key sk_definition (so_event_kinds saved) |>
          <| events := so_events saved |>
          <| counter_sets := collect_map saved_set_key ss_definition (so_counter_sets saved) |>
          <| counter_samples := so_counter_samples saved |>
          <| contracts := collect_map saved_contract_key sc_definition (so_contracts saved) |>
          <| diagnostics := so_diagnostics saved |>).

(** ** The store over a run *)

Inductive op :=
  | Ingest (batch : TargetSignalBatch) (start last : option Z)
  | DropNoActiveRun (signals : Z)
  | DropWrongPid (signals : Z).

Definition step (s : ObservabilityStore) (o : op) : ObservabilityStore :=
  match o with
  | Ingest batch start last => (ingest batch start last s).1
  | DropNoActiveRun signals => record_dropped_no_active_run signals s
  | DropWrongPid signals => record_dropped_wrong_pid signals s
  end.

Definition run : list op -> ObservabilityStore := foldl step store_default.

(** What was received is recorded or in exactly one rejection counter; what was
    recorded is queued or was evicted. *)
Definition rejected (d : ObservabilityDiagnostics) : Z :=
  samples_unknown_definition d + samples_bad_value_count d + samples_invalid_tid d +
  samples_bad_timestamp d.

Record accounts (s : ObservabilityStore) (pending : Z) : Prop := {
  acc_received :
    events_received (diagnostics s) + counter_samples_received (diagnostics s) ≡64
    events_recorded (diagnostics s) + counter_samples_recorded (diagnostics s) +
    rejected (diagnostics s) + pending;
  acc_events :
    events_recorded (diagnostics s) ≡64
    Z.of_nat (length (events s)) + events_dropped_store_full (diagnostics s);
  acc_samples :
    counter_samples_recorded (diagnostics s) ≡64
    Z.of_nat (length (counter_samples s)) + counter_samples_dropped_store_full (diagnostics s);
  acc_events_bound : Z.of_nat (length (events s)) <= MAX_EVENTS;
  acc_samples_bound : Z.of_nat (length (counter_samples s)) <= MAX_COUNTER_SAMPLES
}.

(** Every queued signal has a definition it fits, names a thread only of the
    process that reported it, and every definition is valid and filed under its
    own identifier. *)
Record clean (s : ObservabilityStore) : Prop := {
  clean_kinds : forall pid k d, event_kinds s !! (pid, k) = Some d ->
    valid_event_definition d = true /\ event_kind_id d = k;
  clean_sets : forall pid k d, counter_sets s !! (pid, k) = Some d ->
    valid_counter_definition d = true /\ counter_set_id d = k;
  clean_contracts : forall pid k d, contracts s !! (pid, k) = Some d ->
    valid_contract_definition d = true /\ contract_id d = k;
  clean_events : Forall (fun e => exists pid d, event_kinds s !! (pid, ev_kind_id e) = Some d /\
    length (ev_values e) = length (fields d) /\
    invalid_tid pid (ev_source_pid e) (ev_tid e) = false) (events s);
  clean_samples : Forall (fun c => exists pid d, counter_sets s !! (pid, cm_counter_set_id c) = Some d /\
    length (cm_values c) = length (counters d) /\ is_Some (sample_timestamp c) /\
    invalid_tid pid (cm_source_pid c) (cm_tid c) = false) (counter_samples s)
}.

Definition event_le (a b : TargetEventRecord) : Prop := pair_le (event_key a) (event_key b) = true.
Definition counter_sample_le (a b : TargetCounterSampleRecord) : Prop :=
  pair_le (counter_sample_key a) (counter_sample_key b) = true.

Lemma pair_le_total a b : pair_le a b = false -> pair_le b a = true.
Proof. unfold pair_le. rewrite bool_decide_eq_false, bool_decide_eq_true. lia. Qed.

Lemma pair_le_trans a b c : pair_le a b = true -> pair_le b c = true -> pair_le a c = true.
Proof. unfold pair_le. rewrite !bool_decide_eq_true. lia. Qed.

Lemma pair_le_antisym a b : pair_le a b = true -> pair_le b a = true -> a = b.
Proof.
  unfold pair_le. rewrite !bool_decide_eq_true. destruct a, b; simpl.
  intros H1 H2. f_equal; lia.
Qed.

#[local] Arguments sort_by : simpl never.
#[local] Arguments collect_map : simpl never.
#[local] Hint Resolve pair_le_total pair_le_trans : core.

Lemma sort_samples_sorted s :
  StronglySorted event_le (events (sort_samples s)) /\
  StronglySorted counter_sample_le (counter_samples (sort_samples s)).
Proof.
  unfold sort_samples; cbn. split.
  - apply (sort_by_sorted (fun a b => pair_le (event_key a) (event_key b))); eauto.
  - apply (sort_by_sorted (fun a b => pair_le (counter_sample_key a) (counter_sample_key b))); eauto.
Qed.

Lemma push_evicting_spec {A} limit (x : A) q q' n :
  push_evicting limit x q = (q', n) -> Z.of_nat (length q) <= limit -> 0 < limit ->
  Z.of_nat (length q') + n = Z.of_nat (length q) + 1 /\ Z.of_nat (length q') <= limit /\
  forall y, y ∈ q' -> y = x \/ y ∈ q.
Proof.
  unfold push_evicting. case_decide; intros [= <- <-] H1 H2; rewrite length_app; simpl.
  - destruct q as [|z q]; simpl in *; [lia|]. split_and!; [lia..|]. set_solver.
  - split_and!; [lia..|]. set_solver.
Qed.

(** What a step that only touches counters of the diagnostics leaves alone. *)
Lemma insert_definition_diag {V} `{EqDecision V} k (v : V) m d m' d' :
  insert_definition k v m d = (m', d') ->
  (d' = d \/ d' = d <| definitions_conflicting ::= count1 |>) /\
  (m' = m \/ m !! k = None /\ m' = <[k := v]> m).
Proof. unfold insert_definition. destruct (m !! k) eqn:E; [case_decide|]; intros [= <- <-]; auto. Qed.

Lemma check_monotonic_fields definition sample s :
  exists n, check_monotonic_regression definition sample s =
    s <| diagnostics ::= fun d => d <| monotonic_regressions := n |> |>.
Proof.
  unfold check_monotonic_regression. generalize (imap pair (cm_values sample)). intros l.
  revert s. refine (rev_ind (fun l => forall s, exists n, foldl _ s l = _) _ _ l).
  - intros s. exists (monotonic_regressions (diagnostics s)). by destruct s as [? ? ? ? ? []].
  - intros [i v] l' IH s. rewrite foldl_snoc. destruct (IH s) as [n ->].
    case_match; [exists (count1 n)|exists n]; done.
Qed.

Lemma ingest_state batch start last s :
  (ingest batch start last s).1 =
  sort_samples (ingest_samples batch start last (ingest_definitions batch (count_batch batch s))).1.
Proof. unfold ingest. by destruct (ingest_samples _ _ _ _). Qed.

Section Accounts.
Implicit Types s : ObservabilityStore.

Lemma accounts_definitions batch s n : accounts s n -> accounts (ingest_definitions batch s) n.
Proof.
  assert (forall V (EQ : EqDecision V) k (v : V) m d m' d', insert_definition k v m d = (m', d') ->
    d' = d \/ d' = d <| definitions_conflicting ::= count1 |>) as Hins
    by (intros; by eapply insert_definition_diag).
  unfold ingest_definitions. intros H.
  assert (forall A (f : ObservabilityStore -> A -> ObservabilityStore) l s,
    (forall s x, accounts s n -> accounts (f s x) n) -> accounts s n -> accounts (foldl f s l) n) as Hfold
    by (intros A f l; induction l; cbn; auto).
  repeat apply Hfold; [..|done]; clear s H; intros s x [];
    [unfold ingest_contract|unfold ingest_counter_set|unfold ingest_event_kind];
    (case_match; [destruct (insert_definition _ _ _ _) eqn:E; apply Hins in E as [->| ->]|]);
    by constructor.
Qed.

Lemma accounts_event pid start last s b e n :
  accounts s (n + 1) -> accounts (ingest_event pid start last (s, b) e).1 n.
Proof.
  intros []. unfold ingest_event. destruct (event_kinds s !! _) as [d|] eqn:Ed.
  2:{ constructor; cbn; auto. unfold rejected, count1 in *. cbn. balanced. }
  case_decide; [|case_match; [|case_match]].
  1-3: constructor; cbn; auto; unfold rejected, count1 in *; cbn; balanced.
  destruct (push_evicting _ _ _) as [q k] eqn:Eq.
  apply push_evicting_spec in Eq as (Hl & Hb & _); [|done|reflexivity].
  constructor; cbn; auto; unfold rejected, count1 in *; cbn; balanced.
Qed.

Lemma accounts_counter_sample pid start last s b c n :
  accounts s (n + 1) -> accounts (ingest_counter_sample pid start last (s, b) c).1 n.
Proof.
  intros []. unfold ingest_counter_sample. destruct (counter_sets s !! _) as [d|] eqn:Ed.
  2:{ constructor; cbn; auto. unfold rejected, count1 in *. cbn. balanced. }
  case_decide; [|case_match; [|destruct (sample_timestamp c); [case_match|]]].
  1-3,5: constructor; cbn; auto; unfold rejected, count1 in *; cbn; balanced.
  destruct (check_monotonic_fields d c s) as [k ->].
  destruct (push_evicting _ _ _) as [q m] eqn:Eq.
  apply push_evicting_spec in Eq as (Hl & Hb & _); [|done|reflexivity].
  constructor; cbn; auto; unfold rejected, count1 in *; cbn in *; balanced.
Qed.

Lemma accounts_fold {A} (f : ObservabilityStore * option (Z * Z) -> A -> ObservabilityStore * option (Z * Z)) l :
  (forall s b x n, accounts s (n + 1) -> accounts (f (s, b) x).1 n) ->
  forall acc n, accounts acc.1 (n + Z.of_nat (length l)) -> accounts (foldl f acc l).1 n.
Proof.
  intros Hf. induction l as [|x l IH]; intros [s b] n H; cbn.
  - by replace n with (n + 0) by lia.
  - apply IH. apply Hf. cbn in H. by replace (n + _ + 1) with (n + Z.of_nat (S (length l))) by lia.
Qed.

Lemma accounts_sort s n : accounts s n -> accounts (sort_samples s) n.
Proof.
  intros []. unfold sort_samples.
  constructor; cbn; auto; by rewrite (Permutation_length (sort_by_perm _ _)).
Qed.

Lemma accounts_ingest batch start last s : accounts s 0 -> accounts (ingest batch start last s).1 0.
Proof.
  intros []. rewrite ingest_state. apply accounts_sort, accounts_fold, accounts_fold.
  - apply accounts_counter_sample.
  - apply accounts_event.
  - apply (accounts_definitions batch).
    constructor; cbn; auto. unfold rejected, count1 in *. cbn. balanced.
Qed.

End Accounts.

(** ** Definitions and clean signals *)

Section Clean.
Implicit Types s : ObservabilityStore.

(** The definitions only grow. *)
Definition extends s s' : Prop :=
  event_kinds s ⊆ event_kinds s' /\ counter_sets s ⊆ counter_sets s' /\ contracts s ⊆ contracts s'.

#[export] Instance extends_preorder : PreOrder extends.
Proof.
  split; [intros s; unfold extends; by split_and!|].
  intros s1 s2 s3 (? & ? & ?) (? & ? & ?). unfold extends. split_and!; by etrans.
Qed.

Lemma extends_fold {A} (f : ObservabilityStore -> A -> ObservabilityStore) l s :
  (forall s x, extends s (f s x)) -> extends s (foldl f s l).
Proof. intros Hf. revert s. induction l as [|x l IH]; intros s; cbn; [reflexivity|]. by rewrite <- IH. Qed.

Lemma insert_definition_grows {V} `{EqDecision V} k (v : V) m d m' d' :
  insert_definition k v m d = (m', d') -> m ⊆ m' /\ is_Some (m' !! k).
Proof.
  unfold insert_definition. destruct (m !! k) eqn:E; [case_decide|]; intros [= <- <-];
    rewrite ?E, ?lookup_insert_eq; split; eauto. by apply insert_subseteq.
Qed.

Ltac grows := intros; unfold ingest_contract, ingest_counter_set, ingest_event_kind;
  case_match; [destruct (insert_definition _ _ _ _) as [m d] eqn:E;
               apply insert_definition_grows in E as [? ?]|]; unfold extends; by split_and!.

Lemma definitions_extend batch s : extends s (ingest_definitions batch s).
Proof.
  unfold ingest_definitions.
  etransitivity; [|apply extends_fold; grows]. etransitivity; [|apply extends_fold; grows].
  apply extends_fold; grows.
Qed.

(** Signals leave the definitions alone. *)
Definition same_definitions s s' : Prop :=
  event_kinds s' = event_kinds s /\ counter_sets s' = counter_sets s /\ contracts s' = contracts s.

Lemma event_definitions pid start last s b e :
  same_definitions s (ingest_event pid start last (s, b) e).1.
Proof. unfold ingest_event. repeat case_match; by repeat split. Qed.

Lemma counter_sample_definitions pid start last s b c :
  same_definitions s (ingest_counter_sample pid start last (s, b) c).1.
Proof.
  unfold ingest_counter_sample. destruct (counter_sets s !! _) as [d|]; [|by repeat split].
  destruct (check_monotonic_fields d c s) as [k ->]. repeat case_match; by repeat split.
Qed.

Lemma same_definitions_fold {A} (f : ObservabilityStore * option (Z * Z) -> A -> ObservabilityStore * option (Z * Z)) l acc :
  (forall s b x, same_definitions s (f (s, b) x).1) -> same_definitions acc.1 (foldl f acc l).1.
Proof.
  intros Hf. revert acc. induction l as [|x l IH]; intros [s b]; cbn; [by repeat split|].
  destruct (Hf s b x) as (E1 & E2 & E3). destruct (IH (f (s, b) x)) as (F1 & F2 & F3).
  repeat split; congruence.
Qed.

Lemma samples_definitions batch start last s :
  same_definitions s (ingest_samples batch start last s).1.
Proof.
  unfold ingest_samples. set (acc := foldl (ingest_event _ _ _) _ _).
  destruct (same_definitions_fold _ (b_events batch) (s, None)
    (event_definitions (b_pid batch) start last)) as (E1 & E2 & E3).
  destruct (same_definitions_fold _ (b_counter_samples batch) acc
    (counter_sample_definitions (b_pid batch) start last)) as (F1 & F2 & F3).
  subst acc. cbn in *. repeat split; congruence.
Qed.

Lemma ingest_extends batch start last s : extends s (ingest batch start last s).1.
Proof.
  rewrite ingest_state.
  destruct (samples_definitions batch start last (ingest_definitions batch (count_batch batch s)))
    as (E1 & E2 & E3).
  pose proof (definitions_extend batch (count_batch batch s)) as (F1 & F2 & F3).
  unfold extends. cbn in *. by rewrite E1, E2, E3.
Qed.

Lemma step_extends s o : extends s (step s o).
Proof. destruct o; [apply ingest_extends|..]; unfold extends; by split_and!. Qed.

(** [clean] through the parts of an ingest. *)
Lemma clean_definitions batch s : clean s -> clean (ingest_definitions batch s).
Proof.
  intros H. unfold ingest_definitions.
  assert (forall A (f : ObservabilityStore -> A -> ObservabilityStore) l s,
    (forall s x, clean s -> clean (f s x)) -> clean s -> clean (foldl f s l)) as Hfold
    by (intros A f l; induction l; cbn; auto).
  repeat apply Hfold; [..|done]; clear s H; intros s x [H1 H2 H3 H4 H5];
    [unfold ingest_contract|unfold ingest_counter_set|unfold ingest_event_kind];
    (destruct (_ x) eqn:Hv; [destruct (insert_definition _ _ _ _) as [m d] eqn:E|by constructor];
     pose proof (insert_definition_grows _ _ _ _ _ _ E) as [Hm _];
     apply insert_definition_diag in E as [_ Hi]; constructor; cbn; auto).
  - intros pid k c Hc. destruct Hi as [-> | [_ ->]]; [by eapply H3|].
    rewrite lookup_insert in Hc. case_decide; [by simplify_eq|by eapply H3].
  - intros pid k c Hc. destruct Hi as [-> | [_ ->]]; [by eapply H2|].
    rewrite lookup_insert in Hc. case_decide; [by simplify_eq|by eapply H2].
  - eapply Forall_impl; [exact H5|]. intros c (pid & dd & Hl & Hr). exists pid, dd.
    split; [by eapply lookup_weaken|done].
  - intros pid k c Hc. destruct Hi as [-> | [_ ->]]; [by eapply H1|].
    rewrite lookup_insert in Hc. case_decide; [by simplify_eq|by eapply H1].
  - eapply Forall_impl; [exact H4|]. intros c (pid & dd & Hl & Hr). exists pid, dd.
    split; [by eapply lookup_weaken|done].
Qed.

Lemma push_evicting_Forall {A} (P : A -> Prop) limit x q q' n :
  push_evicting limit x q = (q', n) -> Forall P q -> P x -> Forall P q'.
Proof.
  unfold push_evicting. intros E Hq Hx. case_decide; simplify_eq; apply Forall_app; split; auto.
  by apply Forall_tail.
Qed.

Lemma clean_event pid start last s b e : clean s -> clean (ingest_event pid start last (s, b) e).1.
Proof.
  intros [H1 H2 H3 H4 H5]. unfold ingest_event.
  destruct (event_kinds s !! _) as [d|] eqn:Ed; [|by constructor].
  case_decide; [by constructor|]. destruct (invalid_tid _ _ _) eqn:Et; [by constructor|].
  case_match; [by constructor|]. destruct (push_evicting _ _ _) as [q k] eqn:Eq.
  constructor; cbn; auto. eapply push_evicting_Forall; [exact Eq|done|]. exists pid, d.
  split; [done|]. split; [|done]. lia.
Qed.

Lemma clean_counter_sample pid start last s b c :
  clean s -> clean (ingest_counter_sample pid start last (s, b) c).1.
Proof.
  intros [H1 H2 H3 H4 H5]. unfold ingest_counter_sample.
  destruct (counter_sets s !! _) as [d|] eqn:Ed; [|by constructor].
  case_decide; [by constructor|]. destruct (invalid_tid _ _ _) eqn:Et; [by constructor|].
  destruct (sample_timestamp c) eqn:Es; [|by constructor]. case_match; [by constructor|].
  destruct (check_monotonic_fields d c s) as [k ->].
  destruct (push_evicting _ _ _) as [q m] eqn:Eq.
  constructor; cbn; auto. eapply push_evicting_Forall; [exact Eq|done|]. exists pid, d.
  split; [done|]. split; [lia|]. by rewrite Es.
Qed.

Lemma clean_ingest batch start last s : clean s -> clean (ingest batch start last s).1.
Proof.
  intros H. rewrite ingest_state.
  assert (clean (ingest_definitions batch (count_batch batch s))) as H0.
  { apply clean_definitions. by destruct H; constructor. }
  revert H0. generalize (ingest_definitions batch (count_batch batch s)). intros s0 H0.
  assert (forall A f l acc,
    (forall s b (x : A), clean s -> clean (f (s, b) x : _ * option (Z * Z)).1) ->
    clean acc.1 -> clean (foldl f acc l).1) as Hfold.
  { intros A f l. induction l as [|x l IH]; intros [s' b'] Hf Hs; cbn; auto. }
  assert (clean (ingest_samples batch start last s0).1) as [].
  { apply Hfold; [intros ???; apply clean_counter_sample|].
    apply Hfold; [intros ???; apply clean_event|done]. }
  constructor; cbn; auto; by rewrite sort_by_perm.
Qed.

End Clean.

(** ** Archive lemmas *)

Lemma collect_map_list {V E} (key : E -> Z * Z) (value : E -> V) l :
  collect_map key value l = list_to_map (map (fun e => (key e, value e)) (reverse l)).
Proof.
  unfold collect_map. induction l as [|x l IH] using rev_ind; [done|].
  by rewrite foldl_snoc, reverse_snoc, IH.
Qed.

(** Collecting the saved entries of a map, in any order, gives back the map. *)
Lemma collect_map_entries {V E} (key : E -> Z * Z) (value : E -> V) (mk : (Z * Z) * V -> E)
    (le : E -> E -> bool)
    (m : gmap (Z * Z) V) (entries : list ((Z * Z) * V)) :
  entries ≡ₚ map_to_list m ->
  (forall k v, m !! k = Some v -> key (mk (k, v)) = k) -> (forall e, value (mk e) = e.2) ->
  collect_map key value (sort_by le (map mk entries)) = m.
Proof.
  intros Hp Hk Hv. rewrite collect_map_list.
  assert (map (fun e => (key e, value e)) (reverse (sort_by le (map mk entries))) ≡ₚ map_to_list m) as E0.
  { rewrite reverse_Permutation, sort_by_perm, map_map, <- Hp.
    erewrite (map_ext_in _ id); [by rewrite map_id|]. intros [k v] Hin%list_elem_of_In. rewrite Hv. cbn.
    rewrite Hp, elem_of_map_to_list in Hin. by rewrite (Hk _ _ Hin). }
  transitivity (list_to_map (map_to_list m) : gmap (Z * Z) V); [|apply list_to_map_to_list].
  apply list_to_map_proper; [|done]. rewrite E0. apply NoDup_fst_map_to_list.
Qed.

(** ** Properties *)

(** C6. Over any sequence of batches, every received signal is recorded or counted
    in exactly one rejection counter, every recorded one is queued or counted
    as evicted (the counters wrap at [2^64]), and the two queues stay within
    their limits. *)
Theorem signals_accounted ops : accounts (run ops) 0.
Proof.
  induction ops as [|o ops IH] using rev_ind; [by constructor|].
  unfold run. rewrite foldl_snoc. change (foldl step store_default ops) with (run ops).
  destruct o; [by apply accounts_ingest|destruct IH; by constructor..].
Qed.

Lemma run_clean ops : clean (run ops).
Proof.
  induction ops as [|o ops IH] using rev_ind.
  - constructor; cbn; try done; intros ??? H; by rewrite lookup_empty in H.
  - unfold run. rewrite foldl_snoc. change (foldl step store_default ops) with (run ops).
    destruct o; [by apply clean_ingest|destruct IH; by constructor..].
Qed.

Lemma run_sorted ops :
  StronglySorted event_le (events (run ops)) /\
  StronglySorted counter_sample_le (counter_samples (run ops)).
Proof.
  induction ops as [|o ops IH] using rev_ind; [by repeat constructor|].
  unfold run. rewrite foldl_snoc. change (foldl step store_default ops) with (run ops).
  destruct o; [|done..]. cbn [step]. rewrite ingest_state. apply sort_samples_sorted.
Qed.

(** C7. The store is always in order and clean: events and samples ascend by time
    and identifier, each has a definition it fits, a thread identifier is only
    kept from the reporting process and below the synthetic range, definitions
    are valid and filed under their own identifier; and a definition once
    registered is never changed by what is reported later. *)
Theorem store_well_formed ops later :
  clean (run ops) /\
  StronglySorted event_le (events (run ops)) /\
  StronglySorted counter_sample_le (counter_samples (run ops)) /\
  extends (run ops) (run (ops ++ later)).
Proof.
  split; [apply run_clean|]. destruct (run_sorted ops) as [H1 H2]. split; [done|]. split; [done|].
  unfold run. rewrite foldl_app. apply extends_fold. intros; apply step_extends.
Qed.

(** What every operation keeps. *)
Record store_ok (s : ObservabilityStore) : Prop := {
  so_clean : clean s;
  so_events_sorted : StronglySorted event_le (events s);
  so_samples_sorted : StronglySorted counter_sample_le (counter_samples s)
}.

Lemma store_default_ok : store_ok store_default.
Proof.
  constructor; [|constructor..]. constructor; cbn; try done; intros ??? H; by rewrite lookup_empty in H.
Qed.

Lemma step_store_ok s o : store_ok s -> store_ok (step s o).
Proof.
  intros [Hc H1 H2]. destruct o; cbn [step].
  - constructor; [by apply clean_ingest|rewrite ingest_state; apply sort_samples_sorted..].
  - constructor; [|done..]. by destruct Hc; constructor.
  - constructor; [|done..]. by destruct Hc; constructor.
Qed.

Lemma saved_store_restored s kinds sets cs self :
  store_ok s ->
  kinds ≡ₚ map_to_list (event_kinds s) ->
  sets ≡ₚ map_to_list (counter_sets s) ->
  cs ≡ₚ map_to_list (contracts s) ->
  replace_from_saved (to_saved kinds sets cs s) self = s.
Proof.
  intros [[H1 H2 H3 _ _] S1 S2] P1 P2 P3.
  unfold replace_from_saved, to_saved, sort_samples; cbn -[collect_map].
  rewrite !(sort_by_id (fun a b => pair_le (event_key a) (event_key b))),
    !(sort_by_id (fun a b => pair_le (counter_sample_key a) (counter_sample_key b))) by done.
  rewrite (collect_map_entries saved_kind_key sk_definition _ _ (event_kinds s) kinds P1),
    (collect_map_entries saved_set_key ss_definition _ _ (counter_sets s) sets P2),
    (collect_map_entries saved_contract_key sc_definition _ _ (contracts s) cs P3);
    [by destruct s|..]; try done; intros [pid k] d Hd;
    unfold saved_kind_key, saved_set_key, saved_contract_key; cbn.
  - by apply H3 in Hd as [_ ->].
  - by apply H2 in Hd as [_ ->].
  - by apply H1 in Hd as [_ ->].
Qed.

Lemma run_store_ok ops : store_ok (run ops).
Proof. constructor; [apply run_clean|apply run_sorted..]. Qed.

(** Saving the store of a run, with its maps in any iteration order, and
    restoring it over any store gives back exactly that store. *)
Theorem observability_archive_roundtrip ops kinds sets cs self :
  kinds ≡ₚ map_to_list (event_kinds (run ops)) ->
  sets ≡ₚ map_to_list (counter_sets (run ops)) ->
  cs ≡ₚ map_to_list (contracts (run ops)) ->
  replace_from_saved (to_saved kinds sets cs (run ops)) self = run ops.
Proof. apply saved_store_restored, run_store_ok. Qed.

(** ** Examples *)

Definition demo_set : TargetCounterSetRecord :=
  mkTargetCounterSetRecord 1 "gpu" [mkTargetCounterDefinition "frames" UnitCount None true].

Definition demo_sample (id timestamp value : Z) : TargetCounterSampleRecord :=
  mkTargetCounterSampleRecord id 1 None None TimeSeries (Some timestamp) 7 None [U64 value] None.

Definition demo_batch (samples : list TargetCounterSampleRecord) : TargetSignalBatch :=
  mkTargetSignalBatch 7 [] [] [demo_set] samples [].

Definition demo_kind : TargetEventKindRecord := mkTargetEventKindRecord 1 "tick" None [].

Definition demo_event (id timestamp : Z) : TargetEventRecord :=
  mkTargetEventRecord id 1 timestamp 7 (Some 8) None [].

Definition demo_ops : list op :=
  [Ingest (demo_batch [demo_sample 1 200 7]) (Some 100) (Some 300);
   Ingest (mkTargetSignalBatch 7 [demo_kind] [demo_event 2 120; demo_event 1 110; demo_event 3 900]
             [] [] []) (Some 100) (Some 300);
   DropWrongPid 3].

Lemma observability_archive_roundtrip_witness :
  replace_from_saved
    (to_saved [((7, 1), demo_kind)] [((7, 1), demo_set)] [] (run demo_ops)) store_default = run demo_ops.
Proof. apply (observability_archive_roundtrip demo_ops); vm_compute; reflexivity. Defined.

(** A counter sample that arrives after one taken later is counted as a
    regression although the series, once in order, only rises. *)
Lemma late_sample_flagged :
  let s := run [Ingest (demo_batch [demo_sample 2 200 7]) None None;
                Ingest (demo_batch [demo_sample 1 100 5]) None None] in
  map cm_values (counter_samples s) = [[U64 5]; [U64 7]] /\
  monotonic_regressions (diagnostics s) = 1.
Proof. vm_compute. done. Qed.

End Observability.
