(* ===== verification/Contracts.v ===== *)
(** * Contracts and signal queries

    [stax-live/src/observability.rs], the part that reads the store: the event
    list, the counter series, and the evaluation of the contracts a target
    registered against the store and the aggregator's intervals.  The leaf of a
    blocked stack is named through the class [SymbolLookup] of Aggregate.v; the
    hash behind a violation's identifier, whose algorithm the standard library
    leaves open, is an argument. *)

From S2P Require Import Prelude BTree Aggregator Aggregate Observability.

Module Contracts.

Import Observability.
Module Log := Aggregator.

Record TimeRange := mkTimeRange { r_start_ns : Z; r_end_ns : Z }.

Definition in_window (timestamp : Z) (window : option TimeRange) : bool :=
  match window with
  | Some w => bool_decide (r_start_ns w <= timestamp < r_end_ns w)
  | None => true
  end.

Definition in_range (start end_ : Z) (window : option TimeRange) : bool :=
  match window with
  | Some w => bool_decide (start < r_end_ns w /\ r_start_ns w < end_)
  | None => true
  end.

(** [str::contains] *)
Fixpoint str_contains (needle hay : string) : bool :=
  String.prefix needle hay ||
  match hay with
  | EmptyString => false
  | String _ hay => str_contains needle hay
  end.

Definition name_matches (needle : option string) (name : string) : bool :=
  match needle with
  | Some needle => str_contains needle name
  | None => true
  end.

(** ** The event list *)

Record EventQueryParams := mkEventQueryParams {
  eq_tid : option Z; eq_window : option TimeRange; eq_name_contains : option string; eq_limit : Z
}.

Record AppEventValue := mkAppEventValue {
  av_name : string; av_unit : TargetCounterUnit; av_value : TargetCounterScalar
}.

Record AppEventEntry := mkAppEventEntry {
  ae_event_id : Z; ae_kind_id : Z; ae_timestamp_ns : Z; ae_source_pid : Z; ae_tid : option Z;
  ae_name : string; ae_description : option string; ae_correlation_id : option Z;
  ae_values : list AppEventValue
}.

Record EventListUpdate := mkEventListUpdate {
  el_events : list AppEventEntry; el_total_matching : Z; el_truncated : bool
}.

Definition decode_event (e : TargetEventRecord) (d : TargetEventKindRecord) (session_start : Z)
    : AppEventEntry :=
  mkAppEventEntry (event_id e) (ev_kind_id e) (ssub (ev_timestamp_ns e) session_start)
    (ev_source_pid e) (ev_tid e) (ek_name d) (ek_description d) (correlation_id e)
    (zip_with (fun f v => mkAppEventValue (ef_name f) (ef_unit f) v) (fields d) (ev_values e)).

(** The definition an event is shown with: its own process's, else the first of
    that identifier among [kinds], the map's values in iteration order. *)
Definition event_definition (kinds : list TargetEventKindRecord) (s : ObservabilityStore)
    (e : TargetEventRecord) : option TargetEventKindRecord :=
  match event_kinds s !! (ev_source_pid e, ev_kind_id e) with
  | Some d => Some d
  | None => snd <$> list_find (fun d => event_kind_id d = ev_kind_id e) kinds
  end.

Definition events_step (kinds : list TargetEventKindRecord) (params : EventQueryParams)
    (session_start : Z) (s : ObservabilityStore) (acc : list AppEventEntry * Z)
    (e : TargetEventRecord) : list AppEventEntry * Z :=
  let '(out, total) := acc in
  let relative := ssub (ev_timestamp_ns e) session_start in
  if negb (in_window relative (eq_window params)) ||
     match eq_tid params with
     | Some tid => bool_decide (ev_tid e <> Some tid)
     | None => false
     end
  then acc
  else match event_definition kinds s e with
  | None => acc
  | Some d =>
      if negb (name_matches (eq_name_contains params) (ek_name d)) then acc else
      let total := wadd64 total 1 in
      if bool_decide (Z.of_nat (length out) < Z.max (eq_limit params) 1)
      then (out ++ [decode_event e d session_start], total)
      else (out, total)
  end.

Definition events_update (kinds : list TargetEventKindRecord) (params : EventQueryParams)
    (session_start : Z) (s : ObservabilityStore) : EventListUpdate :=
  let '(out, total) := foldl (events_step kinds params session_start s) ([], 0) (events s) in
  mkEventListUpdate out total (bool_decide (Z.of_nat (length out) < total)).

(** ** The counter series *)

Record CounterQueryParams := mkCounterQueryParams {
  cq_window : option TimeRange; cq_name_contains : option string; include_samples : bool;
  cq_limit : Z
}.

Record CounterSampleEntry := mkCounterSampleEntry {
  ce_sample_id : Z; ce_timestamp_ns : Z; ce_source_pid : Z; ce_tid : option Z;
  ce_value : TargetCounterScalar
}.

Record CounterSeriesEntry := mkCounterSeriesEntry {
  se_source_pid : Z;
  se_counter_set_id : Z;
  counter_index : Z;
  se_name : string;
  se_description : option string;
  se_unit : TargetCounterUnit;
  se_monotonic : bool;
  se_count : Z;
  se_first : option TargetCounterScalar;
  se_last : option TargetCounterScalar;
  se_min : option TargetCounterScalar;
  se_max : option TargetCounterScalar;
  se_delta : option TargetCounterScalar;
  last_change_ns : option Z;
  se_samples : list CounterSampleEntry
}.

(** [min_by] keeps the first of the least, [max_by] the last of the greatest. *)
Definition min_by (l : list TargetCounterScalar) : option TargetCounterScalar :=
  match l with
  | [] => None
  | x :: l => Some (foldl (fun a b => if decide (scalar_total_cmp a b = Gt) then b else a) x l)
  end.

Definition max_by (l : list TargetCounterScalar) : option TargetCounterScalar :=
  match l with
  | [] => None
  | x :: l => Some (foldl (fun a b => if decide (scalar_total_cmp a b = Gt) then a else b) x l)
  end.

Definition group_key : Type := (Z * Z) * nat.

Definition group_lt (a b : group_key) : bool :=
  bool_decide (a.1.1 < b.1.1 \/ a.1.1 = b.1.1 /\
    (a.1.2 < b.1.2 \/ a.1.2 = b.1.2 /\ (a.2 < b.2)%nat)).

(** [groups.entry(key).or_default().push(sample)] on the ordered map. *)
Fixpoint group_push (k : group_key) (s : TargetCounterSampleRecord)
    (m : list (group_key * list TargetCounterSampleRecord))
    : list (group_key * list TargetCounterSampleRecord) :=
  match m with
  | [] => [(k, [s])]
  | (k', l) :: m' =>
      if decide (k = k') then (k', l ++ [s]) :: m'
      else if group_lt k k' then (k, [s]) :: m
      else (k', l) :: group_push k s m'
  end.

Definition group_sample (window : option TimeRange) (session_start : Z)
    (m : list (group_key * list TargetCounterSampleRecord)) (c : TargetCounterSampleRecord)
    : list (group_key * list TargetCounterSampleRecord) :=
  match sample_timestamp c with
  | None => m
  | Some timestamp =>
      if negb (in_window (ssub timestamp session_start) window) then m else
      foldl (fun m index => group_push (cm_source_pid c, cm_counter_set_id c, index) c m) m
        (seq 0 (length (cm_values c)))
  end.

Definition counter_sample_entry (session_start : Z) (index : nat) (c : TargetCounterSampleRecord)
    : option CounterSampleEntry :=
  (fun v => mkCounterSampleEntry (counter_sample_id c)
              (ssub (default 0 (sample_timestamp c)) session_start)
              (cm_source_pid c) (cm_tid c) v) <$> cm_values c !! index.

(** [samples.windows(2).rev().find_map(..)], over the reversed samples. *)
Fixpoint last_change (session_start : Z) (index : nat) (rev_samples : list TargetCounterSampleRecord)
    : option Z :=
  match rev_samples with
  | b :: ((a :: _) as rest) =>
      match cm_values a !! index, cm_values b !! index with
      | Some x, Some y =>
          if decide (scalar_cmp x y = Some Eq) then last_change session_start index rest
          else Some (ssub (default 0 (sample_timestamp b)) session_start)
      | _, _ => last_change session_start index rest
      end
  | _ => None
  end.

Definition series_entry (params : CounterQueryParams) (session_start : Z) (k : group_key)
    (samples : list TargetCounterSampleRecord) (set : TargetCounterSetRecord)
    (d : TargetCounterDefinition) : CounterSeriesEntry :=
  let index := k.2 in
  let values := omap (fun c => cm_values c !! index) samples in
  mkCounterSeriesEntry k.1.1 k.1.2 (as_u32 (Z.of_nat index))
    (cs_name set +:+ "." +:+ cd_name d) (cd_description d) (cd_unit d) (monotonic d)
    (Z.of_nat (length samples)) (head values) (last values) (min_by values) (max_by values)
    (match head values, last values with
     | Some f, Some l => scalar_sub l f
     | _, _ => None
     end)
    (last_change session_start index (reverse samples))
    (if include_samples params then omap (counter_sample_entry session_start index) samples else []).

Definition counter_set_for (sets : list TargetCounterSetRecord) (s : ObservabilityStore) (k : group_key)
    : option TargetCounterSetRecord :=
  match counter_sets s !! k.1 with
  | Some d => Some d
  | None => snd <$> list_find (fun d => counter_set_id d = k.1.2) sets
  end.

Fixpoint series_loop (sets : list TargetCounterSetRecord) (params : CounterQueryParams)
    (session_start : Z) (s : ObservabilityStore)
    (groups : list (group_key * list TargetCounterSampleRecord)) (out : list CounterSeriesEntry)
    : list CounterSeriesEntry * bool :=
  match groups with
  | [] => (out, false)
  | (k, samples) :: groups =>
      match (set ← counter_set_for sets s k; d ← counters set !! k.2; Some (set, d)) with
      | None => series_loop sets params session_start s groups out
      | Some (set, d) =>
          if negb (name_matches (cq_name_contains params) (cs_name set +:+ "." +:+ cd_name d))
          then series_loop sets params session_start s groups out
          else if bool_decide (Z.max (cq_limit params) 1 <= Z.of_nat (length out)) then (out, true)
          else series_loop sets params session_start s groups
                 (out ++ [series_entry params session_start k samples set d])
      end
  end.

(** [sets] lists the values of the set map in iteration order. *)
Definition counters_update (sets : list TargetCounterSetRecord) (params : CounterQueryParams)
    (session_start : Z) (s : ObservabilityStore) : list CounterSeriesEntry * bool :=
  let groups := foldl (group_sample (cq_window params) session_start) [] (counter_samples s) in
  series_loop sets params session_start s groups [].

(** ** Contracts *)

Record TargetViolation := mkTargetViolation {
  violation_id : Z;
  v_source_pid : Z;
  v_contract_id : Z;
  contract_name : string;
  v_severity : TargetContractSeverity;
  v_start_ns : Z;
  v_end_ns : Z;
  actual_ns : Z;
  threshold_ns : Z;
  excess_ns : Z;
  v_tid : option Z;
  v_correlation_id : option Z;
  open : bool;
  contributing_violations : Z;
  reason : option OffCpuReason
}.

#[export] Instance eta_TargetViolation : Eta TargetViolation := fun v =>
  mkTargetViolation (violation_id v) (v_source_pid v) (v_contract_id v) (contract_name v)
    (v_severity v) (v_start_ns v) (v_end_ns v) (actual_ns v) (threshold_ns v) (excess_ns v)
    (v_tid v) (v_correlation_id v) (open v) (contributing_violations v) (reason v).

Definition severity_rank (s : TargetContractSeverity) : Z :=
  match s with Info => 0 | Warn => 1 | Fail => 2 end.

Definition contract_threshold (c : TargetContractRecord) : Z :=
  match ct_kind c with
  | MaxOffCpuInterval _ max_ns _ | MaxSignalGap _ _ max_ns | MaxLatency _ _ max_ns => max_ns
  end.

(** One turn of the merge; the merged windows are kept newest first. *)
Definition merge_step (merged : list (Z * Z)) (w : Z * Z) : list (Z * Z) :=
  match merged with
  | l :: rest => if decide (w.1 <= l.2) then (l.1, Z.max l.2 w.2) :: rest else w :: merged
  | [] => [w]
  end.

Definition merge_windows (windows : list (Z * Z)) : list (Z * Z) :=
  reverse (foldl merge_step [] (sort_by pair_le windows)).

Definition duty_windows (pid : Z) (d : TargetContractDuty) (start end_ : Z) (s : ObservabilityStore)
    : list (Z * Z) :=
  match d with
  | EntireRun startup shutdown => [(sadd64 start startup, ssub end_ shutdown)]
  | WhileEventRecent kind within_ns =>
      merge_windows
        (map (fun e => (ev_timestamp_ns e, Z.min (sadd64 (ev_timestamp_ns e) within_ns) end_))
          (filter (fun e => ev_kind_id e = kind /\
                     (ev_source_pid e = pid \/ is_Some (event_kinds s !! (pid, kind))))
             (events s)))
  end.

Section Evaluation.
Context `{Lookup : Aggregate.SymbolLookup} (hash : Z -> Z -> Z -> Z -> option Z -> Z).

Definition classify_stack (stack : list Z) : OffCpuReason :=
  classify_offcpu (head stack ≫= Aggregate.lookup_function).

Definition make_violation (pid : Z) (c : TargetContractRecord) (start end_ actual threshold : Z)
    (tid correlation : option Z) (is_open : bool) (why : option OffCpuReason) : TargetViolation :=
  mkTargetViolation (hash pid (contract_id c) start end_ correlation) pid (contract_id c) (ct_name c)
    (severity c) start end_ actual threshold (ssub actual threshold) tid correlation is_open 1 why.

(** One turn of the coalescing; the output is kept newest first. *)
Definition coalesce_step (cooldown : Z) (output : list TargetViolation) (v : TargetViolation)
    : list TargetViolation :=
  match output with
  | l :: rest =>
      if decide (v_contract_id l = v_contract_id v /\ v_correlation_id l = v_correlation_id v /\
                 v_start_ns v <= sadd64 (v_end_ns l) cooldown)
      then
        let end_ := Z.max (v_end_ns l) (v_end_ns v) in
        let actual := ssub end_ (v_start_ns l) in
        (l <| v_end_ns := end_ |> <| actual_ns := actual |>
           <| excess_ns := ssub actual (threshold_ns l) |>
           <| open ::= fun o => o || open v |>
           <| contributing_violations ::= fun n => wadd64 n (contributing_violations v) |>) :: rest
      else v :: output
  | [] => [v]
  end.

Definition coalesce (violations : list TargetViolation) (cooldown : Z) : list TargetViolation :=
  reverse (foldl (coalesce_step cooldown) []
    (sort_by (fun a b => bool_decide (v_start_ns a <= v_start_ns b)) violations)).

Definition eval_off_cpu (pid : Z) (c : TargetContractRecord) (tid max_ns : Z)
    (reasons : list OffCpuReason) (duty : list (Z * Z)) (a : Log.Aggregator) (run_end : Z)
    : list TargetViolation :=
  let session_start := default 0 (Log.session_start_ns a) in
  '(_, interval) ← Log.iter_intervals [] (Some tid) a;
  match Log.kind interval with
  | Log.OffCpu stack _ _ =>
      let why := classify_stack stack in
      if negb (bool_decide (reasons = [])) && negb (bool_decide (why ∈ reasons)) then [] else
      let end_ := if decide (Log.end_ns interval = 0) then run_end else Log.end_ns interval in
      '(duty_start, duty_end) ← duty;
      let start := Z.max (Log.start_ns interval) duty_start in
      let end_ := Z.min end_ duty_end in
      let actual := ssub end_ start in
      if decide (actual <= max_ns) then [] else
      [make_violation pid c (ssub start session_start) (ssub end_ session_start) actual max_ns
         (Some tid) None (bool_decide (Log.end_ns interval = 0)) (Some why)]
  | _ => []
  end.

Definition signal_points (signal : TargetSignalSelector) (s : ObservabilityStore) : list Z :=
  sort_by (fun x y => bool_decide (x <= y))
    match signal with
    | Event kind => map ev_timestamp_ns (filter (fun e => ev_kind_id e = kind) (events s))
    | Counter set _ => omap sample_timestamp
                         (filter (fun c => cm_counter_set_id c = set) (counter_samples s))
    end.

(** The violations of one duty window, walking its points from [previous]. *)
Fixpoint gap_loop (report : Z -> Z -> Z -> bool -> TargetViolation) (max_ns window_end previous : Z)
    (points : list Z) : list TargetViolation :=
  match points with
  | point :: points =>
      let actual := ssub point previous in
      (if decide (max_ns < actual) then [report previous point actual false] else []) ++
      gap_loop report max_ns window_end point points
  | [] =>
      let actual := ssub window_end previous in
      if decide (max_ns < actual) then [report previous window_end actual true] else []
  end.

Definition gap_report (pid : Z) (c : TargetContractRecord) (owner_tid : option Z)
    (max_ns session_start : Z) (a b actual : Z) (is_open : bool) : TargetViolation :=
  make_violation pid c (ssub a session_start) (ssub b session_start) actual max_ns owner_tid None
    is_open None.

Definition eval_signal_gap (pid : Z) (c : TargetContractRecord) (signal : TargetSignalSelector)
    (owner_tid : option Z) (max_ns : Z) (duty : list (Z * Z)) (session_start : Z)
    (s : ObservabilityStore) : list TargetViolation :=
  let points := signal_points signal s in
  '(window_start, window_end) ← duty;
  gap_loop (gap_report pid c owner_tid max_ns session_start) max_ns window_end window_start
    (filter (fun p => window_start <= p /\ p <= window_end) points).

(** The last event of the kind for each correlation identifier, ascending by
    identifier. *)
Definition correlated (kind : Z) (s : ObservabilityStore) : list (Z * TargetEventRecord) :=
  foldl (fun m e => match correlation_id e with
                    | Some id => bt_insert id e m
                    | None => m
                    end) [] (filter (fun e => ev_kind_id e = kind) (events s)).

Definition eval_latency (pid : Z) (c : TargetContractRecord) (start_kind end_kind max_ns : Z)
    (duty : list (Z * Z)) (session_start run_end : Z) (s : ObservabilityStore)
    : list TargetViolation :=
  let starts := correlated start_kind s in
  let ends := correlated end_kind s in
  '(id, start) ← starts;
  if negb (existsb (fun w => bool_decide (w.1 <= ev_timestamp_ns start <= w.2)) duty) then [] else
  let end_ := match bt_get id ends with
              | Some e => ev_timestamp_ns e
              | None => run_end
              end in
  let actual := ssub end_ (ev_timestamp_ns start) in
  if decide (max_ns < actual) then
    [make_violation pid c (ssub (ev_timestamp_ns start) session_start) (ssub end_ session_start)
       actual max_ns (ev_tid start) (Some id)
       (bool_decide (bt_get id ends = None)) None]
  else [].

Definition eval_contract (pid : Z) (c : TargetContractRecord) (a : Log.Aggregator)
    (s : ObservabilityStore) : list TargetViolation :=
  let session_start := default 0 (Log.session_start_ns a) in
  let run_end := default session_start (Log.last_event_ns a) in
  let duty := duty_windows pid (duty c) session_start run_end s in
  match ct_kind c with
  | MaxOffCpuInterval tid max_ns reasons => eval_off_cpu pid c tid max_ns reasons duty a run_end
  | MaxSignalGap signal owner_tid max_ns =>
      eval_signal_gap pid c signal owner_tid max_ns duty session_start s
  | MaxLatency start_event end_event max_ns =>
      eval_latency pid c start_event end_event max_ns duty session_start run_end s
  end.

(** [cs] lists the entries of the contract map in iteration order. *)
Definition violations (cs : list ((Z * Z) * TargetContractRecord)) (a : Log.Aggregator)
    (s : ObservabilityStore) : list TargetViolation :=
  sort_by (fun x y => pair_le (v_start_ns x, violation_id x) (v_start_ns y, violation_id y))
    ('(k, c) ← cs; coalesce (eval_contract k.1 c a s) (contract_threshold c)).

Record ViolationQueryParams := mkViolationQueryParams {
  vq_window : option TimeRange; minimum_severity : option TargetContractSeverity; vq_limit : Z
}.

Definition bool_rank (b : bool) : Z := if b then 1 else 0.

(** [violations.sort_by]: open ones first, then by excess, then by start. *)
Definition violation_le (x y : TargetViolation) : bool :=
  match bool_rank (open y) ?= bool_rank (open x) with
  | Lt => true | Gt => false
  | Eq => match excess_ns y ?= excess_ns x with
          | Lt => true | Gt => false
          | Eq => bool_decide (v_start_ns x <= v_start_ns y)
          end
  end.

Definition violations_update (params : ViolationQueryParams) (cs : list ((Z * Z) * TargetContractRecord))
    (a : Log.Aggregator) (s : ObservabilityStore) : list TargetViolation * Z * bool :=
  let vs := filter (fun v => in_range (v_start_ns v) (v_end_ns v) (vq_window params) &&
                      match minimum_severity params with
                      | Some m => bool_decide (severity_rank m <= severity_rank (v_severity v))
                      | None => true
                      end = true) (violations cs a s) in
  let total := length vs in
  let out := take (Z.to_nat (Z.max (vq_limit params) 1)) (sort_by violation_le vs) in
  (out, Z.of_nat total, bool_decide (length out < total)%nat).

Record ContractStatusEntry := mkContractStatusEntry {
  cse_source_pid : Z; contract : TargetContractRecord; evaluations : Z; violation_count : Z;
  currently_violating : bool
}.

Definition contracts_update (cs : list ((Z * Z) * TargetContractRecord)) (a : Log.Aggregator)
    (s : ObservabilityStore) : list ContractStatusEntry :=
  let vs := violations cs a s in
  map (fun '(k, c) =>
    let matching := filter (fun v => v_source_pid v = k.1 /\ v_contract_id v = k.2) vs in
    mkContractStatusEntry k.1 c (Z.of_nat (length matching)) (Z.of_nat (length matching))
      (existsb open matching)) cs.

End Evaluation.

(** ** Merging windows *)

(** [windows] cover an instant. *)
Definition covered (ws : list (Z * Z)) (t : Z) : Prop := exists w, w ∈ ws /\ w.1 <= t <= w.2.

(** The merged windows are in order with room between neighbours. *)
Definition apart (a b : Z * Z) : Prop := a.1 <= b.1 /\ a.2 < b.1.

Record merging (done_ merged : list (Z * Z)) : Prop := {
  mg_cover : forall t, covered merged t <-> covered done_ t;
  mg_apart : StronglySorted (fun later earlier => apart earlier later) merged;
  mg_start : forall w, w ∈ merged -> exists w', w' ∈ done_ /\ w.1 = w'.1
}.

Lemma covered_cons w ws t : covered (w :: ws) t <-> w.1 <= t <= w.2 \/ covered ws t.
Proof. unfold covered. set_solver. Qed.

Lemma covered_snoc w ws t : covered (ws ++ [w]) t <-> w.1 <= t <= w.2 \/ covered ws t.
Proof. unfold covered. set_solver. Qed.

Lemma merge_step_ok done_ merged w :
  merging done_ merged -> Forall (fun w' => w'.1 <= w.1) done_ ->
  merging (done_ ++ [w]) (merge_step merged w).
Proof.
  intros [Hc Ha Hs] Hle. rewrite Forall_forall in Hle.
  assert (forall l, l ∈ merged -> l.1 <= w.1) as Hm.
  { intros l (w' & Hw' & ->)%Hs. by apply Hle. }
  unfold merge_step. destruct merged as [|l rest]; [|case_decide as Hd].
  - constructor; [|by repeat constructor|].
    + intros t. by rewrite covered_snoc, covered_cons, Hc.
    + intros ? ->%list_elem_of_singleton. exists w. set_solver.
  - pose proof (Hm l (list_elem_of_here _ _)) as Hlw. apply StronglySorted_inv in Ha as [Ha Hl].
    constructor.
    + intros t. rewrite covered_snoc, <- Hc, !covered_cons. cbn.
      split; [|intros [?|[?|?]]; [left; lia..|by right]].
      intros [?|?]; [|by right; right]. destruct (decide (t <= l.2)); [right; left|left]; lia.
    + constructor; [done|]. eapply Forall_impl; [exact Hl|]. intros x []. by split.
    + intros x [->|Hx]%elem_of_cons; cbn; [|destruct (Hs x) as (w' & ? & ?); set_solver].
      destruct (Hs l) as (w' & ? & ?); set_solver.
  - pose proof (Hm l (list_elem_of_here _ _)) as Hlw. constructor.
    + intros t. by rewrite covered_snoc, covered_cons, Hc.
    + constructor; [done|]. apply Forall_forall. intros x [->|Hx]%elem_of_cons; [split; lia|].
      apply StronglySorted_inv in Ha as [_ Hl]. rewrite Forall_forall in Hl.
      destruct (Hl _ Hx). split; [by apply Hm; right|]. lia.
    + intros x [->|Hx]%elem_of_cons; [exists w; set_solver|].
      destruct (Hs x Hx) as (w' & ? & ?). set_solver.
Qed.

Lemma merge_fold done_ merged ws :
  merging done_ merged -> StronglySorted (fun a b => pair_le a b = true) ws ->
  (forall a b, a ∈ done_ -> b ∈ ws -> a.1 <= b.1) ->
  merging (done_ ++ ws) (foldl merge_step merged ws).
Proof.
  intros Hm Hs. revert done_ merged Hm.
  induction Hs as [|w ws Hs IH Hw]; intros done_ merged Hm Hle; cbn; [by rewrite app_nil_r|].
  rewrite cons_middle, app_assoc. rewrite Forall_forall in Hw. apply IH.
  - apply merge_step_ok; [done|]. apply Forall_forall. intros w' Hw'. apply Hle; set_solver.
  - intros a b [Ha| ->%list_elem_of_singleton]%elem_of_app Hb; [apply Hle; set_solver|].
    specialize (Hw b Hb). unfold pair_le in Hw. apply bool_decide_eq_true in Hw. lia.
Qed.

(** Merging duty windows, empty ones included, leaves windows in ascending
    order with a gap between neighbours that cover exactly the instants the
    given windows cover. *)
Theorem merge_windows_exact ws :
  StronglySorted apart (merge_windows ws) /\
  forall t, covered (merge_windows ws) t <-> covered ws t.
Proof.
  pose proof (merge_fold [] [] (sort_by pair_le ws)) as [Hc Ha _].
  - constructor; [done|constructor|set_solver].
  - apply (sort_by_sorted pair_le); eauto using pair_le_total, pair_le_trans.
  - set_solver.
  - unfold merge_windows. split.
    + clear Hc. induction Ha as [|w l Hl IH Hw]; [constructor|].
      rewrite reverse_cons. apply StronglySorted_app_2; [|done|by repeat constructor].
      intros x y Hx ->%list_elem_of_singleton. rewrite Forall_forall in Hw. apply Hw.
      by rewrite elem_of_reverse in Hx.
    + intros t. unfold covered. setoid_rewrite elem_of_reverse.
      pose proof (Hc t) as E. unfold covered in E. rewrite E. cbn.
      by setoid_rewrite (sort_by_perm pair_le ws).
Qed.

(** ** Signal gaps *)

Section Gaps.
Context `{Lookup : Aggregate.SymbolLookup} (hash : Z -> Z -> Z -> Z -> option Z -> Z).

(** A stretch from [a] to [b] of the duty window [ws..we] without a signal
    strictly inside; it is open when no signal ends it. *)
Definition silence (points : list Z) (ws we a b : Z) (is_open : bool) : Prop :=
  (a = ws \/ a ∈ points) /\
  (forall p, p ∈ points -> ~ a < p < b) /\
  if is_open then b = we /\ (forall p, p ∈ points -> p <= a) else b ∈ points.

Lemma gap_loop_exact report max_ns ws we points v :
  0 <= max_ns -> StronglySorted Z.le points -> Forall (fun p => ws <= p) points ->
  v ∈ gap_loop report max_ns we ws points <->
  exists a b o, v = report a b (b - a) o /\ max_ns < b - a /\ silence points ws we a b o.
Proof.
  intros Hmax Hs. revert ws. induction Hs as [|p points Hs IH Hp]; intros ws Hws; cbn [gap_loop].
  - assert (ssub we ws = Z.max (we - ws) 0) as E by done. split.
    + case_decide as Hd; [|by intros ?%not_elem_of_nil]. intros ->%list_elem_of_singleton.
      exists ws, we, true. rewrite E in *. unfold silence.
      split; [f_equal; lia|]. split; [lia|]. set_solver.
    + intros (a & b & o & -> & Hd & [->|?%not_elem_of_nil] & _ & Ho); [|done].
      destruct o; [destruct Ho as [-> _]|by apply not_elem_of_nil in Ho].
      rewrite decide_True by lia. apply list_elem_of_singleton. f_equal. lia.
  - apply Forall_cons in Hws as [Hwp Hws]. rewrite Forall_forall in Hp.
    assert (ssub p ws = p - ws) as -> by (width; lia).
    rewrite elem_of_app, IH by (by apply Forall_forall). split.
    + intros [Hv|(a & b & o & -> & Hd & Ha & Hb & Ho)].
      * case_decide; [|by apply not_elem_of_nil in Hv]. apply list_elem_of_singleton in Hv as ->.
        exists ws, p, false. split; [done|]. split; [done|]. split; [by left|]. split; [|set_solver].
        intros q [->|Hq%Hp]%elem_of_cons; lia.
      * exists a, b, o. split; [done|]. split; [done|].
        assert (p <= a) as Hpa by (destruct Ha as [->|?%Hp]; lia).
        split; [set_solver|]. split; [intros q [->|Hq]%elem_of_cons; [lia|by apply Hb]|].
        destruct o; [|by right]. destruct Ho as [-> Ho]. split; [done|].
        intros q [->|Hq]%elem_of_cons; [lia|by apply Ho].
    + intros (a & b & o & -> & Hd & Ha & Hb & Ho).
      destruct (decide (a = ws /\ ws < p)) as [[-> Hlt]|Hn].
      * (* the silence ends at [p] *)
        assert (b = p /\ o = false) as [-> ->].
        { pose proof (Hb p (list_elem_of_here _ _)). destruct o.
          - destruct Ho as [-> Ho]. pose proof (Ho p (list_elem_of_here _ _)). lia.
          - split; [|done]. apply elem_of_cons in Ho as [->|Hq%Hp]; [done|]. lia. }
        left. rewrite decide_True by done. by apply list_elem_of_singleton.
      * right. exists a, b, o. split; [done|]. split; [done|]. split.
        { destruct Ha as [->|[->|]%elem_of_cons]; [left; lia|by left|by right]. }
        split; [intros q Hq; apply Hb; by right|].
        destruct o; [destruct Ho as [-> Ho]; split; [done|intros q Hq; apply Ho; by right]|].
        apply elem_of_cons in Ho as [->|]; [|done]. exfalso.
        destruct Ha as [->|[->|Hq%Hp]%elem_of_cons]; lia.
Qed.

(** The points of a signal. *)
Definition reports_signal (signal : TargetSignalSelector) (s : ObservabilityStore) (p : Z) : Prop :=
  match signal with
  | Event kind => exists e, e ∈ events s /\ ev_kind_id e = kind /\ ev_timestamp_ns e = p
  | Counter set _ => exists c, c ∈ counter_samples s /\ cm_counter_set_id c = set /\
                     sample_timestamp c = Some p
  end.

Lemma signal_points_sorted signal s : StronglySorted Z.le (signal_points signal s).
Proof.
  unfold signal_points. set (l := match signal with Event _ => _ | Counter _ _ => _ end).
  assert (StronglySorted (fun x y => bool_decide (x <= y) = true)
            (sort_by (fun x y => bool_decide (x <= y)) l)) as H.
  { apply (sort_by_sorted (fun x y => bool_decide (x <= y)));
      intros *; rewrite ?bool_decide_eq_true, ?bool_decide_eq_false; lia. }
  eapply StronglySorted_weaken; [|exact H]. intros x y ?%bool_decide_eq_true. done.
Qed.

Lemma elem_of_signal_points signal s p : p ∈ signal_points signal s <-> reports_signal signal s p.
Proof.
  unfold signal_points. rewrite sort_by_perm. destruct signal; cbn.
  - rewrite list_elem_of_In, in_map_iff. setoid_rewrite <- list_elem_of_In.
    setoid_rewrite list_elem_of_filter. naive_solver.
  - rewrite list_elem_of_omap. setoid_rewrite list_elem_of_filter. naive_solver.
Qed.

(** A gap contract reports exactly the silences of its signal longer than the
    limit: in each duty window, from its start or a signal to the next signal,
    or, open, to the window's end when no signal follows. *)
Theorem signal_gap_exact pid c signal owner_tid max_ns duty session_start s v :
  0 <= max_ns ->
  v ∈ eval_signal_gap hash pid c signal owner_tid max_ns duty session_start s <->
  exists ws we a b o, (ws, we) ∈ duty /\
    v = gap_report hash pid c owner_tid max_ns session_start a b (b - a) o /\ max_ns < b - a /\
    silence (filter (fun p => ws <= p /\ p <= we) (signal_points signal s)) ws we a b o.
Proof.
  intros Hmax. unfold eval_signal_gap. rewrite list_elem_of_bind. split.
  - intros ([ws we] & Hv & Hw). apply gap_loop_exact in Hv; [|done|..].
    + destruct Hv as (a & b & o & ? & ? & ?). by exists ws, we, a, b, o.
    + apply StronglySorted_filter, signal_points_sorted.
    + apply Forall_forall. intros p [? _]%list_elem_of_filter. lia.
  - intros (ws & we & a & b & o & Hw & -> & Hd & Hg). exists (ws, we). split; [|done].
    apply gap_loop_exact; [done|..].
    + apply StronglySorted_filter, signal_points_sorted.
    + apply Forall_forall. intros p [? _]%list_elem_of_filter. lia.
    + by exists a, b, o.
Qed.
End Gaps.

(** ** Coalescing *)

(** [o] stands for [v]: the same contract and correlation, over a stretch that
    contains it, open if it is. *)
Definition absorbs (o v : TargetViolation) : Prop :=
  v_contract_id o = v_contract_id v /\ v_correlation_id o = v_correlation_id v /\
  v_start_ns o <= v_start_ns v /\ v_end_ns v <= v_end_ns o /\ (open v = true -> open o = true).

(** Neighbours that could be one are further apart than the cooldown. *)
Definition separated (cooldown : Z) (later earlier : TargetViolation) : Prop :=
  v_contract_id earlier = v_contract_id later -> v_correlation_id earlier = v_correlation_id later ->
  sadd64 (v_end_ns earlier) cooldown < v_start_ns later.

Record coalescing (cooldown : Z) (done_ out : list TargetViolation) : Prop := {
  co_absorbed : forall v, v ∈ done_ -> exists o, o ∈ out /\ absorbs o v;
  co_real : forall o, o ∈ out ->
    (exists v, v ∈ done_ /\ v_start_ns v = v_start_ns o /\ v_contract_id v = v_contract_id o) /\
    (exists v, v ∈ done_ /\ v_end_ns v = v_end_ns o /\ absorbs o v) /\
    (open o = true -> exists v, v ∈ done_ /\ open v = true /\ absorbs o v);
  co_count : sum_of contributing_violations out ≡64 sum_of contributing_violations done_;
  co_apart : Sorted (separated cooldown) out
}.

Lemma absorbs_trans a b c : absorbs a b -> absorbs b c -> absorbs a c.
Proof. intros (? & ? & ? & ? & ?) (? & ? & ? & ? & ?). split_and!; try lia; try congruence; auto. Qed.

Lemma absorbs_refl v : absorbs v v.
Proof. by split_and!. Qed.

Lemma coalesce_step_ok cooldown done_ out v :
  coalescing cooldown done_ out -> Forall (fun u => v_start_ns u <= v_start_ns v) done_ ->
  coalescing cooldown (done_ ++ [v]) (coalesce_step cooldown out v).
Proof.
  intros [Ha Hr Hc Hs] Hle. rewrite Forall_forall in Hle.
  assert (forall out', out' = v :: out -> HdRel (separated cooldown) v out ->
            coalescing cooldown (done_ ++ [v]) out') as Hpush.
  { intros ? -> Hh. constructor.
    - intros u [Hu| ->%list_elem_of_singleton]%elem_of_app.
      + destruct (Ha u Hu) as (o & ? & ?). exists o. split; [by right|done].
      + exists v. split; [by left|apply absorbs_refl].
    - intros o [->|Ho]%elem_of_cons.
      + split_and!; [exists v..|]; [set_solver|split_and!; [set_solver|done|apply absorbs_refl]|].
        intros Hv. exists v. split_and!; [set_solver|done|apply absorbs_refl].
      + destruct (Hr o Ho) as ((u1 & ? & ?) & (u2 & ? & ?) & H3). split_and!.
        * exists u1. set_solver.
        * exists u2. set_solver.
        * intros (u3 & ? & ?)%H3. exists u3. set_solver.
    - rewrite sum_of_snoc, sum_of_cons. clear -Hc. balanced.
    - by constructor. }
  unfold coalesce_step. destruct out as [|l rest]; [by apply Hpush|].
  case_decide as Hd.
  2:{ apply Hpush; [done|]. constructor. intros E1 E2. cbn in *.
      destruct (decide (sadd64 (v_end_ns l) cooldown < v_start_ns v)); [done|]. exfalso.
      apply Hd. split_and!; [done..|]. lia. }
  destruct Hd as (E1 & E2 & Hd). cbv zeta. set (l' := field_update contributing_violations _ _).
  destruct (Hr l) as ((u1 & Hu1 & Es & Ec) & (u2 & Hu2 & Ee & Hab) & Ho); [by left|].
  assert (absorbs l' l /\ absorbs l' v) as [Hl Hv].
  { specialize (Hle u1 Hu1). unfold absorbs, l'. cbn.
    split; split_and!; try done; try lia; intros ->; [done|by destruct (open l)]. }
  constructor.
  - intros u [Hu| ->%list_elem_of_singleton]%elem_of_app; [|exists l'; split; [by left|done]].
    destruct (Ha u Hu) as (o & [->|Ho']%elem_of_cons & Hou).
    + exists l'. split; [by left|exact (absorbs_trans _ _ _ Hl Hou)].
    + exists o. split; [by right|done].
  - intros o [->|Ho']%elem_of_cons.
    + split_and!.
      * exists u1. split; [set_solver|]. by cbn.
      * destruct (decide (v_end_ns l <= v_end_ns v)).
        -- exists v. split; [set_solver|]. split; [cbn; lia|done].
        -- exists u2. split; [set_solver|]. split; [cbn; lia|exact (absorbs_trans _ _ _ Hl Hab)].
      * cbn. intros [Hol|Hov]%orb_true_iff.
        -- destruct (Ho Hol) as (u3 & ? & ? & Hab'). exists u3. split; [set_solver|].
           split; [done|exact (absorbs_trans _ _ _ Hl Hab')].
        -- exists v. split; [set_solver|]. done.
    + destruct (Hr o) as ((w1 & ? & ?) & (w2 & ? & ?) & H3); [by right|]. split_and!.
      * exists w1. set_solver.
      * exists w2. set_solver.
      * intros (w3 & ? & ?)%H3. exists w3. set_solver.
  - rewrite sum_of_snoc, sum_of_cons. cbn [contributing_violations l'].
    rewrite sum_of_cons in Hc. clear -Hc. subst l'. cbn. balanced.
  - apply Sorted_inv in Hs as [Hs Hh]. constructor; [done|].
    inversion Hh as [|r rest' Hr']; constructor. intros F1 F2. cbn in *. by apply Hr'.
Qed.

(** Coalescing the violations of a contract loses none: each is absorbed by one
    that covers it; a coalesced one starts and ends where violations it stands
    for do and is open only if one of them is; the contribution counts add up
    (modulo [2^64]); and neighbours of one correlation are further apart than
    the cooldown. *)
Theorem coalesce_exact vs cooldown :
  (forall v, v ∈ vs -> exists o, o ∈ coalesce vs cooldown /\ absorbs o v) /\
  (forall o, o ∈ coalesce vs cooldown ->
    (exists v, v ∈ vs /\ v_start_ns v = v_start_ns o /\ v_contract_id v = v_contract_id o) /\
    (exists v, v ∈ vs /\ v_end_ns v = v_end_ns o /\ absorbs o v) /\
    (open o = true -> exists v, v ∈ vs /\ open v = true /\ absorbs o v)) /\
  sum_of contributing_violations (coalesce vs cooldown) ≡64 sum_of contributing_violations vs /\
  Sorted (separated cooldown) (reverse (coalesce vs cooldown)).
Proof.
  unfold coalesce. set (le := fun a b => bool_decide (v_start_ns a <= v_start_ns b)).
  assert (StronglySorted (fun a b => le a b = true) (sort_by le vs)) as Hs.
  { apply (sort_by_sorted le); unfold le; intros *;
      rewrite ?bool_decide_eq_true, ?bool_decide_eq_false; lia. }
  assert (forall l done_ out, StronglySorted (fun a b => le a b = true) l ->
    (forall a b, a ∈ done_ -> b ∈ l -> v_start_ns a <= v_start_ns b) ->
    coalescing cooldown done_ out -> coalescing cooldown (done_ ++ l) (foldl (coalesce_step cooldown) out l))
    as Hfold.
  { induction l as [|v l IH]; intros done_ out Hl Hle Hc; cbn; [by rewrite app_nil_r|].
    apply StronglySorted_inv in Hl as [Hl Hv]. rewrite Forall_forall in Hv.
    rewrite cons_middle, app_assoc. apply IH; [done|..].
    - intros a b [Ha| ->%list_elem_of_singleton]%elem_of_app Hb; [apply Hle; set_solver|].
      apply Hv in Hb. by apply bool_decide_eq_true in Hb.
    - apply coalesce_step_ok; [done|]. apply Forall_forall. intros u Hu. apply Hle; set_solver. }
  destruct (Hfold (sort_by le vs) [] []) as [Ha Hr Hc Hp]; [done|set_solver|by constructor; set_solver|].
  cbn in *. setoid_rewrite elem_of_reverse. rewrite reverse_involutive.
  assert (forall v, v ∈ sort_by le vs <-> v ∈ vs) as Hin by (intros; by rewrite sort_by_perm).
  setoid_rewrite Hin in Ha. setoid_rewrite Hin in Hr.
  split; [done|]. split; [done|]. split; [|done].
  rewrite (sum_of_perm _ _ _ (reverse_Permutation _)), <- (sum_of_perm _ _ _ (sort_by_perm le vs)). done.
Qed.

(** ** The event list *)

(** What an event contributes to an unlimited answer. *)
Definition event_answer (kinds : list TargetEventKindRecord) (params : EventQueryParams)
    (session_start : Z) (s : ObservabilityStore) (e : TargetEventRecord) : option AppEventEntry :=
  if in_window (ssub (ev_timestamp_ns e) session_start) (eq_window params) &&
     match eq_tid params with
     | Some tid => bool_decide (ev_tid e = Some tid)
     | None => true
     end
  then d ← event_definition kinds s e;
       if name_matches (eq_name_contains params) (ek_name d)
       then Some (decode_event e d session_start) else None
  else None.

Lemma events_step_answer kinds params session_start s out total e :
  events_step kinds params session_start s (out, total) e =
  match event_answer kinds params session_start s e with
  | None => (out, total)
  | Some a => (if bool_decide (Z.of_nat (length out) < Z.max (eq_limit params) 1) then out ++ [a] else out,
               wadd64 total 1)
  end.
Proof.
  unfold events_step, event_answer. destruct (in_window _ _); cbn [negb orb andb]; [|done].
  destruct (eq_tid params) as [tid|]; [rewrite bool_decide_not; destruct (bool_decide _); [|done]|];
    cbn [negb]; (destruct (event_definition kinds s e); cbn; [|done]);
    (destruct (name_matches _ _); cbn; [|done]); by case_bool_decide.
Qed.

Lemma omap_length {A B} (f : A -> option B) l : (length (omap f l) <= length l)%nat.
Proof. induction l as [|x l IH]; cbn; [done|]. destruct (f x); cbn in *; lia. Qed.

(** The event list shows, in time order, the first events that pass the window,
    thread and name filters, up to the limit and decoded by their definition;
    it counts all of them and says whether some were left out. *)
Theorem events_update_exact kinds params session_start s :
  Z.of_nat (length (events s)) < 2 ^ 64 ->
  let all := omap (event_answer kinds params session_start s) (events s) in
  let limit := Z.max (eq_limit params) 1 in
  events_update kinds params session_start s =
  mkEventListUpdate (take (Z.to_nat limit) all) (Z.of_nat (length all))
    (bool_decide (limit < Z.of_nat (length all))).
Proof.
  intros Hlen. unfold events_update. cbv zeta.
  set (ans := event_answer kinds params session_start s). set (limit := Z.max (eq_limit params) 1).
  assert (foldl (events_step kinds params session_start s) ([], 0) (events s) =
    (take (Z.to_nat limit) (omap ans (events s)), Z.of_nat (length (omap ans (events s))))) as ->.
  { revert Hlen. generalize (events s). induction l as [|e l IH] using rev_ind; intros Hlen.
    - change (omap ans []) with (@nil AppEventEntry). by rewrite take_nil.
    - rewrite length_app in Hlen. cbn in Hlen. rewrite foldl_snoc, IH, events_step_answer by lia.
      rewrite omap_app. cbn [omap list_omap]. fold ans. destruct (ans e) as [a|] eqn:Ea; cbn.
      2:{ by rewrite app_nil_r. }
      pose proof (omap_length ans l) as Hom.
      rewrite length_app, length_take, wadd64_small by (cbn; lia).
      cbn [length]. f_equal; [|lia]. fold limit. case_bool_decide as Hc.
      + rewrite !take_ge by (rewrite ?length_app; cbn; lia). done.
      + rewrite take_app_le by lia. done. }
  f_equal. rewrite length_take. apply bool_decide_ext. lia.
Qed.

(** ** The counter series *)

Definition group_of (k : group_key) (m : list (group_key * list TargetCounterSampleRecord))
    : list TargetCounterSampleRecord :=
  match list_find (fun e => e.1 = k) m with
  | Some (_, e) => e.2
  | None => []
  end.

(** The groups are in key order and none is empty. *)
Definition groups_ok (m : list (group_key * list TargetCounterSampleRecord)) : Prop :=
  StronglySorted (fun a b => group_lt a.1 b.1 = true) m /\ Forall (fun e => e.2 <> []) m.

Lemma group_of_cons k k' l m :
  group_of k ((k', l) :: m) = if decide (k' = k) then l else group_of k m.
Proof.
  unfold group_of. cbn. case_decide; [done|]. destruct (list_find _ m) as [[i e]|]; done.
Qed.

Lemma group_lt_trans a b c : group_lt a b = true -> group_lt b c = true -> group_lt a c = true.
Proof. unfold group_lt. rewrite !bool_decide_eq_true. lia. Qed.

Lemma group_lt_total a b : a <> b -> group_lt a b = false -> group_lt b a = true.
Proof.
  unfold group_lt. rewrite bool_decide_eq_false, bool_decide_eq_true.
  destruct a as [[a1 a2] a3], b as [[b1 b2] b3]; cbn. intros Hne Hlt.
  destruct (decide (a1 = b1)) as [->|]; [|lia]. destruct (decide (a2 = b2)) as [->|]; [|lia].
  destruct (decide (a3 = b3)) as [->|]; [done|lia].
Qed.

Lemma group_push_elem k c m e : e ∈ group_push k c m -> e.1 = k \/ e ∈ m.
Proof.
  induction m as [|[k' l] m IH]; cbn; [intros ->%list_elem_of_singleton; by left|].
  case_decide as Hk; [|case_match]; intros [->|He]%elem_of_cons; subst; auto.
  - right. by right.
  - right. by left.
  - apply IH in He as [?|?]; [by left|right; by right].
Qed.

Lemma group_push_ok k c m : groups_ok m -> groups_ok (group_push k c m).
Proof.
  intros [Hs Hne]. induction m as [|[k' l] m IH]; cbn; [split; repeat constructor; done|].
  apply StronglySorted_inv in Hs as [Hs Hk]. apply Forall_cons in Hne as [Hl Hne].
  case_decide as Hd; [|destruct (group_lt k k') eqn:E].
  - subst. split; [by constructor|]. constructor; [|done]. cbn. by destruct l.
  - split; [|by repeat constructor]. constructor; [by constructor|]. constructor; [done|].
    eapply Forall_impl; [exact Hk|]. intros x Hx. by eapply group_lt_trans.
  - destruct (IH Hs Hne) as [H1 H2]. split; [|by constructor]. constructor; [done|].
    apply Forall_forall. intros e [->|He]%group_push_elem; cbn.
    + by apply group_lt_total.
    + by eapply Forall_forall in Hk.
Qed.

Lemma group_push_get k c m k' :
  groups_ok m -> group_of k' (group_push k c m) = group_of k' m ++ (if decide (k = k') then [c] else []).
Proof.
  intros [Hs _]. induction m as [|[j l] m IH]; cbn [group_push].
  - rewrite group_of_cons. unfold group_of. cbn. by case_decide.
  - apply StronglySorted_inv in Hs as [Hs Hk]. rewrite Forall_forall in Hk.
    destruct (decide (k = j)) as [<-|Hd]; [|destruct (group_lt k j) eqn:E]; rewrite !group_of_cons.
    + case_decide; [done|]. by rewrite app_nil_r.
    + destruct (decide (k = k')) as [<-|]; [|by rewrite app_nil_r].
      rewrite (decide_False (P := j = k)) by congruence.
      assert (group_of k m = []) as ->; [|done]. unfold group_of.
      destruct (list_find _ m) as [[n e]|] eqn:Ef; [|done]. exfalso.
      apply list_find_Some in Ef as (He%list_elem_of_lookup_2 & Hek & _).
      apply Hk in He. cbn in He. rewrite Hek in He.
      pose proof (group_lt_trans _ _ _ E He) as F. unfold group_lt in F.
      apply bool_decide_eq_true in F. lia.
    + rewrite IH by done. destruct (decide (j = k')) as [->|]; [|done].
      rewrite (decide_False (P := k = k')) by done. by rewrite app_nil_r.
Qed.

(** A sample of the window that has a value for the counter of a group. *)
Definition in_group (window : option TimeRange) (session_start : Z) (k : group_key)
    (c : TargetCounterSampleRecord) : bool :=
  match sample_timestamp c with
  | Some t => in_window (ssub t session_start) window
  | None => false
  end && bool_decide ((cm_source_pid c, cm_counter_set_id c) = k.1 /\ (k.2 < length (cm_values c))%nat).

Lemma group_sample_get window st m c k :
  groups_ok m ->
  groups_ok (group_sample window st m c) /\
  group_of k (group_sample window st m c) = group_of k m ++ (if in_group window st k c then [c] else []).
Proof.
  intros Hm. unfold group_sample, in_group. destruct (sample_timestamp c) as [t|]; cbn;
    [|by rewrite app_nil_r]. destruct (in_window _ window); cbn; [|by rewrite app_nil_r].
  assert (forall n i m, groups_ok m ->
    let m' := foldl (fun m index => group_push (cm_source_pid c, cm_counter_set_id c, index) c m) m (seq i n) in
    groups_ok m' /\ group_of k m' = group_of k m ++
      (if bool_decide ((cm_source_pid c, cm_counter_set_id c) = k.1 /\ (i <= k.2 < i + n)%nat) then [c] else []))
    as Hseq.
  { clear m Hm. induction n as [|n IH]; intros i m Hm; cbn.
    - rewrite bool_decide_false by (intros [_ ?]; lia). by rewrite app_nil_r.
    - destruct (IH (S i) _ (group_push_ok (cm_source_pid c, cm_counter_set_id c, i) c m Hm)) as [H1 H2].
      cbv zeta in H1, H2. split; [done|]. rewrite H2, group_push_get, <- app_assoc by done. f_equal.
      destruct k as [k1 k2]. cbn [fst snd].
      destruct (decide ((cm_source_pid c, cm_counter_set_id c, i) = (k1, k2))) as [Hd|Hd].
      + simplify_eq. rewrite bool_decide_false by (intros [_ ?]; lia).
        rewrite bool_decide_true by (split; [done|lia]). by rewrite decide_True by done.
      + rewrite decide_False by done. cbn [app]. erewrite bool_decide_ext; [done|].
        split; [intros [? ?]; split; [done|lia]|]. intros [E ?]. split; [done|].
        destruct (decide (i = k2)); [congruence|lia]. }
  destruct (Hseq (length (cm_values c)) 0%nat m Hm) as [H1 H2]. split; [done|]. rewrite H2. f_equal.
  erewrite bool_decide_ext; [done|]. intuition lia.
Qed.

Lemma groups_exact window st cs :
  let groups := foldl (group_sample window st) [] cs in
  groups_ok groups /\ forall k, group_of k groups = filter (fun c => in_group window st k c = true) cs.
Proof.
  induction cs as [|c cs IH] using rev_ind; cbn; [split; [repeat constructor|done]|].
  rewrite foldl_snoc. destruct IH as [Hm Hk]. split; [by apply (group_sample_get _ _ _ _ ((0, 0), 0%nat))|].
  intros k. destruct (group_sample_get window st _ c k Hm) as [_ ->]. rewrite Hk, filter_app.
  f_equal. cbn. case_match; [by rewrite decide_True|rewrite decide_False by congruence; done].
Qed.

(** What a group contributes to an unlimited answer. *)
Definition series_answer (sets : list TargetCounterSetRecord) (params : CounterQueryParams)
    (session_start : Z) (s : ObservabilityStore)
    (g : group_key * list TargetCounterSampleRecord) : option CounterSeriesEntry :=
  set ← counter_set_for sets s g.1;
  d ← counters set !! g.1.2;
  if name_matches (cq_name_contains params) (cs_name set +:+ "." +:+ cd_name d)
  then Some (series_entry params session_start g.1 g.2 set d) else None.

Lemma series_loop_take sets params st s groups out :
  let limit := Z.to_nat (Z.max (cq_limit params) 1) in
  (length out <= limit)%nat ->
  series_loop sets params st s groups out =
  (take limit (out ++ omap (series_answer sets params st s) groups),
   bool_decide (limit < length out + length (omap (series_answer sets params st s) groups))%nat).
Proof.
  intros limit. revert out. induction groups as [|[k l] groups IH]; intros out Hlen; cbn [series_loop].
  - cbn. rewrite app_nil_r, take_ge by done. by rewrite bool_decide_false by lia.
  - cbn [omap list_omap]. destruct (series_answer sets params st s (k, l)) as [a|] eqn:Ea;
      unfold series_answer in Ea; cbn in Ea;
      destruct (counter_set_for sets s k) as [set|]; cbn in Ea |- *; try done; try (by apply IH);
      destruct (counters set !! k.2) as [d|]; cbn in Ea |- *; try done; try (by apply IH);
      destruct (name_matches _ _); cbn in Ea |- *; try done; try (by apply IH).
    injection Ea as <-. case_bool_decide as Hc.
    + assert (length out = limit) as E by (unfold limit in *; lia).
      rewrite <- E, take_app_length, bool_decide_true by lia. done.
    + rewrite IH by (rewrite length_app; cbn; unfold limit in *; lia).
      rewrite <- app_assoc, length_app. f_equal. apply bool_decide_ext. cbn [length]. lia.
Qed.

(** The counter list has, by process, set and index in ascending order, one
    entry per counter with a known, matching definition, built from exactly the
    samples of the window that carry the counter, in time order; it is cut at
    the limit and says so. *)
Theorem counters_update_exact sets params session_start s :
  exists groups : list (group_key * list TargetCounterSampleRecord),
    let all := omap (series_answer sets params session_start s) groups in
    let limit := Z.to_nat (Z.max (cq_limit params) 1) in
    counters_update sets params session_start s =
      (take limit all, bool_decide (limit < length all)%nat) /\
    StronglySorted (fun a b => group_lt a.1 b.1 = true) groups /\
    forall k l, (k, l) ∈ groups <->
      l <> [] /\ l = filter (fun c => in_group (cq_window params) session_start k c = true) (counter_samples s).
Proof.
  destruct (groups_exact (cq_window params) session_start (counter_samples s)) as [[Hs Hne] Hg].
  exists (foldl (group_sample (cq_window params) session_start) [] (counter_samples s)).
  cbv zeta. split; [|split; [done|]].
  - unfold counters_update. cbv zeta. rewrite series_loop_take by (cbn; lia). done.
  - revert Hs Hne Hg. generalize (foldl (group_sample (cq_window params) session_start) [] (counter_samples s)).
    intros groups Hs Hne Hg k l. rewrite <- Hg. clear Hg. rewrite Forall_forall in Hne. split.
    + intros Hin. split; [by apply (Hne (k, l))|].
      induction groups as [|[k' l'] groups IH]; [by apply not_elem_of_nil in Hin|].
      apply StronglySorted_inv in Hs as [Hs Hk]. rewrite group_of_cons. rewrite Forall_forall in Hk.
      apply elem_of_cons in Hin as [[= <- <-]|Hin]; [by rewrite decide_True|].
      rewrite decide_False; [apply IH; [done| |done]; set_solver|].
      intros ->. apply Hk in Hin. cbn in Hin. unfold group_lt in Hin. apply bool_decide_eq_true in Hin. lia.
    + intros [Hl ->]. unfold group_of in *. destruct (list_find _ groups) as [[i [k' l']]|] eqn:E; [|done].
      apply list_find_Some in E as (He & <- & _). by apply list_elem_of_lookup_2 in He.
Qed.

(** ** Examples *)

#[local] Instance demo_names : Aggregate.SymbolLookup := fun _ => None.
Definition demo_hash (pid contract start end_ : Z) (correlation : option Z) : Z := start.

Definition demo_contract : TargetContractRecord :=
  mkTargetContractRecord 4 "frames keep coming" None Warn (EntireRun 0 0) (MaxSignalGap (Event 1) None 50).

(** Three signals at 110, 120 and 900 in a run from 100 to 1000: silent from
    120 to 900, and from 900 to the end. *)
Lemma signal_gap_exact_witness :
  gap_report demo_hash 7 demo_contract None 50 100 120 900 780 false
    ∈ eval_signal_gap demo_hash 7 demo_contract (Event 1) None 50 [(100, 1000)] 100 (run demo_ops).
Proof.
  apply (signal_gap_exact demo_hash); [lia|]. exists 100, 1000, 120, 900, false.
  split; [by apply list_elem_of_singleton|]. split; [done|]. split; [lia|].
  assert (filter (fun p => 100 <= p /\ p <= 1000) (signal_points (Event 1) (run demo_ops)) = [110; 120; 900])
    as -> by (vm_compute; reflexivity).
  split; [set_solver|]. split; [|set_solver]. intros p Hp. apply elem_of_cons in Hp. set_unfold. lia.
Defined.

Lemma events_update_exact_witness :
  events_update [] (mkEventQueryParams None (Some (mkTimeRange 0 30)) None 1) 100 (run demo_ops) =
  mkEventListUpdate
    [mkAppEventEntry 1 1 10 7 (Some 8) "tick" None None []] 2 true.
Proof.
  transitivity (let all := omap (event_answer [] (mkEventQueryParams None (Some (mkTimeRange 0 30)) None 1)
                                  100 (run demo_ops)) (events (run demo_ops)) in
    mkEventListUpdate (take 1 all) (Z.of_nat (length all)) (bool_decide (1 < Z.of_nat (length all)))).
  - apply (events_update_exact [] (mkEventQueryParams None (Some (mkTimeRange 0 30)) None 1) 100).
    vm_compute. reflexivity.
  - vm_compute. reflexivity.
Defined.

End Contracts.
