(* ===== verification/Timeline.v ===== *)
(** * The timeline of a recording

    [build_timeline_update] of [stax-live/src/lib.rs]: the intervals of every
    thread are spread over buckets of equal width, on and off the CPU and by the
    reason of blocking, with a row per target lane; markers, events and contract
    violations are put beside them. *)

From S2P Require Import Prelude Order Text Demangle Binaries Aggregate Observability Contracts Symbols.

Module Timeline.

Import Order Symbols Aggregate.
Module Live := Observability.
Module Signals := Contracts.

(** ** Data *)

Record TimelineBucket := mkTimelineBucket {
  tb_start_ns : Z;
  tb_on_cpu_ns : Z;
  tb_target_ns : Z;
  tb_off_cpu_ns : Z;
  tb_off_cpu_by_reason : OffCpuBreakdown
}.

Record TargetLaneTimeline := mkTargetLaneTimeline {
  tl_tid : Z;
  tl_lane_name : option Z;
  tl_target_kind : TargetLaneKind;
  tl_total_target_ns : Z;
  tl_target_spans : Z;
  tl_buckets : list Z
}.

#[export] Instance eta_TargetLaneTimeline : Eta TargetLaneTimeline := fun l =>
  mkTargetLaneTimeline (tl_tid l) (tl_lane_name l) (tl_target_kind l) (tl_total_target_ns l)
    (tl_target_spans l) (tl_buckets l).

Record AppEventTick := mkAppEventTick {
  at_timestamp_ns : Z;
  at_source_pid : Z;
  at_tid : option Z;
  at_event_kind_id : Z;
  at_name : string;
  at_correlation_id : option Z
}.

Record ViolationSpan := mkViolationSpan {
  vs_violation_id : Z;
  vs_contract_id : Z;
  vs_name : string;
  vs_severity : Live.TargetContractSeverity;
  vs_start_ns : Z;
  vs_end_ns : Z;
  vs_open : bool
}.

Record CounterBucket := mkCounterBucket {
  cb_start_ns : Z;
  cb_first : option Live.TargetCounterScalar;
  cb_last : option Live.TargetCounterScalar;
  cb_min : option Live.TargetCounterScalar;
  cb_max : option Live.TargetCounterScalar;
  cb_changes : Z
}.

Record CounterTimeline := mkCounterTimeline {
  ct_source_pid : Z;
  ct_counter_set_id : Z;
  ct_counter_index : Z;
  ct_name : string;
  ct_unit : Live.TargetCounterUnit;
  ct_monotonic : bool;
  ct_buckets : list CounterBucket
}.

Record TimelineUpdate := mkTimelineUpdate {
  tu_strings : list (list Z);
  tu_bucket_size_ns : Z;
  tu_recording_duration_ns : Z;
  tu_started_at_unix_ns : Z;
  tu_total_on_cpu_ns : Z;
  tu_total_target_ns : Z;
  tu_total_off_cpu_ns : Z;
  tu_buckets : list TimelineBucket;
  tu_target_lanes : list TargetLaneTimeline;
  tu_markers : list RunMarker;
  tu_app_events : list AppEventTick;
  tu_violations : list ViolationSpan;
  tu_counters : list CounterTimeline
}.

Definition TARGET_BUCKETS : Z := 200.
Definition MIN_BUCKET_NS : Z := 50000000.
Definition TARGET_LANE_CAP : nat := 8.

(** The local variables of the walk. *)
Record Walk := mkWalk {
  on_cpu_per_bucket : list Z;
  target_per_bucket : list Z;
  off_cpu_per_bucket : list Z;
  off_cpu_reason_per_bucket : list OffCpuBreakdown;
  target_lanes : gmap Z TargetLaneTimeline;
  interner : StringInterner;
  total_on_cpu : Z;
  total_target : Z;
  total_off_cpu : Z
}.

#[export] Instance eta_Walk : Eta Walk := fun w =>
  mkWalk (on_cpu_per_bucket w) (target_per_bucket w) (off_cpu_per_bucket w)
    (off_cpu_reason_per_bucket w) (target_lanes w) (interner w) (total_on_cpu w) (total_target w)
    (total_off_cpu w).

(** [v[b] = v[b].saturating_add(d)]; the loop keeps [b] in range. *)
Definition bump (b d : Z) (v : list Z) : list Z := alter (fun x => sadd64 x d) (Z.to_nat b) v.

Definition target_info (k : IntervalKind) : option (list Z * option Z * TargetLaneKind) :=
  match k with
  | SyntheticSpan stack origin_tid lane_kind => Some (stack, origin_tid, lane_kind)
  | OnCpu | OffCpu _ _ _ => None
  end.

(** The test that skips an interval when the timeline is of one thread. *)
Definition filtered_out (tid : option Z) (event_tid : Z) (k : IntervalKind) : bool :=
  match tid with
  | Some filter_tid =>
      bool_decide (event_tid <> filter_tid) &&
      bool_decide ((target_info k ≫= fun i => i.1.2) <> Some filter_tid)
  | None => false
  end.

(** The start and end of what is shown: the window, or the session. *)
Definition shown_range (window : option Signals.TimeRange) (session_start session_last : Z) : Z * Z :=
  match window with
  | Some w => (sadd64 session_start (Signals.r_start_ns w), sadd64 session_start (Signals.r_end_ns w))
  | None => (session_start, session_last)
  end.

Definition bucket_width (bucket_ns : option Z) (recording_duration_ns : Z) : Z :=
  match bucket_ns with
  | Some b => b
  | None => if decide (recording_duration_ns = 0) then MIN_BUCKET_NS
            else Z.max (recording_duration_ns / TARGET_BUCKETS) MIN_BUCKET_NS
  end.

Section Build.
Context `{Order : MapOrder} `{Table : SymbolTable}.

Section Walking.
Variables (start last bucket_size_ns n_buckets : Z) (tid : option Z).

Definition walk_new : Walk :=
  let zeros := replicate (Z.to_nat (Z.max n_buckets 1)) 0 in
  mkWalk zeros zeros zeros (replicate (Z.to_nat (Z.max n_buckets 1)) breakdown_default) ∅ interner_new 0 0 0.

Definition lane_new (event_tid : Z) (lane_name : option Z) (lane_kind : TargetLaneKind) : TargetLaneTimeline :=
  mkTargetLaneTimeline event_tid lane_name lane_kind 0 0 (replicate (Z.to_nat (Z.max n_buckets 1)) 0).

(** [target_lanes.entry(tid).or_insert_with(..)], updated. *)
Definition with_lane (event_tid : Z) (lane_name : option Z) (lane_kind : TargetLaneKind)
    (f : TargetLaneTimeline -> TargetLaneTimeline) (lanes : gmap Z TargetLaneTimeline)
    : gmap Z TargetLaneTimeline :=
  <[event_tid := f (default (lane_new event_tid lane_name lane_kind) (lanes !! event_tid))]> lanes.

Definition int_end (i : RawInterval) : Z := if decide (end_ns i = 0) then last else end_ns i.

(** What bucket [b] gets of an interval. *)
Definition bucket_share (rel_start rel_end b : Z) : Z :=
  let b_start := as_u64 (b * bucket_size_ns) in
  let b_end := sadd64 b_start bucket_size_ns in
  ssub (Z.min b_end rel_end) (Z.max b_start rel_start).

Definition bucket_step (event_tid : Z) (on_cpu target : bool) (off_cpu_reason : option OffCpuReason)
    (lane_name : option Z) (lane_kind : TargetLaneKind) (rel_start rel_end : Z) (w : Walk) (b : Z) : Walk :=
  let share := bucket_share rel_start rel_end b in
  if decide (share = 0) then w else
  if on_cpu then
    let w := w <| on_cpu_per_bucket ::= bump b share |> <| total_on_cpu ::= fun x => sadd64 x share |> in
    if target then
      w <| target_per_bucket ::= bump b share |> <| total_target ::= fun x => sadd64 x share |>
        <| target_lanes ::= with_lane event_tid lane_name lane_kind
             (fun lane => lane <| tl_total_target_ns ::= fun x => sadd64 x share |>
                               <| tl_buckets ::= bump b share |>) |>
    else w
  else
    let w := w <| off_cpu_per_bucket ::= bump b share |> <| total_off_cpu ::= fun x => sadd64 x share |> in
    match off_cpu_reason with
    | Some reason => w <| off_cpu_reason_per_bucket ::= alter (add_reason reason share) (Z.to_nat b) |>
    | None => w
    end.

(** The reason an off-CPU interval is blocked for, from the leaf of its stack. *)
Definition interval_reason (k : IntervalKind) : option OffCpuReason :=
  match k with
  | OffCpu stack _ _ => Some (block_reason stack)
  | _ => None
  end.

(** [resolve_target_symbol_name] *)
Definition resolve_target_symbol_name (addr : Z) (it : StringInterner) : option Z * StringInterner :=
  match lookup_symbol addr with
  | Some r => let '(k, it) := intern (function_name r) it in (Some k, it)
  | None => (None, it)
  end.

Definition lane_name_of (info : option (list Z * option Z * TargetLaneKind)) (it : StringInterner)
    : option Z * StringInterner :=
  match info ≫= fun i => i.1.1 !! 1%nat with
  | Some addr => resolve_target_symbol_name addr it
  | None => (None, it)
  end.

Definition interval_step (w : Walk) (e : Z * RawInterval) : Walk :=
  let '(event_tid, i) := e in
  let info := target_info (kind i) in
  if filtered_out tid event_tid (kind i) then w else
  if decide (int_end i <= start_ns i) then w else
  if decide (int_end i <= start) then w else
  let target := bool_decide (is_Some info) in
  let on_cpu := match kind i with OnCpu => true | _ => target end in
  let '(lane_name, it) := lane_name_of info (interner w) in
  let w := w <| interner := it |> in
  let lane_kind := match info with Some j => j.2 | None => Generic end in
  let rel_start := ssub (start_ns i) start in
  let rel_end := ssub (int_end i) start in
  let first_bucket := rel_start / bucket_size_ns in
  let last_bucket := Z.min (ssub rel_end 1 / bucket_size_ns) (ssub n_buckets 1) in
  let w := foldl (bucket_step event_tid on_cpu target (interval_reason (kind i)) lane_name lane_kind
                    rel_start rel_end) w (seqZ first_bucket (last_bucket - first_bucket + 1)) in
  if target
  then w <| target_lanes ::= with_lane event_tid lane_name lane_kind
              (fun lane => lane <| tl_target_spans ::= fun x => sadd64 x 1 |>) |>
  else w.

Definition timeline_bucket (w : Walk) (window_start_rel : Z) (b : nat) : TimelineBucket :=
  mkTimelineBucket (wadd64 (as_u64 (Z.of_nat b * bucket_size_ns)) window_start_rel)
    (on_cpu_per_bucket w !!! b) (target_per_bucket w !!! b) (off_cpu_per_bucket w !!! b)
    (default breakdown_default (off_cpu_reason_per_bucket w !! b)).
End Walking.

(** Longest target time first, then most spans, then by thread. *)
Definition lane_cmp (a b : TargetLaneTimeline) : comparison :=
  then_with (tl_total_target_ns b ?= tl_total_target_ns a)
    (then_with (tl_target_spans b ?= tl_target_spans a) (tl_tid a ?= tl_tid b)).

Definition event_tick (e : Signals.AppEventEntry) : AppEventTick :=
  mkAppEventTick (Signals.ae_timestamp_ns e) (Signals.ae_source_pid e) (Signals.ae_tid e)
    (Signals.ae_kind_id e) (Signals.ae_name e) (Signals.ae_correlation_id e).

Definition violation_span (v : Signals.TargetViolation) : ViolationSpan :=
  mkViolationSpan (Signals.violation_id v) (Signals.v_contract_id v) (Signals.contract_name v)
    (Signals.v_severity v) (Signals.v_start_ns v) (Signals.v_end_ns v) (Signals.open v).

(** [hash] identifies violations, as in Contracts.v. *)
Definition build_timeline_update (hash : Z -> Z -> Z -> Z -> option Z -> Z) (agg : Aggregator)
    (observability : Live.ObservabilityStore) (tid bucket_ns : option Z) (window : option Signals.TimeRange) : outcome TimelineUpdate :=
  let session_start := default 0 (session_start_ns agg) in
  let session_last := default session_start (last_event_ns agg) in
  let window_start_rel := match window with Some w => Signals.r_start_ns w | None => 0 end in
  let '(start, last) := shown_range window session_start session_last in
  let recording_duration_ns := ssub last start in
  let bucket_size_ns := bucket_width bucket_ns recording_duration_ns in
  if decide (bucket_size_ns = 0) then Panic else
  let n_buckets := wadd64 (recording_duration_ns / bucket_size_ns) 1 in
  let w := foldl (interval_step start last bucket_size_ns n_buckets tid) (walk_new n_buckets)
             (iter_intervals (entries (threads agg)) None agg) in
  let buckets := map (timeline_bucket bucket_size_ns w window_start_rel)
                   (seq 0 (Z.to_nat (Z.max n_buckets 1))) in
  let lanes := take TARGET_LANE_CAP (sort_by (le_of lane_cmp) (map snd (entries (target_lanes w)))) in
  Ret (mkTimelineUpdate (strings (interner w)) bucket_size_ns recording_duration_ns 0
         (total_on_cpu w) (total_target w) (total_off_cpu w) buckets lanes
         (map (fun m => mkRunMarker (ssub (rm_timestamp_ns m) session_start) (label m)) (markers agg))
         (map event_tick (Signals.el_events (Signals.events_update (map snd (entries (Live.event_kinds observability)))
            (Signals.mkEventQueryParams tid window None 10000) session_start observability)))
         (map violation_span (Signals.violations_update hash (Signals.mkViolationQueryParams window None 10000)
            (entries (Live.contracts observability)) agg observability).1.1) []).
(** ** What a bucket shows *)

(** The part of an interval between two moments. *)
Definition overlap (last lo hi : Z) (i : RawInterval) : Z :=
  Z.max 0 (Z.min hi (int_end last i) - Z.max lo (start_ns i)).

Definition in_timeline (start last : Z) (tid : option Z) (e : Z * RawInterval) : bool :=
  negb (filtered_out tid e.1 (kind e.2)) && bool_decide (Z.max start (start_ns e.2) < int_end last e.2).

Inductive row := Active | Target | Blocked | BlockedFor (r : OffCpuReason) | Lane (t : Z).

(** The rows an interval belongs to. *)
Definition in_row (r : row) (e : Z * RawInterval) : bool :=
  match r, kind e.2 with
  | Active, (OnCpu | SyntheticSpan _ _ _) | Target, SyntheticSpan _ _ _ | Blocked, OffCpu _ _ _ => true
  | BlockedFor r, OffCpu stack _ _ => bool_decide (block_reason stack = r)
  | Lane t, SyntheticSpan _ _ _ => bool_decide (e.1 = t)
  | _, _ => false
  end.

Definition bucket_value (r : row) (bk : TimelineBucket) : Z :=
  match r with
  | Active => tb_on_cpu_ns bk | Target => tb_target_ns bk | Blocked => tb_off_cpu_ns bk
  | BlockedFor r => read_reason r (tb_off_cpu_by_reason bk) | Lane _ => 0
  end.

(** ** Shares *)

Section Shares.
Variables (start last size N : Z).
Hypothesis (Hsize : 0 < size) (HN : 1 <= N) (Hlast : (N - 1) * size <= u64_max).

Lemma share_overlap i b :
  0 <= b < N -> start < int_end last i -> is_u64 start -> is_u64 (int_end last i) ->
  bucket_share size (ssub (start_ns i) start) (ssub (int_end last i) start) b =
  overlap last (start + b * size) (start + (b + 1) * size) i.
Proof.
  intros Hb He Hs Hi. unfold bucket_share, overlap.
  assert (0 <= b * size <= (N - 1) * size) by nia.
  rewrite as_u64_small by (width; lia).
  replace ((b + 1) * size) with (b * size + size) by lia.
  width. lia.
Qed.

(** The buckets the loop visits. *)
Definition visited (i : RawInterval) : list Z :=
  let first_bucket := ssub (start_ns i) start / size in
  seqZ first_bucket (Z.min (ssub (ssub (int_end last i) start) 1 / size) (N - 1) - first_bucket + 1).

Lemma elem_of_visited i b :
  b ∈ visited i <-> ssub (start_ns i) start / size <= b <= ssub (ssub (int_end last i) start) 1 / size /\ b < N.
Proof. unfold visited. rewrite elem_of_seqZ. lia. Qed.

Lemma visited_in i b : b ∈ visited i -> 0 <= b < N.
Proof.
  intros [[H _] Hb]%elem_of_visited. assert (0 <= ssub (start_ns i) start / size); [|lia].
  apply Z.div_pos; [width|]; lia.
Qed.

(** What is not visited has no share. *)
Lemma not_visited i b :
  0 <= b < N -> b ∉ visited i -> overlap last (start + b * size) (start + (b + 1) * size) i = 0.
Proof.
  rewrite elem_of_visited. intros Hb Hn. unfold overlap.
  destruct (decide (ssub (start_ns i) start / size <= b)) as [Hf|Hf].
  - assert (ssub (ssub (int_end last i) start) 1 < b * size) as Hs.
    { pose proof (Z.mul_succ_div_gt (ssub (ssub (int_end last i) start) 1) size Hsize). nia. }
    revert Hs. width. lia.
  - assert ((b + 1) * size <= ssub (start_ns i) start) as Hs.
    { assert ((b + 1) * size <= ssub (start_ns i) start / size * size) by nia.
      pose proof (Z.mul_div_le (ssub (start_ns i) start) size). lia. }
    revert Hs. width. assert (0 <= b * size) by nia. lia.
Qed.

Lemma visited_sum (P : Z -> Prop) `{!forall b, Decision (P b)} i :
  start < int_end last i -> is_u64 start -> is_u64 (int_end last i) ->
  sum_of (fun b => if decide (P b)
                   then bucket_share size (ssub (start_ns i) start) (ssub (int_end last i) start) b else 0)
    (visited i) =
  sum_of (fun b => if decide (P b) then overlap last (start + b * size) (start + (b + 1) * size) i else 0)
    (seqZ 0 N).
Proof.
  intros He Hs Hi. rewrite (sum_of_ext _ (fun b => if decide (P b)
    then overlap last (start + b * size) (start + (b + 1) * size) i else 0) (visited i)).
  - apply sum_of_support; [apply NoDup_seqZ..| |].
    + intros b Hb%visited_in. apply elem_of_seqZ. lia.
    + intros b Hb%elem_of_seqZ Hn. case_decide; [|done]. apply not_visited; [lia|done].
  - intros b Hb%visited_in. case_decide; [|done]. by apply share_overlap.
Qed.

(** The buckets tile the range they cover. *)
Lemma overlap_tiles i :
  sum_of (fun b => overlap last (start + b * size) (start + (b + 1) * size) i) (seqZ 0 N) =
  overlap last start (start + N * size) i.
Proof.
  clear Hlast. rewrite <- (Z2Nat.id N) by lia. generalize (Z.to_nat N) as n. clear HN. intros n.
  induction n as [|n IH].
  - unfold overlap. rewrite Z.mul_0_l, Z.add_0_r. change (seqZ 0 _) with (@nil Z). cbn [sum_of foldr]. lia.
  - rewrite Nat2Z.inj_succ, <- Z.add_1_r, seqZ_app, sum_of_app, IH by lia.
    replace (seqZ (0 + Z.of_nat n) 1) with [Z.of_nat n] by (rewrite seqZ_cons by lia; by rewrite Z.add_0_l).
    rewrite sum_of_cons. cbn [sum_of foldr]. unfold overlap.
    assert (0 <= Z.of_nat n * size) by nia. replace ((Z.of_nat n + 1) * size) with (Z.of_nat n * size + size) by lia.
    lia.
Qed.
End Shares.

(** ** The walk *)

Section Walk.
Variables (start last size n : Z) (tid : option Z).
Abbreviation N := (Z.max n 1).

Definition lane_in (lanes : gmap Z TargetLaneTimeline) (t : Z) : TargetLaneTimeline :=
  default (lane_new n t None Generic) (lanes !! t).

(** The counters of the walk: a row in a bucket, a row in all of them, and the
    spans of a lane. *)
Inductive cell := At (r : row) (b : Z) | Sum (r : row) | Spans (t : Z).

Definition read_cell (c : cell) (w : Walk) : Z :=
  match c with
  | At Active b => on_cpu_per_bucket w !!! Z.to_nat b
  | At Target b => target_per_bucket w !!! Z.to_nat b
  | At Blocked b => off_cpu_per_bucket w !!! Z.to_nat b
  | At (BlockedFor r) b => read_reason r (default breakdown_default (off_cpu_reason_per_bucket w !! Z.to_nat b))
  | At (Lane t) b => tl_buckets (lane_in (target_lanes w) t) !!! Z.to_nat b
  | Sum Active => total_on_cpu w
  | Sum Target => total_target w
  | Sum Blocked => total_off_cpu w
  | Sum (BlockedFor _) => 0
  | Sum (Lane t) => tl_total_target_ns (lane_in (target_lanes w) t)
  | Spans t => tl_target_spans (lane_in (target_lanes w) t)
  end.

Definition counted (c : cell) : Prop :=
  match c with At _ b => 0 <= b < N | Sum (BlockedFor _) => False | _ => True end.

Definition row_of (c : cell) : row := match c with At r _ | Sum r => r | Spans t => Lane t end.

Definition hits (c : cell) (b : Z) : Prop := match c with At _ b' => b = b' | Sum _ => True | Spans _ => False end.

#[local] Instance hits_dec c b : Decision (hits c b).
Proof. destruct c; cbn; apply _. Defined.

Record walk_ok (w : Walk) : Prop := {
  on_length : length (on_cpu_per_bucket w) = Z.to_nat N;
  target_length : length (target_per_bucket w) = Z.to_nat N;
  off_length : length (off_cpu_per_bucket w) = Z.to_nat N;
  reason_length : length (off_cpu_reason_per_bucket w) = Z.to_nat N;
  lane_length : forall t, length (tl_buckets (lane_in (target_lanes w) t)) = Z.to_nat N
}.

Lemma bump_length b d v : length (bump b d v) = length v.
Proof. apply length_alter. Qed.

Lemma bump_read b b' d v :
  0 <= b -> 0 <= b' -> (Z.to_nat b < length v)%nat ->
  bump b d v !!! Z.to_nat b' = if decide (b = b') then sadd64 (v !!! Z.to_nat b') d else v !!! Z.to_nat b'.
Proof.
  intros Hb Hb' Hl. unfold bump. rewrite list_lookup_total_alter.
  destruct (decide (b = b')) as [->|E]; [by rewrite decide_True|by rewrite decide_False by lia].
Qed.

Lemma reasons_read b b' r r' d v :
  0 <= b -> 0 <= b' -> (Z.to_nat b < length v)%nat ->
  read_reason r (default breakdown_default (alter (add_reason r' d) (Z.to_nat b) v !! Z.to_nat b')) =
  if decide (b = b' /\ r' = r)
  then sadd64 (read_reason r (default breakdown_default (v !! Z.to_nat b'))) d
  else read_reason r (default breakdown_default (v !! Z.to_nat b')).
Proof.
  intros Hb Hb' Hl. destruct (decide (b = b')) as [->|E].
  - rewrite list_lookup_alter_eq. apply lookup_lt_is_Some_2 in Hl as [x ->]. cbn.
    destruct (decide (r' = r)) as [->|Hr].
    + rewrite decide_True by done. by destruct r.
    + rewrite decide_False by tauto. by destruct r', r.
  - rewrite list_lookup_alter_ne by lia. by rewrite decide_False by tauto.
Qed.

(** The lane that is entered, whatever name it would be entered with. *)
Lemma with_lane_in lanes t name k f :
  exists l, (forall t', lane_in (with_lane n t name k f lanes) t' = if decide (t = t') then f l else lane_in lanes t') /\
    tl_buckets l = tl_buckets (lane_in lanes t) /\ tl_total_target_ns l = tl_total_target_ns (lane_in lanes t) /\
    tl_target_spans l = tl_target_spans (lane_in lanes t).
Proof.
  exists (default (lane_new n t name k) (lanes !! t)). unfold lane_in, with_lane. split.
  - intros t'. rewrite lookup_insert. by case_decide.
  - by destruct (lanes !! t).
Qed.

(** The loop body for an interval, its arguments as [interval_step] has them. *)
Definition spread (e : Z * RawInterval) (name : option Z) (w : Walk) (b : Z) : Walk :=
  let info := target_info (kind e.2) in
  bucket_step size n e.1 (match kind e.2 with OnCpu => true | _ => bool_decide (is_Some info) end)
    (bool_decide (is_Some info)) (interval_reason (kind e.2)) name
    (match info with Some j => j.2 | None => Generic end)
    (ssub (start_ns e.2) start) (ssub (int_end last e.2) start) w b.

Definition share (e : Z * RawInterval) (b : Z) : Z :=
  bucket_share size (ssub (start_ns e.2) start) (ssub (int_end last e.2) start) b.

Definition gain (c : cell) (e : Z * RawInterval) (b : Z) : Z :=
  if decide (hits c b) then if in_row (row_of c) e then share e b else 0 else 0.

Lemma share_nonneg e b : 0 <= share e b.
Proof. unfold share, bucket_share. width. lia. Qed.

Lemma gain_nonneg c e b : 0 <= gain c e b.
Proof. unfold gain. pose proof (share_nonneg e b). repeat case_match; lia. Qed.

Lemma spread_ok e name w b : walk_ok w -> walk_ok (spread e name w b).
Proof.
  intros [H1 H2 H3 H4 H5]. unfold spread, bucket_step. fold (share e b). case_decide; [done|].
  destruct (kind e.2) as [|stack o k|stack o us]; cbn [target_info interval_reason is_Some].
  - split; cbn; rewrite ?bump_length; done.
  - rewrite bool_decide_true by eauto. split; cbn; rewrite ?bump_length; try done. intros t.
    edestruct with_lane_in as (l & Hl & Hb & _). rewrite Hl.
    case_decide; [|apply H5]. cbn. rewrite bump_length, Hb. apply H5.
  - split; cbn; rewrite ?length_alter, ?bump_length; done.
Qed.

Lemma spread_cell c e name w b :
  walk_ok w -> counted c -> is_u64 (read_cell c w) -> 0 <= b < N ->
  read_cell c (spread e name w b) = sadd64 (read_cell c w) (gain c e b).
Proof.
  intros Hw Hc Hr Hb. assert (sadd64 (read_cell c w) 0 = read_cell c w) as Hz by (revert Hr; width; lia).
  unfold spread, bucket_step, gain. fold (share e b). case_decide as Hs.
  { rewrite Hs. by repeat case_match. }
  destruct Hw as [H1 H2 H3 H4 H5].
  destruct (kind e.2) as [|stack o k|stack o us] eqn:Hk; cbn [target_info interval_reason is_Some];
    rewrite ?bool_decide_true by eauto.
  all: destruct c as [[| | |r|t] b'|[| | |r|t]|t]; cbn [read_cell hits row_of in_row counted] in *; rewrite ?Hk.
  all: try done; cbn.
  all: try match goal with
       | |- context [lane_in (with_lane n ?ev ?name ?k ?f ?lanes) ?t'] =>
           destruct (with_lane_in lanes ev name k f) as (l & Hl & Hlb & Hlt & Hls); rewrite Hl;
           destruct (decide (ev = t')) as [<-|]; cbn; rewrite ?Hlb, ?Hlt, ?Hls
       end.
  all: rewrite ?bump_read, ?reasons_read by (rewrite ?H5; lia).
  all: repeat first [case_decide|case_bool_decide]; try done; tauto.
Qed.

Lemma spread_loop c e name w bs :
  walk_ok w -> counted c -> is_u64 (read_cell c w) -> Forall (fun b => 0 <= b < N) bs ->
  walk_ok (foldl (spread e name) w bs) /\
  read_cell c (foldl (spread e name) w bs) = Z.min (read_cell c w + sum_of (gain c e) bs) u64_max.
Proof.
  intros Hw Hc Hr Hbs. revert w Hw Hr. induction Hbs as [|b bs Hb Hbs IH]; intros w Hw Hr.
  - split; [done|]. cbn. revert Hr. width. lia.
  - pose proof (gain_nonneg c e b) as Hg. pose proof (spread_cell c e name w b Hw Hc Hr Hb) as Hs.
    destruct (IH (spread e name w b)) as [H1 H2]; [by apply spread_ok| |].
    + rewrite Hs. apply sadd64_range; [|done]. revert Hr. width. lia.
    + split; [done|]. cbn [foldl]. rewrite H2, Hs, sum_of_cons.
      assert (0 <= sum_of (gain c e) bs) by (apply sum_of_nonneg, Forall_forall; intros; apply gain_nonneg).
      width. lia.
Qed.

Definition overlap_in (c : cell) (i : RawInterval) : Z :=
  match c with
  | At _ b => overlap last (start + b * size) (start + (b + 1) * size) i
  | Sum _ => overlap last start (start + N * size) i
  | Spans _ => 1
  end.

(** What an interval adds to a counter. *)
Definition contribution (c : cell) (e : Z * RawInterval) : Z :=
  if decide (in_timeline start last tid e && in_row (row_of c) e = true) then overlap_in c e.2 else 0.

Lemma contribution_nonneg c e : 0 <= contribution c e.
Proof. unfold contribution, overlap_in, overlap. case_decide; [|done]. destruct c; lia. Qed.

Hypothesis (Hsize : 0 < size) (Hlast : (N - 1) * size <= u64_max) (Hstart : is_u64 start).

Lemma gain_visited c e :
  is_u64 (int_end last e.2) -> start < int_end last e.2 -> counted c ->
  sum_of (gain c e) (visited start last size N e.2) =
  match c with Spans _ => 0 | _ => if in_row (row_of c) e then overlap_in c e.2 else 0 end.
Proof.
  intros Hi He Hc. assert (1 <= N) as HN by lia. unfold gain, share.
  assert (forall l : list Z, sum_of (fun _ => 0) l = 0) as Hz by (intros l; rewrite sum_of_const; lia).
  destruct c as [r b|r|t]; cbn [row_of]; [| |by apply Hz]; (destruct (in_row r e);
    [|erewrite sum_of_ext; [apply Hz|]; intros; by case_decide]).
  - rewrite (visited_sum start last size N Hsize HN Hlast (hits (At r b))) by done.
    rewrite (sum_of_single _ b); [by rewrite decide_True by done|apply NoDup_seqZ|apply elem_of_seqZ; cbn in Hc; lia|].
    intros b' _ Hb'. by rewrite decide_False.
  - rewrite (visited_sum start last size N Hsize HN Hlast (hits (Sum r))) by done.
    erewrite sum_of_ext; [by apply overlap_tiles|]. intros b _. by rewrite decide_True.
Qed.

Lemma read_cell_interner c w it : read_cell c (w <| interner := it |>) = read_cell c w.
Proof. by destruct c as [[]|[]|]. Qed.

(** The walk's step, with its loop. *)
Lemma interval_step_spread w e :
  interval_step start last size n tid w e =
  if in_timeline start last tid e then
    let '(name, it) := lane_name_of (target_info (kind e.2)) (interner w) in
    let w := foldl (spread e name) (w <| interner := it |>) (visited start last size N e.2) in
    if bool_decide (is_Some (target_info (kind e.2)))
    then w <| target_lanes ::= with_lane n e.1 name
                (match target_info (kind e.2) with Some j => j.2 | None => Generic end)
                (fun lane => lane <| tl_target_spans ::= fun x => sadd64 x 1 |>) |>
    else w
  else w.
Proof.
  destruct e as [t i]. unfold interval_step, in_timeline. cbn [fst snd].
  destruct (filtered_out tid t (kind i)); [done|]. cbn [negb andb].
  case_decide as H1; [rewrite (bool_decide_false (Z.max _ _ < _)) by lia; done|].
  case_decide as H2; [rewrite (bool_decide_false (Z.max _ _ < _)) by lia; done|].
  rewrite (bool_decide_true (Z.max _ _ < _)) by lia.
  replace (ssub n 1) with (N - 1) by (width; lia). done.
Qed.

Lemma done_cell c w t name k :
  walk_ok w ->
  let w' := w <| target_lanes ::= with_lane n t name k
                   (fun lane => lane <| tl_target_spans ::= fun x => sadd64 x 1 |>) |> in
  walk_ok w' /\
  read_cell c w' = match c with
                   | Spans t' => if decide (t = t') then sadd64 (read_cell c w) 1 else read_cell c w
                   | _ => read_cell c w
                   end.
Proof.
  intros [H1 H2 H3 H4 H5] w'. subst w'.
  destruct (with_lane_in (target_lanes w) t name k
              (fun lane => lane <| tl_target_spans ::= fun x => sadd64 x 1 |>)) as (l & Hl & Hlb & Hlt & Hls).
  split.
  - split; try done. intros t'. cbn. cbn in Hl. rewrite Hl. case_decide as E; [|apply H5]. cbn.
    rewrite Hlb. apply H5.
  - destruct c as [[| | |r|t'] b|[| | |r|t']|t']; try done; cbn; cbn in Hl; rewrite Hl;
      (case_decide as E; [subst t'; cbn; by rewrite ?Hlb, ?Hlt, ?Hls|done]).
Qed.

Lemma sadd64_min x y : sadd64 x y = Z.min (x + y) u64_max.
Proof. done. Qed.

Lemma interval_step_cell c w e :
  walk_ok w -> counted c -> is_u64 (read_cell c w) -> is_u64 (int_end last e.2) ->
  walk_ok (interval_step start last size n tid w e) /\
  read_cell c (interval_step start last size n tid w e) = sadd64 (read_cell c w) (contribution c e).
Proof.
  intros Hw Hc Hr Hi. rewrite interval_step_spread. unfold contribution.
  assert (sadd64 (read_cell c w) 0 = read_cell c w) as Hz by (revert Hr; width; lia).
  destruct (in_timeline start last tid e) eqn:Ht; cbn [andb]; [|done].
  assert (start < int_end last e.2) as He.
  { unfold in_timeline in Ht. apply andb_prop in Ht as [_ Ht%bool_decide_eq_true]. lia. }
  destruct (lane_name_of _ _) as [name it].
  destruct (spread_loop c e name (w <| interner := it |>) (visited start last size N e.2)) as [Hw' Hv].
  { by destruct Hw. } { done. } { by rewrite read_cell_interner. }
  { apply Forall_forall. intros b Hb%visited_in; lia. }
  rewrite read_cell_interner, gain_visited, <- sadd64_min in Hv by done.
  set (w' := foldl _ _ _) in *. destruct (kind e.2) as [|stack o k|stack o us] eqn:Hk; cbn [target_info].
  2: { rewrite bool_decide_true by eauto. destruct (done_cell c w' e.1 name k Hw') as [H1 H2].
       split; [done|]. etrans; [exact H2|].
       destruct c as [r b|r|t]; [rewrite Hv; by case_match..|]. cbn [row_of in_row overlap_in]. rewrite Hk.
       case_decide as E.
       - rewrite bool_decide_true by done. cbn [decide]. rewrite Hv, Hz. done.
       - rewrite bool_decide_false by done. by rewrite Hv, Hz. }
  all: rewrite bool_decide_false by (by intros [? ?]); split; [done|].
  all: rewrite Hv; destruct c as [r b|r|t]; [by destruct (in_row _ e)..|].
  all: cbn [row_of in_row]; rewrite Hk; done.
Qed.

Definition log_u64 (l : list (Z * RawInterval)) : Prop := Forall (fun e => is_u64 (int_end last e.2)) l.

Lemma walk_new_ok : walk_ok (walk_new n).
Proof. split; cbn; rewrite ?length_replicate; try done.
  intros t. unfold lane_in. rewrite lookup_empty. cbn. by rewrite length_replicate. Qed.

Lemma walk_new_cell c : counted c -> read_cell c (walk_new n) = 0.
Proof.
  intros Hc. destruct c as [[| | |r|t] b|[]|t]; try done; cbn in *; unfold lane_in;
    rewrite ?lookup_empty; try done; cbn.
  1-3,5: by rewrite lookup_total_replicate_2 by lia.
  rewrite lookup_replicate_2 by lia. by destruct r.
Qed.

Lemma contributions_u64 c l : is_u64 (sat_sum (contribution c) l).
Proof.
  assert (0 <= sum_of (contribution c) l) by (apply sum_of_nonneg, Forall_forall; intros; apply contribution_nonneg).
  unfold sat_sum. width. lia.
Qed.

(** Every counter of the walk is the saturated sum of what belongs to it. *)
Lemma walk_cells l :
  log_u64 l ->
  let w := foldl (interval_step start last size n tid) (walk_new n) l in
  walk_ok w /\ forall c, counted c -> read_cell c w = sat_sum (contribution c) l.
Proof.
  induction l as [|e l IH] using rev_ind; intros Hl; cbn zeta.
  - split; [apply walk_new_ok|]. intros c Hc. rewrite walk_new_cell by done. done.
  - apply Forall_app in Hl as [Hl [He _]%Forall_cons]. destruct (IH Hl) as [Hw Hcells].
    rewrite foldl_app. cbn [foldl].
    split; [|intros c Hc].
    + refine (proj1 (interval_step_cell (Spans 0) _ e Hw I _ He)).
      rewrite (Hcells (Spans 0) I). apply contributions_u64.
    + rewrite (proj2 (interval_step_cell c _ e Hw Hc ltac:(rewrite Hcells by done; apply contributions_u64) He)).
      rewrite Hcells by done. apply sat_sum_snoc, contribution_nonneg.
Qed.

(** ** The lanes *)

Definition tag (l : TargetLaneTimeline) : Z * option Z * TargetLaneKind := (tl_tid l, tl_lane_name l, tl_target_kind l).

Definition enter (x : Z * option Z * TargetLaneKind) (m : gmap Z (Z * option Z * TargetLaneKind)) :=
  match m !! x.1.1 with Some _ => m | None => <[x.1.1 := x]> m end.

Lemma enter_enter x m : enter x (enter x m) = enter x m.
Proof.
  unfold enter at 2 3. destruct (m !! x.1.1) eqn:E; unfold enter; [by rewrite E|by rewrite lookup_insert_eq].
Qed.

Lemma with_lane_tags t name k f lanes :
  (forall l, tag (f l) = tag l) -> tag <$> with_lane n t name k f lanes = enter (t, name, k) (tag <$> lanes).
Proof.
  intros Hf. unfold with_lane, enter. cbn [fst snd]. rewrite fmap_insert, Hf, lookup_fmap.
  destruct (lanes !! t) as [l|] eqn:E; cbn; [|done]. apply insert_id. by rewrite lookup_fmap, E.
Qed.

Lemma spread_lanes e name w b :
  interner (spread e name w b) = interner w /\
  (tag <$> target_lanes (spread e name w b) = tag <$> target_lanes w \/
   exists stack o k, kind e.2 = SyntheticSpan stack o k /\
     tag <$> target_lanes (spread e name w b) = enter (e.1, name, k) (tag <$> target_lanes w)).
Proof.
  unfold spread, bucket_step. case_decide; [by split; [|left]|].
  destruct (kind e.2) as [|stack o k|stack o us] eqn:Hk; cbn [target_info interval_reason]; [by split; [|left]| |by split; [|left]].
  rewrite bool_decide_true by eauto. split; [done|]. right. exists stack, o, k. split; [done|].
  cbn. by apply with_lane_tags.
Qed.

Lemma spread_loop_lanes e name w bs :
  interner (foldl (spread e name) w bs) = interner w /\
  (tag <$> target_lanes (foldl (spread e name) w bs) = tag <$> target_lanes w \/
   exists stack o k, kind e.2 = SyntheticSpan stack o k /\
     tag <$> target_lanes (foldl (spread e name) w bs) = enter (e.1, name, k) (tag <$> target_lanes w)).
Proof.
  revert w. induction bs as [|b bs IH]; intros w; [by split; [|left]|]. cbn [foldl].
  destruct (IH (spread e name w b)) as [-> IHl], (spread_lanes e name w b) as [-> Hl]. split; [done|].
  destruct IHl as [->|(stack & o & k & Hk & ->)], Hl as [->|(stack' & o' & k' & Hk' & ->)]; [by left| | |].
  - right. by exists stack', o', k'.
  - right. by exists stack, o, k.
  - rewrite Hk in Hk'. injection Hk' as <- <- <-. right. exists stack, o, k. by rewrite enter_enter.
Qed.

(** The interner and the lanes after an interval. *)
Lemma interval_step_lanes w e :
  interner (interval_step start last size n tid w e) =
    (if in_timeline start last tid e then (lane_name_of (target_info (kind e.2)) (interner w)).2 else interner w) /\
  tag <$> target_lanes (interval_step start last size n tid w e) =
    match kind e.2 with
    | SyntheticSpan stack o k =>
        if in_timeline start last tid e
        then enter (e.1, (lane_name_of (target_info (kind e.2)) (interner w)).1, k) (tag <$> target_lanes w)
        else tag <$> target_lanes w
    | _ => tag <$> target_lanes w
    end.
Proof.
  rewrite interval_step_spread. destruct (in_timeline start last tid e); [|by destruct (kind e.2)].
  destruct (lane_name_of _ _) as [name it]. cbn [fst snd].
  destruct (spread_loop_lanes e name (w <| interner := it |>) (visited start last size N e.2)) as [Hit Hl].
  set (w' := foldl _ _ _) in *.
  destruct (kind e.2) as [|stack o k|stack o us] eqn:Hk; cbn [target_info].
  2: { rewrite bool_decide_true by eauto. split; [exact Hit|]. cbn.
       rewrite with_lane_tags by done. destruct Hl as [->|(? & ? & ? & [= <- <- <-] & ->)]; [done|].
       by rewrite enter_enter. }
  all: rewrite bool_decide_false by (by intros [? ?]); split; [exact Hit|].
  all: by destruct Hl as [->|(? & ? & ? & [=] & _)].
Qed.

(** The name an interval gives its lane. *)
Definition lane_label (k : IntervalKind) : option (list Z) :=
  target_info k ≫= fun j => j.1.1 !! 1%nat ≫= fun addr => function_name <$> lookup_symbol addr.

Lemma lane_name_of_grows info it : table_grows it (lane_name_of info it).2.
Proof.
  unfold lane_name_of, resolve_target_symbol_name. repeat case_match; try done.
  simplify_eq/=. pose proof (intern_grows (function_name r) it) as Hg. by rewrite H1 in Hg.
Qed.

Lemma lane_name_of_resolves k it strs :
  interner_ok it -> strings (lane_name_of (target_info k) it).2 `prefix_of` strs -> Z.of_nat (length strs) <= 2 ^ 32 ->
  (lane_name_of (target_info k) it).1 ≫= string_at strs = lane_label k.
Proof.
  unfold lane_name_of, lane_label, resolve_target_symbol_name. intros Hi Hp Hlen.
  destruct (target_info k) as [[[stack o] kk]|]; cbn in *; [|done].
  destruct (stack !! 1%nat) as [addr|]; cbn in *; [|done].
  destruct (lookup_symbol addr) as [r|]; cbn in *; [|done].
  pose proof (intern_resolves (function_name r) it strs Hi) as H. destruct (intern _ it) as [j it']. cbn in *. auto.
Qed.

(** A span of the lane that is shown. *)
Definition lane_span (t : Z) (e : Z * RawInterval) : Prop :=
  in_timeline start last tid e = true /\ in_row (Lane t) e = true.

Definition named_by (strs : list (list Z)) (l : list (Z * RawInterval)) (x : Z * option Z * TargetLaneKind) : Prop :=
  exists e stack o, e ∈ l /\ lane_span x.1.1 e /\ kind e.2 = SyntheticSpan stack o x.2 /\
    x.1.2 ≫= string_at strs = lane_label (kind e.2).

Lemma walk_lanes l :
  let w := foldl (interval_step start last size n tid) (walk_new n) l in
  table_grows interner_new (interner w) /\
  (forall strs, strings (interner w) `prefix_of` strs -> Z.of_nat (length strs) <= 2 ^ 32 ->
     forall t x, (tag <$> target_lanes w) !! t = Some x -> x.1.1 = t /\ named_by strs l x) /\
  (forall t e, e ∈ l -> lane_span t e -> is_Some ((tag <$> target_lanes w) !! t)).
Proof.
  induction l as [|e l IH] using rev_ind; cbn zeta.
  - split; [done|]. split; [|by intros t e ?%elem_of_nil]. intros strs _ _ t x. cbn. by rewrite fmap_empty, lookup_empty.
  - rewrite foldl_app. cbn [foldl]. set (w := foldl _ _ _) in *. destruct IH as (Hg & Hnm & Hs).
    destruct (interval_step_lanes w e) as [Hit Htags].
    assert (table_grows (interner w) (interner (interval_step start last size n tid w e))) as Hg'.
    { rewrite Hit. destruct (in_timeline _ _ _ _); [apply lane_name_of_grows|done]. }
    split; [by trans (interner w)|]. split.
    + intros strs Hp Hlen t x Hx.
      assert (forall x, named_by strs l x -> named_by strs (l ++ [e]) x) as Hmono.
      { intros y (e' & stack & o & He' & H). exists e', stack, o. split; [|done]. apply elem_of_app. by left. }
      assert ((tag <$> target_lanes w) !! t = Some x -> x.1.1 = t /\ named_by strs (l ++ [e]) x) as Hold.
      { intros Hx'. destruct (Hnm strs) with t x as [? ?]; [|done|done|by split; [|apply Hmono]].
        destruct Hg' as [Hpre _]. by trans (strings (interner (interval_step start last size n tid w e))). }
      rewrite Htags in Hx. destruct (kind e.2) as [|stack o k|stack o us] eqn:Hk; [by apply Hold| |by apply Hold].
      destruct (in_timeline start last tid e) eqn:Ht; [|by apply Hold].
      unfold enter in Hx. cbn [fst snd] in Hx. destruct (_ !! e.1); [by apply Hold|].
      rewrite lookup_insert in Hx. case_decide as Het; [|by apply Hold]. injection Hx as <-. split; [done|].
      exists e, stack, o. split; [apply elem_of_app; right; by left|]. cbn [fst snd].
      split; [split; [done|]; cbn; rewrite Hk; by apply bool_decide_true|]. split; [done|].
      rewrite Hk. rewrite Hit in Hp, Hg'. apply (lane_name_of_resolves (SyntheticSpan stack o k)); [|done|done].
      destruct Hg as [_ Hg]. apply Hg; [|apply interner_new_ok].
      apply prefix_length in Hp. destruct Hg' as [Hpre%prefix_length _]. lia.
    + intros t e' He' Hspan. rewrite Htags.
      assert (is_Some ((tag <$> target_lanes w) !! t) -> forall y, is_Some (enter y (tag <$> target_lanes w) !! t)) as Hold.
      { intros [x Hx] y. unfold enter. destruct (_ !! y.1.1); [by exists x|].
        rewrite lookup_insert. case_decide; by eexists. }
      apply elem_of_app in He' as [Hold_in|Hlast_in%list_elem_of_singleton].
      * specialize (Hs t e' Hold_in Hspan). destruct (kind e.2); [done| |done].
        destruct (in_timeline _ _ _ _); [by apply Hold|done].
      * subst e'. destruct Hspan as [-> Hrow]. cbn in Hrow. destruct (kind e.2) as [|stack o k|stack o us]; [done| |done].
        apply bool_decide_eq_true in Hrow as <-. unfold enter. cbn [fst snd].
        destruct (_ !! e.1) as [y|] eqn:E; [by exists y|]. rewrite lookup_insert_eq. by eexists.
Qed.

(** ** The update *)

(** What a row shows of the log. *)
Definition shown (l : list (Z * RawInterval)) (r : row) : list (Z * RawInterval) :=
  filter (fun e => in_timeline start last tid e && in_row r e = true) l.

Definition bucket_of (l : list (Z * RawInterval)) (r : row) (b : Z) : Z :=
  sat_sum (fun e => overlap last (start + b * size) (start + (b + 1) * size) e.2) (shown l r).

Definition total_of (l : list (Z * RawInterval)) (r : row) : Z :=
  sat_sum (fun e => overlap last start (start + N * size) e.2) (shown l r).

Lemma contribution_sum c l :
  sat_sum (contribution c) l = sat_sum (fun e => overlap_in c e.2) (shown l (row_of c)).
Proof. unfold sat_sum, contribution. by rewrite sum_of_filter. Qed.

(** A lane: its time in all, in each bucket, its spans, and the name and kind of
    one of them. *)
Record lane_shows (strs : list (list Z)) (l : list (Z * RawInterval)) (ln : TargetLaneTimeline) : Prop := {
  lane_total : tl_total_target_ns ln = total_of l (Lane (tl_tid ln));
  lane_spans : tl_target_spans ln = Z.min (Z.of_nat (length (shown l (Lane (tl_tid ln))))) u64_max;
  lane_buckets : tl_buckets ln = map (bucket_of l (Lane (tl_tid ln))) (seqZ 0 N);
  lane_named : exists e stack o, e ∈ shown l (Lane (tl_tid ln)) /\
    kind e.2 = SyntheticSpan stack o (tl_target_kind ln) /\
    tl_lane_name ln ≫= string_at strs = lane_label (kind e.2)
}.

Lemma elem_of_shown e l t : e ∈ shown l (Lane t) <-> e ∈ l /\ lane_span t e.
Proof. unfold shown, lane_span. rewrite list_elem_of_filter, andb_true_iff. tauto. Qed.

Lemma walk_lane_shows l strs t ln :
  log_u64 l ->
  let w := foldl (interval_step start last size n tid) (walk_new n) l in
  strings (interner w) `prefix_of` strs -> Z.of_nat (length strs) <= 2 ^ 32 ->
  target_lanes w !! t = Some ln -> tl_tid ln = t /\ lane_shows strs l ln.
Proof.
  intros Hl w Hp Hlen Hln. destruct (walk_cells l Hl) as [Hw Hc]. destruct (walk_lanes l) as (_ & Hnm & _).
  fold w in Hw, Hc, Hnm. destruct (Hnm strs Hp Hlen t (tag ln)) as [Ht (e & stack & o & He & Hs & Hk & Hname)].
  { by rewrite lookup_fmap, Hln. }
  cbn [tag fst snd] in *. assert (lane_in (target_lanes w) t = ln) as Hin by (unfold lane_in; by rewrite Hln).
  split; [done|]. split; rewrite Ht.
  - rewrite <- Hin. etrans; [apply (Hc (Sum (Lane t)) I)|]. by rewrite contribution_sum.
  - rewrite <- Hin. etrans; [apply (Hc (Spans t) I)|]. rewrite contribution_sum. unfold sat_sum. cbn.
    rewrite sum_of_const. f_equal. lia.
  - apply list_eq_same_length with (Z.to_nat N); [by rewrite length_map, length_seqZ|rewrite <- Hin; apply Hw|].
    intros i x y Hi Hx Hy. rewrite list_lookup_fmap, fmap_Some in Hy. destruct Hy as (b & Hb & ->).
    apply lookup_seqZ in Hb as [-> _]. rewrite Z.add_0_l.
    etrans; [|etrans; [apply (Hc (At (Lane t) (Z.of_nat i)))|by rewrite contribution_sum]]; [|cbn; lia].
    cbn. rewrite Hin, Nat2Z.id. symmetry. by apply list_lookup_total_correct.
  - exists e, stack, o. rewrite <- Ht. rewrite elem_of_shown. by rewrite Ht in Hs |- *.
Qed.

Lemma walk_lane_tids l t :
  let w := foldl (interval_step start last size n tid) (walk_new n) l in
  Z.of_nat (length (strings (interner w))) <= 2 ^ 32 ->
  is_Some (target_lanes w !! t) <-> shown l (Lane t) <> [].
Proof.
  intros w Hlen. destruct (walk_lanes l) as (_ & Hnm & Hs). fold w in Hnm, Hs. split.
  - intros [ln Hln]. destruct (Hnm (strings (interner w)) ltac:(done) Hlen t (tag ln)) as [Ht (e & _ & _ & He & Hsp & _)].
    { by rewrite lookup_fmap, Hln. }
    cbn in *. intros Hnil. apply (elem_of_nil e). rewrite <- Hnil. apply elem_of_shown. by rewrite <- Ht.
  - intros Hne. destruct (shown l (Lane t)) as [|e m] eqn:E; [done|].
    assert (e ∈ shown l (Lane t)) as [He Hsp]%elem_of_shown by (rewrite E; left).
    specialize (Hs t e He Hsp). rewrite lookup_fmap in Hs. by rewrite fmap_is_Some in Hs.
Qed.
End Walk.

#[local] Instance lane_ordered : Ordered lane_cmp.
Proof.
  unfold lane_cmp. apply then_ordered; [apply (reverse_key_ordered tl_total_target_ns), _|].
  apply then_ordered; [apply (reverse_key_ordered tl_target_spans), _|apply (key_ordered tl_tid), _].
Qed.

Lemma bucket_value_cell size n w w0 r b :
  match r with Lane _ => False | _ => True end ->
  bucket_value r (timeline_bucket size w w0 b) = read_cell n (At r (Z.of_nat b)) w.
Proof. destruct r; cbn; rewrite ?Nat2Z.id; done. Qed.

(** What [build_timeline_update] shows of a log, in the range of time it was
    asked for. *)
Record timeline_shows (start last size n : Z) (tid : option Z) (window_start : Z) (l : list (Z * RawInterval))
    (u : TimelineUpdate) : Prop := {
  shows_size : tu_bucket_size_ns u = size;
  shows_length : length (tu_buckets u) = Z.to_nat n;
  shows_buckets b bk : tu_buckets u !! b = Some bk ->
    tb_start_ns bk = wadd64 (Z.of_nat b * size) window_start /\
    forall r, match r with Lane _ => False | _ => True end ->
      bucket_value r bk = bucket_of start last size tid l r (Z.of_nat b);
  shows_on_cpu : tu_total_on_cpu_ns u = total_of start last size n tid l Active;
  shows_target : tu_total_target_ns u = total_of start last size n tid l Target;
  shows_off_cpu : tu_total_off_cpu_ns u = total_of start last size n tid l Blocked;
  shows_lanes : Z.of_nat (length (tu_strings u)) <= 2 ^ 32 -> exists lanes,
    tu_target_lanes u = take TARGET_LANE_CAP lanes /\
    StronglySorted (fun a b => lane_cmp a b <> Gt) lanes /\ NoDup (map tl_tid lanes) /\
    (forall t, t ∈ map tl_tid lanes <-> shown start last tid l (Lane t) <> []) /\
    forall ln, ln ∈ lanes -> lane_shows start last size n tid (tu_strings u) l ln
}.

(** The lanes listed are those of the walk. *)
Lemma lanes_of_map (m : gmap Z TargetLaneTimeline) :
  (forall t ln, m !! t = Some ln -> tl_tid ln = t) ->
  let lanes := sort_by (le_of lane_cmp) (map snd (entries m)) in
  StronglySorted (fun a b => lane_cmp a b <> Gt) lanes /\ NoDup (map tl_tid lanes) /\
  (forall t, t ∈ map tl_tid lanes <-> is_Some (m !! t)) /\
  forall ln, ln ∈ lanes -> m !! tl_tid ln = Some ln.
Proof.
  intros Hm lanes. assert (lanes ≡ₚ map snd (map_to_list m)) as Hp.
  { unfold lanes. rewrite sort_by_perm. by rewrite entries_perm. }
  assert (forall ln, ln ∈ lanes <-> m !! tl_tid ln = Some ln) as Hin.
  { intros ln. rewrite Hp, list_elem_of_fmap. split.
    - intros ([t ln'] & -> & H%elem_of_map_to_list). cbn. by rewrite (Hm t).
    - intros H. exists (tl_tid ln, ln). by rewrite elem_of_map_to_list. }
  split; [exact (sort_by_le_of lane_cmp (map snd (entries m)))|]. split; [|split; [|by intros ln ?%Hin]].
  - rewrite Hp, map_map. rewrite (map_ext_in _ fst); [apply NoDup_fst_map_to_list|].
    intros [t ln] H%list_elem_of_In%elem_of_map_to_list. by apply Hm.
  - intros t. rewrite list_elem_of_fmap. split.
    + intros (ln & -> & H%Hin). by exists ln.
    + intros [ln Hln]. exists ln. rewrite Hin, (Hm t ln) by done. done.
Qed.

(** C33. The timeline of a log is what its buckets hold. For a bucket width other than 0
    the buckets, each of the width asked for (or chosen), lie one behind the other
    from the start of the window (or the session) and reach past its end: there are
    as many as whole widths fit and one more, and intervals are not cut at the end,
    nor are spans that begin behind it left out of the count of a lane, where the
    protocol calls the end of a window exclusive. What a bucket shows on and off the
    CPU, for targets and by reason is the saturated sum of the parts of the
    intervals that lie in it, the totals are those of all buckets together, and the
    lanes are the eight with the most target time, with their own buckets, the
    number of their spans and the name and kind of one of them. *)
Theorem timeline_exact hash agg observability tid bucket_ns window start last size :
  let session_start := default 0 (session_start_ns agg) in
  let log := iter_intervals (entries (threads agg)) None agg in
  shown_range window session_start (default session_start (last_event_ns agg)) = (start, last) ->
  bucket_width bucket_ns (ssub last start) = size ->
  0 < size -> is_u64 start -> is_u64 last -> ssub last start < u64_max -> log_u64 last log ->
  exists u, build_timeline_update hash agg observability tid bucket_ns window = Ret u /\
    timeline_shows start last size (ssub last start / size + 1) tid
      (match window with Some w => Signals.r_start_ns w | None => 0 end) log u.
Proof.
  intros session_start log Hr Hw Hsize Hs Hl Hd Hlog. unfold build_timeline_update.
  fold session_start. rewrite Hr, Hw, decide_False by lia. fold log.
  assert (0 <= ssub last start) as Hd0 by (width; lia).
  assert (0 <= ssub last start / size) as Hq by (by apply Z.div_pos).
  assert (ssub last start / size <= ssub last start) as Hq' by (by apply Z.div_le_upper_bound; nia).
  rewrite wadd64_small by (revert Hd; width; lia).
  set (n := ssub last start / size + 1). assert (Z.max n 1 = n) as Hn by lia.
  assert ((Z.max n 1 - 1) * size <= u64_max) as Hlast.
  { rewrite Hn. unfold n. pose proof (Z.mul_div_le (ssub last start) size Hsize). lia. }
  pose proof (walk_cells start last size n tid Hsize Hlast Hs log Hlog) as [Hok Hcells].
  set (w := foldl _ _ _) in *.
  assert (forall c, counted n c -> read_cell n c w =
            sat_sum (fun e => overlap_in start last size n c e.2) (shown start last tid log (row_of c))) as Hread.
  { intros c Hc. rewrite <- contribution_sum. by apply Hcells. }
  eexists. split; [done|]. split; cbn [tu_bucket_size_ns tu_buckets tu_total_on_cpu_ns tu_total_target_ns
    tu_total_off_cpu_ns tu_strings tu_target_lanes]; [done| | |
    exact (Hread (Sum Active) I)|exact (Hread (Sum Target) I)|exact (Hread (Sum Blocked) I)|].
  - by rewrite length_map, length_seq, Hn.
  - intros b bk Hb. rewrite list_lookup_fmap, fmap_Some in Hb. destruct Hb as (b' & Hb' & ->).
    apply lookup_seq in Hb' as [-> Hb']. rewrite Nat.add_0_l. split.
    + cbn. rewrite as_u64_small; [done|]. width. nia.
    + intros r Hrow. rewrite (bucket_value_cell size n) by done. apply (Hread (At r _)). cbn. lia.
  - intros Hlen. pose proof (walk_lane_shows start last size n tid Hsize Hlast Hs log (strings (interner w))) as Hsh.
    pose proof (fun t => walk_lane_tids start last size n tid log t Hlen) as Htids. fold w in Hsh, Htids.
    destruct (lanes_of_map (target_lanes w)) as (Hsort & Hnd & Hdom & Hin).
    { intros t ln. apply Hsh; done. }
    eexists. split; [done|]. split; [exact Hsort|]. split; [exact Hnd|]. split.
    + intros t. rewrite Hdom. apply Htids.
    + intros ln H%Hin. by apply Hsh in H as [_ H].
Qed.
End Build.

(** ** Examples *)

#[local] Existing Instance canonical_order.
#[local] Existing Instance demo_table.

Definition no_hash : Z -> Z -> Z -> Z -> option Z -> Z := fun _ _ _ _ _ => 0.

(** A thread that runs and blocks, and a lane with a span. *)
Definition demo_log : Aggregator :=
  aggregator_default
    <| threads := {[ 7 := mkThreadStats [] [mkRawInterval 1000 1016 OnCpu; mkRawInterval 1016 1030 (OffCpu [20] None None)] [];
                     9 := mkThreadStats [] [mkRawInterval 1102 1108 (SyntheticSpan [21; 20] None Metal)] [] ]} |>
    <| session_start_ns := Some 1000 |> <| last_event_ns := Some 1200 |>.

Lemma timeline_exact_witness :
  exists u, build_timeline_update no_hash demo_log Live.store_default None (Some 10) None = Ret u /\
    length (tu_buckets u) = 21%nat /\ tu_total_on_cpu_ns u = 22 /\
    exists bk, tu_buckets u !! 1%nat = Some bk /\ tb_on_cpu_ns bk = 6 /\ tb_off_cpu_ns bk = 4.
Proof.
  destruct (timeline_exact no_hash demo_log Live.store_default None (Some 10) None 1000 1200 10) as (u & Hu & H).
  { reflexivity. } { reflexivity. } { lia. } { width. lia. } { width. lia. } { width. lia. }
  { repeat constructor; vm_compute; congruence. }
  exists u. split; [exact Hu|]. split; [exact (shows_length _ _ _ _ _ _ _ _ H)|].
  split; [exact (eq_trans (shows_on_cpu _ _ _ _ _ _ _ _ H) ltac:(vm_compute; reflexivity))|].
  destruct (tu_buckets u !! 1%nat) as [bk|] eqn:E.
  - exists bk. split; [done|]. destruct (shows_buckets _ _ _ _ _ _ _ _ H 1 bk E) as [_ Hr].
    split; [exact (eq_trans (Hr Active I) ltac:(vm_compute; reflexivity))|
            exact (eq_trans (Hr Blocked I) ltac:(vm_compute; reflexivity))].
  - apply lookup_ge_None in E. rewrite (shows_length _ _ _ _ _ _ _ _ H) in E. vm_compute in E. lia.
Defined.

(** A window does not bound what its timeline counts: the last bucket lies
    behind the end of the window, and a span behind it counts for its lane. *)
Theorem window_end_exceeded :
  exists agg window u i ln,
    build_timeline_update no_hash agg Live.store_default None (Some 10) (Some window) = Ret u /\
    iter_intervals (entries (threads agg)) None agg = [(9, i)] /\
    default 0 (session_start_ns agg) + Signals.r_end_ns window < start_ns i /\
    tu_total_on_cpu_ns u = 6 /\ tu_target_lanes u = [ln] /\ tl_target_spans ln = 1.
Proof.
  exists (demo_log <| threads ::= delete 7 |>), (Signals.mkTimeRange 0 100). do 3 eexists.
  split; [vm_compute; reflexivity|]. split; [vm_compute; reflexivity|]. split; [vm_compute; reflexivity|].
  by split_ands.
Qed.

(** A width of zero is divided by. *)
Lemma zero_width_panics hash agg observability tid window :
  build_timeline_update hash agg observability tid (Some 0) window = Panic.
Proof. unfold build_timeline_update. by destruct (shown_range _ _ _). Qed.

End Timeline.
