(* ===== verification/Views.v ===== *)
(** * The lists of the live service

    The filter of [stax-live/src/lib.rs] and the views that list what the log
    holds: the threads, the wakers of a thread, and the blocked intervals, the
    samples and the target's spans behind a selection. *)

From Stdlib Require Import FunctionalExtensionality.
From S2P Require Import Prelude Order Text Demangle Binaries Aggregate Contracts Symbols Top Timeline.

Module Views.

Import Order Symbols Aggregate.
Module Signals := Contracts.

(** ** Data *)

Record LiveFilter := mkLiveFilter {
  time_range : option Signals.TimeRange;
  exclude_symbols : list SymbolKey     (* the fields of a [SymbolRef] *)
}.

Record ThreadInfo := mkThreadInfo {
  ti_tid : Z;
  ti_name : option string;
  ti_on_cpu_ns : Z;
  ti_target_ns : Z;
  ti_off_cpu : OffCpuBreakdown;
  ti_pet_samples : Z;
  ti_target_spans : Z;
  ti_target_kind : option TargetLaneKind
}.

Record WakerEntry := mkWakerEntry {
  we_tid : Z;
  we_address : Z;
  we_function_name : option (list Z);
  we_binary : option (list Z);
  we_language : list Z;
  we_count : Z
}.

Record WakersUpdate := mkWakersUpdate { wakee_tid : Z; total_wakeups : Z; wu_entries : list WakerEntry }.

Record IntervalEntry := mkIntervalEntry {
  ie_tid : Z;
  ie_start_ns : Z;
  ie_duration_ns : Z;
  ie_reason : OffCpuReason;
  ie_waker_tid : option Z;
  ie_waker_address : option Z;
  ie_waker_function_name : option Z;
  ie_waker_binary : option Z
}.

Record IntervalListUpdate := mkIntervalListUpdate {
  iu_strings : list (list Z);
  total_intervals : Z;
  iu_total_duration_ns : Z;
  by_reason : OffCpuBreakdown;
  iu_entries : list IntervalEntry
}.

Record PetSampleEntry := mkPetSampleEntry {
  pe_tid : Z; pe_timestamp_ns : Z; pe_cycles : Z; pe_instructions : Z; pe_l1d_misses : Z; pe_branch_mispreds : Z
}.

Record PetSampleListUpdate := mkPetSampleListUpdate { total_samples : Z; pu_entries : list PetSampleEntry }.

Record TargetSpanGroup := mkTargetSpanGroup {
  tg_tid : Z;
  tg_lane_name : option Z;
  tg_target_kind : TargetLaneKind;
  tg_span_name : option Z;
  tg_origin_tid : option Z;
  tg_origin_linked : bool;
  tg_origin_address : option Z;
  tg_origin_function_name : option Z;
  tg_origin_binary : option Z;
  tg_count : Z;
  tg_total_duration_ns : Z;
  tg_max_duration_ns : Z;
  tg_last_start_ns : Z
}.

#[export] Instance eta_TargetSpanGroup : Eta TargetSpanGroup := fun g =>
  mkTargetSpanGroup (tg_tid g) (tg_lane_name g) (tg_target_kind g) (tg_span_name g) (tg_origin_tid g)
    (tg_origin_linked g) (tg_origin_address g) (tg_origin_function_name g) (tg_origin_binary g) (tg_count g)
    (tg_total_duration_ns g) (tg_max_duration_ns g) (tg_last_start_ns g).

Record TargetSpanEntry := mkTargetSpanEntry {
  te_tid : Z;
  te_start_ns : Z;
  te_duration_ns : Z;
  te_lane_name : option Z;
  te_target_kind : TargetLaneKind;
  te_span_name : option Z;
  te_origin_tid : option Z;
  te_origin_linked : bool;
  te_origin_address : option Z;
  te_origin_function_name : option Z;
  te_origin_binary : option Z
}.

Record TargetSpanListUpdate := mkTargetSpanListUpdate {
  su_strings : list (list Z);
  total_spans : Z;
  su_total_duration_ns : Z;
  su_groups : list TargetSpanGroup;
  su_entries : list TargetSpanEntry
}.

(** tid, kind, lane, span, origin's thread and address *)
Definition TargetSpanGroupKey : Type := Z * TargetLaneKind * option Z * option Z * option Z * option Z.

#[export] Instance TargetLaneKind_eq_dec : EqDecision TargetLaneKind.
Proof. solve_decision. Defined.

#[export] Instance TargetLaneKind_countable : Countable TargetLaneKind.
Proof.
  refine (inj_countable' (fun k => match k with Generic => true | Metal => false end)
            (fun b : bool => if b then Generic else Metal) _). by intros [].
Defined.

Definition DRILLDOWN_ENTRY_CAP : nat := Z.to_nat 10000.
Definition DRILLDOWN_GROUP_CAP : nat := 512.

(** ** The filter *)

Definition is_filter_empty (f : LiveFilter) : bool :=
  bool_decide (time_range f = None) && bool_decide (exclude_symbols f = []).

(** The test on the start of an event, relative to the session. *)
Definition out_of_range (f : LiveFilter) (session_start timestamp : Z) : bool :=
  match time_range f with
  | Some tr => let rel := ssub timestamp session_start in
               bool_decide (rel < Signals.r_start_ns tr \/ Signals.r_end_ns tr <= rel)
  | None => false
  end.

Definition ctx_timestamp (ctx : EventCtx) : Z :=
  match ctx with
  | PetSampleCtx _ sample => ps_timestamp_ns sample
  | IntervalCtx _ interval => start_ns interval
  end.

Definition ctx_stack (ctx : EventCtx) : list Z :=
  match ctx with
  | PetSampleCtx _ sample => stack sample
  | IntervalCtx _ interval =>
      match kind interval with
      | OnCpu => []
      | SyntheticSpan stack _ _ => stack
      | OffCpu stack _ _ => stack
      end
  end.

Section Lists.
Context `{Order : MapOrder} `{Table : SymbolTable}.

Definition make_predicate (f : LiveFilter) (session_start_ns : Z) (ctx : EventCtx) : bool :=
  if out_of_range f session_start_ns (ctx_timestamp ctx) then false
  else if bool_decide (exclude_symbols f = []) then true
  else negb (existsb (fun address => bool_decide (key_at address ∈ exclude_symbols f)) (ctx_stack ctx)).

Definition session_start (a : Aggregator) : Z := default 0 (session_start_ns a).

Definition tids (a : Aggregator) : list Z := map fst (entries (threads a)).

Definition aggregate_with_filter (a : Aggregator) (tid : option Z) (f : LiveFilter) : Aggregation :=
  if is_filter_empty f then aggregate (fun _ => true) (tids a) tid a
  else aggregate (make_predicate f (session_start a)) (tids a) tid a.

(** ** Threads *)

Definition lane_kind_of (k : IntervalKind) : option TargetLaneKind :=
  match k with SyntheticSpan _ _ lane_kind => Some lane_kind | OnCpu | OffCpu _ _ _ => None end.

Definition thread_target_kind (a : Aggregator) (tid : Z) : option TargetLaneKind :=
  stats ← threads a !! tid; head (omap (fun i => lane_kind_of (kind i)) (intervals stats)).

Definition thread_info (a : Aggregator) (tid : Z) : ThreadInfo :=
  let aggregation := aggregate (fun _ => true) (tids a) (Some tid) a in
  mkThreadInfo tid (thread_name tid a) (agg_on_cpu_ns aggregation) (agg_target_ns aggregation) (agg_off_cpu aggregation)
    (default 0 ((fun t => Z.of_nat (length (samples t))) <$> threads a !! tid)) (agg_target_spans aggregation)
    (thread_target_kind a tid).

Definition thread_total (t : ThreadInfo) : Z := sadd64 (ti_on_cpu_ns t) (Top.off_cpu_total_proto (ti_off_cpu t)).

Definition thread_cmp (a b : ThreadInfo) : comparison :=
  then_with (then_with (thread_total b ?= thread_total a) (ti_pet_samples b ?= ti_pet_samples a)) (ti_tid a ?= ti_tid b).

Definition build_threads_update (a : Aggregator) : list ThreadInfo :=
  sort_by (le_of thread_cmp) (map (thread_info a) (tids a)).

(** ** Wakers *)

Definition waker_entry (w : RawWakerEntry) : WakerEntry :=
  let resolved := lookup_symbol (waker_leaf_address w) in
  mkWakerEntry (we_waker_tid w) (waker_leaf_address w) (function_name <$> resolved) (binary <$> resolved)
    (match resolved with Some r => Demangle.as_str (Bin.rs_language r) | None => str "unknown" end) (count w).

Definition build_wakers_update (a : Aggregator) (wakee : Z) : WakersUpdate :=
  let raw := top_wakers (fun m => map snd (entries m)) wakee 50 a in
  mkWakersUpdate wakee (foldl (fun n w => wadd64 n (count w)) 0 raw) (map waker_entry raw).

(** ** Blocked intervals *)

(** The local variables of the walk: the string table, the totals and the list. *)
Record IntervalWalk := mkIntervalWalk {
  iw_interner : StringInterner;
  iw_total : Z;
  iw_duration : Z;
  iw_by_reason : OffCpuBreakdown;
  iw_entries : list IntervalEntry
}.

#[local] Instance eta_IntervalWalk : Eta IntervalWalk := fun w =>
  mkIntervalWalk (iw_interner w) (iw_total w) (iw_duration w) (iw_by_reason w) (iw_entries w).

(** The names of an address, in the shared string table. *)
Definition resolve_address (addr : Z) (it : StringInterner) : option Z * option Z * StringInterner :=
  match lookup_symbol addr with
  | Some r => let '(name, it) := intern (function_name r) it in
              let '(bin, it) := intern (binary r) it in (Some name, Some bin, it)
  | None => (None, None, it)
  end.

Definition waker_address (waker_tid : option Z) (waker_user_stack : option (list Z)) : option Z :=
  match waker_tid, waker_user_stack with
  | Some _, Some stack => head stack
  | _, _ => None
  end.

Definition interval_step (f : LiveFilter) (start : Z) (w : IntervalWalk) (e : Z * RawInterval) : IntervalWalk :=
  match kind e.2 with
  | OnCpu | SyntheticSpan _ _ _ => w
  | OffCpu stack waker_tid waker_user_stack =>
      if out_of_range f start (start_ns e.2) then w else
      let interval_ns := ssub (end_ns e.2) (start_ns e.2) in
      if decide (interval_ns = 0) then w else
      let reason := block_reason stack in
      let w := w <| iw_total ::= fun n => sadd64 n 1 |> <| iw_duration ::= fun n => sadd64 n interval_ns |>
                 <| iw_by_reason ::= add_reason reason interval_ns |> in
      if decide (length (iw_entries w) < DRILLDOWN_ENTRY_CAP)%nat then
        let address := waker_address waker_tid waker_user_stack in
        let '(name, bin, it) := match address with
                                | Some addr => resolve_address addr (iw_interner w)
                                | None => (None, None, iw_interner w)
                                end in
        w <| iw_interner := it |>
          <| iw_entries ::= fun l => l ++ [mkIntervalEntry e.1 (ssub (start_ns e.2) start) interval_ns reason waker_tid
                                             address name bin] |>
      else w
  end.

Definition interval_walk (f : LiveFilter) (start : Z) (l : list (Z * RawInterval)) : IntervalWalk :=
  foldl (interval_step f start) (mkIntervalWalk interner_new 0 0 breakdown_default []) l.

(** [b.start_ns.cmp(&a.start_ns)] *)
Definition newest_first {A} (start : A -> Z) (a b : A) : comparison := start b ?= start a.

Definition build_intervals_update (a : Aggregator) (tid : option Z) (f : LiveFilter) : IntervalListUpdate :=
  let w := interval_walk f (session_start a) (iter_intervals (entries (threads a)) tid a) in
  mkIntervalListUpdate (strings (iw_interner w)) (iw_total w) (iw_duration w) (iw_by_reason w)
    (sort_by (le_of (newest_first ie_start_ns)) (iw_entries w)).

(** ** Samples *)

Definition sample_step (f : LiveFilter) (start : Z) (w : Z * list PetSampleEntry) (e : Z * PetSample)
    : Z * list PetSampleEntry :=
  let '(total, l) := w in
  if out_of_range f start (ps_timestamp_ns e.2) then w else
  let p := ps_pmc e.2 in
  (sadd64 total 1,
   if decide (length l < DRILLDOWN_ENTRY_CAP)%nat
   then l ++ [mkPetSampleEntry e.1 (ssub (ps_timestamp_ns e.2) start) (cycles p) (instructions p) (l1d_misses p)
                (branch_mispreds p)]
   else l).

Definition build_pet_samples_update (a : Aggregator) (tid : option Z) (f : LiveFilter) : PetSampleListUpdate :=
  let '(total, l) := foldl (sample_step f (session_start a)) (0, []) (iter_pet_samples (entries (threads a)) tid a) in
  mkPetSampleListUpdate total (sort_by (le_of (newest_first pe_timestamp_ns)) l).

(** ** Spans of the target *)

Record SpanWalk := mkSpanWalk {
  sw_interner : StringInterner;
  sw_total : Z;
  sw_duration : Z;
  sw_groups : gmap TargetSpanGroupKey TargetSpanGroup;
  sw_entries : list TargetSpanEntry
}.

#[local] Instance eta_SpanWalk : Eta SpanWalk := fun w =>
  mkSpanWalk (sw_interner w) (sw_total w) (sw_duration w) (sw_groups w) (sw_entries w).

(** [TargetSpanGroupAccum::record]; the accumulator has the fields of the group. *)
Definition record (start_ns duration_ns : Z) (g : TargetSpanGroup) : TargetSpanGroup :=
  g <| tg_count ::= fun n => sadd64 n 1 |> <| tg_total_duration_ns ::= fun n => sadd64 n duration_ns |>
    <| tg_max_duration_ns ::= fun n => Z.max n duration_ns |> <| tg_last_start_ns ::= fun n => Z.max n start_ns |>.

(** [addr.and_then(|addr| resolve_target_symbol_name(..))] *)
Definition resolve_opt (addr : option Z) (it : StringInterner) : option Z * StringInterner :=
  match addr with
  | Some addr => Timeline.resolve_target_symbol_name addr it
  | None => (None, it)
  end.

Definition resolve_target_origin (addr : option Z) (it : StringInterner) : option Z * option Z * StringInterner :=
  match addr with
  | Some addr => resolve_address addr it
  | None => (None, None, it)
  end.

Definition span_key (event_tid : Z) (stack : list Z) (origin_tid : option Z) (lane_kind : TargetLaneKind)
    : TargetSpanGroupKey := (event_tid, lane_kind, stack !! 1%nat, stack !! 0%nat, origin_tid, stack !! 2%nat).

(** Neither the lane asked about nor started from the thread asked about. *)
Definition span_elsewhere (tid : option Z) (event_tid : Z) (origin_tid : option Z) : bool :=
  match tid with
  | Some filter_tid => bool_decide (event_tid <> filter_tid) && bool_decide (origin_tid <> Some filter_tid)
  | None => false
  end.

Definition span_step (predicate : EventCtx -> bool) (start : Z) (tid : option Z) (w : SpanWalk) (e : Z * RawInterval)
    : SpanWalk :=
  match kind e.2 with
  | OnCpu | OffCpu _ _ _ => w
  | SyntheticSpan stack origin_tid lane_kind =>
      if span_elsewhere tid e.1 origin_tid then w else
      if negb (predicate (IntervalCtx e.1 e.2)) then w else
      let duration_ns := ssub (end_ns e.2) (start_ns e.2) in
      if decide (duration_ns = 0) then w else
      let start_ns := ssub (start_ns e.2) start in
      let '(lane_name, it) := resolve_opt (stack !! 1%nat) (sw_interner w) in
      let '(span_name, it) := resolve_opt (stack !! 0%nat) it in
      let '(origin_name, origin_binary, it) := resolve_target_origin (stack !! 2%nat) it in
      let linked := bool_decide (is_Some (stack !! 2%nat)) in
      let fresh := mkTargetSpanGroup e.1 lane_name lane_kind span_name origin_tid linked (stack !! 2%nat) origin_name
                     origin_binary 0 0 0 start_ns in
      let key := span_key e.1 stack origin_tid lane_kind in
      let w := w <| sw_interner := it |> <| sw_total ::= fun n => sadd64 n 1 |>
                 <| sw_duration ::= fun n => sadd64 n duration_ns |>
                 <| sw_groups ::= fun g => <[key := record start_ns duration_ns (default fresh (g !! key))]> g |> in
      if decide (DRILLDOWN_ENTRY_CAP <= length (sw_entries w))%nat then w else
      w <| sw_entries ::= fun l => l ++ [mkTargetSpanEntry e.1 start_ns duration_ns lane_name lane_kind span_name origin_tid
                                           linked (stack !! 2%nat) origin_name origin_binary] |>
  end.

Definition span_walk (predicate : EventCtx -> bool) (start : Z) (tid : option Z) (l : list (Z * RawInterval)) : SpanWalk :=
  foldl (span_step predicate start tid) (mkSpanWalk interner_new 0 0 ∅ []) l.

Definition group_cmp (a b : TargetSpanGroup) : comparison :=
  then_with (then_with (tg_total_duration_ns b ?= tg_total_duration_ns a) (tg_count b ?= tg_count a))
    (tg_last_start_ns b ?= tg_last_start_ns a).

Definition build_target_spans_update (a : Aggregator) (tid : option Z) (f : LiveFilter) : TargetSpanListUpdate :=
  let start := session_start a in
  let w := span_walk (make_predicate f start) start tid (iter_intervals (entries (threads a)) None a) in
  mkTargetSpanListUpdate (strings (sw_interner w)) (sw_total w) (sw_duration w)
    (take DRILLDOWN_GROUP_CAP (sort_by (le_of group_cmp) (map snd (entries (sw_groups w)))))
    (sort_by (le_of (newest_first te_start_ns)) (sw_entries w)).

(** ** What passes the filter *)

Definition in_range (f : LiveFilter) (start timestamp : Z) : Prop :=
  match time_range f with
  | Some tr => Signals.r_start_ns tr <= ssub timestamp start < Signals.r_end_ns tr
  | None => True
  end.

#[local] Instance in_range_dec f start timestamp : Decision (in_range f start timestamp).
Proof. unfold in_range. destruct (time_range f); apply _. Defined.

Lemma out_of_range_spec f start timestamp : out_of_range f start timestamp = false <-> in_range f start timestamp.
Proof. unfold out_of_range, in_range. destruct (time_range f); [|done]. rewrite bool_decide_eq_false. lia. Qed.

Lemma make_predicate_true f start ctx :
  make_predicate f start ctx = true <->
  in_range f start (ctx_timestamp ctx) /\ Forall (fun address => key_at address ∉ exclude_symbols f) (ctx_stack ctx).
Proof.
  unfold make_predicate. destruct (out_of_range _ _ _) eqn:E.
  - split; [done|]. intros [H%out_of_range_spec _]. congruence.
  - apply out_of_range_spec in E. rewrite Forall_forall. case_bool_decide as Hn.
    + rewrite Hn. split; [|done]. intros _. split; [done|]. intros x _. apply not_elem_of_nil.
    + rewrite negb_true_iff, <- not_true_iff_false, existsb_exists. split.
      * intros H. split; [done|]. intros x Hx Hk. apply H. exists x. rewrite <- list_elem_of_In. split; [done|].
        by apply bool_decide_eq_true.
      * intros [_ H] (x & Hx%list_elem_of_In & Hk%bool_decide_eq_true). by apply (H x).
Qed.

Lemma empty_filter_keeps f start ctx : is_filter_empty f = true -> make_predicate f start ctx = true.
Proof.
  unfold is_filter_empty. intros [H1%bool_decide_eq_true H2%bool_decide_eq_true]%andb_true_iff.
  apply make_predicate_true. unfold in_range. rewrite H1, H2. split; [done|]. apply Forall_forall.
  intros x _. apply not_elem_of_nil.
Qed.

(** The pass asks the predicate only what it answers. *)
Lemma aggregate_ext p p' tids tid a : (forall ctx, p ctx = p' ctx) -> aggregate p tids tid a = aggregate p' tids tid a.
Proof.
  intros Hp. unfold aggregate. f_equal. apply functional_extensionality. intros agg.
  apply functional_extensionality. intros t. destruct (threads a !! t) as [stats|]; [|done].
  unfold aggregate_thread. f_equal. assert (p = p') as ->; [|done]. by apply functional_extensionality.
Qed.

(** ** The list of blocked intervals *)

Definition interval_len (e : Z * RawInterval) : Z := ssub (end_ns e.2) (start_ns e.2).

Definition listed (f : LiveFilter) (start : Z) (e : Z * RawInterval) : bool :=
  match kind e.2 with
  | OffCpu _ _ _ => negb (out_of_range f start (start_ns e.2)) && negb (bool_decide (interval_len e = 0))
  | OnCpu | SyntheticSpan _ _ _ => false
  end.

Definition interval_why (e : Z * RawInterval) : OffCpuReason :=
  match kind e.2 with OffCpu stack _ _ => block_reason stack | OnCpu | SyntheticSpan _ _ _ => Other end.

Definition interval_waker (e : Z * RawInterval) : option Z * option Z :=
  match kind e.2 with OffCpu _ t s => (t, waker_address t s) | OnCpu | SyntheticSpan _ _ _ => (None, None) end.

(** An entry of the list is about the interval, its names read from the table. *)
Definition interval_shown (strs : list (list Z)) (start : Z) (e : Z * RawInterval) (x : IntervalEntry) : Prop :=
  ie_tid x = e.1 /\ ie_start_ns x = ssub (start_ns e.2) start /\ ie_duration_ns x = interval_len e /\
  ie_reason x = interval_why e /\ (ie_waker_tid x, ie_waker_address x) = interval_waker e /\
  ie_waker_function_name x ≫= string_at strs = function_name <$> (ie_waker_address x ≫= lookup_symbol) /\
  ie_waker_binary x ≫= string_at strs = binary <$> (ie_waker_address x ≫= lookup_symbol).

Lemma resolve_address_grows addr it : table_grows it (resolve_address addr it).2.
Proof.
  unfold resolve_address. destruct (lookup_symbol addr) as [r|]; [|done].
  pose proof (intern_grows (function_name r) it) as H1. destruct (intern (function_name r) it) as [k it1].
  pose proof (intern_grows (binary r) it1) as H2. destruct (intern (binary r) it1) as [k2 it2].
  cbn in *. by transitivity it1.
Qed.

Lemma resolve_address_names addr it strs :
  interner_ok it -> strings (resolve_address addr it).2 `prefix_of` strs -> Z.of_nat (length strs) <= 2 ^ 32 ->
  (resolve_address addr it).1.1 ≫= string_at strs = function_name <$> lookup_symbol addr /\
  (resolve_address addr it).1.2 ≫= string_at strs = binary <$> lookup_symbol addr.
Proof.
  intros Hi. unfold resolve_address. destruct (lookup_symbol addr) as [r|]; [|done].
  pose proof (intern_grows (function_name r) it) as [H1 H1']. pose proof (intern_resolves (function_name r) it strs Hi) as R1.
  destruct (intern (function_name r) it) as [k it1]. cbn [fst snd] in *.
  pose proof (intern_grows (binary r) it1) as [H2 H2']. pose proof (intern_resolves (binary r) it1 strs) as R2.
  destruct (intern (binary r) it1) as [k2 it2]. cbn [fst snd mbind option_bind fmap option_fmap option_map] in *.
  intros Hp Hl. pose proof (prefix_length _ _ Hp). pose proof (prefix_length _ _ H2).
  assert (interner_ok it1) as Hi1 by (apply H1'; [lia|done]).
  split; [apply R1; [|done]; by trans (strings it2)|by apply R2].
Qed.

Lemma waker_named address it strs :
  let '(name, bin, it') := match address with
                           | Some addr => resolve_address addr it
                           | None => (None, None, it)
                           end in
  table_grows it it' /\
  (interner_ok it -> strings it' `prefix_of` strs -> Z.of_nat (length strs) <= 2 ^ 32 ->
   name ≫= string_at strs = function_name <$> (address ≫= lookup_symbol) /\
   bin ≫= string_at strs = binary <$> (address ≫= lookup_symbol)).
Proof.
  destruct address as [addr|]; [|done]. pose proof (resolve_address_grows addr it) as Hg.
  pose proof (resolve_address_names addr it strs) as Hn. by destruct (resolve_address addr it) as [[name bin] it'].
Qed.

Definition interval_walk_ok (f : LiveFilter) (start : Z) (l : list (Z * RawInterval)) (w : IntervalWalk) : Prop :=
  let kept := filter (fun e => listed f start e = true) l in
  table_grows interner_new (iw_interner w) /\
  iw_total w = sat_sum (fun _ => 1) kept /\ iw_duration w = sat_sum interval_len kept /\
  (forall r, read_reason r (iw_by_reason w) = sat_sum (fun e => if decide (interval_why e = r) then interval_len e else 0) kept) /\
  (forall strs, strings (iw_interner w) `prefix_of` strs -> Z.of_nat (length strs) <= 2 ^ 32 ->
     Forall2 (interval_shown strs start) (take DRILLDOWN_ENTRY_CAP kept) (iw_entries w)) /\
  length (iw_entries w) = length (take DRILLDOWN_ENTRY_CAP kept).

Lemma interval_len_nonneg e : 0 <= interval_len e.
Proof. unfold interval_len. width. lia. Qed.

Lemma filter_snoc {A} (P : A -> Prop) `{!forall x, Decision (P x)} l x :
  filter P (l ++ [x]) = filter P l ++ (if decide (P x) then [x] else []).
Proof.
  rewrite filter_app, filter_cons, filter_nil. by destruct (decide (P x)).
Qed.

Lemma take_snoc_full {A} n (l : list A) x : (n <= length l)%nat -> take n (l ++ [x]) = take n l.
Proof. intros H. by rewrite take_app_le. Qed.

Lemma take_snoc_room {A} n (l : list A) x : (length l < n)%nat -> take n (l ++ [x]) = take n l ++ [x].
Proof. intros H. rewrite !take_ge by (rewrite ?length_app; cbn; lia). done. Qed.

Lemma interval_step_ok f start l w e :
  interval_walk_ok f start l w -> interval_walk_ok f start (l ++ [e]) (interval_step f start w e).
Proof.
  intros (Hg & Ht & Hd & Hr & He & Hl). unfold interval_walk_ok. rewrite filter_snoc.
  unfold interval_step. destruct (decide (listed f start e = true)) as [Hkept|Hkept].
  - destruct (kind e.2) as [|?|stack wt ws] eqn:Ek; unfold listed in Hkept; rewrite Ek in Hkept; try done.
    apply andb_true_iff in Hkept as [H1%negb_true_iff H2%negb_true_iff%bool_decide_eq_false].
    rewrite H1, decide_False by done. fold (interval_len e). cbn [iw_entries field_update].
    assert (interval_why e = block_reason stack) as Hwhy by (unfold interval_why; by rewrite Ek).
    assert (interval_waker e = (wt, waker_address wt ws)) as Hwk by (unfold interval_waker; by rewrite Ek).
    set (kept := filter _ l) in *.
    assert (forall r, read_reason r (add_reason (block_reason stack) (interval_len e) (iw_by_reason w)) =
      sat_sum (fun e => if decide (interval_why e = r) then interval_len e else 0) (kept ++ [e])) as Hr'.
    { intros r. rewrite read_add_reason by (rewrite Hr; unfold sat_sum; lia). rewrite Hr, <- Hwhy.
      rewrite <- sat_sum_snoc by (case_decide; [apply interval_len_nonneg|lia]). done. }
    pose proof (interval_len_nonneg e) as Hpos.
    cbn. rewrite length_take in Hl. case_decide as Hroom; cbn.
    + rewrite length_take, length_app. cbn [length].
      set (address := waker_address wt ws) in *.
      destruct (match address with Some addr => _ | None => _ end) as [[name bin] it] eqn:Em. cbn.
      pose proof (fun strs => waker_named address (iw_interner w) strs) as Hn. rewrite Em in Hn.
      rewrite Ht, Hd, !(sat_sum_snoc_eq _ _ _ _ eq_refl) by lia. split_ands; try done.
      * etransitivity; [exact Hg|apply (Hn [])].
      * intros strs Hp Hs. assert (length kept < DRILLDOWN_ENTRY_CAP)%nat as Hlt by lia.
        rewrite take_snoc_room by done. apply Forall2_app; [|apply Forall2_cons; split; [|done]].
        -- apply He; [|done]. destruct (Hn strs) as [[Hpre _] _]. by trans (strings it).
        -- destruct (Hn strs) as [[Hpre _] Hnames]. pose proof (prefix_length _ _ Hp). pose proof (prefix_length _ _ Hpre).
           destruct Hnames as [N1 N2]; [apply Hg; [lia|apply interner_new_ok]|done|done|].
           by unfold interval_shown; cbn; rewrite Hwhy, Hwk.
      * rewrite length_app. cbn [length]. lia.
    + rewrite Ht, Hd, !(sat_sum_snoc_eq _ _ _ _ eq_refl) by lia.
      rewrite take_snoc_full by lia. split_ands; try done. rewrite length_take. lia.
  - rewrite app_nil_r. assert (match kind e.2 with
      | OffCpu stack waker_tid waker_user_stack => out_of_range f start (start_ns e.2) = true \/ interval_len e = 0
      | _ => True end) as Hskip.
    { unfold listed in Hkept. destruct (kind e.2); [done..|]. destruct (out_of_range _ _ _); [by left|right].
      cbn in Hkept. apply not_true_iff_false, negb_false_iff, bool_decide_eq_true in Hkept. done. }
    destruct (kind e.2); [done..|]. destruct Hskip as [->|Hz]; [done|]. unfold interval_len in Hz.
    destruct (out_of_range _ _ _); [done|]. by rewrite decide_True.
Qed.

Lemma interval_walk_spec f start l : interval_walk_ok f start l (interval_walk f start l).
Proof.
  unfold interval_walk. induction l as [|e l IH] using rev_ind.
  - unfold interval_walk_ok. cbn. split_ands; try done. intros r. by destruct r.
  - rewrite foldl_app. cbn [foldl]. by apply interval_step_ok.
Qed.

Lemma newest_first_sorted {A} (start : A -> Z) l :
  StronglySorted (fun x y => start y <= start x) (sort_by (le_of (newest_first start)) l).
Proof.
  eapply StronglySorted_weaken; [|apply (sort_by_le_of (newest_first start))].
  - intros x y. unfold newest_first. cbn. destruct (start y ?= start x) eqn:E; [apply Z.compare_eq_iff in E; lia| |done].
    rewrite Z.compare_lt_iff in E. lia.
Qed.

(** The list of blocked intervals is exact: the counts and durations, in
    total and by reason, are those of the off-CPU intervals of the threads asked
    about that start in the time range; an entry shows its interval with the
    reason, the waker, and the waker's function and binary read from the string
    table; entries come newest start first and are those of the first 10000
    intervals of the log that match. *)
Theorem intervals_exact a tid f :
  let l := iter_intervals (entries (threads a)) tid a in
  let kept := filter (fun e => listed f (session_start a) e = true) l in
  let u := build_intervals_update a tid f in
  Z.of_nat (length (iu_strings u)) <= 2 ^ 32 ->
  total_intervals u = sat_sum (fun _ => 1) kept /\ iu_total_duration_ns u = sat_sum interval_len kept /\
  (forall r, read_reason r (by_reason u) = sat_sum (fun e => if decide (interval_why e = r) then interval_len e else 0) kept) /\
  StronglySorted (fun x y => ie_start_ns y <= ie_start_ns x) (iu_entries u) /\
  exists shown, iu_entries u ≡ₚ shown /\
    Forall2 (interval_shown (iu_strings u) (session_start a)) (take DRILLDOWN_ENTRY_CAP kept) shown.
Proof.
  intros l kept u Hs. destruct (interval_walk_spec f (session_start a) l) as (_ & H1 & H2 & H3 & H4 & _).
  split; [exact H1|]. split; [exact H2|]. split; [exact H3|]. split; [apply newest_first_sorted|].
  exists (iw_entries (interval_walk f (session_start a) l)). split; [apply sort_by_perm|]. by apply H4.
Qed.

Lemma pairs_sorted t l :
  StronglySorted (fun i j => start_ns i < start_ns j) l ->
  StronglySorted (fun x y : Z * RawInterval => start_ns x.2 < start_ns y.2) (map (pair t) l).
Proof.
  induction 1 as [|i l Hl IH Hi]; cbn; constructor; [done|]. apply Forall_forall. intros y (j & -> & Hj)%list_elem_of_fmap.
  by eapply Forall_forall in Hi.
Qed.

(** The newest interval is the first to go: the list is cut before it is
    sorted, so when more than 10000 blocked intervals of a thread match, the list
    that is to show what happens now leaves out the last of them, and every
    interval it shows started before it. *)
Theorem newest_interval_hidden a t stats f e :
  threads a !! t = Some stats ->
  StronglySorted (fun i j => start_ns i < start_ns j) (intervals stats) ->
  Forall (fun i => session_start a <= start_ns i) (intervals stats) ->
  let kept := filter (fun e => listed f (session_start a) e = true) (iter_intervals (entries (threads a)) (Some t) a) in
  last kept = Some e -> (DRILLDOWN_ENTRY_CAP < length kept)%nat ->
  Z.of_nat (length (iu_strings (build_intervals_update a (Some t) f))) <= 2 ^ 32 ->
  Forall (fun x => ie_start_ns x < ssub (start_ns e.2) (session_start a)) (iu_entries (build_intervals_update a (Some t) f)).
Proof.
  intros Ht Hsort Hstart kept Hlast Hlen Hs.
  assert (StronglySorted (fun x y : Z * RawInterval => start_ns x.2 < start_ns y.2) kept) as Hk.
  { apply StronglySorted_filter. unfold iter_intervals. rewrite Ht. by apply pairs_sorted. }
  assert (Forall (fun x => session_start a <= start_ns x.2) kept) as Hge.
  { apply Forall_forall. intros x [_ Hx]%list_elem_of_filter. unfold iter_intervals in Hx. rewrite Ht in Hx.
    apply list_elem_of_fmap in Hx as (i & -> & Hi). by eapply Forall_forall in Hstart. }
  destruct (interval_walk_spec f (session_start a) (iter_intervals (entries (threads a)) (Some t) a)) as (_ & _ & _ & _ & H4 & _).
  fold kept in H4. specialize (H4 _ (reflexivity (R := prefix) _) Hs). unfold build_intervals_update. cbn [iu_entries].
  rewrite sort_by_perm. apply Forall_forall. intros x Hx. apply list_elem_of_lookup in Hx as [n Hn].
  destruct (Forall2_lookup_r _ _ _ _ _ H4 Hn) as (y & Hy & (_ & -> & _)).
  apply lookup_take_Some in Hy as [Hy Hnlt]. rewrite last_lookup in Hlast.
  pose proof (StronglySorted_lookup_lt _ _ _ _ _ _ Hk Hy Hlast ltac:(lia)) as Hlt.
  assert (session_start a <= start_ns y.2) by (eapply Forall_forall in Hge; [exact Hge|by eapply list_elem_of_lookup_2]).
  width. lia.
Qed.

(** The filter means what it says: an event passes when it lies in the time
    range and no address of its stack is shown under an excluded symbol; and the
    path that skips the test when the filter is empty aggregates the same. *)
Theorem filter_exact a tid f :
  let passes ctx := in_range f (session_start a) (ctx_timestamp ctx) /\
                    Forall (fun address => key_at address ∉ exclude_symbols f) (ctx_stack ctx) in
  (forall ctx, make_predicate f (session_start a) ctx = true <-> passes ctx) /\
  aggregate_with_filter a tid f = aggregate (make_predicate f (session_start a)) (tids a) tid a /\
  (is_filter_empty f = true -> forall ctx, passes ctx).
Proof.
  cbn zeta. split; [intros ctx; apply make_predicate_true|]. split.
  - unfold aggregate_with_filter. destruct (is_filter_empty f) eqn:E; [|done]. apply aggregate_ext.
    intros ctx. by rewrite empty_filter_keeps.
  - intros E ctx. by apply make_predicate_true, empty_filter_keeps.
Qed.

(** ** The list of spans *)

(** Thread, kind and stack of a span. *)
Definition span_stack (e : Z * RawInterval) : list Z :=
  match kind e.2 with SyntheticSpan stack _ _ => stack | OnCpu | OffCpu _ _ _ => [] end.

Definition span_origin (e : Z * RawInterval) : option Z :=
  match kind e.2 with SyntheticSpan _ origin_tid _ => origin_tid | OnCpu | OffCpu _ _ _ => None end.

Definition span_kind (e : Z * RawInterval) : TargetLaneKind :=
  match kind e.2 with SyntheticSpan _ _ lane_kind => lane_kind | OnCpu | OffCpu _ _ _ => Generic end.

Definition key_of (e : Z * RawInterval) : TargetSpanGroupKey :=
  span_key e.1 (span_stack e) (span_origin e) (span_kind e).

Definition span_listed (predicate : EventCtx -> bool) (tid : option Z) (e : Z * RawInterval) : bool :=
  match kind e.2 with
  | SyntheticSpan _ origin_tid _ =>
      negb (span_elsewhere tid e.1 origin_tid) && predicate (IntervalCtx e.1 e.2) && negb (bool_decide (interval_len e = 0))
  | OnCpu | OffCpu _ _ _ => false
  end.

(** What an entry or a group shows of its spans: the parts of the key, and the
    names of lane, span, origin and the origin's binary in the string table. *)
Definition span_shown (strs : list (list Z)) (k : TargetSpanGroupKey) (tid : Z) (lane_kind : TargetLaneKind)
    (origin_tid : option Z) (linked : bool) (address lane span origin bin : option Z) : Prop :=
  let '(tid', lane_kind', lane_addr, span_addr, origin_tid', origin_addr) := k in
  (tid, lane_kind, origin_tid, address) = (tid', lane_kind', origin_tid', origin_addr) /\
  linked = bool_decide (is_Some origin_addr) /\
  lane ≫= string_at strs = function_name <$> (lane_addr ≫= lookup_symbol) /\
  span ≫= string_at strs = function_name <$> (span_addr ≫= lookup_symbol) /\
  origin ≫= string_at strs = function_name <$> (origin_addr ≫= lookup_symbol) /\
  bin ≫= string_at strs = binary <$> (origin_addr ≫= lookup_symbol).

Definition entry_shown (strs : list (list Z)) (start : Z) (e : Z * RawInterval) (x : TargetSpanEntry) : Prop :=
  te_start_ns x = ssub (start_ns e.2) start /\ te_duration_ns x = interval_len e /\
  span_shown strs (key_of e) (te_tid x) (te_target_kind x) (te_origin_tid x) (te_origin_linked x) (te_origin_address x)
    (te_lane_name x) (te_span_name x) (te_origin_function_name x) (te_origin_binary x).

(** The largest value over a list that is not empty. *)
Definition maximum_of {A} (f : A -> Z) (l : list A) (m : Z) : Prop :=
  Forall (fun e => f e <= m) l /\ Exists (fun e => f e = m) l.

(** A group is about the spans [es] of its key. *)
Definition group_shown (strs : list (list Z)) (start : Z) (k : TargetSpanGroupKey) (es : list (Z * RawInterval))
    (g : TargetSpanGroup) : Prop :=
  tg_count g = sat_sum (fun _ => 1) es /\ tg_total_duration_ns g = sat_sum interval_len es /\
  maximum_of interval_len es (tg_max_duration_ns g) /\
  maximum_of (fun e => ssub (start_ns e.2) start) es (tg_last_start_ns g) /\
  span_shown strs k (tg_tid g) (tg_target_kind g) (tg_origin_tid g) (tg_origin_linked g) (tg_origin_address g)
    (tg_lane_name g) (tg_span_name g) (tg_origin_function_name g) (tg_origin_binary g).

Lemma resolve_opt_spec addr it :
  table_grows it (resolve_opt addr it).2 /\
  forall strs, interner_ok it -> strings (resolve_opt addr it).2 `prefix_of` strs -> Z.of_nat (length strs) <= 2 ^ 32 ->
    (resolve_opt addr it).1 ≫= string_at strs = function_name <$> (addr ≫= lookup_symbol).
Proof.
  unfold resolve_opt, Timeline.resolve_target_symbol_name. destruct addr as [addr|]; [|done]. cbn [mbind option_bind].
  destruct (lookup_symbol addr) as [r|]; [|done].
  pose proof (intern_grows (function_name r) it) as Hg. pose proof (intern_resolves (function_name r) it) as Hr.
  destruct (intern (function_name r) it) as [k it']. cbn in *. split; [done|]. auto.
Qed.

(** The three lookups of one span. *)
Definition span_names (stack : list Z) (it : StringInterner)
    : option Z * option Z * option Z * option Z * StringInterner :=
  let '(lane_name, it) := resolve_opt (stack !! 1%nat) it in
  let '(span_name, it) := resolve_opt (stack !! 0%nat) it in
  let '(origin_name, origin_binary, it) := resolve_target_origin (stack !! 2%nat) it in
  (lane_name, span_name, origin_name, origin_binary, it).

Lemma span_names_spec tid stack origin_tid lane_kind it :
  let '(lane, span, origin, bin, it') := span_names stack it in
  table_grows it it' /\
  forall strs, interner_ok it -> strings it' `prefix_of` strs -> Z.of_nat (length strs) <= 2 ^ 32 ->
    span_shown strs (span_key tid stack origin_tid lane_kind) tid lane_kind origin_tid
      (bool_decide (is_Some (stack !! 2%nat))) (stack !! 2%nat) lane span origin bin.
Proof.
  unfold span_names. destruct (resolve_opt_spec (stack !! 1%nat) it) as [G1 N1].
  destruct (resolve_opt (stack !! 1%nat) it) as [lane it1]. cbn [fst snd] in *.
  destruct (resolve_opt_spec (stack !! 0%nat) it1) as [G2 N2].
  destruct (resolve_opt (stack !! 0%nat) it1) as [span it2]. cbn [fst snd] in *.
  pose proof (waker_named (stack !! 2%nat) it2) as H3. fold (resolve_target_origin (stack !! 2%nat) it2) in H3.
  destruct (resolve_target_origin (stack !! 2%nat) it2) as [[origin bin] it3].
  destruct (H3 []) as [G3 _]. split; [etransitivity; [exact G1|]; by etransitivity|].
  intros strs Hi Hp Hl. destruct (H3 strs) as [_ N3]. destruct G1 as [P1 K1], G2 as [P2 K2], G3 as [P3 K3].
  pose proof (prefix_length _ _ Hp). pose proof (prefix_length _ _ P3). pose proof (prefix_length _ _ P2).
  assert (interner_ok it1) as Hi1 by (apply K1; [lia|done]).
  assert (interner_ok it2) as Hi2 by (apply K2; [lia|done]).
  assert (strings it2 `prefix_of` strs) as Hp2 by (by trans (strings it3)).
  unfold span_shown, span_key. split; [done|]. split; [done|].
  split; [apply N1; [done|by trans (strings it2)|done]|].
  split; [by apply N2|by apply N3].
Qed.

Lemma maximum_of_snoc {A} (f : A -> Z) l x m :
  maximum_of f l m -> maximum_of f (l ++ [x]) (Z.max m (f x)).
Proof.
  intros [Hf He]. split.
  - apply Forall_app. split; [|by apply Forall_singleton; lia]. eapply Forall_impl; [exact Hf|]. cbn. lia.
  - apply Exists_app. destruct (Z.max_spec m (f x)) as [[_ ->]|[_ ->]]; [right|by left]. by apply Exists_cons_hd.
Qed.

Lemma maximum_of_first {A} (f : A -> Z) x m : m <= f x -> maximum_of f [x] (Z.max m (f x)).
Proof. intros H. rewrite Z.max_r by done. by split; [apply Forall_singleton|apply Exists_cons_hd]. Qed.

(** The spans of a key. *)
Definition of_key (k : TargetSpanGroupKey) (l : list (Z * RawInterval)) : list (Z * RawInterval) :=
  filter (fun e => key_of e = k) l.

Definition span_walk_ok (predicate : EventCtx -> bool) (start : Z) (tid : option Z) (l : list (Z * RawInterval))
    (w : SpanWalk) : Prop :=
  let kept := filter (fun e => span_listed predicate tid e = true) l in
  table_grows interner_new (sw_interner w) /\
  sw_total w = sat_sum (fun _ => 1) kept /\ sw_duration w = sat_sum interval_len kept /\
  length (sw_entries w) = length (take DRILLDOWN_ENTRY_CAP kept) /\
  (forall k, sw_groups w !! k = None <-> of_key k kept = []) /\
  (forall strs, strings (sw_interner w) `prefix_of` strs -> Z.of_nat (length strs) <= 2 ^ 32 ->
     Forall2 (entry_shown strs start) (take DRILLDOWN_ENTRY_CAP kept) (sw_entries w) /\
     forall k g, sw_groups w !! k = Some g -> group_shown strs start k (of_key k kept) g).

(** One span joins its group, or starts it. *)
Lemma record_shown strs start k es e (g : option TargetSpanGroup) fresh :
  match g with Some g => group_shown strs start k es g | None => es = [] end ->
  tg_count fresh = 0 -> tg_total_duration_ns fresh = 0 -> tg_max_duration_ns fresh = 0 ->
  tg_last_start_ns fresh = ssub (start_ns e.2) start ->
  span_shown strs k (tg_tid fresh) (tg_target_kind fresh) (tg_origin_tid fresh) (tg_origin_linked fresh)
    (tg_origin_address fresh) (tg_lane_name fresh) (tg_span_name fresh) (tg_origin_function_name fresh)
    (tg_origin_binary fresh) ->
  group_shown strs start k (es ++ [e]) (record (ssub (start_ns e.2) start) (interval_len e) (default fresh g)).
Proof.
  intros Hg F1 F2 F3 F4 F5. pose proof (interval_len_nonneg e) as Hpos.
  destruct g as [g|]; cbn [default]; unfold group_shown, record; cbn.
  - destruct Hg as (-> & -> & H3 & H4 & H5). rewrite !(sat_sum_snoc_eq _ _ _ _ eq_refl) by lia.
    split_and!; [done..| | |done]; [by apply maximum_of_snoc|].
    by apply (maximum_of_snoc (fun e => ssub (start_ns e.2) start)).
  - subst es. cbn [app]. rewrite F1, F2, F3, F4. split_and!; [| | | |done].
    + by apply (sat_sum_snoc (fun _ : Z * RawInterval => 1) [] e).
    + by apply (sat_sum_snoc interval_len [] e).
    + by apply maximum_of_first.
    + apply (maximum_of_first (fun e => ssub (start_ns e.2) start)). lia.
Qed.

Lemma of_key_snoc k l e : of_key k (l ++ [e]) = of_key k l ++ (if decide (key_of e = k) then [e] else []).
Proof. unfold of_key. by rewrite filter_snoc. Qed.

(** The step on a span that is listed, with its lookups named. *)
Lemma span_step_kept predicate start tid w e :
  span_listed predicate tid e = true ->
  span_step predicate start tid w e =
  let start_ns := ssub (start_ns e.2) start in
  let linked := bool_decide (is_Some (span_stack e !! 2%nat)) in
  let '(lane, span, origin, bin, it) := span_names (span_stack e) (sw_interner w) in
  let fresh := mkTargetSpanGroup e.1 lane (span_kind e) span (span_origin e) linked (span_stack e !! 2%nat) origin bin
                 0 0 0 start_ns in
  mkSpanWalk it (sadd64 (sw_total w) 1) (sadd64 (sw_duration w) (interval_len e))
    (<[key_of e := record start_ns (interval_len e) (default fresh (sw_groups w !! key_of e))]> (sw_groups w))
    (if decide (DRILLDOWN_ENTRY_CAP <= length (sw_entries w))%nat then sw_entries w
     else sw_entries w ++ [mkTargetSpanEntry e.1 start_ns (interval_len e) lane (span_kind e) span (span_origin e) linked
                             (span_stack e !! 2%nat) origin bin]).
Proof.
  unfold span_listed, span_step, key_of, span_stack, span_kind, span_origin, span_names.
  destruct (kind e.2) as [|stack origin_tid lane_kind|]; [done| |done].
  intros [[H1%negb_true_iff H2]%andb_true_iff H3%negb_true_iff%bool_decide_eq_false]%andb_true_iff.
  rewrite H1, H2. cbn [negb]. fold (interval_len e). rewrite decide_False by done.
  destruct (resolve_opt (stack !! 1%nat) (sw_interner w)) as [lane it1].
  destruct (resolve_opt (stack !! 0%nat) it1) as [span it2].
  destruct (resolve_target_origin (stack !! 2%nat) it2) as [[origin bin] it3].
  cbn -[decide]. by destruct (decide (DRILLDOWN_ENTRY_CAP <= length (sw_entries w))%nat).
Qed.

Lemma span_step_skipped predicate start tid w e :
  span_listed predicate tid e <> true -> span_step predicate start tid w e = w.
Proof.
  unfold span_listed, span_step. destruct (kind e.2) as [|stack origin_tid lane_kind|]; [done| |done].
  destruct (span_elsewhere tid e.1 origin_tid); [done|]. destruct (predicate _); [|done]. cbn [negb andb].
  intros H%not_true_iff_false%negb_false_iff%bool_decide_eq_true. by rewrite decide_True.
Qed.

Lemma span_step_ok predicate start tid l w e :
  span_walk_ok predicate start tid l w ->
  span_walk_ok predicate start tid (l ++ [e]) (span_step predicate start tid w e).
Proof.
  intros Hw. unfold span_walk_ok in *. rewrite filter_snoc. set (kept := filter _ l) in *.
  destruct (decide (span_listed predicate tid e = true)) as [Hkept|Hkept];
    [|rewrite app_nil_r, span_step_skipped by done; exact Hw].
  destruct Hw as (Hg & Ht & Hd & Hl & Hn & Hs). rewrite span_step_kept by done. cbv zeta.
  pose proof (span_names_spec e.1 (span_stack e) (span_origin e) (span_kind e) (sw_interner w)) as Hnames.
  destruct (span_names (span_stack e) (sw_interner w)) as [[[[lane span] origin] bin] it].
  destruct Hnames as [Hgrow Hnames]. fold (key_of e) in Hnames.
  cbn [sw_interner sw_total sw_duration sw_groups sw_entries].
  pose proof (interval_len_nonneg e). rewrite Ht, Hd, !(sat_sum_snoc_eq _ _ _ _ eq_refl) by lia.
  rewrite length_take in Hl. split; [by etransitivity|]. split; [done|]. split; [done|]. split.
  { rewrite length_take, length_app. case_decide; rewrite ?length_app; cbn [length]; lia. }
  split.
  { intros k. rewrite of_key_snoc. destruct (decide (key_of e = k)) as [<-|Hk].
    - rewrite lookup_insert_eq. split; [done|]. by intros [_ ?]%app_eq_nil.
    - rewrite lookup_insert_ne by done. by rewrite app_nil_r. }
  intros strs Hp Hlen. destruct Hgrow as [Hpre Hok]. pose proof (prefix_length _ _ Hp). pose proof (prefix_length _ _ Hpre).
  specialize (Hnames strs ltac:(apply Hg; [lia|apply interner_new_ok]) Hp Hlen).
  destruct (Hs strs ltac:(by trans (strings it)) Hlen) as [Hentries Hgroups]. split.
  - case_decide as Hroom.
    + rewrite take_snoc_full by lia. done.
    + rewrite take_snoc_room by lia. apply Forall2_app; [done|]. apply Forall2_cons. split; [|done].
      by split; [|split].
  - intros k g. rewrite of_key_snoc. destruct (decide (key_of e = k)) as [<-|Hk].
    + rewrite lookup_insert_eq. intros [= <-]. apply record_shown; [|done..].
      destruct (sw_groups w !! key_of e) eqn:E; [by apply Hgroups|by apply Hn].
    + rewrite lookup_insert_ne, app_nil_r by done. apply Hgroups.
Qed.

Lemma span_walk_spec predicate start tid l : span_walk_ok predicate start tid l (span_walk predicate start tid l).
Proof.
  unfold span_walk. induction l as [|e l IH] using rev_ind.
  - unfold span_walk_ok. cbn. by split_ands.
  - rewrite foldl_app. cbn [foldl]. by apply span_step_ok.
Qed.

#[local] Instance group_ordered : Ordered group_cmp.
Proof.
  unfold group_cmp. apply then_ordered; [apply then_ordered|]; apply reverse_key_ordered; apply _.
Qed.

(** The list of the target's spans is exact: it counts the spans of the lane
    asked about, or started by the thread asked about, that pass the filter; they
    are grouped by thread, kind, lane, span and origin, each group with the
    number, total, longest and latest of exactly its spans, and the 512 largest
    groups are listed; the entries are the first 10000 spans, newest start
    first; and every name shown is that of the address it stands for. *)
Theorem target_spans_exact a tid f :
  let l := iter_intervals (entries (threads a)) None a in
  let start := session_start a in
  let kept := filter (fun e => span_listed (make_predicate f start) tid e = true) l in
  let u := build_target_spans_update a tid f in
  Z.of_nat (length (su_strings u)) <= 2 ^ 32 ->
  total_spans u = sat_sum (fun _ => 1) kept /\ su_total_duration_ns u = sat_sum interval_len kept /\
  (exists all : list (TargetSpanGroupKey * TargetSpanGroup),
     NoDup all.*1 /\ (forall k, k ∈ all.*1 <-> exists e, e ∈ kept /\ key_of e = k) /\
     (forall k g, (k, g) ∈ all -> group_shown (su_strings u) start k (of_key k kept) g) /\
     StronglySorted (fun x y => group_cmp x y <> Gt) all.*2 /\
     su_groups u = take DRILLDOWN_GROUP_CAP all.*2) /\
  StronglySorted (fun x y => te_start_ns y <= te_start_ns x) (su_entries u) /\
  exists shown, su_entries u ≡ₚ shown /\
    Forall2 (entry_shown (su_strings u) start) (take DRILLDOWN_ENTRY_CAP kept) shown.
Proof.
  intros l start kept u Hs.
  destruct (span_walk_spec (make_predicate f start) start tid l) as (_ & H1 & H2 & _ & H3 & H4). fold kept in H1, H2, H3, H4.
  destruct (H4 _ (reflexivity (R := prefix) _) Hs) as [H5 H6]. set (w := span_walk _ _ _ l) in *.
  split; [exact H1|]. split; [exact H2|]. split; [|split; [apply newest_first_sorted|by exists (sw_entries w); split; [apply sort_by_perm|]]].
  destruct (Permutation_map_inv snd _ (sort_by_perm (le_of group_cmp) (map snd (entries (sw_groups w)))))
    as (all & Hall & Hp).
  rewrite entries_perm in Hp. exists all. split; [rewrite <- Hp; apply NoDup_fst_map_to_list|]. split_and!.
  - intros k. rewrite <- Hp, list_elem_of_fmap. transitivity (is_Some (sw_groups w !! k)).
    + split; [intros ([k' g] & -> & Hg%elem_of_map_to_list); by exists g|].
      intros [g Hg]. exists (k, g). by rewrite elem_of_map_to_list.
    + rewrite <- not_eq_None_Some, H3. unfold of_key. split.
      * intros Hne. destruct (filter _ kept) as [|e es] eqn:E; [done|]. exists e.
        assert (e ∈ filter (fun e => key_of e = k) kept) as [? ?]%list_elem_of_filter by (rewrite E; apply list_elem_of_here).
        done.
      * intros (e & He & Hk) E. assert (e ∈ filter (fun e => key_of e = k) kept) by by apply list_elem_of_filter.
        rewrite E in *. by apply not_elem_of_nil in H.
  - intros k g. rewrite <- Hp, elem_of_map_to_list. apply H6.
  - change (StronglySorted (fun x y => group_cmp x y <> Gt) (map snd all)). rewrite <- Hall. apply (sort_by_le_of group_cmp).
  - exact (f_equal (take DRILLDOWN_GROUP_CAP) Hall).
Qed.

(** ** The list of threads *)

Section Threads.
Variable a : Aggregator.

(** A row of the list, by the totals of the log. *)
Definition thread_row (t : Z) : ThreadInfo :=
  let total f := log_total (f (fun _ => true) (Some t) (default 0 (last_event_ns a))) (map fst (map_to_list (threads a))) a in
  mkThreadInfo t (thread_name t a) (total on_time) (total target_time)
    (breakdown_of (fun r => total (fun p tid now => off_time p tid now r)))
    (default 0 ((fun stats => Z.of_nat (length (samples stats))) <$> threads a !! t)) (total target_count)
    (thread_target_kind a t).

Lemma tids_perm : tids a ≡ₚ map fst (map_to_list (threads a)).
Proof. unfold tids. by rewrite entries_perm. Qed.

Lemma log_total_tids f : log_total f (tids a) a = log_total f (map fst (map_to_list (threads a))) a.
Proof. unfold log_total. apply sat_sum_perm, log_intervals_perm, tids_perm. Qed.

Lemma thread_info_row t : log_ok a -> thread_info a t = thread_row t.
Proof.
  intros Hok. unfold thread_info, thread_row.
  destruct (aggregate_totals (fun _ => true) (tids a) (Some t) a Hok) as (-> & -> & -> & ->).
  rewrite !log_total_tids. f_equal. apply breakdown_of_ext. intros r. apply log_total_tids.
Qed.
End Threads.

#[local] Instance thread_ordered : Ordered thread_cmp.
Proof.
  unfold thread_cmp. apply then_ordered; [apply then_ordered; apply reverse_key_ordered; apply _|].
  apply (key_ordered ti_tid). apply _.
Qed.

Lemma thread_rows a : log_ok a -> map (thread_info a) (tids a) = map (thread_row a) (tids a).
Proof. intros Hok. apply map_ext. intros t. by apply thread_info_row. Qed.

End Lists.

(** The list of threads is exact: it has every thread of the log once, the
    busiest first, with the time on the CPU, in target spans (its own and those
    it started) and blocked by reason, the samples and the spans of the whole
    log; and it is the same whatever order the hash map is walked in. *)
Theorem threads_exact `{Order : MapOrder} `{Table : SymbolTable} a :
  log_ok a ->
  build_threads_update a ≡ₚ map (thread_row a) (map fst (map_to_list (threads a))) /\
  NoDup (map ti_tid (build_threads_update a)) /\
  StronglySorted (fun x y => thread_cmp x y <> Gt) (build_threads_update a) /\
  forall Order' : MapOrder, build_threads_update (Order := Order') a = build_threads_update (Order := Order) a.
Proof.
  intros Hok.
  assert (forall Order : MapOrder, build_threads_update (Order := Order) a ≡ₚ map (thread_row a) (map fst (map_to_list (threads a)))) as Hp.
  { intros O. unfold build_threads_update. rewrite sort_by_perm, thread_rows by done. by rewrite (tids_perm a). }
  split; [apply Hp|]. split; [|split; [apply (sort_by_le_of thread_cmp)|]].
  - rewrite (Hp Order), map_map. cbn. rewrite map_id. apply NoDup_fst_map_to_list.
  - intros O'. apply (sort_by_le_of_unique thread_cmp).
    + rewrite thread_rows by done. intros x y (t & -> & _)%list_elem_of_fmap (t' & -> & _)%list_elem_of_fmap E.
      apply then_with_eq in E as [_ E%Z.compare_eq_iff]. cbn in E. by subst.
    + rewrite !thread_rows by done. by rewrite !(tids_perm a).
Qed.

(** ** Examples *)

#[local] Existing Instance canonical_order.
#[local] Existing Instance demo_table.

(** A thread that runs and blocks twice, and a lane with two spans of thread 7. *)
Definition demo_lists : Aggregator :=
  aggregator_default
    <| threads := {[ 7 := mkThreadStats [] [mkRawInterval 1000 1016 OnCpu;
                                            mkRawInterval 1016 1030 (OffCpu [20] (Some 9) (Some [21]));
                                            mkRawInterval 1040 1041 (OffCpu [20] None None)] [];
                     9 := mkThreadStats [] [mkRawInterval 1102 1108 (SyntheticSpan [21; 20] (Some 7) Metal);
                                            mkRawInterval 1110 1120 (SyntheticSpan [21; 20] (Some 7) Metal)] [] ]} |>
    <| session_start_ns := Some 1000 |> <| last_event_ns := Some 1200 |>.

Definition no_filter : LiveFilter := mkLiveFilter None [].

Lemma intervals_exact_witness :
  let u := build_intervals_update demo_lists (Some 7) no_filter in
  total_intervals u = 2 /\ iu_total_duration_ns u = 15.
Proof.
  destruct (intervals_exact demo_lists (Some 7) no_filter) as (H1 & H2 & _); [vm_compute; congruence|].
  split; [exact (eq_trans H1 ltac:(vm_compute; reflexivity))|exact (eq_trans H2 ltac:(vm_compute; reflexivity))].
Defined.

Lemma target_spans_exact_witness :
  let u := build_target_spans_update demo_lists (Some 7) no_filter in
  total_spans u = 2 /\ su_total_duration_ns u = 16.
Proof.
  destruct (target_spans_exact demo_lists (Some 7) no_filter) as (H1 & H2 & _); [vm_compute; congruence|].
  split; [exact (eq_trans H1 ltac:(vm_compute; reflexivity))|exact (eq_trans H2 ltac:(vm_compute; reflexivity))].
Defined.

Example demo_span_group :
  map (fun g => (tg_tid g, tg_count g, tg_total_duration_ns g, tg_max_duration_ns g, tg_last_start_ns g))
    (su_groups (build_target_spans_update demo_lists None no_filter)) = [(9, 2, 16, 10, 110)].
Proof. vm_compute. reflexivity. Qed.

Lemma threads_exact_witness : NoDup (map ti_tid (build_threads_update demo_lists)) /\
  map ti_tid (build_threads_update demo_lists) = [7; 9].
Proof.
  split; [|vm_compute; reflexivity].
  refine (proj1 (proj2 (threads_exact demo_lists _))).
  unfold log_ok, demo_lists. cbn [threads field_update]. apply map_Forall_insert_2; [|apply map_Forall_singleton];
    cbn [samples intervals]; (split; [constructor|split; [|constructor]]); repeat constructor; vm_compute; congruence.
Defined.

(** More intervals than the list holds. *)
Definition long_list (n : Z) : list RawInterval :=
  map (fun k => mkRawInterval (10 * k) (10 * k + 5) (OffCpu [] None None)) (seqZ 0 n).

Definition long_log : Aggregator :=
  aggregator_default <| threads := {[ 7 := mkThreadStats [] (long_list 10001) [] ]} |> <| session_start_ns := Some 0 |>.

Lemma long_list_sorted n : StronglySorted (fun i j => start_ns i < start_ns j) (long_list n).
Proof.
  unfold long_list. destruct (decide (n < 0)); [rewrite seqZ_nil by lia; constructor|].
  rewrite <- (Z2Nat.id n) by lia. generalize (Z.to_nat n) 0. clear. intros n. induction n as [|n IH]; intros from; [constructor|].
  rewrite seqZ_cons by lia. cbn [map]. rewrite Nat2Z.inj_succ, Z.pred_succ. constructor; [apply IH|].
  apply Forall_fmap, Forall_seqZ. intros k Hk. cbn. lia.
Qed.

Lemma long_list_kept n : filter (fun e => listed no_filter 0 e = true) (map (pair 7) (long_list n)) = map (pair 7) (long_list n).
Proof.
  unfold long_list. assert (Forall (fun k => 0 <= k) (seqZ 0 n)) as H by (apply Forall_seqZ; lia).
  induction H as [|k l Hk _ IH]; [done|]. cbn [map]. rewrite filter_cons_True; [by rewrite IH|].
  unfold listed. cbn. rewrite bool_decide_eq_false_2; [done|]. unfold interval_len. cbn. width. lia.
Qed.

Lemma long_log_intervals : iter_intervals (entries (threads long_log)) (Some 7) long_log = map (pair 7) (long_list 10001).
Proof. unfold iter_intervals, long_log. cbn [threads field_update]. by rewrite lookup_singleton_eq. Qed.

(** Without wakers there are no names. *)
Lemma interval_walk_no_strings f start l :
  Forall (fun e => (interval_waker e).2 = None) l -> iw_interner (interval_walk f start l) = interner_new.
Proof.
  unfold interval_walk. induction l as [|e l IH] using rev_ind; [done|].
  intros [Hl He]%Forall_app. apply Forall_cons in He as [He _]. rewrite foldl_app. cbn [foldl]. etransitivity; [|exact (IH Hl)].
  generalize (foldl (interval_step f start) (mkIntervalWalk interner_new 0 0 breakdown_default []) l). intros w.
  unfold interval_step, interval_waker in *. destruct (kind e.2) as [| |stack wt ws]; [done..|].
  change (waker_address wt ws = None) in He. cbv zeta. rewrite He.
  destruct (out_of_range _ _ _); [done|]. case_decide; [done|]. cbn -[decide DRILLDOWN_ENTRY_CAP]. by case_decide.
Qed.

Lemma newest_interval_hidden_witness :
  Forall (fun x => ie_start_ns x < 100000) (iu_entries (build_intervals_update long_log (Some 7) no_filter)).
Proof.
  refine (newest_interval_hidden long_log 7 _ no_filter (7, mkRawInterval 100000 100005 (OffCpu [] None None)) _ _ _ _ _ _).
  - apply lookup_singleton_eq.
  - apply long_list_sorted.
  - cbn [intervals]. apply Forall_fmap, Forall_seqZ. intros n Hn. cbn. lia.
  - rewrite long_log_intervals. change (session_start long_log) with 0. rewrite long_list_kept, last_lookup.
    unfold long_list. rewrite !list_lookup_fmap, !length_map, length_seqZ, lookup_seqZ_lt by lia. done.
  - rewrite long_log_intervals. change (session_start long_log) with 0. rewrite long_list_kept.
    unfold long_list, DRILLDOWN_ENTRY_CAP. rewrite !length_map, length_seqZ. lia.
  - unfold build_intervals_update. cbn [iu_strings]. rewrite long_log_intervals, interval_walk_no_strings; [done|].
    by apply Forall_fmap, Forall_fmap, Forall_seqZ.
Defined.

(** Excluding the function a thread blocks in hides the interval from the flame
    graph and from no list. *)
Example excluded_interval_listed :
  let f := mkLiveFilter None [key_at 20] in
  total_intervals (build_intervals_update demo_lists (Some 7) f) = 2 /\
  agg_off_cpu (aggregate_with_filter demo_lists (Some 7) f) = breakdown_default.
Proof. vm_compute. by split. Qed.

End Views.
