(* ===== verification/Neighbors.v ===== *)
(** * The neighbours of a function

    [compute_neighbors_update] of [stax-live/src/lib.rs]: for every place of the
    stack tree where the function stands, the chain of its callers and the tree
    of its callees are merged, by symbol, into two trees that grow outward from
    it.  Hash maps are iterated in the order of [MapOrder]. *)

From S2P Require Import Prelude Order Text Demangle Binaries Aggregate Symbols Flame.

Module Neighbors.

Import Order Symbols Aggregate Flame.

(** ** Data *)

Inductive SymbolNode := mkSymbolNode {
  sn_on_cpu_ns : Z;
  sn_target_ns : Z;
  sn_off_cpu : OffCpuBreakdown;
  sn_pet_samples : Z;
  sn_target_spans : Z;
  sn_off_cpu_intervals : Z;
  sn_rep_address : Z;
  sn_rep_self_ns : Z;
  sn_is_main : bool;
  sn_language : Demangle.Language;
  sn_target_kind : option TargetLaneKind;
  sn_children : gmap SymbolKey SymbolNode
}.

#[export] Instance eta_SymbolNode : Eta SymbolNode := fun n =>
  mkSymbolNode (sn_on_cpu_ns n) (sn_target_ns n) (sn_off_cpu n) (sn_pet_samples n) (sn_target_spans n)
    (sn_off_cpu_intervals n) (sn_rep_address n) (sn_rep_self_ns n) (sn_is_main n) (sn_language n) (sn_target_kind n)
    (sn_children n).

(** [SymbolNode::default()]; the default language is [Unknown]. *)
Definition symbol_default : SymbolNode :=
  mkSymbolNode 0 0 breakdown_default 0 0 0 0 0 false Demangle.Unknown None ∅.

Record NeighborsUpdate := mkNeighborsUpdate {
  nu_strings : list (list Z);
  nu_function_name : option Z;
  nu_binary : option Z;
  nu_is_main : bool;
  nu_language : Z;
  own_on_cpu_ns : Z;
  own_off_cpu : OffCpuBreakdown;
  own_pet_samples : Z;
  own_off_cpu_intervals : Z;
  callers_tree : FlameNode;
  callees_tree : FlameNode
}.

Section Query.
Context `{Order : MapOrder} `{Table : SymbolTable}.

(** ** Merging *)

(** [accumulate]; the address is classified here. *)
Definition accumulate (addr : Z) (src : StackNode) (node : SymbolNode) : SymbolNode :=
  let r := lookup_symbol addr in
  let node := node <| sn_on_cpu_ns ::= fun x => sadd64 x (on_cpu_ns src) |>
                   <| sn_target_ns ::= fun x => sadd64 x (target_ns src) |>
                   <| sn_off_cpu ::= add_other (off_cpu src) |>
                   <| sn_pet_samples ::= fun x => sadd64 x (pet_samples src) |>
                   <| sn_target_spans ::= fun x => sadd64 x (target_spans src) |>
                   <| sn_off_cpu_intervals ::= fun x => sadd64 x (off_cpu_intervals src) |> in
  let candidate := on_cpu_ns src in
  let node := if decide (sn_rep_self_ns node < candidate)
              then node <| sn_rep_address := addr |> <| sn_rep_self_ns := candidate |>
                        <| sn_is_main := symbol_main r |> <| sn_language := symbol_language r |>
              else node in
  node <| sn_target_kind ::= set_target_kind (target_kind src) |>.

(** [children.entry(key).or_default()] *)
Definition entry_or_default (key : SymbolKey) (node : SymbolNode) : SymbolNode :=
  default symbol_default (sn_children node !! key).

Fixpoint merge_descendants (fuel : nat) (dst : SymbolNode) (src : StackNode) : SymbolNode :=
  match fuel with
  | O => dst
  | S fuel =>
      foldl (fun dst (e : Z * StackNode) =>
          let entry := accumulate e.1 e.2 (entry_or_default (key_at e.1) dst) in
          dst <| sn_children ::= <[key_at e.1 := merge_descendants fuel entry e.2]> |>)
        dst (entries (children src))
  end.

(** The loop over [ancestors.iter().rev()]. *)
Fixpoint insert_callers (chain : list Z) (node : StackNode) (cur : SymbolNode) : SymbolNode :=
  match chain with
  | [] => cur
  | caller :: chain =>
      let entry := accumulate caller node (entry_or_default (key_at caller) cur) in
      cur <| sn_children ::= <[key_at caller := insert_callers chain node entry]> |>
  end.

(** The trees under construction: callers, callees, and the function's own data. *)
Record Trees := mkTrees { t_callers : SymbolNode; t_callees : SymbolNode; t_own : SymbolNode }.

Definition visit (target_key : SymbolKey) (addr : Z) (node : StackNode) (ancestors : list Z) (t : Trees) : Trees :=
  if decide (addr <> 0 /\ key_at addr = target_key)
  then mkTrees (insert_callers (reverse ancestors) node (t_callers t))
         (merge_descendants (height node) (t_callees t) node) (accumulate addr node (t_own t))
  else t.

Fixpoint walk (target_key : SymbolKey) (fuel : nat) (node : StackNode) (node_addr : Z) (ancestors : list Z) (t : Trees) : Trees :=
  let t := visit target_key node_addr node ancestors t in
  let ancestors := if decide (node_addr <> 0) then ancestors ++ [node_addr] else ancestors in
  match fuel with
  | O => t
  | S fuel => foldl (fun t (e : Z * StackNode) => walk target_key fuel e.2 e.1 ancestors t) t (entries (children node))
  end.

(** ** Showing a tree *)

Definition symbol_total (n : SymbolNode) : Z := sadd64 (sn_on_cpu_ns n) (total_ns (sn_off_cpu n)).

Definition entry_cmp (a b : SymbolKey * SymbolNode) : comparison :=
  then_with (then_with (symbol_total b.2 ?= symbol_total a.2) (name_cmp a.1.1 b.1.1)) (name_cmp a.1.2 b.1.2).

(** The entries shown below a node, longest first. *)
Definition shown_entries (threshold : Z) (n : SymbolNode) : list (SymbolKey * SymbolNode) :=
  sort_by (le_of entry_cmp) (filter (fun e => threshold <= symbol_total e.2) (entries (sn_children n))).

Fixpoint symbol_height (n : SymbolNode) : nat :=
  map_fold (fun _ c h => Nat.max (S (symbol_height c)) h) 0%nat (sn_children n).

(** A node, once its children are built. *)
Definition finish_node (e : SymbolKey * SymbolNode) (child_nodes : list FlameNode) (it : StringInterner)
    : FlameNode * StringInterner :=
  let '((fname, bin), n) := e in
  let '(fn, it) := intern_opt fname it in
  let '(bn, it) := intern_opt bin it in
  let '(lang, it) := intern (Demangle.as_str (sn_language n)) it in
  (mkFlameNode (sn_rep_address n) (sn_on_cpu_ns n) (sn_target_ns n) (sn_off_cpu n) (sn_pet_samples n)
     (sn_target_spans n) (sn_off_cpu_intervals n) fn bn (sn_is_main n) lang (sn_target_kind n) 0 0 0 0 child_nodes, it).

Fixpoint to_flame_node (fuel : nat) (threshold : Z) (e : SymbolKey * SymbolNode) (it : StringInterner)
    : FlameNode * StringInterner :=
  match fuel with
  | O => finish_node e [] it
  | S fuel =>
      let '(child_nodes, it) :=
        foldl (fun (acc : list FlameNode * StringInterner) c =>
            let '(f, it) := to_flame_node fuel threshold c acc.2 in (acc.1 ++ [f], it))
          ([], it) (shown_entries threshold e.2) in
      finish_node e child_nodes it
  end.

(** The target's own data on the root of a tree. *)
Definition stamp (own : SymbolNode) (address : Z) (tree : SymbolNode) : SymbolNode :=
  tree <| sn_on_cpu_ns := sn_on_cpu_ns own |> <| sn_target_ns := sn_target_ns own |> <| sn_off_cpu := sn_off_cpu own |>
       <| sn_pet_samples := sn_pet_samples own |> <| sn_target_spans := sn_target_spans own |>
       <| sn_off_cpu_intervals := sn_off_cpu_intervals own |> <| sn_rep_address := address |>
       <| sn_is_main := symbol_main (lookup_symbol address) |> <| sn_language := symbol_language (lookup_symbol address) |>
       <| sn_target_kind := sn_target_kind own |>.

Definition compute_neighbors_update (root : StackNode) (target_address : Z) : NeighborsUpdate :=
  let target := lookup_symbol target_address in
  let key := symbol_key target in
  let t := walk key (height root) root 0 [] (mkTrees symbol_default symbol_default symbol_default) in
  let own := t_own t in
  let callers := stamp own target_address (t_callers t) in
  let callees := stamp own target_address (t_callees t) in
  let threshold := Z.max (symbol_total own / 2000) 1 in
  let '(fn, it) := intern_opt key.1 interner_new in
  let '(bn, it) := intern_opt key.2 it in
  let '(lang, it) := intern (Demangle.as_str (symbol_language target)) it in
  let '(callers_tree, it) := to_flame_node (symbol_height callers) threshold (key, callers) it in
  let '(callees_tree, it) := to_flame_node (symbol_height callees) threshold (key, callees) it in
  mkNeighborsUpdate (strings it) fn bn (symbol_main target) lang (sn_on_cpu_ns own) (sn_off_cpu own)
    (sn_pet_samples own) (sn_off_cpu_intervals own) callers_tree callees_tree.

(** ** What a tree of symbols holds *)

Definition read_symbol (k : counter) (n : SymbolNode) : Z :=
  match k with
  | OnCpuNs => sn_on_cpu_ns n | TargetNs => sn_target_ns n | OffCpuNs r => read_reason r (sn_off_cpu n)
  | PetSamples => sn_pet_samples n | TargetSpans => sn_target_spans n
  | OffCpuIntervals => sn_off_cpu_intervals n | Pmc _ => 0
  end.

(** The neighbour view has no hardware counters. *)
Definition timed (k : counter) : bool := match k with Pmc _ => false | _ => true end.

Fixpoint symbol_at (path : list SymbolKey) (n : SymbolNode) : option SymbolNode :=
  match path with
  | [] => Some n
  | key :: path => sn_children n !! key ≫= symbol_at path
  end.

(** The node at a path exists for the stack nodes [f path], and its counters are
    their sums. *)
Definition holds (n : SymbolNode) (f : list SymbolKey -> list StackNode) : Prop :=
  forall path, match symbol_at path n with
               | Some m => (path = [] \/ f path <> []) /\
                           forall k, timed k = true -> read_symbol k m = sat_sum (read k) (f path)
               | None => f path = []
               end.

Lemma read_accumulate k addr src n : timed k = true ->
  read_symbol k (accumulate addr src n) = sadd64 (read_symbol k n) (read k src).
Proof.
  intros Hk. unfold accumulate. case_decide; destruct k; try done; cbn [read_symbol read]; cbn; by rewrite ?read_add_other.
Qed.

Lemma accumulate_children addr src n : sn_children (accumulate addr src n) = sn_children n.
Proof. unfold accumulate. by case_decide. Qed.

Lemma holds_default : holds symbol_default (fun _ => []).
Proof.
  intros [|key path]; cbn; [|done]. split; [by left|]. intros k _. by destruct k as [| |[]| | | |[]].
Qed.

Lemma holds_ext n f g : (forall path, f path = g path) -> holds n f -> holds n g.
Proof. intros E H path. specialize (H path). by rewrite <- E. Qed.

(** What the child of a node holds. *)
Lemma holds_entry n f key : holds n f -> holds (entry_or_default key n) (fun path => f (key :: path)).
Proof.
  intros H path. specialize (H (key :: path)) as Hp. unfold entry_or_default. cbn [symbol_at] in Hp.
  destruct (sn_children n !! key) as [c|] eqn:E; cbn [default from_option id mbind option_bind] in *.
  - destruct (symbol_at path c); [|done]. destruct Hp as [[|]]; [done|]. by split; [right|].
  - rewrite Hp. exact (holds_default path).
Qed.

Lemma holds_accumulate addr src n f : 0 <= read OnCpuNs src -> (forall k, 0 <= read k src) ->
  holds n f -> holds (accumulate addr src n) (fun path => match path with [] => f [] ++ [src] | _ => f path end).
Proof.
  intros _ Hsrc H [|key path].
  - destruct (H []) as [_ H0]. cbn. split; [by left|]. intros k Hk. rewrite read_accumulate, H0 by done. by apply sat_sum_snoc.
  - specialize (H (key :: path)). cbn [symbol_at] in *. by rewrite accumulate_children.
Qed.

(** Replacing one child. *)
Lemma holds_insert n f key c g : holds n f -> holds c g -> (forall path, g path <> [] \/ path <> []) ->
  holds (n <| sn_children ::= <[key := c]> |>)
    (fun path => match path with k :: rest => if decide (k = key) then g rest else f path | [] => f [] end).
Proof.
  intros Hn Hc Hg [|k path].
  - destruct (Hn []) as [_ H0]. cbn. split; [by left|]. intros k Hk. by rewrite <- H0 by done.
  - cbn [symbol_at]. change (sn_children (n <| sn_children ::= <[key := c]> |>)) with (<[key := c]> (sn_children n)).
    destruct (decide (k = key)) as [->|Hne].
    + rewrite lookup_insert_eq. cbn [mbind option_bind]. specialize (Hc path). destruct (symbol_at path c); [|done].
      destruct Hc as [Hp Hc]. split; [|done]. right. destruct Hp as [->|Hp]; [|done]. by destruct (Hg []).
    + rewrite lookup_insert_ne by done. specialize (Hn (k :: path)). cbn [symbol_at] in Hn.
      destruct (sn_children n !! k ≫= symbol_at path); [|done]. destruct Hn as [[|]]; [done|]. by split; [right|].
Qed.

(** ** The trees are the sums they stand for *)

(** The callers of a place: merging a chain adds the place to every prefix. *)
Lemma holds_callers node : (forall k, 0 <= read k node) -> forall chain cur f, holds cur f ->
  holds (insert_callers chain node cur)
    (fun path => f path ++ if bool_decide (path <> [] /\ path `prefix_of` map key_at chain) then [node] else []).
Proof.
  intros Hnode. induction chain as [|a chain IH]; intros cur f Hf; cbn [insert_callers map].
  - eapply holds_ext; [|exact Hf]. intros path. rewrite bool_decide_eq_false_2; [by rewrite app_nil_r|].
    intros [Hne Hp%prefix_nil_inv]. done.
  - pose proof (holds_entry cur f (key_at a) Hf) as He. apply (holds_accumulate a node) in He; [|done..]. apply IH in He.
    eapply holds_ext; [|apply (holds_insert cur f (key_at a) _ _ Hf He)].
    + intros [|k path]; cbn beta iota.
      * rewrite bool_decide_eq_false_2 by naive_solver. by rewrite app_nil_r.
      * destruct (decide (k = key_at a)) as [->|Hne].
        -- rewrite (bool_decide_ext (key_at a :: path <> [] /\ _) (path `prefix_of` map key_at chain)).
           ++ destruct path as [|k path].
              ** rewrite bool_decide_eq_false_2 by naive_solver. rewrite app_nil_r.
                 rewrite bool_decide_eq_true_2 by apply prefix_nil. done.
              ** f_equal. rewrite (bool_decide_ext (k :: path <> [] /\ _) (k :: path `prefix_of` map key_at chain)); [done|]. naive_solver.
           ++ split; [intros [_ H]; by apply prefix_cons_inv_2 in H|]. intros H. split; [done|]. by apply prefix_cons.
        -- rewrite bool_decide_eq_false_2; [by rewrite app_nil_r|]. intros [_ H]. by apply prefix_cons_inv_1 in H.
    + intros [|k path]; [left|by right]. by intros [[_ ?]%app_eq_nil _]%app_eq_nil.
Qed.

Lemma kids_app key l1 l2 : kids key (l1 ++ l2) = kids key l1 ++ kids key l2.
Proof. unfold kids, calls_of, occurrences. by rewrite bind_app, filter_app, map_app. Qed.

Lemma along_app path : forall l1 l2, along path (l1 ++ l2) = along path l1 ++ along path l2.
Proof. induction path as [|key path IH]; intros l1 l2; [done|]. cbn [along]. by rewrite kids_app, IH. Qed.

Lemma tree_ok_child n a c : tree_ok n -> children n !! a = Some c -> tree_ok c.
Proof. intros H Hc path m k Hm. apply (H (a :: path) m k). cbn. by rewrite Hc. Qed.

(** The callees of a place: its descendants are added at the path of their
    symbols. *)
Lemma holds_descendants : forall fuel src dst f, (height src <= fuel)%nat -> tree_ok src -> holds dst f ->
  holds (merge_descendants fuel dst src) (fun path => f path ++ match path with [] => [] | _ => along path [src] end).
Proof.
  induction fuel as [|fuel IH]; intros src dst f Hh Hok Hf.
  - cbn [merge_descendants]. eapply holds_ext; [|exact Hf]. intros [|key path]; cbn beta iota; [by rewrite app_nil_r|].
    cbn [along]. rewrite kids_flat by (apply heights_le; repeat constructor; lia). by rewrite along_nil, app_nil_r.
  - cbn [merge_descendants].
    assert (forall l dst f, (forall e, e ∈ l -> (height e.2 <= fuel)%nat /\ tree_ok e.2) -> holds dst f ->
      holds (foldl (fun dst (e : Z * StackNode) =>
          let entry := accumulate e.1 e.2 (entry_or_default (key_at e.1) dst) in
          dst <| sn_children ::= <[key_at e.1 := merge_descendants fuel entry e.2]> |>) dst l)
        (fun path => f path ++ match path with [] => [] | key :: path => along path (map snd (calls_of key l)) end)) as Hl.
    { clear -IH. induction l as [|[c ch] l IHl]; intros dst f Hin Hf.
      - eapply holds_ext; [|exact Hf]. intros [|key path]; cbn beta iota; [by rewrite app_nil_r|].
        unfold calls_of. cbn [filter list_filter map]. by rewrite along_nil, app_nil_r.
      - cbn [foldl fst snd]. destruct (Hin (c, ch)) as [Hh Hok]; [apply list_elem_of_here|]. cbn [snd] in *.
        pose proof (holds_entry dst f (key_at c) Hf) as He.
        apply (holds_accumulate c ch) in He; [|apply tree_ok_read; done|intros k; by apply tree_ok_read].
        apply (IH ch _ _ Hh Hok) in He.
        assert (holds (merge_descendants fuel (accumulate c ch (entry_or_default (key_at c) dst)) ch)
                  (fun path => f (key_at c :: path) ++ along path [ch])) as Hg.
        { eapply holds_ext; [|exact He]. intros [|k path]; [cbn; by rewrite app_nil_r|done]. }
        pose proof (holds_insert dst f (key_at c) _ _ Hf Hg) as Hi.
        eapply holds_ext; [|apply IHl; [|apply Hi]].
        + intros [|k path]; cbn beta iota; [done|]. unfold calls_of. rewrite filter_cons. cbn [fst].
          destruct (decide (key_at c = k)) as [<-|Hne].
          * rewrite decide_True by done. cbn [map snd]. rewrite <- app_assoc, <- along_app. done.
          * by rewrite decide_False by congruence.
        + intros e He'. apply Hin. by right.
        + intros [|k path]; [left|by right]. cbn. by intros [_ ?]%app_eq_nil. }
    eapply holds_ext; [|apply (Hl (entries (children src)) dst f); [|exact Hf]].
    + intros [|key path]; cbn beta iota; [done|]. cbn [along]. unfold kids, occurrences. cbn [mbind list_bind].
      by rewrite app_nil_r.
    + intros [c ch]. rewrite entries_perm. cbn [snd]. intros Hc%elem_of_map_to_list. pose proof (height_child _ _ _ Hc).
      split; [lia|]. by eapply tree_ok_child.
Qed.

(** ** The places of a function *)

(** The last frame of a stack is the function asked about. *)
Definition at_target (key : SymbolKey) (path : list Z) : Prop :=
  match last path with Some a => a <> 0 /\ key_at a = key | None => False end.

#[local] Instance at_target_dec key path : Decision (at_target key path).
Proof. unfold at_target. destruct (last path); apply _. Defined.

(** The callers of the last frame, innermost first. *)
Definition callers_of (path : list Z) : list Z := reverse (filter (fun a => a <> 0) (take (length path - 1) path)).

(** The nodes whose stack ends in the function, with their stacks, in the order of
    the walk. *)
Fixpoint places (key : SymbolKey) (fuel : nat) (node : StackNode) (path : list Z) : list (list Z * StackNode) :=
  (if decide (at_target key path) then [(path, node)] else []) ++
  match fuel with
  | O => []
  | S fuel => entries (children node) ≫= (fun e => places key fuel e.2 (path ++ [e.1]))
  end.

Definition visit_place (t : Trees) (p : list Z * StackNode) : Trees :=
  mkTrees (insert_callers (callers_of p.1) p.2 (t_callers t)) (merge_descendants (height p.2) (t_callees t) p.2)
    (accumulate (default 0 (last p.1)) p.2 (t_own t)).

Lemma foldl_bind {A B C} (f : C -> B -> C) (g : A -> list B) l t :
  foldl f t (l ≫= g) = foldl (fun t x => foldl f t (g x)) t l.
Proof. revert t. induction l as [|x l IH]; intros t; [done|]. cbn. by rewrite foldl_app, IH. Qed.

Lemma take_init {A} (path : list A) a : take (length (path ++ [a]) - 1) (path ++ [a]) = path.
Proof. rewrite length_app. cbn. rewrite Nat.add_sub. by rewrite take_app_length. Qed.

Lemma walk_places key : forall fuel node path t,
  walk key fuel node (default 0 (last path)) (filter (fun a => a <> 0) (take (length path - 1) path)) t =
  foldl visit_place t (places key fuel node path).
Proof.
  intros fuel. induction fuel as [fuel IH] using (well_founded_induction lt_wf). intros node path t.
  assert (visit key (default 0 (last path)) node (filter (fun a => a <> 0) (take (length path - 1) path)) t =
          foldl visit_place t (if decide (at_target key path) then [(path, node)] else [])) as Hv.
  { unfold visit. destruct (decide (at_target key path)) as [Ht|Ht]; unfold at_target in Ht;
      destruct (last path) as [a|] eqn:E; cbn [default from_option id] in *; try done.
    - rewrite decide_True by done. unfold visit_place, callers_of. cbn [foldl fst snd]. by rewrite E.
    - by rewrite decide_False. }
  assert ((if decide (default 0 (last path) <> 0) then filter (fun a => a <> 0) (take (length path - 1) path) ++ [default 0 (last path)]
           else filter (fun a => a <> 0) (take (length path - 1) path)) = filter (fun a => a <> 0) path) as Ha.
  { destruct path as [|a path _] using rev_ind; [done|]. rewrite last_snoc, take_init, filter_app. cbn [default from_option id].
    destruct (decide (a <> 0)); [by rewrite filter_cons_True|]. rewrite filter_cons_False by done. by rewrite filter_nil, app_nil_r. }
  destruct fuel as [|fuel]; cbn [walk places]; rewrite Hv, ?Ha, foldl_app; [done|]. rewrite foldl_bind.
  generalize (foldl visit_place t (if decide (at_target key path) then [(path, node)] else [])). clear Hv Ha t.
  generalize (entries (children node)). intros l. induction l as [|[c ch] l IHl]; intros t; [done|]. cbn [foldl fst snd].
  rewrite <- IHl. f_equal. rewrite <- (IH fuel ltac:(lia) ch (path ++ [c])). by rewrite last_snoc, take_init.
Qed.

(** The places are all of them, each once. *)
Lemma places_spec key : forall fuel node path p m, (height node <= fuel)%nat ->
  (p, m) ∈ places key fuel node path <-> exists q, p = path ++ q /\ node_at q node = Some m /\ at_target key p.
Proof.
  intros fuel. induction fuel as [fuel IH] using (well_founded_induction lt_wf). intros node path p m Hh.
  assert ((p, m) ∈ (if decide (at_target key path) then [(path, node)] else []) <-> p = path /\ m = node /\ at_target key p) as Hd.
  { case_decide; [rewrite list_elem_of_singleton|]; split; [intros [= -> ->]|intros (-> & -> & _)|intros ?%not_elem_of_nil|intros (-> & _ & ?)]; done. }
  assert ((p, m) ∈ places key fuel node path <-> (p = path /\ m = node /\ at_target key p) \/
    exists c ch, children node !! c = Some ch /\ exists q, p = (path ++ [c]) ++ q /\ node_at q ch = Some m /\ at_target key p) as ->.
  { destruct fuel as [|fuel]; cbn [places]; rewrite elem_of_app, Hd.
    - split; [intros [?|?%not_elem_of_nil]; [by left|done]|]. intros [?|(c & ch & Hc & _)]; [by left|].
      apply height_child in Hc. lia.
    - rewrite list_elem_of_bind. split.
      + intros [?|([c ch] & Hp & Hc)]; [by left|right]. rewrite entries_perm in Hc. apply elem_of_map_to_list in Hc.
        exists c, ch. split; [done|]. apply (IH fuel) in Hp; [done|lia|]. cbn. pose proof (height_child _ _ _ Hc). lia.
      + intros [?|(c & ch & Hc & Hq)]; [by left|right]. exists (c, ch). rewrite entries_perm, elem_of_map_to_list.
        split; [|done]. apply (IH fuel); [lia| |done]. cbn. pose proof (height_child _ _ _ Hc). lia. }
  split.
  - intros [(-> & -> & Ht)|(c & ch & Hc & q & -> & Hq & Ht)]; [exists []; by rewrite app_nil_r|].
    exists (c :: q). rewrite <- app_assoc. cbn. by rewrite Hc, <- app_assoc in *.
  - intros ([|c q] & -> & Hq & Ht); [left; rewrite app_nil_r in *; by injection Hq as ->|right]. cbn in Hq.
    destruct (children node !! c) as [ch|] eqn:Hc; [|done]. exists c, ch. split; [done|]. exists q. by rewrite <- app_assoc.
Qed.

Lemma places_once key : forall fuel node path, (height node <= fuel)%nat -> NoDup (map fst (places key fuel node path)).
Proof.
  intros fuel. induction fuel as [fuel IH] using (well_founded_induction lt_wf). intros node path Hh.
  assert (NoDup (map fst (if decide (at_target key path) then [(path, node)] else []))) as Hhead
    by (case_decide; repeat constructor; set_solver).
  destruct fuel as [|fuel]; cbn [places]; [by rewrite app_nil_r|]. rewrite map_app. apply NoDup_app. split; [done|].
  assert (forall e p, e ∈ entries (children node) -> p ∈ map fst (places key fuel e.2 (path ++ [e.1])) -> exists q, p = path ++ e.1 :: q) as Hp.
  { intros [c ch] p Hc Hin. rewrite entries_perm in Hc. apply elem_of_map_to_list in Hc. pose proof (height_child _ _ _ Hc).
    apply list_elem_of_fmap in Hin as ([p' m] & -> & Hin). apply places_spec in Hin as (q & -> & _); [|cbn; lia].
    exists q. cbn. by rewrite <- app_assoc. }
  replace (map fst (entries (children node) ≫= (fun e => places key fuel e.2 (path ++ [e.1]))))
    with (entries (children node) ≫= (fun e => map fst (places key fuel e.2 (path ++ [e.1])))).
  2: { generalize (entries (children node)). intros l. induction l as [|e l IHl]; [done|]. cbn. by rewrite map_app, IHl. }
  split.
  - intros p Hin. case_decide; [|by apply not_elem_of_nil in Hin]. apply list_elem_of_singleton in Hin. cbn in Hin. subst p.
    intros (e & Hin & He)%list_elem_of_bind. destruct (Hp e path He Hin) as [q E]. apply (f_equal length) in E.
    rewrite length_app in E. cbn in E. lia.
  - apply NoDup_bind.
    + intros [c1 ch1] [c2 ch2] p H1 H2 Hp1 Hp2. destruct (Hp _ _ H1 Hp1) as [q1 ->]. destruct (Hp _ _ H2 Hp2) as [q2 E].
      apply app_inv_head in E. injection E as -> _. rewrite entries_perm in H1, H2.
      apply elem_of_map_to_list in H1, H2. cbn in *. congruence.
    + intros [c ch] Hc. rewrite entries_perm in Hc. apply elem_of_map_to_list in Hc. pose proof (height_child _ _ _ Hc).
      apply IH; [lia|]. cbn. lia.
    + rewrite entries_perm. apply NoDup_map_to_list.
Qed.

(** The nodes with this chain of callers. *)
Definition called_along (path : list SymbolKey) (ms : list (list Z * StackNode)) : list StackNode :=
  map snd (filter (fun p => path `prefix_of` map key_at (callers_of p.1)) ms).

Definition trees_ok (ms : list (list Z * StackNode)) (t : Trees) : Prop :=
  holds (t_callers t) (fun path => match path with [] => [] | _ => called_along path ms end) /\
  holds (t_callees t) (fun path => match path with [] => [] | _ => along path (map snd ms) end) /\
  (forall k, timed k = true -> read_symbol k (t_own t) = sat_sum (read k) (map snd ms)).

Lemma visit_place_ok ms t p : tree_ok p.2 -> trees_ok ms t -> trees_ok (ms ++ [p]) (visit_place t p).
Proof.
  intros Hok (H1 & H2 & H3). unfold visit_place. split; [|split]; cbn [t_callers t_callees t_own].
  - eapply holds_ext; [|apply (holds_callers p.2 ltac:(intros k; by apply tree_ok_read) (callers_of p.1) _ _ H1)].
    intros [|key path]; cbn beta iota; [by rewrite bool_decide_eq_false_2 by naive_solver|]. unfold called_along.
    rewrite filter_app, map_app, filter_cons. f_equal. destruct (decide (key :: path `prefix_of` map key_at (callers_of p.1))).
    + by rewrite bool_decide_eq_true_2.
    + rewrite bool_decide_eq_false_2 by naive_solver. done.
  - eapply holds_ext; [|apply (holds_descendants (height p.2) p.2 _ _ (Nat.le_refl _) Hok H2)].
    intros [|key path]; cbn beta iota; [done|]. by rewrite map_app, along_app.
  - intros k Hk. rewrite read_accumulate, H3, map_app by done. by apply sat_sum_snoc, tree_ok_read.
Qed.

Lemma trees_ok_places ms : (forall p, p ∈ ms -> tree_ok p.2) ->
  trees_ok ms (foldl visit_place (mkTrees symbol_default symbol_default symbol_default) ms).
Proof.
  induction ms as [|p ms IH] using rev_ind; intros Hok.
  - split; [|split].
    + eapply holds_ext; [|exact holds_default]. by intros [|].
    + eapply holds_ext; [|exact holds_default]. intros [|key path]; [done|]. cbn [map]. by rewrite along_nil.
    + intros k _. by destruct k as [| |[]| | | |[]].
  - rewrite foldl_app. apply visit_place_ok; [apply Hok, elem_of_app; right; apply list_elem_of_here|].
    apply IH. intros q Hq. apply Hok, elem_of_app. by left.
Qed.

Lemma holds_stamp own a tree f l : holds tree f ->
  (forall k, timed k = true -> read_symbol k own = sat_sum (read k) l) ->
  holds (stamp own a tree) (fun path => match path with [] => l | _ => f path end).
Proof.
  intros Hf Hl [|key path].
  - split; [by left|]. intros k Hk. rewrite <- Hl by done. by destruct k.
  - exact (Hf (key :: path)).
Qed.

(** ** The trees as they are shown *)

(** A node of the view shows a node of symbols: its name, its counters, and below
    it those entries that are not shorter than the threshold, longest first. *)
Inductive shows (strs : list (list Z)) (threshold : Z) : SymbolKey * SymbolNode -> FlameNode -> Prop :=
  | shows_node e f l :
      node_key strs f = e.1 -> f_address f = sn_rep_address e.2 ->
      (forall k, timed k = true -> read_flame k f = read_symbol k e.2) ->
      l ≡ₚ filter (fun e => threshold <= symbol_total e.2) (map_to_list (sn_children e.2)) ->
      StronglySorted (fun a b => entry_cmp a b <> Gt) l ->
      Forall2 (shows strs threshold) l (f_children f) ->
      shows strs threshold e f.

#[local] Instance entry_ordered : Ordered entry_cmp.
Proof.
  unfold entry_cmp. apply then_ordered; [apply then_ordered|].
  - apply (reverse_key_ordered (fun e : SymbolKey * SymbolNode => symbol_total e.2)). apply _.
  - apply (key_ordered (fun e : SymbolKey * SymbolNode => e.1.1)). apply _.
  - apply (key_ordered (fun e : SymbolKey * SymbolNode => e.1.2)). apply _.
Qed.

Lemma symbol_height_child n k c : sn_children n !! k = Some c -> (symbol_height c < symbol_height n)%nat.
Proof. intros H. destruct n. by apply (map_fold_max_le (fun c => S (symbol_height c))) in H. Qed.

Lemma shown_entries_perm threshold n :
  shown_entries threshold n ≡ₚ filter (fun e => threshold <= symbol_total e.2) (map_to_list (sn_children n)).
Proof. unfold shown_entries. by rewrite sort_by_perm, entries_perm. Qed.

(** What showing an entry does to the string table, and what it shows then. *)
Definition shown_ok (threshold : Z) (e : SymbolKey * SymbolNode) (it : StringInterner) (x : FlameNode * StringInterner) : Prop :=
  table_grows it x.2 /\ forall strs, interner_ok it -> strings x.2 `prefix_of` strs -> Z.of_nat (length strs) <= 2 ^ 32 ->
    shows strs threshold e x.1.

Lemma children_shown threshold (show : SymbolKey * SymbolNode -> StringInterner -> FlameNode * StringInterner) l :
  (forall e it, e ∈ l -> shown_ok threshold e it (show e it)) -> forall fs it,
  let x := foldl (fun (acc : list FlameNode * StringInterner) c => let '(f, it) := show c acc.2 in (acc.1 ++ [f], it)) (fs, it) l in
  table_grows it x.2 /\ exists fs', x.1 = fs ++ fs' /\
    forall strs, interner_ok it -> strings x.2 `prefix_of` strs -> Z.of_nat (length strs) <= 2 ^ 32 ->
      Forall2 (shows strs threshold) l fs'.
Proof.
  induction l as [|e l IH]; intros Hshow fs it; cbn [foldl].
  - split; [done|]. exists []. cbn. rewrite app_nil_r. by split.
  - destruct (Hshow e it) as [G1 S1]; [apply list_elem_of_here|]. cbn [fst snd].
    destruct (show e it) as [f it1]. cbn [fst snd] in *.
    destruct (IH (fun e it He => Hshow e it (list_elem_of_further _ _ _ He)) (fs ++ [f]) it1) as (G2 & fs' & -> & S2).
    split; [by etransitivity|]. exists (f :: fs'). rewrite <- app_assoc. split; [done|].
    intros strs Hi Hp Hl. destruct G1 as [P1 K1], G2 as [P2 K2]. pose proof (prefix_length _ _ Hp). pose proof (prefix_length _ _ P2).
    constructor; [apply S1; [done|by etransitivity|done]|]. apply S2; [apply K1; [lia|done]|done..].
Qed.

Lemma finish_node_shown threshold e fs it it1 :
  table_grows it it1 ->
  (forall strs, interner_ok it -> strings it1 `prefix_of` strs -> Z.of_nat (length strs) <= 2 ^ 32 ->
     Forall2 (shows strs threshold) (shown_entries threshold e.2) fs) ->
  shown_ok threshold e it (finish_node e fs it1).
Proof.
  destruct e as [[fname bin] n]. intros G1 S1. unfold finish_node.
  pose proof (intern_opt_grows fname it1) as G2. pose proof (fun strs => intern_opt_resolves fname it1 strs) as R2.
  destruct (intern_opt fname it1) as [fn it2]. cbn [fst snd] in *.
  pose proof (intern_opt_grows bin it2) as G3. pose proof (fun strs => intern_opt_resolves bin it2 strs) as R3.
  destruct (intern_opt bin it2) as [bn it3]. cbn [fst snd] in *.
  pose proof (intern_grows (Demangle.as_str (sn_language n)) it3) as G4.
  destruct (intern (Demangle.as_str (sn_language n)) it3) as [lang it4]. cbn [fst snd] in *.
  split; cbn [fst snd]; [etransitivity; [exact G1|]; etransitivity; [exact G2|]; by etransitivity|].
  intros strs Hi Hp Hl. destruct G1 as [P1 K1], G2 as [P2 K2], G3 as [P3 K3], G4 as [P4 K4].
  pose proof (prefix_length _ _ Hp). pose proof (prefix_length _ _ P4). pose proof (prefix_length _ _ P3).
  pose proof (prefix_length _ _ P2).
  assert (strings it3 `prefix_of` strs) as Q3 by (by etransitivity). assert (strings it2 `prefix_of` strs) as Q2 by (by etransitivity).
  assert (strings it1 `prefix_of` strs) as Q1 by (by etransitivity).
  assert (interner_ok it1) as I1 by (apply K1; [lia|done]). assert (interner_ok it2) as I2 by (apply K2; [lia|done]).
  apply (shows_node _ _ _ _ (shown_entries threshold n)).
  - unfold node_key. cbn [f_function_name f_binary]. by rewrite R2, R3.
  - done.
  - by intros [].
  - apply shown_entries_perm.
  - apply (sort_by_le_of entry_cmp).
  - by apply S1.
Qed.

Lemma to_flame_node_shown threshold : forall fuel e it, (symbol_height e.2 <= fuel)%nat ->
  shown_ok threshold e it (to_flame_node fuel threshold e it).
Proof.
  induction fuel as [|fuel IH]; intros e it Hh.
  - apply finish_node_shown; [done|]. intros strs _ _ _.
    destruct (shown_entries threshold e.2) as [|x l] eqn:E; [constructor|]. exfalso.
    assert (x ∈ shown_entries threshold e.2) as Hx by (rewrite E; apply list_elem_of_here).
    rewrite shown_entries_perm in Hx. apply list_elem_of_filter in Hx as [_ Hx]. destruct x as [k c].
    apply elem_of_map_to_list, symbol_height_child in Hx. lia.
  - cbn [to_flame_node].
    destruct (children_shown threshold (to_flame_node fuel threshold) (shown_entries threshold e.2)) with (fs := @nil FlameNode) (it := it)
      as (G & fs' & Hfs & S).
    { intros [k c] it' Hx. rewrite shown_entries_perm in Hx. apply list_elem_of_filter in Hx as [_ Hx].
      apply elem_of_map_to_list, symbol_height_child in Hx. apply IH. cbn. lia. }
    destruct (foldl _ ([], it) (shown_entries threshold e.2)) as [fs it1]. cbn [fst snd app] in *. subst fs'.
    by apply finish_node_shown.
Qed.

Lemma tree_ok_at n path m : tree_ok n -> node_at path n = Some m -> tree_ok m.
Proof.
  revert n. induction path as [|a path IH]; intros n Hn; cbn; [by intros [= <-]|].
  destruct (children n !! a) as [c|] eqn:E; [|done]. intros Hm. eapply IH; [|exact Hm]. by eapply tree_ok_child.
Qed.

(** C31. The view of a function's neighbours is what the code adds up. Its places are the
    stacks of the tree that end in the function; its own data are the sums over all
    places, so that a stack on which the function calls itself counts once for each
    of its frames; the node at a chain of callers sums the places called along that
    chain, and the node at a chain of callees the nodes below any place along it.
    Both trees are shown with all entries of at least a 2000th of that own time, and
    at least a nanosecond, longest first, and all names read back. The protocol
    documents 0.5%, a 200th, and time that recursion does not multiply. *)
Theorem neighbors_exact root target :
  tree_ok root ->
  let u := compute_neighbors_update root target in
  let key := key_at target in
  Z.of_nat (length (nu_strings u)) <= 2 ^ 32 ->
  exists ms callers callees,
    NoDup (map fst ms) /\
    (forall path m, (path, m) ∈ ms <-> node_at path root = Some m /\ at_target key path) /\
    own_on_cpu_ns u = sat_sum (read OnCpuNs) (map snd ms) /\
    (forall r, read_reason r (own_off_cpu u) = sat_sum (read (OffCpuNs r)) (map snd ms)) /\
    own_pet_samples u = sat_sum (read PetSamples) (map snd ms) /\
    own_off_cpu_intervals u = sat_sum (read OffCpuIntervals) (map snd ms) /\
    holds callers (fun path => called_along path ms) /\
    holds callees (fun path => along path (map snd ms)) /\
    (let threshold := Z.max (sadd64 (own_on_cpu_ns u) (total_ns (own_off_cpu u)) / 2000) 1 in
     shows (nu_strings u) threshold (key, callers) (callers_tree u) /\
     shows (nu_strings u) threshold (key, callees) (callees_tree u)) /\
    (nu_function_name u ≫= string_at (nu_strings u), nu_binary u ≫= string_at (nu_strings u)) = key.
Proof.
  intros Hok u key. set (ms := places key (height root) root []).
  assert (forall path m, (path, m) ∈ ms <-> node_at path root = Some m /\ at_target key path) as Hms.
  { intros path m. unfold ms. rewrite places_spec by done. split; [by intros (q & -> & Hq & Ht)|]. intros [Hq Ht]. by exists path. }
  assert (forall p, p ∈ ms -> tree_ok p.2) as Htrees.
  { intros [path m] [Hm _]%Hms. by eapply tree_ok_at. }
  pose proof (trees_ok_places ms Htrees) as (Hcallers & Hcallees & Hown).
  assert (walk key (height root) root 0 [] (mkTrees symbol_default symbol_default symbol_default) =
          foldl visit_place (mkTrees symbol_default symbol_default symbol_default) ms) as Hwalk
    by exact (walk_places key (height root) root [] _).
  unfold u, compute_neighbors_update. fold (key_at target). fold key. cbv zeta. rewrite Hwalk.
  destruct (foldl visit_place _ ms) as [callers0 callees0 own]. cbn [t_callers t_callees t_own] in *.
  set (callers := stamp own target callers0). set (callees := stamp own target callees0).
  set (threshold := Z.max (symbol_total own / 2000) 1).
  pose proof (intern_opt_grows key.1 interner_new) as G1. pose proof (fun strs => intern_opt_resolves key.1 interner_new strs) as R1.
  destruct (intern_opt key.1 interner_new) as [fn it1]. cbn [fst snd] in *.
  pose proof (intern_opt_grows key.2 it1) as G2. pose proof (fun strs => intern_opt_resolves key.2 it1 strs) as R2.
  destruct (intern_opt key.2 it1) as [bn it2]. cbn [fst snd] in *.
  pose proof (intern_grows (Demangle.as_str (symbol_language (lookup_symbol target))) it2) as G3.
  destruct (intern _ it2) as [lang it3]. cbn [fst snd] in *.
  destruct (to_flame_node_shown threshold (symbol_height callers) (key, callers) it3 (Nat.le_refl _)) as [G4 S4].
  destruct (to_flame_node (symbol_height callers) threshold (key, callers) it3) as [callers_f it4]. cbn [fst snd] in *.
  destruct (to_flame_node_shown threshold (symbol_height callees) (key, callees) it4 (Nat.le_refl _)) as [G5 S5].
  destruct (to_flame_node (symbol_height callees) threshold (key, callees) it4) as [callees_f it5]. cbn [fst snd] in *.
  cbn [nu_strings nu_function_name nu_binary own_on_cpu_ns own_off_cpu own_pet_samples own_off_cpu_intervals callers_tree callees_tree].
  intros Hl. destruct G1 as [P1 K1], G2 as [P2 K2], G3 as [P3 K3], G4 as [P4 K4], G5 as [P5 K5].
  pose proof (prefix_length _ _ P5). pose proof (prefix_length _ _ P4). pose proof (prefix_length _ _ P3). pose proof (prefix_length _ _ P2).
  assert (interner_ok it1) as I1 by (apply K1; [lia|apply interner_new_ok]). assert (interner_ok it2) as I2 by (apply K2; [lia|done]).
  assert (interner_ok it3) as I3 by (apply K3; [lia|done]). assert (interner_ok it4) as I4 by (apply K4; [lia|done]).
  assert (strings it3 `prefix_of` strings it5) as Q3 by (by etransitivity).
  assert (strings it2 `prefix_of` strings it5) as Q2 by (by etransitivity).
  assert (strings it1 `prefix_of` strings it5) as Q1 by (by etransitivity).
  exists ms, callers, callees. split; [by apply places_once|]. split; [exact Hms|].
  split; [by apply (Hown OnCpuNs)|]. split; [intros r; by apply (Hown (OffCpuNs r))|]. split; [by apply (Hown PetSamples)|].
  split; [by apply (Hown OffCpuIntervals)|].
  split; [eapply holds_ext; [|exact (holds_stamp own target _ _ _ Hcallers Hown)]|].
  { intros [|k path]; [|done]. unfold called_along. rewrite filter_all; [done|]. apply Forall_forall. intros p _. apply prefix_nil. }
  split; [eapply holds_ext; [|exact (holds_stamp own target _ _ _ Hcallees Hown)]; by intros [|]|].
  split; [split; [by apply S4|by apply S5]|]. rewrite R1, R2; try done; [by destruct key|apply interner_new_ok].
Qed.
End Query.

(** ** Examples *)

#[local] Existing Instance canonical_order.
#[local] Existing Instance demo_table.

(** [f] also calls itself: it ran for 500 ns in all, and 100 of them are in two of
    its frames. *)
Definition demo_root : StackNode := flame_root Flame.demo_aggregation.

Lemma neighbors_exact_witness :
  let u := compute_neighbors_update demo_root 20 in
  exists ms : list (list Z * StackNode),
    NoDup (map fst ms) /\ own_on_cpu_ns u = sat_sum (read OnCpuNs) (map snd ms) /\ own_on_cpu_ns u = 600.
Proof.
  destruct (neighbors_exact demo_root 20) as (ms & callers & callees & H1 & _ & H3 & _).
  { apply (credits_tree_ok Flame.demo_stacks flame_demo_ok). }
  { vm_compute. congruence. }
  exists ms. split; [exact H1|]. split; [exact H3|]. vm_compute. reflexivity.
Defined.

(** So the function's own time is more than its caller spent in it. *)
Example recursion_counted_in_neighbors :
  (own_on_cpu_ns (compute_neighbors_update demo_root 20),
   map f_on_cpu_ns (f_children (fu_root (compute_flame_update Flame.demo_aggregation)))) = (600, [500]).
Proof. vm_compute. reflexivity. Qed.

(** An address nothing resolves stands for every address nothing resolves. *)
Example unresolved_neighbors_merge :
  own_pet_samples (compute_neighbors_update
    (apply_credits [CreditOn [1001; 10] 5 pmu_default false None; CreditOn [1002; 10] 7 pmu_default false None]).1 1001) = 2.
Proof. vm_compute. reflexivity. Qed.

End Neighbors.
