(* ===== verification/Annotate.v ===== *)
(** * Annotated disassembly

    [stax-live/src/highlight.rs] (the tokens of a highlighted line),
    [disassemble.rs] (the instructions of a function), [source.rs] (the source
    line of an instruction) and [compute_annotated_view] of [lib.rs], which puts
    them together.  The decoders, the highlighter's grammars, the debug-info
    reader and the disk are arguments. *)

From S2P Require Import Prelude Order Text Demangle Binaries.

(** ** Tokens *)
Module Highlight.

Import Order Text.

(** The classes of the theme and of the protocol. *)
Module ThemeSlot.
Inductive theme_slot :=
  | Keyword | Function_ | String_ | Comment | Type_ | Variable_ | Constant | Number | Operator | Punctuation | Property
  | Attribute | Tag | Macro | Label | Namespace | Constructor | Title | Strong | Emphasis | Link | Literal
  | Strikethrough | DiffAdd | DiffDelete | Embedded | Error | None_.
End ThemeSlot.

Module TokenClass.
Inductive token_class :=
  | Plain | Keyword | Function_ | String_ | Comment | Type_ | Variable_ | Constant | Number | Operator | Punctuation
  | Property | Attribute | Tag | Macro | Label | Namespace | Constructor | Title | Strong | Emphasis | Link | Literal
  | Strikethrough | DiffAdd | DiffDelete | Embedded | Error.
End TokenClass.

#[export] Instance token_class_eq_dec : EqDecision TokenClass.token_class.
Proof. solve_decision. Defined.

Record Token := mkToken { text : list Z; kind : TokenClass.token_class }.

(** A span of the highlighter: a range of bytes, the name of what it captures,
    and its priority. *)
Record Span := mkSpan { start : Z; end_ : Z; capture : list Z; pattern_index : Z }.

Definition slot_to_class (slot : ThemeSlot.theme_slot) : TokenClass.token_class :=
  match slot with
  | ThemeSlot.Keyword => TokenClass.Keyword
  | ThemeSlot.Function_ => TokenClass.Function_
  | ThemeSlot.String_ => TokenClass.String_
  | ThemeSlot.Comment => TokenClass.Comment
  | ThemeSlot.Type_ => TokenClass.Type_
  | ThemeSlot.Variable_ => TokenClass.Variable_
  | ThemeSlot.Constant => TokenClass.Constant
  | ThemeSlot.Number => TokenClass.Number
  | ThemeSlot.Operator => TokenClass.Operator
  | ThemeSlot.Punctuation => TokenClass.Punctuation
  | ThemeSlot.Property => TokenClass.Property
  | ThemeSlot.Attribute => TokenClass.Attribute
  | ThemeSlot.Tag => TokenClass.Tag
  | ThemeSlot.Macro => TokenClass.Macro
  | ThemeSlot.Label => TokenClass.Label
  | ThemeSlot.Namespace => TokenClass.Namespace
  | ThemeSlot.Constructor => TokenClass.Constructor
  | ThemeSlot.Title => TokenClass.Title
  | ThemeSlot.Strong => TokenClass.Strong
  | ThemeSlot.Emphasis => TokenClass.Emphasis
  | ThemeSlot.Link => TokenClass.Link
  | ThemeSlot.Literal => TokenClass.Literal
  | ThemeSlot.Strikethrough => TokenClass.Strikethrough
  | ThemeSlot.DiffAdd => TokenClass.DiffAdd
  | ThemeSlot.DiffDelete => TokenClass.DiffDelete
  | ThemeSlot.Embedded => TokenClass.Embedded
  | ThemeSlot.Error => TokenClass.Error
  | ThemeSlot.None_ => TokenClass.Plain
  end.

Definition plain (t : list Z) : list Token :=
  if bool_decide (t = []) then [] else [mkToken t TokenClass.Plain].

Definition push_run (out : list Token) (t : list Z) (k : TokenClass.token_class) : list Token :=
  if bool_decide (t = []) then out else
  match last out with
  | Some l => if bool_decide (kind l = k) then take (length out - 1) out ++ [mkToken (text l ++ t) (kind l)]
              else out ++ [mkToken t k]
  | None => [mkToken t k]
  end.

(** [&text[i..j]] *)
Definition str_slice (t : list Z) (i j : nat) : outcome (list Z) :=
  if bool_decide (i <= j /\ j <= length t)%nat && is_char_boundary t i && is_char_boundary t j
  then Ret (slice i j t) else Panic.

Definition span_cmp (a b : Span) : comparison :=
  then_with (start a ?= start b) (pattern_index b ?= pattern_index a).

(** What the highlighter library gives: the slot of a capture, and the spans of a
    text in a language. *)
Class Highlighter := {
  capture_to_slot : list Z -> ThemeSlot.theme_slot;
  highlight_spans : list Z -> list Z -> option (list Span)
}.

Section Tokens.
Context `{HL : Highlighter}.

Definition class_of (s : Span) : TokenClass.token_class := slot_to_class (capture_to_slot (capture s)).

Definition span_step (t : list Z) (acc : list Token * nat) (s : Span) : outcome (list Token * nat) :=
  let '(out, cursor) := acc in
  let start := Z.to_nat (start s) in
  let end_ := Z.to_nat (end_ s) in
  if decide (end_ <= cursor \/ length t <= start)%nat then Ret acc else
  let start := Nat.max start cursor in
  let end_ := Nat.min end_ (length t) in
  then_do (if decide (cursor < start)%nat
           then then_do (str_slice t cursor start) (fun gap => Ret (push_run out gap TokenClass.Plain))
           else Ret out) (fun out =>
  then_do (str_slice t start end_) (fun run => Ret (push_run out run (class_of s), end_))).

Fixpoint span_loop (t : list Z) (spans : list Span) (acc : list Token * nat) : outcome (list Token * nat) :=
  match spans with
  | [] => Ret acc
  | s :: spans => then_do (span_step t acc s) (span_loop t spans)
  end.

Definition spans_to_tokens (t : list Z) (spans : list Span) : outcome (list Token) :=
  if bool_decide (t = []) then Ret [] else
  if bool_decide (spans = []) then Ret (plain t) else
  then_do (span_loop t (sort_by (le_of span_cmp) spans) ([], 0%nat)) (fun '(out, cursor) =>
  if decide (cursor < length t)%nat
  then then_do (str_slice t cursor (length t)) (fun gap => Ret (push_run out gap TokenClass.Plain))
  else Ret out).

Definition highlight_in (lang t : list Z) : outcome (list Token) :=
  match highlight_spans lang t with
  | Some spans => spans_to_tokens t spans
  | None => Ret (plain t)
  end.

Definition highlight_line (asm : list Z) : outcome (list Token) := highlight_in (str "asm") asm.

(** ** What a line of tokens shows *)

(** Byte by byte: the byte and its class. *)
Definition shown (tokens : list Token) : list (Z * TokenClass.token_class) :=
  tokens ≫= (fun tok => map (fun b => (b, kind tok)) (text tok)).

Definition covers (i : nat) (s : Span) : bool := bool_decide (Z.to_nat (start s) <= i < Z.to_nat (end_ s))%nat.

(** The class of byte [i]: that of the first span, in the order of the sort, that
    covers it. *)
Definition class_at (sorted : list Span) (i : nat) : TokenClass.token_class :=
  match find (covers i) sorted with Some s => class_of s | None => TokenClass.Plain end.

Definition classified (sorted : list Span) (t : list Z) : list (Z * TokenClass.token_class) :=
  imap (fun i b => (b, class_at sorted i)) t.

(** No empty token, no two neighbours of one class. *)
Fixpoint coalesced (tokens : list Token) : Prop :=
  match tokens with
  | [] => True
  | a :: rest => text a <> [] /\ coalesced rest /\
                 match head rest with Some b => kind a <> kind b | None => True end
  end.

(** A span as a highlighter gives it: a range that starts and ends between
    characters. *)
Definition span_ok (t : list Z) (s : Span) : Prop :=
  0 <= start s <= end_ s /\
  ((Z.to_nat (start s) < length t)%nat -> is_char_boundary t (Z.to_nat (start s)) = true) /\
  ((Z.to_nat (end_ s) < length t)%nat -> is_char_boundary t (Z.to_nat (end_ s)) = true).

Lemma shown_app a b : shown (a ++ b) = shown a ++ shown b.
Proof. apply bind_app. Qed.

Lemma last_split (out : list Token) l : last out = Some l -> out = take (length out - 1) out ++ [l].
Proof.
  intros [rest ->]%last_Some. rewrite length_app, take_app_le by (cbn; lia). rewrite take_ge by (cbn; lia). done.
Qed.

Lemma push_run_shown out t k : shown (push_run out t k) = shown out ++ map (fun b => (b, k)) t.
Proof.
  unfold push_run. case_bool_decide as Ht; [subst; by rewrite app_nil_r|].
  destruct (last out) as [l|] eqn:El.
  - case_bool_decide as Hk; [|rewrite shown_app; cbn; by rewrite app_nil_r].
    rewrite (last_split _ _ El) at 3. rewrite !shown_app. cbn. subst k. rewrite !app_nil_r, map_app. by rewrite app_assoc.
  - apply last_None in El as ->. cbn. by rewrite app_nil_r.
Qed.

Lemma coalesced_snoc out a :
  coalesced (out ++ [a]) <->
  coalesced out /\ text a <> [] /\ match last out with Some l => kind l <> kind a | None => True end.
Proof.
  induction out as [|b out IH]; cbn [app coalesced]; [cbn; tauto|].
  rewrite IH. destruct out as [|c out]; cbn [app head last]; [cbn; tauto|]. tauto.
Qed.

Lemma push_run_coalesced out t k : coalesced out -> coalesced (push_run out t k).
Proof.
  intros H. unfold push_run. case_bool_decide as Ht; [done|]. destruct (last out) as [l|] eqn:El.
  - case_bool_decide as Hk.
    + rewrite (last_split _ _ El), coalesced_snoc in H. destruct H as (H & Hl & Hlast).
      apply coalesced_snoc. split; [done|]. cbn. split; [|done]. by intros [? ?]%app_eq_nil.
    + apply coalesced_snoc. by rewrite El.
  - by cbn.
Qed.

Lemma str_slice_ok t i j :
  (i <= j <= length t)%nat -> is_char_boundary t i = true -> is_char_boundary t j = true ->
  str_slice t i j = Ret (slice i j t).
Proof. intros H H1 H2. unfold str_slice. by rewrite bool_decide_eq_true_2, H1, H2 by lia. Qed.

Lemma take_slice {A} i j (l : list A) : (i <= j)%nat -> take i l ++ slice i j l = take j l.
Proof. intros H. unfold slice. rewrite <- (take_drop i (take j l)), take_take, skipn_firstn_comm. by rewrite Nat.min_l. Qed.

(** A run of one class. *)
Lemma classified_slice sorted t i j k :
  (forall n, (i <= n < j)%nat -> class_at sorted n = k) ->
  slice i j (classified sorted t) = map (fun b => (b, k)) (slice i j t).
Proof.
  intros H. apply list_eq. intros n. unfold slice, classified. rewrite list_lookup_fmap.
  destruct (decide (n < j - i)%nat).
  - rewrite !lookup_take_lt, !lookup_drop, list_lookup_imap by done. destruct (t !! (i + n)%nat); [|done]. cbn.
    by rewrite H by lia.
  - by rewrite !lookup_take_ge by lia.
Qed.

(** What the loop has done when the spans [before] are behind it. *)
Definition tokens_ok (sorted before : list Span) (t : list Z) (out : list Token) (cursor : nat) : Prop :=
  (cursor <= length t)%nat /\ is_char_boundary t cursor = true /\ coalesced out /\
  shown out = take cursor (classified sorted t) /\
  Forall (fun s => (Z.to_nat (start s) < length t)%nat -> (Nat.min (Z.to_nat (end_ s)) (length t) <= cursor)%nat) before.

(** One more run of a known class. *)
Lemma push_run_ok sorted before t out cursor next k :
  tokens_ok sorted before t out cursor -> (cursor <= next <= length t)%nat -> is_char_boundary t next = true ->
  (forall n, (cursor <= n < next)%nat -> class_at sorted n = k) ->
  str_slice t cursor next = Ret (slice cursor next t) /\
  tokens_ok sorted before t (push_run out (slice cursor next t) k) next.
Proof.
  intros (H1 & H2 & H3 & H4 & H5) Hn Hb Hk. split; [by apply str_slice_ok|].
  split; [lia|]. split; [done|]. split; [by apply push_run_coalesced|]. split.
  - rewrite push_run_shown, H4, <- (classified_slice sorted) by done. apply take_slice. lia.
  - eapply Forall_impl; [exact H5|]. cbn. intros s H Hs. specialize (H Hs). lia.
Qed.

(** No span covers what lies between the cursor and the next span. *)
Lemma gap_plain sorted before rest t out cursor n :
  sorted = before ++ rest -> tokens_ok sorted before t out cursor -> (cursor <= n < length t)%nat ->
  Forall (fun s => (n < Z.to_nat (start s))%nat) rest -> class_at sorted n = TokenClass.Plain.
Proof.
  intros -> (_ & _ & _ & _ & Hb) Hn Hr. unfold class_at.
  destruct (find (covers n) (before ++ rest)) as [s|] eqn:E; [|done].
  apply find_some in E as [Hin%list_elem_of_In Hc%bool_decide_eq_true]. apply elem_of_app in Hin as [Hin|Hin].
  - eapply Forall_forall in Hb; [|exact Hin]. cbn in Hb. lia.
  - eapply Forall_forall in Hr; [|exact Hin]. cbn in Hr. lia.
Qed.

Lemma find_app_none {A} (f : A -> bool) l1 l2 : find f l1 = None -> find f (l1 ++ l2) = find f l2.
Proof. induction l1 as [|x l1 IH]; cbn; [done|]. by destruct (f x). Qed.

(** What a span covers behind the cursor has its class. *)
Lemma run_class sorted before s rest t out cursor n :
  sorted = before ++ s :: rest -> tokens_ok sorted before t out cursor -> (cursor <= n < length t)%nat ->
  covers n s = true -> class_at sorted n = class_of s.
Proof.
  intros -> (_ & _ & _ & _ & Hb) Hn Hs. unfold class_at.
  assert (find (covers n) before = None) as Hnone.
  { apply eq_None_not_Some. intros [x Hx]. apply find_some in Hx as [Hin%list_elem_of_In Hc%bool_decide_eq_true].
    eapply Forall_forall in Hb; [|exact Hin]. cbn in Hb. lia. }
  rewrite find_app_none by done. cbn. by rewrite Hs.
Qed.

Lemma token_step_ok sorted before s rest t out cursor :
  sorted = before ++ s :: rest -> StronglySorted (fun a b => start a <= start b) sorted -> span_ok t s ->
  tokens_ok sorted before t out cursor ->
  exists out' cursor', span_step t (out, cursor) s = Ret (out', cursor') /\ tokens_ok sorted (before ++ [s]) t out' cursor'.
Proof.
  intros Hsorted Hs (Hrange & Hb1 & Hb2) Hok. unfold span_step. case_decide as Hskip.
  - exists out, cursor. split; [done|]. destruct Hok as (H1 & H2 & H3 & H4 & H5). split_and!; [done..|].
    apply Forall_app. split; [done|]. apply Forall_singleton. lia.
  - assert (cursor < Z.to_nat (end_ s) /\ Z.to_nat (start s) < length t)%nat as [Hend Hstart] by lia. set (from := Z.to_nat (start s)) in *. set (to := Z.to_nat (end_ s)) in *.
    assert (from <= to)%nat as Hft by lia. pose proof Hok as (Hcur & Hbc & _).
    assert (Forall (fun x => start s <= start x) (s :: rest)) as Hrest.
    { subst sorted. apply StronglySorted_app_1_r in Hs. inversion Hs. by constructor. }
    assert (exists out1, (if decide (cursor < Nat.max from cursor)%nat
              then then_do (str_slice t cursor (Nat.max from cursor)) (fun gap => Ret (push_run out gap TokenClass.Plain))
              else Ret out) = Ret out1 /\ tokens_ok sorted before t out1 (Nat.max from cursor)) as (out1 & -> & Hok1).
    { case_decide as Hgap.
      - rewrite Nat.max_l by lia. destruct (push_run_ok sorted before t out cursor from TokenClass.Plain) as [-> H];
          [done|lia|by apply Hb1; lia| |by eexists].
        intros n Hn. apply (gap_plain sorted before (s :: rest) t out cursor); [done..|lia|].
        eapply Forall_impl; [exact Hrest|]. cbn. lia.
      - rewrite Nat.max_r by lia. by exists out. }
    cbn [then_do]. destruct (push_run_ok sorted before t out1 (Nat.max from cursor) (Nat.min to (length t)) (class_of s))
      as [-> (H1 & H2 & H3 & H4 & H5)]; [done|lia| | |].
    + destruct (Nat.min_spec to (length t)) as [[Hlt ->]|[_ ->]]; [by apply Hb2|apply boundary_end].
    + intros n Hn. apply (run_class sorted before s rest t out1 (Nat.max from cursor)); [done..|lia|].
      apply bool_decide_eq_true_2. lia.
    + cbn [then_do]. eexists _, _. split; [done|]. split_and!; [done..|]. apply Forall_app. split; [done|].
      apply Forall_singleton. unfold to. lia.
Qed.

Lemma token_loop_ok sorted rest t : forall before out cursor,
  sorted = before ++ rest -> StronglySorted (fun a b => start a <= start b) sorted -> Forall (span_ok t) rest ->
  tokens_ok sorted before t out cursor ->
  exists out' cursor', span_loop t rest (out, cursor) = Ret (out', cursor') /\ tokens_ok sorted sorted t out' cursor'.
Proof.
  induction rest as [|s rest IH]; intros before out cursor Hsorted Hs Hspans Hok.
  - exists out, cursor. split; [done|]. by rewrite Hsorted, app_nil_r in *.
  - apply Forall_cons in Hspans as [H1 H2].
    destruct (token_step_ok sorted before s rest t out cursor Hsorted Hs H1 Hok) as (out' & cursor' & Hstep & Hok').
    destruct (IH (before ++ [s]) out' cursor') as (out2 & cursor2 & Hl & Hok2); [by rewrite <- app_assoc|done..|].
    exists out2, cursor2. split; [|done]. cbn [span_loop]. rewrite Hstep. exact Hl.
Qed.

#[local] Instance span_ordered : Ordered span_cmp.
Proof.
  unfold span_cmp. apply then_ordered; [apply (key_ordered start)|apply (reverse_key_ordered pattern_index)]; apply _.
Qed.

Lemma spans_sorted spans : StronglySorted (fun a b => start a <= start b) (sort_by (le_of span_cmp) spans).
Proof.
  eapply StronglySorted_weaken; [|apply (sort_by_le_of span_cmp)]. intros a b. unfold span_cmp, then_with. cbn.
  destruct (start a ?= start b) eqn:E; [apply Z.compare_eq_iff in E; lia|rewrite Z.compare_lt_iff in E; lia|done].
Qed.

(** Highlighting loses nothing: for spans that lie between characters it
    returns, every byte of the line is shown once, in order, in the class of the
    span that covers it (of several the one that starts first, and of those with
    one start that of the highest priority), and bytes without a span are plain;
    no token is empty and neighbours differ in class. *)
Theorem spans_to_tokens_exact t spans :
  Forall (span_ok t) spans ->
  exists tokens, spans_to_tokens t spans = Ret tokens /\
    shown tokens = classified (sort_by (le_of span_cmp) spans) t /\ coalesced tokens.
Proof.
  intros Hspans. unfold spans_to_tokens. case_bool_decide as Ht; [subst; by eexists|].
  case_bool_decide as He.
  { subst spans. eexists. split; [done|]. unfold plain. rewrite bool_decide_eq_false_2 by done. split; [|by cbn].
    cbn. rewrite app_nil_r. unfold classified. apply list_eq. intros n. rewrite list_lookup_fmap, list_lookup_imap. done. }
  set (sorted := sort_by (le_of span_cmp) spans).
  destruct (token_loop_ok sorted sorted t [] [] 0%nat) as (out & cursor & Hl & Hok);
    [done|apply spans_sorted|by unfold sorted; rewrite sort_by_perm| |].
  { split_and!; [lia|apply boundary_start|done|done|constructor]. }
  rewrite Hl. cbn [then_do]. assert (length (classified sorted t) = length t) as Hlen by apply length_imap.
  case_decide as Hc.
  - destruct (push_run_ok sorted sorted t out cursor (length t) TokenClass.Plain) as [-> (_ & _ & H3 & H4 & _)];
      [done|lia|apply boundary_end| |].
    + intros n Hn. apply (gap_plain sorted sorted [] t out cursor); [by rewrite app_nil_r|done|lia|constructor].
    + eexists. split; [done|]. split; [|done]. rewrite H4. by rewrite take_ge by lia.
  - destruct Hok as (_ & _ & H3 & H4 & _). eexists. split; [done|]. split; [|done]. rewrite H4. by rewrite take_ge by lia.
Qed.
End Tokens.

(** A highlighter whose spans lie between characters. *)
Class HighlighterLaws `{HL : Highlighter} := {
  spans_between : forall lang t spans, highlight_spans lang t = Some spans -> Forall (span_ok t) spans
}.

Lemma highlight_in_exact `{HighlighterLaws} lang t :
  exists tokens, highlight_in lang t = Ret tokens /\ map fst (shown tokens) = t /\ coalesced tokens.
Proof.
  unfold highlight_in. destruct (highlight_spans lang t) as [spans|] eqn:E.
  - destruct (spans_to_tokens_exact t spans) as (tokens & H1 & H2 & H3); [by eapply spans_between|].
    exists tokens. split; [done|]. split; [|done]. rewrite H2. apply list_eq. intros n. unfold classified.
    rewrite list_lookup_fmap, list_lookup_imap. by destruct (t !! n).
  - exists (plain t). split; [done|]. unfold plain. case_bool_decide as Ht; [by subst|]. cbn. rewrite app_nil_r, map_map, map_id.
    by split_and!.
Qed.

(** ** Examples *)

(** A language in which the name of a capture says what it is. *)
Definition demo_highlighter (spans : list Span) : Highlighter := {|
  capture_to_slot := fun c => if bool_decide (c = str "string") then ThemeSlot.String_ else ThemeSlot.Keyword;
  highlight_spans := fun _ _ => Some spans
|}.

(** A span inside another is not shown, whatever its priority. *)
Example nested_span_hidden :
  let _ := demo_highlighter [] in
  spans_to_tokens (str "a b c") [mkSpan 0 5 (str "string") 1; mkSpan 2 3 (str "keyword") 9] =
  Ret [mkToken (str "a b c") TokenClass.String_].
Proof. vm_compute. reflexivity. Qed.

Lemma spans_to_tokens_exact_witness :
  let _ := demo_highlighter [] in
  exists tokens, spans_to_tokens (str "mov x") [mkSpan 0 3 (str "keyword") 0] = Ret tokens /\
    map snd (shown tokens) = [TokenClass.Keyword; TokenClass.Keyword; TokenClass.Keyword; TokenClass.Plain; TokenClass.Plain].
Proof.
  destruct (spans_to_tokens_exact (HL := demo_highlighter []) (str "mov x") [mkSpan 0 3 (str "keyword") 0]) as (tokens & H1 & H2 & _).
  { repeat constructor; vm_compute; congruence. }
  exists tokens. split; [exact H1|]. rewrite H2. vm_compute. reflexivity.
Defined.

End Highlight.

(** ** Instructions *)
Module Disassemble.

Import Highlight.
Module Bin := Binaries.Binaries.

Record SourceHeader := mkSourceHeader { file : list Z; line : Z; tokens : list Token }.

Record AnnotatedLine := mkAnnotatedLine {
  address : Z;
  line_tokens : list Token;
  self_on_cpu_ns : Z;
  self_pet_samples : Z;
  source_header : option SourceHeader
}.

#[export] Instance eta_AnnotatedLine : Eta AnnotatedLine := fun l =>
  mkAnnotatedLine (address l) (line_tokens l) (self_on_cpu_ns l) (self_pet_samples l) (source_header l).

(** A decoder library: the instruction at the front of some bytes or its error,
    both with the text they are shown as. *)
Class Decoder := {
  Instr : Type;
  decode : list Z -> Instr + list Z;
  show : Instr -> list Z;
  instr_len : Instr -> nat
}.

(** [host_arch]: by the target the profiler is compiled for. *)
Definition host_arch (target_arch : list Z) : list Z :=
  if bool_decide (target_arch = str "aarch64") then str "aarch64"
  else if bool_decide (target_arch = str "x86_64") then str "amd64"
  else str "unknown".

Inductive Arch := Aarch64 | Amd64.

(** The arms of the match on the name of the architecture. *)
Definition arch_arm (arch : list Z) : option Arch :=
  if bool_decide (arch ∈ [str "aarch64"; str "arm64"; str "arm64e"]) then Some Aarch64
  else if bool_decide (arch ∈ [str "amd64"; str "x86_64"; str "x86_64h"]) then Some Amd64
  else None.

Definition decode_error (err : list Z) : list Z := str "<decode error: " ++ err ++ str ">".

Section Lines.
Context `{HL : Highlighter}.

(** The two counters of an address, and the highlighted text. *)
Definition asm_line (self_lookup : Z -> Z * Z) (addr : Z) (asm : list Z) : outcome AnnotatedLine :=
  then_do (highlight_line asm) (fun toks => Ret (mkAnnotatedLine addr toks (self_lookup addr).1 (self_lookup addr).2 None)).

Section Aarch64.
Context (A64 : Decoder) (base : Z) (self_lookup : Z -> Z * Z).

Fixpoint aarch64_loop (bytes : list Z) (offset : Z) : outcome (list AnnotatedLine) :=
  match bytes with
  | b0 :: b1 :: b2 :: b3 :: rest =>
      let asm := match decode [b0; b1; b2; b3] with inl instr => show instr | inr err => decode_error err end in
      then_do (asm_line self_lookup (wadd64 base offset) asm) (fun l =>
      then_do (aarch64_loop rest (offset + 4)) (fun out => Ret (l :: out)))
  | _ => Ret []
  end.
End Aarch64.

Section Amd64.
Context (AMD64 : Decoder) (base : Z) (self_lookup : Z -> Z * Z).

(** One turn per byte is enough: each takes at least one. *)
Fixpoint amd64_loop (fuel : nat) (bytes : list Z) (offset : Z) : outcome (list AnnotatedLine) :=
  match fuel, bytes with
  | S fuel, _ :: _ =>
      let '(asm, len) := match decode bytes with
                         | inl instr => (show instr, Nat.max (instr_len instr) 1)
                         | inr err => (decode_error err, 1%nat)
                         end in
      then_do (asm_line self_lookup (wadd64 base offset) asm) (fun l =>
      then_do (amd64_loop fuel (drop len bytes) (offset + Z.of_nat len)) (fun out => Ret (l :: out)))
  | _, _ => Ret []
  end.
End Amd64.

Definition disassemble_aarch64 (A64 : Decoder) (r : Bin.ResolvedAddress) (self_lookup : Z -> Z * Z) :
    outcome (list AnnotatedLine) :=
  aarch64_loop A64 (Bin.base_address r) self_lookup (Bin.ra_bytes r) 0.

Definition disassemble_amd64 (AMD64 : Decoder) (r : Bin.ResolvedAddress) (self_lookup : Z -> Z * Z) :
    outcome (list AnnotatedLine) :=
  amd64_loop AMD64 (Bin.base_address r) self_lookup (length (Bin.ra_bytes r)) (Bin.ra_bytes r) 0.

Definition disassemble (A64 AMD64 : Decoder) (target_arch : list Z) (r : Bin.ResolvedAddress) (self_lookup : Z -> Z * Z)
    : outcome (list AnnotatedLine) :=
  match arch_arm (default (host_arch target_arch) (Bin.ra_arch r)) with
  | Some Aarch64 => disassemble_aarch64 A64 r self_lookup
  | Some Amd64 => disassemble_amd64 AMD64 r self_lookup
  | None => Ret []
  end.
End Lines.

(** ** What is listed *)

(** A line shows an address with its counters and, byte by byte, a text. *)
Definition line_shows (self_lookup : Z -> Z * Z) (addr : Z) (asm : list Z) (l : AnnotatedLine) : Prop :=
  address l = addr /\ (self_on_cpu_ns l, self_pet_samples l) = self_lookup addr /\
  map fst (shown (line_tokens l)) = asm /\ source_header l = None.

Lemma asm_line_shows `{HighlighterLaws} self_lookup addr asm :
  exists l, asm_line self_lookup addr asm = Ret l /\ line_shows self_lookup addr asm l.
Proof.
  unfold asm_line, highlight_line. destruct (highlight_in_exact (str "asm") asm) as (toks & -> & H1 & _). cbn.
  eexists. split; [done|]. unfold line_shows. cbn. by destruct (self_lookup addr).
Qed.

(** The text of a word of aarch64 code. *)
Definition word_text (A64 : Decoder) (word : list Z) : list Z :=
  match decode word with inl instr => show instr | inr err => decode_error err end.

Lemma list_split4 (bytes : list Z) :
  (exists b0 b1 b2 b3 rest, bytes = b0 :: b1 :: b2 :: b3 :: rest) \/ (length bytes < 4)%nat.
Proof. destruct bytes as [|b0 [|b1 [|b2 [|b3 rest]]]]; try (right; cbn; lia). left. by repeat eexists. Qed.

Lemma aarch64_loop_exact `{HighlighterLaws} A64 base self_lookup : forall n bytes offset,
  (length bytes <= n)%nat ->
  exists out, aarch64_loop A64 base self_lookup bytes offset = Ret out /\ length out = (length bytes / 4)%nat /\
    forall k l, out !! k = Some l ->
      line_shows self_lookup (wadd64 base (offset + 4 * Z.of_nat k)) (word_text A64 (take 4 (drop (4 * k) bytes))) l.
Proof.
  induction n as [|n IH]; intros bytes offset Hn; destruct (list_split4 bytes) as [(b0 & b1 & b2 & b3 & rest & ->)|Hshort].
  - cbn in Hn. lia.
  - exists []. destruct bytes; [|cbn in Hn; lia]. by split_and!.
  - cbn [aarch64_loop]. cbn [length] in Hn. fold (word_text A64 [b0; b1; b2; b3]).
    destruct (asm_line_shows self_lookup (wadd64 base offset) (word_text A64 [b0; b1; b2; b3])) as (l & -> & Hl). cbn [then_do].
    destruct (IH rest (offset + 4)) as (out & -> & Hlen & Hout); [lia|]. cbn [then_do].
    exists (l :: out). split; [done|]. cbn [length]. split.
    { replace (S (S (S (S (length rest))))) with (length rest + 1 * 4)%nat by lia. rewrite Nat.div_add by lia. lia. }
    intros [|k] l'; cbn [lookup list_lookup].
    + intros [= <-]. replace (offset + 4 * Z.of_nat 0) with offset by lia. exact Hl.
    + intros Hk. specialize (Hout k l' Hk). replace (4 * S k)%nat with (S (S (S (S (4 * k))))) by lia. cbn [drop].
      by replace (offset + 4 * Z.of_nat (S k)) with (offset + 4 + 4 * Z.of_nat k) by lia.
  - exists []. split; [by destruct bytes as [|? [|? [|? [|]]]]; cbn in *; try lia|]. split; [|done].
    symmetry. by apply Nat.div_small.
Qed.

(** The lengths of the instructions that amd64 code is cut into. *)
Definition amd64_len (AMD64 : Decoder) (bytes : list Z) : nat :=
  match decode bytes with inl instr => Nat.max (instr_len instr) 1 | inr _ => 1 end.

Definition amd64_text (AMD64 : Decoder) (bytes : list Z) : list Z :=
  match decode bytes with inl instr => show instr | inr err => decode_error err end.

(** Offsets of instructions: each starts where the one before it ends. *)
Fixpoint amd64_offsets (AMD64 : Decoder) (fuel : nat) (bytes : list Z) (offset : nat) : list nat :=
  match fuel, bytes with
  | S fuel, _ :: _ => offset :: amd64_offsets AMD64 fuel (drop (amd64_len AMD64 bytes) bytes) (offset + amd64_len AMD64 bytes)
  | _, _ => []
  end.

Lemma amd64_loop_exact `{HighlighterLaws} AMD64 base self_lookup all : forall fuel bytes offset,
  (length bytes <= fuel)%nat -> bytes = drop offset all ->
  exists out, amd64_loop AMD64 base self_lookup fuel bytes (Z.of_nat offset) = Ret out /\
    Forall2 (fun o l => line_shows self_lookup (wadd64 base (Z.of_nat o)) (amd64_text AMD64 (drop o all)) l)
      (amd64_offsets AMD64 fuel bytes offset) out.
Proof.
  induction fuel as [|fuel IH]; intros bytes offset Hf Hb.
  - exists []. by destruct bytes; [|cbn in Hf; lia].
  - destruct bytes as [|b rest]; [by exists []|]. cbn [amd64_loop amd64_offsets]. set (bs := b :: rest) in *.
    replace (match decode bs with inl instr => (show instr, Nat.max (instr_len instr) 1) | inr err => (decode_error err, 1%nat) end)
      with (amd64_text AMD64 bs, amd64_len AMD64 bs) by (unfold amd64_text, amd64_len; by destruct (decode bs)).
    destruct (asm_line_shows self_lookup (wadd64 base (Z.of_nat offset)) (amd64_text AMD64 bs)) as (l & -> & Hl). cbn [then_do].
    assert (1 <= amd64_len AMD64 bs)%nat as Hpos by (unfold amd64_len; destruct (decode bs); lia).
    destruct (IH (drop (amd64_len AMD64 bs) bs) (offset + amd64_len AMD64 bs)%nat) as (out & Hout & Hall).
    { rewrite length_drop. lia. }
    { by rewrite Hb, drop_drop. }
    rewrite Nat2Z.inj_add in Hout. rewrite Hout. cbn [then_do]. exists (l :: out). split; [done|]. constructor; [|done].
    by rewrite <- Hb.
Qed.

(** More turns than bytes change nothing. *)
Lemma amd64_offsets_fuel AMD64 : forall fuel fuel' bytes offset,
  (length bytes <= fuel)%nat -> (length bytes <= fuel')%nat ->
  amd64_offsets AMD64 fuel bytes offset = amd64_offsets AMD64 fuel' bytes offset.
Proof.
  induction fuel as [|fuel IH]; intros fuel' bytes offset H1 H2.
  - destruct bytes; [|cbn in H1; lia]. by destruct fuel'.
  - destruct bytes as [|b bytes], fuel' as [|fuel']; cbn [length] in *; try lia; try done. cbn [amd64_offsets]. f_equal.
    apply IH; rewrite length_drop; unfold amd64_len; cbn [length]; destruct (decode _); lia.
Qed.

(** Disassembly always ends and misses nothing: aarch64 code is listed word
    by word, amd64 code instruction by instruction, each starting where the one
    before it ends, up to the end of the bytes; every line carries the counters of
    its address and the whole text of its instruction or of its decode error. *)
Theorem disassemble_exact `{HighlighterLaws} A64 AMD64 target_arch r self_lookup :
  let bytes := Bin.ra_bytes r in
  exists out, disassemble A64 AMD64 target_arch r self_lookup = Ret out /\
    match arch_arm (default (host_arch target_arch) (Bin.ra_arch r)) with
    | Some Aarch64 => length out = (length bytes / 4)%nat /\
        forall k l, out !! k = Some l ->
          line_shows self_lookup (wadd64 (Bin.base_address r) (4 * Z.of_nat k)) (word_text A64 (take 4 (drop (4 * k) bytes))) l
    | Some Amd64 => forall fuel, (length bytes <= fuel)%nat ->
        Forall2 (fun o l => line_shows self_lookup (wadd64 (Bin.base_address r) (Z.of_nat o)) (amd64_text AMD64 (drop o bytes)) l)
          (amd64_offsets AMD64 fuel bytes 0) out
    | None => out = []
    end.
Proof.
  cbn zeta. unfold disassemble. destruct (arch_arm _) as [[|]|].
  - destruct (aarch64_loop_exact A64 (Bin.base_address r) self_lookup _ (Bin.ra_bytes r) 0 (Nat.le_refl _)) as (out & H1 & H2 & H3).
    by exists out.
  - destruct (amd64_loop_exact AMD64 (Bin.base_address r) self_lookup (Bin.ra_bytes r) _ (Bin.ra_bytes r) 0%nat (Nat.le_refl _) eq_refl)
      as (out & H1 & H2). exists out. split; [exact H1|]. intros fuel Hf. by rewrite (amd64_offsets_fuel _ fuel (length (Bin.ra_bytes r))).
  - by exists [].
Qed.

End Disassemble.

(** ** Source lines *)
Module Source.

Import Order Text Highlight.
Module Bin := Binaries.Binaries.

Record LineRecord := mkLineRecord { lr_start : Z; lr_end : option Z; lr_file : list Z; lr_line : Z }.

Record LineTable := mkLineTable { table_lines : list LineRecord }.

(** What the debug-info library reports of a function: its compilation directory
    and its lines. *)
Record DebugLine := mkDebugLine { dl_address : Z; dl_size : option Z; dl_line : Z; dl_path : list Z }.
Record DebugFunction := mkDebugFunction { df_compilation_dir : list Z; df_lines : list DebugLine }.

(** A path that is absolute, and [Path::join]. *)
Definition is_absolute (path : list Z) : bool := starts_with (str "/") path.

Definition path_join (dir path : list Z) : list Z :=
  if is_absolute path then path
  else dir ++ (if bool_decide (dir = [] \/ last dir = Some 47) then [] else str "/") ++ path.

Definition join_compilation_dir (compilation_dir file : list Z) : list Z :=
  if is_absolute file then file
  else if bool_decide (compilation_dir = []) then file
  else path_join compilation_dir file.

Definition line_record (compilation_dir : list Z) (l : DebugLine) : option LineRecord :=
  if decide (0 < dl_line l < 2 ^ 32) then
    let end_ := end_ ← (size ← dl_size l; Bin.checked_add (dl_address l) size);
                if decide (dl_address l < end_) then Some end_ else None in
    Some (mkLineRecord (dl_address l) end_ (join_compilation_dir compilation_dir (dl_path l)) (dl_line l))
  else None.

Definition function_lines (f : DebugFunction) : list LineRecord :=
  omap (line_record (as_bytes (from_utf8_lossy (df_compilation_dir f)))) (df_lines f).

Definition line_cmp (a b : LineRecord) : comparison := lr_start a ?= lr_start b.

(** What the source resolver calls: the debug-info reader on the bytes of an
    image, with an error in place of a function it could not read; reading a text
    file; [rustc --print sysroot]; and the language of a file name. *)
Class System := {
  debug_functions : list Z -> option (list (option DebugFunction));
  read_to_string : list Z -> option (list Z);
  rust_sysroot : option (list Z);
  detect_language : list Z -> option (list Z)
}.

Record SourceResolver := mkSourceResolver {
  line_tables : gmap (list Z) (option LineTable);
  sources : gmap (list Z) (option (list (list Z)))
}.

#[export] Instance eta_SourceResolver : Eta SourceResolver := fun r =>
  mkSourceResolver (line_tables r) (sources r).

Definition resolver_new : SourceResolver := mkSourceResolver ∅ ∅.

Section Resolver.
Context `{HL : Highlighter} `{Sys : System} `{Search : BinarySearch}.

(** [LineTable::build] *)
Definition build (bytes : list Z) : option LineTable :=
  functions ← debug_functions bytes;
  functions ← mapM (fun f => f) functions;
  let records := functions ≫= function_lines in
  if bool_decide (records = []) then None else Some (mkLineTable (sort_by (le_of line_cmp) records)).

Definition find_location (t : LineTable) (addr : Z) : option (list Z * Z) :=
  idx ← last_not_above (map lr_start (table_lines t)) addr;
  l ← table_lines t !! idx;
  let end_ := match lr_end l with Some e => Some e | None => lr_start <$> table_lines t !! S idx end in
  match end_ with
  | Some e => if bool_decide (e <= addr) then None else Some (lr_file l, lr_line l)
  | None => Some (lr_file l, lr_line l)
  end.

Definition locate (binary_path : list Z) (image : Bin.CodeImage) (svma : Z) (r : SourceResolver)
    : SourceResolver * option (list Z * Z) :=
  let r := match line_tables r !! binary_path with
           | Some _ => r
           | None => r <| line_tables ::= <[binary_path := build (Bin.bytes image)]> |>
           end in
  (r, t ← line_tables r !! binary_path; t ← t; find_location t svma).

Definition rust_src_translate (file : list Z) : option (list Z) :=
  rest ← strip_prefix (str "/rustc/") file;
  '(_, rel) ← split_once (fun c => bool_decide (c = 47)) rest;
  sysroot ← rust_sysroot;
  Some (path_join (path_join sysroot (str "lib/rustlib/src/rust")) rel).

Definition read_source (file : list Z) : option (list Z) :=
  match read_to_string file with
  | Some s => Some s
  | None => path ← rust_src_translate file; read_to_string path
  end.

Definition source_lines (file : list Z) (r : SourceResolver) : SourceResolver * option (list (list Z)) :=
  match sources r !! file with
  | Some entry => (r, entry)
  | None => let loaded := lines <$> read_source file in (r <| sources ::= <[file := loaded]> |>, loaded)
  end.

Definition snippet (file : list Z) (line : Z) (r : SourceResolver) : outcome (SourceResolver * list Token) :=
  let '(r, ls) := source_lines file r in
  match ls ≫= (fun v => v !! Z.to_nat (ssub line 1)) with
  | Some s => then_do (highlight_in (default (str "rust") (detect_language file)) (as_bytes (trim s))) (fun toks => Ret (r, toks))
  | None => Ret (r, [])
  end.

(** ** Where an address comes from *)

(** The records are in order and no two start at one address. *)
Definition table_ok (t : LineTable) : Prop := StronglySorted (fun a b => lr_start a < lr_start b) (table_lines t).

(** The record before an address, if it reaches it. *)
Definition recorded (t : LineTable) (addr : Z) (l : LineRecord) : Prop :=
  exists i, table_lines t !! i = Some l /\ lr_start l <= addr /\ (forall next, table_lines t !! S i = Some next -> addr < lr_start next) /\
    (forall e, lr_end l = Some e -> addr < e).

Lemma starts_sorted t : table_ok t -> StronglySorted Z.lt (map lr_start (table_lines t)).
Proof. destruct t as [t]. unfold table_ok. cbn. induction 1 as [|l t _ IH Hl]; cbn; constructor; [done|]. by apply Forall_fmap. Qed.

(** The location of an address is that of the last record that starts at or
    before it, unless that record ends before the address. *)
Theorem find_location_exact t addr loc :
  table_ok t -> find_location t addr = Some loc <-> exists l, recorded t addr l /\ loc = (lr_file l, lr_line l).
Proof.
  intros Ht. pose proof (starts_sorted t Ht) as Hlt. destruct t as [t]. cbn [table_lines] in *. pose proof (last_not_above_spec _ addr Hlt) as Hs. unfold find_location, recorded. cbn [table_lines].
  destruct (last_not_above _ addr) as [i|]; cbn [mbind option_bind].
  - destruct Hs as (x & Hx & Hxa & Hnext). rewrite list_lookup_fmap in Hx. destruct (t !! i) as [l|] eqn:El; [|done].
    injection Hx as <-. cbn [mbind option_bind].
    assert (forall next, t !! S i = Some next -> addr < lr_start next) as Hn.
    { intros next Hi. apply Hnext. by rewrite list_lookup_fmap, Hi. }
    assert (forall l', recorded (mkLineTable t) addr l' -> l' = l) as Huniq.
    { intros l' (j & Hj & Hja & Hjn & _). cbn [table_lines] in Hj, Hjn. enough (i = j) by congruence.
      destruct (Nat.lt_trichotomy i j) as [Hij|[|Hij]]; [exfalso| done|exfalso].
      - destruct (lookup_lt_is_Some_2 t (S i)) as [n Hn']; [apply lookup_lt_Some in Hj; lia|]. specialize (Hn n Hn').
        destruct (decide (S i = j)) as [<-|]; [simplify_eq; lia|].
        pose proof (StronglySorted_lookup_lt _ _ (S i) j _ _ Ht Hn' Hj ltac:(lia)). cbn in *. lia.
      - destruct (lookup_lt_is_Some_2 t (S j)) as [n Hn']; [apply lookup_lt_Some in El; lia|]. specialize (Hjn n Hn').
        destruct (decide (S j = i)) as [<-|]; [simplify_eq; lia|].
        pose proof (StronglySorted_lookup_lt _ _ (S j) i _ _ Ht Hn' El ltac:(lia)). cbn in *. lia. }
    transitivity (loc = (lr_file l, lr_line l) /\ forall e, lr_end l = Some e -> addr < e).
    + destruct (lr_end l) as [e|] eqn:Ee.
      * case_bool_decide as He.
        { split; [done|]. intros [_ H]. specialize (H e eq_refl). lia. }
        split; [|naive_solver]. intros [= <-]. split; [done|]. intros ? [= <-]. lia.
      * destruct (t !! S i) as [n|] eqn:En; cbn; [|naive_solver].
        specialize (Hn n eq_refl). rewrite bool_decide_eq_false_2 by lia. naive_solver.
    + split; [intros [-> He]; exists l; split; [|done]; exists i; split_and!; [done| |done|done]; lia|]. intros (l' & Hl' & ->).
      pose proof (Huniq l' Hl'). subst l'. split; [done|]. destruct Hl' as (j & _ & _ & _ & He). exact He.
  - split; [done|]. intros (l & (j & Hj & Hja & _) & _). rewrite Forall_lookup in Hs. specialize (Hs j (lr_start l)).
    rewrite list_lookup_fmap, Hj in Hs. specialize (Hs eq_refl). lia.
Qed.

(** The table of a binary: the one it was given first. *)
Definition table_of (binary_path : list Z) (image : Bin.CodeImage) (r : SourceResolver) : option LineTable :=
  match line_tables r !! binary_path with Some t => t | None => build (Bin.bytes image) end.

Lemma locate_eq binary_path image svma r :
  (locate binary_path image svma r).2 = (t ← table_of binary_path image r; find_location t svma) /\
  table_of binary_path image (locate binary_path image svma r).1 = table_of binary_path image r /\
  sources (locate binary_path image svma r).1 = sources r.
Proof.
  unfold locate, table_of. destruct (line_tables r !! binary_path) as [t|] eqn:E; cbn; rewrite ?E; [done|].
  by rewrite lookup_insert_eq.
Qed.

(** What the resolver has of the disk is what is there. *)
Definition sources_ok (r : SourceResolver) : Prop :=
  map_Forall (fun file entry => entry = lines <$> read_source file) (sources r).

(** The text of a source line, trimmed, as bytes. *)
Definition source_text (file : list Z) (line : Z) : option (list Z) :=
  (fun s => as_bytes (trim s)) <$> ((lines <$> read_source file) ≫= (fun v => v !! Z.to_nat (ssub line 1))).

Lemma source_lines_eq file r :
  sources_ok r ->
  (source_lines file r).2 = lines <$> read_source file /\ sources_ok (source_lines file r).1 /\
  line_tables (source_lines file r).1 = line_tables r.
Proof.
  intros Hok. unfold source_lines. destruct (sources r !! file) as [entry|] eqn:E; cbn; [by rewrite (Hok file entry E)|].
  split_and!; [done| |done]. by apply map_Forall_insert_2.
Qed.

Lemma snippet_eq `{!HighlighterLaws} file line r :
  sources_ok r ->
  exists r' toks, snippet file line r = Ret (r', toks) /\ map fst (shown toks) = default [] (source_text file line) /\
    sources_ok r' /\ line_tables r' = line_tables r.
Proof.
  intros Hok. unfold snippet. destruct (source_lines_eq file r Hok) as (H1 & H2 & H3).
  destruct (source_lines file r) as [r' ls]. cbn [fst snd] in *. subst ls. unfold source_text.
  destruct ((lines <$> read_source file) ≫= _) as [s|].
  - destruct (highlight_in_exact (default (str "rust") (detect_language file)) (as_bytes (trim s))) as (toks & -> & Ht & _).
    exists r', toks. by split_and!.
  - by exists r', [].
Qed.
End Resolver.
End Source.

(** ** The annotated view *)
Module Annotate.

Import Order Text Highlight Disassemble Source.

Record AnnotatedView := mkAnnotatedView {
  function_name : list Z;
  language : list Z;
  base_address : Z;
  queried_address : Z;
  lines : list AnnotatedLine
}.

Section View.
Context `{HL : Highlighter} `{Sys : System} `{Search : BinarySearch}.

(** A line gets a header where the source location changes. *)
Fixpoint annotate_loop (resolved : Bin.ResolvedAddress) (image : Bin.CodeImage) (last : option (list Z * Z))
    (ls : list AnnotatedLine) (src : SourceResolver) : outcome (SourceResolver * list AnnotatedLine) :=
  match ls with
  | [] => Ret (src, [])
  | l :: ls =>
      let svma := wadd64 (Bin.fn_start_svma resolved) (as_u64 (address l - Bin.base_address resolved)) in
      let '(src, here) := locate (Bin.ra_binary_path resolved) image svma src in
      then_do (if bool_decide (here = last) then Ret (src, l) else
               match here with
               | Some (file, ln) =>
                   then_do (snippet file ln src) (fun '(src, toks) =>
                   Ret (src, l <| source_header := Some (mkSourceHeader file ln toks) |>))
               | None => Ret (src, l)
               end) (fun '(src, l) =>
      then_do (annotate_loop resolved image here ls src) (fun '(src, ls) => Ret (src, l :: ls)))
  end.

Definition no_binary (addr : Z) : list Z := str "(no binary mapped at " ++ Bin.hex_literal addr ++ str ")".

(** The view of the address that [resolve] has looked up. *)
Definition annotated_view (A64 AMD64 : Decoder) (target_arch : list Z) (resolved : option Bin.ResolvedAddress) (addr : Z)
    (self_lookup : Z -> Z * Z) (src : SourceResolver) : outcome (SourceResolver * AnnotatedView) :=
  then_do (match resolved with
           | Some r => disassemble A64 AMD64 target_arch r self_lookup
           | None => Ret []
           end) (fun ls =>
  then_do (match resolved with
           | Some r => match Bin.ra_image r with
                       | Some image => annotate_loop r image None ls src
                       | None => Ret (src, ls)
                       end
           | None => Ret (src, ls)
           end) (fun '(src, ls) =>
  Ret (src, mkAnnotatedView
    (match resolved with Some r => Bin.ra_function_name r | None => no_binary addr end)
    (Demangle.as_str (match resolved with Some r => Bin.ra_language r | None => Demangle.Unknown end))
    (match resolved with Some r => Bin.base_address r | None => addr end) addr ls))).

Definition compute_annotated_view (demangler : Demangle.SymLanguage -> list Z -> option (list Z))
    (open_image : list Z -> option Bin.CodeImage) (read_mem : Z -> Z -> Z -> option (list Z))
    (A64 AMD64 : Decoder) (target_arch : list Z) (addr : Z) (self_lookup : Z -> Z * Z)
    (binaries : Bin.BinaryRegistry) (src : SourceResolver)
    : outcome (Bin.BinaryRegistry * SourceResolver * AnnotatedView) :=
  then_do (Bin.resolve demangler open_image read_mem addr binaries) (fun '(binaries, resolved) =>
  then_do (annotated_view A64 AMD64 target_arch resolved addr self_lookup src) (fun '(src, view) =>
  Ret (binaries, src, view))).
(** ** The headers *)

(** The source location of a line. *)
Definition location (r : Bin.ResolvedAddress) (table : option LineTable) (l : AnnotatedLine) : option (list Z * Z) :=
  t ← table; find_location t (wadd64 (Bin.fn_start_svma r) (as_u64 (address l - Bin.base_address r))).

(** A line of the view: the listed line, with the header of a location other than
    that of the line before it. *)
Definition line_annotated (before here : option (list Z * Z)) (l l' : AnnotatedLine) : Prop :=
  match here with
  | Some (file, ln) =>
      if decide (before = here) then l' = l
      else exists toks, l' = l <| source_header := Some (mkSourceHeader file ln toks) |> /\
                        map fst (shown toks) = default [] (source_text file ln)
  | None => l' = l
  end.

Lemma annotate_loop_exact `{!HighlighterLaws} r image table : forall ls last src,
  sources_ok src -> table_of (Bin.ra_binary_path r) image src = table ->
  exists src' out, annotate_loop r image last ls src = Ret (src', out) /\ sources_ok src' /\
    length out = length ls /\
    forall k l, ls !! k = Some l -> exists l', out !! k = Some l' /\
      line_annotated (match k with O => last | S j => ls !! j ≫= location r table end) (location r table l) l l'.
Proof.
  induction ls as [|l ls IH]; intros last src Hok Ht; [by exists src, []|]. cbn [annotate_loop].
  set (svma := wadd64 _ _). destruct (locate_eq (Bin.ra_binary_path r) image svma src) as (H1 & H2 & H3).
  destruct (locate (Bin.ra_binary_path r) image svma src) as [src1 here] eqn:El. cbn [fst snd] in *.
  rewrite Ht in H1, H2. change (here = location r table l) in H1.
  assert (sources_ok src1) as Hok1 by (unfold sources_ok; by rewrite H3).
  assert (exists src2 l', (if bool_decide (here = last) then Ret (src1, l) else
               match here with
               | Some (file, ln) =>
                   then_do (snippet file ln src1) (fun '(src, toks) =>
                   Ret (src, l <| source_header := Some (mkSourceHeader file ln toks) |>))
               | None => Ret (src1, l)
               end) = Ret (src2, l') /\ sources_ok src2 /\ table_of (Bin.ra_binary_path r) image src2 = table /\
            line_annotated last here l l') as (src2 & l' & -> & Hok2 & Ht2 & Hl').
  { unfold line_annotated. case_bool_decide as Hsame.
    - exists src1, l. split; [done|]. split; [done|]. split; [done|]. rewrite Hsame.
      destruct last as [[file ln]|]; [|done]. cbv beta iota. by destruct (decide _).
    - destruct here as [[file ln]|]; [|by exists src1, l]. cbv beta iota.
      destruct (snippet_eq file ln src1 Hok1) as (src2 & toks & -> & Htoks & Hok2 & Htab). cbn [then_do].
      eexists src2, _. split; [done|]. split; [done|]. split; [unfold table_of in *; by rewrite Htab|].
      destruct (decide _); [by destruct Hsame|by exists toks]. }
  cbn [then_do]. destruct (IH here src2 Hok2 Ht2) as (src3 & out & -> & Hok3 & Hlen & Hout). cbn [then_do].
  exists src3, (l' :: out). split; [done|]. split; [done|]. split; [by cbn; rewrite Hlen|].
  intros [|k] l0; cbn [lookup list_lookup].
  - intros [= <-]. exists l'. by rewrite <- H1.
  - intros Hk. destruct (Hout k l0 Hk) as (l0' & ? & Ha). exists l0'. split; [done|]. destruct k as [|k]; [|done].
    cbn. by rewrite <- H1.
Qed.

(** C38. The annotated view of an address shows the lines of its function, and puts a
    source header, with the file, the line and the text of that line without the
    white space around it (empty when the file cannot be read), at exactly the
    instructions whose source location is known and is not that of the instruction
    before, as long as what the source cache holds is what is on disk. *)
Theorem annotated_view_exact `{!HighlighterLaws} A64 AMD64 target_arch r image addr self_lookup src :
  Bin.ra_image r = Some image -> sources_ok src ->
  exists ls src' view,
    disassemble A64 AMD64 target_arch r self_lookup = Ret ls /\
    annotated_view A64 AMD64 target_arch (Some r) addr self_lookup src = Ret (src', view) /\ sources_ok src' /\
    length (lines view) = length ls /\
    let location := location r (table_of (Bin.ra_binary_path r) image src) in
    forall k l, ls !! k = Some l -> exists l', lines view !! k = Some l' /\
      line_annotated (match k with O => None | S j => ls !! j ≫= location end) (location l) l l'.
Proof.
  intros Hi Hok. destruct (disassemble_exact A64 AMD64 target_arch r self_lookup) as (ls & Hls & _). exists ls.
  unfold annotated_view. rewrite Hls, Hi. cbn [then_do].
  destruct (annotate_loop_exact r image _ ls None src Hok eq_refl) as (src' & out & -> & Hok' & Hlen & Hout).
  cbn [then_do]. eexists src', _. split; [done|]. split; [done|]. split; [done|]. split; [exact Hlen|]. exact Hout.
Qed.
End View.

(** ** Examples *)

(** Plain text, instructions that are shown as their first byte and as long as it
    says, and a binary with two lines of source. *)
#[local] Instance demo_plain : Highlighter :=
  {| capture_to_slot := fun _ => ThemeSlot.None_; highlight_spans := fun _ _ => None |}.

#[local] Instance demo_laws : HighlighterLaws (HL := demo_plain).
Proof. by constructor. Qed.

Definition demo_decoder : Decoder := {|
  Instr := Z;
  decode := fun bytes => match bytes with b :: _ => if decide (b = 0) then inr (str "bad") else inl b | [] => inr [] end;
  show := fun b => [b];
  instr_len := Z.to_nat
|}.

#[local] Instance demo_system : System := {|
  debug_functions := fun _ => Some [Some (mkDebugFunction (str "/w")
    [mkDebugLine 100 (Some 2) 1 (str "a.rs"); mkDebugLine 102 None 2 (str "a.rs")])];
  read_to_string := fun f => if decide (f = str "/w/a.rs") then Some (str "one" ++ [10] ++ str "two") else None;
  rust_sysroot := None;
  detect_language := fun _ => None
|}.

#[local] Existing Instance first_search.

Definition demo_resolved : Bin.ResolvedAddress :=
  Bin.mkResolvedAddress (str "app") (Some (str "x86_64h")) (str "f") Demangle.Rust 0x1000 0x1004 [1; 1; 2; 9] 100
    (Some (Bin.mkCodeImage [] [])).

Lemma disassemble_exact_witness :
  exists out, disassemble demo_decoder demo_decoder (str "x86_64") demo_resolved (fun a => (a, 1)) = Ret out /\
    map address out = [0x1000; 0x1001; 0x1002].
Proof.
  destruct (disassemble_exact demo_decoder demo_decoder (str "x86_64") demo_resolved (fun a => (a, 1))) as (out & Hout & _).
  exists out. split; [exact Hout|]. vm_compute in Hout. by injection Hout as <-.
Defined.

Lemma find_location_exact_witness :
  find_location (mkLineTable [mkLineRecord 100 (Some 102) (str "a") 1; mkLineRecord 104 None (str "a") 2]) 101 =
  Some (str "a", 1).
Proof.
  apply find_location_exact; [repeat constructor|]. exists (mkLineRecord 100 (Some 102) (str "a") 1).
  split; [|done]. exists 0%nat. split_and!; [done|vm_compute; congruence| |]; intros ? [= <-]; vm_compute; congruence.
Defined.

Lemma annotated_view_exact_witness :
  exists src' view,
    annotated_view demo_decoder demo_decoder (str "x86_64") (Some demo_resolved) 0x1001 (fun a => (a, 1)) resolver_new =
      Ret (src', view) /\
    map (fun l => (address l, line <$> source_header l)) (lines view) =
      [(0x1000, Some 1); (0x1001, None); (0x1002, Some 2)].
Proof.
  destruct (annotated_view_exact demo_decoder demo_decoder (str "x86_64") demo_resolved (Bin.mkCodeImage [] []) 0x1001
    (fun a => (a, 1)) resolver_new) as (ls & src' & view & _ & Hview & _); [done|apply map_Forall_empty|].
  exists src', view. split; [exact Hview|]. vm_compute in Hview. by injection Hview as <- <-.
Defined.

End Annotate.
