(* ===== verification/Cfg.v ===== *)
(** * Control-flow graphs

    [stax-live/src/cfg.rs] and [compute_cfg_view] of [lib.rs]: the instructions of
    a function grouped into basic blocks, with the edges between them.  The
    decoders are arguments; of an instruction the code looks at the opcode and
    the branch operand. *)

From S2P Require Import Prelude Order Text Demangle Binaries Annotate.

Module Cfg.

Import Order Highlight Disassemble.
Module Bin := Binaries.Binaries.

(** ** Data *)

(** How an instruction ends. *)
Inductive Flow :=
  | Sequential
  | Return
  | Indirect
  | Branch (target : Z)
  | ConditionalBranch (target : Z)
  | Call.

Record DecodedInstr := mkDecodedInstr { di_address : Z; di_length : Z; di_line : AnnotatedLine; di_flow : Flow }.

Record BasicBlock := mkBasicBlock { bb_id : Z; bb_start_address : Z; bb_lines : list AnnotatedLine }.

#[export] Instance eta_BasicBlock : Eta BasicBlock := fun b => mkBasicBlock (bb_id b) (bb_start_address b) (bb_lines b).

Module Kind.
Inductive edge_kind := Fallthrough | Branch | ConditionalBranch | Call.
End Kind.

Record CfgEdge := mkCfgEdge { from_id : Z; to_id : Z; kind : Kind.edge_kind }.

Record CfgUpdate := mkCfgUpdate {
  cu_function_name : list Z;
  cu_language : list Z;
  cu_base_address : Z;
  cu_queried_address : Z;
  cu_blocks : list BasicBlock;
  cu_edges : list CfgEdge
}.

(** ** Classification *)

(** The opcodes of the decoder libraries that the code tells apart, and the
    operands it reads. *)
Inductive A64Opcode :=
  | B | Bcc | CBZ | CBNZ | TBZ | TBNZ | BR | BRAA | BRAAZ | BRAB | BRABZ | BL | BLR | BLRAA | BLRAAZ | BLRAB | BLRABZ
  | RET | RETAA | RETAB | ERET | ERETAA | ERETAB | OtherA64.

Inductive A64Operand := PCOffset (off : Z) | OtherOperand.

Inductive X86Opcode :=
  | JMP | JMPF | JMPE | JO | JNO | JB | JNB | JZ | JNZ | JA | JNA | JS | JNS | JP | JNP | JL | JGE | JLE | JG | JRCXZ
  | LOOP | LOOPZ | LOOPNZ | CALL | CALLF | RETURN | RETF | IRET | IRETD | IRETQ | HLT | UD2 | OtherX86.

Inductive X86Operand := ImmediateI8 (imm : Z) | ImmediateI16 (imm : Z) | ImmediateI32 (imm : Z) | ImmediateI64 (imm : Z)
  | OtherX86Operand.

(** [Operand::PCOffset(off)] gives a target, any other operand an indirect branch. *)
Definition pc_target (addr : Z) (flow : Z -> Flow) (op : A64Operand) : Flow :=
  match op with
  | PCOffset off => flow (wadd64 addr (as_u64 off))
  | OtherOperand => Indirect
  end.

Definition flow_a64 (addr : Z) (opcode : A64Opcode) (operands : nat -> A64Operand) : Flow :=
  match opcode with
  | B => pc_target addr Branch (operands 0%nat)
  | Bcc => pc_target addr ConditionalBranch (operands 0%nat)
  | CBZ | CBNZ => pc_target addr ConditionalBranch (operands 1%nat)
  | TBZ | TBNZ => pc_target addr ConditionalBranch (operands 2%nat)
  | BR | BRAA | BRAAZ | BRAB | BRABZ => Indirect
  | BL => Call
  | BLR | BLRAA | BLRAAZ | BLRAB | BLRABZ => Call
  | RET | RETAA | RETAB => Return
  | ERET | ERETAA | ERETAB => Return
  | OtherA64 => Sequential
  end.

Definition x86_target (next_address : Z) (op : X86Operand) : option Z :=
  match op with
  | ImmediateI8 imm | ImmediateI16 imm | ImmediateI32 imm | ImmediateI64 imm => Some (wadd64 next_address (as_u64 imm))
  | OtherX86Operand => None
  end.

Definition classify_x86 (opcode : X86Opcode) (operand0 : X86Operand) (next_address : Z) : Flow :=
  match opcode with
  | JMP | JMPF | JMPE => match x86_target next_address operand0 with Some t => Branch t | None => Indirect end
  | JO | JNO | JB | JNB | JZ | JNZ | JA | JNA | JS | JNS | JP | JNP | JL | JGE | JLE | JG | JRCXZ | LOOP | LOOPZ | LOOPNZ =>
      match x86_target next_address operand0 with Some t => ConditionalBranch t | None => Indirect end
  | CALL | CALLF => Call
  | RETURN | RETF | IRET | IRETD | IRETQ => Return
  | HLT | UD2 => Return
  | OtherX86 => Sequential
  end.

(** ** Decoding *)

Class A64View (A64 : Decoder) := {
  a64_opcode : Instr (Decoder := A64) -> A64Opcode;
  a64_operands : Instr (Decoder := A64) -> nat -> A64Operand
}.

Class X86View (AMD64 : Decoder) := {
  x86_opcode : Instr (Decoder := AMD64) -> X86Opcode;
  x86_operand0 : Instr (Decoder := AMD64) -> X86Operand
}.

Section Decode.
Context `{HL : Highlighter} (base : Z) (self_lookup : Z -> Z * Z).

Fixpoint decode_aarch64 (A64 : Decoder) `{!A64View A64} (bytes : list Z) (offset : Z) : outcome (list DecodedInstr) :=
  match bytes with
  | b0 :: b1 :: b2 :: b3 :: rest =>
      let addr := wadd64 base offset in
      let '(asm, flow) := match decode [b0; b1; b2; b3] with
                          | inl instr => (show instr, flow_a64 addr (a64_opcode instr) (a64_operands instr))
                          | inr err => (decode_error err, Sequential)
                          end in
      then_do (asm_line self_lookup addr asm) (fun line =>
      then_do (decode_aarch64 A64 rest (offset + 4)) (fun out => Ret (mkDecodedInstr addr 4 line flow :: out)))
  | _ => Ret []
  end.

(** One turn per byte is enough. *)
Fixpoint decode_amd64 (AMD64 : Decoder) `{!X86View AMD64} (fuel : nat) (bytes : list Z) (offset : Z)
    : outcome (list DecodedInstr) :=
  match fuel, bytes with
  | S fuel, _ :: _ =>
      let addr := wadd64 base offset in
      let '(asm, flow, length, len) :=
        match decode bytes with
        | inl instr => let len := instr_len instr in
                       (show instr, classify_x86 (x86_opcode instr) (x86_operand0 instr) (wadd64 addr (Z.of_nat len)),
                        Z.of_nat len, Nat.max len 1)
        | inr err => (decode_error err, Sequential, 1, 1%nat)
        end in
      then_do (asm_line self_lookup addr asm) (fun line =>
      then_do (decode_amd64 AMD64 fuel (drop len bytes) (offset + Z.of_nat len)) (fun out =>
      Ret (mkDecodedInstr addr length line flow :: out)))
  | _, _ => Ret []
  end.
End Decode.

(** ** Blocks and edges *)

(** [BTreeSet::insert], the set as its ascending elements. *)
Fixpoint set_insert (x : Z) (l : list Z) : list Z :=
  match l with
  | [] => [x]
  | y :: l' => match x ?= y with Eq => l | Lt => x :: l | Gt => y :: set_insert x l' end
  end.

Definition branch_target (f : Flow) : option Z :=
  match f with Branch target | ConditionalBranch target => Some target | Sequential | Return | Indirect | Call => None end.

Definition ends_block (f : Flow) : bool :=
  match f with Branch _ | ConditionalBranch _ | Return | Indirect => true | Sequential | Call => false end.

Section Build.
Context `{Search : BinarySearch} (instrs : list DecodedInstr) (fn_lo fn_hi : Z).

Definition in_function (target : Z) : bool := bool_decide (fn_lo <= target < fn_hi).

Definition next_of (i : DecodedInstr) : Z := wadd64 (di_address i) (di_length i).

Definition leader_step (leaders : list Z) (i : DecodedInstr) : list Z :=
  let leaders := match branch_target (di_flow i) with
                 | Some target => if in_function target then set_insert target leaders else leaders
                 | None => leaders
                 end in
  if decide (fn_hi <= next_of i) then leaders
  else if ends_block (di_flow i) then set_insert (next_of i) leaders else leaders.

Definition leaders_of (first : DecodedInstr) : list Z := foldl leader_step (set_insert (di_address first) []) instrs.

Definition block_id_for (leaders : list Z) (addr : Z) : option Z := (fun i => as_u32 (Z.of_nat i)) <$> last_not_above leaders addr.

Definition push_line (leaders : list Z) (blocks : list BasicBlock) (i : DecodedInstr) : list BasicBlock :=
  match block_id_for leaders (di_address i) with
  | Some id => alter (fun b => b <| bb_lines ::= fun l => l ++ [di_line i] |>) (Z.to_nat id) blocks
  | None => blocks
  end.

Definition blocks_of (leaders : list Z) : list BasicBlock :=
  foldl (push_line leaders) (imap (fun i addr => mkBasicBlock (as_u32 (Z.of_nat i)) addr []) leaders) instrs.

(** The edges off the last instruction of a block. *)
Definition block_edges (leaders : list Z) (b : BasicBlock) : list CfgEdge :=
  match last (bb_lines b) with
  | None => []
  | Some l =>
      match find (fun i => bool_decide (di_address i = address l)) instrs with
      | None => []
      | Some decoded =>
          let next := next_of decoded in
          let to_next k := match block_id_for leaders next with
                           | Some to => if decide (next < fn_hi) then [mkCfgEdge (bb_id b) to k] else []
                           | None => []
                           end in
          let to_target target k := match block_id_for leaders target with
                                    | Some to => if in_function target then [mkCfgEdge (bb_id b) to k] else []
                                    | None => []
                                    end in
          match di_flow decoded with
          | Sequential => to_next Kind.Fallthrough
          | Call => to_next Kind.Call
          | Branch target => to_target target Kind.Branch
          | ConditionalBranch target => to_target target Kind.ConditionalBranch ++ to_next Kind.Fallthrough
          | Return | Indirect => []
          end
      end
  end.

Definition build_blocks_and_edges : list BasicBlock * list CfgEdge :=
  match instrs with
  | [] => ([], [])
  | first :: _ =>
      let leaders := leaders_of first in
      let blocks := blocks_of leaders in
      (blocks, blocks ≫= block_edges leaders)
  end.
End Build.

(** ** The whole query *)
Section Query.
Context `{HL : Highlighter} `{Search : BinarySearch} (A64 AMD64 : Decoder) `{!A64View A64} `{!X86View AMD64} (target_arch : list Z).

Definition compute_cfg_update (r : Bin.ResolvedAddress) (queried_address : Z) (function_name language : list Z)
    (self_lookup : Z -> Z * Z) : outcome CfgUpdate :=
  let base := Bin.base_address r in
  let bytes := Bin.ra_bytes r in
  then_do (match arch_arm (default (host_arch target_arch) (Bin.ra_arch r)) with
           | Some Aarch64 => decode_aarch64 base self_lookup A64 bytes 0
           | Some Amd64 => decode_amd64 base self_lookup AMD64 (length bytes) bytes 0
           | None => Ret []
           end) (fun instrs =>
  let fn_hi := wadd64 base (Z.of_nat (length bytes)) in
  let '(blocks, edges) := build_blocks_and_edges instrs base fn_hi in
  Ret (mkCfgUpdate function_name language base queried_address blocks edges)).

Definition compute_cfg_view (demangler : Demangle.SymLanguage -> list Z -> option (list Z))
    (open_image : list Z -> option Bin.CodeImage) (read_mem : Z -> Z -> Z -> option (list Z)) (addr : Z)
    (self_lookup : Z -> Z * Z) (binaries : Bin.BinaryRegistry) : outcome (Bin.BinaryRegistry * CfgUpdate) :=
  then_do (Bin.resolve demangler open_image read_mem addr binaries) (fun '(binaries, resolved) =>
  then_do (match resolved with
           | Some r => compute_cfg_update r addr (Bin.ra_function_name r) (Demangle.as_str (Bin.ra_language r)) self_lookup
           | None => Ret (mkCfgUpdate (Annotate.no_binary addr) (Demangle.as_str Demangle.Unknown) addr addr [] [])
           end) (fun u => Ret (binaries, u))).
End Query.

(** ** Sets of leaders *)

Lemma set_insert_elem x l y : y ∈ set_insert x l <-> y = x \/ y ∈ l.
Proof.
  induction l as [|z l IH]; cbn; [set_solver|]. destruct (Z.compare_spec x z) as [->|H|H]; set_solver.
Qed.

Lemma set_insert_sorted x l : StronglySorted Z.lt l -> StronglySorted Z.lt (set_insert x l).
Proof.
  induction 1 as [|z l Hl IH Hz]; cbn; [repeat constructor|]. destruct (Z.compare_spec x z) as [->|H|H].
  - by constructor.
  - constructor; [by constructor|]. constructor; [done|]. eapply Forall_impl; [exact Hz|]. cbn. lia.
  - constructor; [done|]. apply Forall_forall. intros y [->|Hy]%set_insert_elem; [done|]. by eapply Forall_forall in Hz.
Qed.

(** Instructions that lie end to end in a range of addresses. *)
Fixpoint tiles (lo hi : Z) (instrs : list DecodedInstr) : Prop :=
  match instrs with
  | [] => lo = hi
  | i :: rest => di_address i = lo /\ address (di_line i) = lo /\ 0 < di_length i /\ tiles (lo + di_length i) hi rest
  end.

Lemma tiles_bounds lo hi instrs : tiles lo hi instrs -> lo <= hi /\
  Forall (fun i => lo <= di_address i /\ 0 < di_length i /\ di_address i + di_length i <= hi) instrs.
Proof.
  revert lo. induction instrs as [|i rest IH]; intros lo; cbn; [intros ->; by split|].
  intros (H1 & _ & H2 & H3). destruct (IH _ H3) as [H4 H5]. split; [lia|]. constructor; [lia|].
  eapply Forall_impl; [exact H5|]. cbn. lia.
Qed.

Lemma tiles_sorted lo hi instrs : tiles lo hi instrs -> StronglySorted (fun a b => di_address a < di_address b) instrs.
Proof.
  revert lo. induction instrs as [|i rest IH]; intros lo; cbn; [constructor|]. intros (H1 & _ & H2 & H3).
  constructor; [by eapply IH|]. eapply Forall_impl; [exact (proj2 (tiles_bounds _ _ _ H3))|]. cbn. lia.
Qed.

Lemma tiles_lines lo hi instrs : tiles lo hi instrs -> Forall (fun i => address (di_line i) = di_address i) instrs.
Proof.
  revert lo. induction instrs as [|i rest IH]; intros lo; cbn; [constructor|]. intros (H1 & H2 & _ & H3).
  constructor; [by rewrite H1|]. by eapply IH.
Qed.

(** The instruction at the end of another is the next one. *)
Lemma tiles_next lo hi instrs k i :
  tiles lo hi instrs -> instrs !! k = Some i ->
  (di_address i + di_length i = hi /\ instrs !! S k = None) \/
  exists j, instrs !! S k = Some j /\ di_address j = di_address i + di_length i.
Proof.
  revert lo k. induction instrs as [|x rest IH]; intros lo k; [done|]. cbn [tiles]. intros (H1 & _ & H2 & H3) Hk.
  destruct k as [|k]; cbn [lookup list_lookup] in *; [|by eapply IH].
  injection Hk as ->. destruct rest as [|j rest]; [left; cbn in *; by split; [lia|]|right].
  exists j. destruct H3 as (H3 & _). split; [done|]. lia.
Qed.

(** ** Cutting an ascending list *)

Lemma cut_ascending {A} (f : A -> nat) (l : list A) n :
  StronglySorted (fun a b => f a <= f b)%nat l ->
  (seq 0 n ≫= fun i => filter (fun a => f a = i) l) = filter (fun a => f a < n)%nat l.
Proof.
  intros Hl. induction n as [|n IH].
  - cbn. symmetry. apply filter_none, Forall_forall. intros x _. lia.
  - rewrite seq_S, bind_app, IH. cbn. rewrite app_nil_r. clear IH.
    induction Hl as [|a l Hl IH Ha]; [done|]. rewrite !filter_cons.
    destruct (decide (f a < n)%nat), (decide (f a = n)), (decide (f a < S n)%nat); try lia; cbn; [by rewrite IH| |done].
    rewrite <- IH. rewrite (filter_none _ l); [done|]. eapply Forall_impl; [exact Ha|]. cbn. lia.
Qed.

(** Where control goes after an instruction. *)
Definition successors (i : DecodedInstr) : list (Z * Kind.edge_kind) :=
  match di_flow i with
  | Sequential => [(next_of i, Kind.Fallthrough)]
  | Call => [(next_of i, Kind.Call)]
  | Branch target => [(target, Kind.Branch)]
  | ConditionalBranch target => [(target, Kind.ConditionalBranch); (next_of i, Kind.Fallthrough)]
  | Return | Indirect => []
  end.

(** The block with this id covers the address: it lies at or behind its start and
    before the start of the next block. *)
Definition holds_address (blocks : list BasicBlock) (id : Z) (addr : Z) : Prop :=
  exists n b, id = Z.of_nat n /\ blocks !! n = Some b /\ bb_start_address b <= addr /\
    forall b', blocks !! S n = Some b' -> addr < bb_start_address b'.

Record blocks_exact (instrs : list DecodedInstr) (fn_lo fn_hi : Z) (blocks : list BasicBlock) : Prop := {
  exact_lines : (blocks ≫= bb_lines) = map di_line instrs;
  exact_ids : forall n b, blocks !! n = Some b -> bb_id b = Z.of_nat n;
  exact_entry : bb_start_address <$> head blocks = Some fn_lo;
  exact_order : StronglySorted Z.lt (map bb_start_address blocks);
  exact_within : forall b l, b ∈ blocks -> l ∈ bb_lines b -> holds_address blocks (bb_id b) (address l);
  exact_targets : forall i t, i ∈ instrs -> branch_target (di_flow i) = Some t -> fn_lo <= t < fn_hi ->
    t ∈ map bb_start_address blocks;
  exact_straight : forall k i j b, instrs !! k = Some i -> instrs !! S k = Some j -> b ∈ blocks ->
    di_line i ∈ bb_lines b -> di_line j ∈ bb_lines b -> ends_block (di_flow i) = false
}.

Record edges_exact (instrs : list DecodedInstr) (fn_lo fn_hi : Z) (blocks : list BasicBlock) (edges : list CfgEdge) : Prop := {
  exact_flow : forall k i a kd, instrs !! k = Some i -> (a, kd) ∈ successors i -> fn_lo <= a < fn_hi ->
    (exists e b, e ∈ edges /\ b ∈ blocks /\ di_line i ∈ bb_lines b /\ from_id e = bb_id b /\
                 holds_address blocks (to_id e) a /\ kind e = kd) \/
    (exists j b, instrs !! S k = Some j /\ di_address j = a /\ b ∈ blocks /\ di_line i ∈ bb_lines b /\ di_line j ∈ bb_lines b);
  exact_edges : forall e, e ∈ edges -> exists i b a, i ∈ instrs /\ b ∈ blocks /\ from_id e = bb_id b /\
    last (bb_lines b) = Some (di_line i) /\ (a, kind e) ∈ successors i /\ fn_lo <= a < fn_hi /\
    holds_address blocks (to_id e) a
}.

Section Proofs.
Context `{Search : BinarySearch} (instrs : list DecodedInstr) (fn_lo fn_hi : Z) (first : DecodedInstr).
Hypothesis Htiles : tiles fn_lo fn_hi instrs.
Hypothesis Hfirst : head instrs = Some first.
Hypothesis Hrange : 0 <= fn_lo /\ fn_hi < 2 ^ 64.

Lemma first_address : di_address first = fn_lo.
Proof. destruct instrs as [|i rest]; [done|]. injection Hfirst as ->. by destruct Htiles. Qed.

Lemma instr_bounds i : i ∈ instrs ->
  fn_lo <= di_address i < fn_hi /\ 0 < di_length i /\ next_of i = di_address i + di_length i /\ next_of i <= fn_hi.
Proof.
  intros Hi. destruct (tiles_bounds _ _ _ Htiles) as [_ H]. eapply Forall_forall in H; [|exact Hi]. cbn in H.
  unfold next_of. assert (wadd64 (di_address i) (di_length i) = di_address i + di_length i) as -> by (apply wadd64_small; lia). lia.
Qed.

(** What starts a block. *)
Definition leads (l : list DecodedInstr) (x : Z) : Prop :=
  x = fn_lo \/ exists i, i ∈ l /\
    ((branch_target (di_flow i) = Some x /\ fn_lo <= x < fn_hi) \/
     (ends_block (di_flow i) = true /\ next_of i = x /\ x < fn_hi)).

Lemma leader_step_ok l i leaders :
  (forall x, x ∈ leaders <-> leads l x) -> StronglySorted Z.lt leaders ->
  (forall x, x ∈ leader_step fn_lo fn_hi leaders i <-> leads (l ++ [i]) x) /\
  StronglySorted Z.lt (leader_step fn_lo fn_hi leaders i).
Proof.
  intros Hl Hs. unfold leader_step. set (targets := match branch_target (di_flow i) with Some _ => _ | None => _ end).
  assert (StronglySorted Z.lt targets /\ forall x, x ∈ targets <->
    leads l x \/ (branch_target (di_flow i) = Some x /\ fn_lo <= x < fn_hi)) as [Hts Ht].
  { unfold targets, in_function. destruct (branch_target (di_flow i)) as [t|]; [|split; [done|]; naive_solver].
    case_bool_decide; (split; [auto using set_insert_sorted|]); intros x; rewrite ?set_insert_elem, Hl; naive_solver. }
  assert (forall x, leads (l ++ [i]) x <->
    (leads l x \/ (branch_target (di_flow i) = Some x /\ fn_lo <= x < fn_hi)) \/
    (ends_block (di_flow i) = true /\ next_of i = x /\ x < fn_hi)) as Hleads.
  { intros x. unfold leads. assert (i ∈ l ++ [i]) as Hi by (apply elem_of_app; right; apply list_elem_of_here). split.
    - intros [->|(j & Hj & H)]; [by left; left; left|].
      apply elem_of_app in Hj as [Hj|Hj%list_elem_of_singleton]; [left; left; right; by exists j|subst j].
      destruct H as [H|H]; [left; by right|by right].
    - intros [[[->|(j & Hj & H)]|H]|H]; [by left|right; exists j|right; exists i; auto..].
      split; [apply elem_of_app; by left|done]. }
  setoid_rewrite Hleads. setoid_rewrite <- Ht.
  case_decide; [split; [|done]; intros x; split; [by left|intros [?|?]; [done|lia]]|].
  destruct (ends_block (di_flow i)); [|split; [|done]; naive_solver].
  split; [|by apply set_insert_sorted]. intros x. rewrite set_insert_elem. split; [|naive_solver].
  intros [->|?]; [right|by left]. split_and!; [done..|lia].
Qed.

Lemma leaders_fold l : forall before ls,
  (forall x, x ∈ ls <-> leads before x) -> StronglySorted Z.lt ls ->
  (forall x, x ∈ foldl (leader_step fn_lo fn_hi) ls l <-> leads (before ++ l) x) /\
  StronglySorted Z.lt (foldl (leader_step fn_lo fn_hi) ls l).
Proof.
  induction l as [|i l IH]; intros before ls Hl Hs; [by rewrite app_nil_r|]. cbn [foldl].
  destruct (leader_step_ok before i ls Hl Hs) as [H1 H2]. replace (before ++ i :: l) with ((before ++ [i]) ++ l)
    by by rewrite <- app_assoc. by apply IH.
Qed.

Let leaders := leaders_of instrs fn_lo fn_hi first.

Lemma leaders_spec : StronglySorted Z.lt leaders /\ forall x, x ∈ leaders <-> leads instrs x.
Proof.
  unfold leaders, leaders_of. cbn [set_insert]. rewrite first_address.
  destruct (leaders_fold instrs [] [fn_lo]) as [H1 H2]; [|repeat constructor|done].
  intros x. rewrite list_elem_of_singleton. unfold leads. set_solver.
Qed.

Lemma leaders_range x : x ∈ leaders -> fn_lo <= x < fn_hi.
Proof.
  intros [->|(i & Hi & [[_ H]|(_ & <- & H)])]%leaders_spec; [|done|].
  - destruct (instr_bounds first) as (H & _); [|by rewrite first_address in H].
    destruct instrs; [done|]. injection Hfirst as ->. apply list_elem_of_here.
  - destruct (instr_bounds i Hi) as (? & ? & ? & _). lia.
Qed.

Hypothesis Hcount : Z.of_nat (length leaders) <= 2 ^ 32.

(** The block an address lies in. *)
Definition lies_in (addr : Z) (n : nat) : Prop :=
  exists x, leaders !! n = Some x /\ x <= addr /\ forall y, leaders !! S n = Some y -> addr < y.

Lemma lies_in_inj addr n m : lies_in addr n -> lies_in addr m -> n = m.
Proof.
  intros (x & Hx & Hxa & Hxn) (y & Hy & Hya & Hyn). pose proof (proj1 leaders_spec) as Hs.
  assert (forall n m x y, leaders !! n = Some x -> leaders !! m = Some y -> y <= addr ->
    (forall z, leaders !! S n = Some z -> addr < z) -> (m <= n)%nat) as H.
  { clear -Hs. intros n m x y Hx Hy Hya Hxn. destruct (decide (n < m)%nat) as [Hlt|]; [|lia]. exfalso.
    destruct (lookup_lt_is_Some_2 leaders (S n)) as [z Hz]; [apply lookup_lt_Some in Hy; lia|]. specialize (Hxn z Hz).
    destruct (decide (S n = m)) as [<-|]; [simplify_eq; lia|].
    pose proof (StronglySorted_lookup_lt _ _ (S n) m _ _ Hs Hz Hy ltac:(lia)). lia. }
  apply Nat.le_antisymm; eauto.
Qed.

Lemma block_id_for_spec addr : fn_lo <= addr ->
  exists n, block_id_for leaders addr = Some (Z.of_nat n) /\ (n < length leaders)%nat /\ lies_in addr n.
Proof.
  intros Ha. unfold block_id_for. pose proof (last_not_above_spec leaders addr (proj1 leaders_spec)) as Hs.
  destruct (last_not_above leaders addr) as [n|].
  - destruct Hs as (x & Hx & Hxa & Hn). pose proof (lookup_lt_Some _ _ _ Hx). exists n. cbn. split.
    { unfold as_u32. rewrite Z.mod_small by lia. done. }
    split; [done|]. by exists x.
  - exfalso. assert (fn_lo ∈ leaders) as Hlo by (apply leaders_spec; by left). eapply Forall_forall in Hs; [|exact Hlo]. cbn in Hs. lia.
Qed.

(** A leader starts the block it lies in. *)
Lemma lies_in_leader n x : leaders !! n = Some x -> lies_in x n.
Proof.
  intros Hx. exists x. split; [done|]. split; [lia|]. intros y Hy.
  exact (StronglySorted_lookup_lt _ _ _ _ _ _ (proj1 leaders_spec) Hx Hy ltac:(lia)).
Qed.

Lemma lies_in_mono a b n m : a <= b -> lies_in a n -> lies_in b m -> (n <= m)%nat.
Proof.
  intros Hab (x & Hx & Hxa & Hxn) (y & Hy & Hyb & Hyn). destruct (decide (m < n)%nat) as [Hlt|]; [|lia]. exfalso.
  destruct (lookup_lt_is_Some_2 leaders (S m)) as [z Hz]; [apply lookup_lt_Some in Hx; lia|]. specialize (Hyn z Hz).
  destruct (decide (S m = n)) as [<-|]; [simplify_eq; lia|].
  pose proof (StronglySorted_lookup_lt _ _ (S m) n _ _ (proj1 leaders_spec) Hz Hx ltac:(lia)). lia.
Qed.
(** ** The blocks *)

Definition block_of (i : DecodedInstr) : nat := Z.to_nat (default 0 (block_id_for leaders (di_address i))).

(** The instructions of a block. *)
Definition members (n : nat) (l : list DecodedInstr) : list DecodedInstr := filter (fun i => block_of i = n) l.

Lemma block_of_spec i : i ∈ instrs ->
  block_id_for leaders (di_address i) = Some (Z.of_nat (block_of i)) /\ (block_of i < length leaders)%nat /\
  lies_in (di_address i) (block_of i).
Proof.
  intros Hi. destruct (instr_bounds i Hi) as [[Hlo _] _]. destruct (block_id_for_spec _ Hlo) as (n & Hn & Hlt & Hl).
  unfold block_of. rewrite Hn. cbn. by rewrite Nat2Z.id.
Qed.

Lemma block_of_mono i j : i ∈ instrs -> j ∈ instrs -> di_address i <= di_address j -> (block_of i <= block_of j)%nat.
Proof.
  intros Hi Hj Hle. destruct (block_of_spec i Hi) as (_ & _ & H1). destruct (block_of_spec j Hj) as (_ & _ & H2).
  by eapply lies_in_mono.
Qed.

Definition block_at (l : list DecodedInstr) (n : nat) : option BasicBlock :=
  (fun addr => mkBasicBlock (Z.of_nat n) addr (map di_line (members n l))) <$> leaders !! n.

Lemma push_line_ok l i blocks : i ∈ instrs ->
  (forall n, blocks !! n = block_at l n) -> forall n, push_line leaders blocks i !! n = block_at (l ++ [i]) n.
Proof.
  intros Hi Hb n. destruct (block_of_spec i Hi) as (Hid & _). unfold push_line. rewrite Hid, Nat2Z.id.
  unfold block_at, members. rewrite filter_app, filter_cons, filter_nil.
  destruct (decide (block_of i = n)) as [->|Hn].
  - rewrite list_lookup_alter_eq, Hb. unfold block_at, members. destruct (leaders !! n); [|done]. cbn. by rewrite map_app.
  - rewrite list_lookup_alter_ne, Hb by done. by rewrite app_nil_r.
Qed.

Lemma blocks_lookup n : blocks_of instrs leaders !! n = block_at instrs n.
Proof.
  unfold blocks_of. assert (forall l before blocks, (forall i, i ∈ l -> i ∈ instrs) -> (forall n, blocks !! n = block_at before n) ->
    forall n, foldl (push_line leaders) blocks l !! n = block_at (before ++ l) n) as H.
  { clear n. induction l as [|i l IH]; intros before blocks Hl Hb n; [by rewrite app_nil_r|]. cbn [foldl].
    replace (before ++ i :: l) with ((before ++ [i]) ++ l) by by rewrite <- app_assoc. apply IH; [set_solver|].
    apply push_line_ok; [set_solver|done]. }
  apply (H instrs []); [done|]. clear n. intros n. rewrite list_lookup_imap. unfold block_at, members.
  destruct (leaders !! n) as [x|] eqn:E; [|done]. cbn. f_equal. f_equal. apply as_u32_small.
  apply lookup_lt_Some in E. width. lia.
Qed.

Lemma blocks_length : length (blocks_of instrs leaders) = length leaders.
Proof.
  unfold blocks_of. transitivity (length (imap (fun i addr => mkBasicBlock (as_u32 (Z.of_nat i)) addr []) leaders)); [|apply length_imap].
  generalize (imap (fun i addr => mkBasicBlock (as_u32 (Z.of_nat i)) addr []) leaders). generalize instrs. clear.
  intros l. induction l as [|i l IH]; intros blocks; [done|]. cbn [foldl]. rewrite IH. unfold push_line.
  destruct (block_id_for _ _); [apply length_alter|done].
Qed.

Lemma blocks_lines : (blocks_of instrs leaders ≫= bb_lines) = map di_line instrs.
Proof.
  assert (blocks_of instrs leaders = map (fun n => mkBasicBlock (Z.of_nat n) (default 0 (leaders !! n)) (map di_line (members n instrs)))
    (seq 0 (length leaders))) as ->.
  { apply list_eq. intros n. rewrite blocks_lookup, list_lookup_fmap. unfold block_at.
    destruct (decide (n < length leaders)%nat) as [Hn|Hn].
    - destruct (lookup_lt_is_Some_2 _ _ Hn) as [x Hx]. rewrite lookup_seq_lt by done. cbn. by rewrite Hx.
    - rewrite lookup_seq_ge, (lookup_ge_None_2 leaders) by lia. done. }
  transitivity (map di_line (seq 0 (length leaders) ≫= (fun n => members n instrs))).
  { induction (seq 0 (length leaders)) as [|n l IH]; [done|]. cbn. rewrite map_app. by f_equal. }
  f_equal. unfold members. rewrite (cut_ascending block_of).
  - apply filter_all, Forall_forall. intros i Hi. by apply block_of_spec.
  - assert (forall l, (forall i, i ∈ l -> i ∈ instrs) -> StronglySorted (fun a b => di_address a < di_address b) l ->
      StronglySorted (fun a b => block_of a <= block_of b)%nat l) as H.
    { intros l Hin. induction 1 as [|i l Hl IH Hi]; constructor; [apply IH; set_solver|]. apply Forall_forall. intros j Hj.
      eapply Forall_forall in Hi; [|exact Hj]. apply block_of_mono; [set_solver..|]. lia. }
    apply H; [done|]. by eapply tiles_sorted.
Qed.

(** ** The last instruction of a block *)

Lemma member_in i n : i ∈ members n instrs <-> block_of i = n /\ i ∈ instrs.
Proof. unfold members. by rewrite list_elem_of_filter. Qed.

(** An instruction is the last of its block, or the next one is in it too. *)
Lemma last_or_next k i : instrs !! k = Some i ->
  last (members (block_of i) instrs) = Some i \/
  exists j, instrs !! S k = Some j /\ di_address j = next_of i /\ block_of j = block_of i.
Proof.
  intros Hk. assert (i ∈ instrs) as Hi by by eapply list_elem_of_lookup_2.
  destruct (instr_bounds i Hi) as (_ & Hpos & Hnext & _).
  destruct (tiles_next _ _ _ k i Htiles Hk) as [[_ Hnone]|(j & Hj & Hja)].
  - left. rewrite <- (take_drop_middle instrs k i Hk). unfold members. rewrite filter_app, filter_cons_True by done.
    rewrite drop_ge by by apply lookup_ge_None. by rewrite filter_nil, last_snoc.
  - assert (j ∈ instrs) as Hjin by by eapply list_elem_of_lookup_2.
    destruct (decide (block_of j = block_of i)) as [Hb|Hb]; [right; exists j; split_and!; [done|lia|done]|left].
    rewrite <- (take_drop_middle instrs k i Hk) at 1. unfold members. rewrite filter_app, filter_cons_True by done.
    rewrite (filter_none _ (drop (S k) instrs)); [by rewrite last_snoc|]. apply Forall_forall. intros x Hx Heq.
    apply list_elem_of_lookup in Hx as [m Hm]. rewrite lookup_drop in Hm.
    assert (x ∈ instrs) as Hxin by by eapply list_elem_of_lookup_2.
    assert (di_address j <= di_address x) as Hle.
    { destruct m as [|m]; [rewrite Nat.add_0_r in Hm; simplify_eq; lia|].
      pose proof (StronglySorted_lookup_lt _ _ _ _ _ _ (tiles_sorted _ _ _ Htiles) Hj Hm ltac:(lia)) as Hlt. cbn in Hlt. lia. }
    pose proof (block_of_mono j x Hjin Hxin Hle). pose proof (block_of_mono i j Hi Hjin ltac:(lia)). lia.
Qed.

(** An instruction that ends a block is the last of its block. *)
Lemma ends_block_last k i j : instrs !! k = Some i -> instrs !! S k = Some j -> ends_block (di_flow i) = true ->
  block_of j <> block_of i.
Proof.
  intros Hk Hj Hends Heq. assert (i ∈ instrs) as Hi by by eapply list_elem_of_lookup_2.
  assert (j ∈ instrs) as Hjin by by eapply list_elem_of_lookup_2.
  destruct (instr_bounds i Hi) as (_ & Hpos & Hnext & _). destruct (instr_bounds j Hjin) as ([_ Hjhi] & _).
  assert (di_address j = next_of i) as Hja.
  { destruct (tiles_next _ _ _ k i Htiles Hk) as [[_ Hnone]|(j' & Hj' & Hja)]; simplify_eq; lia. }
  assert (di_address j ∈ leaders) as Hlead.
  { apply leaders_spec. right. exists i. split; [done|]. right. split_and!; [done|by rewrite Hja|done]. }
  apply list_elem_of_lookup in Hlead as [m Hm]. pose proof (lies_in_leader m _ Hm) as Hin.
  destruct (block_of_spec j Hjin) as (_ & _ & Hjl). pose proof (lies_in_inj _ _ _ Hin Hjl) as ->.
  destruct (block_of_spec i Hi) as (_ & _ & (x & Hx & Hxa & _)). rewrite <- Heq, Hm in Hx. injection Hx as <-. lia.
Qed.
(** ** The edges *)

Lemma find_decoded i : i ∈ instrs ->
  find (fun j => bool_decide (di_address j = address (di_line i))) instrs = Some i.
Proof.
  intros Hi. pose proof (tiles_lines _ _ _ Htiles) as Hl. eapply Forall_forall in Hl; [|exact Hi]. cbn in Hl. rewrite Hl.
  pose proof (tiles_sorted _ _ _ Htiles) as Hs. clear -Hi Hs. induction Hs as [|x l Hs IH Hx]; [by apply not_elem_of_nil in Hi|].
  cbn. apply elem_of_cons in Hi as [->|Hi]; [by rewrite bool_decide_eq_true_2|].
  eapply Forall_forall in Hx; [|exact Hi]. rewrite bool_decide_eq_false_2 by lia. by apply IH.
Qed.

Lemma block_edges_elem n b i e :
  blocks_of instrs leaders !! n = Some b -> last (members n instrs) = Some i ->
  e ∈ block_edges instrs fn_lo fn_hi leaders b <->
  exists a k m, (a, k) ∈ successors i /\ fn_lo <= a < fn_hi /\ lies_in a m /\ e = mkCfgEdge (Z.of_nat n) (Z.of_nat m) k.
Proof.
  intros Hb Hlast. rewrite blocks_lookup in Hb. unfold block_at in Hb. destruct (leaders !! n) as [x|]; [|done].
  injection Hb as <-. unfold block_edges. cbn [bb_lines bb_id].
  assert (i ∈ instrs) as Hi by (apply last_Some_elem_of in Hlast; by apply member_in in Hlast as [_ ?]).
  replace (last (map di_line (members n instrs))) with (Some (di_line i)) by (symmetry; etransitivity; [apply (fmap_last di_line)|by rewrite Hlast]).
  rewrite find_decoded by done. destruct (instr_bounds i Hi) as ([Hlo _] & Hpos & Hnext & _). unfold successors.
  assert (forall a k, fn_lo <= a -> e ∈ match block_id_for leaders a with
      | Some to => if in_function fn_lo fn_hi a then [mkCfgEdge (Z.of_nat n) to k] else []
      | None => []
      end <-> fn_lo <= a < fn_hi /\ exists m, lies_in a m /\ e = mkCfgEdge (Z.of_nat n) (Z.of_nat m) k) as Hto.
  { intros a k Ha. destruct (block_id_for_spec a Ha) as (m & -> & _ & Hm). unfold in_function.
    case_bool_decide as Hr; [|set_solver]. rewrite list_elem_of_singleton. split; [intros ->; split; [done|by exists m]|].
    intros [_ (m' & Hm' & ->)]. by rewrite (lies_in_inj _ _ _ Hm Hm'). }
  assert (forall a k, e ∈ match block_id_for leaders a with
      | Some to => if in_function fn_lo fn_hi a then [mkCfgEdge (Z.of_nat n) to k] else []
      | None => []
      end <-> fn_lo <= a < fn_hi /\ exists m, lies_in a m /\ e = mkCfgEdge (Z.of_nat n) (Z.of_nat m) k) as Htarget.
  { intros a k. destruct (decide (fn_lo <= a)); [by apply Hto|]. unfold in_function.
    rewrite bool_decide_eq_false_2 by lia. destruct (block_id_for leaders a); split; try set_solver; intros [? _]; lia. }
  assert (forall k, e ∈ match block_id_for leaders (next_of i) with
      | Some to => if decide (next_of i < fn_hi) then [mkCfgEdge (Z.of_nat n) to k] else []
      | None => []
      end <-> fn_lo <= next_of i < fn_hi /\ exists m, lies_in (next_of i) m /\ e = mkCfgEdge (Z.of_nat n) (Z.of_nat m) k) as Hn.
  { intros k. rewrite <- Hto by lia. unfold in_function. destruct (block_id_for leaders (next_of i)); [|done].
    destruct (decide (next_of i < fn_hi)); [by rewrite bool_decide_eq_true_2 by lia|by rewrite bool_decide_eq_false_2 by lia]. }
  pose (Q a k := fn_lo <= a < fn_hi /\ exists m, lies_in a m /\ e = mkCfgEdge (Z.of_nat n) (Z.of_nat m) k).
  match goal with |- _ <-> exists a k m, (a, k) ∈ ?l /\ _ => transitivity (Exists (fun s => Q s.1 s.2) l) end.
  - destruct (di_flow i) as [| | |t|t|]; rewrite ?elem_of_app, ?Hn, ?Htarget, ?Exists_cons, ?Exists_nil; unfold Q; cbn [fst snd];
      try (split; [intros ?%not_elem_of_nil|]; done); tauto.
  - rewrite Exists_exists. unfold Q. split.
    + intros ([a k] & Hin & Hr & m & Hm & He). by exists a, k, m.
    + intros (a & k & m & Hin & Hr & Hm & He). exists (a, k). by eauto.
Qed.
(** ** What the graph is *)

Lemma block_lookup n b : blocks_of instrs leaders !! n = Some b <->
  exists x, leaders !! n = Some x /\ b = mkBasicBlock (Z.of_nat n) x (map di_line (members n instrs)).
Proof.
  rewrite blocks_lookup. unfold block_at. rewrite fmap_Some. naive_solver.
Qed.

Lemma line_inj i j : i ∈ instrs -> j ∈ instrs -> di_line i = di_line j -> i = j.
Proof.
  intros Hi Hj E. pose proof (find_decoded i Hi) as H1. pose proof (find_decoded j Hj) as H2. rewrite E in H1. congruence.
Qed.

Lemma line_member i n : i ∈ instrs -> di_line i ∈ map di_line (members n instrs) <-> block_of i = n.
Proof.
  intros Hi. split.
  - intros (j & E & Hj)%list_elem_of_fmap. apply member_in in Hj as [Hb Hj]. by rewrite (line_inj _ _ Hi Hj E).
  - intros Hb. apply list_elem_of_fmap. exists i. split; [done|]. by apply member_in.
Qed.
Let blocks := blocks_of instrs leaders.

Lemma block_lookup' n b : blocks !! n = Some b <->
  exists x, leaders !! n = Some x /\ b = mkBasicBlock (Z.of_nat n) x (map di_line (members n instrs)).
Proof. by apply block_lookup. Qed.

Lemma starts : map bb_start_address blocks = leaders.
Proof.
  apply list_eq. intros n. rewrite list_lookup_fmap. destruct (blocks !! n) as [b|] eqn:E.
  - by apply block_lookup' in E as (x & -> & ->).
  - cbn. symmetry. apply lookup_ge_None. apply lookup_ge_None in E. unfold blocks in E.
    by rewrite blocks_length in E.
Qed.

Lemma holds_lies n addr : lies_in addr n -> holds_address blocks (Z.of_nat n) addr.
Proof.
  intros (x & Hx & Hxa & Hn). exists n. eexists. split; [done|]. split; [apply block_lookup'; by exists x|]. split; [done|].
  intros b' (y & Hy & ->)%block_lookup'. by apply Hn.
Qed.

(** The block an instruction is in. *)
Lemma own_block i : i ∈ instrs -> exists b, blocks !! block_of i = Some b /\ di_line i ∈ bb_lines b /\
  bb_id b = Z.of_nat (block_of i).
Proof.
  intros Hi. destruct (block_of_spec i Hi) as (_ & Hlt & _).
  destruct (lookup_lt_is_Some_2 _ _ Hlt) as [x Hx]. eexists. split; [apply block_lookup'; by exists x|].
  split; [|done]. cbn. by apply (line_member).
Qed.

Lemma own_block_unique i n b : i ∈ instrs -> blocks !! n = Some b -> di_line i ∈ bb_lines b ->
  n = block_of i.
Proof. intros Hi (x & _ & ->)%block_lookup' Hl. symmetry. by apply (line_member) in Hl. Qed.

Lemma blocks_are_exact : blocks_exact instrs fn_lo fn_hi blocks.
Proof.
  pose proof (leaders_spec) as [Hs Hl]. constructor.
  - by apply (blocks_lines).
  - by intros n b (x & _ & ->)%block_lookup'.
  - transitivity (head leaders); [rewrite <- starts; by destruct blocks|].
    assert (fn_lo ∈ leaders) as [k Hk]%list_elem_of_lookup by (apply Hl; by left). rewrite head_lookup.
    destruct k as [|k]; [exact Hk|exfalso].
    destruct (lookup_lt_is_Some_2 leaders 0) as [x Hx]; [apply lookup_lt_Some in Hk; lia|].
    pose proof (StronglySorted_lookup_lt _ _ _ _ _ _ Hs Hx Hk ltac:(lia)) as Hlt. cbn in Hlt.
    apply list_elem_of_lookup_2 in Hx. apply leaders_range in Hx. lia.
  - by rewrite starts.
  - intros b l [n Hn]%list_elem_of_lookup Hlin. pose proof Hn as (x & Hx & ->)%block_lookup'. cbn [bb_lines bb_id] in *.
    apply list_elem_of_fmap in Hlin as (i & -> & Hi). apply member_in in Hi as [Hb Hi].
    pose proof (tiles_lines _ _ _ Htiles) as Hlines. eapply Forall_forall in Hlines; [|exact Hi]. cbn in Hlines. rewrite Hlines.
    apply holds_lies. rewrite <- Hb. by apply block_of_spec.
  - intros i t Hi Ht Hr. rewrite starts. apply Hl. right. exists i. split; [done|]. by left.
  - intros k i j b Hk Hj [n Hn]%list_elem_of_lookup Hil Hjl. apply not_true_iff_false. intros Hends.
    apply (ends_block_last k i j Hk Hj Hends).
    rewrite <- (own_block_unique i n b), <- (own_block_unique j n b); try done; by eapply list_elem_of_lookup_2.
Qed.

Lemma edges_are_exact : edges_exact instrs fn_lo fn_hi blocks (blocks ≫= block_edges instrs fn_lo fn_hi leaders).
Proof.
  constructor.
  - intros k i a kd Hk Hsucc Ha. assert (i ∈ instrs) as Hi by by eapply list_elem_of_lookup_2.
    destruct (own_block i Hi) as (b & Hb & Hil & Hid). assert (b ∈ blocks) as Hbin by by eapply list_elem_of_lookup_2.
    assert (last (members (block_of i) instrs) = Some i ->
      exists e b, e ∈ blocks ≫= block_edges instrs fn_lo fn_hi leaders /\ b ∈ blocks /\ di_line i ∈ bb_lines b /\
        from_id e = bb_id b /\ holds_address blocks (to_id e) a /\ kind e = kd) as Hedge.
    { intros Hlast. destruct (block_id_for_spec a ltac:(lia)) as (m & _ & _ & Hm).
      exists (mkCfgEdge (bb_id b) (Z.of_nat m) kd), b. split; [|split_and!; [done..|by apply holds_lies|done]].
      apply list_elem_of_bind. exists b. split; [|done].
      apply (block_edges_elem _ b i _ Hb Hlast). rewrite Hid. by eauto 8. }
    destruct (last_or_next k i Hk) as [Hlast|(j & Hj & Hja & Hjb)];
      [left; by apply Hedge|].
    assert (ends_block (di_flow i) = false) as Hends.
    { apply not_true_iff_false. intros Hends.
      by apply (ends_block_last k i j Hk Hj Hends). }
    right. exists j, b. split; [done|]. split; [|split_and!; [done..|]].
    + unfold successors in Hsucc. destruct (di_flow i); try done; apply list_elem_of_singleton in Hsucc; congruence.
    + assert (j ∈ instrs) as Hjin by by eapply list_elem_of_lookup_2. destruct (own_block j Hjin) as (b' & Hb' & Hjl & _).
      rewrite Hjb, Hb in Hb'. by injection Hb' as ->.
  - intros e (b & He & Hb)%list_elem_of_bind. apply list_elem_of_lookup in Hb as [n Hn].
    pose proof Hn as (x & Hx & Heq)%block_lookup'. destruct (last (members n instrs)) as [i|] eqn:Hlast.
    + pose proof Hlast as Hmem. apply last_Some_elem_of in Hmem. apply member_in in Hmem as [_ Hi].
      destruct (proj1 (block_edges_elem n b i e Hn Hlast) He) as (a & k & m & Hs & Ha & Hm & He'). rewrite He'.
      exists i, b, a. split; [done|]. split; [by eapply list_elem_of_lookup_2|]. split; [by subst b|].
      split; [|split; [done|]; split; [done|by apply holds_lies]].
      subst b. cbn. etransitivity; [apply (fmap_last di_line)|by rewrite Hlast].
    + exfalso. apply last_None in Hlast. subst b. unfold block_edges in He. cbn [bb_lines] in He. rewrite Hlast in He.
      by apply not_elem_of_nil in He.
Qed.
End Proofs.

(** ** Decoding lays the instructions end to end *)

(** A decoder of amd64 code reports lengths that lie in the bytes it was given. *)
Class Amd64Laws (AMD64 : Decoder) := {
  len_in_bytes : forall bytes instr, decode bytes = inl instr -> (1 <= instr_len instr <= length bytes)%nat
}.

Section Decoded.
Context `{HighlighterLaws} (base : Z) (self_lookup : Z -> Z * Z).

Lemma decode_aarch64_tiles A64 `{!A64View A64} : forall n bytes offset,
  length bytes = (4 * n)%nat -> 0 <= base -> 0 <= offset -> base + offset + Z.of_nat (length bytes) < 2 ^ 64 ->
  exists out, decode_aarch64 base self_lookup A64 bytes offset = Ret out /\ length out = n /\
    tiles (base + offset) (base + offset + Z.of_nat (length bytes)) out.
Proof.
  induction n as [|n IH]; intros bytes offset Hn Hb Ho Hhi; destruct (list_split4 bytes) as [(b0 & b1 & b2 & b3 & rest & ->)|Hshort];
    cbn [length] in *; try lia.
  - exists []. destruct bytes; [|cbn in Hn; lia]. cbn. split_and!; [done..|lia].
  - cbn [decode_aarch64]. set (addr := wadd64 base offset). assert (addr = base + offset) as Ha by (apply wadd64_small; lia).
    destruct (match decode _ with inl _ => _ | inr _ => _ end) as [asm flow].
    destruct (asm_line_shows self_lookup addr asm) as (l & -> & (Hl & _)). cbn [then_do].
    destruct (IH rest (offset + 4)) as (out & -> & Hlen & Ht); [lia..|]. cbn [then_do].
    eexists. split; [done|]. split; [cbn; by rewrite Hlen|]. cbn [tiles di_address di_length di_line].
    split; [done|]. split; [by rewrite Hl|]. split; [lia|].
    replace (base + offset + 4) with (base + (offset + 4)) by lia.
    replace (base + offset + Z.of_nat (S (S (S (S (length rest)))))) with (base + (offset + 4) + Z.of_nat (length rest)) by lia. done.
Qed.

Lemma decode_amd64_tiles AMD64 `{!X86View AMD64} `{!Amd64Laws AMD64} : forall fuel bytes offset,
  (length bytes <= fuel)%nat -> 0 <= base -> 0 <= offset -> base + offset + Z.of_nat (length bytes) < 2 ^ 64 ->
  exists out, decode_amd64 base self_lookup AMD64 fuel bytes offset = Ret out /\ (length out <= length bytes)%nat /\
    (bytes <> [] -> out <> []) /\ tiles (base + offset) (base + offset + Z.of_nat (length bytes)) out.
Proof.
  induction fuel as [|fuel IH]; intros bytes offset Hf Hb Ho Hhi.
  - exists []. destruct bytes; [|cbn in Hf; lia]. cbn. split_and!; [done..|lia].
  - destruct bytes as [|b rest]; [exists []; cbn; split_and!; [done..|lia]|]. cbn [decode_amd64]. set (bs := b :: rest) in *.
    set (addr := wadd64 base offset). assert (addr = base + offset) as Ha by (apply wadd64_small; lia).
    assert (exists asm flow len, (match decode bs with
        | inl instr => (show instr, classify_x86 (x86_opcode instr) (x86_operand0 instr) (wadd64 addr (Z.of_nat (instr_len instr))),
                        Z.of_nat (instr_len instr), Nat.max (instr_len instr) 1)
        | inr err => (decode_error err, Sequential, 1, 1%nat)
        end) = (asm, flow, Z.of_nat len, len) /\ (1 <= len <= length bs)%nat) as (asm & flow & len & -> & Hlen).
    { destruct (decode bs) as [instr|err] eqn:E.
      - pose proof (len_in_bytes bs instr E). eexists _, _, (instr_len instr). rewrite Nat.max_l by lia. split; [done|lia].
      - exists (decode_error err), Sequential, 1%nat. split; [done|]. cbn. lia. }
    destruct (asm_line_shows self_lookup addr asm) as (l & -> & (Hl & _)). cbn [then_do].
    assert (length (drop len bs) = length bs - len)%nat as Hd by apply length_drop.
    destruct (IH (drop len bs) (offset + Z.of_nat len)) as (out & -> & Ho1 & _ & Ht); [lia..|]. cbn [then_do].
    eexists. split; [done|]. split; [cbn [length]; lia|]. split; [done|]. cbn [tiles di_address di_length di_line].
    split; [done|]. split; [by rewrite Hl|]. split; [lia|].
    replace (base + offset + Z.of_nat len) with (base + (offset + Z.of_nat len)) by lia.
    replace (base + offset + Z.of_nat (length bs)) with (base + (offset + Z.of_nat len) + Z.of_nat (length (drop len bs))) by lia. done.
Qed.
End Decoded.

(** The graph is made of the lines of the listing. *)
Definition lines_of (x : outcome (list DecodedInstr)) : outcome (list AnnotatedLine) := then_do x (fun out => Ret (map di_line out)).

Lemma aarch64_same_lines `{HL : Highlighter} base self_lookup A64 `{!A64View A64} : forall n bytes offset, (length bytes <= n)%nat ->
  lines_of (decode_aarch64 base self_lookup A64 bytes offset) = aarch64_loop A64 base self_lookup bytes offset.
Proof.
  induction n as [|n IH]; intros bytes offset Hn; destruct (list_split4 bytes) as [(b0 & b1 & b2 & b3 & rest & ->)|Hshort];
    try (by destruct bytes as [|? [|? [|? [|]]]]; cbn in *; try lia); cbn [length] in *; [lia|].
  cbn [decode_aarch64 aarch64_loop]. rewrite <- (IH rest (offset + 4)) by lia.
  destruct (decode [b0; b1; b2; b3]); (destruct (asm_line self_lookup (wadd64 base offset) _); [|done]); cbn [then_do];
    by destruct (decode_aarch64 base self_lookup A64 rest (offset + 4)).
Qed.

Lemma amd64_same_lines `{HL : Highlighter} base self_lookup AMD64 `{!X86View AMD64} : forall fuel bytes offset,
  lines_of (decode_amd64 base self_lookup AMD64 fuel bytes offset) = amd64_loop AMD64 base self_lookup fuel bytes offset.
Proof.
  induction fuel as [|fuel IH]; intros bytes offset; [done|]. destruct bytes as [|b rest]; [done|].
  cbn [decode_amd64 amd64_loop]. destruct (decode (b :: rest));
    (destruct (asm_line self_lookup (wadd64 base offset) _); [|done]); cbn [then_do]; rewrite <- IH;
    by destruct (decode_amd64 _ _ _ _ _ _).
Qed.

(** ** The leaders are few *)

Lemma set_insert_length x l : (length (set_insert x l) <= S (length l))%nat.
Proof. induction l as [|y l IH]; cbn; [lia|]. destruct (x ?= y); cbn; lia. Qed.

Lemma leaders_length lo hi first instrs : (length (leaders_of instrs lo hi first) <= 1 + 2 * length instrs)%nat.
Proof.
  unfold leaders_of. enough (forall l ls, length (foldl (leader_step lo hi) ls l) <= length ls + 2 * length l)%nat as H.
  { specialize (H instrs [di_address first]). cbn [length] in H. cbn [set_insert]. lia. }
  induction l as [|i l IH]; intros ls; cbn [foldl length]; [lia|]. specialize (IH (leader_step lo hi ls i)).
  enough (length (leader_step lo hi ls i) <= 2 + length ls)%nat by lia. unfold leader_step.
  set (targets := match branch_target _ with Some _ => _ | None => _ end).
  assert (length targets <= S (length ls))%nat.
  { unfold targets. destruct (branch_target _) as [t|]; [|lia]. destruct (in_function lo hi t); [apply set_insert_length|lia]. }
  pose proof (set_insert_length (next_of i) targets). case_decide; [lia|]. destruct (ends_block _); lia.
Qed.

(** C37. The control-flow graph of a function, on x86-64 or, if its size is a multiple of
    four, on AArch64, is that of its instructions. Its blocks hold the lines of the
    annotated view, all of them, in order; they are numbered in order of their
    starts, the first is the entry, and each holds what lies between its start and
    the next one's; inside a block control only goes on to the next instruction, and
    whatever is jumped to starts a block. Its edges are exactly the ways control can
    leave a block for an address of the function, a call going on to the next
    instruction: each comes from the last instruction of its block, and each way on
    of any instruction is an edge or the step to the next one in its block. A call
    ends no block, and where the instruction behind one starts a block the edge is
    of kind [Call] wherever the call goes, both unlike the protocol documents. *)
Theorem cfg_update_exact `{HighlighterLaws} `{BinarySearch} A64 AMD64 `{!A64View A64} `{!X86View AMD64} `{!Amd64Laws AMD64}
    target_arch r queried name language self_lookup :
  let arch := arch_arm (default (host_arch target_arch) (Bin.ra_arch r)) in
  let lo := Bin.base_address r in
  let hi := lo + Z.of_nat (length (Bin.ra_bytes r)) in
  is_Some arch -> (arch = Some Aarch64 -> (4 | length (Bin.ra_bytes r))%nat) ->
  Bin.ra_bytes r <> [] -> 0 <= lo -> hi < 2 ^ 64 -> Z.of_nat (length (Bin.ra_bytes r)) < 2 ^ 31 ->
  exists instrs u,
    disassemble A64 AMD64 target_arch r self_lookup = Ret (map di_line instrs) /\ tiles lo hi instrs /\
    compute_cfg_update A64 AMD64 target_arch r queried name language self_lookup = Ret u /\
    blocks_exact instrs lo hi (cu_blocks u) /\ edges_exact instrs lo hi (cu_blocks u) (cu_edges u).
Proof.
  intros arch lo hi [a Ha] Hwords Hne Hlo Hhi Hsize. set (bytes := Bin.ra_bytes r) in *.
  assert (exists instrs, match arch with
      | Some Aarch64 => decode_aarch64 lo self_lookup A64 bytes 0
      | Some Amd64 => decode_amd64 lo self_lookup AMD64 (length bytes) bytes 0
      | None => Ret []
      end = Ret instrs /\ (length instrs <= length bytes)%nat /\ instrs <> [] /\ tiles lo hi instrs) as (instrs & Hdec & Hlen & Hne' & Ht).
  { rewrite Ha. destruct a.
    - destruct (Hwords Ha) as [n Hn]. destruct (decode_aarch64_tiles lo self_lookup A64 n bytes 0) as (out & Hout & Hlen & Ht); [lia..|].
      exists out. split; [done|]. split; [lia|]. rewrite Z.add_0_r in Ht. split; [|done].
      intros ->. destruct bytes; [done|]. cbn in *. lia.
    - destruct (decode_amd64_tiles lo self_lookup AMD64 (length bytes) bytes 0) as (out & Hout & Hlen & Ho & Ht); [lia..|].
      exists out. rewrite Z.add_0_r in Ht. by split_and!; [|lia|apply Ho|]. }
  destruct instrs as [|first rest] eqn:Ei; [done|]. rewrite <- Ei in *.
  assert (head instrs = Some first) as Hfirst by by rewrite Ei.
  assert (Z.of_nat (length (leaders_of instrs lo hi first)) <= 2 ^ 32) as Hcount
    by (pose proof (leaders_length lo hi first instrs); lia).
  exists instrs. eexists. split; [|split; [done|]].
  - transitivity (lines_of (Ret instrs)); [|done]. rewrite <- Hdec. unfold disassemble, disassemble_aarch64, disassemble_amd64.
    fold arch. rewrite Ha. destruct a; symmetry; [by eapply aarch64_same_lines|apply amd64_same_lines].
  - unfold compute_cfg_update. fold arch lo bytes. rewrite Hdec. cbn [then_do].
    rewrite wadd64_small by lia. fold hi. unfold build_blocks_and_edges. rewrite Ei at 1.
    split; [done|]. cbn [cu_blocks cu_edges]. split; [by apply blocks_are_exact|by apply edges_are_exact].
Qed.

(** ** Examples *)

#[local] Existing Instance Annotate.demo_plain.
#[local] Existing Instance Annotate.demo_laws.
#[local] Existing Instance first_search.

(** Words that start with 1 branch to the next word. *)
Definition demo_words : Decoder :=
  {| Instr := Z; decode := fun bytes => match bytes with b :: _ => inl b | [] => inr [] end;
     show := fun b => [b]; instr_len := fun _ => 1%nat |}.

#[local] Instance demo_words_view : A64View demo_words :=
  {| a64_opcode := fun b : Instr (Decoder := demo_words) => if decide (b = 1 :> Z) then B else OtherA64; a64_operands := fun _ _ => PCOffset 4 |}.

#[local] Instance demo_bytes_view : X86View demo_words :=
  {| x86_opcode := fun b : Instr (Decoder := demo_words) => if decide (b = 1 :> Z) then CALL else OtherX86; x86_operand0 := fun _ => OtherX86Operand |}.

#[local] Instance demo_bytes_laws : Amd64Laws demo_words.
Proof. constructor. intros [|b bytes] instr; [done|]. cbn. lia. Qed.

Definition demo_code (bytes : list Z) : Bin.ResolvedAddress :=
  Bin.mkResolvedAddress [] (Some (str "aarch64")) (str "test") Demangle.Unknown 0x1000 0x1008 bytes 0x1000 None.

(** The unit test of [cfg.rs]: a branch over nothing. *)
Lemma cfg_update_exact_witness :
  exists u, compute_cfg_update demo_words demo_words (str "aarch64") (demo_code [1; 0; 0; 20; 31; 32; 3; 213]) 0x1000
      (str "test") (str "rust") (fun _ => (0, 0)) = Ret u /\
    map bb_start_address (cu_blocks u) = [0x1000; 0x1004] /\ cu_edges u = [mkCfgEdge 0 1 Kind.Branch].
Proof.
  destruct (cfg_update_exact demo_words demo_words (str "aarch64") (demo_code [1; 0; 0; 20; 31; 32; 3; 213]) 0x1000
    (str "test") (str "rust") (fun _ => (0, 0))) as (instrs & u & _ & _ & Hu & _);
    [by eexists|intros _; by exists 2%nat|done|done|done|done|].
  exists u. split; [exact Hu|]. vm_compute in Hu. by injection Hu as <-.
Defined.

(** A call has an edge wherever the instruction behind it starts a block; where it
    goes is not looked at. *)
Example call_edge :
  let i addr flow := mkDecodedInstr addr 1 (mkAnnotatedLine addr [] 0 0 None) flow in
  (build_blocks_and_edges [i 0 (ConditionalBranch 3); i 1 Sequential; i 2 Call; i 3 Return] 0 4).2 =
  [mkCfgEdge 0 2 Kind.ConditionalBranch; mkCfgEdge 0 1 Kind.Fallthrough; mkCfgEdge 1 2 Kind.Call].
Proof. vm_compute. reflexivity. Qed.

(** Bytes behind the last whole word are taken for an instruction of its block: a
    function that does not loop shows a loop. *)
Example trailing_bytes_loop :
  exists u, compute_cfg_update demo_words demo_words (str "aarch64") (demo_code [0; 0; 0; 0; 7]) 0x1000 [] [] (fun _ => (0, 0)) =
    Ret u /\ cu_edges u = [mkCfgEdge 0 0 Kind.Fallthrough].
Proof. eexists. split; [vm_compute; reflexivity|reflexivity]. Qed.
End Cfg.
