(* ===== verification/EvalGraph.v ===== *)
(** * Evaluation graphs

    The import of a lazy-evaluation capture and the queries over it,
    [stax-eval-graph/src/lib.rs], and the registry of imported captures of the
    server, [stax-server/src/eval_graph.rs].  A capture is a file of JSON records,
    one a line; a [String] is its UTF-8 bytes.  The JSON reader ([serde_json])
    and the Unicode tables of the standard library are arguments. *)

From S2P Require Import Prelude Order Text.

Module EvalGraph.

Import Order Text.

(** ** What the code calls *)

(** [serde_json] with its numbers kept as they are written. *)
Class JsonNumber := {
  number : Type;
  number_u64 : number -> option Z;
  number_i64 : number -> option Z;
  number_text : number -> list Z;
  number_u64_range : forall n z, number_u64 n = Some z -> is_u64 z
}.

Inductive Value `{JsonNumber} :=
  | Null
  | Boolean (b : bool)
  | Number (n : number)
  | Text (s : list Z)
  | Array (l : list Value)
  | Object (m : list (list Z * Value)).

(** [from_slice], or the text of its error. *)
Class Json := {
  json_number :: JsonNumber;
  from_slice : list Z -> Value + list Z
}.

(** [str::to_lowercase] and the [Debug] form of a [str]. *)
Class Unicode := {
  to_lowercase : list Z -> list Z;
  debug_str : list Z -> list Z
}.

(** ** Results *)

Definition result (A : Type) : Type := A + list Z.

Definition ok_or {A} (o : option A) (e : list Z) : result A :=
  match o with Some a => inl a | None => inr e end.

Notation "'let?' x := r 'in' k" := (match r with inl x => k | inr e => inr e end)
  (at level 10, x name, r at level 200, k at level 200).

Fixpoint collect {A B} (f : A -> result B) (l : list A) : result (list B) :=
  match l with
  | [] => inl []
  | a :: l => let? b := f a in let? bs := collect f l in inl (b :: bs)
  end.

(** ** Text *)

Fixpoint dec_rev (fuel : nat) (n : Z) : list Z :=
  match fuel with
  | O => []
  | S fuel => (48 + n mod 10) :: if decide (n < 10) then [] else dec_rev fuel (n / 10)
  end.

(** [to_string] of an integer of at most 128 bits. *)
Definition dec (n : Z) : list Z := reverse (dec_rev 40 n).

Fixpoint digits (max acc : Z) (s : list Z) : option Z :=
  match s with
  | [] => Some acc
  | c :: s =>
      if decide (48 <= c <= 57 /\ acc * 10 + (c - 48) <= max) then digits max (acc * 10 + (c - 48)) s
      else None
  end.

(** [parse] of an unsigned integer up to [max]. *)
Definition parse_unsigned (max : Z) (s : list Z) : option Z :=
  let s := match s with 43 :: s => s | _ => s end in
  if decide (s = []) then None else digits max 0 s.

Definition u128_max : Z := 2 ^ 128 - 1.

(** [chars().take(n)], of the bytes. *)
Fixpoint chars_take (n : nat) (s : list Z) : list Z :=
  match s with
  | [] => []
  | b :: s =>
      if is_cont b then b :: chars_take n s
      else match n with O => [] | S n => b :: chars_take n s end
  end.

(** The greatest character boundary not above [end_]. *)
Fixpoint boundary_below (t : list Z) (end_ : nat) : nat :=
  if is_char_boundary t end_ then end_
  else match end_ with O => O | S end_ => boundary_below t end_ end.

(** ** Data *)

Record GraphSite := mkGraphSite {
  gs_module : Z; gs_id : Z; gs_defined : bool; gs_kind : list Z; gs_name : list Z; gs_file : list Z;
  gs_start : Z; gs_end : Z; gs_line : Z; gs_column : Z; gs_params : list (list Z)
}.

Record GraphAttribute := mkGraphAttribute { ga_name : list Z; ga_value : list Z }.

Record GraphNode := mkGraphNode {
  gn_id : list Z; gn_kind : list Z; gn_label : list Z; gn_defined : bool; gn_seq : Z; gn_ts_ns : Z;
  gn_site : option GraphSite; gn_preview : option (list Z); gn_preview_truncated : bool;
  gn_attributes : list GraphAttribute
}.

Record GraphEdge := mkGraphEdge {
  ge_from : list Z; ge_to : list Z; ge_relation : list Z; ge_argument_index : option Z;
  ge_state : option Z; ge_count : Z; ge_first_seq : Z; ge_last_seq : Z; ge_first_ts_ns : Z;
  ge_last_ts_ns : Z
}.

Record GraphExecution := mkGraphExecution {
  gx_seq : Z; gx_ts_ns : Z; gx_workers : Z; gx_status : list Z; gx_execution : option Z;
  gx_module : option Z
}.

Record GraphCounts := mkGraphCounts {
  body_starts : Z; force_requests : Z; created : Z; cache_compute : Z; cache_hit : Z; cache_wait : Z;
  overflow : bool
}.

Record GraphSummary := mkGraphSummary {
  su_capture_id : Z; su_path : list Z; su_semantics : list Z; su_capture_mode : list Z;
  su_counts : option GraphCounts; su_counts_exact : bool; su_scope : list Z;
  su_selection : option (list Z); su_max_bytes : option Z; su_partial_reason : option (list Z);
  su_complete : bool; su_records : Z; su_nodes : Z; su_relations : Z; su_invocations : Z;
  su_force_requests : Z; su_cache_computes : Z; su_cache_hits : Z; su_cache_waits : Z;
  su_missing_endpoints : Z; su_executions : list GraphExecution; su_diagnostic_count : Z;
  su_diagnostics : list (list Z)
}.

Record Limits := mkLimits {
  lm_bytes : Z; lm_record_bytes : Z; lm_records : Z; lm_nodes : Z; lm_relations : Z; lm_executions : Z
}.

Definition limits_default : Limits :=
  mkLimits (256 * 1024 * 1024) (1024 * 1024) 2000000 1000000 2000000 1000.

Abbreviation SiteKey := (Z * Z)%type.
Abbreviation EdgeKey := (list Z * list Z * list Z * option Z * option Z)%type.

Record CountExecution := mkCountExecution {
  ce_module : Z; ce_workers : Z; ce_terminal : bool; ce_sites : gset Z
}.

Record Graph := mkGraph {
  summary : GraphSummary;
  nodes : gmap (list Z) GraphNode;
  sites : gmap SiteKey GraphSite;
  modules : gset Z;
  counts : gmap SiteKey GraphCounts;
  count_executions : gmap Z CountExecution;
  edges : gmap EdgeKey GraphEdge;
  adjacency : gmap (list Z) (list EdgeKey)
}.

#[export] Instance eta_GraphNode : Eta GraphNode := fun n =>
  mkGraphNode (gn_id n) (gn_kind n) (gn_label n) (gn_defined n) (gn_seq n) (gn_ts_ns n) (gn_site n)
    (gn_preview n) (gn_preview_truncated n) (gn_attributes n).

#[export] Instance eta_GraphEdge : Eta GraphEdge := fun e =>
  mkGraphEdge (ge_from e) (ge_to e) (ge_relation e) (ge_argument_index e) (ge_state e) (ge_count e)
    (ge_first_seq e) (ge_last_seq e) (ge_first_ts_ns e) (ge_last_ts_ns e).

#[export] Instance eta_CountExecution : Eta CountExecution := fun x =>
  mkCountExecution (ce_module x) (ce_workers x) (ce_terminal x) (ce_sites x).

#[export] Instance eta_GraphSummary : Eta GraphSummary := fun s =>
  mkGraphSummary (su_capture_id s) (su_path s) (su_semantics s) (su_capture_mode s) (su_counts s)
    (su_counts_exact s) (su_scope s) (su_selection s) (su_max_bytes s) (su_partial_reason s)
    (su_complete s) (su_records s) (su_nodes s) (su_relations s) (su_invocations s)
    (su_force_requests s) (su_cache_computes s) (su_cache_hits s) (su_cache_waits s)
    (su_missing_endpoints s) (su_executions s) (su_diagnostic_count s) (su_diagnostics s).

#[export] Instance eta_Graph : Eta Graph := fun g =>
  mkGraph (summary g) (nodes g) (sites g) (modules g) (counts g) (count_executions g) (edges g)
    (adjacency g).

Definition counts_default : GraphCounts := mkGraphCounts 0 0 0 0 0 0 false.

Definition site_default (m s : Z) : GraphSite := mkGraphSite m s false [] [] [] 0 0 0 0 [].

(** A [BTreeMap]'s entries in the order of their keys. *)
Definition in_order {K V} `{Countable K} (cmp : K -> K -> comparison) (m : gmap K V) : list (K * V) :=
  sort_by (le_of (fun a b => cmp a.1 b.1)) (map_to_list m).

Definition site_cmp (a b : SiteKey) : comparison := then_with (a.1 ?= b.1) (a.2 ?= b.2).

Definition key_from (k : EdgeKey) : list Z := k.1.1.1.1.
Definition key_to (k : EdgeKey) : list Z := k.1.1.1.2.

Definition edge_cmp (a b : EdgeKey) : comparison :=
  then_with (bytes_cmp (key_from a) (key_from b))
    (then_with (bytes_cmp (key_to a) (key_to b))
      (then_with (bytes_cmp a.1.1.2 b.1.1.2)
        (then_with (option_cmp Z.compare a.1.2 b.1.2) (option_cmp Z.compare a.2 b.2)))).

(** ** Reading a record *)

(** [match to.checked_add(from) { Some(n) => n, None => { overflow = true; u64::MAX } }] *)
Definition counted (a b : Z) : Z * bool :=
  if decide (a + b <= u64_max) then (a + b, false) else (u64_max, true).

Definition add_counts (to from : GraphCounts) : GraphCounts :=
  let '(a, o1) := counted (body_starts to) (body_starts from) in
  let '(b, o2) := counted (force_requests to) (force_requests from) in
  let '(c, o3) := counted (created to) (created from) in
  let '(d, o4) := counted (cache_compute to) (cache_compute from) in
  let '(e, o5) := counted (cache_hit to) (cache_hit from) in
  let '(f, o6) := counted (cache_wait to) (cache_wait from) in
  mkGraphCounts a b c d e f (overflow to || o1 || o2 || o3 || o4 || o5 || o6 || overflow from).

Section Reading.
Context {J : Json} {U : Unicode}.

Definition get (v : Value) (key : string) : option Value :=
  match v with
  | Object m => snd <$> find (fun e => bool_decide (e.1 = str key)) m
  | _ => None
  end.

Definition as_u64 (v : Value) : option Z := match v with Number n => number_u64 n | _ => None end.
Definition as_i64 (v : Value) : option Z := match v with Number n => number_i64 n | _ => None end.
Definition as_bool (v : Value) : option bool := match v with Boolean b => Some b | _ => None end.
Definition as_str (v : Value) : option (list Z) := match v with Text s => Some s | _ => None end.
Definition as_array (v : Value) : option (list Value) := match v with Array l => Some l | _ => None end.
Definition as_number (v : Value) : option number := match v with Number n => Some n | _ => None end.
Definition is_null (v : Value) : bool := match v with Null => true | _ => false end.

Definition num (v : Value) (key : string) : result Z :=
  ok_or (get v key ≫= as_u64) (str key ++ str " must be an unsigned integer").

Definition id (v : Value) (key : string) : result Z :=
  let? n := num v key in
  if decide (n = 0) then inr (str key ++ str " must be nonzero") else inl n.

Definition text (v : Value) (key : string) : result (list Z) :=
  let? s := ok_or (get v key ≫= as_str) (str key ++ str " must be a string") in
  if decide (16 * 1024 < length s)%nat then inr (str key ++ str " exceeds 16 KiB text limit") else inl s.

Fixpoint set_attr (key value : list Z) (l : list GraphAttribute) : list GraphAttribute :=
  match l with
  | [] => [mkGraphAttribute key value]
  | a :: l => if decide (ga_name a = key) then mkGraphAttribute (ga_name a) value :: l
              else a :: set_attr key value l
  end.

Definition attr (key value : list Z) (n : GraphNode) : GraphNode :=
  n <| gn_attributes ::= set_attr key value |>.

Definition page (offset limit : Z) : result (nat * nat) :=
  if decide (limit = 0 \/ 200 < limit) then inr (str "limit must be 1..=200")
  else inl (Z.to_nat offset, Z.to_nat limit).

Definition set_summary (f : GraphSummary -> GraphSummary) (g : Graph) : Graph := g <| summary ::= f |>.

(** A message is stored up to its 512th byte. *)
Definition diagnostic (message : list Z) : Graph -> Graph := set_summary (fun s =>
  let s := s <| su_diagnostic_count ::= fun n => n + 1 |> in
  if decide (length (su_diagnostics s) < 100)%nat
  then s <| su_diagnostics ::= fun l => l ++ [take (boundary_below message (Nat.min (length message) 512)) message] |>
  else s).

Definition placeholder (key : list Z) (kind : string) (g : Graph) : Graph :=
  match nodes g !! key with
  | Some _ => g
  | None => g <| nodes ::= insert key (mkGraphNode key (str kind) (str "missing " ++ key) false 0 0 None None false []) |>
  end.

Definition define (node : GraphNode) (g : Graph) : Graph * bool :=
  match nodes g !! gn_id node with
  | Some old =>
      if gn_defined old then (diagnostic (str "duplicate node definition " ++ gn_id node) g, false) else
      let node := node <| gn_preview := gn_preview old |>
                       <| gn_preview_truncated := gn_preview_truncated old |>
                       <| gn_attributes ::= fun l => l ++ gn_attributes old |> in
      (g <| nodes ::= insert (gn_id node) node |>, true)
  | None => (g <| nodes ::= insert (gn_id node) node |>, true)
  end.

Definition thunk (v : Value) (seq : Z) : result (list Z * bool) :=
  let? t := ok_or (get v "thunk") (str "missing thunk") in
  let? identity := text t "identity" in
  if decide (identity = str "allocated") then
    let? n := id t "id" in inl (str "thunk:" ++ dec n, true)
  else if decide ((identity = str "unknown_external" \/ identity = str "null") /\
                  is_null <$> get t "id" = Some true)
  then inl (str "unresolved:" ++ dec seq ++ str ":" ++ identity, false)
  else inr (str "invalid thunk identity/id combination").

(** ** The graph under a record

    A statement that works on a state and may return early with an error; what it
    has changed before stays changed. *)
Definition M (S A : Type) : Type := S -> outcome (S * result A).

Definition ret {S A} (a : A) : M S A := fun s => Ret (s, inl a).
Definition fail {S A} (e : list Z) : M S A := fun s => Ret (s, inr e).
Definition lift {S A} (r : result A) : M S A := fun s => Ret (s, r).
Definition bind {S A B} (m : M S A) (k : A -> M S B) : M S B := fun s =>
  then_do (m s) (fun '(s, r) => match r with inl a => k a s | inr e => Ret (s, inr e) end).
Definition reads {S A} (f : S -> A) : M S A := fun s => Ret (s, inl (f s)).
Definition modify {S} (f : S -> S) : M S unit := fun s => Ret (f s, inl tt).
Definition unwrap {S A} (o : option A) : M S A := fun s =>
  match o with Some a => Ret (s, inl a) | None => Panic end.

Notation "'let*' x := m 'in' k" := (bind m (fun x => k)) (at level 10, x pattern, m at level 200, k at level 200).
Notation "m ;; k" := (bind m (fun _ => k)).

Definition counts_mode (g : Graph) : bool := bool_decide (su_capture_mode (summary g) = str "counts").

(** [self.nodes.get_mut(key).unwrap()] *)
Definition update_node (key : list Z) (f : GraphNode -> GraphNode) : M Graph unit :=
  let* n := reads (fun g => nodes g !! key) in
  let* n := unwrap n in
  modify (fun g => g <| nodes ::= insert key (f n) |>).

Definition record_module (v : Value) : M Graph unit :=
  let* m := lift (id v "module") in
  let* known := reads (fun g => bool_decide (m ∈ modules g)) in
  if known then modify (diagnostic (str "duplicate module " ++ dec m))
  else modify (fun g => g <| modules ::= union {[m]} |>).

Definition param_name (p : Value) : result (list Z) :=
  ok_or (s ← as_str p; if decide (length s <= 1024)%nat then Some s else None)
    (str "params must contain strings of <=1024 bytes").

Definition site_text (v : Value) (module site : Z) (params : list (list Z)) : result GraphSite :=
  let? kind := text v "kind" in
  let? name := text v "name" in
  let? file := text v "file" in
  let? start := num v "start" in
  let? end_ := num v "end" in
  let? line := num v "line" in
  let? column := num v "column" in
  inl (mkGraphSite module site true kind name file start end_ line column params).

Definition record_site (v : Value) : M Graph unit :=
  let* m := lift (id v "module") in
  let* i := lift (id v "site") in
  let* params := lift (ok_or (get v "params" ≫= as_array) (str "params must be an array")) in
  if decide (256 < length params)%nat then fail (str "site has more than 256 parameters") else
  let* params := lift (collect param_name params) in
  let* site := lift (site_text v m i params) in
  if decide (gs_end site < gs_start site) then fail (str "source end precedes start") else
  let* known := reads (fun g => bool_decide (is_Some (sites g !! (m, i)))) in
  if known then modify (diagnostic (str "duplicate site " ++ dec m ++ str ":" ++ dec i))
  else modify (fun g => g <| sites ::= insert (m, i) site |>).

Definition birth (v : Value) : result (option Z) :=
  match get v "born_ns" with
  | Some value =>
      let? n := ok_or (as_number value) (str "born_ns must be an unsigned integer") in
      let? born := ok_or (parse_unsigned u128_max (number_text n)) (str "born_ns must be an unsigned u128 integer") in
      inl (Some born)
  | None => inl None
  end.

Definition record_allocation (v : Value) (seq ts : Z) : M Graph unit :=
  let* t := lift (id v "thunk") in
  let* words := lift (num v "words") in
  let* born := lift (birth v) in
  let node := mkGraphNode (str "thunk:" ++ dec t) (str "thunk") (str "thunk " ++ dec t) true seq ts None None false [] in
  let node := attr (str "words") (dec words) node in
  let node := match born with Some born => attr (str "born_ns") (dec born) node | None => node end in
  modify (fun g => (define node g).1).

Definition invocation_node (inv m i arity seq ts : Z) : GraphNode :=
  attr (str "arity") (dec arity)
    (mkGraphNode (str "invocation:" ++ dec inv) (str "invocation") (str "invocation " ++ dec inv) true seq ts
       (Some (site_default m i)) None false []).

Definition count_invocation (k : SiteKey) (g : Graph) : Graph :=
  set_summary (fun s => s <| su_invocations ::= fun n => n + 1 |>)
    (g <| counts ::= fun c => let x := default counts_default (c !! k) in
            <[k := mkGraphCounts (body_starts x + 1) (force_requests x) (created x) (cache_compute x)
                     (cache_hit x) (cache_wait x) (overflow x)]> c |>).

Definition record_invocation (v : Value) (seq ts : Z) : M Graph unit :=
  let* inv := lift (id v "invocation") in
  let* m := lift (id v "module") in
  let* i := lift (id v "site") in
  let* arity := lift (num v "arity") in
  modify (fun g =>
    let '(g, fresh) := define (invocation_node inv m i arity seq ts) g in
    if (fresh : bool) then count_invocation (m, i) g else g).

Definition argument_preview (v : Value) : result (option (list Z * bool)) :=
  match get v "preview" with
  | Some Null => inl None
  | Some p =>
      let? t := text p "text" in
      if decide (256 < length t)%nat then inr (str "preview exceeds 256 UTF-8 bytes") else
      let? truncated := ok_or (get p "truncated" ≫= as_bool) (str "preview.truncated must be boolean") in
      inl (Some (t, truncated))
  | None => inr (str "argument missing preview (use null)")
  end.

Definition set_preview (t : list Z) (truncated : bool) (n : GraphNode) : GraphNode :=
  match gn_preview n with
  | None => n <| gn_preview := Some t |> <| gn_preview_truncated := truncated |>
  | Some _ => n
  end.

Definition keep_preview (t : list Z) (preview : option (list Z * bool)) : M Graph unit :=
  match preview with
  | Some (p, truncated) => update_node t (set_preview p truncated)
  | None => ret tt
  end.

Definition count_edge (from to_ relation : list Z) (index state : option Z) (seq ts : Z) (g : Graph) : Graph :=
  g <| edges ::= fun es =>
    let key := (from, to_, relation, index, state) in
    let e := default (mkGraphEdge from to_ relation index state 0 seq seq ts ts) (es !! key) in
    <[key := e <| ge_count ::= fun n => n + 1 |> <| ge_last_seq := seq |> <| ge_last_ts_ns := ts |>]> es |>.

(** [relation] is one of argument, force and created. *)
Definition record_relation (relation : list Z) (v : Value) (seq ts : Z) : M Graph unit :=
  let* n := lift (id v "invocation") in
  let inv := str "invocation:" ++ dec n in
  let* (t, allocated) := lift (thunk v seq) in
  let* index := lift (if decide (relation = str "argument")
                      then let? i := num v "index" in inl (Some i) else inl None) in
  let* state := lift (if decide (relation = str "argument" \/ relation = str "force")
                      then let? i := ok_or (get v "state" ≫= as_i64) (str "state must be a signed integer") in inl (Some i)
                      else inl None) in
  let* preview := lift (if decide (relation = str "argument") then argument_preview v else inl None) in
  modify (placeholder inv "invocation") ;;
  modify (placeholder t (if (allocated : bool) then "thunk" else "unresolved")) ;;
  keep_preview t preview ;;
  modify (count_edge inv t relation index state seq ts) ;;
  if decide (relation = str "force")
  then modify (set_summary (fun s => s <| su_force_requests ::= fun n => n + 1 |>)) else ret tt.

(** The number an attribute holds. *)
Definition attr_number (name : list Z) (n : GraphNode) : Z :=
  default 0 (a ← find (fun a => bool_decide (ga_name a = name)) (gn_attributes n);
             parse_unsigned u64_max (ga_value a)).

Definition record_cache (v : Value) : M Graph unit :=
  let* n := lift (id v "invocation") in
  let inv := str "invocation:" ++ dec n in
  let* result := lift (num v "result") in
  let* name :=
    (if decide (result = 0) then
       modify (set_summary (fun s => s <| su_cache_computes ::= fun n => n + 1 |>)) ;; ret (str "cache_compute")
     else if decide (result = 1) then
       modify (set_summary (fun s => s <| su_cache_hits ::= fun n => n + 1 |>)) ;; ret (str "cache_hit")
     else if decide (result = 2) then
       modify (set_summary (fun s => s <| su_cache_waits ::= fun n => n + 1 |>)) ;; ret (str "cache_wait")
     else fail (str "unknown cache result")) in
  modify (placeholder inv "invocation") ;;
  update_node inv (fun node => attr name (dec (attr_number name node + 1)) node).

Definition counts_row (v : Value) : result GraphCounts :=
  let? a := num v "body_starts" in
  let? b := num v "force_requests" in
  let? c := num v "created" in
  let? d := num v "cache_compute" in
  let? e := num v "cache_hit" in
  let? f := num v "cache_wait" in
  let? o := ok_or (get v "overflow" ≫= as_bool) (str "overflow must be boolean") in
  inl (mkGraphCounts a b c d e f o).

Definition record_counts (v : Value) : M Graph unit :=
  let* mode := reads counts_mode in
  if negb mode then fail (str "counts event requires source-counts mode") else
  let* execution := lift (id v "execution") in
  let* m := lift (id v "module") in
  let* i := lift (id v "site") in
  let* row := lift (counts_row v) in
  let* known := reads (fun g => bool_decide (is_Some (sites g !! (m, i)))) in
  if negb known then fail (str "counts row references missing site " ++ dec m ++ str ":" ++ dec i) else
  let* run := reads (fun g => count_executions g !! execution) in
  let* run := lift (ok_or run (str "counts row has no execution start")) in
  if decide (ce_module run <> m \/ ce_terminal run = true)
  then fail (str "counts row module mismatch or row after terminal execution status") else
  if decide (i ∈ ce_sites run)
  then fail (str "duplicate counts row for execution " ++ dec execution ++ str " site " ++ dec m ++ str ":" ++ dec i) else
  modify (fun g => g <| count_executions ::= insert execution (run <| ce_sites ::= union {[i]} |>) |>) ;;
  modify (fun g => g <| counts ::= fun c => <[(m, i) := add_counts (default counts_default (c !! (m, i))) row]> c |>) ;;
  let* total := reads (fun g => su_counts (summary g)) in
  let* total := unwrap total in
  modify (set_summary (fun s => s <| su_counts := Some (add_counts total row) |>)).

Definition count_execution (v : Value) (workers : Z) (status : list Z) : M Graph (option Z * option Z) :=
  let* run_id := lift (id v "execution") in
  let* m := lift (id v "module") in
  (if decide (status = str "start") then
     let* known := reads (fun g => bool_decide (is_Some (count_executions g !! run_id))) in
     if known then fail (str "duplicate execution start " ++ dec run_id)
     else modify (fun g => g <| count_executions ::= insert run_id (mkCountExecution m workers false ∅) |>)
   else if decide (status = str "done" \/ status = str "poison" \/ status = str "out_of_fuel" \/
                   status = str "resource_pending") then
     let* run := reads (fun g => count_executions g !! run_id) in
     let* run := lift (ok_or run (str "terminal execution status has no start")) in
     if decide (ce_terminal run = true \/ ce_module run <> m \/ ce_workers run <> workers)
     then fail (str "duplicate terminal execution status or module/workers mismatch")
     else modify (fun g => g <| count_executions ::= insert run_id (run <| ce_terminal := true |>) |>)
   else fail (str "unknown counts execution status")) ;;
  ret (Some run_id, Some m).

Definition record_execution (v : Value) (seq ts : Z) : M Graph unit :=
  let* workers := lift (num v "workers") in
  let* status := lift (text v "status") in
  let* mode := reads counts_mode in
  let* (run_id, m) := (if (mode : bool) then count_execution v workers status else ret (None, None)) in
  modify (set_summary (fun s => s <| su_executions ::= fun l => l ++ [mkGraphExecution seq ts workers status run_id m] |>)).

Definition is_one_of (s : list Z) (l : list string) : bool := bool_decide (s ∈ map str l).

Definition record (v : Value) (seq ts : Z) : M Graph unit :=
  let* event := lift (text v "event") in
  let* mode := reads counts_mode in
  if mode && negb (is_one_of event ["header"; "module"; "site"; "counts"; "execution"])
  then fail (event ++ str " detail event is unsupported in counts mode")
  else if decide (event = str "header") then
    if decide (seq = 1) then ret tt else fail (str "unexpected header")
  else if decide (event = str "module") then record_module v
  else if decide (event = str "site") then record_site v
  else if decide (event = str "allocation") then record_allocation v seq ts
  else if decide (event = str "invocation") then record_invocation v seq ts
  else if is_one_of event ["argument"; "force"; "created"] then record_relation event v seq ts
  else if decide (event = str "cache") then record_cache v
  else if decide (event = str "counts") then record_counts v
  else if decide (event = str "execution") then record_execution v seq ts
  else fail (str "unknown event " ++ debug_str event).

(** ** The import *)

Record Import_ := mkImport {
  graph : Graph; bytes : Z; last_seq : Z; last_ts : Z; footer : bool
}.

#[local] Instance eta_Import : Eta Import_ := fun i =>
  mkImport (graph i) (bytes i) (last_seq i) (last_ts i) (footer i).

Definition on_graph {A} (m : M Graph A) : M Import_ A := fun i =>
  then_do (m (graph i)) (fun '(g, r) => Ret (i <| graph := g |>, r)).

Definition diagnose (message : list Z) : M Import_ unit := on_graph (modify (diagnostic message)).
Definition summarize (f : GraphSummary -> GraphSummary) : M Import_ unit := on_graph (modify (set_summary f)).
Definition when (b : bool) (m : M Import_ unit) : M Import_ unit := if b then m else ret tt.

Definition has (v : Value) (key : string) : bool := bool_decide (is_Some (get v key)).

Definition line_no (i : Import_) : list Z := str "line " ++ dec (su_records (summary (graph i))).

Definition initial (capture_id : Z) (path : list Z) : Graph :=
  mkGraph (mkGraphSummary capture_id path (str "lazy-dataflow") (str "detail") None false
             (str "Recorded instrumented body starts and within-body force requests; not a complete call tree or per-call timing")
             None None None false 0 0 0 0 0 0 0 0 0 [] 0 [])
    ∅ ∅ ∅ ∅ ∅ ∅ ∅.

Definition expected_header : list Z :=
  str "expected vix-eval-graph version 1 lazy-dataflow or source-counts header".

Definition header_mode (v : Value) (semantics : list Z) : M Import_ unit :=
  if decide (semantics = str "source-counts") then
    let* mode := lift (text v "capture_mode") in
    if decide (mode <> str "counts") then fail (str "source-counts header requires capture_mode=counts") else
    summarize (fun s => s <| su_capture_mode := str "counts" |> <| su_counts := Some counts_default |>
      <| su_scope := str "Selected source-site totals across executions; no invocation/argument detail, nodes, edges or timings" |>)
  else if has v "capture_mode" then
    let* mode := lift (text v "capture_mode") in
    if decide (mode <> str "detail") then fail (str "lazy-dataflow header requires capture_mode=detail when present")
    else ret tt
  else ret tt.

Definition header (v : Value) : M Import_ unit :=
  let* event := lift (text v "event") in
  if decide (event <> str "header") then fail expected_header else
  let* format := lift (text v "format") in
  if decide (format <> str "vix-eval-graph") then fail expected_header else
  let* version := lift (num v "version") in
  if decide (version <> 1) then fail expected_header else
  let* semantics := lift (text v "semantics") in
  if negb (is_one_of semantics ["lazy-dataflow"; "source-counts"]) then fail expected_header else
  summarize (fun s => s <| su_semantics := semantics |>) ;;
  header_mode v semantics ;;
  when (has v "scope") (let* t := lift (text v "scope") in summarize (fun s => s <| su_scope := t |>)) ;;
  when (has v "include" && negb (default true (is_null <$> get v "include")))
    (let* t := lift (text v "include") in summarize (fun s => s <| su_selection := Some t |>)) ;;
  when (has v "max_bytes") (let* n := lift (num v "max_bytes") in summarize (fun s => s <| su_max_bytes := Some n |>)) ;;
  let* records := lift (num v "records") in
  when (bool_decide (records <> 1)) (diagnose (str "header records must be 1")).

Definition record_footer (v : Value) (seq : Z) : M Import_ unit :=
  let* again := reads footer in
  when again (diagnose (str "duplicate footer")) ;;
  modify (fun i => i <| footer := true |>) ;;
  match get v "complete" ≫= as_bool with
  | Some true => ret tt
  | Some false =>
      let* reason := lift (if has v "reason" then text v "reason" else inl (str "unspecified")) in
      summarize (fun s => s <| su_partial_reason := Some reason |>) ;;
      diagnose (str "producer intentionally stopped partial capture: " ++ reason)
  | None => diagnose (str "footer complete must be boolean")
  end ;;
  let* records := lift (num v "records") in
  let* read := reads (fun i => su_records (summary (graph i))) in
  when (bool_decide (records <> read \/ records <> seq)) (diagnose (str "footer record count mismatch")).

(** The closure around a record. *)
Definition stream_record (v : Value) : M Import_ unit :=
  let* seq := lift (id v "seq") in
  let* ts := lift (num v "ts_ns") in
  let* i := reads (fun i => i) in
  when (bool_decide (seq <> sadd64 (last_seq i) 1 \/ seq <> su_records (summary (graph i))))
    (diagnose (line_no i ++ str ": non-contiguous seq " ++ dec seq)) ;;
  when (bool_decide (ts < last_ts i)) (diagnose (str "seq " ++ dec seq ++ str ": timestamp went backwards")) ;;
  modify (fun i => i <| last_seq := seq |> <| last_ts := ts |>) ;;
  when (footer i) (diagnose (str "seq " ++ dec seq ++ str ": data after footer")) ;;
  let* event := lift (text v "event") in
  if decide (event = str "footer") then record_footer v seq else on_graph (record v seq ts).

(** [if let Err(e) = result { graph.diagnostic(..) }] *)
Definition diagnosed (m : M Import_ unit) : M Import_ unit := fun i =>
  then_do (m i) (fun '(i, r) =>
    match r with inl _ => Ret (i, inl tt) | inr e => diagnose (line_no i ++ str ": " ++ e) i end).

Definition too_large (limits : Limits) (g : Graph) : bool :=
  bool_decide (lm_nodes limits < Z.of_nat (size (nodes g)) \/ lm_relations limits < Z.of_nat (size (edges g)) \/
               lm_nodes limits < Z.of_nat (size (sites g)) \/ lm_nodes limits < Z.of_nat (size (modules g)) \/
               lm_nodes limits < Z.of_nat (size (counts g)) \/
               lm_executions limits < Z.of_nat (length (su_executions (summary g)))).

Definition read_line (limits : Limits) (line : list Z) : M Import_ unit :=
  modify (fun i => i <| bytes ::= fun n => wadd64 n (Z.of_nat (length line)) |>) ;;
  let* bytes := reads bytes in
  if decide (lm_bytes limits < bytes) then fail (str "capture exceeds " ++ dec (lm_bytes limits) ++ str " byte limit") else
  if decide (lm_record_bytes limits < Z.of_nat (length line))
  then fail (str "record exceeds " ++ dec (lm_record_bytes limits) ++ str " byte limit") else
  summarize (fun s => s <| su_records ::= fun n => n + 1 |>) ;;
  let* i := reads (fun i => i) in
  let n := su_records (summary (graph i)) in
  if decide (lm_records limits < n) then fail (str "capture exceeds " ++ dec (lm_records limits) ++ str " record limit") else
  match from_slice line with
  | inr e =>
      if decide (n = 1) then fail (str "invalid header JSON: " ++ e)
      else diagnose (line_no i ++ str ": invalid/truncated JSON: " ++ e)
  | inl v =>
      when (bool_decide (n = 1)) (header v) ;;
      diagnosed (stream_record v) ;;
      let* large := reads (fun i => too_large limits (graph i)) in
      if (large : bool) then fail (str "graph exceeds node/site/module/relation/execution limit; no partial import retained")
      else ret tt
  end.

(** What [reader.take(limit + 1).read_until(b'\n')] yields, call after call: a
    line ends after its newline or at [limit + 1] bytes.  Also what is left when
    the bytes end. *)
Fixpoint read_lines (limit : Z) (cur : list Z) (l : list Z) : list (list Z) * list Z :=
  match l with
  | [] => ([], cur)
  | b :: l =>
      let cur := cur ++ [b] in
      if decide (b = 10 \/ Z.of_nat (length cur) = limit + 1)
      then let '(lines, rest) := read_lines limit [] l in (cur :: lines, rest)
      else read_lines limit cur l
  end.

(** Bytes, and the error that strikes when they have been read, if any. *)
Record Reader := mkReader { data : list Z; failure : option (list Z) }.

Fixpoint read_each (limits : Limits) (lines : list (list Z)) : M Import_ unit :=
  match lines with
  | [] => ret tt
  | l :: lines => read_line limits l ;; read_each limits lines
  end.

Definition read_all (limits : Limits) (r : Reader) : M Import_ unit :=
  let '(lines, rest) := read_lines (lm_record_bytes limits) [] (data r) in
  read_each limits lines ;;
  match failure r with
  | Some e => fail e
  | None => if decide (rest = []) then ret tt else read_line limits rest
  end.

(** [finish], the part of a capture of counts. *)
Definition expected_rows (g : Graph) (module : Z) : nat :=
  length (filter (fun e : SiteKey * GraphSite => e.1.1 = module) (map_to_list (sites g))).

Definition execution_diagnostics (g : Graph) (e : Z * CountExecution) : list (list Z) :=
  let '(execution, run) := e in
  let expected := expected_rows g (ce_module run) in
  (if ce_terminal run then []
   else [str "execution " ++ dec execution ++ str " has no terminal status / flushed counts"]) ++
  (if decide (ce_module run ∈ modules g) then []
   else [str "execution " ++ dec execution ++ str " references missing module " ++ dec (ce_module run)]) ++
  (if decide (size (ce_sites run) = expected) then []
   else [str "execution " ++ dec execution ++ str " missing counts rows: expected " ++ dec (Z.of_nat expected) ++
         str ", received " ++ dec (Z.of_nat (size (ce_sites run)))]).

Definition finish_counts : M Graph unit :=
  let* mode := reads counts_mode in
  if negb mode then ret tt else
  modify (fun g => foldl (fun g d => diagnostic d g) g
                     (in_order Z.compare (count_executions g) ≫= execution_diagnostics g)) ;;
  let* total := reads (fun g => su_counts (summary g)) in
  let* k := unwrap total in
  modify (set_summary (fun s =>
    s <| su_invocations := body_starts k |> <| su_force_requests := force_requests k |>
      <| su_cache_computes := cache_compute k |> <| su_cache_hits := cache_hit k |>
      <| su_cache_waits := cache_wait k |>)).

Definition missing_modules (g : Graph) : list Z :=
  let named : gset Z := list_to_set (map fst (map fst (map_to_list (sites g)) ++ map fst (map_to_list (counts g)))) in
  sort_by (le_of Z.compare) (elements (named ∖ modules g)).

Definition missing_sites (g : Graph) : list SiteKey :=
  filter (fun k => sites g !! k = None) (map fst (in_order site_cmp (counts g))).

Definition missing_nodes (g : Graph) : list (list Z) :=
  map (fun e => gn_id e.2) (filter (fun e : list Z * GraphNode => gn_defined e.2 = false) (in_order bytes_cmp (nodes g))).

Definition missing (messages : list (list Z)) (g : Graph) : Graph :=
  foldl (fun g d => diagnostic d (set_summary (fun s => s <| su_missing_endpoints ::= fun n => n + 1 |>) g)) g messages.

Definition MIDDLE_DOT : list Z := utf8_char 0xB7.

Definition label_node (g : Graph) (n : GraphNode) : GraphNode :=
  match s ← gn_site n; sites g !! (gs_module s, gs_id s) with
  | Some site => n <| gn_label := chars_take 80 (gs_name site) ++ str " " ++ MIDDLE_DOT ++ str " " ++ gn_id n |>
  | None => n
  end.

Definition link (k : EdgeKey) (a : gmap (list Z) (list EdgeKey)) : gmap (list Z) (list EdgeKey) :=
  let push (id : list Z) (a : gmap (list Z) (list EdgeKey)) := <[id := default [] (a !! id) ++ [k]]> a in
  let a := push (key_from k) a in
  if decide (key_to k = key_from k) then a else push (key_to k) a.

Definition finish_graph (g : Graph) : Graph :=
  let g := missing (map (fun m => str "missing module " ++ dec m) (missing_modules g)) g in
  let g := missing (map (fun k => str "missing site " ++ dec k.1 ++ str ":" ++ dec k.2) (missing_sites g)) g in
  let g := missing (map (fun n => str "missing endpoint " ++ n) (missing_nodes g)) g in
  let g := g <| nodes ::= fmap (label_node g) |> in
  let g := g <| adjacency := foldl (fun a e => link e.1 a) (adjacency g) (in_order edge_cmp (edges g)) |> in
  set_summary (fun s => s <| su_nodes := Z.of_nat (size (nodes g)) |> <| su_relations := Z.of_nat (size (edges g)) |>) g.

Definition finish : M Graph unit := finish_counts ;; modify finish_graph.

Definition closing : M Import_ unit :=
  let* i := reads (fun i => i) in
  if decide (su_records (summary (graph i)) = 0) then fail (str "empty capture: missing header") else
  when (negb (footer i)) (diagnose (str "missing complete footer (capture may be truncated)")) ;;
  on_graph finish ;;
  summarize (fun s =>
    let complete := footer i && bool_decide (su_diagnostic_count s = 0) in
    s <| su_complete := complete |>
      <| su_counts_exact := complete && negb (default false (overflow <$> su_counts s)) |>).

Definition read (reader : Reader) (capture_id : Z) (path : list Z) (limits : Limits) : outcome (result Graph) :=
  then_do ((read_all limits reader ;; closing) (mkImport (initial capture_id path) 0 0 0 false))
    (fun '(i, r) => Ret (match r with inl _ => inl (graph i) | inr e => inr e end)).

(** ** Queries *)

Record GraphNodePage := mkGraphNodePage { np_total : Z; np_offset : Z; np_nodes : list GraphNode }.

Record GraphCallable := mkGraphCallable {
  gc_site : GraphSite; gc_invocations : Z; gc_counts : option GraphCounts
}.

Record GraphCallablePage := mkGraphCallablePage {
  cp_total : Z; cp_offset : Z; cp_callables : list GraphCallable
}.

Record GraphNeighborhood := mkGraphNeighborhood {
  nb_center : GraphNode; nb_nodes : list GraphNode; nb_edges : list GraphEdge;
  nb_total_relations : Z; nb_offset : Z
}.

(** [skip(skip).take(take)] *)
Definition page_of {A} (p : nat * nat) (l : list A) : list A := take p.2 (drop p.1 l).

Definition decorated (g : Graph) (n : GraphNode) : GraphNode :=
  match s ← gn_site n; sites g !! (gs_module s, gs_id s) with
  | Some site => n <| gn_site := Some site |>
  | None => n
  end.

Definition require_detail (g : Graph) : result unit :=
  if counts_mode g
  then inr (str "Unsupported in counts mode: no invocation/argument detail, nodes or edges were captured; use callable counts")
  else inl tt.

Definition inspect (g : Graph) (node : list Z) : result GraphNode :=
  let? _ := require_detail g in
  ok_or (decorated g <$> nodes g !! node) (str "unknown node " ++ debug_str node).

Definition node_matches (n : GraphNode) (q : list Z) : bool :=
  contains q (to_lowercase (gn_id n)) || contains q (to_lowercase (gn_label n)) ||
  match gn_preview n with Some s => contains q (to_lowercase s) | None => false end ||
  match gn_site n with Some s => contains q (to_lowercase (gs_file s)) | None => false end.

Definition searched (g : Graph) (kind query : list Z) (n : GraphNode) : bool :=
  (bool_decide (kind = []) || bool_decide (kind = str "all") || bool_decide (kind = gn_kind n)) &&
  (node_matches n query ||
   match s ← gn_site n; sites g !! (gs_module s, gs_id s) with
   | Some s => contains query (to_lowercase (gs_file s)) || contains query (to_lowercase (gs_name s))
   | None => false
   end).

Definition all_nodes (g : Graph) : list GraphNode := map snd (in_order bytes_cmp (nodes g)).

Definition node_page (g : Graph) (offset : Z) (p : nat * nat) (matched : list GraphNode) : GraphNodePage :=
  mkGraphNodePage (Z.of_nat (length matched)) offset (map (decorated g) (page_of p matched)).

Definition search (g : Graph) (query kind : list Z) (offset limit : Z) : result GraphNodePage :=
  let? _ := require_detail g in
  if negb (is_one_of kind [""; "all"; "invocation"; "thunk"; "unresolved"]) then inr (str "invalid node kind") else
  let? p := page offset limit in
  let query := to_lowercase query in
  inl (node_page g offset p (filter (fun n => searched g kind query n = true) (all_nodes g))).

Definition callable (g : Graph) (e : SiteKey * GraphCounts) : GraphCallable :=
  let '((m, s), k) := e in
  mkGraphCallable
    (default (mkGraphSite m s false [] (str "missing site " ++ dec m ++ str ":" ++ dec s) [] 0 0 0 0 []) (sites g !! (m, s)))
    (body_starts k) (if counts_mode g then Some k else None).

Definition callable_text (c : GraphCallable) : list Z :=
  gs_name (gc_site c) ++ str " " ++ gs_file (gc_site c) ++ str " " ++ dec (gs_module (gc_site c)) ++ str ":" ++
  dec (gs_id (gc_site c)).

Definition callable_cmp (a b : GraphCallable) : comparison :=
  then_with (gc_invocations b ?= gc_invocations a)
    (site_cmp (gs_module (gc_site a), gs_id (gc_site a)) (gs_module (gc_site b), gs_id (gc_site b))).

Definition callables (g : Graph) (query : list Z) (offset limit : Z) : result GraphCallablePage :=
  let? p := page offset limit in
  let query := to_lowercase query in
  let rows := filter (fun c => contains query (to_lowercase (callable_text c)) = true)
                (map (callable g) (in_order site_cmp (counts g))) in
  let rows := sort_by (le_of callable_cmp) rows in
  inl (mkGraphCallablePage (Z.of_nat (length rows)) offset (page_of p rows)).

Definition invoked_at (m i : Z) (n : GraphNode) : bool :=
  bool_decide (gn_kind n = str "invocation") &&
  match gn_site n with Some s => bool_decide (gs_module s = m /\ gs_id s = i) | None => false end.

Definition invocations (g : Graph) (module site offset limit : Z) : result GraphNodePage :=
  let? _ := require_detail g in
  let? p := page offset limit in
  inl (node_page g offset p (filter (fun n => invoked_at module site n = true) (all_nodes g))).

Definition in_direction (node direction : list Z) (k : EdgeKey) : bool :=
  bool_decide (direction = str "both") ||
  (bool_decide (direction = str "incoming") && bool_decide (key_to k = node)) ||
  (bool_decide (direction = str "outgoing") && bool_decide (key_from k = node)).

(** [map[key]] of every key. *)
Fixpoint index_all {K V} `{Countable K} (m : gmap K V) (keys : list K) : outcome (list V) :=
  match keys with
  | [] => Ret []
  | k :: keys => match m !! k with
                 | Some v => then_do (index_all m keys) (fun vs => Ret (v :: vs))
                 | None => Panic
                 end
  end.

Definition neighborhood (g : Graph) (node direction : list Z) (offset limit : Z)
    : outcome (result GraphNeighborhood) :=
  match (let? _ := require_detail g in
         let? p := page offset limit in
         if negb (is_one_of direction ["both"; "incoming"; "outgoing"]) then inr (str "invalid direction") else
         let? center := inspect g node in inl (p, center)) with
  | inr e => Ret (inr e)
  | inl (p, center) =>
      let rows := filter (fun k => in_direction node direction k = true) (default [] (adjacency g !! node)) in
      then_do (index_all (edges g) (page_of p rows)) (fun es =>
      let ids : gset (list Z) := list_to_set (node :: (es ≫= fun e => [ge_from e; ge_to e])) in
      then_do (index_all (nodes g) (sort_by (le_of bytes_cmp) (elements ids))) (fun ns =>
      Ret (inl (mkGraphNeighborhood center (map (decorated g) ns) es (Z.of_nat (length rows)) offset))))
  end.

(** ** What a record does

    The changes records make, one constructor each; every record is a few of them
    or an error that changes nothing. *)

Definition relate (inv t : list Z) (kind : string) (preview : option (list Z * bool)) (relation : list Z)
    (index state : option Z) (seq ts : Z) (g : Graph) : Graph :=
  let g := placeholder t kind (placeholder inv "invocation" g) in
  let g := match preview with
           | Some (p, truncated) => g <| nodes ::= alter (set_preview p truncated) t |>
           | None => g
           end in
  let g := count_edge inv t relation index state seq ts g in
  if decide (relation = str "force") then set_summary (fun s => s <| su_force_requests ::= fun n => n + 1 |>) g else g.

Definition cache_outcome (c : bool * bool) (s : GraphSummary) : GraphSummary :=
  match c with
  | (true, _) => s <| su_cache_computes ::= fun n => n + 1 |>
  | (false, true) => s <| su_cache_hits ::= fun n => n + 1 |>
  | (false, false) => s <| su_cache_waits ::= fun n => n + 1 |>
  end.

Inductive change : Graph -> Graph -> Prop :=
  | change_diagnostic m g : change g (diagnostic m g)
  | change_module m g : change g (g <| modules ::= union {[m]} |>)
  | change_site m i site g :
      sites g !! (m, i) = None -> gs_module site = m -> gs_id site = i ->
      change g (g <| sites ::= insert (m, i) site |>)
  | change_allocation node g :
      counts_mode g = false -> gn_defined node = true -> gn_site node = None ->
      change g (define node g).1
  | change_invocation inv m i arity seq ts g :
      counts_mode g = false ->
      change g (let '(g, fresh) := define (invocation_node inv m i arity seq ts) g in
                if (fresh : bool) then count_invocation (m, i) g else g)
  | change_relation inv t kind preview relation index state seq ts g :
      counts_mode g = false -> change g (relate inv t kind preview relation index state seq ts g)
  | change_cache inv name c g :
      counts_mode g = false ->
      change g ((placeholder inv "invocation" (set_summary (cache_outcome c) g))
                  <| nodes ::= alter (fun n => attr name (dec (attr_number name n + 1)) n) inv |>)
  | change_counts execution run i row total g :
      counts_mode g = true -> count_executions g !! execution = Some run -> ce_terminal run = false ->
      i ∉ ce_sites run -> is_Some (sites g !! (ce_module run, i)) -> su_counts (summary g) = Some total ->
      Forall (fun f => 0 <= f row) [body_starts; force_requests; created; cache_compute; cache_hit; cache_wait] ->
      change g (set_summary (fun s => s <| su_counts := Some (add_counts total row) |>)
                  (g <| count_executions ::= insert execution (run <| ce_sites ::= union {[i]} |>) |>
                     <| counts ::= fun c => <[(ce_module run, i) :=
                          add_counts (default counts_default (c !! (ce_module run, i))) row]> c |>))
  | change_start run m workers g :
      counts_mode g = true -> count_executions g !! run = None ->
      change g (g <| count_executions ::= insert run (mkCountExecution m workers false ∅) |>)
  | change_terminal run x g :
      counts_mode g = true -> count_executions g !! run = Some x ->
      change g (g <| count_executions ::= insert run (x <| ce_terminal := true |>) |>)
  | change_execution x g : change g (set_summary (fun s => s <| su_executions ::= fun l => l ++ [x] |>) g).

(** [m] ends, and either fails and leaves the graph alone, or makes changes. *)
Definition runs {A} (m : M Graph A) (g : Graph) : Prop :=
  exists g' r, m g = Ret (g', r) /\ match r with inl _ => rtc change g g' | inr _ => g' = g end.

(** What counting needs. *)
Definition counting (g : Graph) : Prop := counts_mode g = true -> is_Some (su_counts (summary g)).

Lemma runs_lift {A B} (r : result A) (k : A -> M Graph B) g :
  (forall a, r = inl a -> runs (k a) g) -> runs (bind (lift r) k) g.
Proof. intros H. destruct r as [a|e]; [by apply H|]. by exists g, (inr e). Qed.

Lemma runs_reads {A B} (f : Graph -> A) (k : A -> M Graph B) g : runs (k (f g)) g -> runs (bind (reads f) k) g.
Proof. done. Qed.

Lemma runs_fail {A} e g : runs (fail (A := A) e) g.
Proof. by exists g, (inr e). Qed.

Lemma runs_modify f g : change g (f g) -> runs (modify f) g.
Proof. intros H. exists (f g), (inl tt). split; [done|]. by apply rtc_once. Qed.

Lemma runs_eq {A} (m : M Graph A) g g' a : m g = Ret (g', inl a) -> change g g' -> runs m g.
Proof. intros He H. exists g', (inl a). split; [done|]. by apply rtc_once. Qed.

(** [runs_step] steps over what only looks. *)
Ltac runs_step := match goal with
  | |- runs (bind (lift _) _) _ => apply runs_lift; intros ? ?
  | |- runs (bind (reads _) _) _ => apply runs_reads
  | |- runs (fail _) _ => apply runs_fail
  | |- runs (if decide ?P then _ else _) _ => destruct (decide P)
  | |- runs (if ?b then _ else _) _ => destruct b eqn:?
  | |- runs (match ?p with (_, _) => _ end) _ => destruct p
  end.

Lemma record_module_runs v g : runs (record_module v) g.
Proof. unfold record_module. repeat runs_step; apply runs_modify; constructor. Qed.

Lemma site_text_id v m i params site : site_text v m i params = inl site -> gs_module site = m /\ gs_id site = i.
Proof.
  unfold site_text. repeat (match goal with |- context [match ?r with inl _ => _ | inr _ => _ end] => destruct r end; [|done]).
  by intros [= <-].
Qed.

Lemma record_site_runs v g : runs (record_site v) g.
Proof.
  unfold record_site. repeat runs_step; apply runs_modify; [constructor|].
  match goal with H : site_text _ _ _ _ = inl _ |- _ => apply site_text_id in H as [Hm Hi] end.
  match goal with H : bool_decide _ = false |- _ => apply bool_decide_eq_false, eq_None_not_Some in H end.
  by constructor.
Qed.

Lemma record_allocation_runs v seq ts g : counts_mode g = false -> runs (record_allocation v seq ts) g.
Proof. intros Hm. unfold record_allocation. repeat runs_step. apply runs_modify. by constructor; [|case_match..]. Qed.

Lemma record_invocation_runs v seq ts g : counts_mode g = false -> runs (record_invocation v seq ts) g.
Proof. intros Hm. unfold record_invocation. repeat runs_step. apply runs_modify. by constructor. Qed.

Lemma placeholder_some key kind g : is_Some (nodes (placeholder key kind g) !! key).
Proof. unfold placeholder. destruct (nodes g !! key) eqn:E; [by rewrite E|]. cbn. by rewrite lookup_insert_eq. Qed.

Lemma update_node_some key f n g :
  nodes g !! key = Some n -> update_node key f g = Ret (g <| nodes ::= alter f key |>, inl tt).
Proof.
  intros Hn. unfold update_node, reads, unwrap, modify, bind. cbn. rewrite Hn. cbn. do 2 f_equal. f_equal.
  apply map_eq. intros k. rewrite lookup_insert, lookup_alter. case_decide; subst; [by rewrite Hn|done].
Qed.

Lemma record_relation_runs relation v seq ts g : counts_mode g = false -> runs (record_relation relation v seq ts) g.
Proof.
  intros Hm. unfold record_relation. runs_step. runs_step. destruct a0 as [t allocated]. repeat runs_step.
  match goal with |- runs (_ ;; _ ;; keep_preview _ ?p ;; modify (count_edge _ _ _ ?index ?state _ _) ;; _) _ =>
    apply (runs_eq _ g (relate (str "invocation:" ++ dec a) t (if allocated then "thunk" else "unresolved") p relation index state seq ts g) tt);
    [destruct p as [[p truncated]|]|by constructor] end; unfold relate, keep_preview.
  - destruct (placeholder_some t (if allocated then "thunk" else "unresolved")
      (placeholder (str "invocation:" ++ dec a) "invocation" g)) as [n Hn].
    unfold bind, modify. cbn [then_do]. rewrite (update_node_some _ _ n) by done. cbn [then_do]. by destruct (decide (relation = str "force")).
  - unfold bind, modify, ret. cbn [then_do]. by destruct (decide (relation = str "force")).
Qed.

Lemma record_cache_runs v g : counts_mode g = false -> runs (record_cache v) g.
Proof.
  intros Hm. unfold record_cache. repeat runs_step.
  assert (forall c name, exists g', (modify (placeholder (str "invocation:" ++ dec a) "invocation") ;;
      update_node (str "invocation:" ++ dec a) (fun node => attr name (dec (attr_number name node + 1)) node)) (set_summary (cache_outcome c) g)
      = Ret (g', inl tt) /\ change g g') as Hc.
  { intros c name. destruct (placeholder_some (str "invocation:" ++ dec a) "invocation" (set_summary (cache_outcome c) g)) as [n Hn].
    eexists. split; [|exact (change_cache (str "invocation:" ++ dec a) name c g Hm)].
    unfold bind, modify at 1. cbn [then_do]. by rewrite (update_node_some _ _ n). }
  repeat case_decide.
  - destruct (Hc (true, true) (str "cache_compute")) as (g' & He & H'). by apply (runs_eq _ _ g' tt).
  - destruct (Hc (false, true) (str "cache_hit")) as (g' & He & H'). by apply (runs_eq _ _ g' tt).
  - destruct (Hc (false, false) (str "cache_wait")) as (g' & He & H'). by apply (runs_eq _ _ g' tt).
  - by exists g, (inr (str "unknown cache result")).
Qed.

Lemma num_nonneg v key n : num v key = inl n -> is_u64 n.
Proof.
  unfold num, ok_or. destruct (get v key) as [[| |m| | |]|]; cbn; try done.
  destruct (number_u64 m) eqn:E; [|done]. intros [= <-]. by apply number_u64_range in E.
Qed.

Lemma counts_row_nonneg v row : counts_row v = inl row ->
  Forall (fun f => 0 <= f row) [body_starts; force_requests; created; cache_compute; cache_hit; cache_wait].
Proof.
  unfold counts_row. repeat (match goal with |- context [match num v ?k with inl _ => _ | inr _ => _ end] =>
    destruct (num v k) eqn:?; [|done] end).
  destruct (ok_or _ _); [|done]. intros [= <-]. repeat constructor; cbn; by eapply num_nonneg.
Qed.

Lemma record_counts_runs v g : counting g -> runs (record_counts v) g.
Proof.
  intros Hc. unfold record_counts. repeat runs_step.
  match goal with H : negb (counts_mode g) = false |- _ => apply negb_false_iff in H as Hm end.
  destruct (Hc Hm) as [total Ht].
  match goal with H : counts_row v = inl ?row, H' : ok_or (count_executions g !! ?x) _ = inl ?run, H'' : id v "site" = inl ?i |- _ =>
    assert (count_executions g !! x = Some run) as Hx by (destruct (count_executions g !! x); [by injection H' as ->|done]);
    pose proof (change_counts x run i row total g) as Hch end.
  match goal with H : ~ (ce_module _ <> _ \/ _) |- _ => apply Decidable.not_or in H as [Hr Hr'];
    apply dec_stable in Hr as <-; apply not_true_is_false in Hr' end.
  match goal with H : negb (bool_decide _) = false |- _ => apply negb_false_iff, bool_decide_eq_true in H as Hk end.
  eapply (runs_eq _ g _ tt); [|apply Hch; try done; by eapply counts_row_nonneg].
  unfold bind, modify, reads, unwrap. cbn [then_do]. cbn. by rewrite Ht.
Qed.

(** What follows a change must not fail. *)
Lemma runs_bind {A B} (m : M Graph A) (k : A -> M Graph B) g :
  runs m g -> (forall a g', exists b g'', k a g' = Ret (g'', inl b) /\ rtc change g' g'') -> runs (bind m k) g.
Proof.
  intros (g' & [x|e] & He & Hr) Hk; unfold runs, bind; rewrite He; cbn [then_do]; [|by exists g', (inr e)].
  destruct (Hk x g') as (b & g'' & He' & Hr'). exists g'', (inl b). split; [done|]. by trans g'.
Qed.

Lemma record_execution_runs v seq ts g : runs (record_execution v seq ts) g.
Proof.
  unfold record_execution. repeat runs_step.
  apply runs_bind.
  - destruct (counts_mode g) eqn:Hm; [|by exists g, (inl (None, None))].
    unfold count_execution. repeat runs_step. apply runs_bind; [|intros _ g'; by exists (Some a1, Some a2), g'].
    destruct (decide (a0 = str "start")); [|destruct (decide (_ \/ _))]; repeat runs_step; apply runs_modify.
    + apply change_start; [done|].
      match goal with H : bool_decide _ = false |- _ => by apply bool_decide_eq_false, eq_None_not_Some in H end.
    + apply change_terminal; [done|]. match goal with H : ok_or ?o _ = inl _ |- ?o = _ => by destruct o; [injection H as ->|] end.
  - intros [r m] g'. eexists tt, _. split; [done|]. apply rtc_once. constructor.
Qed.

(** A record that is rejected leaves the graph as it was; any other makes
    changes, and none panics. *)
Lemma record_runs v seq ts g : counting g -> runs (record v seq ts) g.
Proof.
  intros Hc. unfold record. runs_step. runs_step. runs_step.
  { runs_step. }
  assert (is_one_of a ["header"; "module"; "site"; "counts"; "execution"] = false -> counts_mode g = false) as Hd.
  { intros H1. destruct (counts_mode g); [|done]. by rewrite H1 in Heqb. }
  destruct (decide (a = str "header")); [destruct (decide (seq = 1)); [by exists g, (inl tt)|apply runs_fail]|].
  destruct (decide (a = str "module")); [apply record_module_runs|].
  destruct (decide (a = str "site")); [apply record_site_runs|].
  assert (a <> str "counts" -> a <> str "execution" -> counts_mode g = false) as Hd'.
  { intros ??. apply Hd. apply bool_decide_eq_false. cbn [map]. set_solver. }
  destruct (decide (a = str "allocation")) as [->|]; [by apply record_allocation_runs, Hd'|].
  destruct (decide (a = str "invocation")) as [->|]; [by apply record_invocation_runs, Hd'|].
  destruct (is_one_of a ["argument"; "force"; "created"]) eqn:Hr.
  { apply record_relation_runs, Hd'; intros ->; by vm_compute in Hr. }
  destruct (decide (a = str "cache")) as [->|]; [by apply record_cache_runs, Hd'|].
  destruct (decide (a = str "counts")) as [->|]; [by apply record_counts_runs|].
  destruct (decide (a = str "execution")) as [->|]; [apply record_execution_runs|apply runs_fail].
Qed.
(** ** Consistency

    What every change keeps. *)

Definition site_of (s : option GraphSite) : option SiteKey := (fun s => (gs_module s, gs_id s)) <$> s.

(** Whether a node is an invocation, and at which site. *)
Definition invoked (s : option GraphSite) : Z := match s with Some _ => 1 | None => 0 end.
Definition invoked_on (k : SiteKey) (s : option GraphSite) : Z := if decide (site_of s = Some k) then 1 else 0.

(** The sum over the nodes of what depends on the site only. *)
Definition node_sum (h : option GraphSite -> Z) (g : Graph) : Z := msum (fun _ n => h (gn_site n)) (nodes g).

Definition force_count (k : EdgeKey) (e : GraphEdge) : Z := if decide (k.1.1.2 = str "force") then ge_count e else 0.

Definition metrics : list (GraphCounts -> Z) :=
  [body_starts; force_requests; created; cache_compute; cache_hit; cache_wait].

(** The totals of a capture of counts: exact unless marked. *)
Definition tallied (t : GraphCounts) (c : gmap SiteKey GraphCounts) : Prop :=
  (forall f, f ∈ metrics -> 0 <= f t /\ forall k x, c !! k = Some x -> 0 <= f x) /\
  (overflow t = false ->
   (forall k x, c !! k = Some x -> overflow x = false) /\
   forall f, f ∈ metrics -> f t = msum (fun _ x => f x) c).

Record good (g : Graph) : Prop := {
  good_nodes : forall k n, nodes g !! k = Some n ->
    gn_id n = k /\ (gn_defined n = false -> gn_site n = None) /\ (is_Some (gn_site n) -> gn_kind n = str "invocation");
  good_edges : forall k e, edges g !! k = Some e ->
    (ge_from e, ge_to e, ge_relation e, ge_argument_index e, ge_state e) = k /\ 1 <= ge_count e /\
    is_Some (nodes g !! key_from k) /\ is_Some (nodes g !! key_to k);
  good_sites : forall k s, sites g !! k = Some s -> (gs_module s, gs_id s) = k;
  good_detail : counts_mode g = false ->
    su_force_requests (summary g) = msum force_count (edges g) /\
    su_invocations (summary g) = node_sum invoked g /\
    forall k, body_starts (default counts_default (counts g !! k)) = node_sum (invoked_on k) g;
  good_counts : counts_mode g = true ->
    nodes g = ∅ /\ edges g = ∅ /\ (forall k, is_Some (counts g !! k) -> is_Some (sites g !! k)) /\
    exists t, su_counts (summary g) = Some t /\ tallied t (counts g);
  good_adjacency : adjacency g = ∅
}.

Lemma node_sum_placeholder h key kind g : h None = 0 -> node_sum h (placeholder key kind g) = node_sum h g.
Proof.
  intros Hh. unfold placeholder. destruct (nodes g !! key) eqn:E; [done|]. unfold node_sum. cbn.
  rewrite msum_new by done. cbn. lia.
Qed.

Lemma node_sum_alter h f k g :
  (forall n, gn_site (f n) = gn_site n) -> node_sum h (g <| nodes ::= alter f k |>) = node_sum h g.
Proof. intros Hf. unfold node_sum. cbn. apply msum_alter. intros n _. by rewrite Hf. Qed.

(** Defining a node: a second definition is reported, a first one replaces what
    stood for the node. *)
Lemma define_cases node g :
  define node g = (diagnostic (str "duplicate node definition " ++ gn_id node) g, false) \/
  exists node', define node g = (g <| nodes ::= insert (gn_id node) node' |>, true) /\
    gn_id node' = gn_id node /\ gn_site node' = gn_site node /\ gn_kind node' = gn_kind node /\
    gn_defined node' = gn_defined node /\ forall old, nodes g !! gn_id node = Some old -> gn_defined old = false.
Proof.
  unfold define. destruct (nodes g !! gn_id node) as [old|] eqn:E.
  - destruct (gn_defined old) eqn:Ed; [by left|]. right. eexists. split; [done|]. split_and!; [done..|]. by intros ? [= <-].
  - right. eexists. split; [done|]. by split_and!.
Qed.

Lemma node_sum_insert h k n g :
  good g -> h None = 0 -> (forall old, nodes g !! k = Some old -> gn_defined old = false) ->
  node_sum h (g <| nodes ::= insert k n |>) = node_sum h g + h (gn_site n).
Proof.
  intros Hg Hh Hold. unfold node_sum. cbn. rewrite msum_insert.
  destruct (nodes g !! k) as [old|] eqn:E; cbn [from_option]; [|lia].
  destruct (good_nodes g Hg k old E) as (_ & Hs & _). rewrite Hs by by apply Hold. lia.
Qed.

(** A change of nodes that keeps the sums. *)
Lemma good_placeholder key kind g : good g -> counts_mode g = false -> good (placeholder key kind g).
Proof.
  intros Hg Hm. assert (forall h, h None = 0 -> node_sum h (placeholder key kind g) = node_sum h g) as Hn.
  { intros h Hh. by apply node_sum_placeholder. }
  pose proof (good_nodes g Hg) as H1. pose proof (good_edges g Hg) as H2. pose proof (good_detail g Hg) as H4.
  unfold placeholder in *. destruct (nodes g !! key) eqn:E; [done|].
  split; [| |apply Hg| | |apply Hg]; cbn.
  - intros k n. rewrite lookup_insert. case_decide; [|apply H1]. intros [= <-]. subst. split_and!; [done..|]. by intros [? ?].
  - intros k e He. destruct (H2 k e He) as (? & ? & Hf & Ht). split_and!; [done..| |]; rewrite lookup_insert; by case_decide.
  - intros _. rewrite !Hn by done. destruct (H4 Hm) as (? & ? & H5). split_and!; [done..|]. intros k. rewrite Hn by done. apply H5.
  - intros Hm'. change (counts_mode g = true) in Hm'. congruence.
Qed.

Lemma good_alter f k g :
  (forall n, gn_id (f n) = gn_id n /\ gn_site (f n) = gn_site n /\ gn_kind (f n) = gn_kind n /\ gn_defined (f n) = gn_defined n) ->
  good g -> counts_mode g = false -> good (g <| nodes ::= alter f k |>).
Proof.
  intros Hf Hg Hm. assert (forall h, node_sum h (g <| nodes ::= alter f k |>) = node_sum h g) as Hn.
  { intros h. apply node_sum_alter. intros n. apply Hf. }
  pose proof (good_nodes g Hg) as H1. pose proof (good_edges g Hg) as H2. pose proof (good_detail g Hg) as H4.
  split; [| |apply Hg| | |apply Hg]; cbn.
  - intros i n. rewrite lookup_alter. case_decide; [|apply H1]. intros (m & Hm' & ->)%fmap_Some. subst.
    destruct (Hf m) as (-> & -> & -> & ->). by apply H1.
  - intros i e He. destruct (H2 i e He) as (? & ? & Hfr & Hto). split_and!; [done..| |]; rewrite lookup_alter; case_decide; subst; by rewrite ?fmap_is_Some.
  - intros _. rewrite !Hn. destruct (H4 Hm) as (? & ? & H5). split_and!; [done..|]. intros i. rewrite Hn. apply H5.
  - intros Hm'. change (counts_mode g = true) in Hm'. congruence.
Qed.

(** What a summary's other fields say does not matter. *)
Lemma good_summary f g :
  su_capture_mode (f (summary g)) = su_capture_mode (summary g) ->
  su_counts (f (summary g)) = su_counts (summary g) ->
  su_force_requests (f (summary g)) = su_force_requests (summary g) ->
  su_invocations (f (summary g)) = su_invocations (summary g) ->
  good g -> good (set_summary f g).
Proof.
  intros H1 H2 H3 H4 Hg. unfold set_summary. split; unfold counts_mode; cbn; rewrite ?H1, ?H2, ?H3, ?H4; apply Hg.
Qed.

Lemma good_diagnostic m g : good g -> good (diagnostic m g).
Proof. intros Hg. by apply good_summary; [cbn zeta; case_decide..|]. Qed.
Lemma counted_spec a b : let '(c, o) := counted a b in
  c = Z.min (a + b) u64_max /\ (o = false <-> a + b <= u64_max).
Proof. unfold counted. case_decide; split; try lia; naive_solver. Qed.

(** A total is at most the sum, and it is the sum when it is not marked. *)
Lemma add_counts_spec a b :
  (forall f, f ∈ metrics -> f (add_counts a b) = Z.min (f a + f b) u64_max) /\
  (overflow (add_counts a b) = false <->
   overflow a = false /\ overflow b = false /\ forall f, f ∈ metrics -> f a + f b <= u64_max).
Proof.
  unfold add_counts.
  pose proof (counted_spec (body_starts a) (body_starts b)) as H1. pose proof (counted_spec (force_requests a) (force_requests b)) as H2.
  pose proof (counted_spec (created a) (created b)) as H3. pose proof (counted_spec (cache_compute a) (cache_compute b)) as H4.
  pose proof (counted_spec (cache_hit a) (cache_hit b)) as H5. pose proof (counted_spec (cache_wait a) (cache_wait b)) as H6.
  repeat (destruct (counted _ _) as [? ?]). destruct H1 as [-> H1], H2 as [-> H2], H3 as [-> H3], H4 as [-> H4], H5 as [-> H5], H6 as [-> H6].
  split.
  - intros f Hf. unfold metrics in Hf. repeat (apply elem_of_cons in Hf as [->|Hf]; [done|]). by apply elem_of_nil in Hf.
  - cbn [overflow]. rewrite !orb_false_iff, H1, H2, H3, H4, H5, H6. rewrite <- Forall_forall. unfold metrics.
    rewrite !Forall_cons, Forall_nil. tauto.
Qed.

Lemma tallied_add t c k row :
  tallied t c -> (forall f, f ∈ metrics -> 0 <= f row) ->
  tallied (add_counts t row) (<[k := add_counts (default counts_default (c !! k)) row]> c).
Proof.
  intros [Hpos Hsum] Hrow. destruct (add_counts_spec t row) as [Ht Hto].
  destruct (add_counts_spec (default counts_default (c !! k)) row) as [Hx Hxo].
  assert (forall f, f ∈ metrics -> 0 <= f (default counts_default (c !! k))) as Hd.
  { intros f Hf. destruct (c !! k) as [x|] eqn:E; cbn [default from_option Datatypes.id]; [by apply (proj2 (Hpos f Hf) k x)|].
    unfold metrics in Hf. repeat (apply elem_of_cons in Hf as [->|Hf]; [cbn; lia|]). by apply elem_of_nil in Hf. }
  split.
  - intros f Hf. destruct (Hpos f Hf) as [H0 H1]. specialize (Hrow f Hf). specialize (Hd f Hf). split; [rewrite Ht by done; width; lia|].
    intros i x. rewrite lookup_insert. case_decide; [|apply H1]. intros [= <-]. rewrite Hx by done. width. lia.
  - intros Ho. apply Hto in Ho as (Ho & Hor & Hfit). destruct (Hsum Ho) as [Hall Htot].
    assert (forall f, f ∈ metrics -> f (default counts_default (c !! k)) <= f t) as Hle.
    { intros f Hf. rewrite (Htot f Hf). destruct (Hpos f Hf) as [H0 H1]. destruct (c !! k) as [x|] eqn:E; cbn [default from_option Datatypes.id].
      - apply (msum_le (fun _ x => f x) c k x); [apply H1|done].
      - rewrite <- (Htot f Hf). unfold metrics in Hf. repeat (apply elem_of_cons in Hf as [->|Hf]; [done|]). by apply elem_of_nil in Hf. }
    assert (overflow (add_counts (default counts_default (c !! k)) row) = false) as Hxf.
    { apply Hxo. split; [|split; [done|]].
      - destruct (c !! k) as [x|] eqn:E; [by apply (Hall k x)|done].
      - intros f Hf. specialize (Hle f Hf). specialize (Hfit f Hf). lia. }
    split.
    + intros i x. rewrite lookup_insert. case_decide; [|apply Hall]. by intros [= <-].
    + intros f Hf. rewrite (msum_insert (fun _ x => f x)), <- (Htot f Hf), Ht, Hx by done. specialize (Hfit f Hf). specialize (Hle f Hf).
      rewrite !Z.min_l by lia. destruct (c !! k) as [x|]; cbn [from_option default Datatypes.id]; [lia|].
      unfold metrics in Hf. repeat (apply elem_of_cons in Hf as [->|Hf]; [cbn; lia|]). by apply elem_of_nil in Hf.
Qed.

Lemma counts_mode_maps g g' : summary g' = summary g -> counts_mode g' = counts_mode g.
Proof. unfold counts_mode. by intros ->. Qed.

(** A defined node that replaces what stood for it; an invocation adds itself to
    the sums. *)
Lemma good_define node g :
  good g -> counts_mode g = false -> gn_defined node = true -> gn_site node = None -> good (define node g).1.
Proof.
  intros Hg Hm Hd Hs. destruct (define_cases node g) as [->|(n & -> & Hid & Hsite & Hkind & Hdef & Hold)]; cbn [fst]; [by apply good_diagnostic|].
  assert (forall h, h None = 0 -> node_sum h (g <| nodes ::= insert (gn_id node) n |>) = node_sum h g) as Hn.
  { intros h Hh. rewrite node_sum_insert, Hsite, Hs by done. lia. }
  split; [| |apply Hg| | |apply Hg]; cbn.
  - intros k x. rewrite lookup_insert. case_decide; [|apply Hg]. intros [= <-]. subst. split_and!; [done|congruence|].
    rewrite Hsite, Hs. by intros [? ?].
  - intros k e He. destruct (good_edges g Hg k e He) as (? & ? & Hf & Ht). split_and!; [done..| |]; rewrite lookup_insert; by case_decide.
  - intros _. destruct (good_detail g Hg Hm) as (H1 & H2 & H3). split; [done|]. rewrite Hn by done.
    split; [done|]. intros k. rewrite Hn by done. apply H3.
  - intros Hm'. change (counts_mode g = true) in Hm'. congruence.
Qed.

Lemma good_invocation inv m i arity seq ts g :
  good g -> counts_mode g = false ->
  good (let '(g, fresh) := define (invocation_node inv m i arity seq ts) g in if (fresh : bool) then count_invocation (m, i) g else g).
Proof.
  intros Hg Hm. destruct (define_cases (invocation_node inv m i arity seq ts) g) as [->|(n & -> & Hid & Hsite & Hkind & Hdef & Hold)];
    [by apply good_diagnostic|].
  destruct (good_detail g Hg Hm) as (H1 & H2 & H3). change (gn_site n = Some (site_default m i)) in Hsite.
  assert (forall h, h None = 0 -> node_sum h (g <| nodes ::= insert (gn_id (invocation_node inv m i arity seq ts)) n |>) =
    node_sum h g + h (Some (site_default m i))) as Hn by (intros h Hh; by rewrite node_sum_insert, Hsite).
  split; [| |apply Hg| | |apply Hg].
  - intros k x. change (<[gn_id (invocation_node inv m i arity seq ts) := n]> (nodes g) !! k = Some x -> gn_id x = k /\
      (gn_defined x = false -> gn_site x = None) /\ (is_Some (gn_site x) -> gn_kind x = str "invocation")).
    rewrite lookup_insert. case_decide; [|apply Hg]. intros [= <-]. subst k. split_and!; [done| |done]. intros Hf. by rewrite Hdef in Hf.
  - intros k e He. destruct (good_edges g Hg k e He) as (? & ? & Hf & Ht). split_and!; [done..| |]; cbn; rewrite lookup_insert; by case_decide.
  - intros _. unfold count_invocation, set_summary. cbn. split; [done|]. unfold node_sum in *. cbn in Hn |- *.
    rewrite Hn by done. split; [cbn; lia|]. intros k. rewrite Hn by done.
    assert (invoked_on k (Some (site_default m i)) = if decide ((m, i) = k) then 1 else 0) as ->.
    { unfold invoked_on, site_of. cbn. destruct (decide ((m, i) = k)) as [->|Hk]; [by rewrite decide_True|].
      rewrite decide_False; [done|]. by intros [= ?]. }
    rewrite lookup_insert. destruct (decide ((m, i) = k)) as [<-|Hk]; cbn [default from_option Datatypes.id body_starts];
      rewrite H3; unfold node_sum; lia.
  - intros Hm'. change (counts_mode g = true) in Hm'. congruence.
Qed.
Lemma good_edge from to_ relation index state seq ts g :
  good g -> counts_mode g = false -> is_Some (nodes g !! from) -> is_Some (nodes g !! to_) ->
  good (let g := count_edge from to_ relation index state seq ts g in
        if decide (relation = str "force") then set_summary (fun s => s <| su_force_requests ::= fun n => n + 1 |>) g else g).
Proof.
  intros Hg Hm Hf Ht. cbv zeta. set (k := (from, to_, relation, index, state)).
  set (e := default (mkGraphEdge from to_ relation index state 0 seq seq ts ts) (edges g !! k)).
  assert ((ge_from e, ge_to e, ge_relation e, ge_argument_index e, ge_state e) = k /\ 0 <= ge_count e /\
          ge_count e = from_option ge_count 0 (edges g !! k)) as (Hk & Hc & He).
  { unfold e. destruct (edges g !! k) as [x|] eqn:E; cbn [default from_option Datatypes.id]; [|done].
    destruct (good_edges g Hg k x E) as (? & ? & _). split_and!; [done|lia|done]. }
  set (e' := e <| ge_count ::= fun n => n + 1 |> <| ge_last_seq := seq |> <| ge_last_ts_ns := ts |>).
  assert (good (set_summary (fun s => s <| su_force_requests ::= fun n => n + if decide (relation = str "force") then 1 else 0 |>)
                  (g <| edges ::= insert k e' |>))) as HG.
  { split; [apply Hg| |apply Hg| | |apply Hg].
    - intros i x. change (<[k := e']> (edges g) !! i = Some x -> (ge_from x, ge_to x, ge_relation x, ge_argument_index x, ge_state x) = i /\
        1 <= ge_count x /\ is_Some (nodes g !! key_from i) /\ is_Some (nodes g !! key_to i)).
      rewrite lookup_insert. case_decide; [|apply Hg]. intros [= <-]. subst i. split_and!; [exact Hk|change (1 <= ge_count e + 1); lia|done|done].
    - intros _. destruct (good_detail g Hg Hm) as (H1 & H2 & H3). split; [|done].
      change (su_force_requests (summary g) + (if decide (relation = str "force") then 1 else 0) = msum force_count (<[k := e']> (edges g))).
      rewrite msum_insert, H1. assert (force_count k e' = if decide (relation = str "force") then ge_count e + 1 else 0) as -> by done.
      assert (from_option (force_count k) 0 (edges g !! k) = if decide (relation = str "force") then ge_count e else 0) as ->.
      { rewrite He. destruct (edges g !! k); cbn; [done|by case_decide]. }
      case_decide; lia.
    - intros Hm'. change (counts_mode g = true) in Hm'. congruence. }
  destruct (decide (relation = str "force")); [exact HG|].
  destruct HG as [G1 G2 G3 G4 G5 G6]. split; try done. intros _. destruct (G4 Hm) as (H1 & H2 & H3). split_and!; [|done|done].
  change (su_force_requests (summary g) + 0 = msum force_count (<[k := e']> (edges g))) in H1.
  change (su_force_requests (summary g) = msum force_count (<[k := e']> (edges g))). lia.
Qed.

Lemma placeholder_mode key kind g : counts_mode (placeholder key kind g) = counts_mode g.
Proof. unfold placeholder. by case_match. Qed.

Lemma placeholder_keeps key kind k g : is_Some (nodes g !! k) -> is_Some (nodes (placeholder key kind g) !! k).
Proof. intros Hk. unfold placeholder. case_match; [done|]. cbn. rewrite lookup_insert. by case_decide. Qed.

Lemma diagnostic_mode m g : counts_mode (diagnostic m g) = counts_mode g.
Proof. unfold counts_mode, diagnostic, set_summary. cbn. by case_decide. Qed.

Lemma change_mode g g' : change g g' -> counts_mode g' = counts_mode g.
Proof.
  destruct 1 as [| | |node g|inv m i arity seq ts g|inv t kind preview relation index state seq ts g|inv name c g| | | |]; try done.
  - apply diagnostic_mode.
  - destruct (define_cases node g) as [->|(n & -> & _)]; cbn [fst]; [apply diagnostic_mode|done].
  - set (n := invocation_node inv m i arity seq ts). destruct (define_cases n g) as [->|(n' & -> & _)]; [apply diagnostic_mode|done].
  - unfold relate. assert (counts_mode (placeholder t kind (placeholder inv "invocation" g)) = counts_mode g) as <- by by rewrite !placeholder_mode.
    destruct preview as [[p tr]|]; by case_decide.
  - change (counts_mode (placeholder inv "invocation" (set_summary (cache_outcome c) g)) = counts_mode g). rewrite placeholder_mode.
    by destruct c as [[] []].
Qed.

Lemma set_preview_same p tr n :
  gn_id (set_preview p tr n) = gn_id n /\ gn_site (set_preview p tr n) = gn_site n /\
  gn_kind (set_preview p tr n) = gn_kind n /\ gn_defined (set_preview p tr n) = gn_defined n.
Proof. unfold set_preview. by case_match. Qed.

Lemma good_change g g' : change g g' -> good g -> good g'.
Proof.
  intros Hch Hg. destruct Hch as [|m g|m i site g Hn Hsm Hsi|node g|inv m i arity seq ts g|inv t kind preview relation index state seq ts g Hm
    |inv name c g Hm|execution run i row total g Hm Hrun Hterm Hi Hsite Htot Hpos|run m w g Hm Hr|run x g Hm Hr|x g].
  - by apply good_diagnostic.
  - split; apply Hg.
  - split; try apply Hg.
    + intros k s. cbn. rewrite lookup_insert. case_decide; [|apply Hg]. intros [= <-]. by subst.
    + intros Hm. destruct (good_counts g Hg Hm) as (? & ? & H & ?). split_and!; [done..| |done]. intros k Hk. cbn. rewrite lookup_insert.
      case_decide; [done|]. by apply H.
  - by apply good_define.
  - by apply good_invocation.
  - unfold relate. set (g1 := placeholder t kind (placeholder inv "invocation" g)).
    assert (good g1 /\ counts_mode g1 = false) as [Hg1 Hm1].
    { unfold g1. split; [|by rewrite !placeholder_mode]. apply good_placeholder; [by apply good_placeholder|by rewrite placeholder_mode]. }
    assert (is_Some (nodes g1 !! inv) /\ is_Some (nodes g1 !! t)) as [Hi Ht].
    { unfold g1. split; [apply placeholder_keeps|]; apply placeholder_some. }
    destruct preview as [[p tr]|]; apply good_edge; try done.
    + apply good_alter; [|done..]. apply set_preview_same.
    + cbn. rewrite lookup_alter. case_decide; [subst; by rewrite fmap_is_Some|done].
    + cbn. rewrite lookup_alter. case_decide; [by rewrite fmap_is_Some|done].
  - assert (good (set_summary (cache_outcome c) g)) as Hg1 by (apply good_summary; [by destruct c as [[] []]..|done]).
    assert (counts_mode (set_summary (cache_outcome c) g) = false) as Hm1 by (rewrite <- Hm; by destruct c as [[] []]).
    apply good_alter; [by intros n|by apply good_placeholder|by rewrite placeholder_mode].
  - destruct (good_counts g Hg Hm) as (Hn & He & Hk & t & Ht & Htl). rewrite Htot in Ht. injection Ht as <-.
    split; try apply Hg.
    + intros Hm'. change (counts_mode g = false) in Hm'. congruence.
    + intros _. split_and!; [done..| |].
      * intros k. cbn. rewrite lookup_insert. case_decide; [by subst|apply Hk].
      * eexists. split; [done|]. apply tallied_add; [done|]. by apply Forall_forall.
  - split; apply Hg.
  - split; apply Hg.
  - by apply good_summary.
Qed.

Lemma good_changes g g' : rtc change g g' -> good g -> good g' /\ counts_mode g' = counts_mode g.
Proof.
  induction 1 as [|g g1 g2 H _ IH]; [done|]. intros Hg. destruct (IH (good_change _ _ H Hg)) as [? ->].
  split; [done|]. by apply change_mode.
Qed.

Lemma good_counting g : good g -> counting g.
Proof. intros Hg Hm. destruct (good_counts g Hg Hm) as (_ & _ & _ & t & -> & _). done. Qed.
(** ** The import, line by line *)

Definition diagnosed_count (g : Graph) : Z := su_diagnostic_count (summary g).
Definition records (g : Graph) : Z := su_records (summary g).

Lemma diagnostic_counts m g :
  diagnosed_count (diagnostic m g) = diagnosed_count g + 1 /\ records (diagnostic m g) = records g.
Proof. unfold diagnosed_count, records, diagnostic, set_summary. cbn. by case_decide. Qed.

Lemma placeholder_summary key kind g : summary (placeholder key kind g) = summary g.
Proof. unfold placeholder. by case_match. Qed.

Ltac kept := unfold diagnosed_count, records; by split; [cbn; lia|].

(** Changes only add diagnostics, and no records. *)
Lemma change_counts_kept g g' :
  change g g' -> diagnosed_count g <= diagnosed_count g' /\ records g' = records g.
Proof.
  destruct 1 as [m g| | |node g|inv m i arity seq ts g|inv t kind preview relation index state seq ts g|inv name c g| | | |];
    try kept.
  - destruct (diagnostic_counts m g). split; [lia|done].
  - destruct (define_cases node g) as [->|(n & -> & _)]; cbn [fst]; [|kept].
    destruct (diagnostic_counts (str "duplicate node definition " ++ gn_id node) g). split; [lia|done].
  - destruct (define_cases (invocation_node inv m i arity seq ts) g) as [->|(n & -> & _)]; [|kept].
    destruct (diagnostic_counts (str "duplicate node definition " ++ gn_id (invocation_node inv m i arity seq ts)) g). split; [lia|done].
  - unfold relate, diagnosed_count, records. destruct preview as [[p tr]|]; case_decide; cbn; rewrite !placeholder_summary; by split; [lia|].
  - unfold diagnosed_count, records. cbn. rewrite placeholder_summary. destruct c as [[] []]; cbn; by split; [lia|].
Qed.

Lemma changes_counts_kept g g' :
  rtc change g g' -> diagnosed_count g <= diagnosed_count g' /\ records g' = records g.
Proof.
  induction 1 as [|g g1 g2 H _ [IH1 IH2]]; [split; [lia|done]|]. apply change_counts_kept in H as [H1 H2]. split; [lia|congruence].
Qed.

(** Nothing has been recorded. *)
Record fresh (g : Graph) : Prop := {
  fresh_nodes : nodes g = ∅; fresh_edges : edges g = ∅; fresh_sites : sites g = ∅;
  fresh_counts : counts g = ∅; fresh_adjacency : adjacency g = ∅;
  fresh_forces : su_force_requests (summary g) = 0; fresh_invocations : su_invocations (summary g) = 0;
  fresh_total : counts_mode g = true -> su_counts (summary g) = Some counts_default
}.

Lemma fresh_good g : fresh g -> good g.
Proof.
  intros [Hn He Hs Hc Ha Hf Hi Ht]. split.
  - intros k n. by rewrite Hn.
  - intros k n. by rewrite He.
  - intros k n. by rewrite Hs.
  - intros _. unfold node_sum. rewrite Hn, He, Hc, Hf, Hi, !msum_empty. split_and!; [done..|]. intros k. by rewrite msum_empty, lookup_empty.
  - intros Hm. rewrite Hn, He, Hc. split_and!; [done..| |].
    + intros k [x Hk]. done.
    + exists counts_default. split; [by apply Ht|]. split.
      * intros f Hf'. split; [|by intros k x]. unfold metrics in Hf'.
        repeat (apply elem_of_cons in Hf' as [->|Hf']; [cbn; lia|]). by apply elem_of_nil in Hf'.
      * intros _. split; [by intros k x|]. intros f Hf'. rewrite msum_empty. unfold metrics in Hf'.
        repeat (apply elem_of_cons in Hf' as [->|Hf']; [done|]). by apply elem_of_nil in Hf'.
  - done.
Qed.

(** [m] ends, keeps [P] of the graph, adds at most diagnostics, and leaves the rest
    of the import alone. *)
Definition moves (P : Graph -> Prop) {A} (m : M Import_ A) (i : Import_) : Prop :=
  exists i' r, m i = Ret (i', r) /\ P (graph i') /\ diagnosed_count (graph i) <= diagnosed_count (graph i') /\
    records (graph i') = records (graph i) /\ bytes i' = bytes i /\ last_seq i' = last_seq i /\
    last_ts i' = last_ts i /\ footer i' = footer i.

Section Moves.
Context (P : Graph -> Prop).

Lemma moves_lift {A} (r : result A) i : P (graph i) -> moves P (lift r) i.
Proof. intros HP. exists i, r. split_and!; [done|done|lia|done..]. Qed.

Lemma moves_bind {A B} (m : M Import_ A) (k : A -> M Import_ B) i :
  moves P m i -> (forall a i', P (graph i') -> moves P (k a) i') -> moves P (bind m k) i.
Proof.
  intros (i1 & r & He & HP & Hd & Hr & Hb & Hs & Ht & Hf) Hk. unfold moves, bind. rewrite He. cbn [then_do].
  destruct r as [a|e]; [|by exists i1, (inr e)].
  destruct (Hk a i1 HP) as (i2 & r & He' & HP' & Hd' & Hr' & Hb' & Hs' & Ht' & Hf'). exists i2, r.
  split_and!; [done|done|lia|congruence..].
Qed.

Lemma moves_bind_lift {A B} (r : result A) (k : A -> M Import_ B) i :
  P (graph i) -> (forall a, r = inl a -> moves P (k a) i) -> moves P (bind (lift r) k) i.
Proof. intros HP Hk. destruct r as [a|e]; [by apply Hk|]. exists i, (inr e). split_and!; [done|done|lia|done..]. Qed.

Lemma moves_graph {A} (m : M Graph A) i :
  (exists g' r, m (graph i) = Ret (g', r) /\ P g' /\ diagnosed_count (graph i) <= diagnosed_count g' /\ records g' = records (graph i)) ->
  moves P (on_graph m) i.
Proof. intros (g' & r & He & HP & Hd & Hr). exists (i <| graph := g' |>), r. unfold on_graph. rewrite He. by split_and!. Qed.

Context (P_summary : forall f g,
  su_capture_mode (f (summary g)) = su_capture_mode (summary g) -> su_counts (f (summary g)) = su_counts (summary g) ->
  su_force_requests (f (summary g)) = su_force_requests (summary g) ->
  su_invocations (f (summary g)) = su_invocations (summary g) -> P g -> P (set_summary f g)).

Lemma moves_diagnose m i : P (graph i) -> moves P (diagnose m) i.
Proof.
  intros HP. apply moves_graph. exists (diagnostic m (graph i)), (inl tt). destruct (diagnostic_counts m (graph i)) as [Hd Hr].
  split_and!; [done| |lia|done]. by apply P_summary; [cbn zeta; case_decide..|].
Qed.

(** What is set says nothing about the nodes. *)
Lemma moves_summarize f i :
  (forall s, su_capture_mode (f s) = su_capture_mode s /\ su_counts (f s) = su_counts s /\
             su_force_requests (f s) = su_force_requests s /\ su_invocations (f s) = su_invocations s /\
             su_diagnostic_count (f s) = su_diagnostic_count s /\ su_records (f s) = su_records s) ->
  P (graph i) -> moves P (summarize f) i.
Proof.
  intros Hf HP. destruct (Hf (summary (graph i))) as (H1 & H2 & H3 & H4 & H5 & H6). apply moves_graph.
  exists (set_summary f (graph i)), (inl tt). split_and!; [done|by apply P_summary| |done].
  unfold diagnosed_count. cbn. rewrite H5. lia.
Qed.

Lemma moves_when b m i : P (graph i) -> (b = true -> moves P m i) -> moves P (when b m) i.
Proof. intros HP Hm. destruct b; [by apply Hm|]. by apply moves_lift. Qed.
End Moves.

Lemma fresh_summary f g :
  su_capture_mode (f (summary g)) = su_capture_mode (summary g) -> su_counts (f (summary g)) = su_counts (summary g) ->
  su_force_requests (f (summary g)) = su_force_requests (summary g) ->
  su_invocations (f (summary g)) = su_invocations (summary g) -> fresh g -> fresh (set_summary f g).
Proof. intros H1 H2 H3 H4 [? ? ? ? ? ? ? Ht]. split; cbn; unfold counts_mode; cbn; rewrite ?H1, ?H2, ?H3, ?H4; done. Qed.
Ltac moves_step := match goal with
  | |- moves _ (bind (lift _) _) _ => apply moves_bind_lift; [done|intros ? ?]
  | |- moves _ (bind _ _) _ => apply moves_bind; [|intros ? ? ?]
  | |- moves _ (fail _) _ => by apply (moves_lift _ (inr _))
  | |- moves _ (ret _) _ => by apply (moves_lift _ (inl _))
  | |- moves _ (lift _) _ => by apply moves_lift
  | |- moves _ (when _ _) _ => apply moves_when; [done|intros ?]
  | |- moves _ (reads _) ?i => by eexists i, (inl _); split_and!; [done|done|lia|done..]
  | |- moves fresh (diagnose _) _ => apply moves_diagnose; [apply fresh_summary|done]
  | |- moves fresh (summarize _) _ => apply moves_summarize; [apply fresh_summary|done|done]
  | |- moves good (diagnose _) _ => apply moves_diagnose; [apply good_summary|done]
  | |- moves good (summarize _) _ => apply moves_summarize; [apply good_summary|done|done]
  | |- moves _ (if decide ?P then _ else _) _ => destruct (decide P)
  | |- moves _ (if ?b then _ else _) _ => destruct b
  end.

Lemma header_mode_moves v semantics i : fresh (graph i) -> moves fresh (header_mode v semantics) i.
Proof.
  intros Hf. unfold header_mode. repeat moves_step. apply moves_graph. eexists _, (inl tt). split; [done|].
  split; [|by split]. destruct Hf. by split.
Qed.

Lemma header_moves v i : fresh (graph i) -> moves fresh (header v) i.
Proof. intros Hf. unfold header. repeat first [apply header_mode_moves; done|moves_step]. Qed.

(** What a footer says of a stream of [n] records. *)
Definition ends (v : Value) (n : Z) : Prop := get v "complete" = Some (Boolean true) /\ num v "records" = inl n.

(** The record continues the stream. *)
Definition accepted (v : Value) (n : Z) (i i' : Import_) : Prop :=
  exists ts e, num v "seq" = inl n /\ num v "ts_ns" = inl ts /\ text v "event" = inl e /\
    n = sadd64 (last_seq i) 1 /\ last_ts i <= ts /\ footer i = false /\ last_seq i' = n /\ last_ts i' = ts /\
    footer i' = bool_decide (e = str "footer") /\ (e = str "footer" -> ends v n).

Definition dc (i : Import_) : Z := diagnosed_count (graph i).

(** [m] ends well, and what it does without a diagnostic is [Q]. *)
Definition keeps {A} (m : M Import_ A) (i : Import_) (Q : A -> Import_ -> Prop) : Prop :=
  exists i' r, m i = Ret (i', r) /\ good (graph i') /\ dc i <= dc i' /\ records (graph i') = records (graph i) /\
    bytes i' = bytes i /\ forall a, r = inl a -> dc i' = dc i -> Q a i'.

Lemma keeps_bind {A B} (m : M Import_ A) (k : A -> M Import_ B) i (R : A -> Import_ -> Prop) Q :
  keeps m i R ->
  (forall a i', good (graph i') -> records (graph i') = records (graph i) -> dc i <= dc i' ->
     keeps (k a) i' (fun b i'' => dc i' = dc i -> R a i' -> Q b i'')) ->
  keeps (bind m k) i Q.
Proof.
  intros (i1 & r & He & Hg & Hd & Hr & Hb & HR) Hk. unfold keeps, bind. rewrite He. cbn [then_do].
  destruct r as [a|e]; [|by exists i1, (inr e)].
  destruct (Hk a i1 Hg Hr Hd) as (i2 & r & He' & Hg' & Hd' & Hr' & Hb' & HQ). exists i2, r.
  split_and!; [done|done|lia|congruence|congruence|]. intros b Hb2 Hd2. apply HQ; [done|lia|lia|]. apply HR; [done|lia].
Qed.

Lemma keeps_lift {A B} (r : result A) (k : A -> M Import_ B) i Q :
  good (graph i) -> (forall a, r = inl a -> keeps (k a) i Q) -> keeps (bind (lift r) k) i Q.
Proof. intros Hg Hk. destruct r as [a|e]; [by apply Hk|]. exists i, (inr e). split_and!; [done|done|lia|done..]. Qed.

Lemma keeps_moves {A} (m : M Import_ A) i :
  moves good m i -> keeps m i (fun _ i' => last_seq i' = last_seq i /\ last_ts i' = last_ts i /\ footer i' = footer i).
Proof. intros (i' & r & He & HP & Hd & Hr & Hb & Hs & Ht & Hf). exists i', r. by split_and!. Qed.

(** A diagnostic is made only where [b]. *)
Lemma keeps_when b m i :
  good (graph i) -> keeps (when b (diagnose m)) i (fun _ i' => b = false /\ i' = i).
Proof.
  intros Hg. destruct b; [|by exists i, (inl tt); split_and!; [done|done|lia|done..]].
  exists (i <| graph := diagnostic m (graph i) |>), (inl tt). destruct (diagnostic_counts m (graph i)) as [Hd Hr].
  split_and!; [done|by apply good_diagnostic|unfold dc; cbn; lia|done|done|]. unfold dc. cbn. lia.
Qed.

Lemma keeps_weaken {A} (m : M Import_ A) i (Q Q' : A -> Import_ -> Prop) :
  keeps m i Q -> (forall a i', Q a i' -> Q' a i') -> keeps m i Q'.
Proof. intros (i' & r & ? & ? & ? & ? & ? & HQ) Hw. exists i', r. split_and!; auto. Qed.

Lemma keeps_reads {A B} (f : Import_ -> A) (k : A -> M Import_ B) i Q : keeps (k (f i)) i Q -> keeps (bind (reads f) k) i Q.
Proof. done. Qed.

Lemma keeps_set {B} f (k : unit -> M Import_ B) i Q :
  graph (f i) = graph i -> bytes (f i) = bytes i -> keeps (k tt) (f i) Q -> keeps (bind (modify f) k) i Q.
Proof.
  intros Hg Hb (i' & r & He & H1 & H2 & H3 & H4 & HQ). exists i', r. unfold dc in *. rewrite Hg in *. split_and!; [done..|congruence|done].
Qed.

Lemma keeps_end {A} (m : M Import_ A) i a (Q : A -> Import_ -> Prop) :
  good (graph i) -> m i = Ret (i, inl a) -> Q a i -> keeps m i Q.
Proof. intros Hg He HQ. exists i, (inl a). split_and!; [done|done|lia|done|done|]. by intros b [= <-]. Qed.

(** A diagnostic is not silent. *)
Lemma keeps_diagnose m i Q : good (graph i) -> keeps (diagnose m) i Q.
Proof. intros Hg. eapply keeps_weaken; [by apply (keeps_when true)|]. by intros ? ? []. Qed.

Lemma record_footer_keeps v seq i :
  good (graph i) ->
  keeps (record_footer v seq) i (fun _ i' => last_seq i' = last_seq i /\ last_ts i' = last_ts i /\ footer i = false /\
    footer i' = true /\ seq = records (graph i) /\ ends v seq).
Proof.
  intros Hg. unfold record_footer. apply keeps_reads.
  eapply keeps_bind; [by apply keeps_when|]. intros [] i1 Hg1 Hr1 Hd1. apply keeps_set; [done|done|]. set (i2 := i1 <| footer := true |>).
  eapply (keeps_bind _ _ _ (fun _ i' => last_seq i' = last_seq i2 /\ last_ts i' = last_ts i2 /\ footer i' = true /\ get v "complete" = Some (Boolean true))).
  - destruct (get v "complete") as [[|[]| | | |]|]; cbn [mbind option_bind as_bool]; try by apply keeps_diagnose.
    + by apply (keeps_end _ _ tt).
    + apply keeps_lift; [done|]. intros reason _. eapply keeps_bind; [apply keeps_moves; moves_step|].
      intros [] i3 Hg3 Hr3 Hd3. by apply keeps_diagnose.
  - intros [] i3 Hg3 Hr3 Hd3. apply keeps_lift; [done|]. intros n Hn. apply keeps_reads. eapply keeps_weaken; [by apply keeps_when|].
    intros [] i4 [Hb ->] Hdc (Hs & Ht & Hf & Hc) Hdc' [Ha ->]. apply bool_decide_eq_false in Hb.
    assert (n = records (graph i3) /\ n = seq) as [Hn3 <-] by (unfold records; split; apply dec_stable; tauto).
    split_and!; [done|done|done|done|by rewrite Hn3, Hr3|by split].
Qed.

Lemma stream_record_keeps v i :
  good (graph i) -> keeps (stream_record v) i (fun _ i' => accepted v (records (graph i)) i i').
Proof.
  intros Hg. unfold stream_record. apply keeps_lift; [done|]. intros seq Hseq. apply keeps_lift; [done|]. intros ts Hts.
  apply keeps_reads. eapply keeps_bind; [by apply keeps_when|]. intros [] i1 Hg1 Hr1 Hd1.
  eapply keeps_bind; [by apply keeps_when|]. intros [] i2 Hg2 Hr2 Hd2. apply keeps_set; [done|done|].
  eapply keeps_bind; [by apply keeps_when|]. intros [] i3 Hg3 Hr3 Hd3. apply keeps_lift; [done|]. intros e He.
  assert (num v "seq" = inl seq) as Hnum.
  { unfold id in Hseq. destruct (num v "seq") as [n|]; [|done]. by case_decide; [|injection Hseq as ->]. }
  destruct (decide (e = str "footer")) as [Hfe|Hfe].
  - eapply keeps_weaken; [by apply record_footer_keeps|].
    intros [] i4 (Hs & Ht & Hf & Hf' & Hn & Hend) Hdc3 [Hb3 ->] Hdc2 [Hb2 ->] Hdc1 [Hb1 ->].
    apply bool_decide_eq_false in Hb1, Hb2. exists ts, e. cbn in Hf.
    assert (seq = sadd64 (last_seq i) 1 /\ seq = records (graph i)) as [H1 H2] by (unfold records; split; apply dec_stable; tauto).
    rewrite <- H2. split_and!; [done|done|done|done|lia|done|done|done| |by intros _].
    rewrite Hf'. by rewrite bool_decide_eq_true_2.
  - eapply keeps_weaken; [apply keeps_moves|].
    + apply moves_graph. destruct (record_runs v seq ts (graph i3)) as (g' & r & Hrec & Hr); [by apply good_counting|].
      exists g', r. split; [done|]. destruct r as [u|err]; [|subst; split_and!; [done|lia|done]].
      destruct (changes_counts_kept _ _ Hr). destruct (good_changes _ _ Hr Hg3). split_and!; [done|lia|done].
    + intros [] i4 (Hs & Ht & Hf) Hdc3 [Hb3 ->] Hdc2 [Hb2 ->] Hdc1 [Hb1 ->]. cbn in Hf, Hs, Ht.
      apply bool_decide_eq_false in Hb1, Hb2. exists ts, e.
      assert (seq = sadd64 (last_seq i) 1 /\ seq = records (graph i)) as [H1 H2] by (unfold records; split; apply dec_stable; tauto).
      rewrite <- H2. split_and!; [done|done|done|done|lia|done|done|done| |done].
      rewrite Hf, Hb3. by rewrite bool_decide_eq_false_2.
Qed.

(** What holds between lines. *)
Record steady (limits : Limits) (i : Import_) : Prop := {
  steady_good : good (graph i);
  steady_records : 0 <= records (graph i);
  steady_fresh : records (graph i) = 0 -> fresh (graph i);
  steady_limits : 0 < records (graph i) -> too_large limits (graph i) = false /\ records (graph i) <= lm_records limits
}.

Lemma graph_set g i : graph (i <| graph := g |>) = g.
Proof. done. Qed.

Lemma diagnosed_keeps m i Q : good (graph i) -> keeps m i Q -> keeps (diagnosed m) i (fun _ i' => Q tt i').
Proof.
  intros Hg (i' & r & He & Hg' & Hd & Hr & Hb & HQ). unfold keeps, diagnosed. rewrite He. cbn [then_do].
  destruct r as [[]|e]; [exists i', (inl tt); split_and!; try done; by intros [] _; apply HQ|].
  destruct (diagnostic_counts (line_no i' ++ str ": " ++ e) (graph i')) as [Hd' Hr'].
  exists (i' <| graph := diagnostic (line_no i' ++ str ": " ++ e) (graph i') |>), (inl tt).
  unfold dc in *. rewrite graph_set. split_and!; [done|by apply good_diagnostic|lia|congruence|done|]. lia.
Qed.

Lemma header_keeps v n i :
  good (graph i) -> (n = 1 -> fresh (graph i)) ->
  keeps (when (bool_decide (n = 1)) (header v)) i
    (fun _ i' => last_seq i' = last_seq i /\ last_ts i' = last_ts i /\ footer i' = footer i).
Proof.
  intros Hg Hf. case_bool_decide as Hn; cbn [when]; [|by apply (keeps_end _ _ tt)].
  destruct (header_moves v i) as (i' & r & He & HP & Hd & Hr & Hb & Hs & Ht & Hft); [by apply Hf|].
  exists i', r. split_and!; [done|by apply fresh_good|done..].
Qed.

Lemma too_large_diagnostic limits m g : too_large limits (diagnostic m g) = too_large limits g.
Proof. unfold too_large, diagnostic, set_summary. cbn. by case_decide. Qed.

Lemma read_line_steady limits line i :
  steady limits i ->
  exists i' r, read_line limits line i = Ret (i', r) /\
    (r = inl tt -> steady limits i' /\ records (graph i') = records (graph i) + 1 /\ dc i <= dc i' /\
      (dc i' = dc i -> exists v, from_slice line = inl v /\ accepted v (records (graph i) + 1) i i')).
Proof.
  intros [Hg Hn Hfr Hlim]. unfold read_line, bind at 1, modify. cbn [then_do]. unfold bind at 1, reads at 1. cbn [then_do].
  set (i0 := i <| bytes ::= _ |>). case_decide as Hb; [by eexists _, (inr _)|]. case_decide as Hrb; [by eexists _, (inr _)|].
  unfold bind at 1, summarize, on_graph, modify. cbn [then_do]. unfold bind at 1, reads at 1. cbn [then_do].
  set (i1 := i0 <| graph := _ |>). assert (records (graph i1) = records (graph i) + 1) as Hr1 by done.
  assert (good (graph i1)) as Hg1 by by apply good_summary.
  change (su_records (summary (graph i1))) with (records (graph i1)).
  case_decide as Hrec; [by eexists _, (inr _)|].
  destruct (from_slice line) as [v|e].
  - assert (keeps (when (bool_decide (records (graph i1) = 1)) (header v) ;; diagnosed (stream_record v)) i1
      (fun _ i' => accepted v (records (graph i1)) i1 i')) as (i3 & r & He & Hg3 & Hd3 & Hr3 & Hb3 & HQ).
    { eapply keeps_bind; [apply header_keeps; [done|]|].
      - intros H1. assert (records (graph i) = 0) as Hz by lia. apply fresh_summary; [done..|by apply Hfr].
      - intros [] i2 Hg2 Hr2 Hd2. eapply keeps_weaken; [apply diagnosed_keeps; [done|by apply stream_record_keeps]|].
        intros [] i' Ha _ (Hs & Ht & Hf). unfold accepted in *. by rewrite <- Hs, <- Ht, <- Hf, <- Hr2. }
    assert ((when (bool_decide (records (graph i1) = 1)) (header v) ;; diagnosed (stream_record v) ;;
             let* large := reads (fun i => too_large limits (graph i)) in
             if large then fail (str "graph exceeds node/site/module/relation/execution limit; no partial import retained")
             else ret tt) i1 =
           match r with inl _ => if too_large limits (graph i3)
             then Ret (i3, inr (str "graph exceeds node/site/module/relation/execution limit; no partial import retained")) else Ret (i3, inl tt)
           | inr e => Ret (i3, inr e) end) as ->.
    { unfold bind in He |- *. destruct (when _ (header v) i1) as [[i2 [[]|e]]|]; cbn [then_do] in *; [|by injection He as <- <-|done].
      rewrite He. cbn [then_do]. destruct r as [[]|e]; [|done]. unfold reads. cbn [then_do]. by destruct (too_large limits (graph i3)). }
    destruct r as [[]|e]; [|by eexists _, (inr _)].
    destruct (too_large limits (graph i3)) eqn:Hl; [by eexists _, (inr _)|]. exists i3, (inl tt). split; [done|]. intros _.
    split; [|split; [lia|split; [exact Hd3|]]].
    + split; [done|lia|lia|]. intros _. split; [done|]. rewrite Hr3. lia.
    + intros Hq. exists v. split; [done|]. rewrite <- Hr1. by apply (HQ tt).
  - case_decide as H1; [by eexists _, (inr _)|]. set (d := line_no i1 ++ str ": invalid/truncated JSON: " ++ e).
    exists (i1 <| graph := diagnostic d (graph i1) |>), (inl tt). split; [done|]. intros _.
    destruct (diagnostic_counts d (graph i1)) as [Hd Hr]. change (diagnosed_count (graph i1)) with (dc i) in Hd.
    destruct Hlim as [Hl _]; [lia|]. unfold dc at 2 3. rewrite graph_set, Hr, Hd, Hr1. split; [|split_and!; [done|lia|lia]].
    split; rewrite graph_set; [by apply good_diagnostic|lia|lia|]. intros _. rewrite too_large_diagnostic. split; [exact Hl|lia].
Qed.
(** ** A valid stream *)

Record valid_prefix (vs : list Value) : Prop := {
  prefix_seq : forall k v, vs !! k = Some v -> num v "seq" = inl (Z.of_nat k + 1);
  prefix_times : forall k v v', vs !! k = Some v -> vs !! S k = Some v' ->
    exists t t', num v "ts_ns" = inl t /\ num v' "ts_ns" = inl t' /\ t <= t';
  prefix_body : forall k v, vs !! k = Some v -> (S k < length vs)%nat -> text v "event" <> inl (str "footer")
}.

(** Numbered records of one time after the other, the last one a footer that says
    the capture is complete, and none before it. *)
Record valid_stream (vs : list Value) : Prop := {
  stream_prefix : valid_prefix vs;
  stream_end : exists v, last vs = Some v /\ text v "event" = inl (str "footer") /\ ends v (Z.of_nat (length vs))
}.

(** What the import knows after the records [vs] if it had nothing to say of
    them. *)
Record read_so_far (vs : list Value) (i : Import_) : Prop := {
  far_valid : valid_prefix vs;
  far_seq : last_seq i = Z.of_nat (length vs);
  far_ts : forall v, last vs = Some v -> num v "ts_ns" = inl (last_ts i);
  far_footer : forall v, last vs = Some v -> exists e, text v "event" = inl e /\ footer i = bool_decide (e = str "footer") /\
    (e = str "footer" -> ends v (Z.of_nat (length vs)));
  far_start : vs = [] -> footer i = false
}.

Lemma read_so_far_snoc vs v i i' n :
  read_so_far vs i -> n = Z.of_nat (length vs) + 1 -> accepted v n i i' -> read_so_far (vs ++ [v]) i'.
Proof.
  intros [[Hseq Hts Hbody] Hls Hlt Hlf Hst] -> (ts & e & H1 & H2 & H3 & H4 & H5 & H6 & H7 & H8 & H9 & H10).
  assert (Z.of_nat (length (vs ++ [v])) = Z.of_nat (length vs) + 1) as Hlen by (rewrite length_app; cbn; lia).
  split.
  - split.
    + intros k w Hw. apply lookup_app_Some in Hw as [Hw|[Hk Hw]]; [by apply Hseq|].
      apply list_lookup_singleton_Some in Hw as [Hk' <-]. rewrite H1. f_equal. lia.
    + intros k w w' Hw Hw'. apply lookup_app_Some in Hw' as [Hw'|[Hk Hw']].
      * apply lookup_app_Some in Hw as [Hw|[Hk _]]; [by apply (Hts k)|]. apply lookup_lt_Some in Hw'. lia.
      * apply list_lookup_singleton_Some in Hw' as [Hk' <-]. rewrite lookup_app_l in Hw by lia.
        exists (last_ts i), ts. split_and!; [|done|done]. apply Hlt. rewrite last_lookup. rewrite <- Hw. f_equal. lia.
    + intros k w Hw Hk. rewrite length_app in Hk. cbn in Hk. rewrite lookup_app_l in Hw by lia.
      destruct (decide (S k < length vs)%nat) as [Hk'|Hk']; [by apply (Hbody k)|].
      destruct (Hlf w) as (e' & He' & Hf' & _); [rewrite last_lookup, <- Hw; f_equal; lia|].
      rewrite He'. intros [= ->]. rewrite bool_decide_eq_true_2 in Hf' by done. congruence.
  - by rewrite Hlen.
  - intros w. rewrite last_snoc. intros [= <-]. congruence.
  - intros w. rewrite last_snoc. intros [= <-]. exists e. rewrite Hlen. by split_and!.
  - intros H. by apply app_eq_nil in H as [_ ?].
Qed.

Definition parsed (line : list Z) (v : Value) : Prop := from_slice line = inl v.

(** What a run over some lines gives. *)
Definition reads_lines (limits : Limits) (lines : list (list Z)) (m : M Import_ unit) : Prop :=
  forall i, steady limits i ->
  exists i' r, m i = Ret (i', r) /\
    (r = inl tt -> steady limits i' /\ records (graph i') = records (graph i) + Z.of_nat (length lines) /\ dc i <= dc i' /\
      (dc i' = dc i -> forall vs, read_so_far vs i -> records (graph i) = Z.of_nat (length vs) ->
         exists vs', Forall2 parsed lines vs' /\ read_so_far (vs ++ vs') i')).

Lemma reads_lines_nil limits : reads_lines limits [] (ret tt).
Proof.
  intros i Hi. exists i, (inl tt). split; [done|]. intros _. split_and!; [done|cbn; lia|lia|].
  intros _ vs Hvs _. exists []. by rewrite app_nil_r.
Qed.

Lemma reads_lines_app limits l1 l2 m1 m2 :
  reads_lines limits l1 m1 -> reads_lines limits l2 m2 -> reads_lines limits (l1 ++ l2) (m1 ;; m2).
Proof.
  intros H1 H2 i Hi. destruct (H1 i Hi) as (i1 & r & He & Hr). unfold bind. rewrite He. cbn [then_do].
  destruct r as [[]|e]; [|by exists i1, (inr e)]. destruct (Hr eq_refl) as (Hi1 & Hn1 & Hd1 & Hq1).
  destruct (H2 i1 Hi1) as (i2 & r & He' & Hr'). exists i2, r. split; [done|]. intros ->.
  destruct (Hr' eq_refl) as (Hi2 & Hn2 & Hd2 & Hq2). split_and!; [done|rewrite length_app; lia|lia|].
  intros Hq vs Hvs Hlen. destruct (Hq1 ltac:(lia) vs Hvs Hlen) as (vs1 & Hp1 & Hvs1).
  destruct (Hq2 ltac:(lia) (vs ++ vs1) Hvs1) as (vs2 & Hp2 & Hvs2).
  { rewrite length_app. apply Forall2_length in Hp1. lia. }
  exists (vs1 ++ vs2). split; [by apply Forall2_app|]. by rewrite app_assoc.
Qed.

Lemma reads_lines_one limits line : reads_lines limits [line] (read_line limits line).
Proof.
  intros i Hi. destruct (read_line_steady limits line i Hi) as (i' & r & He & Hr). exists i', r. split; [done|].
  intros Hok. destruct (Hr Hok) as (Hs & Hn & Hd & Hq). split_and!; [done|done|done|].
  intros Hdc vs Hvs Hlen. destruct (Hq Hdc) as (v & Hv & Ha). exists [v]. split; [by repeat constructor|].
  apply (read_so_far_snoc vs v i i' (records (graph i) + 1)); [done|lia|done].
Qed.

Lemma reads_lines_each limits lines : reads_lines limits lines (read_each limits lines).
Proof.
  induction lines as [|l lines IH]; [apply reads_lines_nil|]. cbn [read_each].
  apply (reads_lines_app _ [l]); [apply reads_lines_one|done].
Qed.

(** The lines of a reader. *)
Definition lines_of (limits : Limits) (r : Reader) : list (list Z) :=
  let '(lines, rest) := read_lines (lm_record_bytes limits) [] (data r) in
  lines ++ if decide (rest = []) then [] else [rest].

Lemma reads_lines_all limits r i :
  steady limits i ->
  exists i' x, read_all limits r i = Ret (i', x) /\
    (x = inl tt -> failure r = None /\ steady limits i' /\
       records (graph i') = records (graph i) + Z.of_nat (length (lines_of limits r)) /\ dc i <= dc i' /\
      (dc i' = dc i -> forall vs, read_so_far vs i -> records (graph i) = Z.of_nat (length vs) ->
         exists vs', Forall2 parsed (lines_of limits r) vs' /\ read_so_far (vs ++ vs') i')).
Proof.
  intros Hi. unfold read_all, lines_of. destruct (read_lines _ [] (data r)) as [lines rest].
  destruct (failure r) as [e|].
  - destruct (reads_lines_each limits lines i Hi) as (i' & [[]|e'] & He & _); unfold bind; rewrite He; cbn [then_do];
      [by eexists _, (inr e)|by eexists _, (inr e')].
  - assert (reads_lines limits (if decide (rest = []) then [] else [rest])
      (if decide (rest = []) then ret tt else read_line limits rest)) as Hr.
    { case_decide; [apply reads_lines_nil|apply reads_lines_one]. }
    destruct (reads_lines_app _ _ _ _ _ (reads_lines_each limits lines) Hr i Hi) as (i' & x & He & Hx).
    exists i', x. split; [done|]. intros Hok. split; [done|]. by apply Hx.
Qed.
(** No byte is lost: the lines are the file. *)
Lemma read_lines_join limit l cur : let '(lines, rest) := read_lines limit cur l in mjoin lines ++ rest = cur ++ l.
Proof.
  revert cur. induction l as [|b l IH]; intros cur; cbn [read_lines]; [by rewrite app_nil_r|].
  case_decide; [specialize (IH [])|specialize (IH (cur ++ [b]))]; destruct (read_lines limit _ l) as [lines rest].
  - change (mjoin ((cur ++ [b]) :: lines)) with ((cur ++ [b]) ++ mjoin lines). rewrite <- !app_assoc. cbn. by rewrite IH.
  - by rewrite IH, <- app_assoc.
Qed.

Lemma lines_join limits r : mjoin (lines_of limits r) = data r.
Proof.
  unfold lines_of. pose proof (read_lines_join (lm_record_bytes limits) (data r) []) as H. destruct (read_lines _ [] (data r)) as [lines rest].
  rewrite join_app. change (data r) with ([] ++ data r). rewrite <- H. f_equal. case_decide; [by subst|]. cbn. by rewrite app_nil_r.
Qed.

(** ** The finished graph *)

(** What a summary says of the records themselves. *)
Definition core (g : Graph) : list Z * option GraphCounts * Z * Z * Z * Z * Z * list GraphExecution :=
  let s := summary g in
  (su_capture_mode s, su_counts s, su_invocations s, su_force_requests s, su_cache_computes s, su_cache_hits s,
   su_cache_waits s, su_executions s).

Definition maps (g : Graph) := (nodes g, edges g, sites g, modules g, counts g, count_executions g, adjacency g).

Lemma core_diagnostic m g : core (diagnostic m g) = core g /\ maps (diagnostic m g) = maps g.
Proof. unfold core, maps, diagnostic, set_summary. cbn. by case_decide. Qed.

Lemma diagnostics_fold l g :
  let g' := foldl (fun g d => diagnostic d g) g l in
  (good g -> good g') /\ diagnosed_count g' = diagnosed_count g + Z.of_nat (length l) /\ records g' = records g /\
  core g' = core g /\ maps g' = maps g.
Proof.
  cbv zeta. revert g. induction l as [|d l IH]; intros g; cbn [foldl]; [split_and!; [done|cbn; lia|done..]|].
  destruct (IH (diagnostic d g)) as (H1 & H2 & H3 & H4 & H5). destruct (diagnostic_counts d g) as [Hd Hr].
  destruct (core_diagnostic d g) as [Hc Hm].
  split_and!; [intros Hg; by apply H1, good_diagnostic|cbn [length]; lia|congruence..].
Qed.

Lemma missing_fold l g :
  let g' := missing l g in
  (good g -> good g') /\ diagnosed_count g' = diagnosed_count g + Z.of_nat (length l) /\ records g' = records g /\
  core g' = core g /\ maps g' = maps g.
Proof.
  cbv zeta. unfold missing. revert g. induction l as [|d l IH]; intros g; cbn [foldl]; [split_and!; [done|cbn; lia|done..]|].
  set (g1 := set_summary _ g). destruct (IH (diagnostic d g1)) as (H1 & H2 & H3 & H4 & H5). destruct (diagnostic_counts d g1) as [Hd Hr].
  destruct (core_diagnostic d g1) as [Hc Hm].
  change (diagnosed_count g1) with (diagnosed_count g) in Hd. change (records g1) with (records g) in Hr.
  change (core g1) with (core g) in Hc. change (maps g1) with (maps g) in Hm.
  split_and!; [intros Hg; apply H1, good_diagnostic; by apply good_summary|cbn [length]; lia|congruence..].
Qed.

(** The totals a capture of counts reports. *)
Definition reported (s : GraphSummary) (t : GraphCounts) : Prop :=
  su_invocations s = body_starts t /\ su_force_requests s = force_requests t /\ su_cache_computes s = cache_compute t /\
  su_cache_hits s = cache_hit t /\ su_cache_waits s = cache_wait t.

Record consistent (g : Graph) : Prop := {
  consistent_good : good (g <| adjacency := ∅ |>);
  consistent_adjacency : forall k, default [] (adjacency g !! k) =
    filter (fun e => key_from e = k \/ key_to e = k) (map fst (in_order edge_cmp (edges g)));
  consistent_sizes : su_nodes (summary g) = Z.of_nat (size (nodes g)) /\ su_relations (summary g) = Z.of_nat (size (edges g));
  consistent_counts : counts_mode g = true -> exists t, su_counts (summary g) = Some t /\ reported (summary g) t
}.

(** Everything a record refers to has its own record. *)
Record closed (g : Graph) : Prop := {
  closed_nodes : forall k n, nodes g !! k = Some n -> gn_defined n = true;
  closed_sites : forall k, is_Some (counts g !! k) -> is_Some (sites g !! k);
  closed_modules : forall k, is_Some (sites g !! k) \/ is_Some (counts g !! k) -> k.1 ∈ modules g;
  closed_executions : counts_mode g = true -> forall x run, count_executions g !! x = Some run ->
    ce_terminal run = true /\ ce_module run ∈ modules g /\ size (ce_sites run) = expected_rows g (ce_module run)
}.

Lemma in_order_elem {K V} `{Countable K} (cmp : K -> K -> comparison) (m : gmap K V) k v :
  (k, v) ∈ in_order cmp m <-> m !! k = Some v.
Proof. unfold in_order. by rewrite sort_by_perm, elem_of_map_to_list. Qed.

Lemma in_order_keys {K V} `{Countable K} (cmp : K -> K -> comparison) (m : gmap K V) k :
  k ∈ map fst (in_order cmp m) <-> is_Some (m !! k).
Proof.
  rewrite list_elem_of_fmap. split.
  - intros ([k' v] & -> & Hk%in_order_elem). by exists v.
  - intros [v Hv]. exists (k, v). split; [done|]. by apply in_order_elem.
Qed.

Lemma link_all l a k :
  default [] (foldl (fun a (e : EdgeKey * GraphEdge) => link e.1 a) a l !! k) =
  default [] (a !! k) ++ filter (fun e => key_from e = k \/ key_to e = k) (map fst l).
Proof.
  revert a. induction l as [|[e x] l IH]; intros a; cbn [foldl map filter list_filter fst]; [by rewrite app_nil_r|].
  rewrite IH. assert (default [] (link e a !! k) = default [] (a !! k) ++ if decide (key_from e = k \/ key_to e = k) then [e] else []) as ->.
  { unfold link. destruct (decide (key_to e = key_from e)) as [He|He].
    - rewrite lookup_insert. destruct (decide (key_from e = k)) as [->|Hk]; cbn [default from_option Datatypes.id].
      + by rewrite decide_True by by left.
      + rewrite decide_False by (rewrite He; tauto). by rewrite app_nil_r.
    - rewrite !lookup_insert. destruct (decide (key_to e = k)) as [Ht|Ht]; cbn [default from_option Datatypes.id].
      + rewrite decide_False by congruence. rewrite (decide_True _ _ (or_intror Ht)). by rewrite Ht.
      + destruct (decide (key_from e = k)) as [Hf|Hf]; cbn [default from_option Datatypes.id].
        * rewrite decide_True by by left. by rewrite Hf.
        * rewrite decide_False by tauto. by rewrite app_nil_r. }
  case_decide; by rewrite <- app_assoc.
Qed.
Lemma label_node_same g n :
  gn_id (label_node g n) = gn_id n /\ gn_site (label_node g n) = gn_site n /\ gn_kind (label_node g n) = gn_kind n /\
  gn_defined (label_node g n) = gn_defined n.
Proof. unfold label_node. by case_match. Qed.

Lemma good_relabel f g :
  (forall n, gn_id (f n) = gn_id n /\ gn_site (f n) = gn_site n /\ gn_kind (f n) = gn_kind n /\ gn_defined (f n) = gn_defined n) ->
  good g -> good (g <| nodes ::= fmap f |>).
Proof.
  intros Hf Hg. assert (forall h, node_sum h (g <| nodes ::= fmap f |>) = node_sum h g) as Hn.
  { intros h. unfold node_sum. cbn. rewrite msum_fmap. apply msum_ext. intros _ n _. by destruct (Hf n) as (_ & -> & _). }
  split; [| |apply Hg| | |apply Hg]; cbn.
  - intros i n. rewrite lookup_fmap. intros (m & Hm & ->)%fmap_Some. destruct (Hf m) as (-> & -> & -> & ->). by apply Hg.
  - intros i e He. destruct (good_edges g Hg i e He) as (? & ? & ? & ?). split_and!; [done..| |]; by rewrite lookup_fmap, fmap_is_Some.
  - intros Hm. destruct (good_detail g Hg Hm) as (? & ? & H5). rewrite Hn. split_and!; [done..|]. intros k. rewrite Hn. apply H5.
  - intros Hm. destruct (good_counts g Hg Hm) as (-> & ? & ? & ?). by rewrite fmap_empty.
Qed.

Lemma bind_nil {A B} (f : A -> list B) l x : l ≫= f = [] -> x ∈ l -> f x = [].
Proof.
  intros Hl Hx. apply elem_of_nil_inv. intros y Hy. assert (y ∈ l ≫= f) as Hin by (apply list_elem_of_bind; by exists x).
  rewrite Hl in Hin. by apply elem_of_nil in Hin.
Qed.

Lemma expected_rows_maps g g' m : maps g' = maps g -> expected_rows g' m = expected_rows g m.
Proof. unfold expected_rows, maps. by intros [= _ _ -> _ _ _ _]. Qed.

Lemma finish_counts_ok g :
  good g ->
  exists g', finish_counts g = Ret (g', inl tt) /\ good g' /\ diagnosed_count g <= diagnosed_count g' /\
    records g' = records g /\ maps g' = maps g /\ counts_mode g' = counts_mode g /\
    su_executions (summary g') = su_executions (summary g) /\
    (counts_mode g = true -> exists t, su_counts (summary g') = Some t /\ reported (summary g') t) /\
    (diagnosed_count g' = diagnosed_count g -> counts_mode g = true -> forall x run, count_executions g !! x = Some run ->
       ce_terminal run = true /\ ce_module run ∈ modules g /\ size (ce_sites run) = expected_rows g (ce_module run)).
Proof.
  intros Hg. unfold finish_counts, bind at 1, reads. cbn [then_do]. destruct (counts_mode g) eqn:Hm; cbn [negb];
    [|exists g; split_and!; [done|done|lia|done..]].
  set (l := in_order Z.compare (count_executions g) ≫= execution_diagnostics g).
  destruct (diagnostics_fold l g) as (H1 & H2 & H3 & H4 & H5). unfold bind, modify. cbn [then_do].
  set (g1 := foldl _ g l) in *. destruct (good_counts g Hg Hm) as (_ & _ & _ & t & Ht & _).
  assert (counts_mode g1 = true /\ su_counts (summary g1) = Some t /\ su_executions (summary g1) = su_executions (summary g)) as (Hm1 & Ht1 & Hx1).
  { unfold core in H4. injection H4 as Hc1 Hc2 _ _ _ _ _ Hc3. split; [unfold counts_mode in *; by rewrite Hc1|split; congruence]. }
  fold l. fold g1. unfold unwrap. rewrite Ht1. cbn [then_do]. eexists. split; [done|].
  change (diagnosed_count (set_summary _ g1)) with (diagnosed_count g1). split; [|split; [lia|split; [done|split; [done|split; [done|split; [done|split]]]]]].
  - specialize (H1 Hg). split; try apply H1. intros Hm'. change (counts_mode g1 = false) in Hm'. congruence.
  - intros _. by exists t.
  - intros Hd _ x run Hx. assert (l = []) as Hl by (apply length_zero_iff_nil; lia).
    apply (bind_nil _ _ (x, run)) in Hl; [|by apply in_order_elem]. unfold execution_diagnostics in Hl.
    apply app_eq_nil in Hl as [Hl1 [Hl2 Hl3]%app_eq_nil]. destruct (ce_terminal run); [|done]. split; [done|].
    by repeat case_decide.
Qed.

Lemma missing_maps g g' :
  maps g' = maps g ->
  missing_modules g' = missing_modules g /\ missing_sites g' = missing_sites g /\ missing_nodes g' = missing_nodes g.
Proof. unfold maps, missing_modules, missing_sites, missing_nodes. by intros [= -> _ -> -> -> _ _]. Qed.

Lemma finish_graph_ok g :
  good g -> (counts_mode g = true -> exists t, su_counts (summary g) = Some t /\ reported (summary g) t) ->
  let g' := finish_graph g in
  consistent g' /\ diagnosed_count g <= diagnosed_count g' /\ records g' = records g /\ counts_mode g' = counts_mode g /\
  (edges g', sites g', modules g', counts g', count_executions g') = (edges g, sites g, modules g, counts g, count_executions g) /\
  nodes g' = label_node g' <$> nodes g /\ su_executions (summary g') = su_executions (summary g) /\
  (diagnosed_count g' = diagnosed_count g -> missing_modules g = [] /\ missing_sites g = [] /\ missing_nodes g = []).
Proof.
  intros Hg Hc. unfold finish_graph. cbv zeta.
  destruct (missing_fold (map (fun m => str "missing module " ++ dec m) (missing_modules g)) g) as (A1 & A2 & A3 & A4 & A5).
  set (g1 := missing _ g) in *. clearbody g1. destruct (missing_maps g g1 A5) as (_ & Hms & _).
  destruct (missing_fold (map (fun k => str "missing site " ++ dec k.1 ++ str ":" ++ dec k.2) (missing_sites g1)) g1) as (B1 & B2 & B3 & B4 & B5).
  set (g2 := missing _ g1) in *. clearbody g2. destruct (missing_maps g g2) as (_ & _ & Hmn); [congruence|].
  destruct (missing_fold (map (fun n => str "missing endpoint " ++ n) (missing_nodes g2)) g2) as (C1 & C2 & C3 & C4 & C5).
  set (g3 := missing _ g2) in *. clearbody g3.
  assert (good g3) as Hg3 by auto. assert (core g3 = core g) as Hcore by congruence. assert (maps g3 = maps g) as Hmaps by congruence.
  rewrite Hms, Hmn in *. rewrite length_map in *.
  assert (counts_mode g3 = counts_mode g /\ su_counts (summary g3) = su_counts (summary g) /\
          forall t, reported (summary g) t -> reported (summary g3) t) as (Hmode & Htot & Hrep).
  { unfold core in Hcore. injection Hcore as K1 K2 K3 K4 K5 K6 K7 K8. unfold counts_mode. rewrite K1. split_and!; [done|done|].
    intros t (? & ? & ? & ? & ?). unfold reported. by rewrite K3, K4, K5, K6, K7. }
  set (g4 := g3 <| nodes ::= fmap (label_node g3) |>). assert (good g4) as Hg4 by (apply good_relabel; [apply label_node_same|done]).
  set (g5 := g4 <| adjacency := _ |>).
  split; [|split; [|split; [|split; [|split; [|split; [|split]]]]]].
  - split.
    + destruct Hg4 as [G1 G2 G3 G4 G5 _]. by split.
    + intros k. cbn. rewrite link_all. change (adjacency g4) with (adjacency g3). rewrite (good_adjacency g3 Hg3). by rewrite lookup_empty.
    + done.
    + intros Hm. change (counts_mode g3 = true) in Hm. rewrite Hmode in Hm. destruct (Hc Hm) as (t & Ht & Hr). exists t.
      split; [by rewrite <- Ht, <- Htot|by apply Hrep].
  - change (diagnosed_count g <= diagnosed_count g3). lia.
  - change (records g3 = records g). congruence.
  - exact Hmode.
  - unfold maps in Hmaps. by injection Hmaps as _ M2 M3 M4 M5 M6 _; cbn; rewrite M2, M3, M4, M5, M6.
  - unfold maps in Hmaps. injection Hmaps as M1 _ _ _ _ _ _. cbn. by rewrite M1.
  - unfold core in Hcore. by injection Hcore as _ _ _ _ _ _ _ K8.
  - change (diagnosed_count g3 = diagnosed_count g -> missing_modules g = [] /\ missing_sites g = [] /\ missing_nodes g = []).
    intros Hd. split_and!; apply length_zero_iff_nil; lia.
Qed.
Lemma missing_closed g g' :
  missing_modules g = [] -> missing_sites g = [] -> missing_nodes g = [] ->
  (counts_mode g' = true -> forall x run, count_executions g' !! x = Some run ->
       ce_terminal run = true /\ ce_module run ∈ modules g' /\ size (ce_sites run) = expected_rows g' (ce_module run)) ->
  (sites g', modules g', counts g') = (sites g, modules g, counts g) -> nodes g' = label_node g' <$> nodes g -> closed g'.
Proof.
  intros Hm Hs Hn Hx [= Es Em Ec] En. split; [| | |done].
  - intros k n. rewrite En, lookup_fmap. intros (m & Hk & ->)%fmap_Some. destruct (label_node_same g' m) as (_ & _ & _ & ->).
    destruct (gn_defined m) eqn:Hd; [done|]. exfalso. unfold missing_nodes in Hn. apply map_eq_nil in Hn.
    assert ((k, m) ∈ filter (fun e : list Z * GraphNode => gn_defined e.2 = false) (in_order bytes_cmp (nodes g))) as Hin.
    { apply list_elem_of_filter. split; [done|]. by apply in_order_elem. }
    rewrite Hn in Hin. by apply elem_of_nil in Hin.
  - intros k Hk. rewrite Ec in Hk. rewrite Es. destruct (sites g !! k) eqn:E; [done|]. exfalso.
    assert (k ∈ missing_sites g) as Hin by (apply list_elem_of_filter; split; [done|by apply in_order_keys]).
    rewrite Hs in Hin. by apply elem_of_nil in Hin.
  - intros k Hk. rewrite Es, Ec in Hk. rewrite Em. destruct (decide (k.1 ∈ modules g)) as [|Hnot]; [done|]. exfalso.
    assert (k.1 ∈ missing_modules g) as Hin.
    { unfold missing_modules. rewrite sort_by_perm, elem_of_elements, elem_of_difference, elem_of_list_to_set. split; [|done].
      apply list_elem_of_fmap. exists k. split; [done|]. apply elem_of_app.
      destruct Hk as [[s Hk]|[c Hk]]; [left; apply list_elem_of_fmap; exists (k, s)|right; apply list_elem_of_fmap; exists (k, c)];
        (split; [done|by apply elem_of_map_to_list]). }
    rewrite Hm in Hin. by apply elem_of_nil in Hin.
Qed.

Lemma finish_ok g :
  good g ->
  exists g', finish g = Ret (g', inl tt) /\ consistent g' /\ diagnosed_count g <= diagnosed_count g' /\ records g' = records g /\
    (forall limits, too_large limits g' = too_large limits g) /\ (diagnosed_count g' = diagnosed_count g -> closed g').
Proof.
  intros Hg. destruct (finish_counts_ok g Hg) as (g1 & He & Hg1 & Hd1 & Hr1 & Hm1 & Hc1 & Hx1 & Hrep & Hcl).
  destruct (finish_graph_ok g1 Hg1) as (Hcon & Hd2 & Hr2 & Hc2 & Hm2 & Hn2 & Hx2 & Hmiss); [by rewrite Hc1|].
  set (g2 := finish_graph g1) in *. exists g2. split; [unfold finish, bind; rewrite He; done|].
  clearbody g2. injection Hm2 as E1 E2 E3 E4 E5. unfold maps in Hm1. injection Hm1 as D1 D2 D3 D4 D5 D6 D7.
  split; [done|]. split; [lia|]. split; [congruence|]. split.
  - intros limits. unfold too_large. by rewrite Hx2, Hx1, E1, E2, E3, E4, Hn2, D1, D2, D3, D4, D5, map_size_fmap.
  - intros Hd. destruct Hmiss as (M1 & M2 & M3); [lia|]. apply (missing_closed g1); [done..| |congruence|done].
    intros Hm x run Hx. rewrite E5, D6 in Hx. destruct (Hcl ltac:(lia) ltac:(congruence) x run Hx) as (? & ? & ?).
    split_and!; [done|congruence|]. unfold expected_rows in *. by rewrite E2, D3.
Qed.

Lemma closing_ok limits i :
  steady limits i ->
  exists i' r, closing i = Ret (i', r) /\
    (r = inl tt -> 0 < records (graph i) /\ consistent (graph i') /\ too_large limits (graph i') = false /\
       records (graph i') = records (graph i) /\
       (su_complete (summary (graph i')) = true -> 0 <= dc i -> footer i = true /\ dc i = 0 /\ closed (graph i')) /\
       (su_counts_exact (summary (graph i')) = true -> su_complete (summary (graph i')) = true /\
          forall t, su_counts (summary (graph i')) = Some t -> overflow t = false)).
Proof.
  intros [Hg H0 Hfr Hlim]. unfold closing, bind at 1, reads. cbn [then_do].
  change (su_records (summary (graph i))) with (records (graph i)). case_decide as Hz; [by eexists _, (inr _)|].
  destruct Hlim as [Hl Hr]; [lia|].
  set (i1 := if footer i then i else i <| graph := diagnostic (str "missing complete footer (capture may be truncated)") (graph i) |>).
  assert (when (negb (footer i)) (diagnose (str "missing complete footer (capture may be truncated)")) i = Ret (i1, inl tt)) as Hw
    by (unfold i1; by destruct (footer i)).
  assert (good (graph i1) /\ records (graph i1) = records (graph i) /\ dc i <= dc i1 /\ too_large limits (graph i1) = false /\
          (dc i1 = dc i -> footer i = true)) as (Hg1 & Hr1 & Hd1 & Hl1 & Hf1).
  { unfold i1. destruct (footer i); [by split_and!|]. unfold dc. rewrite !graph_set.
    destruct (diagnostic_counts (str "missing complete footer (capture may be truncated)") (graph i)) as [Hd Hr'].
    split_and!; [by apply good_diagnostic|done|lia|by rewrite too_large_diagnostic|lia]. }
  unfold bind at 1. rewrite Hw. cbn [then_do]. clearbody i1.
  destruct (finish_ok (graph i1) Hg1) as (g & He & Hcon & Hd & Hr2 & Hl2 & Hcl).
  unfold bind, on_graph at 1. rewrite He. cbn [then_do]. eexists _, (inl tt). split; [done|]. intros _. cbn [graph].
  set (c := footer i && bool_decide (su_diagnostic_count (summary g) = 0)).
  split; [lia|]. split; [|split; [|split; [|split]]].
  - destruct Hcon as [[G1 G2 G3 G4 G5 G6] C2 C3 C4]. split; [by split|exact C2|exact C3|exact C4].
  - rewrite <- Hl1, <- Hl2. done.
  - change (records g = records (graph i)). congruence.
  - intros Hc Hpos. change (c = true) in Hc. unfold c in Hc. apply andb_true_iff in Hc as [Hf Hb]. apply bool_decide_eq_true in Hb.
    change (diagnosed_count g = 0) in Hb. unfold dc in *. split; [done|]. split; [lia|].
    destruct Hcl as [? ? ? ?]; [lia|]. by split.
  - intros Hc. change (c && negb (default false (overflow <$> su_counts (summary g))) = true) in Hc. apply andb_true_iff in Hc as [Hc Ho].
    split; [exact Hc|]. intros t Ht. change (su_counts (summary g) = Some t) in Ht. rewrite Ht in Ho. by apply negb_true_iff in Ho.
Qed.
Lemma initial_steady limits capture_id path : steady limits (mkImport (initial capture_id path) 0 0 0 false).
Proof. assert (fresh (initial capture_id path)) as Hf by by split. split; [by apply fresh_good|done|done|by intros ?]. Qed.

Lemma initial_so_far capture_id path : read_so_far [] (mkImport (initial capture_id path) 0 0 0 false).
Proof. split; [split|..]; done. Qed.

(** What an import gives: an error, or a graph whose closing said what
    [closing_ok] says. *)
Lemma read_ok reader capture_id path limits :
  exists r, read reader capture_id path limits = Ret r /\ forall g, r = inl g ->
    consistent g /\ too_large limits g = false /\ 0 < records g <= lm_records limits /\
    (su_complete (summary g) = true -> failure reader = None /\ closed g /\
       exists vs, Forall2 parsed (lines_of limits reader) vs /\ valid_stream vs /\ records g = Z.of_nat (length vs)) /\
    (su_counts_exact (summary g) = true -> su_complete (summary g) = true /\
       forall t, su_counts (summary g) = Some t -> overflow t = false).
Proof.
  unfold read. set (i0 := mkImport _ _ _ _ _).
  destruct (reads_lines_all limits reader i0 (initial_steady _ _ _)) as (i1 & r1 & He & H1).
  unfold bind. rewrite He. cbn [then_do]. destruct r1 as [[]|e]; [|by exists (inr e)].
  destruct (H1 eq_refl) as (Hfail & Hs & Hn & Hd & Hq). destruct (closing_ok limits i1 Hs) as (i2 & r2 & He2 & H2).
  rewrite He2. cbn [then_do]. destruct r2 as [[]|e]; [|by exists (inr e)]. exists (inl (graph i2)). split; [done|].
  intros g [= <-]. destruct (H2 eq_refl) as (Hpos & Hcon & Hl & Hr & Hcomp & Hexact).
  assert (dc i0 = 0) as Hd0 by done. assert (records (graph i0) = 0) as Hr0 by done.
  destruct (steady_limits limits i1 Hs Hpos) as [_ Hlim]. split; [done|]. split; [done|]. split; [lia|]. split; [|done].
  intros Hc. destruct (Hcomp Hc) as (Hft & Hz & Hcl); [lia|]. split; [done|]. split; [done|].
  destruct (Hq ltac:(lia) [] (initial_so_far _ _) Hr0) as (vs & Hp & [Hv1 Hv2 Hv3 Hv4 Hv5]). cbn [app] in *.
  exists vs. split; [done|]. split; [|rewrite Hr, Hn, Hr0; apply Forall2_length in Hp; lia].
  split; [done|]. destruct (last vs) as [v|] eqn:El; [|apply last_None in El; subst; specialize (Hv5 eq_refl); congruence].
  destruct (Hv4 v eq_refl) as (e & Het & Hfe & Hend). rewrite Hft in Hfe. symmetry in Hfe. apply bool_decide_eq_true in Hfe as ->.
  exists v. split_and!; [done|done|by apply Hend].
Qed.

(** C16. The import of any file ends, without a panic, in an error or a
    consistent graph within the limits: nodes are filed under their identifiers,
    the two ends of every relation are nodes, each node lists exactly the
    relations it takes part in, in order; the counters of a detailed capture are
    those of its nodes and relations (force requests the sum of the force
    relations, invocations the invocation nodes, in all and site by site), and
    the totals of a capture of counts are the sums of its rows unless they are
    marked as overflown. *)
Theorem import_consistent reader capture_id path limits :
  exists r, read reader capture_id path limits = Ret r /\
    forall g, r = inl g -> consistent g /\ too_large limits g = false /\ 0 < records g <= lm_records limits.
Proof. destruct (read_ok reader capture_id path limits) as (r & He & Hr). exists r. split; [done|]. intros g Hg. by destruct (Hr g Hg) as (? & ? & ? & _). Qed.

(** C17. A capture that is called complete is: every line of the file is a JSON
    record, the records are numbered from one without a gap, their times never go
    back, the last one and no other is a footer that says so and counts them, and
    every node, site, module and execution the records refer to is defined. *)
Theorem complete_capture reader capture_id path limits g :
  read reader capture_id path limits = Ret (inl g) -> su_complete (summary g) = true ->
  closed g /\ exists vs, Forall2 parsed (lines_of limits reader) vs /\ mjoin (lines_of limits reader) = data reader /\
    valid_stream vs /\ su_records (summary g) = Z.of_nat (length vs).
Proof.
  intros He Hc. destruct (read_ok reader capture_id path limits) as (r & He' & Hr). rewrite He in He'. injection He' as <-.
  destruct (Hr g eq_refl) as (_ & _ & _ & Hcomp & _). destruct (Hcomp Hc) as (_ & Hcl & vs & Hp & Hv & Hn). split; [done|].
  exists vs. split_and!; [done|apply lines_join|done|done].
Qed.

(** Counts that are called exact are the sums of the rows of a complete
    capture. *)
Theorem exact_counts reader capture_id path limits g :
  read reader capture_id path limits = Ret (inl g) -> su_counts_exact (summary g) = true -> counts_mode g = true ->
  su_complete (summary g) = true /\ exists t, su_counts (summary g) = Some t /\ reported (summary g) t /\
    forall f, f ∈ metrics -> f t = msum (fun _ x => f x) (counts g).
Proof.
  intros He Hx Hm. destruct (read_ok reader capture_id path limits) as (r & He' & Hr). rewrite He in He'. injection He' as <-.
  destruct (Hr g eq_refl) as (Hcon & _ & _ & _ & Hexact). destruct (Hexact Hx) as [Hc Ho]. split; [done|].
  destruct (consistent_counts g Hcon Hm) as (t & Ht & Hrep). exists t. split; [done|]. split; [done|].
  destruct (good_counts _ (consistent_good g Hcon) Hm) as (_ & _ & _ & t' & Ht' & Htal). change (su_counts (summary g) = Some t') in Ht'.
  assert (t' = t) as -> by congruence. destruct Htal as [_ Htal]. by destruct (Htal (Ho t Ht)).
Qed.

(** A record that is rejected leaves the graph as it was; whatever a record
    is, it is handled without a panic. *)
Theorem rejected_record_harmless v seq ts g :
  counting g -> exists g' r, record v seq ts g = Ret (g', r) /\ (forall e, r = inr e -> g' = g).
Proof.
  intros Hc. destruct (record_runs v seq ts g Hc) as (g' & r & He & Hr). exists g', r. split; [done|]. by intros e ->.
Qed.

(** ** The queries *)

Lemma index_all_ok {K V} `{Countable K} (m : gmap K V) keys :
  (forall k, k ∈ keys -> is_Some (m !! k)) -> exists vs, index_all m keys = Ret vs /\ Forall2 (fun k v => m !! k = Some v) keys vs.
Proof.
  induction keys as [|k keys IH]; intros Hk; cbn [index_all]; [by exists []|].
  destruct (Hk k) as [v Hv]; [by left|]. rewrite Hv. destruct IH as (vs & -> & Hvs); [intros; by apply Hk; right|].
  exists (v :: vs). split; [done|]. by constructor.
Qed.

(** The relations of a node a query asks for. *)
Definition wanted (node direction : list Z) (k : EdgeKey) : Prop :=
  (direction = str "both" /\ (key_from k = node \/ key_to k = node)) \/
  (direction = str "incoming" /\ key_to k = node) \/ (direction = str "outgoing" /\ key_from k = node).

#[local] Instance wanted_dec node direction k : Decision (wanted node direction k).
Proof. unfold wanted. apply _. Defined.

Lemma wanted_in_direction node direction k :
  wanted node direction k <-> in_direction node direction k = true /\ (key_from k = node \/ key_to k = node).
Proof. unfold wanted, in_direction. rewrite !orb_true_iff, !andb_true_iff, !bool_decide_eq_true. tauto. Qed.

Definition wanted_keys (g : Graph) (node direction : list Z) : list EdgeKey :=
  filter (wanted node direction) (map fst (in_order edge_cmp (edges g))).

Lemma page_of_elem {A} p (l : list A) x : x ∈ page_of p l -> x ∈ l.
Proof.
  unfold page_of. rewrite elem_of_take. intros (i & Hi & _). rewrite lookup_drop in Hi. by eapply list_elem_of_lookup_2.
Qed.

Lemma page_pos offset limit p : page offset limit = inl p -> p = (Z.to_nat offset, Z.to_nat limit) /\ limit <= 200.
Proof. unfold page. case_decide as Hl; [done|]. intros [= <-]. split; [done|lia]. Qed.

(** C34. The neighbourhood of a node of an imported graph: the query never panics,
    and when it answers it counts the relations the node takes part in in the
    direction asked for, shows one page of them in the order of their keys, each
    with its counts, and with them exactly the node and the other ends, in the
    order of their identifiers. *)
Theorem neighborhood_exact g node direction offset limit :
  consistent g ->
  exists r, neighborhood g node direction offset limit = Ret r /\ forall nb, r = inl nb ->
    exists center, nodes g !! node = Some center /\ nb_center nb = decorated g center /\
    nb_total_relations nb = Z.of_nat (length (wanted_keys g node direction)) /\
    Forall2 (fun k e => edges g !! k = Some e) (page_of (Z.to_nat offset, Z.to_nat limit) (wanted_keys g node direction)) (nb_edges nb) /\
    exists ids, Forall2 (fun i n => exists m, nodes g !! i = Some m /\ n = decorated g m) ids (nb_nodes nb) /\
      StronglySorted (fun a b => bytes_cmp a b = Lt) ids /\
      forall i, i ∈ ids <-> i = node \/ exists e, e ∈ nb_edges nb /\ (i = ge_from e \/ i = ge_to e).
Proof.
  intros Hcon. unfold neighborhood.
  destruct (require_detail g) as [[]|e]; [|by exists (inr e)]. destruct (page offset limit) as [p|e] eqn:Hp; [|by exists (inr e)].
  apply page_pos in Hp as [-> _]. destruct (negb _); [by eexists (inr _)|]. unfold inspect.
  destruct (require_detail g) as [[]|e]; [|by exists (inr e)].
  destruct (nodes g !! node) as [center|] eqn:Hn; cbn [fmap option_fmap option_map ok_or]; [|by eexists (inr _)].
  assert (filter (fun k => in_direction node direction k = true) (default [] (adjacency g !! node)) = wanted_keys g node direction) as ->.
  { rewrite (consistent_adjacency g Hcon). unfold wanted_keys. rewrite list_filter_filter. apply list_filter_iff. intros k. symmetry. apply wanted_in_direction. }
  set (shown := page_of _ (wanted_keys g node direction)).
  assert (forall k, k ∈ shown -> is_Some (edges g !! k)) as Hk.
  { intros k Hk. apply page_of_elem, list_elem_of_filter in Hk as [_ Hk]. by apply in_order_keys in Hk. }
  destruct (index_all_ok (edges g) shown Hk) as (es & -> & Hes). cbn [then_do].
  set (ids := sort_by (le_of bytes_cmp) (elements _)).
  assert (forall i, i ∈ ids <-> i = node \/ exists e, e ∈ es /\ (i = ge_from e \/ i = ge_to e)) as Hids.
  { intros i. unfold ids. rewrite sort_by_perm, elem_of_elements, elem_of_list_to_set, elem_of_cons, list_elem_of_bind.
    split; intros [Hi|(e & H1 & H2)]; try (by left); right; exists e; [split; [done|]; set_solver|split; [set_solver|done]]. }
  destruct (index_all_ok (nodes g) ids) as (ns & -> & Hns).
  { intros i [->|(e & He & Hi)]%Hids; [done|]. apply list_elem_of_lookup in He as [j Hj].
    destruct (Forall2_lookup_r _ _ _ _ _ Hes Hj) as (k & Hkj & Hke).
    destruct (good_edges _ (consistent_good g Hcon) k e Hke) as (Hkey & _ & Hf & Ht). subst k. by destruct Hi as [->| ->]. }
  cbn [then_do]. eexists. split; [done|]. intros nb [= <-]. cbn [nb_center nb_total_relations nb_edges nb_nodes].
  exists center. split_and!; [done..|]. exists ids. split; [|split; [|done]].
  - apply Forall2_fmap_r. eapply Forall2_impl; [exact Hns|]. intros i n Hi. by exists n.
  - assert (NoDup ids) as Hnd by (unfold ids; rewrite sort_by_perm; apply NoDup_elements).
    assert (StronglySorted (fun a b => bytes_cmp a b <> Gt) ids) as Hs by apply sort_by_le_of, bytes_ordered.
    clear -Hnd Hs. induction Hs as [|a l Hl IH Ha]; [constructor|]. apply NoDup_cons in Hnd as [Hnin Hnd].
    constructor; [by apply IH|]. rewrite Forall_forall in Ha |- *. intros b Hb. specialize (Ha b Hb).
    destruct (bytes_cmp a b) eqn:E; [|done|done]. by apply bytes_cmp_eq in E as ->.
Qed.

(** The callables of a site and its invocations are counted alike. *)
Theorem invocations_agree g m i offset limit pg :
  consistent g -> invocations g m i offset limit = inl pg ->
  np_total pg = body_starts (default counts_default (counts g !! (m, i))).
Proof.
  intros Hcon Hp. unfold invocations in Hp. destruct (require_detail g) as [[]|] eqn:Hd; [|done].
  destruct (page offset limit) as [p|]; [|done]. injection Hp as <-. cbn.
  assert (counts_mode g = false) as Hm by (unfold require_detail in Hd; by destruct (counts_mode g)).
  destruct (good_detail _ (consistent_good g Hcon) Hm) as (_ & _ & Hb). specialize (Hb (m, i)). etrans; [|symmetry; exact Hb].
  unfold node_sum, msum. cbn. unfold all_nodes. 
  rewrite <- (sum_of_perm _ _ _ (sort_by_perm (le_of (fun a b => bytes_cmp a.1 b.1)) (map_to_list (nodes g)))).
  change (sort_by _ (map_to_list (nodes g))) with (in_order bytes_cmp (nodes g)).
  assert (forall e, e ∈ in_order bytes_cmp (nodes g) -> invoked_at m i e.2 = true <-> site_of (gn_site e.2) = Some (m, i)) as Hin.
  { intros [k n] He%in_order_elem. destruct (good_nodes _ (consistent_good g Hcon) k n He) as (_ & _ & Hk). cbn. unfold invoked_at, site_of.
    destruct (gn_site n) as [s|]; cbn; [|by rewrite andb_false_r].
    rewrite (bool_decide_eq_true_2 (gn_kind n = _)) by (by apply Hk). cbn. rewrite bool_decide_eq_true. naive_solver. }
  induction (in_order bytes_cmp (nodes g)) as [|e l IH]; [done|]. rewrite sum_of_cons. cbn [map].
  rewrite <- IH by (intros; apply Hin; by right). specialize (Hin e ltac:(left)). rewrite filter_cons. unfold invoked_on.
  destruct (decide (invoked_at m i e.2 = true)) as [Hi|Hi].
  - rewrite decide_True by by apply Hin. cbn [length]. lia.
  - rewrite decide_False by (by rewrite <- Hin). lia.
Qed.

(** Pages side by side are the whole list. *)
Lemma pages_join {A} n k (l : list A) : mjoin (map (fun i => page_of ((i * n)%nat, n) l) (seq 0 k)) = take (k * n) l.
Proof.
  induction k as [|k IH]; [by rewrite Nat.mul_0_l, take_0|]. rewrite seq_S, map_app, join_app, IH. cbn. rewrite app_nil_r.
  unfold page_of. cbn [fst snd]. rewrite take_take_drop. f_equal. lia.
Qed.

End Reading.

(** ** The captures of the server

    [stax-server/src/eval_graph.rs].  An import reserves an identifier under the
    registry's lock, reads the file without it, and publishes the graph; one
    import runs at a time, queries and closings at any time. *)

Module GraphService.

Section Service.
Context {J : Json} {U : Unicode}.

Definition MAX_CAPTURES : nat := 4.

Record Registry := mkRegistry { next : Z; graphs : gmap Z Graph }.

#[local] Instance eta_Registry : Eta Registry := fun r => mkRegistry (next r) (graphs r).

Definition graph (id : Z) (r : Registry) : result Graph :=
  ok_or (graphs r !! id) (str "unknown capture " ++ dec id ++ str "; reopen its JSONL path after a server restart").

(** Any query of one capture. *)
Definition query {T} (id : Z) (f : Graph -> result T) (r : Registry) : result T := let? g := graph id r in f g.

Definition reserve (r : Registry) : Registry * result Z :=
  if decide (MAX_CAPTURES <= size (graphs r))%nat
  then (r, inr (str "at most 4 imported captures; explicitly close one before importing another"))
  else if decide (u64_max < next r + 1) then (r, inr (str "capture IDs exhausted"))
  else (r <| next ::= fun n => n + 1 |>, inl (next r + 1)).

Definition publish (id : Z) (g : Graph) (r : Registry) : Registry := r <| graphs ::= insert id g |>.

Definition captures (r : Registry) : list GraphSummary := map (fun e => summary e.2) (in_order Z.compare (graphs r)).

Definition close (id : Z) (r : Registry) : Registry * result unit :=
  (r <| graphs ::= delete id |>,
   match graphs r !! id with Some _ => inl tt | None => inr (str "unknown capture " ++ dec id) end).

(** The registry, and the identifier of the import that holds the import lock. *)
Record Service := mkService { registry : Registry; importing : option Z }.

Definition new : Service := mkService (mkRegistry 0 ∅) None.

Inductive step : Service -> Service -> Prop :=
  | step_reserve r r' id : reserve r = (r', inl id) -> step (mkService r None) (mkService r' (Some id))
  | step_refuse r r' e : reserve r = (r', inr e) -> step (mkService r None) (mkService r' None)
  | step_publish r id reader path limits g :
      read reader id path limits = Ret (inl g) -> step (mkService r (Some id)) (mkService (publish id g r) None)
  | step_unread r id : step (mkService r (Some id)) (mkService r None)
  | step_close r i id : step (mkService r i) (mkService (close id r).1 i).

Record service_ok (s : Service) : Prop := {
  ok_size : (size (graphs (registry s)) + length (option_list (importing s)) <= MAX_CAPTURES)%nat;
  ok_ids : forall id g, graphs (registry s) !! id = Some g -> 0 < id <= next (registry s) /\ consistent g;
  ok_import : forall id, importing s = Some id -> 0 < id <= next (registry s) /\ graphs (registry s) !! id = None;
  ok_next : 0 <= next (registry s)
}.

Lemma service_step_ok s s' : step s s' -> service_ok s -> service_ok s'.
Proof.
  intros Hstep [Hsz Hids Himp Hnx]. destruct Hstep as [r r' id Hr|r r' e Hr|r id reader path limits g Hr|r id|r i id]; cbn in *.
  - unfold reserve in Hr. case_decide as Hm; [done|]. case_decide as Hn; [done|]. injection Hr as <- <-. split; cbn.
    + lia.
    + intros i g Hi. destruct (Hids i g Hi). split; [lia|done].
    + intros i [= <-]. split; [lia|]. destruct (graphs r !! (next r + 1)) as [g|] eqn:E; [|done]. destruct (Hids _ _ E). lia.
    + lia.
  - unfold reserve in Hr. repeat case_decide; simplify_eq; by split.
  - destruct (Himp id eq_refl) as [Hid Hno]. split; cbn; [|intros i x|done|done].
    + rewrite map_size_insert_None by done. lia.
    + rewrite lookup_insert. case_decide as He; [|apply Hids]. intros [= <-]. subst. split; [done|].
      destruct (read_ok reader i path limits) as (x & He & Hx). rewrite Hr in He. injection He as <-. by destruct (Hx g eq_refl).
  - split; cbn; [lia|done|done|done].
  - split; cbn; [|intros k x (_ & Hk)%lookup_delete_Some; by apply Hids|intros k Hk|done].
    + destruct (graphs r !! id) as [x|] eqn:E; [rewrite map_size_delete_Some by done; lia|by rewrite delete_id].
    + destruct (Himp k Hk) as [? Hno]. split; [done|]. rewrite lookup_delete. by case_decide.
Qed.

(** An import begins, under the identifier [id]. *)
Definition gives (s s' : Service) (id : Z) : Prop := importing s = None /\ importing s' = Some id.

Lemma step_next s s' : step s s' -> next (registry s) <= next (registry s').
Proof. intros []; cbn; try lia; unfold reserve in *; repeat case_decide; simplify_eq; cbn; lia. Qed.

Lemma steps_next s s' : rtc step s s' -> next (registry s) <= next (registry s').
Proof. induction 1 as [|s1 s2 s3 H12 _ IH]; [lia|]. apply step_next in H12. lia. Qed.

Lemma gives_next s s' id : step s s' -> gives s s' id -> id = next (registry s) + 1 /\ next (registry s') = id.
Proof.
  intros Hs [H1 H2]. destruct Hs as [r r' i Hr| | | |r i k]; cbn in *; simplify_eq.
  unfold reserve in Hr. by repeat case_decide; simplify_eq.
Qed.

(** C35. Whatever imports, queries and closings run in whatever order, at most four
    captures are held, each consistent; a capture stays the same until it is
    closed; and an identifier is given once: that of an import is larger than
    every identifier given before, whatever was closed in between. *)
Theorem captures_kept s :
  rtc step new s -> (size (graphs (registry s)) <= MAX_CAPTURES)%nat /\
  (forall id g, graphs (registry s) !! id = Some g -> 0 < id <= next (registry s) /\ consistent g) /\
  (forall s' id g, step s s' -> graphs (registry s) !! id = Some g ->
    graphs (registry s') !! id = Some g \/ registry s' = (close id (registry s)).1) /\
  forall s1 id s2 s3 id', step s s1 -> gives s s1 id -> rtc step s1 s2 -> step s2 s3 -> gives s2 s3 id' -> id < id'.
Proof.
  intros Hs. assert (service_ok s) as [Hsz Hids Himp Hnx].
  { assert (service_ok new) as Hn.
    { split; cbn; [rewrite map_size_empty; unfold MAX_CAPTURES; lia|done|done|lia]. }
    clear -Hs Hn. induction Hs as [|a b c Hab _ IH]; [done|]. by apply IH, (service_step_ok a). }
  split; [lia|]. split; [done|]. split.
  - intros s' id g Hstep Hg.
    destruct Hstep as [r r' i Hr|r r' e Hr|r i reader path limits x Hr|r i|r l i]; cbn in *.
    + left. unfold reserve in Hr. by repeat case_decide; simplify_eq.
    + left. unfold reserve in Hr. by repeat case_decide; simplify_eq.
    + left. destruct (Himp i eq_refl) as [_ Hno]. rewrite lookup_insert_ne; [done|]. congruence.
    + by left.
    + destruct (decide (i = id)) as [->|Hne]; [by right|left]. by rewrite lookup_delete_ne.
  - intros s1 id s2 s3 id' H1 G1 H12 H3 G3. destruct (gives_next _ _ _ H1 G1) as [_ <-].
    destruct (gives_next _ _ _ H3 G3) as [-> _]. apply steps_next in H12. lia.
Qed.

(** A query sees a capture that is held, and refuses any other. *)
Lemma query_held {T} id (f : Graph -> result T) r g : graphs r !! id = Some g -> query id f r = f g.
Proof. intros H. unfold query, graph. by rewrite H. Qed.

End Service.
End GraphService.

(** ** A small capture *)

Module Demo.

(** Numbers that are integers, and lines that name a record of the list. *)
#[local] Instance int_number : JsonNumber.
Proof.
  refine {| number := Z;
            number_u64 := fun n => if decide (0 <= n <= u64_max) then Some n else None;
            number_i64 := fun n => Some n;
            number_text := dec |}.
  intros n z. case_decide; [|done]. intros [= <-]. width. lia.
Defined.

Definition int_value (n : Z) : Value := Number (n : number).
Definition obj (l : list (string * Value)) : Value := Object (map (fun e => (str e.1, e.2)) l).

Definition row (seq : Z) (event : string) (l : list (string * Value)) : Value :=
  obj (("event", Text (str event)) :: ("seq", int_value seq) :: ("ts_ns", int_value (10 * seq)) :: l).

Definition thunk_of (n : Z) : Value := obj [("id", int_value n); ("identity", Text (str "allocated"))].

(** A thunk that is forced before it is defined, by a call. *)
Definition rows : list Value := [
  row 1 "header" [("format", Text (str "vix-eval-graph")); ("version", int_value 1); ("semantics", Text (str "lazy-dataflow")); ("records", int_value 1)];
  row 2 "module" [("module", int_value 1)];
  row 3 "site" [("module", int_value 1); ("site", int_value 1); ("kind", Text (str "f")); ("name", Text (str "f"));
                ("file", Text (str "a")); ("start", int_value 0); ("end", int_value 9); ("line", int_value 1); ("column", int_value 1); ("params", Array [])];
  row 4 "force" [("invocation", int_value 1); ("thunk", thunk_of 7); ("state", int_value 0)];
  row 5 "allocation" [("thunk", int_value 7); ("words", int_value 8)];
  row 6 "invocation" [("invocation", int_value 1); ("module", int_value 1); ("site", int_value 1); ("arity", int_value 1)];
  row 7 "footer" [("complete", Boolean true); ("records", int_value 7)]
].

#[local] Instance demo_json : Json := {|
  from_slice line := match line with
                     | c :: _ => match rows !! Z.to_nat (c - 65) with Some v => inl v | None => inr (str "bad") end
                     | [] => inr (str "bad")
                     end
|}.

#[local] Instance plain_unicode : Unicode := {| to_lowercase s := s; debug_str s := s |}.

Definition demo_reader : Reader := mkReader (mjoin (map (fun k => [65 + Z.of_nat k; 10]) (seq 0 7))) None.
Definition demo_limits : Limits := mkLimits 1000 100 100 100 100 100.
Abbreviation demo_import := (read demo_reader 1 [] demo_limits).

(** The graph of an import that succeeds. *)
Definition imported (x : outcome (result Graph)) : Graph := match x with Ret (inl g) => g | _ => initial 0 [] end.
Definition imported_with (f : Graph -> bool) (x : outcome (result Graph)) : bool :=
  match x with Ret (inl g) => f g | _ => false end.

Lemma imported_ok f x : imported_with f x = true -> x = Ret (inl (imported x)) /\ f (imported x) = true.
Proof. by destruct x as [[g|e]|]. Qed.

Definition demo_graph : Graph := imported demo_import.

Example demo_summary :
  imported_with (fun g => let s := summary g in
    su_complete (summary g) && bool_decide ((su_diagnostic_count s, su_invocations s, su_force_requests s, su_nodes s) = (0, 1, 1, 2)))
    demo_import = true.
Proof. vm_compute. reflexivity. Qed.

Lemma demo_graph_ok : demo_import = Ret (inl demo_graph) /\ su_complete (summary demo_graph) = true.
Proof. destruct (imported_ok _ _ demo_summary) as [H Hc]. split; [exact H|]. by apply andb_true_iff in Hc as [Hc _]. Qed.

Lemma demo_consistent : consistent demo_graph.
Proof.
  destruct demo_graph_ok as [H _]. destruct (read_ok demo_reader 1 [] demo_limits) as (r & He & Hr). rewrite He in H. injection H as ->. by destruct (Hr _ eq_refl).
Qed.

Lemma complete_capture_witness :
  closed demo_graph /\ exists vs, Forall2 parsed (lines_of demo_limits demo_reader) vs /\
    mjoin (lines_of demo_limits demo_reader) = data demo_reader /\ valid_stream vs /\
    su_records (summary demo_graph) = Z.of_nat (length vs).
Proof. exact (complete_capture demo_reader 1 [] demo_limits demo_graph (proj1 demo_graph_ok) (proj2 demo_graph_ok)). Defined.

Lemma neighborhood_exact_witness :
  exists r, neighborhood demo_graph (str "thunk:7") (str "both") 0 10 = Ret r.
Proof.
  destruct (neighborhood_exact demo_graph (str "thunk:7") (str "both") 0 10 demo_consistent) as (r & Hr & _). by exists r.
Defined.

Lemma rejected_record_harmless_witness : exists g' r, record (J := demo_json) (obj [("event", Text (str "cache"))]) 8 1 demo_graph = Ret (g', r).
Proof.
  destruct (rejected_record_harmless (J := demo_json) (obj [("event", Text (str "cache"))]) 8 1 demo_graph) as (g' & r & H & _);
    [|by exists g', r].
  intros Hm. by destruct (consistent_counts _ demo_consistent Hm) as (t & -> & _).
Defined.

(** One import, and the capture it publishes. *)
Definition demo_service : GraphService.Service :=
  GraphService.mkService (GraphService.publish 1 demo_graph (GraphService.mkRegistry 1 ∅)) None.

Lemma captures_kept_witness :
  rtc GraphService.step GraphService.new demo_service /\
  (size (GraphService.graphs (GraphService.registry demo_service)) <= GraphService.MAX_CAPTURES)%nat /\
  consistent demo_graph.
Proof.
  assert (rtc GraphService.step GraphService.new demo_service) as Hs.
  { apply (rtc_l _ _ (GraphService.mkService (GraphService.mkRegistry 1 ∅) (Some 1))).
    - apply GraphService.step_reserve. reflexivity.
    - apply rtc_once. apply (GraphService.step_publish _ _ demo_reader [] demo_limits). exact (proj1 demo_graph_ok). }
  destruct (GraphService.captures_kept demo_service Hs) as (Hsz & Hc & _).
  split; [exact Hs|]. split; [exact Hsz|]. exact (proj2 (Hc 1 demo_graph (lookup_insert_eq _ _ _))).
Defined.

End Demo.

End EvalGraph.
