(* ===== verification/Lanes.v ===== *)
(** * Target lanes

    [stax-server/src/target_ingest.rs], the bookkeeping: pseudo-thread
    identifiers of lanes, synthetic symbol addresses, the counters of span
    batches with their origin-link distances, the reporters' own counters and
    the diagnostics built from all of them.  Names are byte strings. *)

From S2P Require Import Prelude Order.

Module Lanes.

Definition SYNTH_TID_BASE : Z := 0xFFF00000.
Definition SYNTH_BINARY_BASE_AVMA : Z := 0xFFFF00000000.
Definition SYNTH_SYMBOL_STRIDE : Z := 16.
Definition ORIGIN_STACK_MAX_DISTANCE_NS : Z := 50000000.

(** ** Counters *)

Record DistanceCounters := mkDistanceCounters {
  dc_count : Z; total_ns : Z; min_ns : Z; max_ns : Z
}.

#[export] Instance eta_DistanceCounters : Eta DistanceCounters := fun d =>
  mkDistanceCounters (dc_count d) (total_ns d) (min_ns d) (max_ns d).

Definition distance_default : DistanceCounters := mkDistanceCounters 0 0 0 0.

Definition distance_record (distance_ns : Z) (d : DistanceCounters) : DistanceCounters :=
  let d := d <| dc_count ::= fun n => sadd64 n 1 |> <| total_ns ::= fun n => sadd64 n distance_ns |> in
  let d := if decide (dc_count d = 1 \/ distance_ns < min_ns d)
           then d <| min_ns := distance_ns |> else d in
  d <| max_ns ::= fun n => Z.max n distance_ns |>.

Definition distance_add (other d : DistanceCounters) : DistanceCounters :=
  if decide (dc_count other = 0) then d else
  let d := if decide (dc_count d = 0 \/ min_ns other < min_ns d)
           then d <| min_ns := min_ns other |> else d in
  d <| dc_count ::= fun n => sadd64 n (dc_count other) |>
    <| total_ns ::= fun n => sadd64 n (total_ns other) |>
    <| max_ns ::= fun n => Z.max n (max_ns other) |>.

Definition avg_ns (d : DistanceCounters) : Z :=
  if decide (dc_count d = 0) then 0 else total_ns d / dc_count d.

Record OriginLinkCounters := mkOriginLinkCounters {
  invalid_tid : Z;
  no_thread : Z;
  no_stack : Z;
  too_far : Z;
  linked_distance : DistanceCounters;
  too_far_distance : DistanceCounters
}.

#[export] Instance eta_OriginLinkCounters : Eta OriginLinkCounters := fun o =>
  mkOriginLinkCounters (invalid_tid o) (no_thread o) (no_stack o) (too_far o) (linked_distance o)
    (too_far_distance o).

Definition origin_default : OriginLinkCounters :=
  mkOriginLinkCounters 0 0 0 0 distance_default distance_default.

Definition origin_add (other o : OriginLinkCounters) : OriginLinkCounters :=
  mkOriginLinkCounters (sadd64 (invalid_tid o) (invalid_tid other))
    (sadd64 (no_thread o) (no_thread other)) (sadd64 (no_stack o) (no_stack other))
    (sadd64 (too_far o) (too_far other))
    (distance_add (linked_distance other) (linked_distance o))
    (distance_add (too_far_distance other) (too_far_distance o)).

Record TargetIngestCounters := mkTargetIngestCounters {
  batches : Z;
  batches_dropped_no_active_run : Z;
  spans_dropped_no_active_run : Z;
  batches_dropped_wrong_pid : Z;
  spans_dropped_wrong_pid : Z;
  spans_received : Z;
  records_received : Z;
  dispatch_records : Z;
  source_records : Z;
  shader_records : Z;
  attachment_records : Z;
  counter_set_records : Z;
  counter_sample_records : Z;
  spans_recorded : Z;
  spans_dropped_bad_duration : Z;
  spans_with_origin : Z;
  spans_linked_origin : Z;
  origin_links : OriginLinkCounters;
  total_duration_ns : Z
}.

#[export] Instance eta_TargetIngestCounters : Eta TargetIngestCounters := fun c =>
  mkTargetIngestCounters (batches c) (batches_dropped_no_active_run c) (spans_dropped_no_active_run c)
    (batches_dropped_wrong_pid c) (spans_dropped_wrong_pid c) (spans_received c) (records_received c)
    (dispatch_records c) (source_records c) (shader_records c) (attachment_records c)
    (counter_set_records c) (counter_sample_records c) (spans_recorded c)
    (spans_dropped_bad_duration c) (spans_with_origin c) (spans_linked_origin c) (origin_links c)
    (total_duration_ns c).

Definition counters_default : TargetIngestCounters :=
  mkTargetIngestCounters 0 0 0 0 0 0 0 0 0 0 0 0 0 0 0 0 0 origin_default 0.

Record TargetBatchCounters := mkTargetBatchCounters {
  bc_received : Z;
  bc_records_received : Z;
  bc_dispatch_records : Z;
  bc_source_records : Z;
  bc_shader_records : Z;
  bc_attachment_records : Z;
  bc_counter_set_records : Z;
  bc_counter_sample_records : Z;
  bc_recorded : Z;
  bc_dropped_bad_duration : Z;
  bc_spans_with_origin : Z;
  bc_spans_linked_origin : Z;
  bc_origin_links : OriginLinkCounters;
  bc_total_duration_ns : Z
}.

Definition spans_unlinked_origin (c : TargetIngestCounters) : Z :=
  ssub (spans_with_origin c) (spans_linked_origin c).

Definition counters_record_batch (b : TargetBatchCounters) (c : TargetIngestCounters)
    : TargetIngestCounters :=
  c <| batches ::= fun n => sadd64 n 1 |>
    <| spans_received ::= fun n => sadd64 n (bc_received b) |>
    <| records_received ::= fun n => sadd64 n (bc_records_received b) |>
    <| dispatch_records ::= fun n => sadd64 n (bc_dispatch_records b) |>
    <| source_records ::= fun n => sadd64 n (bc_source_records b) |>
    <| shader_records ::= fun n => sadd64 n (bc_shader_records b) |>
    <| attachment_records ::= fun n => sadd64 n (bc_attachment_records b) |>
    <| counter_set_records ::= fun n => sadd64 n (bc_counter_set_records b) |>
    <| counter_sample_records ::= fun n => sadd64 n (bc_counter_sample_records b) |>
    <| spans_recorded ::= fun n => sadd64 n (bc_recorded b) |>
    <| spans_dropped_bad_duration ::= fun n => sadd64 n (bc_dropped_bad_duration b) |>
    <| spans_with_origin ::= fun n => sadd64 n (bc_spans_with_origin b) |>
    <| spans_linked_origin ::= fun n => sadd64 n (bc_spans_linked_origin b) |>
    <| origin_links ::= origin_add (bc_origin_links b) |>
    <| total_duration_ns ::= fun n => sadd64 n (bc_total_duration_ns b) |>.

Definition counters_dropped_no_active_run (spans : Z) (c : TargetIngestCounters) : TargetIngestCounters :=
  c <| batches_dropped_no_active_run ::= fun n => sadd64 n 1 |>
    <| spans_dropped_no_active_run ::= fun n => sadd64 n spans |>.

Definition counters_dropped_wrong_pid (spans : Z) (c : TargetIngestCounters) : TargetIngestCounters :=
  c <| batches_dropped_wrong_pid ::= fun n => sadd64 n 1 |>
    <| spans_dropped_wrong_pid ::= fun n => sadd64 n spans |>.

(** ** Diagnostics *)

Record TargetReporterStats := mkTargetReporterStats {
  rs_pid : Z;
  batches_dropped_queue_full : Z;
  spans_dropped_queue_full : Z;
  batches_dropped_worker_disconnected : Z;
  spans_dropped_worker_disconnected : Z;
  signal_batches_dropped_queue_full : Z;
  signals_dropped_queue_full : Z;
  signal_batches_dropped_worker_disconnected : Z;
  signals_dropped_worker_disconnected : Z
}.

Record TargetLaneDiagnostics := mkTargetLaneDiagnostics {
  ld_tid : Z;
  ld_name : string;
  ld_records_received : Z;
  ld_dispatch_records : Z;
  ld_source_records : Z;
  ld_shader_records : Z;
  ld_attachment_records : Z;
  ld_counter_set_records : Z;
  ld_counter_sample_records : Z;
  ld_spans_recorded : Z;
  ld_spans_with_origin : Z;
  ld_spans_linked_origin : Z;
  ld_spans_unlinked_origin : Z;
  ld_spans_origin_invalid_tid : Z;
  ld_spans_origin_no_thread : Z;
  ld_spans_origin_no_stack : Z;
  ld_spans_origin_too_far : Z;
  ld_origin_linked_distance_min_ns : Z;
  ld_origin_linked_distance_avg_ns : Z;
  ld_origin_linked_distance_max_ns : Z;
  ld_origin_too_far_distance_min_ns : Z;
  ld_origin_too_far_distance_avg_ns : Z;
  ld_origin_too_far_distance_max_ns : Z;
  ld_total_duration_ns : Z
}.

Record TargetIngestDiagnostics := mkTargetIngestDiagnostics {
  di_batches : Z;
  di_batches_dropped_no_active_run : Z;
  di_spans_dropped_no_active_run : Z;
  di_batches_dropped_wrong_pid : Z;
  di_spans_dropped_wrong_pid : Z;
  di_batches_dropped_target_queue_full : Z;
  di_spans_dropped_target_queue_full : Z;
  di_batches_dropped_target_worker_disconnected : Z;
  di_spans_dropped_target_worker_disconnected : Z;
  di_spans_received : Z;
  di_records_received : Z;
  di_dispatch_records : Z;
  di_source_records : Z;
  di_shader_records : Z;
  di_attachment_records : Z;
  di_counter_set_records : Z;
  di_counter_sample_records : Z;
  di_spans_recorded : Z;
  di_spans_dropped_bad_duration : Z;
  di_spans_with_origin : Z;
  di_spans_linked_origin : Z;
  di_spans_unlinked_origin : Z;
  di_spans_origin_invalid_tid : Z;
  di_spans_origin_no_thread : Z;
  di_spans_origin_no_stack : Z;
  di_spans_origin_too_far : Z;
  di_origin_stack_max_distance_ns : Z;
  di_origin_linked_distance_min_ns : Z;
  di_origin_linked_distance_avg_ns : Z;
  di_origin_linked_distance_max_ns : Z;
  di_origin_too_far_distance_min_ns : Z;
  di_origin_too_far_distance_avg_ns : Z;
  di_origin_too_far_distance_max_ns : Z;
  di_total_duration_ns : Z;
  lanes : list TargetLaneDiagnostics
}.

Definition ingest_diagnostics_default : TargetIngestDiagnostics :=
  mkTargetIngestDiagnostics 0 0 0 0 0 0 0 0 0 0 0 0 0 0 0 0 0 0 0 0 0 0 0 0 0 0 0 0 0 0 0 0 0 0 [].

(** ** The registry *)

Inductive SyntheticSymbolKey :=
  | Lane (name : string)
  | Span (name : string).

#[export] Instance SyntheticSymbolKey_eq_dec : EqDecision SyntheticSymbolKey.
Proof. solve_decision. Defined.

#[export] Instance SyntheticSymbolKey_countable : Countable SyntheticSymbolKey.
Proof.
  refine (inj_countable' (fun k => match k with Lane n => inl n | Span n => inr n end)
            (fun k => match k with inl n => Lane n | inr n => Span n end) _).
  by intros [].
Defined.

Definition display_name (k : SyntheticSymbolKey) : string :=
  match k with Lane name | Span name => name end.

Record TargetLaneRegistry := mkTargetLaneRegistry {
  lane_tids : gmap (Z * string) Z;
  symbol_addrs : gmap SyntheticSymbolKey Z;
  totals : TargetIngestCounters;
  lane_counters : gmap (Z * string) TargetIngestCounters;
  reporter_stats : gmap Z TargetReporterStats;
  saved_diagnostics : option TargetIngestDiagnostics
}.

#[export] Instance eta_TargetLaneRegistry : Eta TargetLaneRegistry := fun r =>
  mkTargetLaneRegistry (lane_tids r) (symbol_addrs r) (totals r) (lane_counters r)
    (reporter_stats r) (saved_diagnostics r).

Definition registry_default : TargetLaneRegistry :=
  mkTargetLaneRegistry ∅ ∅ counters_default ∅ ∅ None.

Definition clear_saved_diagnostics (r : TargetLaneRegistry) : TargetLaneRegistry :=
  r <| saved_diagnostics := None |>.

Definition restore_saved_diagnostics (d : TargetIngestDiagnostics) (r : TargetLaneRegistry)
    : TargetLaneRegistry :=
  r <| saved_diagnostics := Some d |>.

Definition record_dropped_no_active_run (spans : Z) (r : TargetLaneRegistry) : TargetLaneRegistry :=
  clear_saved_diagnostics r <| totals ::= counters_dropped_no_active_run spans |>.

Definition record_dropped_wrong_pid (spans : Z) (r : TargetLaneRegistry) : TargetLaneRegistry :=
  clear_saved_diagnostics r <| totals ::= counters_dropped_wrong_pid spans |>.

Definition record_reporter_stats (stats : TargetReporterStats) (r : TargetLaneRegistry)
    : TargetLaneRegistry :=
  clear_saved_diagnostics r <| reporter_stats ::= insert (rs_pid stats) stats |>.

Definition record_batch (pid : Z) (lane : string) (b : TargetBatchCounters) (r : TargetLaneRegistry)
    : TargetLaneRegistry :=
  clear_saved_diagnostics r
    <| totals ::= counters_record_batch b |>
    <| lane_counters ::= fun m =>
         <[(pid, lane) := counters_record_batch b (default counters_default (m !! (pid, lane)))]> m |>.

(** [SYNTH_TID_BASE + len as u32] *)
Definition alloc_tid (pid : Z) (lane : string) (r : TargetLaneRegistry) : TargetLaneRegistry * Z :=
  match lane_tids r !! (pid, lane) with
  | Some tid => (r, tid)
  | None =>
      let tid := as_u32 (SYNTH_TID_BASE + as_u32 (Z.of_nat (size (lane_tids r)))) in
      (r <| lane_tids ::= insert (pid, lane) tid |>, tid)
  end.

(** [Iterator::sum] of [u64]s. *)
Definition wsum {A} (f : A -> Z) (l : list A) : Z := foldl (fun acc x => wadd64 acc (f x)) 0 l.

Definition lane_diagnostics (r : TargetLaneRegistry) (e : (Z * string) * TargetIngestCounters)
    : TargetLaneDiagnostics :=
  let c := e.2 in
  let o := origin_links c in
  mkTargetLaneDiagnostics (default 0 (lane_tids r !! e.1)) e.1.2
    (records_received c) (dispatch_records c) (source_records c) (shader_records c)
    (attachment_records c) (counter_set_records c) (counter_sample_records c) (spans_recorded c)
    (spans_with_origin c) (spans_linked_origin c) (spans_unlinked_origin c)
    (invalid_tid o) (no_thread o) (no_stack o) (too_far o)
    (min_ns (linked_distance o)) (avg_ns (linked_distance o)) (max_ns (linked_distance o))
    (min_ns (too_far_distance o)) (avg_ns (too_far_distance o)) (max_ns (too_far_distance o))
    (total_duration_ns c).

(** Longest first, then most spans, then thread, then name. *)
Definition lane_le (a b : TargetLaneDiagnostics) : bool :=
  match Order.then_with (ld_total_duration_ns b ?= ld_total_duration_ns a)
          (Order.then_with (ld_spans_recorded b ?= ld_spans_recorded a)
            (Order.then_with (ld_tid a ?= ld_tid b) (String.compare (ld_name a) (ld_name b)))) with
  | Gt => false
  | _ => true
  end.

(** [counters] and [stats] list the two maps in iteration order. *)
Definition diagnostics (counters : list ((Z * string) * TargetIngestCounters))
    (stats : list TargetReporterStats) (r : TargetLaneRegistry) : TargetIngestDiagnostics :=
  match saved_diagnostics r with
  | Some d => d
  | None =>
      let lanes := sort_by lane_le (map (lane_diagnostics r) counters) in
      let t := totals r in
      let o := origin_links t in
      mkTargetIngestDiagnostics (batches t) (batches_dropped_no_active_run t)
        (spans_dropped_no_active_run t) (batches_dropped_wrong_pid t) (spans_dropped_wrong_pid t)
        (wsum batches_dropped_queue_full stats) (wsum spans_dropped_queue_full stats)
        (wsum batches_dropped_worker_disconnected stats)
        (wsum spans_dropped_worker_disconnected stats)
        (spans_received t) (records_received t) (dispatch_records t) (source_records t)
        (shader_records t) (attachment_records t) (counter_set_records t)
        (counter_sample_records t) (spans_recorded t) (spans_dropped_bad_duration t)
        (spans_with_origin t) (spans_linked_origin t) (spans_unlinked_origin t)
        (invalid_tid o) (no_thread o) (no_stack o) (too_far o) ORIGIN_STACK_MAX_DISTANCE_NS
        (min_ns (linked_distance o)) (avg_ns (linked_distance o)) (max_ns (linked_distance o))
        (min_ns (too_far_distance o)) (avg_ns (too_far_distance o)) (max_ns (too_far_distance o))
        (total_duration_ns t) lanes
  end.

(** ** Layout lemmas *)

(** The slots of a map are handed out in order: the [i]th key it got has
    [base + stride * i]. *)
Section Layout.
Context {K : Type} `{Countable K}.

Definition layout (base stride : Z) (order : list K) (m : gmap K Z) : Prop :=
  NoDup order /\
  forall k v, m !! k = Some v <-> exists i, order !! i = Some k /\ v = base + stride * Z.of_nat i.

Lemma layout_empty base stride : layout base stride [] ∅.
Proof. split; [constructor|]. intros k v. rewrite lookup_empty. naive_solver. Qed.

Lemma layout_entries base stride order m :
  layout base stride order m ->
  map_to_list m ≡ₚ imap (fun i k => (k, base + stride * Z.of_nat i)) order.
Proof.
  intros [Hnd Hl]. apply NoDup_Permutation.
  - apply NoDup_map_to_list.
  - apply (NoDup_fmap_1 fst). replace (imap _ order).*1 with order; [done|].
    apply list_eq. intros i. rewrite list_lookup_fmap, list_lookup_imap. by destruct (order !! i).
  - intros [k v]. rewrite elem_of_map_to_list, Hl, elem_of_lookup_imap. naive_solver.
Qed.

Lemma layout_size base stride order m : layout base stride order m -> size m = length order.
Proof. intros Hl. by rewrite <- length_map_to_list, (layout_entries _ _ _ _ Hl), length_imap. Qed.

Lemma layout_extend base stride order m k :
  layout base stride order m -> m !! k = None ->
  layout base stride (order ++ [k]) (<[k := base + stride * Z.of_nat (length order)]> m).
Proof.
  intros [Hnd Hl] Hk.
  assert (k ∉ order) as Hni.
  { intros (i & Hi)%list_elem_of_lookup.
    assert (m !! k = Some (base + stride * Z.of_nat i)) by (apply Hl; eauto). congruence. }
  split.
  - apply NoDup_app. split; [done|]. split; [|apply NoDup_singleton]. set_solver.
  - intros k' v. rewrite lookup_insert. case_decide as Hd; [subst k'|].
    + split.
      * intros [= <-]. exists (length order). by rewrite lookup_app_r, Nat.sub_diag by done.
      * intros (i & Hi & ->). apply lookup_app_Some in Hi as [Hi|[Hge Hi]].
        -- by apply list_elem_of_lookup_2 in Hi.
        -- apply list_lookup_singleton_Some in Hi as [Hi _]. do 3 f_equal. lia.
    + rewrite Hl. split; intros (i & Hi & ->); exists i; (split; [|done]).
      * by apply lookup_app_l_Some.
      * apply lookup_app_Some in Hi as [Hi|[Hge Hi]]; [done|].
        apply list_lookup_singleton_Some in Hi as [_ ->]. done.
Qed.

(** Different keys have different slots. *)
Lemma layout_inj base stride order m k1 k2 v :
  stride <> 0 -> layout base stride order m -> m !! k1 = Some v -> m !! k2 = Some v -> k1 = k2.
Proof.
  intros Hs [_ Hl] (i & Hi & Ei)%Hl (j & Hj & Ej)%Hl. assert (i = j) as -> by nia. congruence.
Qed.
End Layout.

(** ** Distances *)

(** The counters of some recorded distances. *)
Definition distances (l : list Z) : DistanceCounters := foldl (fun d x => distance_record x d) distance_default l.

Lemma distances_exact l :
  Forall (fun x => 0 <= x) l -> Z.of_nat (length l) < 2 ^ 64 ->
  dc_count (distances l) = Z.of_nat (length l) /\
  total_ns (distances l) = sat_sum (fun x => x) l /\
  (l <> [] -> min_ns (distances l) ∈ l /\ max_ns (distances l) ∈ l) /\
  (forall x, x ∈ l -> min_ns (distances l) <= x <= max_ns (distances l)) /\
  (l = [] -> min_ns (distances l) = 0 /\ max_ns (distances l) = 0).
Proof.
  induction l as [|x l IH] using rev_ind; intros Hl Hlen; [by split_and!; try set_solver|].
  apply Forall_app in Hl as [Hl [Hx _]%Forall_cons_1]. rewrite length_app in *. cbn in Hlen.
  destruct IH as (Hc & Ht & Hm & Hb & He); [done|lia|]. unfold distances in *. rewrite foldl_snoc.
  set (d := foldl _ _ l) in *. unfold distance_record. cbn [dc_count field_update].
  assert (sadd64 (dc_count d) 1 = Z.of_nat (length l) + 1) as Hc1 by (rewrite Hc; apply sadd64_small; lia).
  rewrite <- (sat_sum_snoc (fun x => x) l x Hx).
  assert (forall y, y ∈ l ++ [x] -> y ∈ l \/ y = x) as Hin by set_solver.
  assert (l <> [] -> Z.max (max_ns d) x ∈ l ++ [x]) as Hmax.
  { intros [_ Hx']%Hm. destruct (Z.max_spec (max_ns d) x) as [[_ ->]|[_ ->]]; set_solver. }
  assert (l = [] -> Z.max (max_ns d) x = x) as Hmax0 by (intros [_ ->]%He; lia).
  assert (l ++ [x] <> []) as Hne by (by intros [_ ?]%app_eq_nil).
  case_decide as Hd; cbn in *; rewrite Hc1 in *; (split_and!; [lia|by rewrite Ht|..]).
  - intros _. split; [set_solver|]. destruct l; [rewrite Hmax0 by done; set_solver|by apply Hmax].
  - intros y [Hy| ->]%Hin; [|lia]. specialize (Hb y Hy).
    destruct Hd as [Hd|Hd]; [destruct l; [by apply not_elem_of_nil in Hy|cbn in *; lia]|lia].
  - done.
  - assert (l <> []) as Hl' by (intros ->; apply Hd; by left). destruct (Hm Hl') as [? ?].
    intros _. split; [set_solver|by apply Hmax].
  - intros y [Hy| ->]%Hin; [specialize (Hb y Hy)|]; lia.
  - done.
Qed.

(** Adding the counters of two sets of distances is counting them together. *)
Lemma distances_merge l1 l2 :
  Forall (fun x => 0 <= x) l1 -> Forall (fun x => 0 <= x) l2 ->
  Z.of_nat (length l1 + length l2) < 2 ^ 64 ->
  distance_add (distances l2) (distances l1) = distances (l1 ++ l2).
Proof.
  intros H1 H2 Hlen. rewrite Nat2Z.inj_add in Hlen.
  destruct (distances_exact l1 H1) as (C1 & T1 & M1 & B1 & E1); [lia|].
  destruct (distances_exact l2 H2) as (C2 & T2 & M2 & B2 & E2); [lia|].
  destruct (distances_exact (l1 ++ l2)) as (C & T & M & B & E);
    [by apply Forall_app|rewrite length_app; lia|].
  unfold distance_add. case_decide as Hz.
  { rewrite C2 in Hz. destruct l2; [by rewrite app_nil_r|cbn in Hz; lia]. }
  assert (l2 <> []) as Hn2 by (intros ->; by apply Hz).
  destruct (M2 Hn2) as [Mi2 Ma2]. destruct M as [Mi Ma]; [by intros [_ ?]%app_eq_nil|].
  rewrite length_app, Nat2Z.inj_add in C. rewrite <- sat_sum_app in T by done.
  set (d := distances (l1 ++ l2)) in *. destruct d as [c t mi ma] eqn:Ed. cbn in *. subst c t.
  assert (forall x, x ∈ l1 \/ x ∈ l2 -> mi <= x <= ma) as B' by (intros x Hx; apply B; set_solver).
  destruct (decide (l1 = [])) as [->|Hn1].
  - destruct (E1 eq_refl) as [Em Ex]. rewrite decide_True by (left; by rewrite C1). cbn.
    cbn in Mi, Ma.
    pose proof (B2 _ Mi). pose proof (B2 _ Ma). pose proof (B' _ (or_intror Mi2)).
    pose proof (B' _ (or_intror Ma2)). rewrite Forall_forall in H2. specialize (H2 _ Ma2). cbn in H2.
    f_equal; [rewrite C2; apply sadd64_small; cbn in Hlen; lia|by rewrite T2|lia..].
  - destruct (M1 Hn1) as [Mi1 Ma1].
    pose proof (B' _ (or_introl Mi1)). pose proof (B' _ (or_introl Ma1)).
    pose proof (B' _ (or_intror Mi2)). pose proof (B' _ (or_intror Ma2)).
    assert (min_ns (distances l1) <= mi \/ min_ns (distances l2) <= mi) as Hmi
      by (apply elem_of_app in Mi as [Hx|Hx]; [left; by apply B1|right; by apply B2]).
    assert (ma <= max_ns (distances l1) \/ ma <= max_ns (distances l2)) as Hma
      by (apply elem_of_app in Ma as [Hx|Hx]; [left; by apply B1|right; by apply B2]).
    assert (dc_count (distances l1) <> 0) by (rewrite C1; by destruct l1).
    case_decide; cbn; (f_equal; [rewrite C1, C2; apply sadd64_small; lia|by rewrite T1, T2|lia..]).
Qed.

End Lanes.
