(* ===== verification/Archive.v ===== *)
(** * Run archives

    The saved form of a run and the event log it is replayed from:
    [SavedRunArchive] and [from_event_log_entries] of
    [stax-live-proto/src/lib.rs]; the event log, the text blobs and the
    single-file bundle of [stax-server/src/main.rs].  Writing a value as JSON
    and reading it back is the work of a library and of the file system, so a
    bundle is the value that is written. *)

From S2P Require Import Prelude BTree Text Aggregator Binaries Observability Lanes KernelSlide.

Module Archive.

Module Log := Aggregator.
Module Bin := Binaries.
Module Obs := Observability.

#[export] Existing Instance Obs.eta_SavedObservability.

(** ** Runs *)

Inductive RunState := Recording | Stopped.

Inductive StopReason :=
  | TargetExited
  | TimeLimit
  | UserStop
  | RecorderError (message : string).

Record RunSummary := mkRunSummary {
  id : Z;
  state : RunState;
  stop_reason : option StopReason;
  started_at_unix_ns : Z;
  stopped_at_unix_ns : option Z;
  target_pid : option Z;
  label : string;
  pet_samples : Z;
  off_cpu_intervals : Z
}.

#[export] Instance eta_RunSummary : Eta RunSummary := fun r =>
  mkRunSummary (id r) (state r) (stop_reason r) (started_at_unix_ns r) (stopped_at_unix_ns r)
    (target_pid r) (label r) (pet_samples r) (off_cpu_intervals r).

#[export] Instance RunState_eq_dec : EqDecision RunState.
Proof. solve_decision. Defined.

Record SavedRunArchive := mkSavedRunArchive {
  format_version : Z;
  saved_at_unix_ns : Z;
  runs : list RunSummary;
  aggregator : Log.SavedAggregator;
  binaries : list Bin.SavedLoadedBinary;
  target_ingest : Lanes.TargetIngestDiagnostics;
  observability : Obs.SavedObservability
}.

#[export] Instance eta_SavedRunArchive : Eta SavedRunArchive := fun a =>
  mkSavedRunArchive (format_version a) (saved_at_unix_ns a) (runs a) (aggregator a) (binaries a)
    (target_ingest a) (observability a).

#[export] Instance eta_SavedAggregator : Eta Log.SavedAggregator := fun a =>
  Log.mkSavedAggregator (Log.sa_session_start_ns a) (Log.sa_last_event_ns a)
    (Log.sa_thread_names a) (Log.sa_threads a) (Log.sa_markers a).

#[export] Instance eta_SavedThread : Eta Log.SavedThread := fun t =>
  Log.mkSavedThread (Log.st_tid t) (Log.st_pet_samples t) (Log.st_intervals t) (Log.st_wakeups t).

Definition saved_aggregator_default : Log.SavedAggregator := Log.mkSavedAggregator None None [] [] [].

Definition ARCHIVE_FORMAT_VERSION : Z := 3.
Definition ARCHIVE_V2_FORMAT_VERSION : Z := 2.
Definition ARCHIVE_V1_FORMAT_VERSION : Z := 1.

Definition is_supported_archive_version (version : Z) : bool :=
  bool_decide (version = ARCHIVE_V1_FORMAT_VERSION \/ version = ARCHIVE_V2_FORMAT_VERSION \/
               version = ARCHIVE_FORMAT_VERSION).

(** ** The event log *)

Inductive SavedEventLogEntry :=
  | ArchiveSaved (saved_at_unix_ns : Z)
  | RunSummaryEntry (run : RunSummary)
  | AggregatorClock (session_start_ns last_event_ns : option Z)
  | ThreadName (tid : Z) (name : string)
  | BinaryLoaded (binary : Bin.SavedLoadedBinary)
  | PetSample (tid : Z) (sample : Log.SavedPetSample)
  | Interval (tid : Z) (interval : Log.SavedInterval)
  | Wakeup (tid : Z) (wakeup : Log.SavedWakeup)
  | TargetIngestEntry (diagnostics : Lanes.TargetIngestDiagnostics)
  | TargetEventKind (source_pid : Z) (definition : Obs.TargetEventKindRecord)
  | TargetEvent (event : Obs.TargetEventRecord)
  | TargetCounterSet (source_pid : Z) (definition : Obs.TargetCounterSetRecord)
  | TargetCounterSample (sample : Obs.TargetCounterSampleRecord)
  | TargetContract (source_pid : Z) (definition : Obs.TargetContractRecord)
  | ObservabilityEntry (diagnostics : Obs.ObservabilityDiagnostics).

(** An entry with the time, kind and thread (or process) it is ordered by. *)
Abbreviation timed_entry := ((Z * Z * Z) * SavedEventLogEntry)%type.

Definition timed_le (a b : timed_entry) : bool :=
  let '(t1, k1, i1) := a.1 in
  let '(t2, k2, i2) := b.1 in
  bool_decide (t1 < t2 \/ t1 = t2 /\ (k1 < k2 \/ k1 = k2 /\ i1 <= i2)).

Definition thread_entries (t : Log.SavedThread) : list timed_entry :=
  map (fun s => ((Log.sp_timestamp_ns s, 0, Log.st_tid t), PetSample (Log.st_tid t) s)) (Log.st_pet_samples t) ++
  map (fun i => ((Log.si_start_ns i, 1, Log.st_tid t), Interval (Log.st_tid t) i)) (Log.st_intervals t) ++
  map (fun w => ((Log.sw_timestamp_ns w, 2, Log.st_tid t), Wakeup (Log.st_tid t) w)) (Log.st_wakeups t).

Definition timed_entries (a : SavedRunArchive) : list timed_entry :=
  (Log.sa_threads (aggregator a) ≫= thread_entries) ++
  map (fun e => ((Obs.ev_timestamp_ns e, 3, Obs.ev_source_pid e), TargetEvent e))
    (Obs.so_events (observability a)) ++
  map (fun c => ((default 0 (Obs.cm_timestamp_ns c), 4, Obs.cm_source_pid c), TargetCounterSample c))
    (Obs.so_counter_samples (observability a)).

Definition header_entries (a : SavedRunArchive) : list SavedEventLogEntry :=
  [ArchiveSaved (saved_at_unix_ns a)] ++
  map RunSummaryEntry (runs a) ++
  [AggregatorClock (Log.sa_session_start_ns (aggregator a)) (Log.sa_last_event_ns (aggregator a))] ++
  map (fun n => ThreadName (Log.sn_tid n) (Log.sn_name n)) (Log.sa_thread_names (aggregator a)) ++
  map BinaryLoaded (binaries a) ++
  [TargetIngestEntry (target_ingest a)] ++
  map (fun e => TargetEventKind (Obs.sk_source_pid e) (Obs.sk_definition e))
    (Obs.so_event_kinds (observability a)) ++
  map (fun e => TargetCounterSet (Obs.ss_source_pid e) (Obs.ss_definition e))
    (Obs.so_counter_sets (observability a)) ++
  map (fun e => TargetContract (Obs.sc_source_pid e) (Obs.sc_definition e))
    (Obs.so_contracts (observability a)) ++
  [ObservabilityEntry (Obs.so_diagnostics (observability a))].

Definition archive_event_log_entries (a : SavedRunArchive) : list SavedEventLogEntry :=
  header_entries a ++ map snd (sort_by timed_le (timed_entries a)).

(** ** Replaying it *)

(** The archive being built, and the two ordered maps beside it. *)
Record replay_state := mkReplayState {
  archive : SavedRunArchive;
  thread_names : btree string;
  threads : btree Log.SavedThread
}.

#[export] Instance eta_replay_state : Eta replay_state := fun s =>
  mkReplayState (archive s) (thread_names s) (threads s).

(** [threads.entry(tid).or_insert_with(..)], then an update of the slot. *)
Definition with_thread (tid : Z) (f : Log.SavedThread -> Log.SavedThread) (m : btree Log.SavedThread)
    : btree Log.SavedThread :=
  bt_insert tid (f (default (Log.mkSavedThread tid [] [] []) (bt_get tid m))) m.

Definition replay_entry (s : replay_state) (e : SavedEventLogEntry) : replay_state :=
  match e with
  | ArchiveSaved t => s <| archive ::= fun a => a <| saved_at_unix_ns := t |> |>
  | RunSummaryEntry run => s <| archive ::= fun a => a <| runs ::= fun l => l ++ [run] |> |>
  | AggregatorClock start last =>
      s <| archive ::= fun a => a <| aggregator ::= fun g =>
             g <| Log.sa_session_start_ns := start |> <| Log.sa_last_event_ns := last |> |> |>
  | ThreadName tid name => s <| thread_names ::= bt_insert tid name |>
  | BinaryLoaded binary => s <| archive ::= fun a => a <| binaries ::= fun l => l ++ [binary] |> |>
  | PetSample tid sample =>
      s <| threads ::= with_thread tid (fun t => t <| Log.st_pet_samples ::= fun l => l ++ [sample] |>) |>
  | Interval tid interval =>
      s <| threads ::= with_thread tid (fun t => t <| Log.st_intervals ::= fun l => l ++ [interval] |>) |>
  | Wakeup tid wakeup =>
      s <| threads ::= with_thread tid (fun t => t <| Log.st_wakeups ::= fun l => l ++ [wakeup] |>) |>
  | TargetIngestEntry d => s <| archive ::= fun a => a <| target_ingest := d |> |>
  | TargetEventKind pid d =>
      s <| archive ::= fun a => a <| observability ::= fun o =>
             o <| Obs.so_event_kinds ::= fun l => l ++ [Obs.mkSavedTargetEventKind pid d] |> |> |>
  | TargetEvent e =>
      s <| archive ::= fun a => a <| observability ::= fun o =>
             o <| Obs.so_events ::= fun l => l ++ [e] |> |> |>
  | TargetCounterSet pid d =>
      s <| archive ::= fun a => a <| observability ::= fun o =>
             o <| Obs.so_counter_sets ::= fun l => l ++ [Obs.mkSavedTargetCounterSet pid d] |> |> |>
  | TargetCounterSample c =>
      s <| archive ::= fun a => a <| observability ::= fun o =>
             o <| Obs.so_counter_samples ::= fun l => l ++ [c] |> |> |>
  | TargetContract pid d =>
      s <| archive ::= fun a => a <| observability ::= fun o =>
             o <| Obs.so_contracts ::= fun l => l ++ [Obs.mkSavedTargetContract pid d] |> |> |>
  | ObservabilityEntry d =>
      s <| archive ::= fun a => a <| observability ::= fun o => o <| Obs.so_diagnostics := d |> |> |>
  end.

Definition replay_start (version saved_at : Z) : replay_state :=
  mkReplayState
    (mkSavedRunArchive version saved_at [] saved_aggregator_default []
       Lanes.ingest_diagnostics_default Obs.saved_observability_default) [] [].

Definition from_event_log_entries (version saved_at : Z) (entries : list SavedEventLogEntry)
    : SavedRunArchive :=
  let s := foldl replay_entry (replay_start version saved_at) entries in
  (archive s) <| aggregator ::= fun g =>
    g <| Log.sa_thread_names := map (fun e => Log.mkSavedThreadName e.1 e.2) (thread_names s) |>
      <| Log.sa_threads := map snd (threads s) |> |>.

(** ** Text blobs *)

Record SavedArchiveBlob := mkSavedArchiveBlob { blob_path : list Z; blob_bytes : list Z }.

(** [{index:06}] *)
Definition pad6 (n : Z) : list Z := replicate (6 - length (Text.to_dec n)) 48 ++ Text.to_dec n.

Definition binary_text_blob_member (index : nat) (b : Bin.SavedLoadedBinary) : list Z :=
  str "blobs/binary-text-" ++ pad6 (Z.of_nat index) ++ str "-" ++
  KernelSlide.hex16 (Bin.sb_base_avma b) ++ str ".bin".

Definition set_text (bytes : option (list Z)) (b : Bin.SavedLoadedBinary) : Bin.SavedLoadedBinary :=
  Bin.mkSavedLoadedBinary (Bin.sb_path b) (Bin.sb_base_avma b) (Bin.sb_avma_end b) (Bin.sb_text_svma b)
    (Bin.sb_arch b) (Bin.sb_is_executable b) (Bin.sb_symbols b) bytes.

Definition archive_for_storage (a : SavedRunArchive) : SavedRunArchive * list SavedArchiveBlob :=
  (a <| binaries ::= map (set_text None) |>,
   omap (fun '(index, b) =>
           (fun bytes => mkSavedArchiveBlob (binary_text_blob_member index b) bytes) <$> Bin.sb_text_bytes b)
     (imap pair (binaries a))).

Definition restore_bundle_blobs (blobs : list SavedArchiveBlob) (bs : list Bin.SavedLoadedBinary)
    : list Bin.SavedLoadedBinary :=
  imap (fun index b =>
          match list_find (fun blob => blob_path blob = binary_text_blob_member index b) blobs with
          | Some (_, blob) => set_text (Some (blob_bytes blob)) b
          | None => b
          end) bs.

(** ** The single-file bundle *)

Record SavedRunArchiveBundle := mkSavedRunArchiveBundle {
  bu_format_version : Z;
  bu_saved_at_unix_ns : Z;
  bu_runs : list RunSummary;
  bu_aggregator : Log.SavedAggregator;
  bu_binaries : list Bin.SavedLoadedBinary;
  bu_target_ingest : Lanes.TargetIngestDiagnostics;
  bu_observability : Obs.SavedObservability;
  bu_events : list SavedEventLogEntry;
  bu_blobs : list SavedArchiveBlob
}.

Definition write_archive_bundle (a : SavedRunArchive) : SavedRunArchiveBundle :=
  let '(a, blobs) := archive_for_storage a in
  mkSavedRunArchiveBundle (format_version a) (saved_at_unix_ns a) (runs a) (aggregator a) (binaries a)
    (target_ingest a) (observability a) (archive_event_log_entries a) blobs.

Definition read_archive_bundle (b : SavedRunArchiveBundle) : SavedRunArchive :=
  if decide (bu_events b <> []) then
    let a := from_event_log_entries (bu_format_version b) (bu_saved_at_unix_ns b) (bu_events b) in
    let a := if decide (runs a = []) then a <| runs := bu_runs b |> else a in
    a <| binaries ::= restore_bundle_blobs (bu_blobs b) |>
  else
    mkSavedRunArchive (bu_format_version b) (bu_saved_at_unix_ns b) (bu_runs b) (bu_aggregator b)
      (restore_bundle_blobs (bu_blobs b) (bu_binaries b)) (bu_target_ingest b) (bu_observability b).

(** ** Replay lemmas *)

(** An archive as the server builds it: names and threads ascend by thread. *)
Record archive_ok (a : SavedRunArchive) : Prop := {
  ok_names : bt_sorted (map (fun n => (Log.sn_tid n, Log.sn_name n)) (Log.sa_thread_names (aggregator a)));
  ok_threads : bt_sorted (map (fun t => (Log.st_tid t, t)) (Log.sa_threads (aggregator a)))
}.

Definition by_time {A} (time : A -> Z) (a b : A) : bool := bool_decide (time a <= time b).

Definition sort_thread (t : Log.SavedThread) : Log.SavedThread :=
  Log.mkSavedThread (Log.st_tid t) (sort_by (by_time Log.sp_timestamp_ns) (Log.st_pet_samples t))
    (sort_by (by_time Log.si_start_ns) (Log.st_intervals t))
    (sort_by (by_time Log.sw_timestamp_ns) (Log.st_wakeups t)).

Definition thread_empty (t : Log.SavedThread) : bool :=
  match Log.st_pet_samples t, Log.st_intervals t, Log.st_wakeups t with
  | [], [], [] => true
  | _, _, _ => false
  end.

(** What replaying the log of an archive gives: the archive with the events of
    each stream in time order, without threads that have none and without its
    markers. *)
Definition replayed (a : SavedRunArchive) : SavedRunArchive :=
  a <| aggregator ::= fun g =>
         g <| Log.sa_threads ::= fun ts => map sort_thread (filter (fun t => thread_empty t = false) ts) |>
           <| Log.sa_markers := [] |> |>
    <| observability ::= fun o =>
         o <| Obs.so_events ::= sort_by (fun x y =>
                Obs.pair_le (Obs.ev_timestamp_ns x, Obs.ev_source_pid x)
                            (Obs.ev_timestamp_ns y, Obs.ev_source_pid y)) |>
           <| Obs.so_counter_samples ::= sort_by (fun x y =>
                Obs.pair_le (default 0 (Obs.cm_timestamp_ns x), Obs.cm_source_pid x)
                            (default 0 (Obs.cm_timestamp_ns y), Obs.cm_source_pid y)) |> |>.

(** What an entry of the timed part contributes to each stream. *)
Definition sel_sample (tid : Z) (e : SavedEventLogEntry) : option Log.SavedPetSample :=
  match e with PetSample t s => if decide (t = tid) then Some s else None | _ => None end.
Definition sel_interval (tid : Z) (e : SavedEventLogEntry) : option Log.SavedInterval :=
  match e with Interval t s => if decide (t = tid) then Some s else None | _ => None end.
Definition sel_wakeup (tid : Z) (e : SavedEventLogEntry) : option Log.SavedWakeup :=
  match e with Wakeup t s => if decide (t = tid) then Some s else None | _ => None end.
Definition sel_event (e : SavedEventLogEntry) : option Obs.TargetEventRecord :=
  match e with TargetEvent e => Some e | _ => None end.
Definition sel_counter (e : SavedEventLogEntry) : option Obs.TargetCounterSampleRecord :=
  match e with TargetCounterSample c => Some c | _ => None end.

Definition is_timed (e : SavedEventLogEntry) : bool :=
  match e with
  | PetSample _ _ | Interval _ _ | Wakeup _ _ | TargetEvent _ | TargetCounterSample _ => true
  | _ => false
  end.

Definition selected (tid : Z) (es : list SavedEventLogEntry) : Log.SavedThread :=
  Log.mkSavedThread tid (omap (sel_sample tid) es) (omap (sel_interval tid) es) (omap (sel_wakeup tid) es).

Definition unless_empty (t : Log.SavedThread) : option Log.SavedThread :=
  if thread_empty t then None else Some t.

Lemma replay_timed es s :
  forallb is_timed es = true -> threads s = [] ->
  let s' := foldl replay_entry s es in
  archive s' = (archive s) <| observability ::= fun o =>
                 o <| Obs.so_events ::= fun l => l ++ omap sel_event es |>
                   <| Obs.so_counter_samples ::= fun l => l ++ omap sel_counter es |> |> /\
  thread_names s' = thread_names s /\
  bt_sorted (threads s') /\
  forall tid, bt_get tid (threads s') = unless_empty (selected tid es).
Proof.
  intros Ht Hs. induction es as [|e es IH] using rev_ind; cbv zeta.
  - cbn. split; [|by rewrite Hs; repeat split; constructor].
    destruct (archive s) as [? ? ? ? ? ? []]. cbn. unfold field_update, Obs.eta_SavedObservability. cbn.
    by rewrite !app_nil_r.
  - rewrite forallb_app in Ht. apply andb_true_iff in Ht as [Ht He]. cbn in He. rewrite andb_true_r in He.
    rewrite foldl_snoc. destruct (IH Ht) as (Ha & Hn & Hb & Hg). clear IH.
    set (s' := foldl replay_entry s es) in *.
    assert (forall e', sel_event e' = None -> sel_counter e' = None ->
      (archive s) <| observability ::= fun o =>
        o <| Obs.so_events ::= fun l => l ++ omap sel_event (es ++ [e']) |>
          <| Obs.so_counter_samples ::= fun l => l ++ omap sel_counter (es ++ [e']) |> |> = archive s') as Hsame.
    { intros e' H1 H2. rewrite Ha, !omap_app. cbn. by rewrite H1, H2, !app_nil_r. }
    assert (forall f tid0 e', is_Some (unless_empty (f (selected tid0 es))) ->
      (forall tid, unless_empty (selected tid (es ++ [e'])) =
         if decide (tid = tid0) then unless_empty (f (selected tid0 es)) else unless_empty (selected tid es)) ->
      bt_sorted (with_thread tid0 f (threads s')) /\
      forall tid, bt_get tid (with_thread tid0 f (threads s')) = unless_empty (selected tid (es ++ [e']))) as Hw.
    { intros f tid0 e' [t0 Hf] Hsel. unfold with_thread. split; [by apply bt_insert_sorted|].
      intros tid. rewrite bt_get_insert, Hsel, !Hg by done. case_decide; [|done].
      assert (default (Log.mkSavedThread tid0 [] [] []) (unless_empty (selected tid0 es)) = selected tid0 es) as ->.
      { unfold unless_empty, thread_empty, selected. cbn. repeat case_match; cbn; congruence. }
      rewrite Hf. unfold unless_empty in Hf. case_match; congruence. }
    destruct e as [| | | | |t x|t x|t x| | |x| |x| |]; try discriminate; cbn [replay_entry].
    1-3: split; [by rewrite Hsame|]; split; [done|]; apply Hw;
      [unfold unless_empty, thread_empty; cbn; repeat case_match; try done;
       by match goal with H : _ ++ [_] = [] |- _ => apply app_eq_nil in H as [_ ?] end|];
      intros tid; unfold selected; rewrite !omap_app; cbn; rewrite ?app_nil_r; case_decide;
      [subst; by rewrite decide_True|by rewrite decide_False, app_nil_r by done].
    all: split; [cbn; rewrite Ha, !omap_app; cbn; by rewrite ?app_nil_r, ?app_assoc|];
      split; [done|]; split; [done|]; intros tid; cbn; rewrite Hg; unfold selected;
      rewrite !omap_app; cbn; by rewrite !app_nil_r.
Qed.

Ltac chunk := intros l; induction l as [|x l IH]; intros s; cbn [map foldl];
  [destruct s as [[? ? ? [] ? ? []] ? ?]; unfold field_update; cbn; by rewrite ?app_nil_r
  |rewrite IH; destruct s as [[? ? ? [] ? ? []] ? ?]; cbn; by rewrite <- ?app_assoc].

Lemma replay_runs : forall l s,
  foldl replay_entry s (map RunSummaryEntry l) = s <| archive ::= fun a => a <| runs ::= fun r => r ++ l |> |>.
Proof. chunk. Qed.

Lemma replay_binaries : forall l s,
  foldl replay_entry s (map BinaryLoaded l) = s <| archive ::= fun a => a <| binaries ::= fun r => r ++ l |> |>.
Proof. chunk. Qed.

Lemma replay_names : forall l s,
  foldl replay_entry s (map (fun n => ThreadName (Log.sn_tid n) (Log.sn_name n)) l) =
  s <| thread_names ::= fun m => foldl (fun m e => bt_insert e.1 e.2 m) m
         (map (fun n => (Log.sn_tid n, Log.sn_name n)) l) |>.
Proof. chunk. Qed.

Lemma replay_kinds : forall l s,
  foldl replay_entry s (map (fun e => TargetEventKind (Obs.sk_source_pid e) (Obs.sk_definition e)) l) =
  s <| archive ::= fun a => a <| observability ::= fun o => o <| Obs.so_event_kinds ::= fun r => r ++ l |> |> |>.
Proof.
  intros l; induction l as [|[] l IH]; intros s; cbn [map foldl].
  - destruct s as [[? ? ? [] ? ? []] ? ?]; unfold field_update; cbn; by rewrite ?app_nil_r.
  - rewrite IH; destruct s as [[? ? ? [] ? ? []] ? ?]; cbn; by rewrite <- ?app_assoc.
Qed.

Lemma replay_sets : forall l s,
  foldl replay_entry s (map (fun e => TargetCounterSet (Obs.ss_source_pid e) (Obs.ss_definition e)) l) =
  s <| archive ::= fun a => a <| observability ::= fun o => o <| Obs.so_counter_sets ::= fun r => r ++ l |> |> |>.
Proof.
  intros l; induction l as [|[] l IH]; intros s; cbn [map foldl].
  - destruct s as [[? ? ? [] ? ? []] ? ?]; unfold field_update; cbn; by rewrite ?app_nil_r.
  - rewrite IH; destruct s as [[? ? ? [] ? ? []] ? ?]; cbn; by rewrite <- ?app_assoc.
Qed.

Lemma replay_contracts : forall l s,
  foldl replay_entry s (map (fun e => TargetContract (Obs.sc_source_pid e) (Obs.sc_definition e)) l) =
  s <| archive ::= fun a => a <| observability ::= fun o => o <| Obs.so_contracts ::= fun r => r ++ l |> |> |>.
Proof.
  intros l; induction l as [|[] l IH]; intros s; cbn [map foldl].
  - destruct s as [[? ? ? [] ? ? []] ? ?]; unfold field_update; cbn; by rewrite ?app_nil_r.
  - rewrite IH; destruct s as [[? ? ? [] ? ? []] ? ?]; cbn; by rewrite <- ?app_assoc.
Qed.

Definition header_state (version : Z) (a : SavedRunArchive) : replay_state :=
  let g := aggregator a in
  let o := observability a in
  mkReplayState
    (mkSavedRunArchive version (saved_at_unix_ns a) (runs a)
       (Log.mkSavedAggregator (Log.sa_session_start_ns g) (Log.sa_last_event_ns g) [] [] [])
       (binaries a) (target_ingest a)
       (Obs.mkSavedObservability (Obs.so_event_kinds o) [] (Obs.so_counter_sets o) []
          (Obs.so_contracts o) (Obs.so_diagnostics o)))
    (map (fun n => (Log.sn_tid n, Log.sn_name n)) (Log.sa_thread_names g)) [].

Lemma replay_header version saved_at a :
  archive_ok a -> foldl replay_entry (replay_start version saved_at) (header_entries a) = header_state version a.
Proof.
  intros [Hn _]. unfold header_entries.
  rewrite !foldl_app, replay_runs, replay_names, replay_binaries, replay_kinds, replay_sets, replay_contracts.
  cbn -[bt_insert]. rewrite (bt_insert_all _ []) by done. reflexivity.
Qed.

(** ** The timed part *)

Lemma timed_le_total x y : timed_le x y = false -> timed_le y x = true.
Proof.
  destruct x as [[[? ?] ?] ?], y as [[[? ?] ?] ?]. unfold timed_le. cbn.
  rewrite bool_decide_eq_false, bool_decide_eq_true. lia.
Qed.

Lemma timed_le_trans x y z : timed_le x y = true -> timed_le y z = true -> timed_le x z = true.
Proof.
  destruct x as [[[? ?] ?] ?], y as [[[? ?] ?] ?], z as [[[? ?] ?] ?]. unfold timed_le. cbn.
  rewrite !bool_decide_eq_true. lia.
Qed.

(** An entry that carries its own key. *)
Definition keyed (x : timed_entry) : Prop :=
  x.1 = match x.2 with
        | PetSample t s => (Log.sp_timestamp_ns s, 0, t)
        | Interval t i => (Log.si_start_ns i, 1, t)
        | Wakeup t w => (Log.sw_timestamp_ns w, 2, t)
        | TargetEvent e => (Obs.ev_timestamp_ns e, 3, Obs.ev_source_pid e)
        | TargetCounterSample c => (default 0 (Obs.cm_timestamp_ns c), 4, Obs.cm_source_pid c)
        | _ => x.1
        end.

#[local] Instance keyed_dec x : Decision (keyed x).
Proof. unfold keyed. apply _. Defined.

Lemma timed_entries_keyed a : Forall (fun x => keyed x /\ is_timed x.2 = true) (timed_entries a).
Proof.
  unfold timed_entries, thread_entries. apply Forall_app. split; [|apply Forall_app; split].
  - apply Forall_bind. apply Forall_true. intros t.
    repeat (apply Forall_app; split); apply Forall_map, Forall_true; intros x; by split.
  - apply Forall_map, Forall_true. intros x. by split.
  - apply Forall_map, Forall_true. intros x. by split.
Qed.

(** Selecting a stream from the sorted log sorts the stream. *)
Lemma select_sorted {B} (le' : B -> B -> bool) (f : SavedEventLogEntry -> option B) l :
  Forall (fun x => keyed x /\ is_timed x.2 = true) l ->
  (forall x y a b, keyed x -> keyed y -> f x.2 = Some a -> f y.2 = Some b -> timed_le x y = le' a b) ->
  omap f (map snd (sort_by timed_le l)) = sort_by le' (omap (fun x => f x.2) l).
Proof.
  intros Hl Hle.
  assert (forall l : list timed_entry, omap f (map snd l) = omap (fun x => f x.2) l) as Hmap.
  { clear. intros l. induction l as [|x l IH]; cbn; [done|]. by rewrite IH. }
  rewrite Hmap.
  set (g := fun x : timed_entry => if bool_decide (keyed x) then f x.2 else None).
  assert (forall l, Forall (fun x => keyed x /\ is_timed x.2 = true) l ->
    omap (fun x : timed_entry => f x.2) l = omap g l) as Hg.
  { clear. induction 1 as [|x l [Hk _] _ IH]; cbn; [done|]. unfold g at 1.
    by rewrite bool_decide_true, IH. }
  rewrite !Hg by (by rewrite ?sort_by_perm). apply sort_by_omap.
  - apply timed_le_total.
  - apply timed_le_trans.
  - unfold g. intros x y u v Hx Hy. case_bool_decide; [|done]. case_bool_decide; [|done]. by apply Hle.
Qed.

Definition thread_pairs (ts : list Log.SavedThread) : btree Log.SavedThread :=
  map (fun t => (Log.st_tid t, t)) ts.

Lemma omap_map_select {A B C} (f : B -> option C) (g : A -> B) (l : list A) :
  omap f (map g l) = omap (fun x => f (g x)) l.
Proof. induction l as [|x l IH]; cbn; [done|]. by rewrite IH. Qed.

Lemma omap_all {A} (l : list A) : omap Some l = l.
Proof. induction l as [|x l IH]; cbn; [done|]. by rewrite IH. Qed.

Lemma omap_none {A B} (l : list A) : omap (fun _ => @None B) l = [].
Proof. by induction l. Qed.

(** The part of the log the threads contribute, seen through one stream. *)
Lemma select_threads {B} (f : SavedEventLogEntry -> option B) (g : Log.SavedThread -> list B) tid ts :
  (forall t, omap (fun x => f x.2) (thread_entries t) = if decide (Log.st_tid t = tid) then g t else []) ->
  bt_sorted (thread_pairs ts) ->
  omap (fun x => f x.2) (ts ≫= thread_entries) = from_option g [] (bt_get tid (thread_pairs ts)).
Proof.
  intros Hf Hs. induction ts as [|t ts IH]; [done|].
  change (thread_pairs (t :: ts)) with ((Log.st_tid t, t) :: thread_pairs ts) in *.
  apply StronglySorted_inv in Hs as [Hs Hlt]. rewrite bind_cons, omap_app, Hf, (IH Hs). cbn [bt_get].
  destruct (decide (tid = Log.st_tid t)) as [->|]; [|by rewrite decide_False by done].
  rewrite decide_True by done. cbn.
  assert (bt_get (Log.st_tid t) (thread_pairs ts) = None) as ->; [|by rewrite app_nil_r].
  apply bt_get_None. intros (x & Hx & Hin)%list_elem_of_fmap. rewrite Forall_forall in Hlt.
  apply Hlt in Hin. cbn in *. lia.
Qed.

Ltac streams := unfold thread_entries; rewrite !omap_app, !omap_map_select; cbn;
  case_decide; rewrite ?omap_all, ?omap_none, ?app_nil_r; done.

Lemma select_signals {B} (f : SavedEventLogEntry -> option B) a :
  (forall t, omap (fun x => f x.2) (thread_entries t) = []) ->
  omap (fun x => f x.2) (timed_entries a) =
  omap f (map TargetEvent (Obs.so_events (observability a)) ++
          map TargetCounterSample (Obs.so_counter_samples (observability a))).
Proof.
  intros Hf. unfold timed_entries. rewrite !omap_app, !omap_map_select. cbn [fst snd].
  assert (omap (fun x => f x.2) (Log.sa_threads (aggregator a) ≫= thread_entries) = []) as ->; [|done].
  induction (Log.sa_threads (aggregator a)) as [|t ts IH]; [done|]. by rewrite bind_cons, omap_app, Hf.
Qed.

Lemma select_stream {B} (f : Z -> SavedEventLogEntry -> option B) (g : Log.SavedThread -> list B) tid a :
  (forall t, omap (fun x => f tid x.2) (thread_entries t) = if decide (Log.st_tid t = tid) then g t else []) ->
  (forall e, f tid (TargetEvent e) = None) -> (forall c, f tid (TargetCounterSample c) = None) ->
  archive_ok a ->
  omap (fun x => f tid x.2) (timed_entries a) =
  from_option g [] (bt_get tid (thread_pairs (Log.sa_threads (aggregator a)))).
Proof.
  intros Hf He Hc [_ Hs]. unfold timed_entries. rewrite !omap_app, !omap_map_select. cbn [fst snd].
  rewrite (select_threads (f tid) g tid) by done.
  assert (forall A (h : A -> option B) l, (forall x, h x = None) -> omap h l = []) as Hn.
  { intros A h l Hh. induction l as [|x l IH]; cbn; [done|]. by rewrite Hh. }
  rewrite !Hn by done. by rewrite !app_nil_r.
Qed.

Lemma sort_thread_empty t : thread_empty (sort_thread t) = thread_empty t.
Proof.
  assert (forall A (le : A -> A -> bool) l, sort_by le l = [] <-> l = []) as Hnil.
  { intros A le l. split; [|by intros ->]. intros E. apply Permutation_nil.
    rewrite <- E. apply sort_by_perm. }
  unfold thread_empty. destruct t as [tid ss ivs ws]. cbn -[sort_by].
  assert (forall A (le : A -> A -> bool) l, l <> [] -> exists x m, sort_by le l = x :: m) as Hcons.
  { intros A le l Hl. destruct (sort_by le l) eqn:E; [by apply Hnil in E|eauto]. }
  destruct ss as [|s ss].
  - destruct ivs as [|s ivs].
    + destruct ws as [|s ws]; [done|].
      by destruct (Hcons _ (by_time Log.sw_timestamp_ns) (s :: ws)) as (x & m & ->).
    + by destruct (Hcons _ (by_time Log.si_start_ns) (s :: ivs)) as (x & m & ->).
  - by destruct (Hcons _ (by_time Log.sp_timestamp_ns) (s :: ss)) as (x & m & ->).
Qed.

Lemma replayed_threads_get tid ts :
  bt_sorted (thread_pairs ts) ->
  let ts' := map sort_thread (filter (fun t => thread_empty t = false) ts) in
  bt_sorted (thread_pairs ts') /\
  bt_get tid (thread_pairs ts') = bt_get tid (thread_pairs ts) ≫= (fun t => unless_empty (sort_thread t)).
Proof.
  intros Hs. cbv zeta. induction ts as [|t ts IH]; [done|].
  change (thread_pairs (t :: ts)) with ((Log.st_tid t, t) :: thread_pairs ts) in *.
  apply StronglySorted_inv in Hs as [Hs Hlt]. destruct (IH Hs) as [IH1 IH2]. clear IH.
  rewrite filter_cons. destruct (thread_empty t) eqn:Et.
  - rewrite decide_False by done. split; [done|]. rewrite IH2. cbn [bt_get].
    destruct (decide (tid = Log.st_tid t)) as [->|]; [|done].
    assert (bt_get (Log.st_tid t) (thread_pairs ts) = None) as ->.
    { apply bt_get_None. intros (x & Hx & Hin)%list_elem_of_fmap. rewrite Forall_forall in Hlt.
      apply Hlt in Hin. cbn in *. lia. }
    cbn. unfold unless_empty. by rewrite sort_thread_empty, Et.
  - rewrite decide_True by done. cbn [map].
    change (thread_pairs (sort_thread t :: ?l)) with ((Log.st_tid t, sort_thread t) :: thread_pairs l).
    split.
    + constructor; [done|]. apply Forall_map, Forall_map, Forall_forall. intros u [_ Hu]%list_elem_of_filter.
      rewrite Forall_forall in Hlt. apply (Hlt (Log.st_tid u, u)). by apply list_elem_of_fmap_2 with (f := fun t => (Log.st_tid t, t)).
    + cbn [bt_get]. destruct (decide (tid = Log.st_tid t)) as [->|]; [|done].
      cbn. unfold unless_empty. by rewrite sort_thread_empty, Et.
Qed.

(** ** The event log *)

Lemma timed_part_is_timed a : forallb is_timed (map snd (sort_by timed_le (timed_entries a))) = true.
Proof.
  apply forallb_forall. intros e (x & <- & Hx%list_elem_of_In)%in_map_iff.
  rewrite sort_by_perm in Hx. pose proof (timed_entries_keyed a) as H. rewrite Forall_forall in H.
  by apply H in Hx as [_ ?].
Qed.

Ltac key_order :=
  intros [kx e1] [ky e2] u v H1 H2 Hu Hv; unfold keyed in H1, H2; cbn in Hu, Hv, H1, H2;
  destruct e1; try discriminate Hu; destruct e2; try discriminate Hv;
  cbn in Hu, Hv; repeat case_decide; simplify_eq; unfold timed_le, by_time, Obs.pair_le; cbn [fst snd]; apply bool_decide_ext; lia.

Lemma selected_sorted a tid :
  archive_ok a ->
  unless_empty (selected tid (map snd (sort_by timed_le (timed_entries a)))) =
  bt_get tid (thread_pairs (Log.sa_threads (aggregator a))) ≫= (fun t => unless_empty (sort_thread t)).
Proof.
  intros Ha. pose proof (timed_entries_keyed a) as Hk.
  assert (selected tid (map snd (sort_by timed_le (timed_entries a))) =
    Log.mkSavedThread tid
      (sort_by (by_time Log.sp_timestamp_ns)
         (from_option Log.st_pet_samples [] (bt_get tid (thread_pairs (Log.sa_threads (aggregator a))))))
      (sort_by (by_time Log.si_start_ns)
         (from_option Log.st_intervals [] (bt_get tid (thread_pairs (Log.sa_threads (aggregator a))))))
      (sort_by (by_time Log.sw_timestamp_ns)
         (from_option Log.st_wakeups [] (bt_get tid (thread_pairs (Log.sa_threads (aggregator a)))))))
    as ->.
  { unfold selected. f_equal.
    - rewrite (select_sorted (by_time Log.sp_timestamp_ns)) by (done || key_order).
      f_equal. apply (select_stream sel_sample); try done. intros t. streams.
    - rewrite (select_sorted (by_time Log.si_start_ns)) by (done || key_order).
      f_equal. apply (select_stream sel_interval); try done. intros t. streams.
    - rewrite (select_sorted (by_time Log.sw_timestamp_ns)) by (done || key_order).
      f_equal. apply (select_stream sel_wakeup); try done. intros t. streams. }
  destruct (bt_get tid _) as [t|] eqn:E; [|done]. cbn. destruct Ha as [_ Hs].
  apply bt_get_elem in E; [|done]. apply list_elem_of_fmap in E as (t' & [= -> ->] & _). done.
Qed.

Lemma selected_signals a :
  omap sel_event (map snd (sort_by timed_le (timed_entries a))) =
    Obs.so_events (observability (replayed a)) /\
  omap sel_counter (map snd (sort_by timed_le (timed_entries a))) =
    Obs.so_counter_samples (observability (replayed a)).
Proof.
  pose proof (timed_entries_keyed a) as Hk. split.
  - rewrite (select_sorted (fun x y =>
                Obs.pair_le (Obs.ev_timestamp_ns x, Obs.ev_source_pid x)
                            (Obs.ev_timestamp_ns y, Obs.ev_source_pid y))) by (done || key_order).
    rewrite select_signals by (intros t; unfold thread_entries; rewrite !omap_app, !omap_map_select; cbn;
      by rewrite !omap_none).
    rewrite omap_app, !omap_map_select. cbn. by rewrite omap_all, omap_none, app_nil_r.
  - rewrite (select_sorted (fun x y =>
                Obs.pair_le (default 0 (Obs.cm_timestamp_ns x), Obs.cm_source_pid x)
                            (default 0 (Obs.cm_timestamp_ns y), Obs.cm_source_pid y))) by (done || key_order).
    rewrite select_signals by (intros t; unfold thread_entries; rewrite !omap_app, !omap_map_select; cbn;
      by rewrite !omap_none).
    rewrite omap_app, !omap_map_select. cbn. by rewrite omap_all, omap_none.
Qed.

(** Replaying the event log of an archive gives back the archive: the runs,
    clock, names, binaries, definitions and diagnostics as they were, every
    thread's samples, intervals and wakeups and the target's events and samples
    complete and in time order; a thread without any is left out, and so are
    the markers. *)
Theorem event_log_replay a version saved_at :
  archive_ok a ->
  from_event_log_entries version saved_at (archive_event_log_entries a) =
  (replayed a) <| format_version := version |>.
Proof.
  intros Ha. unfold from_event_log_entries, archive_event_log_entries.
  rewrite foldl_app, replay_header by done.
  destruct (replay_timed _ (header_state version a) (timed_part_is_timed a) eq_refl) as (E1 & E2 & Hb & Hg).
  destruct (selected_signals a) as [S1 S2]. rewrite S1, S2 in E1. rewrite E1, E2.
  set (ts := threads _) in *. clearbody ts.
  assert (ts = thread_pairs (map sort_thread
            (filter (fun t => thread_empty t = false) (Log.sa_threads (aggregator a))))) as ->.
  { apply bt_ext; [done| |].
    - by apply (replayed_threads_get 0), ok_threads.
    - intros tid. rewrite Hg, selected_sorted by done. symmetry.
      by apply (replayed_threads_get tid), ok_threads. }
  destruct a as [? ? ? [] ? ? []]. unfold header_state, replayed, thread_pairs. cbn. f_equal. f_equal.
  - rewrite map_map. cbn. rewrite (map_ext _ (fun n => n)); [apply map_id|]. by intros [].
  - rewrite map_map. cbn. apply map_id.
Qed.

(** ** The blobs *)

Definition dec_value (s : list Z) : Z := foldl (fun acc c => acc * 10 + (c - 48)) 0 s.

Lemma dec_value_digits fuel n :
  0 <= n < 10 ^ Z.of_nat fuel -> dec_value (reverse (Text.dec_digits_rev fuel n)) = n.
Proof.
  unfold dec_value. revert n. induction fuel as [|fuel IH]; intros n Hn; [cbn in *; lia|].
  cbn [Text.dec_digits_rev]. rewrite reverse_cons, foldl_snoc.
  assert (foldl (fun acc c => acc * 10 + (c - 48)) 0
            (reverse (if bool_decide (n / 10 = 0) then [] else Text.dec_digits_rev fuel (n / 10))) = n / 10) as ->.
  { case_bool_decide as Hz; [by rewrite Hz|]. apply IH. split; [apply Z.div_pos; lia|].
    apply Z.div_lt_upper_bound; [lia|]. replace (Z.of_nat (S fuel)) with (Z.of_nat fuel + 1) in Hn by lia.
    rewrite Z.pow_add_r in Hn by lia. lia. }
  pose proof (Z.div_mod n 10). lia.
Qed.

Lemma dec_value_zeros k s : dec_value (replicate k 48 ++ s) = dec_value s.
Proof. induction k as [|k IH]; [done|]. unfold dec_value in *. cbn. done. Qed.

Lemma dec_digits_range fuel n c : 0 <= n -> c ∈ Text.dec_digits_rev fuel n -> 48 <= c <= 57.
Proof.
  revert n. induction fuel as [|fuel IH]; intros n Hn; cbn; [by intros ?%not_elem_of_nil|].
  intros [->|Hc]%elem_of_cons; [pose proof (Z.mod_pos_bound n 10); lia|].
  case_bool_decide; [by apply not_elem_of_nil in Hc|]. apply (IH (n / 10)); [apply Z.div_pos; lia|done].
Qed.

Lemma pad6_digits n c : 0 <= n -> c ∈ pad6 n -> c <> 45.
Proof.
  intros Hn [Hc|Hc]%elem_of_app; [apply elem_of_replicate in Hc as [-> _]; done|].
  unfold Text.to_dec in Hc. rewrite elem_of_reverse in Hc. apply dec_digits_range in Hc; lia.
Qed.

Lemma pad6_value n : 0 <= n < 10 ^ 20 -> dec_value (pad6 n) = n.
Proof. intros Hn. unfold pad6. rewrite dec_value_zeros. by apply (dec_value_digits 20). Qed.

(** Two splits at the first [c] agree. *)
Lemma split_at_first (c : Z) a a' r r' :
  (forall x, x ∈ a -> x <> c) -> (forall x, x ∈ a' -> x <> c) -> a ++ c :: r = a' ++ c :: r' -> a = a'.
Proof.
  revert a'. induction a as [|x a IH]; intros [|x' a'] Ha Ha' E; cbn in E; simplify_eq; [done|..].
  - exfalso. by eapply Ha'; [left|].
  - exfalso. by eapply Ha; [left|].
  - f_equal. apply IH; [intros; apply Ha; by right|intros; apply Ha'; by right|done].
Qed.

(** The members of two binaries at different places differ. *)
Lemma blob_member_inj i j b b' :
  Z.of_nat i < 10 ^ 20 -> Z.of_nat j < 10 ^ 20 ->
  binary_text_blob_member i b = binary_text_blob_member j b' -> i = j.
Proof.
  intros Hi Hj E. unfold binary_text_blob_member in E. apply (inj (app (str "blobs/binary-text-"))) in E.
  change (str "-") with [45] in E. cbn [app] in E.
  apply split_at_first in E; [|intros x; apply pad6_digits; lia..].
  apply (f_equal dec_value) in E. rewrite !pad6_value in E by lia. lia.
Qed.

#[local] Arguments binary_text_blob_member : simpl never.
#[local] Arguments restore_bundle_blobs : simpl never.

Lemma restore_stored_blobs bs :
  Z.of_nat (length bs) < 10 ^ 20 ->
  restore_bundle_blobs
    (omap (fun '(index, b) =>
       (fun bytes => mkSavedArchiveBlob (binary_text_blob_member index b) bytes) <$> Bin.sb_text_bytes b)
       (imap pair bs)) (map (set_text None) bs) = bs.
Proof.
  intros Hlen. unfold restore_bundle_blobs. set (blobs := omap _ _).
  assert (forall blob, blob ∈ blobs -> exists i b bytes, bs !! i = Some b /\ Bin.sb_text_bytes b = Some bytes /\
            blob = mkSavedArchiveBlob (binary_text_blob_member i b) bytes) as Hblob.
  { intros blob ([i b] & Hin & Hb)%list_elem_of_omap. apply elem_of_lookup_imap in Hin as (i' & b' & [= -> ->] & Hl).
    destruct (Bin.sb_text_bytes b') as [bytes|] eqn:Eb; [|done]. injection Hb as <-. by exists i', b', bytes. }
  apply list_eq. intros i. rewrite list_lookup_imap, list_lookup_fmap.
  destruct (bs !! i) as [b|] eqn:El; [|done]. cbn. f_equal.
  assert (Z.of_nat i < 10 ^ 20) as Hi by (apply lookup_lt_Some in El; lia).
  change (binary_text_blob_member i (set_text None b)) with (binary_text_blob_member i b).
  assert (forall blob, blob ∈ blobs -> blob_path blob = binary_text_blob_member i b ->
            Bin.sb_text_bytes b = Some (blob_bytes blob)) as Huniq.
  { intros blob (j & b' & bytes & Hj & Hb & ->)%Hblob Hp. cbn in *.
    apply blob_member_inj in Hp; [|apply lookup_lt_Some in Hj; lia|done]. congruence. }
  destruct (list_find _ blobs) as [[k blob]|] eqn:Ef.
  - apply list_find_Some in Ef as (Hk%list_elem_of_lookup_2 & Hp & _).
    specialize (Huniq _ Hk Hp). destruct b; cbn in *. by rewrite Huniq.
  - apply list_find_None in Ef. rewrite Forall_forall in Ef.
    destruct (Bin.sb_text_bytes b) as [bytes|] eqn:Eb; [|by destruct b; cbn in *; subst].
    exfalso. apply (Ef (mkSavedArchiveBlob (binary_text_blob_member i b) bytes)); [|done].
    apply list_elem_of_omap. exists (i, b). split; [|by rewrite Eb].
    apply elem_of_lookup_imap. by exists i, b.
Qed.

(** C15. Writing an archive as a single-file bundle and reading the bundle gives
    back the archive, inline code of every binary included, except that each
    stream is in time order, threads without events are gone and the run's
    markers are lost, although the bundle carries them. *)
Theorem bundle_roundtrip a :
  archive_ok a -> Z.of_nat (length (binaries a)) < 10 ^ 20 ->
  read_archive_bundle (write_archive_bundle a) = replayed a /\
  Log.sa_markers (aggregator (read_archive_bundle (write_archive_bundle a))) = [] /\
  Log.sa_markers (bu_aggregator (write_archive_bundle a)) = Log.sa_markers (aggregator a).
Proof.
  intros Ha Hlen. pose proof (restore_stored_blobs (binaries a) Hlen) as Hb.
  unfold write_archive_bundle, archive_for_storage in *. set (a' := field_update binaries _ a).
  assert (archive_ok a') as Ha' by (destruct Ha; by constructor).
  set (blobs := omap _ _) in *. clearbody blobs. unfold read_archive_bundle.
  cbn [bu_events bu_format_version bu_saved_at_unix_ns bu_runs bu_blobs bu_aggregator].
  rewrite decide_True by done. rewrite event_log_replay by done.
  match goal with |- ?x = _ /\ _ => assert (x = replayed a) as ->; [|by destruct a as [? ? ? [] ? ? []]] end.
  destruct a as [v t rs [] bs d []]. cbn in Hb. subst a'. unfold replayed. cbn -[restore_bundle_blobs].
  case_decide; subst; cbn -[restore_bundle_blobs]; by rewrite Hb.
Qed.

(** ** Example *)

Definition demo_summary : RunSummary := mkRunSummary 1 Stopped (Some UserStop) 5 (Some 9) (Some 42) "demo" 2 0.

Definition demo_sample (t : Z) : Log.SavedPetSample :=
  Log.mkSavedPetSample t [t] [] (Log.mkSavedPmuSample 0 0 0 0).

Definition demo_binary (base : Z) (text : option (list Z)) : Bin.SavedLoadedBinary :=
  Bin.mkSavedLoadedBinary (str "a.out") base (base + 16) 0 None true [] text.

Definition demo_archive : SavedRunArchive :=
  mkSavedRunArchive 3 10 [demo_summary]
    (Log.mkSavedAggregator (Some 100) (Some 300) [Log.mkSavedThreadName 7 "main"]
       [Log.mkSavedThread 7 [demo_sample 200; demo_sample 150] [] [Log.mkSavedWakeup 160 8 [] []];
        Log.mkSavedThread 8 [] [] []]
       [Log.mkRunMarker 180 "frame"])
    [demo_binary 0x1000 (Some [1; 2]); demo_binary 0x2000 None]
    Lanes.ingest_diagnostics_default
    (Obs.mkSavedObservability [] [Obs.demo_event 2 120; Obs.demo_event 1 110] [] [] [] Obs.diagnostics_default).

Lemma demo_archive_ok : archive_ok demo_archive.
Proof. split; cbn; repeat constructor. Qed.

Lemma event_log_replay_witness :
  Log.sa_threads (aggregator (from_event_log_entries 3 10 (archive_event_log_entries demo_archive))) =
  [Log.mkSavedThread 7 [demo_sample 150; demo_sample 200] [] [Log.mkSavedWakeup 160 8 [] []]].
Proof.
  rewrite (event_log_replay demo_archive 3 10 demo_archive_ok). vm_compute. reflexivity.
Defined.

Lemma bundle_roundtrip_witness :
  binaries (read_archive_bundle (write_archive_bundle demo_archive)) = binaries demo_archive /\
  Log.sa_markers (aggregator (read_archive_bundle (write_archive_bundle demo_archive))) = [].
Proof.
  destruct (bundle_roundtrip demo_archive demo_archive_ok) as (E & Hm & _); [vm_compute; reflexivity|].
  split; [by rewrite E|exact Hm].
Defined.

End Archive.
