(* ===== verification/Server.v ===== *)
(** * The server's run control

    [stax-server/src/main.rs]: the shared state of the server, the lifecycle of
    a run, the history of stopped runs and the selection of what the queries
    see.  An operation is the sequence of its critical sections: [Atomic] is
    what happens under one lock (or one atomic instruction), so that an
    operation alone is [exec] and several at once are any interleaving of their
    sections.  Wall-clock times an operation reads are arguments. *)

From S2P Require Import Prelude Prog BTree Aggregator Binaries Observability Lanes Archive.

Module Server.

Export Prog.
Import Archive.

(** ** State *)

Record RunSnapshot := mkRunSnapshot { summary : RunSummary; snapshot_archive : SavedRunArchive }.

Record Inner := mkInner {
  active : option RunSummary;
  selected : option RunSummary;
  recording_stop : option Z;
  history : list RunSnapshot
}.

#[export] Instance eta_Inner : Eta Inner := fun i =>
  mkInner (active i) (selected i) (recording_stop i) (history i).

(** [stop_flags] is the store of the [Arc<AtomicBool>]s, by address. *)
Record ServerState := mkServerState {
  inner : Inner;
  s_aggregator : Log.Aggregator;
  s_binaries : Bin.BinaryRegistry;
  s_observability : Obs.ObservabilityStore;
  revision : Z;
  next_run_id : Z;
  target_lanes : Lanes.TargetLaneRegistry;
  stop_flags : gmap Z bool
}.

#[export] Instance eta_ServerState : Eta ServerState := fun s =>
  mkServerState (inner s) (s_aggregator s) (s_binaries s) (s_observability s) (revision s)
    (next_run_id s) (target_lanes s) (stop_flags s).

Definition new : ServerState :=
  mkServerState (mkInner None None None []) Log.aggregator_default Bin.new Obs.store_default 1 1
    Lanes.registry_default ∅.

Inductive RunControlError :=
  | NoActiveRun
  | AlreadyActive
  | Internal (message : string).

Definition result (A : Type) : Type := A + RunControlError.

(** ** Operations as sequences of critical sections *)

Abbreviation prog := (Prog.prog ServerState).

Definition bump_revision : prog unit := writing (fun s => s <| revision ::= fun n => wadd64 n 1 |>).

Definition with_inner (f : Inner -> Inner) (s : ServerState) : ServerState := s <| inner ::= f |>.

(** ** Queries of the run state *)

Definition find_snapshot (run_id : Z) (h : list RunSnapshot) : option RunSnapshot :=
  snd <$> list_find (fun snapshot => id (summary snapshot) = run_id) h.

Definition snapshot_for_run (run_id : Z) (s : ServerState) : option RunSnapshot :=
  find_snapshot run_id (history (inner s)).

Definition is_active_run (run_id : Z) (s : ServerState) : bool :=
  match active (inner s) with
  | Some a => bool_decide (id a = run_id)
  | None => false
  end.

Definition should_stream_run (run : option Z) (s : ServerState) : bool :=
  match run with
  | None => true
  | Some run_id => is_active_run run_id s
  end.

Definition active_target_pid (s : ServerState) : option Z := active (inner s) ≫= target_pid.

Definition queryable_run_summary (s : ServerState) : option RunSummary :=
  match active (inner s), selected (inner s) with
  | Some a, _ => Some a
  | None, Some r => Some r
  | None, None => summary <$> last (history (inner s))
  end.

Definition run_started_at_unix_ns (s : ServerState) : Z :=
  match queryable_run_summary s with
  | Some r => started_at_unix_ns r
  | None => 0
  end.

(** What a profiler queries. *)
Record LiveServer := mkLiveServer {
  l_aggregator : Log.Aggregator;
  l_binaries : Bin.BinaryRegistry;
  l_observability : Obs.ObservabilityStore
}.

Definition current_profiler (s : ServerState) : LiveServer :=
  mkLiveServer (s_aggregator s) (s_binaries s) (s_observability s).

Definition profiler_from_archive (a : SavedRunArchive) : LiveServer :=
  mkLiveServer (Log.replace_from_saved (aggregator a) Log.aggregator_default)
    (Bin.replace_from_saved (binaries a) Bin.new)
    (Obs.replace_from_saved (observability a) Obs.store_default).

Definition empty_profiler : LiveServer :=
  mkLiveServer Log.aggregator_default Bin.new Obs.store_default.

Definition profiler_for_run (run : option Z) (s : ServerState) : LiveServer :=
  match run with
  | None => current_profiler s
  | Some run_id =>
      if is_active_run run_id s then current_profiler s
      else match snapshot_for_run run_id s with
           | Some snapshot => profiler_from_archive (snapshot_archive snapshot)
           | None => empty_profiler
           end
  end.

Section Operations.
Context `{Order : MapOrder}.

Definition lanes_diagnostics (r : Lanes.TargetLaneRegistry) : Lanes.TargetIngestDiagnostics :=
  Lanes.diagnostics (entries (Lanes.lane_counters r)) (map snd (entries (Lanes.reporter_stats r))) r.

Definition diagnostics_for_run (run : option Z) (s : ServerState)
    : list RunSummary * Lanes.TargetIngestDiagnostics :=
  let live := (option_list (active (inner s)), lanes_diagnostics (target_lanes s)) in
  match run with
  | None => live
  | Some run_id =>
      if is_active_run run_id s then live
      else match snapshot_for_run run_id s with
           | Some snapshot => ([], target_ingest (snapshot_archive snapshot))
           | None => ([], Lanes.ingest_diagnostics_default)
           end
  end.

(** ** Snapshots *)

Definition save_aggregator (a : Log.Aggregator) : Log.SavedAggregator :=
  Log.to_saved (entries (Log.thread_names a)) (entries (Log.threads a)) a.

Definition save_observability (o : Obs.ObservabilityStore) : Obs.SavedObservability :=
  Obs.to_saved (entries (Obs.event_kinds o)) (entries (Obs.counter_sets o)) (entries (Obs.contracts o)) o.

(** The locks of the four parts are taken one after the other and all held until
    the archive is built: what is read is the state of one moment. *)
Definition archive_from_query_state (now : Z) (run : RunSummary) : prog SavedRunArchive :=
  reading (fun s =>
    mkSavedRunArchive ARCHIVE_FORMAT_VERSION now [run] (save_aggregator (s_aggregator s))
      (Bin.to_saved (s_binaries s)) (lanes_diagnostics (target_lanes s))
      (save_observability (s_observability s))).

Definition snapshot_from_query_state (now : Z) (run : RunSummary) : prog RunSnapshot :=
  let! a := archive_from_query_state now run in
  Done (mkRunSnapshot run a).

(** The first snapshot of the run is replaced, else the new one is added. *)
Fixpoint upsert (snapshot : RunSnapshot) (h : list RunSnapshot) : list RunSnapshot :=
  match h with
  | [] => [snapshot]
  | existing :: h =>
      if decide (id (summary existing) = id (summary snapshot)) then snapshot :: h
      else existing :: upsert snapshot h
  end.

Definition upsert_history_snapshot (snapshot : RunSnapshot) (i : Inner) : Inner :=
  i <| history ::= upsert snapshot |>.

Definition store_current_query_snapshot (now : Z) (run : RunSummary) : prog unit :=
  let! snapshot := snapshot_from_query_state now run in
  writing (with_inner (fun i => upsert_history_snapshot snapshot i <| selected := Some run |>)).

Definition sweep_stopped_active_into_history (now : Z) : prog (result unit) :=
  let! taken := section (fun s =>
    match active (inner s) with
    | Some a =>
        if decide (state a = Recording) then (s, inr AlreadyActive)
        else (with_inner (fun i => i <| active := None |> <| recording_stop := None |>) s, inl (Some a))
    | None => (s, inl None)
    end) in
  match taken with
  | inr e => Done (inr e)
  | inl None => Done (inl tt)
  | inl (Some run) => let! _ := store_current_query_snapshot now run in Done (inl tt)
  end.

(** [None] is the error: another run is active. *)
Definition begin_run (config_label : string) (sweep_now now : Z) : prog (option Z) :=
  let! swept := sweep_stopped_active_into_history sweep_now in
  match swept with
  | inr _ => Done None
  | inl _ =>
      section (fun s =>
        match active (inner s) with
        | Some _ => (s, None)
        | None =>
            let run_id := next_run_id s in
            let run := mkRunSummary run_id Recording None now None None config_label 0 0 in
            (s <| next_run_id := wadd64 run_id 1 |>
               <| inner ::= fun i => i <| active := Some run |> <| selected := None |>
                                       <| recording_stop := None |> |>
               <| s_aggregator := Log.aggregator_default |>
               <| s_binaries := Bin.new |>
               <| s_observability := Obs.store_default |>
               <| target_lanes := Lanes.registry_default |>
               <| revision ::= fun n => wadd64 n 1 |>, Some run_id)
        end)
  end.

Definition finalize_run (run_id : Z) (reason : StopReason) (now archive_now : Z) : prog unit :=
  let! found := reading (fun s =>
    match active (inner s) with
    | Some a => if decide (id a = run_id) then Some a else None
    | None => None
    end) in
  match found with
  | None => Done tt
  | Some a =>
      let run := a <| state := Stopped |> <| stop_reason := Some reason |>
                   <| stopped_at_unix_ns := Some now |> in
      let! snapshot := snapshot_from_query_state archive_now run in
      writing (fun s =>
        if decide (id <$> active (inner s) = Some run_id) then
          with_inner (fun i => upsert_history_snapshot snapshot i
                                 <| selected := Some run |> <| recording_stop := None |>
                                 <| active := None |>) s
        else s)
  end.

(** ** Opening and selecting stored runs *)

Definition unsupported : RunControlError := Internal "unsupported stax archive version".

Definition restore_archive_to_query_state (a : SavedRunArchive) (run : RunSummary)
    : prog (result RunSummary) :=
  if negb (is_supported_archive_version (format_version a)) then Done (inr unsupported) else
  let! _ := writing (fun s => s <| s_aggregator ::= Log.replace_from_saved (aggregator a) |>) in
  let! _ := writing (fun s => s <| s_binaries ::= Bin.replace_from_saved (binaries a) |>) in
  let! _ := writing (fun s => s <| s_observability ::= Obs.replace_from_saved (observability a) |>) in
  let! _ := writing (fun s => s <| target_lanes :=
              Lanes.restore_saved_diagnostics (target_ingest a) Lanes.registry_default |>) in
  let! _ := writing (with_inner (fun i =>
              upsert_history_snapshot (mkRunSnapshot run a)
                (i <| active := None |> <| recording_stop := None |> <| selected := Some run |>))) in
  let! _ := bump_revision in
  Done (inl run).

(** [compare_exchange] until the counter is at least [next]; the loop ends as
    soon as one section sees the counter it loaded. *)
Definition advance_next_run_id (next : Z) : prog unit :=
  writing (fun s => if decide (next_run_id s < next) then s <| next_run_id := next |> else s).

(** [a] is the archive [read_archive] found. *)
Definition open_saved_archive (a : SavedRunArchive) (now : Z) : prog (result unit) :=
  if negb (is_supported_archive_version (format_version a)) then Done (inr unsupported) else
  match last (runs a) with
  | None => Done (inr (Internal "archive has no run summary"))
  | Some run =>
      let run := run <| state := Stopped |> in
      let run := if stopped_at_unix_ns run is None
                 then run <| stopped_at_unix_ns := Some (saved_at_unix_ns a) |> else run in
      let! swept := sweep_stopped_active_into_history now in
      match swept with
      | inr e => Done (inr e)
      | inl _ =>
          let! restored := restore_archive_to_query_state a run in
          match restored with
          | inr e => Done (inr e)
          | inl _ => let! _ := advance_next_run_id (sadd64 (id run) 1) in Done (inl tt)
          end
      end
  end.

Definition select_run_archive (run_id now : Z) : prog (result RunSummary) :=
  let! swept := sweep_stopped_active_into_history now in
  match swept with
  | inr e => Done (inr e)
  | inl _ =>
      let! snapshot := reading (snapshot_for_run run_id) in
      match snapshot with
      | None => Done (inr (Internal "run is not in stax-server history"))
      | Some snapshot => restore_archive_to_query_state (snapshot_archive snapshot) (summary snapshot)
      end
  end.

(** The archive [save_current] writes. *)
Definition save_current_archive (now : Z) : prog (option SavedRunArchive) :=
  let! run := reading queryable_run_summary in
  match run with
  | None => Done None
  | Some run => let! a := archive_from_query_state now run in Done (Some a)
  end.

(** ** The active run *)

Definition on_active (run_id : Z) (f : RunSummary -> RunSummary) (s : ServerState) : ServerState :=
  match active (inner s) with
  | Some a => if decide (id a = run_id) then with_inner (fun i => i <| active := Some (f a) |>) s else s
  | None => s
  end.

Definition apply_target_attached_in_process (run_id pid task_port : Z) : prog unit :=
  let! applied := section (fun s => (on_active run_id (fun a => a <| target_pid := Some pid |>) s,
                                     is_active_run run_id s)) in
  if negb applied then Done tt else
  let! _ := writing (fun s => s <| s_binaries ::= Bin.set_target pid task_port |>) in
  bump_revision.

Definition note_sample (run_id : Z) : prog unit :=
  writing (on_active run_id (fun a => a <| pet_samples ::= fun n => wadd64 n 1 |>)).

Definition note_off_cpu (run_id : Z) : prog unit :=
  writing (on_active run_id (fun a => a <| off_cpu_intervals ::= fun n => wadd64 n 1 |>)).

(** The recorder makes the flag at address [flag] and hands it over. *)
Definition set_recording_stop_flag (run_id flag : Z) : prog unit :=
  writing (fun s => let s := s <| stop_flags ::= insert flag false |> in
    if is_active_run run_id s then with_inner (fun i => i <| recording_stop := Some flag |>) s else s).

(** The request part of [stop_active]; the caller then polls [stop_poll]. *)
Definition stop_request : prog (result Z) :=
  section (fun s =>
    match active (inner s) with
    | None => (s, inr NoActiveRun)
    | Some a =>
        (match recording_stop (inner s) with
         | Some flag => s <| stop_flags ::= insert flag true |>
         | None => s
         end, inl (id a))
    end).

Definition stop_poll (run_id : Z) (s : ServerState) : option RunSummary :=
  summary <$> snapshot_for_run run_id s.

Definition mark (marker_label : string) : prog (result Log.RunMarker) :=
  let! is_active := reading (fun s => bool_decide (is_Some (active (inner s)))) in
  if negb is_active then Done (inr NoActiveRun) else
  let! timestamp := section (fun s =>
    let '(a, t) := Log.record_marker marker_label (s_aggregator s) in (s <| s_aggregator := a |>, t)) in
  let! _ := bump_revision in
  Done (inl (Log.mkRunMarker timestamp marker_label)).

Definition markers (run : option Z) (s : ServerState) : list Log.RunMarker :=
  Log.markers (l_aggregator (profiler_for_run run s)).

End Operations.

End Server.
