(* ===== verification/Recorder.v ===== *)
(** * The server's live sink

    [stax-server/src/recorder.rs]: [ServerLiveSink] records the events of the
    capture side straight into the server's aggregator and binary registry, and
    counts them on the run they belong to. *)

From S2P Require Import Prelude Text StackTree Aggregator Binaries Archive Server Sink.

Module Recorder.

Import Server.

#[export] Existing Instances eta_ServerState eta_Inner.

(** A [String] from its characters: its UTF-8 bytes. *)
Definition string_of (s : list Z) : string :=
  String.string_of_list_ascii (map (fun b => Ascii.ascii_of_N (Z.to_N b)) (Text.as_bytes s)).

Definition on_aggregator (f : Archive.Log.Aggregator -> Archive.Log.Aggregator) : prog unit :=
  writing (fun s => s <| s_aggregator ::= f |>).

Definition live_symbol (s : Sink.MachOSymbol) : Archive.Bin.LiveSymbolOwned :=
  Archive.Bin.mkLiveSymbolOwned (Sink.start_svma s) (Sink.end_svma s) (Sink.sym_name s).

Definition loaded_binary (e : LiveSink.LiveBinaryLoadedEvent) : Archive.Bin.LoadedBinary :=
  Archive.Bin.mkLoadedBinary (LiveSink.ll_path e) (LiveSink.ll_base_avma e)
    (sadd64 (LiveSink.ll_base_avma e) (LiveSink.ll_vmsize e)) (LiveSink.ll_text_svma e)
    (LiveSink.ll_arch e) (LiveSink.ll_is_executable e) (map live_symbol (LiveSink.ll_symbols e))
    (LiveSink.ll_text_bytes e).

Definition sample_pmu (e : LiveSink.LiveSampleEvent) : StackTree.PmuSample :=
  StackTree.mkPmuSample (LiveSink.ls_cycles e) (LiveSink.ls_instructions e) (LiveSink.ls_l1d_misses e)
    (LiveSink.ls_branch_mispreds e).

Definition on_sample (run_id : Z) (e : LiveSink.LiveSampleEvent) : prog unit :=
  let! _ := note_sample run_id in
  let! _ := on_aggregator (Archive.Log.record_pet_sample (LiveSink.ls_tid e) (LiveSink.ls_timestamp e)
              (LiveSink.ls_user_backtrace e) (LiveSink.ls_kernel_backtrace e) (sample_pmu e)) in
  bump_revision.

Definition on_binary_loaded (e : LiveSink.LiveBinaryLoadedEvent) : prog unit :=
  let! _ := writing (fun s => s <| s_binaries ::= Archive.Bin.insert (loaded_binary e) |>) in
  bump_revision.

Definition on_kallsyms (data : list Z) : prog unit :=
  let! _ := writing (fun s => s <| s_binaries ::= Archive.Bin.set_kallsyms data |>) in
  bump_revision.

Definition on_thread_name (e : Sink.ThreadNameEvent) : prog unit :=
  let! _ := on_aggregator (Archive.Log.set_thread_name (Sink.tn_tid e) (string_of (Sink.tn_name e))) in
  bump_revision.

Definition on_wakeup (e : Sink.WakeupEvent) : prog unit :=
  let! _ := on_aggregator (Archive.Log.record_wakeup (Sink.we_timestamp_ns e) (Sink.we_waker_tid e)
              (Sink.we_wakee_tid e) (Sink.we_waker_user_stack e) (Sink.we_waker_kernel_stack e)) in
  bump_revision.

Definition on_cpu_interval (run_id : Z) (e : Sink.CpuIntervalEvent) : prog unit :=
  let! kind := match Sink.ci_kind e with
               | Sink.OnCpu => Done Archive.Log.OnCpu
               | Sink.OffCpu stack waker_tid waker_user_stack =>
                   let! _ := note_off_cpu run_id in
                   Done (Archive.Log.OffCpu stack waker_tid waker_user_stack)
               end in
  let! _ := on_aggregator (Archive.Log.record_interval (Sink.ci_tid e) (Sink.ci_start_ns e)
              (Sink.ci_end_ns e) kind) in
  bump_revision.

(** One call of the trait; the byte source only serves disassembly. *)
Definition handle (run_id : Z) (c : LiveSink.live_call) : prog unit :=
  match c with
  | LiveSink.live_sample e => on_sample run_id e
  | LiveSink.live_target_attached pid task_port =>
      apply_target_attached_in_process run_id pid task_port
  | LiveSink.live_binary_loaded e => on_binary_loaded e
  | LiveSink.live_binary_unloaded _ _ => bump_revision
  | LiveSink.live_thread_name e => on_thread_name e
  | LiveSink.live_wakeup e => on_wakeup e
  | LiveSink.live_cpu_interval e => on_cpu_interval run_id e
  | LiveSink.live_kallsyms data => on_kallsyms data
  | LiveSink.live_macho_byte_source => Done tt
  end.

Fixpoint handle_all (run_id : Z) (calls : list LiveSink.live_call) : prog unit :=
  match calls with
  | [] => Done tt
  | c :: calls => let! _ := handle run_id c in handle_all run_id calls
  end.

End Recorder.
