(* ===== verification/TargetIngest.v ===== *)
(** * Target ingest

    [stax-server/src/target_ingest.rs], the service: the spans and signals an
    instrumented target reports become a synthetic thread, synthetic symbols and
    synthetic intervals of the active run. *)

From S2P Require Import Prelude StackTree Aggregator Binaries Observability Lanes Archive Server.

Module TargetIngest.

Import Lanes Server.

#[export] Existing Instances eta_ServerState eta_Inner.

Record TargetSpanOrigin := mkTargetSpanOrigin { origin_tid : Z; origin_timestamp_ns : Z }.

Record TargetSpan := mkTargetSpan {
  span_name : string; span_start_ns : Z; span_end_ns : Z; span_origin : option TargetSpanOrigin;
  span_dispatch_id : option Z; span_shader_id : option Z; span_source_id : option Z;
  span_wait_origin : option TargetSpanOrigin; span_completion_origin : option TargetSpanOrigin;
  span_attachment_ids : list Z; span_counter_sample_ids : list Z
}.

#[export] Instance eta_TargetSpan : Eta TargetSpan := fun s =>
  mkTargetSpan (span_name s) (span_start_ns s) (span_end_ns s) (span_origin s) (span_dispatch_id s)
    (span_shader_id s) (span_source_id s) (span_wait_origin s) (span_completion_origin s)
    (span_attachment_ids s) (span_counter_sample_ids s).

(** [TargetSpan::new] *)
Definition span_new (name : string) (start_ns end_ns : Z) : TargetSpan :=
  mkTargetSpan name start_ns end_ns None None None None None None [] [].

(** Of the records of a batch only the numbers are read. *)
Record TargetRecordBatch := mkTargetRecordBatch {
  rb_runtimes : nat; rb_lanes : nat; rb_queues : nat; rb_command_buffers : nat;
  rb_dispatches : nat; rb_shaders : nat; rb_sources : nat; rb_attachments : nat
}.

Record TargetSpanBatch := mkTargetSpanBatch {
  sb_pid : Z; sb_lane : string; sb_lane_kind : StackTree.TargetLaneKind;
  spans : list TargetSpan; records : TargetRecordBatch
}.

Definition records_empty (r : TargetRecordBatch) : bool :=
  bool_decide (rb_runtimes r = 0 /\ rb_lanes r = 0 /\ rb_queues r = 0 /\ rb_command_buffers r = 0 /\
               rb_dispatches r = 0 /\ rb_shaders r = 0 /\ rb_sources r = 0 /\ rb_attachments r = 0)%nat.

Record SpanEvent := mkSpanEvent {
  ev_start_ns : Z; ev_end_ns : Z; span_addr : Z; origin : option TargetSpanOrigin
}.

(** What the walk over the events counts. *)
Record link_state := mkLinkState {
  lk_aggregator : Archive.Log.Aggregator;
  lk_duration_ns : Z;
  linked_origins : Z;
  links : OriginLinkCounters
}.

#[export] Instance eta_link_state : Eta link_state := fun l =>
  mkLinkState (lk_aggregator l) (lk_duration_ns l) (linked_origins l) (links l).

(** The stack sampled nearest to a span's origin, and how it was found. *)
Definition link_origin (o : TargetSpanOrigin) (a : Archive.Log.Aggregator) (c : OriginLinkCounters)
    : option (list Z) * OriginLinkCounters :=
  if decide (SYNTH_TID_BASE <= origin_tid o) then
    (None, c <| invalid_tid ::= fun n => sadd64 n 1 |>)
  else match Archive.Log.nearest_pet_stack_with_distance (origin_tid o) (origin_timestamp_ns o)
               ORIGIN_STACK_MAX_DISTANCE_NS a with
  | inl nearest =>
      (Some (Archive.Log.np_stack nearest),
       c <| linked_distance ::= distance_record (Archive.Log.distance_ns nearest) |>)
  | inr Archive.Log.NoThread => (None, c <| no_thread ::= fun n => sadd64 n 1 |>)
  | inr Archive.Log.NoUserStack => (None, c <| no_stack ::= fun n => sadd64 n 1 |>)
  | inr (Archive.Log.TooFar distance _) =>
      (None, c <| too_far ::= fun n => sadd64 n 1 |> <| too_far_distance ::= distance_record distance |>)
  end.

Definition record_event (tid lane_addr : Z) (lane_kind : StackTree.TargetLaneKind) (l : link_state)
    (e : SpanEvent) : link_state :=
  let otid := o ← origin e; if decide (origin_tid o < SYNTH_TID_BASE) then Some (origin_tid o) else None in
  let '(origin_stack, c) :=
    match origin e with
    | Some o => link_origin o (lk_aggregator l) (links l)
    | None => (None, links l)
    end in
  let stack := span_addr e :: lane_addr :: default [] origin_stack in
  let a := Archive.Log.record_pet_sample tid (ev_start_ns e) stack [] (StackTree.mkPmuSample 0 0 0 0)
             (lk_aggregator l) in
  let a := Archive.Log.record_interval tid (ev_start_ns e) (ev_end_ns e)
             (Archive.Log.SyntheticSpan stack otid lane_kind) a in
  mkLinkState a (sadd64 (lk_duration_ns l) (ev_end_ns e - ev_start_ns e))
    (match origin_stack with Some _ => linked_origins l + 1 | None => linked_origins l end) c.

Section Service.
Context `{Order : MapOrder}.

(** The name is set again on every batch. *)
Definition lane_tid (pid : Z) (lane : string) : prog Z :=
  let! tid := section (fun s => let '(r, tid) := alloc_tid pid lane (target_lanes s) in
                                (s <| target_lanes := r |>, tid)) in
  let! _ := writing (fun s => s <| s_aggregator ::= Archive.Log.set_thread_name tid lane |>) in
  Done tid.

Definition synthetic_symbol (e : SyntheticSymbolKey * Z) : Archive.Bin.LiveSymbolOwned :=
  Archive.Bin.mkLiveSymbolOwned (e.2 - SYNTH_BINARY_BASE_AVMA)
    (e.2 - SYNTH_BINARY_BASE_AVMA + SYNTH_SYMBOL_STRIDE) (str (display_name e.1)).

Definition synthetic_binary (syms : list Archive.Bin.LiveSymbolOwned) (count : nat)
    : Archive.Bin.LoadedBinary :=
  Archive.Bin.mkLoadedBinary (str "<target spans>") SYNTH_BINARY_BASE_AVMA
    (wadd64 SYNTH_BINARY_BASE_AVMA (as_u64 (Z.of_nat count * SYNTH_SYMBOL_STRIDE))) 0 None false syms None.

(** Under the registry's lock: the address, and the binary to publish when the
    name is new. *)
Definition alloc_symbol (key : SyntheticSymbolKey) (r : TargetLaneRegistry)
    : TargetLaneRegistry * (Z * option Archive.Bin.LoadedBinary) :=
  match symbol_addrs r !! key with
  | Some addr => (r, (addr, None))
  | None =>
      let index := Z.of_nat (size (symbol_addrs r)) in
      let addr := wadd64 SYNTH_BINARY_BASE_AVMA (as_u64 (index * SYNTH_SYMBOL_STRIDE)) in
      let r := r <| symbol_addrs ::= insert key addr |> in
      let syms := sort_by (fun a b => bool_decide (Archive.Bin.start_svma a <= Archive.Bin.start_svma b))
                    (map synthetic_symbol (entries (symbol_addrs r))) in
      (r, (addr, Some (synthetic_binary syms (size (symbol_addrs r)))))
  end.

(** The lock is released before the binary is published. *)
Definition symbol_addr (key : SyntheticSymbolKey) : prog Z :=
  let! (addr, republish) := section (fun s =>
    let '(r, res) := alloc_symbol key (target_lanes s) in (s <| target_lanes := r |>, res)) in
  match republish with
  | None => Done addr
  | Some b => let! _ := writing (fun s => s <| s_binaries ::= Archive.Bin.insert b |>) in Done addr
  end.

Fixpoint collect_events (l : list TargetSpan) : prog (list SpanEvent) :=
  match l with
  | [] => Done []
  | span :: l =>
      if decide (span_end_ns span <= span_start_ns span) then collect_events l else
      let! addr := symbol_addr (Span (span_name span)) in
      let! rest := collect_events l in
      Done (mkSpanEvent (span_start_ns span) (span_end_ns span) addr (span_origin span) :: rest)
  end.

Definition sort_events (l : list SpanEvent) : list SpanEvent :=
  sort_by (fun a b => Archive.Obs.pair_le (ev_start_ns a, ev_end_ns a) (ev_start_ns b, ev_end_ns b)) l.

Definition batch_counters (b : TargetSpanBatch) (events : list SpanEvent) (l : link_state)
    : TargetBatchCounters :=
  let received := Z.of_nat (length (spans b)) in
  let recorded := Z.of_nat (length events) in
  let r := records b in
  mkTargetBatchCounters received
    (Z.of_nat (rb_runtimes r + rb_lanes r + rb_queues r + rb_command_buffers r + rb_dispatches r +
               rb_sources r + rb_shaders r + rb_attachments r))
    (Z.of_nat (rb_dispatches r)) (Z.of_nat (rb_sources r)) (Z.of_nat (rb_shaders r))
    (Z.of_nat (rb_attachments r)) 0 0 recorded (ssub received recorded)
    (Z.of_nat (length (filter (fun e => is_Some (origin e)) events)))
    (linked_origins l) (links l) (lk_duration_ns l).

(** All events are recorded under one lock of the aggregator. *)
Definition record_events (tid lane_addr : Z) (lane_kind : StackTree.TargetLaneKind)
    (events : list SpanEvent) : prog link_state :=
  section (fun s =>
    let l := foldl (record_event tid lane_addr lane_kind) (mkLinkState (s_aggregator s) 0 0 origin_default)
               events in
    (if decide (events = []) then s else s <| s_aggregator := lk_aggregator l |>, l)).

Definition on_lanes (f : TargetLaneRegistry -> TargetLaneRegistry) : prog unit :=
  writing (fun s => s <| target_lanes ::= f |>).

Definition ingest (b : TargetSpanBatch) : prog unit :=
  if bool_decide (spans b = []) && records_empty (records b) then Done tt else
  let received := Z.of_nat (length (spans b)) in
  let! active_pid := reading active_target_pid in
  match active_pid with
  | None => on_lanes (record_dropped_no_active_run received)
  | Some pid =>
      if decide (pid <> sb_pid b) then on_lanes (record_dropped_wrong_pid received) else
      let! tid := lane_tid (sb_pid b) (sb_lane b) in
      let! lane_addr := symbol_addr (Lane (sb_lane b)) in
      let! events := collect_events (spans b) in
      let events := sort_events events in
      let! l := record_events tid lane_addr (sb_lane_kind b) events in
      let! _ := on_lanes (record_batch (sb_pid b) (sb_lane b) (batch_counters b events l)) in
      if decide (events = []) then Done tt else bump_revision
  end.

Definition signal_count (b : Archive.Obs.TargetSignalBatch) : Z :=
  Z.of_nat (length (Archive.Obs.b_event_kinds b) + length (Archive.Obs.b_events b) +
            length (Archive.Obs.b_counter_sets b) + length (Archive.Obs.b_counter_samples b) +
            length (Archive.Obs.b_contracts b)).

Definition on_observability (f : Archive.Obs.ObservabilityStore -> Archive.Obs.ObservabilityStore)
    : prog unit :=
  writing (fun s => s <| s_observability ::= f |>).

(** The store stays locked while the bounds are noted. *)
Definition ingest_signals (b : Archive.Obs.TargetSignalBatch) : prog unit :=
  if Archive.Obs.batch_is_empty b then Done tt else
  let! active_pid := reading active_target_pid in
  match active_pid with
  | None => on_observability (Archive.Obs.record_dropped_no_active_run (signal_count b))
  | Some pid =>
      if decide (pid <> Archive.Obs.b_pid b)
      then on_observability (Archive.Obs.record_dropped_wrong_pid (signal_count b)) else
      let! (start, last) := reading (fun s => (Archive.Log.session_start_ns (s_aggregator s),
                                                Archive.Log.last_event_ns (s_aggregator s))) in
      let! _ := writing (fun s =>
        let '(o, bounds) := Archive.Obs.ingest b start last (s_observability s) in
        s <| s_observability := o |>
          <| s_aggregator ::= fun a =>
               match bounds with
               | Some (start_ns, end_ns) => Archive.Log.note_external_timestamp_range start_ns end_ns a
               | None => a
               end |>) in
      bump_revision
  end.

Definition service_reporter_stats (stats : TargetReporterStats) : prog unit :=
  let! active_pid := reading active_target_pid in
  if decide (active_pid <> Some (rs_pid stats)) then Done tt
  else on_lanes (record_reporter_stats stats).

Definition should_report (pid : Z) (s : ServerState) : bool :=
  bool_decide (active_target_pid s = Some pid).

End Service.

End TargetIngest.
