(* ===== verification/Spans.v ===== *)
(** * Reported spans

    What [TargetIngest] does with a batch for the active target, its sections
    run without interruption: addresses and names of lanes and spans, the
    samples and intervals of the lane's thread, and the accounting of origins. *)

From S2P Require Import Prelude Demangle StackTree Aggregator Binaries Observability Lanes Archive Server.
From S2P Require Import Prog TargetIngest.

Module Spans.

Import Lanes Server TargetIngest.

#[export] Existing Instances eta_ServerState eta_Inner eta_TargetLaneRegistry eta_link_state
  eta_OriginLinkCounters Archive.Bin.eta_LoadedBinary
  Archive.Log.eta_ThreadStats Archive.Log.eta_Aggregator.

Section Spans.
Context `{Order : MapOrder}.

(** ** Names *)

Definition symbols_of (order : list SyntheticSymbolKey) : list Archive.Bin.LiveSymbolOwned :=
  imap (fun i key => synthetic_symbol (key, SYNTH_BINARY_BASE_AVMA + SYNTH_SYMBOL_STRIDE * Z.of_nat i)) order.

(** There is room for [n] more names. *)
Definition room (order : list SyntheticSymbolKey) (n : nat) : Prop :=
  SYNTH_BINARY_BASE_AVMA + SYNTH_SYMBOL_STRIDE * Z.of_nat (length order + n) < 2 ^ 64.

(** Slots and thread ids were handed out in [order] and [lanes], and the binary
    registry has the binary that names all slots. *)
Record published (s : ServerState) (order : list SyntheticSymbolKey) (lanes : list (Z * string)) : Prop := {
  slots : layout SYNTH_BINARY_BASE_AVMA SYNTH_SYMBOL_STRIDE order (symbol_addrs (target_lanes s));
  tids : layout SYNTH_TID_BASE 1 lanes (lane_tids (target_lanes s));
  registry : Archive.Bin.registry_ok (s_binaries s);
  names : order <> [] ->
    synthetic_binary (symbols_of order) (length order) ∈ Archive.Bin.by_base (s_binaries s);
  fits : room order 0
}.

(** Only names are added. *)
Definition names_only (s s' : ServerState) : Prop :=
  exists addrs bins,
    s' = s <| target_lanes ::= fun r => r <| symbol_addrs := addrs |> |> <| s_binaries := bins |> /\
    symbol_addrs (target_lanes s) ⊆ addrs.

#[local] Instance names_only_preorder : PreOrder names_only.
Proof.
  split.
  - intros s. exists (symbol_addrs (target_lanes s)), (s_binaries s). by destruct s as [? ? ? ? ? ? [] ?].
  - intros s1 s2 s3 (a1 & b1 & -> & H1) (a2 & b2 & -> & H2). exists a2, b2. split; [done|]. by trans a1.
Qed.

(** In order and apart. *)
Definition before (x y : Archive.Bin.LiveSymbolOwned) : Prop :=
  Archive.Bin.start_svma x < Archive.Bin.start_svma y /\ Archive.Bin.end_svma x <= Archive.Bin.start_svma y.

Lemma symbols_of_sorted order : StronglySorted before (symbols_of order).
Proof.
  unfold symbols_of. enough (forall k, StronglySorted before
    (imap (fun i key => synthetic_symbol
       (key, SYNTH_BINARY_BASE_AVMA + SYNTH_SYMBOL_STRIDE * Z.of_nat (k + i))) order)) as H by apply (H 0%nat).
  induction order as [|key order IH]; intros k; [constructor|]. rewrite imap_cons. constructor.
  - erewrite imap_ext; [apply (IH (S k))|]. intros i x _. unfold compose. do 4 f_equal. lia.
  - apply Forall_forall. intros x (i & y & -> & _)%elem_of_lookup_imap. unfold compose, SYNTH_SYMBOL_STRIDE.
    unfold before, synthetic_symbol. cbn [Archive.Bin.start_svma Archive.Bin.end_svma snd].
    unfold SYNTH_SYMBOL_STRIDE. lia.
Qed.

Lemma sorted_entries order m :
  layout SYNTH_BINARY_BASE_AVMA SYNTH_SYMBOL_STRIDE order m ->
  sort_by (fun a b => bool_decide (Archive.Bin.start_svma a <= Archive.Bin.start_svma b))
    (map synthetic_symbol (entries m)) = symbols_of order.
Proof.
  intros Hl. set (le := fun a b : Archive.Bin.LiveSymbolOwned =>
    bool_decide (Archive.Bin.start_svma a <= Archive.Bin.start_svma b)).
  assert (map synthetic_symbol (entries m) ≡ₚ symbols_of order) as Hp.
  { rewrite entries_perm, (layout_entries _ _ _ _ Hl). unfold symbols_of.
    replace (map _ (imap _ order)) with (symbols_of order); [done|].
    apply list_eq. intros i. unfold symbols_of. rewrite list_lookup_fmap, !list_lookup_imap.
    by destruct (order !! i). }
  assert (StronglySorted (fun a b => le a b = true) (symbols_of order)) as Hs.
  { eapply StronglySorted_weaken; [|apply symbols_of_sorted]. intros x y Hxy. apply bool_decide_eq_true. destruct Hxy. lia. }
  rewrite <- (sort_by_id le (symbols_of order) Hs). apply sort_by_unique; [unfold le..|done].
  - intros x y. rewrite bool_decide_eq_false, bool_decide_eq_true. lia.
  - intros x y z. rewrite !bool_decide_eq_true. lia.
  - intros x y. rewrite Hp, !bool_decide_eq_true. intros (i & k & -> & Hi)%elem_of_lookup_imap
      (j & k' & -> & Hj)%elem_of_lookup_imap. unfold synthetic_symbol, SYNTH_SYMBOL_STRIDE.
    cbn [Archive.Bin.start_svma snd]. intros. assert (i = j) as -> by lia. by simplify_eq.
Qed.


Lemma synthetic_binary_sorted syms count :
  StronglySorted before syms ->
  (synthetic_binary syms count) <| Archive.Bin.symbols ::= Archive.Bin.sort_symbols |> =
  synthetic_binary syms count.
Proof.
  intros Hs. unfold synthetic_binary. unfold field_update. cbn. f_equal. apply sort_by_id.
  eapply StronglySorted_weaken; [|exact Hs]. intros x y [Hxy _].
  apply bool_decide_eq_true. lia.
Qed.

(** A name gets its slot once; a new one is published with all others. *)
Lemma symbol_addr_exec key s order lanes :
  published s order lanes -> room order 1 ->
  exists s' addr order',
    exec (symbol_addr key) s = (s', addr) /\ published s' order' lanes /\ names_only s s' /\
    symbol_addrs (target_lanes s') !! key = Some addr /\
    (length order' <= length order + 1)%nat /\ order `prefix_of` order'.
Proof.
  intros [Hs Ht Hr Hn Hfit] Hroom. unfold symbol_addr. rewrite exec_bind, exec_section. unfold alloc_symbol.
  destruct (symbol_addrs (target_lanes s) !! key) as [addr|] eqn:Hk.
  - exists s, addr, order. split; [by destruct s|]. by split_and!; [split| |..|lia|].
  - rewrite (layout_size _ _ _ _ Hs).
    set (addr := wadd64 _ _).
    assert (addr = SYNTH_BINARY_BASE_AVMA + SYNTH_SYMBOL_STRIDE * Z.of_nat (length order)) as Haddr.
    { subst addr. unfold room, SYNTH_BINARY_BASE_AVMA, SYNTH_SYMBOL_STRIDE in *.
      rewrite as_u64_small by (width; lia). rewrite wadd64_small by lia. lia. }
    pose proof (layout_extend _ _ _ _ key Hs Hk) as Hs'. rewrite <- Haddr in Hs'.
    cbn [fst snd symbol_addrs field_update]. rewrite (sorted_entries _ _ Hs').
    rewrite (layout_size _ _ _ _ Hs'). set (b := synthetic_binary _ _).
    exists (s <| target_lanes ::= fun r => r <| symbol_addrs := <[key:=addr]> (symbol_addrs (target_lanes s)) |> |>
              <| s_binaries := Archive.Bin.insert b (s_binaries s) |>), addr, (order ++ [key]).
    split_and!; [done|split|..].
    + exact Hs'.
    + exact Ht.
    + by apply Archive.Bin.insert_ok.
    + intros _. cbn [s_binaries field_update]. rewrite Archive.Bin.insert_by_base. subst b.
      rewrite synthetic_binary_sorted by apply symbols_of_sorted. set_solver.
    + revert Hroom. unfold room. rewrite length_app. cbn [length]. unfold SYNTH_SYMBOL_STRIDE. lia.
    + eexists _, _. split; [done|]. by apply insert_subseteq.
    + apply lookup_insert_eq.
    + rewrite length_app. cbn. lia.
    + by exists [key].
Qed.

(** The spans that are kept, and the event each becomes. *)
Definition valid_spans (l : list TargetSpan) : list TargetSpan :=
  filter (fun span => span_start_ns span < span_end_ns span) l.

Definition event_of (addrs : gmap SyntheticSymbolKey Z) (span : TargetSpan) : SpanEvent :=
  mkSpanEvent (span_start_ns span) (span_end_ns span) (default 0 (addrs !! Span (span_name span)))
    (span_origin span).

Lemma names_only_addrs s s' :
  names_only s s' -> symbol_addrs (target_lanes s) ⊆ symbol_addrs (target_lanes s').
Proof. by intros (addrs & bins & -> & Hsub). Qed.

Lemma collect_events_exec l s order lanes :
  published s order lanes -> room order (length l) ->
  exists s' order',
    exec (collect_events l) s = (s', map (event_of (symbol_addrs (target_lanes s'))) (valid_spans l)) /\
    published s' order' lanes /\ names_only s s' /\ order `prefix_of` order' /\
    Forall (fun span => is_Some (symbol_addrs (target_lanes s') !! Span (span_name span))) (valid_spans l).
Proof.
  revert s order. induction l as [|span l IH]; intros s order Hp Hroom.
  { exists s, order. by split_and!. }
  unfold valid_spans. rewrite filter_cons. cbn [collect_events]. fold (valid_spans l).
  case_decide as Hbad; [rewrite decide_False by lia|rewrite decide_True by lia].
  { apply IH; [done|]. revert Hroom. unfold room. cbn [length]. unfold SYNTH_SYMBOL_STRIDE. lia. }
  rewrite exec_bind. destruct (symbol_addr_exec (Span (span_name span)) s order lanes Hp)
    as (s1 & addr & order1 & -> & Hp1 & Hn1 & Ha1 & Hlen1 & Hpre1).
  { revert Hroom. unfold room. cbn [length]. unfold SYNTH_SYMBOL_STRIDE. lia. }
  cbn [fst snd]. rewrite exec_bind. destruct (IH s1 order1 Hp1)
    as (s2 & order2 & -> & Hp2 & Hn2 & Hpre2 & Hall).
  { revert Hroom. unfold room. cbn [length]. unfold SYNTH_SYMBOL_STRIDE. lia. }
  cbn [fst snd exec]. pose proof (lookup_weaken _ _ _ _ Ha1 (names_only_addrs _ _ Hn2)) as Ha2.
  exists s2, order2. split_and!; [|done|by trans s1|by trans order1|constructor; [by eexists|done]].
  cbn [map]. unfold event_of at 2. by rewrite Ha2.
Qed.

(** A lane gets its thread id once, and its name with every batch. *)
Lemma lane_tid_exec pid lane s order lanes :
  published s order lanes -> SYNTH_TID_BASE + Z.of_nat (length lanes) < 2 ^ 32 ->
  exists m tid lanes',
    exec (lane_tid pid lane) s =
      (s <| target_lanes ::= fun r => r <| lane_tids := m |> |>
         <| s_aggregator ::= Archive.Log.set_thread_name tid lane |>, tid) /\
    published (exec (lane_tid pid lane) s).1 order lanes' /\ lane_tids (target_lanes s) ⊆ m /\
    m !! (pid, lane) = Some tid /\ SYNTH_TID_BASE <= tid < 2 ^ 32 /\ lanes `prefix_of` lanes'.
Proof.
  intros [Hs Ht Hr Hn Hfit] Hroom. unfold lane_tid. rewrite exec_bind, exec_section. unfold alloc_tid.
  destruct (lane_tids (target_lanes s) !! (pid, lane)) as [tid|] eqn:Hk.
  - exists (lane_tids (target_lanes s)), tid, lanes. cbn.
    assert (exists i, lanes !! i = Some (pid, lane) /\ tid = SYNTH_TID_BASE + 1 * Z.of_nat i) as (i & Hi & Htid)
      by (by apply Ht). apply lookup_lt_Some in Hi.
    split_and!; [by destruct s as [? ? ? ? ? ? [] ?]|by split|done|done|lia|lia|done].
  - rewrite (layout_size _ _ _ _ Ht). set (tid := as_u32 _).
    assert (tid = SYNTH_TID_BASE + 1 * Z.of_nat (length lanes)) as Htid.
    { subst tid. unfold SYNTH_TID_BASE in *. rewrite (as_u32_small (Z.of_nat _)) by (width; lia).
      rewrite as_u32_small by (width; lia). lia. }
    pose proof (layout_extend _ _ _ _ _ Ht Hk) as Ht'. rewrite <- Htid in Ht'.
    exists (<[(pid, lane) := tid]> (lane_tids (target_lanes s))), tid, (lanes ++ [(pid, lane)]). cbn.
    split_and!; [done|by split|by apply insert_subseteq|apply lookup_insert_eq|..|by eexists];
      unfold SYNTH_TID_BASE in *; lia.
Qed.

(** ** Events *)

(** The sampled stack nearest to the origin of an event, or why there is none:
    the origin's thread is itself synthetic, or the aggregator has nothing. *)
Definition link_of (a : Archive.Log.Aggregator) (e : SpanEvent)
    : option (Archive.Log.NearestPetStack + option Archive.Log.NearestPetStackError) :=
  o ← origin e;
  Some (if decide (SYNTH_TID_BASE <= origin_tid o) then inr None else
        match Archive.Log.nearest_pet_stack_with_distance (origin_tid o) (origin_timestamp_ns o)
                ORIGIN_STACK_MAX_DISTANCE_NS a with
        | inl nearest => inl nearest
        | inr e => inr (Some e)
        end).

Definition event_stack (a : Archive.Log.Aggregator) (lane_addr : Z) (e : SpanEvent) : list Z :=
  span_addr e :: lane_addr ::
  match link_of a e with Some (inl nearest) => Archive.Log.np_stack nearest | _ => [] end.

Definition event_sample (a : Archive.Log.Aggregator) (lane_addr : Z) (e : SpanEvent) : Archive.Log.PetSample :=
  Archive.Log.mkPetSample (ev_start_ns e) (event_stack a lane_addr e) [] (StackTree.mkPmuSample 0 0 0 0).

Definition event_interval (a : Archive.Log.Aggregator) (lane_addr : Z) (kind : StackTree.TargetLaneKind)
    (e : SpanEvent) : Archive.Log.RawInterval :=
  Archive.Log.mkRawInterval (ev_start_ns e) (ev_end_ns e)
    (Archive.Log.SyntheticSpan (event_stack a lane_addr e)
       (o ← origin e; if decide (origin_tid o < SYNTH_TID_BASE) then Some (origin_tid o) else None) kind).

Definition linked_distance_of (l : Archive.Log.NearestPetStack + option Archive.Log.NearestPetStackError) :=
  match l with inl nearest => Some (Archive.Log.distance_ns nearest) | _ => None end.
Definition invalid_tid_of (l : Archive.Log.NearestPetStack + option Archive.Log.NearestPetStackError) :=
  match l with inr None => Some tt | _ => None end.
Definition no_thread_of (l : Archive.Log.NearestPetStack + option Archive.Log.NearestPetStackError) :=
  match l with inr (Some Archive.Log.NoThread) => Some tt | _ => None end.
Definition no_stack_of (l : Archive.Log.NearestPetStack + option Archive.Log.NearestPetStackError) :=
  match l with inr (Some Archive.Log.NoUserStack) => Some tt | _ => None end.
Definition far_distance_of (l : Archive.Log.NearestPetStack + option Archive.Log.NearestPetStackError) :=
  match l with inr (Some (Archive.Log.TooFar distance _)) => Some distance | _ => None end.

(** What [f] selects of the links of some events. *)
Definition links_of {B} (f : Archive.Log.NearestPetStack + option Archive.Log.NearestPetStackError -> option B)
    (a : Archive.Log.Aggregator) (events : list SpanEvent) : list B :=
  omap (fun e => link_of a e ≫= f) events.

Definition count_of {B} (l : list B) : Z := Z.of_nat (length l).

(** Several events pushed on a bounded log. *)
Definition push_all {A} (q l : list A) : list A :=
  foldl (fun q x => push_bounded Archive.Log.MAX_EVENTS_PER_THREAD x q) q l.

(** The numbers of a batch: how the origins of its events were linked. *)
Record counted (a : Archive.Log.Aggregator) (events : list SpanEvent) (l : link_state) : Prop := {
  count_linked : linked_origins l = count_of (links_of linked_distance_of a events);
  count_invalid : invalid_tid (links l) = count_of (links_of invalid_tid_of a events);
  count_no_thread : no_thread (links l) = count_of (links_of no_thread_of a events);
  count_no_stack : no_stack (links l) = count_of (links_of no_stack_of a events);
  count_far : too_far (links l) = count_of (links_of far_distance_of a events);
  linked_distances : linked_distance (links l) = distances (links_of linked_distance_of a events);
  far_distances : too_far_distance (links l) = distances (links_of far_distance_of a events);
  duration : lk_duration_ns l = sat_sum (fun e => ev_end_ns e - ev_start_ns e) events
}.

(** What the events leave in the aggregator. *)
Record recorded (tid lane_addr : Z) (kind : StackTree.TargetLaneKind) (a : Archive.Log.Aggregator)
    (events : list SpanEvent) (a' : Archive.Log.Aggregator) : Prop := {
  lane_samples : Archive.Log.samples (Archive.Log.thread_log tid a') =
    push_all (Archive.Log.samples (Archive.Log.thread_log tid a)) (map (event_sample a lane_addr) events);
  lane_intervals : Archive.Log.intervals (Archive.Log.thread_log tid a') =
    push_all (Archive.Log.intervals (Archive.Log.thread_log tid a)) (map (event_interval a lane_addr kind) events);
  lane_wakeups : Archive.Log.wakeups (Archive.Log.thread_log tid a') = Archive.Log.wakeups (Archive.Log.thread_log tid a);
  other_threads : forall t, t <> tid -> Archive.Log.threads a' !! t = Archive.Log.threads a !! t;
  same_names : Archive.Log.thread_names a' = Archive.Log.thread_names a;
  same_markers : Archive.Log.markers a' = Archive.Log.markers a
}.

Lemma links_of_app {B} (f : _ -> option B) a l1 l2 :
  links_of f a (l1 ++ l2) = links_of f a l1 ++ links_of f a l2.
Proof. apply omap_app. Qed.

(** Recording on a synthetic thread moves no link. *)
Lemma link_of_frame tid a a' e :
  SYNTH_TID_BASE <= tid ->
  (forall t, t <> tid -> Archive.Log.threads a' !! t = Archive.Log.threads a !! t) ->
  link_of a' e = link_of a e.
Proof.
  intros Ht Ho. unfold link_of. destruct (origin e) as [o|]; [|done]. cbn. case_decide; [done|].
  unfold Archive.Log.nearest_pet_stack_with_distance. by rewrite Ho by lia.
Qed.

(** The aggregator's threads, names and markers: its log without the bounds of
    the session. *)
Definition same_log (a a' : Archive.Log.Aggregator) : Prop :=
  Archive.Log.threads a' = Archive.Log.threads a /\
  Archive.Log.thread_names a' = Archive.Log.thread_names a /\
  Archive.Log.markers a' = Archive.Log.markers a.

Lemma note_timestamp_log ts a : same_log a (Archive.Log.note_timestamp ts a).
Proof. unfold same_log, Archive.Log.note_timestamp. by repeat case_match. Qed.

Lemma record_event_aggregator tid lane_addr kind l e :
  let a := lk_aggregator l in
  lk_aggregator (record_event tid lane_addr kind l e) =
  Archive.Log.record_interval tid (ev_start_ns e) (ev_end_ns e)
    (Archive.Log.kind (event_interval a lane_addr kind e))
    (Archive.Log.record_pet_sample tid (ev_start_ns e) (event_stack a lane_addr e) []
       (StackTree.mkPmuSample 0 0 0 0) a).
Proof.
  cbn zeta. unfold record_event, event_interval, event_stack, link_of, link_origin.
  destruct (origin e) as [o|]; [|done]. cbn -[decide SYNTH_TID_BASE]. case_decide; [done|].
  by destruct (Archive.Log.nearest_pet_stack_with_distance _ _ _ _) as [|[]].
Qed.

Lemma record_event_recorded tid lane_addr kind l e :
  recorded tid lane_addr kind (lk_aggregator l) [e] (lk_aggregator (record_event tid lane_addr kind l e)).
Proof.
  rewrite record_event_aggregator. set (a := lk_aggregator l). set (k := Archive.Log.kind _).
  set (st := event_stack a lane_addr e).
  unfold Archive.Log.record_interval, Archive.Log.record_pet_sample.
  destruct (note_timestamp_log (ev_start_ns e) a) as (T1 & N1 & M1).
  set (a1 := Archive.Log.note_timestamp (ev_start_ns e) a) in *.
  set (a2 := Archive.Log.with_thread tid _ a1).
  destruct (note_timestamp_log (ev_start_ns e) a2) as (T3 & N3 & M3).
  set (a3 := Archive.Log.note_timestamp (ev_start_ns e) a2) in *.
  set (a4 := if bool_decide (ev_end_ns e = 0) then _ else _).
  assert (same_log a3 a4) as (T4 & N4 & M4)
    by (subst a4; case_match; [done|apply note_timestamp_log]).
  assert (Archive.Log.thread_log tid a4 = Archive.Log.thread_log tid a2) as E4
    by (unfold Archive.Log.thread_log; by rewrite T4, T3).
  assert (Archive.Log.thread_log tid a1 = Archive.Log.thread_log tid a) as E1
    by (unfold Archive.Log.thread_log; by rewrite T1).
  assert (Archive.Log.thread_log tid a2 = (Archive.Log.thread_log tid a)
    <| Archive.Log.samples ::= push_bounded Archive.Log.MAX_EVENTS_PER_THREAD (event_sample a lane_addr e) |>) as E2
    by (subst a2; by rewrite Archive.Log.thread_log_with_thread, decide_True, E1).
  set (a5 := Archive.Log.with_thread tid _ a4).
  assert (Archive.Log.thread_log tid a5 = (Archive.Log.thread_log tid a4)
    <| Archive.Log.intervals ::= push_bounded Archive.Log.MAX_EVENTS_PER_THREAD
         (event_interval a lane_addr kind e) |>) as E5
    by (subst a5; by rewrite Archive.Log.thread_log_with_thread, decide_True).
  rewrite E4, E2 in E5. split; rewrite ?E5; try done.
  - intros t Ht. subst a5 a2. unfold Archive.Log.with_thread in *. cbn in *.
    rewrite lookup_entry_update, decide_False, T4, T3, lookup_entry_update, decide_False, T1 by done. done.
  - subst a5. unfold Archive.Log.with_thread. cbn. by rewrite N4, N3.
  - subst a5. unfold Archive.Log.with_thread. cbn. by rewrite M4, M3.
Qed.

Lemma recorded_snoc tid lane_addr kind a events a1 e a2 :
  SYNTH_TID_BASE <= tid ->
  recorded tid lane_addr kind a events a1 -> recorded tid lane_addr kind a1 [e] a2 ->
  recorded tid lane_addr kind a (events ++ [e]) a2.
Proof.
  intros Ht [S1 I1 W1 O1 N1 M1] [S2 I2 W2 O2 N2 M2].
  assert (event_stack a1 lane_addr e = event_stack a lane_addr e) as Hst
    by (unfold event_stack; by rewrite (link_of_frame tid a a1)).
  assert (event_sample a1 lane_addr e = event_sample a lane_addr e) as Hsa
    by (unfold event_sample; by rewrite Hst).
  assert (event_interval a1 lane_addr kind e = event_interval a lane_addr kind e) as Hin
    by (unfold event_interval; by rewrite Hst).
  cbn [map] in S2, I2. rewrite Hsa in S2. rewrite Hin in I2.
  split.
  - rewrite S2, S1, map_app. unfold push_all. by rewrite foldl_app.
  - rewrite I2, I1, map_app. unfold push_all. by rewrite foldl_app.
  - by rewrite W2.
  - intros t Hne. by rewrite O2, O1.
  - by rewrite N2.
  - by rewrite M2.
Qed.

(** One more link of a kind, or none. *)
Definition count_link (r : option (Archive.Log.NearestPetStack + option Archive.Log.NearestPetStackError))
    (c : OriginLinkCounters) : OriginLinkCounters :=
  match r with
  | None => c
  | Some (inl nearest) => c <| linked_distance ::= distance_record (Archive.Log.distance_ns nearest) |>
  | Some (inr None) => c <| invalid_tid ::= fun n => sadd64 n 1 |>
  | Some (inr (Some Archive.Log.NoThread)) => c <| no_thread ::= fun n => sadd64 n 1 |>
  | Some (inr (Some Archive.Log.NoUserStack)) => c <| no_stack ::= fun n => sadd64 n 1 |>
  | Some (inr (Some (Archive.Log.TooFar distance _))) =>
      c <| too_far ::= fun n => sadd64 n 1 |> <| too_far_distance ::= distance_record distance |>
  end.

Lemma record_event_counts tid lane_addr kind l e :
  let r := link_of (lk_aggregator l) e in
  links (record_event tid lane_addr kind l e) = count_link r (links l) /\
  linked_origins (record_event tid lane_addr kind l e) =
    linked_origins l + count_of (option_list (r ≫= linked_distance_of)) /\
  lk_duration_ns (record_event tid lane_addr kind l e) =
    sadd64 (lk_duration_ns l) (ev_end_ns e - ev_start_ns e).
Proof.
  cbn zeta. unfold record_event, link_of, link_origin, count_of.
  destruct (origin e) as [o|]; [|cbn; split_and!; [done|lia|done]]. cbn -[decide SYNTH_TID_BASE].
  case_decide; [cbn; split_and!; [done|lia|done]|].
  destruct (Archive.Log.nearest_pet_stack_with_distance _ _ _ _) as [|[]]; cbn; split_and!; (done || lia).
Qed.

Lemma links_of_snoc {B} (f : _ -> option B) a events e :
  links_of f a (events ++ [e]) = links_of f a events ++ option_list (link_of a e ≫= f).
Proof. rewrite links_of_app. by destruct (link_of a e ≫= f) eqn:E; unfold links_of; cbn; rewrite E. Qed.

Lemma links_of_length {B} (f : _ -> option B) a events : (length (links_of f a events) <= length events)%nat.
Proof. unfold links_of. induction events as [|e l IH]; cbn; [lia|]. destruct (_ ≫= f); cbn; lia. Qed.

Lemma count_of_snoc {A} (l : list A) x : count_of (l ++ [x]) = count_of l + 1.
Proof. unfold count_of. rewrite length_app. cbn. lia. Qed.

Lemma count_of_nil {A} : count_of (@nil A) = 0.
Proof. done. Qed.

Lemma count_of_one {A} (x : A) : count_of [x] = 1.
Proof. done. Qed.

Lemma distances_snoc l x : distances (l ++ [x]) = distance_record x (distances l).
Proof. unfold distances. by rewrite foldl_snoc. Qed.

Lemma record_events_spec tid lane_addr kind a events :
  SYNTH_TID_BASE <= tid -> count_of events < 2 ^ 64 ->
  Forall (fun e => ev_start_ns e < ev_end_ns e) events ->
  let l := foldl (record_event tid lane_addr kind) (mkLinkState a 0 0 origin_default) events in
  recorded tid lane_addr kind a events (lk_aggregator l) /\ counted a events l.
Proof.
  intros Ht Hlen Hev. cbn zeta. induction events as [|e events IH] using rev_ind; [by split|].
  rewrite count_of_snoc in Hlen. apply Forall_app in Hev as [Hev [He _]%Forall_cons_1].
  destruct IH as [Hr Hc]; [lia|done|]. rewrite foldl_snoc. set (l := foldl _ _ events) in *.
  split; [eapply recorded_snoc; [done..|apply record_event_recorded]|].
  destruct (record_event_counts tid lane_addr kind l e) as (Hk & Hn & Hd).
  rewrite (link_of_frame tid a (lk_aggregator l) e Ht (other_threads _ _ _ _ _ _ Hr)) in Hk, Hn.
  destruct Hc as [C1 C2 C3 C4 C5 C6 C7 C8].
  assert (forall B (f : _ -> option B), sadd64 (count_of (links_of f a events)) 1 =
    count_of (links_of f a events) + 1) as Hsadd.
  { intros B f. apply sadd64_small. pose proof (links_of_length f a events). unfold count_of in *. lia. }
  split; rewrite ?Hk, ?Hn, ?Hd, ?links_of_snoc, ?C8.
  8: exact (sat_sum_snoc (fun e => ev_end_ns e - ev_start_ns e) events e ltac:(cbn; lia)).
  all: destruct (link_of a e) as [[n|[[]|]]|]; cbn [count_link option_bind mbind linked_distance_of
      invalid_tid_of no_thread_of no_stack_of far_distance_of option_list option_rect field_update
      invalid_tid no_thread no_stack too_far linked_distance too_far_distance];
    rewrite ?app_nil_r, ?count_of_snoc, ?distances_snoc, ?C1, ?C2, ?C3, ?C4, ?C5, ?C6, ?C7, ?Hsadd;
    by rewrite ?count_of_nil, ?count_of_one, ?Z.add_0_r.
Qed.

(** ** A batch *)

Definition events_of (s : ServerState) (b : TargetSpanBatch) : list SpanEvent :=
  sort_events (map (event_of (symbol_addrs (target_lanes s))) (valid_spans (spans b))).

(** A batch for the active target, with room for its names. *)
Record accepted (b : TargetSpanBatch) (s : ServerState) (order : list SyntheticSymbolKey)
    (lanes : list (Z * string)) : Prop := {
  is_active : active_target_pid s = Some (sb_pid b);
  not_empty : bool_decide (spans b = []) && records_empty (records b) = false;
  names_published : published s order lanes;
  names_room : room order (S (length (spans b)));
  tids_room : SYNTH_TID_BASE + Z.of_nat (length lanes) < 2 ^ 32;
  spans_countable : count_of (spans b) < 2 ^ 64
}.

Lemma events_of_length s b : (length (events_of s b) <= length (spans b))%nat.
Proof.
  unfold events_of, sort_events. rewrite sort_by_perm, length_map. apply length_filter.
Qed.

Lemma events_of_valid s b : Forall (fun e => ev_start_ns e < ev_end_ns e) (events_of s b).
Proof.
  apply Forall_forall. intros e He. unfold events_of, sort_events in He. rewrite sort_by_perm in He.
  apply list_elem_of_fmap in He as (span & -> & [Hs _]%list_elem_of_filter). exact Hs.
Qed.

(** What a batch does to the state. *)
Lemma ingest_exec b s order lanes :
  accepted b s order lanes ->
  exists s' tid lane_addr order' lanes' l,
    exec (ingest b) s = (s', tt) /\ published s' order' lanes' /\
    order `prefix_of` order' /\ lanes `prefix_of` lanes' /\
    lane_tids (target_lanes s') !! (sb_pid b, sb_lane b) = Some tid /\ SYNTH_TID_BASE <= tid < 2 ^ 32 /\
    symbol_addrs (target_lanes s') !! Lane (sb_lane b) = Some lane_addr /\
    Forall (fun span => is_Some (symbol_addrs (target_lanes s') !! Span (span_name span))) (valid_spans (spans b)) /\
    recorded tid lane_addr (sb_lane_kind b) (Archive.Log.set_thread_name tid (sb_lane b) (s_aggregator s))
      (events_of s' b) (s_aggregator s') /\
    counted (s_aggregator s) (events_of s' b) l /\
    totals (target_lanes s') =
      counters_record_batch (batch_counters b (events_of s' b) l) (totals (target_lanes s)) /\
    inner s' = inner s /\ s_observability s' = s_observability s.
Proof.
  intros [Ha Hne Hp Hroom Htr Hcnt]. unfold ingest. rewrite Hne. cbn zeta.
  rewrite exec_bind, exec_reading. cbn [fst snd]. rewrite Ha. rewrite decide_False by (intros H; by apply H).
  rewrite exec_bind. destruct (lane_tid_exec (sb_pid b) (sb_lane b) s order lanes Hp Htr)
    as (m & tid & lanes' & He1 & Hp1 & Hm & Htid & Hrange & Hpre1).
  rewrite He1 in *. cbn [fst snd] in *. set (s1 := _ <| s_aggregator ::= _ |>) in *.
  rewrite exec_bind. destruct (symbol_addr_exec (Lane (sb_lane b)) s1 order lanes' Hp1)
    as (s2 & lane_addr & order2 & -> & Hp2 & Hn2 & Ha2 & Hlen2 & Hpre2).
  { revert Hroom. unfold room, SYNTH_SYMBOL_STRIDE. lia. }
  cbn [fst snd]. rewrite exec_bind. destruct (collect_events_exec (spans b) s2 order2 lanes' Hp2)
    as (s3 & order3 & -> & Hp3 & Hn3 & Hpre3 & Hall).
  { revert Hroom. unfold room, SYNTH_SYMBOL_STRIDE. lia. }
  pose proof (lookup_weaken _ _ _ _ Ha2 (names_only_addrs _ _ Hn3)) as Ha3.
  destruct (transitivity Hn2 Hn3) as (addrs & bins & Hs3 & _). fold (events_of s3 b).
  cbn [fst snd]. rewrite exec_bind. unfold record_events. rewrite exec_section. cbn [fst snd].
  fold (events_of s3 b).
  assert (s_aggregator s3 = Archive.Log.set_thread_name tid (sb_lane b) (s_aggregator s)) as Hagg by by rewrite Hs3.
  rewrite Hagg. set (events := events_of s3 b). set (l := foldl _ _ events).
  destruct (record_events_spec tid lane_addr (sb_lane_kind b)
    (Archive.Log.set_thread_name tid (sb_lane b) (s_aggregator s)) events) as [Hrec Hcount]; [lia| |apply events_of_valid|].
  { pose proof (events_of_length s3 b). unfold count_of, events in *. lia. }
  fold l in Hrec, Hcount.
  assert ((if decide (events = []) then s3 else s3 <| s_aggregator := lk_aggregator l |>) =
    s3 <| s_aggregator := lk_aggregator l |>) as ->.
  { case_decide as Hd; [|done]. subst l. rewrite Hd, <- Hagg. by destruct s3. }
  rewrite exec_bind. unfold on_lanes. rewrite exec_writing. cbn [fst snd].
  set (s5 := _ <| target_lanes ::= _ |>).
  set (s6 := if decide (events = []) then s5 else s5 <| revision ::= fun n => wadd64 n 1 |>).
  assert (target_lanes s6 = record_batch (sb_pid b) (sb_lane b) (batch_counters b events l) (target_lanes s3) /\
    s_aggregator s6 = lk_aggregator l /\ s_binaries s6 = s_binaries s3 /\ inner s6 = inner s3 /\
    s_observability s6 = s_observability s3) as (E1 & E2 & E3 & E4 & E5) by (subst s6; by case_decide).
  assert (events_of s6 b = events) as Hev by (unfold events_of; rewrite E1; done).
  exists s6, tid, lane_addr, order3, lanes', l. rewrite Hev, E1, E2, E4, E5.
  split_and!; [subst s6; by case_decide| |by trans order2|done| |lia|lia|exact Ha3|exact Hall|done| | |by rewrite Hs3..].
  - destruct Hp3 as [P1 P2 P3 P4 P5]. split; rewrite ?E1, ?E3; done.
  - by rewrite Hs3.
  - destruct Hcount. by split.
  - by rewrite Hs3.
Qed.

(** Each slot of the names resolves to its name, at every address in it. *)
Lemma slot_resolves demangler s order lanes key addr address :
  published s order lanes -> symbol_addrs (target_lanes s) !! key = Some addr ->
  addr <= address < addr + SYNTH_SYMBOL_STRIDE ->
  Archive.Bin.disjoint_ranges (Archive.Bin.by_base (s_binaries s)) ->
  Forall (fun b => Archive.Bin.base_avma b <= Archive.Bin.avma_end b) (Archive.Bin.by_base (s_binaries s)) ->
  exists r rs, Archive.Bin.lookup_symbol demangler address (s_binaries s) = Ret (r, Some rs) /\
    Archive.Bin.rs_function_name rs =
      Demangle.Demangle.name (Demangle.Demangle.demangle_bytes demangler (str (display_name key))).
Proof.
  intros [[_ Hs] Ht Hok Hn Hroom] Hk Haddr Hdis Hends. apply Hs in Hk as (i & Hi & ->).
  pose proof (lookup_lt_Some _ _ _ Hi) as Hlt. unfold room, SYNTH_BINARY_BASE_AVMA, SYNTH_SYMBOL_STRIDE in *.
  set (b := synthetic_binary (symbols_of order) (length order)) in *.
  assert (b ∈ Archive.Bin.by_base (s_binaries s)) as [j Hj]%list_elem_of_lookup by (apply Hn; by intros ->).
  assert (Archive.Bin.avma_end b = 0xFFFF00000000 + 16 * Z.of_nat (length order)) as Hend.
  { subst b. unfold synthetic_binary. cbn [Archive.Bin.avma_end]. unfold SYNTH_BINARY_BASE_AVMA, SYNTH_SYMBOL_STRIDE.
    rewrite as_u64_small by (width; lia). rewrite wadd64_small by lia. lia. }
  assert (Archive.Bin.covers address b) as Hcov by (split; [cbn; unfold SYNTH_BINARY_BASE_AVMA|rewrite Hend]; lia).
  assert (Archive.Bin.candidate (Archive.Bin.build_index (Archive.Bin.by_base (s_binaries s))) address = Some j) as Hc
    by (apply Archive.Bin.candidate_exact; [done|apply Hok|done|by exists b]).
  destruct (Archive.Bin.lookup_symbol_runs demangler address (s_binaries s) Hok) as (r & res & Hl & _ & _ & Hres).
  rewrite Hc in Hres. destruct Hres as (b' & Hb' & _ & ->). rewrite Hj in Hb'. injection Hb' as <-.
  exists r. eexists. split; [exact Hl|].
  set (svma := Archive.Bin.svma_for b address).
  assert (svma = address - 0xFFFF00000000) as Hsv.
  { subst svma. unfold Archive.Bin.svma_for. cbn. unfold SYNTH_BINARY_BASE_AVMA. rewrite Z.add_0_r.
    rewrite !as_u64_small by (width; try apply Z.mod_pos_bound; lia). done. }
  assert (Forall (fun t => ~ Archive.Bin.symbol_covers svma t \/
    Archive.Bin.sym_name t = str (display_name key)) (symbols_of order)) as Hall.
  { apply Forall_forall. intros t (k & key' & -> & Hk)%elem_of_lookup_imap.
    destruct (decide (k = i)) as [->|Hne]; [right; by simplify_eq|left].
    unfold Archive.Bin.symbol_covers, synthetic_symbol, SYNTH_BINARY_BASE_AVMA, SYNTH_SYMBOL_STRIDE.
    cbn [Archive.Bin.start_svma Archive.Bin.end_svma snd]. lia. }
  pose proof (Archive.Bin.symbol_before_spec svma (symbols_of order)) as Hsym.
  change (Archive.Bin.symbols b) with (symbols_of order).
  destruct (Archive.Bin.symbol_before svma (symbols_of order)) as [t|].
  - destruct Hsym as [Hin Hcv]; [by eapply StronglySorted_weaken, symbols_of_sorted; intros x y [? ?]; lia|]. rewrite Forall_forall in Hall. by destruct (Hall t Hin) as [| ->].
  - exfalso. assert (Forall (fun t => ~ Archive.Bin.symbol_covers svma t) (symbols_of order)) as Hno
      by (apply Hsym; eapply StronglySorted_weaken, symbols_of_sorted; intros x y [? ?]; lia).
    rewrite Forall_forall in Hno.
    apply (Hno (synthetic_symbol (key, SYNTH_BINARY_BASE_AVMA + SYNTH_SYMBOL_STRIDE * Z.of_nat i))).
    + apply elem_of_lookup_imap. by exists i, key.
    + unfold Archive.Bin.symbol_covers, synthetic_symbol, SYNTH_BINARY_BASE_AVMA, SYNTH_SYMBOL_STRIDE.
      cbn [Archive.Bin.start_svma Archive.Bin.end_svma snd]. lia.
Qed.
(** ** Accounting *)

(** Every span is recorded or dropped, and every recorded span with an origin is
    linked or counted under the reason it is not. *)
Record balanced (c : TargetIngestCounters) : Prop := {
  all_spans : spans_received c = spans_recorded c + spans_dropped_bad_duration c;
  all_origins : spans_with_origin c = spans_linked_origin c + invalid_tid (origin_links c) +
    no_thread (origin_links c) + no_stack (origin_links c) + too_far (origin_links c);
  linked_counted : dc_count (linked_distance (origin_links c)) = spans_linked_origin c;
  far_counted : dc_count (too_far_distance (origin_links c)) = too_far (origin_links c);
  origins_recorded : spans_with_origin c <= spans_recorded c;
  nonnegative : 0 <= spans_recorded c /\ 0 <= spans_dropped_bad_duration c /\ 0 <= spans_linked_origin c /\
    0 <= invalid_tid (origin_links c) /\ 0 <= no_thread (origin_links c) /\
    0 <= no_stack (origin_links c) /\ 0 <= too_far (origin_links c)
}.

Lemma origin_partition a events :
  count_of (filter (fun e => is_Some (origin e)) events) =
  count_of (links_of linked_distance_of a events) + count_of (links_of invalid_tid_of a events) +
  count_of (links_of no_thread_of a events) + count_of (links_of no_stack_of a events) +
  count_of (links_of far_distance_of a events).
Proof.
  induction events as [|e events IH] using rev_ind; [done|].
  rewrite filter_app, !links_of_snoc. unfold count_of in *. rewrite !length_app, !Nat2Z.inj_add, IH.
  clear IH. unfold link_of. rewrite filter_cons, filter_nil.
  destruct (origin e) as [o|] eqn:Ho; cbn -[Z.add decide length]; [|rewrite decide_False by (by intros []); cbn; lia].
  rewrite decide_True by done. case_decide; [cbn; lia|].
  destruct (Archive.Log.nearest_pet_stack_with_distance _ _ _ _) as [|[]]; cbn; lia.
Qed.

Lemma distances_count l : Forall (fun x => 0 <= x) l -> count_of l < 2 ^ 64 -> dc_count (distances l) = count_of l.
Proof. intros Hl Hc. by destruct (distances_exact l Hl Hc). Qed.

Lemma distance_add_count d d' :
  0 <= dc_count d' -> dc_count d + dc_count d' < 2 ^ 64 ->
  dc_count (distance_add d' d) = dc_count d + dc_count d'.
Proof.
  intros H0 Hb. unfold distance_add. case_decide; [lia|]. case_decide; cbn; by rewrite sadd64_small.
Qed.

Lemma distances_nonneg a events :
  Forall (fun x => 0 <= x) (links_of linked_distance_of a events) /\
  Forall (fun x => 0 <= x) (links_of far_distance_of a events).
Proof.
  assert (forall e, match link_of a e with
    | Some (inl n) => 0 <= Archive.Log.distance_ns n
    | Some (inr (Some (Archive.Log.TooFar d _))) => 0 <= d
    | _ => True
    end) as Hd.
  { intros e. unfold link_of. destruct (origin e) as [o|]; [|done]. cbn -[decide]. case_decide; [done|].
    unfold Archive.Log.nearest_pet_stack_with_distance. destruct (Archive.Log.threads a !! _); [|done].
    destruct (Archive.Log.min_by_key _ _); [|done]. cbn zeta.
    case_bool_decide; apply Z.abs_nonneg. }
  split; apply Forall_forall; intros x (e & _ & Hx)%list_elem_of_omap; specialize (Hd e);
    destruct (link_of a e) as [[n|[[]|]]|]; cbn in Hx; by simplify_eq.
Qed.

Lemma batch_balanced a b events l c :
  counted a events l -> (length events <= length (spans b))%nat -> balanced c ->
  spans_received c + count_of (spans b) < 2 ^ 64 ->
  balanced (counters_record_batch (batch_counters b events l) c).
Proof.
  intros [L1 L2 L3 L4 L5 L6 L7 _] Hlen [B1 B2 B3 B4 B5 B6] Hb.
  pose proof (origin_partition a events) as Hpart. destruct (distances_nonneg a events) as [Hn1 Hn2].
  assert (count_of (filter (fun e => is_Some (origin e)) events) <= count_of events) as Hle
    by (unfold count_of; pose proof (length_filter (fun e => is_Some (origin e)) events); lia).
  assert (forall A (x : list A), 0 <= count_of x) as Hpos by (intros; unfold count_of; lia).
  pose proof (Hpos _ (links_of linked_distance_of a events)). pose proof (Hpos _ (links_of invalid_tid_of a events)).
  pose proof (Hpos _ (links_of no_thread_of a events)). pose proof (Hpos _ (links_of no_stack_of a events)).
  pose proof (Hpos _ (links_of far_distance_of a events)).
  fold (count_of (filter (fun e => is_Some (origin e)) events)) in *.
  assert (count_of events <= count_of (spans b)) as Hev by (unfold count_of; lia).
  pose proof (distances_count _ Hn1) as D1. pose proof (distances_count _ Hn2) as D2.
  rewrite <- L6, <- L1 in D1. rewrite <- L7, <- L5 in D2.
  assert (ssub (count_of (spans b)) (count_of events) = count_of (spans b) - count_of events) as Hss
    by (unfold ssub; lia).
  split; cbn -[sadd64 ssub Z.add]; fold (count_of (spans b)) (count_of events)
    (count_of (filter (fun e => is_Some (origin e)) events)); rewrite ?Hss, ?L1, ?L2, ?L3, ?L4, ?L5.
  all: rewrite ?distance_add_count by lia.
  all: rewrite ?sadd64_small by lia. all: try lia.
Qed.

(** ** Properties *)

(** C4. A batch of the active target, taken in from start to end without another request
    in between, is recorded: if the names handed out so far are published and slots,
    thread ids and counters have room left, its lane has one synthetic thread, named
    after the lane; each span with a positive duration becomes, in order of start,
    one sample and one interval of that thread, whose stack is the span's address,
    the lane's address and the stack sampled nearest to the span's origin; every
    other thread is as it was; and the names handed out are published again. Two
    batches taken in at once can leave a name unpublished ([lane_name_lost] of
    Sessions). *)
Theorem batch_recorded b s order lanes :
  accepted b s order lanes ->
  let s' := (exec (ingest b) s).1 in
  exists tid lane_addr order' lanes',
    published s' order' lanes' /\ order `prefix_of` order' /\ lanes `prefix_of` lanes' /\
    lane_tids (target_lanes s') !! (sb_pid b, sb_lane b) = Some tid /\ SYNTH_TID_BASE <= tid < 2 ^ 32 /\
    Archive.Log.thread_name tid (s_aggregator s') = Some (sb_lane b) /\
    symbol_addrs (target_lanes s') !! Lane (sb_lane b) = Some lane_addr /\
    recorded tid lane_addr (sb_lane_kind b) (Archive.Log.set_thread_name tid (sb_lane b) (s_aggregator s))
      (events_of s' b) (s_aggregator s').
Proof.
  intros Ha. destruct (ingest_exec _ _ _ _ Ha)
    as (s' & tid & addr & order' & lanes' & l & -> & ? & ? & ? & ? & ? & ? & _ & Hr & _).
  exists tid, addr, order', lanes'. cbn [fst]. split_and!; try done; try lia.
  unfold Archive.Log.thread_name. rewrite (same_names _ _ _ _ _ _ Hr). apply lookup_insert_eq.
Qed.

(** The names of recorded spans resolve.  After a batch, each recorded span has
    an address, and looking up any address of its slot in the binary registry
    finds the span's name, demangled like any symbol, if the loaded binaries do
    not overlap. *)
Theorem span_names_resolve demangler b s order lanes :
  accepted b s order lanes ->
  let s' := (exec (ingest b) s).1 in
  Archive.Bin.disjoint_ranges (Archive.Bin.by_base (s_binaries s')) ->
  Forall (fun b => Archive.Bin.base_avma b <= Archive.Bin.avma_end b) (Archive.Bin.by_base (s_binaries s')) ->
  forall span, span ∈ valid_spans (spans b) ->
  exists addr, symbol_addrs (target_lanes s') !! Span (span_name span) = Some addr /\
    forall address, addr <= address < addr + SYNTH_SYMBOL_STRIDE ->
    exists r rs, Archive.Bin.lookup_symbol demangler address (s_binaries s') = Ret (r, Some rs) /\
      Archive.Bin.rs_function_name rs =
        Demangle.Demangle.name (Demangle.Demangle.demangle_bytes demangler (str (span_name span))).
Proof.
  intros Ha. destruct (ingest_exec _ _ _ _ Ha)
    as (s' & tid & addr & order' & lanes' & l & -> & Hp & _ & _ & _ & _ & _ & Hall & _).
  cbn [fst]. intros Hdis Hends span Hspan. rewrite Forall_forall in Hall. destruct (Hall span Hspan) as [sa Hsa].
  exists sa. split; [exact Hsa|]. intros address Haddr.
  exact (slot_resolves demangler s' order' lanes' _ sa address Hp Hsa Haddr Hdis Hends).
Qed.

(** C13. No span and no origin goes missing in the counters: if the totals
    balance, they balance after a batch, and they have grown by the spans of the
    batch, by those recorded and by those dropped for their duration. *)
Theorem spans_accounted b s order lanes :
  accepted b s order lanes -> balanced (totals (target_lanes s)) ->
  spans_received (totals (target_lanes s)) + count_of (spans b) < 2 ^ 64 ->
  let c := totals (target_lanes s) in
  let c' := totals (target_lanes (exec (ingest b) s).1) in
  balanced c' /\
  spans_received c' = spans_received c + count_of (spans b) /\
  spans_recorded c' = spans_recorded c + count_of (valid_spans (spans b)) /\
  spans_dropped_bad_duration c' =
    spans_dropped_bad_duration c + (count_of (spans b) - count_of (valid_spans (spans b))).
Proof.
  intros Ha Hb Hlen. destruct (ingest_exec _ _ _ _ Ha)
    as (s' & tid & addr & order' & lanes' & l & -> & _ & _ & _ & _ & _ & _ & _ & _ & Hc & Ht & _).
  cbn zeta. cbn [fst]. rewrite Ht. split; [eapply batch_balanced; try done; apply events_of_length|].
  assert (count_of (events_of s' b) = count_of (valid_spans (spans b))) as Hev
    by (unfold count_of, events_of, sort_events; by rewrite sort_by_perm, length_map).
  assert (count_of (valid_spans (spans b)) <= count_of (spans b))
    by (unfold count_of, valid_spans; pose proof (length_filter (fun span => span_start_ns span < span_end_ns span) (spans b)); lia).
  destruct Hb as [B1 B2 B3 B4 B5 B6]. unfold ssub in *.
  cbn -[sadd64 ssub Z.add]. fold (count_of (spans b)) (count_of (events_of s' b)). rewrite Hev.
  unfold ssub. assert (0 <= count_of (valid_spans (spans b))) by (unfold count_of; lia).
  rewrite !sadd64_small by lia. split_and!; lia.
Qed.

(** Nothing of a batch is recorded without its target: with no active run, or
    for another process, only the count of dropped batches and spans changes. *)
Theorem foreign_spans_dropped b s :
  active_target_pid s <> Some (sb_pid b) ->
  let s' := (exec (ingest b) s).1 in
  s' <| target_lanes := target_lanes s |> = s /\
  symbol_addrs (target_lanes s') = symbol_addrs (target_lanes s) /\
  lane_tids (target_lanes s') = lane_tids (target_lanes s) /\
  lane_counters (target_lanes s') = lane_counters (target_lanes s) /\
  spans_received (totals (target_lanes s')) = spans_received (totals (target_lanes s)).
Proof.
  intros Ha. unfold ingest. destruct (_ && _); [cbn; by destruct s|]. cbn zeta.
  rewrite exec_bind, exec_reading. cbn [fst snd]. destruct (active_target_pid s) as [pid|].
  - rewrite decide_True by congruence. by destruct s.
  - by destruct s.
Qed.

End Spans.

(** ** Examples *)

#[local] Existing Instance canonical_order.

Definition demo_state : ServerState :=
  Server.new <| inner := mkInner (Some (Archive.mkRunSummary 1 Archive.Recording None 0 None (Some 7) "demo" 0 0))
                           None None [] |>
             <| s_aggregator := Archive.Log.record_pet_sample 100 1000 [0x10; 0x20] []
                  (StackTree.mkPmuSample 1 2 3 4) Archive.Log.aggregator_default |>.

Definition demo_span (name : string) (start_ns end_ns : Z) (origin : option TargetSpanOrigin) : TargetSpan :=
  (span_new name start_ns end_ns) <| span_origin := origin |>.

(** Two spans of one lane, one from a sampled thread, and one that ends before it
    starts. *)
Definition demo_batch : TargetSpanBatch :=
  mkTargetSpanBatch 7 "gpu" StackTree.Metal
    [demo_span "draw" 1000 2000 (Some (mkTargetSpanOrigin 100 1010)); demo_span "blit" 500 600 None;
     demo_span "bad" 9 8 None]
    (mkTargetRecordBatch 0 0 0 0 0 0 0 0).

Lemma demo_accepted : accepted demo_batch demo_state [] [].
Proof.
  split; try (vm_compute; reflexivity). split; [apply layout_empty|apply layout_empty|apply Archive.Bin.new_ok|done|].
  vm_compute. reflexivity.
Qed.

Lemma batch_recorded_witness :
  exists tid, SYNTH_TID_BASE <= tid /\
    Archive.Log.thread_name tid (s_aggregator (exec (ingest demo_batch) demo_state).1) = Some "gpu".
Proof.
  destruct (batch_recorded demo_batch demo_state [] [] demo_accepted)
    as (tid & addr & order' & lanes' & _ & _ & _ & _ & [Ht _] & Hn & _).
  exists tid. split; [exact Ht|exact Hn].
Defined.

Lemma span_names_resolve_witness :
  let s' := (exec (ingest demo_batch) demo_state).1 in
  exists addr r rs, symbol_addrs (target_lanes s') !! Span "draw" = Some addr /\
    Archive.Bin.lookup_symbol (fun _ _ => None) (addr + 3) (s_binaries s') = Ret (r, Some rs) /\
    Archive.Bin.rs_function_name rs = str "draw".
Proof.
  cbn zeta. destruct (span_names_resolve (fun _ _ => None) demo_batch demo_state [] [] demo_accepted)
    with (span := demo_span "draw" 1000 2000 (Some (mkTargetSpanOrigin 100 1010)))
    as (addr & Ha & Hr).
  - intros i j b b' Hi Hj Hne. vm_compute in Hi, Hj. destruct i as [|i], j as [|j]; done.
  - vm_compute. constructor; [discriminate|constructor].
  - vm_compute. left.
  - destruct (Hr (addr + 3)) as (r & rs & Hl & Hn); [unfold SYNTH_SYMBOL_STRIDE; lia|].
    exists addr, r, rs. split_and!; [exact Ha|exact Hl|rewrite Hn; vm_compute; reflexivity].
Defined.

Lemma spans_accounted_witness :
  balanced (totals (target_lanes (exec (ingest demo_batch) demo_state).1)) /\
  spans_recorded (totals (target_lanes (exec (ingest demo_batch) demo_state).1)) = 2.
Proof.
  destruct (spans_accounted demo_batch demo_state [] [] demo_accepted) as (Hb & _ & Hr & _).
  - split; vm_compute; intuition discriminate.
  - vm_compute. reflexivity.
  - split; [exact Hb|rewrite Hr; vm_compute; reflexivity].
Defined.

Lemma foreign_spans_dropped_witness :
  lane_tids (target_lanes (exec (ingest demo_batch) Server.new).1) = ∅.
Proof. apply (foreign_spans_dropped demo_batch Server.new). discriminate. Defined.

End Spans.
