(* ===== verification/Sessions.v ===== *)
(** * Concurrent requests

    The server answers many clients at once, each on its own task, beside the
    recording task and the target's reports.  Every request is the program of
    [Server], [Recorder] or [TargetIngest] that serves it; the theorems hold of
    every interleaving of their critical sections.  A section here never waits for
    a lock, so that these are more orders than the locks allow: what is shown is
    what never happens, and what holds once a request has been served; whether the
    locks let it be served is the matter of [Locks]. *)

From S2P Require Import Prelude BTree Aggregator Binaries Observability Lanes Archive Server.
From S2P Require Import Prog StackTree Sink Recorder TargetIngest.

Module Sessions.

Import Archive Server.

#[export] Existing Instances eta_ServerState eta_Inner eta_RunSummary.

(** ** Requests *)

Inductive request :=
  | StartAttach (label : string) (sweep_now now : Z)
  | SetStopFlag (run_id flag : Z)
  | SinkCall (run_id : Z) (call : Sink.LiveSink.live_call)
  | FinalizeRun (run_id : Z) (reason : StopReason) (now archive_now : Z)
  | StopActive
  | OpenSaved (a : SavedRunArchive) (now : Z)
  | SelectRun (run_id now : Z)
  | SaveCurrent (now : Z)
  | MarkRun (label : string)
  | IngestSpans (b : TargetIngest.TargetSpanBatch)
  | IngestSignals (b : Obs.TargetSignalBatch)
  | ReporterStats (stats : Lanes.TargetReporterStats).

(** The run ids of a history. *)
Abbreviation ids := (map (fun x => id (summary x))).

Section Sessions.
Context `{Order : MapOrder}.

Definition serve (r : request) : prog unit :=
  match r with
  | StartAttach label sweep_now now => forget (begin_run label sweep_now now)
  | SetStopFlag run_id flag => set_recording_stop_flag run_id flag
  | SinkCall run_id call => Recorder.handle run_id call
  | FinalizeRun run_id reason now archive_now => finalize_run run_id reason now archive_now
  | StopActive => forget stop_request
  | OpenSaved a now => forget (open_saved_archive a now)
  | SelectRun run_id now => forget (select_run_archive run_id now)
  | SaveCurrent now => forget (save_current_archive now)
  | MarkRun label => forget (mark label)
  | IngestSpans b => TargetIngest.ingest b
  | IngestSignals b => TargetIngest.ingest_signals b
  | ReporterStats stats => TargetIngest.service_reporter_stats stats
  end.

(** ** What leaves the run control alone *)

Definition control (s : ServerState) : option (Z * RunState) * list RunSnapshot * Z :=
  ((fun a => (id a, state a)) <$> active (inner s), history (inner s), next_run_id s).

Abbreviation quiet := (Prog.quiet control).

Lemma control_on_active run_id f s :
  (forall a, id (f a) = id a /\ state (f a) = state a) -> control (on_active run_id f s) = control s.
Proof.
  intros Hf. unfold on_active, control. destruct (active (inner s)) as [a|] eqn:Ha; [|by rewrite Ha].
  case_decide; [|by rewrite Ha]. cbn. by destruct (Hf a) as [-> ->].
Qed.

Ltac quiet :=
  repeat first
    [ exact I
    | apply quiet_reading
    | apply quiet_writing; intros ?; solve [done | by apply control_on_active]
    | apply quiet_bind; [|intros ?]
    | case_match ].

Lemma quiet_archive now run : quiet (archive_from_query_state now run).
Proof. unfold archive_from_query_state. quiet. Qed.

Lemma quiet_bump : quiet bump_revision.
Proof. unfold bump_revision. quiet. Qed.

Lemma quiet_attached run_id pid task_port : quiet (apply_target_attached_in_process run_id pid task_port).
Proof.
  unfold apply_target_attached_in_process. apply quiet_bind; [|intros []; cbn [negb]; [|done]].
  - apply quiet_section. intros s. by apply control_on_active.
  - apply quiet_bind; [|intros _; apply quiet_bump]. quiet.
Qed.

Lemma quiet_sink run_id call : quiet (Recorder.handle run_id call).
Proof.
  destruct call; cbn [Recorder.handle]; try apply quiet_attached;
    unfold Recorder.on_sample, Recorder.on_binary_loaded, Recorder.on_kallsyms,
      Recorder.on_thread_name, Recorder.on_wakeup, Recorder.on_cpu_interval, Recorder.on_aggregator,
      note_sample, note_off_cpu, bump_revision; quiet.
Qed.

Lemma quiet_lane_tid pid lane : quiet (TargetIngest.lane_tid pid lane).
Proof.
  unfold TargetIngest.lane_tid. quiet. apply quiet_section. intros s. by destruct (Lanes.alloc_tid _ _ _).
Qed.

Lemma quiet_symbol_addr key : quiet (TargetIngest.symbol_addr key).
Proof.
  unfold TargetIngest.symbol_addr. apply quiet_bind; [|intros [addr [b|]]; quiet].
  apply quiet_section. intros s. by destruct (TargetIngest.alloc_symbol _ _).
Qed.

Lemma quiet_collect_events l : quiet (TargetIngest.collect_events l).
Proof.
  induction l as [|span l IH]; cbn [TargetIngest.collect_events]; [done|]. case_decide; [done|].
  apply quiet_bind; [apply quiet_symbol_addr|intros addr]. by apply quiet_bind.
Qed.

Lemma quiet_record_events tid addr kind events : quiet (TargetIngest.record_events tid addr kind events).
Proof. apply quiet_section. intros s. by case_decide. Qed.

Lemma quiet_ingest b : quiet (TargetIngest.ingest b).
Proof.
  unfold TargetIngest.ingest, TargetIngest.on_lanes, bump_revision. case_match; [done|].
  apply quiet_bind; [apply quiet_reading|intros [pid|]; [|quiet]]. case_decide; [quiet|].
  apply quiet_bind; [apply quiet_lane_tid|intros tid].
  apply quiet_bind; [apply quiet_symbol_addr|intros addr].
  apply quiet_bind; [apply quiet_collect_events|intros events].
  apply quiet_bind; [apply quiet_record_events|intros l]. quiet.
Qed.

Lemma quiet_ingest_signals b : quiet (TargetIngest.ingest_signals b).
Proof.
  unfold TargetIngest.ingest_signals, TargetIngest.on_observability, bump_revision. case_match; [done|].
  apply quiet_bind; [apply quiet_reading|intros [pid|]; [|quiet]]. case_decide; [quiet|].
  apply quiet_bind; [apply quiet_reading|intros [start last]].
  apply quiet_bind; [|intros ?; quiet]. apply quiet_writing. intros s. by destruct (Obs.ingest _ _ _ _).
Qed.

(** All but starting, stopping and choosing runs. *)
Definition controls (r : request) : bool :=
  match r with
  | StartAttach _ _ _ | FinalizeRun _ _ _ _ | OpenSaved _ _ | SelectRun _ _ => true
  | _ => false
  end.

Lemma quiet_serve r : controls r = false -> quiet (serve r).
Proof.
  destruct r as [| | | | | | |now|label| | |]; intros Hr; try discriminate Hr; cbn [serve].
  - unfold set_recording_stop_flag. apply quiet_writing. intros s. by case_match.
  - apply quiet_sink.
  - apply quiet_bind; [|done]. apply quiet_section. intros s. unfold control. cbn beta.
    destruct (active (inner s)) eqn:Ha; cbn; [|by rewrite Ha].
    destruct (recording_stop (inner s)); cbn; by rewrite Ha.
  - apply quiet_bind; [|done]. apply quiet_bind; [apply quiet_reading|intros [run|]; [|done]].
    apply quiet_bind; [apply quiet_archive|done].
  - apply quiet_bind; [|done]. apply quiet_bind; [apply quiet_reading|intros []; [|done]]. cbn [negb].
    apply quiet_bind; [|intros t; apply quiet_bind; [apply quiet_bump|done]].
    apply quiet_section. intros s. by destruct (Log.record_marker _ _).
  - apply quiet_ingest.
  - apply quiet_ingest_signals.
  - unfold TargetIngest.service_reporter_stats, TargetIngest.on_lanes. quiet.
Qed.

(** ** History *)

Lemma find_snapshot_cons r x h :
  find_snapshot r (x :: h) = if decide (id (summary x) = r) then Some x else find_snapshot r h.
Proof.
  unfold find_snapshot. cbn [list_find]. case_decide; [done|].
  by destruct (list_find _ h) as [[]|].
Qed.

Lemma find_snapshot_id r h x : find_snapshot r h = Some x -> id (summary x) = r /\ x ∈ h.
Proof.
  induction h as [|y h IH]; [done|]. rewrite find_snapshot_cons. case_decide.
  - intros [= ->]. split; [done|by left].
  - intros [? ?]%IH. split; [done|by right].
Qed.

Lemma find_snapshot_none r h : find_snapshot r h = None <-> r ∉ ids h.
Proof.
  induction h as [|y h IH]; [split; [intros _; apply not_elem_of_nil|done]|].
  rewrite find_snapshot_cons. cbn. rewrite not_elem_of_cons. case_decide; [naive_solver|].
  rewrite IH. naive_solver.
Qed.

Lemma upsert_find r x h :
  find_snapshot r (upsert x h) = if decide (id (summary x) = r) then Some x else find_snapshot r h.
Proof.
  induction h as [|y h IH]; cbn [upsert].
  - by rewrite find_snapshot_cons.
  - destruct (decide (id (summary y) = id (summary x))) as [Hy|Hy]; rewrite !find_snapshot_cons;
      [|rewrite IH]; repeat case_decide; congruence.
Qed.

Lemma upsert_ids x h :
  ids (upsert x h) =
  if decide (id (summary x) ∈ ids h)
  then ids h else ids h ++ [id (summary x)].
Proof.
  induction h as [|y h IH]; cbn [upsert map app]; [done|].
  destruct (decide (id (summary y) = id (summary x))) as [Hy|Hy]; cbn [map].
  - rewrite decide_True by (rewrite Hy; by left). by rewrite Hy.
  - rewrite IH. repeat case_decide; try done; exfalso; set_solver.
Qed.

Lemma upsert_same x h : find_snapshot (id (summary x)) h = Some x -> upsert x h = h.
Proof.
  induction h as [|y h IH]; [done|]. rewrite find_snapshot_cons. cbn [upsert].
  case_decide; [congruence|]. intros H1. by rewrite IH.
Qed.

Lemma upsert_Forall (P : RunSnapshot -> Prop) x h : P x -> Forall P h -> Forall P (upsert x h).
Proof.
  intros Hx. induction 1 as [|y h Hy Hh IH]; cbn [upsert]; [by constructor|].
  case_decide; by constructor.
Qed.

#[local] Arguments find_snapshot : simpl never.

(** ** Invariant and guarantee *)

(** Of the run control: each stored run has its own id and is stopped, the
    active run is recording, and, as long as no archive is opened, run ids are
    fresh. *)
Record well_formed (c : option (Z * RunState) * list RunSnapshot * Z) : Prop := {
  history_ids : NoDup (ids c.1.2);
  history_stopped : Forall (fun x => state (summary x) = Stopped) c.1.2;
  active_recording : forall r st, c.1.1 = Some (r, st) -> st = Recording
}.

Record fresh (c : option (Z * RunState) * list RunSnapshot * Z) : Prop := {
  next_in_range : 0 <= c.2 < 2 ^ 64;
  stored_before_next : forall r, r ∈ ids c.1.2 -> r < c.2;
  active_before_next : forall r st, c.1.1 = Some (r, st) -> r < c.2 /\ r ∉ ids c.1.2
}.

(** The run is active or stored. *)
Definition tracked (r : Z) (c : option (Z * RunState) * list RunSnapshot * Z) : Prop :=
  fst <$> c.1.1 = Some r \/ r ∈ ids c.1.2.

Section Guarantee.

(** Whether archives may be opened, and stored runs selected. *)
Context (opening selecting : bool).

Definition allowed (r : request) : Prop :=
  match r with
  | OpenSaved _ _ => opening = true
  | SelectRun _ _ => selecting = true
  | _ => True
  end.

Definition inv (c : option (Z * RunState) * list RunSnapshot * Z) : Prop :=
  well_formed c /\ (opening = false -> fresh c).

Record moves (c c' : option (Z * RunState) * list RunSnapshot * Z) : Prop := {
  ids_grow : ids c.1.2 `prefix_of` ids c'.1.2;
  snapshots_stay : opening = false ->
    forall r x, find_snapshot r c.1.2 = Some x -> find_snapshot r c'.1.2 = Some x;
  runs_tracked : opening = false -> selecting = false -> forall r, tracked r c -> tracked r c'
}.

#[export] Instance moves_preorder : PreOrder moves.
Proof.
  split; [by intros c; split|]. intros c1 c2 c3 [] []. split; [by etrans|naive_solver..].
Qed.

(** The run counter has not wrapped. *)
Definition unwrapped (s : ServerState) : Prop := opening = false -> 0 < next_run_id s.

Lemma begin_moves h n :
  inv (None, h, n) -> (opening = false -> 0 < wadd64 n 1) ->
  inv (Some (n, Recording), h, wadd64 n 1) /\ moves (None, h, n) (Some (n, Recording), h, wadd64 n 1).
Proof.
  intros [[H1 H2 H3] Hf] Hv. split; split; cbn in *; try done.
  - split; cbn; [done..|congruence].
  - intros Ho. destruct (Hf Ho) as [F1 F2 F3]. specialize (Hv Ho). cbn in *.
    assert (n + 1 < 2 ^ 64).
    { destruct (decide (n + 1 = 2 ^ 64)) as [He|]; [|lia]. unfold wadd64 in Hv. rewrite He in Hv. by cbv in Hv. }
    rewrite wadd64_small by lia.
    split; cbn; [lia| |].
    + intros r Hr%F2. lia.
    + intros r st [= <- <-]. split; [lia|]. intros Hn%F2. lia.
  - intros _ _ r [?|?]; [done|by right].
Qed.

Lemma upsert_prefix x h : ids h `prefix_of` ids (upsert x h).
Proof. rewrite upsert_ids. case_decide; [done|by eexists]. Qed.

Lemma elem_of_upsert_ids r x h : r ∈ ids (upsert x h) <-> r = id (summary x) \/ r ∈ ids h.
Proof. rewrite upsert_ids. case_decide; set_solver. Qed.

Lemma upsert_well_formed x c :
  state (summary x) = Stopped -> well_formed c -> well_formed (None, upsert x c.1.2, c.2).
Proof.
  intros Hx [H1 H2 H3]. split; cbn; [|by apply upsert_Forall|done].
  rewrite upsert_ids. case_decide; [done|]. apply NoDup_app.
  split_and!; [done|set_solver|apply NoDup_singleton].
Qed.

Lemma finish_moves x st h n :
  state (summary x) = Stopped -> inv (Some (id (summary x), st), h, n) ->
  inv (None, upsert x h, n) /\ moves (Some (id (summary x), st), h, n) (None, upsert x h, n).
Proof.
  intros Hx [Hw Hf]. split; split; cbn.
  - by apply (upsert_well_formed x _ Hx Hw).
  - intros [F1 F2 F3]%Hf. cbn in *. destruct (F3 _ _ eq_refl) as [? ?]. split; cbn; [done| |done].
    intros r [->|?]%elem_of_upsert_ids; auto.
  - apply upsert_prefix.
  - intros [F1 F2 F3]%Hf r y Hy. cbn in *. destruct (F3 _ _ eq_refl) as [_ Hn].
    rewrite upsert_find. case_decide as Hd; [|done]. subst r.
    apply find_snapshot_none in Hn. congruence.
  - intros _ _ r. unfold tracked. cbn. rewrite elem_of_upsert_ids. naive_solver.
Qed.

Lemma restore_moves x st h n :
  state (summary x) = Stopped ->
  (opening = false -> selecting = true /\ find_snapshot (id (summary x)) h = Some x) ->
  inv (st, h, n) -> inv (None, upsert x h, n) /\ moves (st, h, n) (None, upsert x h, n).
Proof.
  intros Hx Hsame [Hw Hf]. split; split; cbn.
  - by apply (upsert_well_formed x _ Hx Hw).
  - intros Ho. destruct (Hf Ho) as [F1 F2 F3]. rewrite (upsert_same x h) by (by apply Hsame). by split.
  - apply upsert_prefix.
  - intros Ho. by rewrite (upsert_same x h) by (by apply Hsame).
  - intros [Hs _]%Hsame. congruence.
Qed.

(** ** Every request keeps to it *)

Abbreviation Inv := (fun s => inv (control s)).
Abbreviation Rel := (fun s s' => moves (control s) (control s')).

#[export] Instance Rel_preorder : PreOrder Rel.
Proof. split; [intros s; reflexivity|intros s1 s2 s3; apply transitivity]. Qed.

Lemma quiet_guarantee {A} (p : prog A) s : quiet p -> rg Inv Rel Rel unwrapped p (fun _ s' => Rel s s') s.
Proof.
  apply rg_quiet; [apply _|done|]. intros s1 s2 Hc Hi. rewrite Hc. split; [done|reflexivity].
Qed.

Lemma rg_quiet_bind {A B} (p : prog A) (k : A -> prog B) Q s :
  quiet p -> (forall a s', Rel s s' -> rg Inv Rel Rel unwrapped (k a) Q s') ->
  rg Inv Rel Rel unwrapped (bind p k) Q s.
Proof. intros Hp Hk. eapply rg_bind; [by apply quiet_guarantee|]. cbn. auto. Qed.

Lemma rg_forget {A} (p : prog A) (Q : unit -> ServerState -> Prop) s :
  rg Inv Rel Rel unwrapped p (fun _ => Q tt) s -> rg Inv Rel Rel unwrapped (forget p) Q s.
Proof. intros Hp. eapply rg_bind; [exact Hp|]. by intros a s' ?. Qed.

Lemma control_active s a :
  active (inner s) = Some a -> control s = (Some (id a, state a), history (inner s), next_run_id s).
Proof. intros Ha. unfold control. by rewrite Ha. Qed.

Lemma control_none s :
  active (inner s) = None -> control s = (None, history (inner s), next_run_id s).
Proof. intros Ha. unfold control. by rewrite Ha. Qed.

(** The active run is always recording: there is never one to sweep. *)
Lemma sweep_guarantee now s :
  rg Inv Rel Rel unwrapped (sweep_stopped_active_into_history now) (fun _ s' => Rel s s') s.
Proof.
  unfold sweep_stopped_active_into_history. eapply rg_bind.
  - apply (rg_section _ _ _ _ _ (fun taken s' => Rel s s' /\ (taken = inl None \/ exists e, taken = inr e))).
    intros s1 Hs Hi _. destruct (active (inner s1)) as [a|] eqn:Ha; [|cbn; split_and!; [done|reflexivity|done|by left]].
    rewrite decide_True; [cbn; split_and!; [done|reflexivity|done|by right; eexists]|].
    destruct Hi as [[_ _ Hrec] _]. rewrite (control_active _ _ Ha) in Hrec. by eapply (Hrec (id a)).
  - intros taken s' [Hs [-> |[e ->]]]; exact Hs.
Qed.

Lemma begin_guarantee label sweep_now now s :
  rg Inv Rel Rel unwrapped (begin_run label sweep_now now) (fun _ _ => True) s.
Proof.
  unfold begin_run. eapply rg_bind; [apply sweep_guarantee|]. intros [|e] s' _; [|done].
  apply rg_section. intros s1 _ Hi Hv. destruct (active (inner s1)) as [a|] eqn:Ha; cbn in *.
  - split_and!; [done|reflexivity|done].
  - rewrite (control_none _ Ha) in *. destruct (begin_moves _ _ Hi Hv). by split_and!.
Qed.

Lemma snapshot_guarantee now run s :
  rg Inv Rel Rel unwrapped (snapshot_from_query_state now run) (fun x s' => summary x = run /\ Rel s s') s.
Proof. apply rg_quiet_bind; [apply quiet_archive|]. by intros a s' ?. Qed.

(** The end of a run stores it. *)
Lemma finalize_guarantee run_id reason now archive_now s :
  rg Inv Rel Rel unwrapped (finalize_run run_id reason now archive_now)
    (fun _ s' => opening = false -> selecting = false -> tracked run_id (control s) ->
                 run_id ∈ ids (history (inner s'))) s.
Proof.
  unfold finalize_run. eapply rg_bind.
  - apply (rg_reading _ _ _ _ _ (fun found s' => Rel s s' /\
      match found with
      | Some a => id a = run_id
      | None => tracked run_id (control s') -> run_id ∈ ids (history (inner s'))
      end)).
    intros s1 Hs _. split; [done|]. unfold tracked, control. cbn.
    destruct (active (inner s1)) as [a|]; [|naive_solver]. case_decide; [done|]. cbn. naive_solver.
  - intros [a|] s1 [Hs Hfound].
    + eapply rg_bind; [apply (snapshot_guarantee archive_now)|]. intros x s2 [Hx Hs2].
      assert (id (summary x) = run_id /\ state (summary x) = Stopped) as [Hid Hst] by (by rewrite Hx).
      apply rg_section. intros s3 Hs3 Hi _. cbn [fst]. case_decide as Hd.
      * destruct (active (inner s3)) as [b|] eqn:Hb; [|discriminate Hd]. injection Hd as Hd.
        rewrite <- Hid in Hd. rewrite (control_active _ _ Hb), Hd in *.
        destruct (finish_moves x _ _ _ Hst Hi) as [? ?]. split_and!; [done..|]. intros _ _ _.
        cbn. apply elem_of_upsert_ids. by left.
      * split_and!; [done|reflexivity|]. intros H1 H2 Ht.
        assert (Rel s s3) as Hr by (etrans; [exact Hs|]; by etrans).
        apply (runs_tracked _ _ Hr H1 H2) in Ht as [Ht|Ht]; [|done]. exfalso. apply Hd.
        revert Ht. unfold control. cbn. by destruct (active (inner s3)).
    + intros H1 H2 Ht. apply Hfound. by eapply (runs_tracked _ _ Hs).
Qed.

Lemma restore_guarantee a run s :
  state run = Stopped ->
  (opening = false -> selecting = true /\
     find_snapshot (id run) (history (inner s)) = Some (mkRunSnapshot run a)) ->
  rg Inv Rel Rel unwrapped (restore_archive_to_query_state a run) (fun _ _ => True) s.
Proof.
  intros Hst Hsame. unfold restore_archive_to_query_state. destruct (negb _); [done|].
  do 4 (apply rg_quiet_bind; [by apply quiet_writing|]; intros _ ? ?).
  eapply rg_bind; [|intros _ ? _; apply rg_quiet_bind; [apply quiet_bump|done]].
  apply (rg_section _ _ _ _ _ (fun _ _ => True)). intros s5 Hs5 Hi _. cbn [fst].
  assert (Rel s s5) as Hr by (repeat first [exact Hs5 | etrans; [eassumption|]]).
  unfold control in Hi at 1. apply (restore_moves (mkRunSnapshot run a)) in Hi as [? ?]; [by split_and!|done|].
  intros Ho. destruct (Hsame Ho) as [Hsel Hf]. split; [done|].
  by apply (snapshots_stay _ _ Hr Ho) in Hf.
Qed.

Lemma select_guarantee run_id now s :
  selecting = true ->
  rg Inv Rel Rel unwrapped (select_run_archive run_id now) (fun _ _ => True) s.
Proof.
  intros Hsel. unfold select_run_archive. eapply rg_bind; [apply sweep_guarantee|]. intros [|e] s1 _; [|done].
  eapply rg_bind.
  - apply (rg_reading _ _ _ _ _ (fun snapshot s' => forall x, snapshot = Some x ->
      find_snapshot (id (summary x)) (history (inner s')) = Some x /\ state (summary x) = Stopped)).
    intros s2 _ [[_ Hst _] _] x Hx. pose proof (find_snapshot_id _ _ _ Hx) as [<- Hin].
    split; [exact Hx|]. rewrite Forall_forall in Hst. by apply Hst.
  - intros [[run a]|] s2 Hx; [|done]. destruct (Hx _ eq_refl). by apply restore_guarantee.
Qed.

Lemma open_guarantee a now s :
  opening = true ->
  rg Inv Rel Rel unwrapped (open_saved_archive a now) (fun _ _ => True) s.
Proof.
  intros Ho. unfold open_saved_archive. destruct (negb _); [done|]. destruct (last (runs a)) as [run|]; [|done].
  cbn zeta. match goal with |- context [restore_archive_to_query_state a ?r] => set (run' := r) end.
  assert (state run' = Stopped) as Hst by (subst run'; by destruct (stopped_at_unix_ns _)).
  eapply rg_bind; [apply sweep_guarantee|]. intros [|e] s1 _; [|done].
  eapply rg_bind; [apply restore_guarantee; [done|congruence]|]. intros [|e] s2 _; [|done].
  eapply rg_bind; [|by intros ? ? _; exact I].
  apply (rg_section _ _ _ _ _ (fun _ _ => True)). intros s3 _ [[] _] _. cbn [fst].
  split_and!; [|split; cbn|done]; [split; [|congruence]|..]; case_decide; try done; congruence.
Qed.

(** What the end of the run [target] promises. *)
Definition promise (target : option Z) (r : request) (s : ServerState) : Prop :=
  match r with
  | FinalizeRun run_id _ _ _ =>
      target = Some run_id -> opening = false -> selecting = false -> run_id ∈ ids (history (inner s))
  | _ => True
  end.

Lemma promise_stable target r : stable Rel (promise target r).
Proof.
  intros s s' Hr Hp. destruct r; try done. intros Ht Ho Hs. specialize (Hp Ht Ho Hs).
  destruct (ids_grow _ _ Hr) as [l Hl]. cbn in Hl. rewrite Hl. set_solver.
Qed.

Definition targeted (target : option Z) (s : ServerState) : Prop :=
  match target with
  | Some r => opening = false -> selecting = false -> tracked r (control s)
  | None => True
  end.

Lemma targeted_stable target : stable Rel (targeted target).
Proof. destruct target as [r|]; [|done]. intros s s' Hr Ht Ho Hs. apply (runs_tracked _ _ Hr Ho Hs). auto. Qed.

Lemma serve_guarantee target r s :
  allowed r -> targeted target s ->
  rg Inv Rel Rel unwrapped (serve r) (fun _ => promise target r) s.
Proof.
  intros Ha Ht. destruct (controls r) eqn:Hc.
  - destruct r; try discriminate Hc; cbn [serve allowed promise] in *.
    + apply rg_forget, begin_guarantee.
    + eapply rg_weaken; [|apply finalize_guarantee]. cbn. intros _ s' Hf -> Ho Hs. by apply Hf, Ht.
    + by apply rg_forget, open_guarantee.
    + by apply rg_forget, select_guarantee.
  - eapply rg_weaken; [|by apply quiet_guarantee, quiet_serve]. by destruct r.
Qed.

Definition system := step serve allowed unwrapped.
Definition reachable c := rtc system (new, []) c.

(** The invariant, and the guarantee of what is under way. *)
Definition sound (c : ServerState * list (request * prog unit)) : Prop :=
  inv (control c.1) /\ guaranteed unwrapped Inv (fun _ => Rel) (fun _ => Rel) (fun _ => promise None) c.

Lemma new_inv : inv (control new).
Proof.
  split; [split; cbn; [constructor..|done]|]. intros _. split; cbn; [lia| |done]. intros r Hr.
  by apply not_elem_of_nil in Hr.
Qed.

Lemma sound_steps c0 c : sound c0 -> rtc system c0 c -> sound c /\ Rel c0.1 c.1.
Proof.
  intros [Hi0 Hg0] Hs.
  destruct (pool_sound serve allowed unwrapped Inv (fun _ => Rel) (fun _ => Rel) Rel (fun _ => True) (fun _ => promise None)
    (fun _ _ _ _ _ H => H) (fun _ _ _ H => H) c0 c)
    as (? & ? & _ & ?); try done.
  - intros i r s _ Ha _. by apply serve_guarantee.
  - intros _. apply promise_stable.
Qed.

Lemma reachable_sound c : reachable c -> sound c.
Proof. intros Hc. eapply sound_steps, Hc. split; [apply new_inv|by intros i r p Hi]. Qed.

(** What arrives later also keeps the promise about [target]. *)
Lemma promise_steps c0 c target :
  sound c0 -> rtc system c0 c -> targeted target c0.1 ->
  forall i r p, (length c0.2 <= i)%nat -> c.2 !! i = Some (r, p) ->
    rg Inv Rel Rel unwrapped p (fun _ => promise target r) c.1.
Proof.
  intros [Hi Hg] H1 Ht.
  destruct (pool_sound serve allowed unwrapped Inv (fun _ => Rel) (fun _ => Rel) Rel (targeted target)
    (fun i => promise (if decide (length c0.2 <= i)%nat then target else None))
    (fun _ _ _ _ _ H => H) (fun _ _ _ H => H) c0 c)
    as (_ & _ & _ & Hg'); [..|exact H1|].
  { intros i r s Hge Ha Hs. rewrite decide_True by done. by apply serve_guarantee. }
  { apply targeted_stable. } { intros i. apply promise_stable. } { done. } { done. }
  { intros i r p Hp. rewrite decide_False by (apply lookup_lt_Some in Hp; lia). by apply (Hg i r p). }
  intros i r p Hge Hp. specialize (Hg' i r p Hp). cbn beta in Hg'. by rewrite decide_True in Hg'.
Qed.

End Guarantee.

(** ** Properties *)

Lemma stop_poll_some r s : is_Some (stop_poll r s) <-> r ∈ ids (history (inner s)).
Proof.
  unfold stop_poll, snapshot_for_run. rewrite fmap_is_Some, <- not_eq_None_Some, find_snapshot_none.
  split; [apply dec_stable|naive_solver].
Qed.

(** C8. Whatever requests arrive and however their sections interleave, stored
    runs are stopped and have distinct ids, the active run is recording, and a
    run once stored stays stored, so that a caller polling for it is answered
    from then on. *)
Theorem interleavings_safe c c' r :
  reachable true true c -> rtc (system true true) c c' ->
  well_formed (control c.1) /\
  ids (history (inner c.1)) `prefix_of` ids (history (inner c'.1)) /\
  (is_Some (stop_poll r c.1) -> is_Some (stop_poll r c'.1)).
Proof.
  intros Hc Hs. destruct (reachable_sound _ _ _ Hc) as [[Hw Hf] Hg].
  destruct (sound_steps true true c c' (conj (conj Hw Hf) Hg) Hs) as [_ [[l Hl] _ _]]. cbn in Hl.
  split_and!; [done|by exists l|]. rewrite !stop_poll_some, Hl. set_solver.
Qed.

(** C3. A stop is answered. While stored runs are neither opened nor selected and the
    run counter does not wrap, once the request that ends the active run [r] has
    been served, however its sections were interleaved with those of other requests,
    a poll for [r] finds the run, stopped, and finds the same summary ever after. *)
Theorem stop_answered c0 c i r reason now archive_now :
  reachable false false c0 -> id <$> active (inner c0.1) = Some r ->
  rtc (system false false) c0 c -> (length c0.2 <= i)%nat ->
  c.2 !! i = Some (FinalizeRun r reason now archive_now, Done tt) ->
  exists run, id run = r /\ state run = Stopped /\
    forall c', rtc (system false false) c c' -> stop_poll r c'.1 = Some run.
Proof.
  intros H0 Ha H1 Hge Hp. pose proof (reachable_sound _ _ _ H0) as Hs0.
  destruct (sound_steps _ _ _ _ Hs0 H1) as [Hs1 _].
  assert (targeted false false (Some r) c0.1) as Ht.
  { intros _ _. left. unfold control. cbn. by destruct (active (inner c0.1)). }
  pose proof (promise_steps false false c0 c (Some r) Hs0 H1 Ht i _ _ Hge Hp) as Hr.
  apply stop_poll_some in Hr as [run Hrun]; [|done..]. exists run.
  unfold stop_poll, snapshot_for_run in Hrun.
  destruct (find_snapshot r (history (inner c.1))) as [x|] eqn:Hx; [|done]. injection Hrun as <-.
  destruct (find_snapshot_id _ _ _ Hx) as [Hid Hin]. split; [done|]. split.
  - destruct Hs1 as [[Hw _] _]. pose proof (history_stopped _ Hw) as Hst. rewrite Forall_forall in Hst. by apply Hst.
  - intros c' H2. destruct (sound_steps _ _ _ _ Hs1 H2) as [_ Hm].
    pose proof (snapshots_stay _ _ _ _ Hm eq_refl r x Hx) as Hx'. cbn [control fst snd] in Hx'.
    unfold stop_poll, snapshot_for_run. by rewrite Hx'.
Qed.

(** The run as [finalize_run] stores it. *)
Definition stopped_run (a : RunSummary) (reason : StopReason) (now : Z) : RunSummary :=
  a <| state := Stopped |> <| stop_reason := Some reason |> <| stopped_at_unix_ns := Some now |>.

Definition query_snapshot (archive_now : Z) (run : RunSummary) (s : ServerState) : RunSnapshot :=
  mkRunSnapshot run (mkSavedRunArchive ARCHIVE_FORMAT_VERSION archive_now [run]
    (save_aggregator (s_aggregator s)) (Bin.to_saved (s_binaries s)) (lanes_diagnostics (target_lanes s))
    (save_observability (s_observability s))).

Lemma finalize_exec s a reason now archive_now :
  active (inner s) = Some a ->
  exec (finalize_run (id a) reason now archive_now) s =
  (with_inner (fun i =>
     upsert_history_snapshot (query_snapshot archive_now (stopped_run a reason now) s) i
       <| selected := Some (stopped_run a reason now) |> <| recording_stop := None |>
       <| active := None |>) s, tt).
Proof.
  intros Ha. unfold finalize_run. rewrite exec_bind, exec_reading. cbn [fst snd].
  rewrite Ha. rewrite decide_True by done. cbn zeta. rewrite exec_bind.
  fold (stopped_run a reason now). set (run := stopped_run a reason now).
  assert (exec (snapshot_from_query_state archive_now run) s = (s, query_snapshot archive_now run s)) as -> by done.
  cbn [fst snd]. rewrite exec_writing. cbn beta. rewrite Ha. by rewrite decide_True by done.
Qed.

Lemma archive_profiler s run archive_now :
  Obs.store_ok (s_observability s) -> Bin.registry_ok (s_binaries s) ->
  let l := profiler_from_archive (snapshot_archive (query_snapshot archive_now run s)) in
  l_aggregator l = s_aggregator s /\ l_observability l = s_observability s /\
  Bin.by_base (l_binaries l) = Bin.by_base (s_binaries s).
Proof.
  intros Ho Hb. cbn. split_and!.
  - apply (Log.saved_log_restored _ Log.aggregator_default); apply entries_perm.
  - apply (Obs.saved_store_restored _ _ _ _ Obs.store_default); [done|apply entries_perm..].
  - by apply (Bin.saved_registry_restored _ Bin.new).
Qed.

(** C1. Runs are isolated.  Once the active run [a] is stored, queries of its id
    see its summary, its aggregator, its signal store, its binaries and its
    target diagnostics as they were at that moment, whatever runs are started,
    recorded, stored or selected afterwards, in any interleaving, as long as no
    archive is opened and the run counter does not wrap. *)
Theorem run_isolated s ps a reason now archive_now c :
  reachable false true (s, ps) -> active (inner s) = Some a ->
  Obs.store_ok (s_observability s) -> Bin.registry_ok (s_binaries s) ->
  rtc (system false true) ((exec (finalize_run (id a) reason now archive_now) s).1, ps) c ->
  let l := profiler_for_run (Some (id a)) c.1 in
  stop_poll (id a) c.1 = Some (stopped_run a reason now) /\
  l_aggregator l = s_aggregator s /\ l_observability l = s_observability s /\
  Bin.by_base (l_binaries l) = Bin.by_base (s_binaries s) /\
  diagnostics_for_run (Some (id a)) c.1 = ([], lanes_diagnostics (target_lanes s)).
Proof.
  intros Hs Ha Ho Hb Hc. destruct (reachable_sound _ _ _ Hs) as [Hi Hg].
  rewrite (finalize_exec _ _ _ _ _ Ha) in Hc. cbn [fst] in Hc. set (s1 := with_inner _ s) in Hc.
  set (x := query_snapshot archive_now (stopped_run a reason now) s) in *.
  cbn [fst] in Hi. rewrite (control_active _ _ Ha) in Hi.
  destruct (finish_moves false true x _ _ _ eq_refl Hi) as [Hi1 Hr1].
  assert (sound false true (s1, ps)) as Hs1.
  { split; [exact Hi1|]. eapply guaranteed_moves; [apply _|..|exact Hg]; intros _; [apply promise_stable|].
    cbn [fst]. by rewrite (control_active _ _ Ha). }
  destruct (sound_steps _ _ _ _ Hs1 Hc) as [[[_ Hf] _] Hr].
  pose proof (snapshots_stay _ _ _ _ Hr eq_refl (id a) x) as Hx. cbn in Hx.
  rewrite upsert_find, decide_True in Hx by done. specialize (Hx eq_refl).
  assert (is_active_run (id a) c.1 = false) as Hact.
  { unfold is_active_run. destruct (active (inner c.1)) as [b|] eqn:Hb'; [|done].
    rewrite (control_active _ _ Hb') in Hf. destruct (active_before_next _ (Hf eq_refl) _ _ eq_refl) as [_ Hn].
    apply bool_decide_eq_false. intros He. cbn in Hn. rewrite He in Hn. apply find_snapshot_none in Hn. congruence. }
  destruct (archive_profiler s (stopped_run a reason now) archive_now Ho Hb) as (? & ? & ?).
  unfold profiler_for_run, diagnostics_for_run, stop_poll, snapshot_for_run. rewrite Hact, Hx. by split_and!.
Qed.

Lemma sweep_exec now s :
  active (inner s) = None -> exec (sweep_stopped_active_into_history now) s = (s, inl tt).
Proof.
  intros Ha. unfold sweep_stopped_active_into_history. rewrite exec_bind, exec_section, Ha. done.
Qed.

Lemma restore_exec a run s :
  is_supported_archive_version (format_version a) = true ->
  exec (restore_archive_to_query_state a run) s =
  (mkServerState
     (mkInner None (Some run) None (upsert (mkRunSnapshot run a) (history (inner s))))
     (Log.replace_from_saved (aggregator a) (s_aggregator s))
     (Bin.replace_from_saved (binaries a) (s_binaries s))
     (Obs.replace_from_saved (observability a) (s_observability s))
     (wadd64 (revision s) 1) (next_run_id s)
     (Lanes.restore_saved_diagnostics (target_ingest a) Lanes.registry_default) (stop_flags s), inl run).
Proof. intros Hv. unfold restore_archive_to_query_state. by rewrite Hv. Qed.

(** The last run of an opened archive, as it is stored. *)
Definition opened_run (a : SavedRunArchive) (run : RunSummary) : RunSummary :=
  run <| state := Stopped |> <| stopped_at_unix_ns ::= fun t => Some (default (saved_at_unix_ns a) t) |>.

(** Opening an archive with nothing active stores its last run as a stopped
    one, makes it what is queried and moves the run counter past it, whatever run of
    that id the server already had: the snapshot of a run recorded here with the
    same id is replaced. *)
Theorem open_saved_exact a run now s :
  is_supported_archive_version (format_version a) = true -> last (runs a) = Some run ->
  active (inner s) = None ->
  let s' := (exec (open_saved_archive a now) s).1 in
  (exec (open_saved_archive a now) s).2 = inl tt /\
  queryable_run_summary s' = Some (opened_run a run) /\
  snapshot_for_run (id run) s' = Some (mkRunSnapshot (opened_run a run) a) /\
  (forall r, r <> id run -> snapshot_for_run r s' = snapshot_for_run r s) /\
  next_run_id s' = Z.max (next_run_id s) (sadd64 (id run) 1).
Proof.
  intros Hv Hl Ha. unfold open_saved_archive. rewrite Hv, Hl. cbn [negb]. cbn zeta.
  match goal with |- context [restore_archive_to_query_state a ?r] => assert (r = opened_run a run) as -> end.
  { unfold opened_run. by destruct run as [? ? ? ? []]. }
  rewrite exec_bind, (sweep_exec _ _ Ha). cbn [fst snd]. rewrite exec_bind, (restore_exec _ _ _ Hv).
  cbn [fst snd]. unfold advance_next_run_id. rewrite exec_bind, exec_writing. cbn [fst snd exec].
  unfold snapshot_for_run, queryable_run_summary. case_decide as Hd; cbn in Hd |- *.
  all: split_and!; [done|done| | |change (id (opened_run a run)) with (id run) in *; lia].
  all: try (rewrite upsert_find; by rewrite decide_True).
  all: intros r Hr; rewrite upsert_find, decide_False; [done|by intros <-].
Qed.

End Sessions.

(** ** Examples *)

#[local] Existing Instance canonical_order.

Definition alone (i n : nat) : list (request + nat) := replicate n (inr i).

Definition demo_binary : Sink.LiveSink.LiveBinaryLoadedEvent :=
  Sink.LiveSink.mkLiveBinaryLoadedEvent [47; 97] 0x1000 0x100 0x1000 None true
    [Sink.Sink.mkMachOSymbol 0x1000 0x1040 [102]] None.

Definition demo_sample : Sink.LiveSink.LiveSampleEvent :=
  Sink.LiveSink.mkLiveSampleEvent 100 42 7 0 [] [0x1010; 0x1020] 5 6 0 0.

(** A run records a binary and a sample. *)
Definition demo_record : list (request + nat) :=
  [inl (StartAttach "one" 1 2)] ++ alone 0 2 ++
  [inl (SinkCall 1 (Sink.LiveSink.live_target_attached 42 0))] ++ alone 1 3 ++
  [inl (SinkCall 1 (Sink.LiveSink.live_binary_loaded demo_binary))] ++ alone 2 2 ++
  [inl (SinkCall 1 (Sink.LiveSink.live_sample demo_sample))] ++ alone 3 3.

(** It is stored, and selected again while the next run starts. *)
Definition demo_store : list (request + nat) := [inl (FinalizeRun 1 UserStop 8 9)] ++ alone 4 3.

Definition demo_race (first : nat) : list (request + nat) :=
  [inl (SelectRun 1 10)] ++ alone first 2 ++ [inl (StartAttach "two" 11 12)] ++ alone (S first) 2 ++
  alone first 6 ++ [inl (FinalizeRun 2 UserStop 13 14)] ++ alone (S (S first)) 1.

Definition demo (choices : list (request + nat)) : ServerState * list (request * prog unit) :=
  schedule serve (new, []) choices.

Lemma demo_reachable opening selecting choices :
  legal serve (allowed opening selecting) (unwrapped opening) (new, []) choices ->
  reachable opening selecting (demo choices).
Proof. apply schedule_steps. Qed.

Lemma demo_continues opening selecting c choices :
  legal serve (allowed opening selecting) (unwrapped opening) c choices ->
  rtc (system opening selecting) c (schedule serve c choices).
Proof. apply schedule_steps. Qed.

Ltac run_demo := first [apply demo_reachable | apply demo_continues]; vm_compute; repeat split; try reflexivity.

Lemma interleavings_safe_witness :
  well_formed (control (demo (demo_record ++ demo_store)).1) /\
  is_Some (stop_poll 1 (schedule serve (demo (demo_record ++ demo_store)) (demo_race 5)).1).
Proof.
  destruct (interleavings_safe (demo (demo_record ++ demo_store))
    (schedule serve (demo (demo_record ++ demo_store)) (demo_race 5)) 1) as (Hw & _ & Hp); [run_demo..|].
  split; [exact Hw|]. apply Hp. eexists. vm_compute. reflexivity.
Defined.

Lemma stop_answered_witness :
  let c := schedule serve (demo demo_record) demo_store in
  rtc (system false false) (demo demo_record) c /\ exists run, id run = 1 /\ state run = Stopped /\ stop_poll 1 c.1 = Some run.
Proof.
  intros c. assert (H0 : reachable false false (demo demo_record)) by run_demo.
  assert (H1 : rtc (system false false) (demo demo_record) c) by (unfold c; run_demo).
  split; [exact H1|].
  destruct (stop_answered (demo demo_record) c 4 1 UserStop 8 9 H0) as (run & Hid & Hst & Hpoll);
    [vm_compute; reflexivity|exact H1|vm_compute; lia|vm_compute; reflexivity|].
  exists run. split; [exact Hid|]. split; [exact Hst|]. by apply Hpoll.
Defined.

Lemma run_isolated_witness :
  let s := (demo demo_record).1 in
  let c := schedule serve ((exec (finalize_run 1 UserStop 8 9) s).1, (demo demo_record).2) (demo_race 4) in
  Log.threads (l_aggregator (profiler_for_run (Some 1) c.1)) = Log.threads (s_aggregator s) /\
  Bin.by_base (l_binaries (profiler_for_run (Some 1) c.1)) = Bin.by_base (s_binaries s) /\
  Bin.by_base (s_binaries s) <> [].
Proof.
  cbn zeta. set (a := mkRunSummary 1 Recording None 2 None (Some 42) "one" 1 0).
  destruct (run_isolated (demo demo_record).1 (demo demo_record).2 a UserStop 8 9
    (schedule serve ((exec (finalize_run 1 UserStop 8 9) (demo demo_record).1).1, (demo demo_record).2)
       (demo_race 4))) as (_ & Ha & _ & Hb & _).
  - rewrite <- surjective_pairing. run_demo.
  - vm_compute. reflexivity.
  - assert (s_observability (demo demo_record).1 = Obs.store_default) as -> by (vm_compute; reflexivity).
    apply Obs.store_default_ok.
  - assert (s_binaries (demo demo_record).1 = Bin.insert (Recorder.loaded_binary demo_binary)
      (Bin.set_target 42 0 Bin.new)) as -> by (vm_compute; reflexivity).
    apply Bin.insert_ok. split; [by left|constructor..].
  - run_demo.
  - change (id a) with 1 in Ha, Hb. split_and!; [by rewrite Ha|exact Hb|vm_compute; discriminate].
Defined.

(** A run can be lost: when a stored run is selected while the next run
    starts, the restore clears the active run after the new one was started, the
    end of that run finds nothing to store, and nothing is left that will store
    it, so that a caller polling for it is not answered. *)
Theorem selection_loses_run :
  exists c, reachable false true c /\ finished c.2 /\
    (map fst c.2 = [StartAttach "one" 1 2; FinalizeRun 1 UserStop 8 9; SelectRun 1 10;
       StartAttach "two" 11 12; FinalizeRun 2 UserStop 13 14]) /\
    next_run_id c.1 = 3 /\ active (inner c.1) = None /\
    is_Some (stop_poll 1 c.1) /\ stop_poll 2 c.1 = None.
Proof.
  exists (demo ([inl (StartAttach "one" 1 2)] ++ alone 0 2 ++ [inl (FinalizeRun 1 UserStop 8 9)] ++
    alone 1 3 ++ demo_race 2)).
  split; [run_demo|]. vm_compute. split_and!; eauto. repeat constructor.
Qed.

(** Two lanes of a target report the same span at once. *)
Definition demo_lane (lane : string) : request :=
  IngestSpans (TargetIngest.mkTargetSpanBatch 42 lane StackTree.Generic
    [TargetIngest.span_new "x" 10 20] (TargetIngest.mkTargetRecordBatch 0 0 0 0 0 0 0 0)).

Definition demo_lanes : list (request + nat) :=
  [inl (StartAttach "one" 1 2)] ++ alone 0 2 ++
  [inl (SinkCall 1 (Sink.LiveSink.live_target_attached 42 0))] ++ alone 1 3 ++
  [inl (demo_lane "c")] ++ alone 2 10 ++
  [inl (demo_lane "a")] ++ alone 3 4 ++ [inl (demo_lane "b")] ++ alone 4 10 ++ alone 3 10.

(** A name can get lost: the registry of names is unlocked before the binary
    with all names is published, so that of two lanes that get their names at
    once the one published last may be the older list, and a recorded stack then
    has an address that no symbol of any binary names. *)
Theorem lane_name_lost :
  exists c addr, reachable false false c /\ finished c.2 /\
    Lanes.symbol_addrs (target_lanes c.1) !! Lanes.Lane "b" = Some addr /\
    (exists tid i, i ∈ Log.intervals (Log.thread_log tid (s_aggregator c.1)) /\
       match Log.kind i with Log.SyntheticSpan stack _ _ => addr ∈ stack | _ => False end) /\
    map (fun b => Bin.symbol_before (Bin.svma_for b addr) (Bin.symbols b)) (Bin.by_base (s_binaries c.1)) = [None].
Proof.
  exists (demo demo_lanes), (Lanes.SYNTH_BINARY_BASE_AVMA + 48). split; [run_demo|].
  split; [vm_compute; repeat constructor|]. split; [vm_compute; reflexivity|]. split.
  - exists (Lanes.SYNTH_TID_BASE + 2). vm_compute. eexists. split; [left|]. right. left.
  - vm_compute. reflexivity.
Qed.

Lemma open_saved_exact_witness :
  let s := (demo (demo_record ++ demo_store)).1 in
  let s' := (exec (open_saved_archive demo_archive 20) s).1 in
  state (opened_run demo_archive demo_summary) = Stopped /\
  snapshot_for_run 1 s' = Some (mkRunSnapshot (opened_run demo_archive demo_summary) demo_archive) /\
  next_run_id s' = 2.
Proof.
  intros s s'. split; [reflexivity|].
  destruct (open_saved_exact demo_archive demo_summary 20 s) as (_ & _ & Hs & _ & Hn);
    [vm_compute; reflexivity|vm_compute; reflexivity|vm_compute; reflexivity|].
  split; [exact Hs|]. transitivity (Z.max (next_run_id s) (sadd64 (id demo_summary) 1)); [exact Hn|].
  vm_compute. reflexivity.
Defined.

End Sessions.
