(* ===== verification/Locks.v ===== *)
(** * The server's locks

    [stax-server/src/main.rs], [target_ingest.rs] and [recorder.rs] and the
    service of [stax-live/src/lib.rs] share five locks.  Here an operation is
    what it locks and unlocks, in order, with the guards alive as long as the
    code keeps them: a guard bound by [let] to the end of its block, a guard that
    is a temporary to the end of the statement, of the tail expression or of the
    [if let] it occurs in.  The locks are those of [parking_lot], a parameter
    here: [LockPolicy] states what its documentation promises. *)

From S2P Require Import Prelude.

Module Locks.

Inductive lock := InnerLock | AggregatorLock | BinariesLock | TargetLanesLock | ObservabilityLock.

Inductive mode := Read | Write.

#[export] Instance lock_eq_dec : EqDecision lock.
Proof. solve_decision. Defined.
#[export] Instance mode_eq_dec : EqDecision mode.
Proof. solve_decision. Defined.

Inductive action :=
  | Acquire (l : lock) (m : mode)
  | Release (l : lock) (m : mode).

(** What a thread has locked and has still to do, and the ways through another
    turn of the loop it polls in, if it does. *)
Record thread := mkThread { held : list (lock * mode); todo : list action; again : list (list action) }.

(** ** The locks *)

(** Two holders of one lock exclude each other unless both read. *)
Definition conflicts (m m' : mode) : Prop := m = Write \/ m' = Write.

#[export] Instance conflicts_dec m m' : Decision (conflicts m m').
Proof. unfold conflicts. apply _. Defined.

(** Some thread holds [l] against a request for [m]. *)
Definition excluded (l : lock) (m : mode) (ts : list thread) : Prop :=
  exists t m', t ∈ ts /\ (l, m') ∈ held t /\ conflicts m m'.

(** Some thread is next to lock [l] for writing. *)
Definition writer_waits (l : lock) (ts : list thread) : Prop :=
  exists t rest, t ∈ ts /\ todo t = Acquire l Write :: rest.

Lemma excluded_or_not l m ts : excluded l m ts \/ ~ excluded l m ts.
Proof.
  destruct (decide (Exists (fun t => Exists (fun x => x.1 = l /\ conflicts m x.2) (held t)) ts)) as [H|H].
  - left. apply Exists_exists in H as (t & Ht & H). apply Exists_exists in H as ([? m'] & Hx & <- & Hc).
    by exists t, m'.
  - right. intros (t & m' & Ht & Hh & Hc). apply H, Exists_exists. exists t. split; [done|].
    apply Exists_exists. by exists (l, m').
Qed.

#[export] Instance action_eq_dec : EqDecision action.
Proof. solve_decision. Defined.

Lemma writer_waits_or_not l ts : writer_waits l ts \/ ~ writer_waits l ts.
Proof.
  destruct (decide (Exists (fun t => head (todo t) = Some (Acquire l Write)) ts)) as [H|H].
  - left. apply Exists_exists in H as (t & Ht & H). destruct (todo t) as [|a rest] eqn:E; [done|].
    injection H as ->. by exists t, rest.
  - right. intros (t & rest & Ht & E). apply H, Exists_exists. exists t. by rewrite E.
Qed.

(** Whether a request for a lock is granted, the other threads being what they
    are: not against a holder it conflicts with, and not to a reader while a
    writer waits (the locks are fair); otherwise it is. *)
Class LockPolicy := {
  grants : lock -> mode -> list thread -> Prop;
  grants_exclusive : forall l m ts, excluded l m ts -> ~ grants l m ts;
  grants_fair : forall l ts, writer_waits l ts -> ~ grants l Read ts;
  grants_free : forall l m ts,
    ~ excluded l m ts -> (m = Read -> ~ writer_waits l ts) -> grants l m ts
}.

Fixpoint unlock (l : lock) (m : mode) (h : list (lock * mode)) : list (lock * mode) :=
  match h with
  | [] => []
  | x :: h => if decide (x = (l, m)) then h else x :: unlock l m h
  end.

Section Steps.
Context `{Policy : LockPolicy}.

Inductive step : list thread -> list thread -> Prop :=
  | acquire ts i h l m rest more :
      ts !! i = Some (mkThread h (Acquire l m :: rest) more) -> grants l m ts ->
      step ts (<[i := mkThread ((l, m) :: h) rest more]> ts)
  | release ts i h l m rest more :
      ts !! i = Some (mkThread h (Release l m :: rest) more) ->
      step ts (<[i := mkThread (unlock l m h) rest more]> ts).

(** A thread that polls goes round its loop once more, whenever it likes and as
    often as it likes. *)
Inductive turn : list thread -> list thread -> Prop :=
  | poll ts i more path :
      ts !! i = Some (mkThread [] [] more) -> path ∈ more -> turn ts (<[i := mkThread [] path more]> ts).

Definition moves (ts ts' : list thread) : Prop := step ts ts' \/ turn ts ts'.

End Steps.

(** Every operation is over, or between two turns of its loop. *)
Definition finished (ts : list thread) : Prop := Forall (fun t => todo t = []) ts.

(** ** What the operations lock *)

Definition locked (l : lock) (m : mode) (body : list action) : list action :=
  Acquire l m :: body ++ [Release l m].

Inductive operation :=
  | BeginRun | FinalizeRun | SelectRun | OpenSaved | SaveCurrent | StopActive | WaitActive | Mark | Markers
  | Status | Diagnostics | TargetAttached | SetStopFlag
  | OnSample | OnBinary | OnEvent | OnCpuInterval
  | IngestSpans (spans : nat) | IngestSignals | ReporterStats | ShouldReport
  | Query | QueryDisassembly | QuerySamples | QuerySignals | QueryContracts | QueryTimeline.

Definition archive_from_query_state : list action :=
  locked AggregatorLock Read (locked BinariesLock Read (locked TargetLanesLock Write
    (locked ObservabilityLock Read []))).

Definition store_current_query_snapshot : list action :=
  archive_from_query_state ++ locked InnerLock Write [].

Definition sweep : list (list action) :=
  [locked InnerLock Write []; locked InnerLock Write [] ++ store_current_query_snapshot].

Definition attach_local_shared_cache : list action := locked BinariesLock Write [].

Definition restore : list action :=
  locked AggregatorLock Write [] ++ locked BinariesLock Write [] ++ locked ObservabilityLock Write [] ++
  locked TargetLanesLock Write [] ++ attach_local_shared_cache ++ locked InnerLock Write [].

Definition reset : list action :=
  locked AggregatorLock Write [] ++ locked BinariesLock Write [] ++ locked ObservabilityLock Write [] ++
  locked TargetLanesLock Write [] ++ attach_local_shared_cache.

(** One path then another. *)
Definition followed_by (first second : list (list action)) : list (list action) :=
  p ← first; q ← second; [p ++ q].

Definition symbol_addr : list (list action) :=
  [locked TargetLanesLock Write []; locked TargetLanesLock Write [] ++ locked BinariesLock Write []].

Fixpoint symbol_addrs (n : nat) : list (list action) :=
  match n with
  | O => [[]]
  | S n => followed_by symbol_addr (symbol_addrs n)
  end.

(** A query first looks the run up, except for the current one; the locks of an
    archived run's profiler are its own. *)
Definition profiler_for_run (query : list (list action)) : list (list action) :=
  followed_by [[]; locked InnerLock Write []; locked InnerLock Write [] ++ locked InnerLock Write []]
    ([] :: query).

(** The ways through an operation; of [stop_active] and [wait_active], which poll
    in a loop, the ways through its first turn. *)
Definition paths (o : operation) : list (list action) :=
  match o with
  | BeginRun => followed_by sweep [[]; locked InnerLock Write []; locked InnerLock Write reset]
  | FinalizeRun =>
      [locked InnerLock Write [];
       locked InnerLock Write [] ++ archive_from_query_state ++ locked InnerLock Write []]
  | SelectRun => followed_by sweep [[]; locked InnerLock Write []; locked InnerLock Write [] ++ restore]
  | OpenSaved => [] :: followed_by sweep [[]; restore]
  | SaveCurrent => [locked InnerLock Write []; locked InnerLock Write [] ++ archive_from_query_state]
  | StopActive | Status | SetStopFlag | ShouldReport => [locked InnerLock Write []]
  | WaitActive =>
      [locked InnerLock Write []; locked InnerLock Write [] ++ locked BinariesLock Read [];
       locked InnerLock Write [] ++
         locked AggregatorLock Read (locked BinariesLock Read (locked ObservabilityLock Read []))]
  | Mark => [locked InnerLock Write []; locked InnerLock Write [] ++ locked AggregatorLock Write []]
  | Markers => [locked AggregatorLock Read []; locked InnerLock Write [] ++ locked AggregatorLock Read []]
  | Diagnostics => [locked InnerLock Write (locked TargetLanesLock Write [])]
  | TargetAttached => [locked InnerLock Write []; locked InnerLock Write [] ++ locked BinariesLock Write []]
  | OnSample => [locked InnerLock Write [] ++ locked AggregatorLock Write []]
  | OnBinary => [locked BinariesLock Write []]
  | OnEvent => [locked AggregatorLock Write []]
  | OnCpuInterval => [locked AggregatorLock Write []; locked InnerLock Write [] ++ locked AggregatorLock Write []]
  | IngestSpans n =>
      [] :: (locked InnerLock Write [] ++ locked TargetLanesLock Write []) ::
      followed_by
        (followed_by [locked InnerLock Write [] ++ locked TargetLanesLock Write [] ++ locked AggregatorLock Write []]
           (symbol_addrs (S n)))
        [locked TargetLanesLock Write []; locked AggregatorLock Write [] ++ locked TargetLanesLock Write []]
  | IngestSignals =>
      [[]; locked InnerLock Write [] ++ locked ObservabilityLock Write [];
       locked InnerLock Write [] ++ locked AggregatorLock Read [] ++ locked ObservabilityLock Write [];
       locked InnerLock Write [] ++ locked AggregatorLock Read [] ++
         locked ObservabilityLock Write (locked AggregatorLock Write [])]
  | ReporterStats => [locked InnerLock Write []; locked InnerLock Write [] ++ locked TargetLanesLock Write []]
  | Query => profiler_for_run [locked AggregatorLock Read (locked BinariesLock Read [])]
  | QueryDisassembly =>
      profiler_for_run [locked AggregatorLock Read (locked BinariesLock Read []) ++ locked BinariesLock Write []]
  | QuerySamples => profiler_for_run [locked AggregatorLock Read []]
  | QuerySignals => profiler_for_run [locked AggregatorLock Read [] ++ locked ObservabilityLock Read []]
  | QueryContracts => profiler_for_run [locked AggregatorLock Read (locked BinariesLock Read (locked ObservabilityLock Read []))]
  | QueryTimeline =>
      profiler_for_run [locked AggregatorLock Read (locked BinariesLock Read
         (locked ObservabilityLock Read (locked ObservabilityLock Read [])))]
  end.

(** The loops: every turn of [stop_active] looks into the history, every turn of
    [wait_active] evaluates its condition. *)
Definition turns (o : operation) : list (list action) :=
  match o with
  | StopActive | WaitActive => paths o
  | _ => []
  end.

(** A thread about to run the operation along one of its paths. *)
Definition start (op : operation * list action) : thread := mkThread [] op.2 (turns op.1).

(** ** Orderly operations *)

(** The order the locks are taken in. *)
Definition rank (l : lock) : nat :=
  match l with
  | InnerLock => 0 | AggregatorLock => 1 | BinariesLock => 2 | TargetLanesLock => 3 | ObservabilityLock => 4
  end.

(** Holding [h], the rest of an operation takes locks in order, releases what it
    holds and ends with nothing held. *)
Fixpoint orderly (h : list (lock * mode)) (p : list action) : bool :=
  match p with
  | [] => bool_decide (h = [])
  | Acquire l m :: p => forallb (fun x => rank x.1 <? rank l)%nat h && orderly ((l, m) :: h) p
  | Release l m :: p => bool_decide ((l, m) ∈ h) && orderly (unlock l m h) p
  end.

Lemma orderly_app h p q : orderly h p = true -> orderly [] q = true -> orderly h (p ++ q) = true.
Proof.
  intros Hp Hq. revert h Hp. induction p as [|[l m|l m] p IH]; intros h; cbn [orderly app].
  - intros ->%bool_decide_eq_true. exact Hq.
  - intros [? ?]%andb_true_iff. apply andb_true_iff. auto.
  - intros [? ?]%andb_true_iff. apply andb_true_iff. auto.
Qed.

Definition all_orderly (ps : list (list action)) : Prop := Forall (fun p => orderly [] p = true) ps.

Lemma followed_by_orderly ps qs : all_orderly ps -> all_orderly qs -> all_orderly (followed_by ps qs).
Proof.
  unfold all_orderly. rewrite !Forall_forall. intros Hp Hq r (p & Hr & Hin)%list_elem_of_bind.
  apply list_elem_of_bind in Hr as (q & Hr & Hin'). apply list_elem_of_singleton in Hr as ->.
  apply orderly_app; auto.
Qed.

Lemma symbol_addrs_orderly n : all_orderly (symbol_addrs n).
Proof.
  induction n as [|n IH]; [by repeat constructor|]. apply followed_by_orderly; [by repeat constructor|done].
Qed.

(** All operations but two. *)
Definition in_order (o : operation) : Prop := o <> IngestSignals /\ o <> QueryTimeline.

Lemma paths_orderly o : in_order o -> all_orderly (paths o).
Proof.
  intros [H1 H2]. destruct o; try done; try (vm_compute; repeat constructor; fail).
  cbn [paths]. constructor; [reflexivity|]. constructor; [reflexivity|].
  apply followed_by_orderly; [apply followed_by_orderly; [|apply symbol_addrs_orderly]|]; by repeat constructor.
Qed.

Definition well_ordered (ts : list thread) : Prop :=
  Forall (fun t => orderly (held t) (todo t) = true /\ all_orderly (again t)) ts.

Lemma start_orderly op : in_order op.1 -> op.2 ∈ paths op.1 ->
  orderly [] op.2 = true /\ all_orderly (turns op.1).
Proof.
  intros Ho Hp. pose proof (paths_orderly _ Ho) as Hall. split; [by apply (proj1 (Forall_forall _ _) Hall)|].
  unfold turns. destruct op.1; try exact Hall; constructor.
Qed.

Section Ordered.
Context `{Policy : LockPolicy}.

Lemma step_well_ordered ts ts' : well_ordered ts -> step ts ts' -> well_ordered ts'.
Proof.
  intros Hw Hs. destruct Hs as [ts i h l m rest more Hi Hg|ts i h l m rest more Hi];
    pose proof (Forall_lookup_1 _ _ _ _ Hw Hi) as [Ht Hm]; cbn in Ht; apply andb_true_iff in Ht as [_ Ht];
    by apply Forall_insert.
Qed.

Lemma turn_well_ordered ts ts' : well_ordered ts -> turn ts ts' -> well_ordered ts'.
Proof.
  intros Hw Hs. destruct Hs as [ts i more path Hi Hp]. pose proof (Forall_lookup_1 _ _ _ _ Hw Hi) as [_ Hm]. apply Forall_insert; [done|].
  split; [|done]. by apply (proj1 (Forall_forall _ _) Hm).
Qed.

(** Where a lock is held, some thread can take a step: the holder, or whoever it
    waits for, who holds a later lock. *)
Lemma holder_steps ts t l m k :
  well_ordered ts -> t ∈ ts -> (l, m) ∈ held t -> (5 - rank l <= k)%nat -> exists ts', step ts ts'.
Proof.
  intros Hw. revert t l m. induction k as [|k IH]; intros t l m Ht Hl Hk; [destruct l; cbn in Hk; lia|].
  apply list_elem_of_lookup in Ht as [i Hi]. pose proof (Forall_lookup_1 _ _ _ _ Hw Hi) as [Ho _].
  destruct t as [h [|[l' m'|l' m'] rest] more]; cbn in *.
  - apply bool_decide_eq_true in Ho as ->. by apply not_elem_of_nil in Hl.
  - apply andb_true_iff in Ho as [Hr _]. rewrite forallb_forall in Hr.
    assert (rank l < rank l')%nat as Hlt by (apply Nat.ltb_lt, (Hr (l, m)), list_elem_of_In, Hl).
    assert (forall t2 m2, t2 ∈ ts -> (l', m2) ∈ held t2 -> exists ts', step ts ts') as Hheld
      by (intros t2 m2 H2 Hm2; apply (IH t2 l' m2 H2 Hm2); lia).
    destruct (excluded_or_not l' m' ts) as [(t2 & m2 & H2 & Hm2 & _)|Hne]; [by eapply Hheld|].
    destruct (writer_waits_or_not l' ts) as [(t2 & rest2 & H2 & Htodo)|Hnw].
    + apply list_elem_of_lookup in H2 as [j Hj]. destruct t2 as [h2 todo2 more2]. cbn in Htodo. subst todo2.
      destruct (excluded_or_not l' Write ts) as [(t3 & m3 & H3 & Hm3 & _)|Hne2]; [by eapply Hheld|].
      eexists. eapply acquire; [exact Hj|]. apply grants_free; [done|discriminate].
    + eexists. eapply acquire; [exact Hi|]. apply grants_free; auto.
  - eexists. by eapply release.
Qed.

Lemma well_ordered_progress ts : well_ordered ts -> (exists ts', step ts ts') \/ finished ts.
Proof.
  intros Hw. destruct (decide (finished ts)) as [Hf|Hf]; [by right|left]. unfold finished in Hf.
  apply not_Forall_Exists in Hf; [|apply _]. apply Exists_exists in Hf as (t & Ht & Hn).
  destruct (decide (held t = [])) as [Hh|Hh].
  - apply list_elem_of_lookup in Ht as [i Hi]. destruct t as [h [|[l m|l m] rest] more]; cbn in *; [done|..]; subst h.
    + destruct (excluded_or_not l m ts) as [(t2 & m2 & H2 & Hm2 & _)|Hne]; [by eapply holder_steps|].
      destruct (writer_waits_or_not l ts) as [(t2 & rest2 & H2 & Htodo)|Hnw].
      * apply list_elem_of_lookup in H2 as [j Hj]. destruct t2 as [h2 todo2 more2]. cbn in Htodo. subst todo2.
        destruct (excluded_or_not l Write ts) as [(t3 & m3 & H3 & Hm3 & _)|Hne2]; [by eapply holder_steps|].
        eexists. eapply acquire; [exact Hj|]. apply grants_free; [done|discriminate].
      * eexists. eapply acquire; [exact Hi|]. apply grants_free; auto.
    + eexists. by eapply release.
  - destruct (held t) as [|[l m] h] eqn:E; [done|]. eapply (holder_steps ts t l m _ Hw Ht); [|done].
    rewrite E. by left.
Qed.

(** What is left to do. *)
Definition work (ts : list thread) : nat := sum_list_with (fun t => length (todo t)) ts.

Lemma step_work ts ts' : step ts ts' -> (work ts' < work ts)%nat.
Proof.
  intros Hs. destruct Hs as [ts i h l m rest more Hi Hg|ts i h l m rest more Hi]; unfold work;
    rewrite <- (take_drop_middle _ _ _ Hi) at 2; rewrite insert_take_drop by (by eapply lookup_lt_Some);
    rewrite !sum_list_with_app; cbn; lia.
Qed.

Lemma schedules_end ts : Acc (fun ts2 ts1 => step ts1 ts2) ts.
Proof.
  remember (work ts) as n eqn:Hn. revert ts Hn. induction (lt_wf n) as [n _ IH]. intros ts ->.
  constructor. intros ts2 Hs. eapply IH; [by apply step_work|done].
Qed.

(** C2. Orderly operations never block each other. However many operations other than
    the ingest of signals and the timeline query run at once, along whatever of
    their paths, and however often those that poll go round their loops: as long as
    some operation is within a turn, some thread can lock or unlock, and only
    finitely many such steps are left until every operation is over or between two
    turns, unless a loop takes another one. Whether what it polls for ever comes is
    not said. *)
Theorem orderly_turns_finish ops ts :
  Forall (fun op => in_order op.1 /\ op.2 ∈ paths op.1) ops ->
  rtc moves (map start ops) ts ->
  ((exists ts', step ts ts') \/ finished ts) /\ Acc (fun ts2 ts1 => step ts1 ts2) ts.
Proof.
  intros Hops Hs. split; [|apply schedules_end]. apply well_ordered_progress.
  assert (well_ordered (map start ops)) as Hw.
  { unfold well_ordered. rewrite Forall_map. eapply Forall_impl; [exact Hops|]. intros op [Ho Hp].
    by apply start_orderly. }
  clear Hops. induction Hs as [|ts1 ts2 ts3 [H12|H12] _ IH]; [done|..].
  - by eapply IH, step_well_ordered.
  - by eapply IH, turn_well_ordered.
Qed.

End Ordered.

(** ** Schedules *)

Definition excluded_b (l : lock) (m : mode) (ts : list thread) : bool :=
  existsb (fun t => existsb (fun x => bool_decide (x.1 = l /\ conflicts m x.2)) (held t)) ts.

Definition writer_waits_b (l : lock) (ts : list thread) : bool :=
  existsb (fun t => bool_decide (head (todo t) = Some (Acquire l Write))) ts.

(** The next action of a thread, if the locks let it. *)
Definition advance (ts : list thread) (i : nat) : list thread :=
  match ts !! i with
  | Some (mkThread h (Acquire l m :: rest) more) =>
      if excluded_b l m ts || bool_decide (m = Read) && writer_waits_b l ts then ts
      else <[i := mkThread ((l, m) :: h) rest more]> ts
  | Some (mkThread h (Release l m :: rest) more) => <[i := mkThread (unlock l m h) rest more]> ts
  | _ => ts
  end.

(** The thread waits. *)
Definition blocked (ts : list thread) (t : thread) : bool :=
  match todo t with
  | [] => true
  | Acquire l m :: _ => excluded_b l m ts || bool_decide (m = Read) && writer_waits_b l ts
  | Release _ _ :: _ => false
  end.

Lemma excluded_b_spec l m ts : excluded_b l m ts = true <-> excluded l m ts.
Proof.
  unfold excluded_b, excluded. rewrite existsb_exists. split.
  - intros (t & Ht & H). apply existsb_exists in H as ([l' m'] & Hx & H). apply bool_decide_eq_true in H as [<- Hc].
    exists t, m'. by rewrite !list_elem_of_In.
  - intros (t & m' & Ht & Hx & Hc). exists t. rewrite <- list_elem_of_In. split; [done|].
    apply existsb_exists. exists (l, m'). rewrite <- list_elem_of_In. split; [done|]. by apply bool_decide_eq_true.
Qed.

Lemma writer_waits_b_spec l ts : writer_waits_b l ts = true <-> writer_waits l ts.
Proof.
  unfold writer_waits_b, writer_waits. rewrite existsb_exists. split.
  - intros (t & Ht & H). apply bool_decide_eq_true in H. destruct (todo t) as [|a rest] eqn:E; [done|].
    injection H as ->. exists t, rest. by rewrite list_elem_of_In.
  - intros (t & rest & Ht & H). exists t. rewrite <- list_elem_of_In. split; [done|].
    apply bool_decide_eq_true. by rewrite H.
Qed.

Section Schedules.
Context `{Policy : LockPolicy}.

Lemma advance_steps ts i : rtc step ts (advance ts i).
Proof.
  unfold advance. destruct (ts !! i) as [[h [|[l m|l m] rest] more]|] eqn:Hi; try reflexivity.
  - destruct (excluded_b l m ts) eqn:E1; [reflexivity|]. destruct (bool_decide (m = Read)) eqn:E2; cbn.
    + destruct (writer_waits_b l ts) eqn:E3; [reflexivity|]. apply rtc_once. eapply acquire; [exact Hi|].
      apply grants_free; [by rewrite <- excluded_b_spec, E1|by rewrite <- writer_waits_b_spec, E3].
    + apply rtc_once. eapply acquire; [exact Hi|]. apply grants_free; [by rewrite <- excluded_b_spec, E1|].
      intros ->. discriminate E2.
  - apply rtc_once. by eapply release.
Qed.

Lemma advances_step ts is_ : rtc step ts (foldl advance ts is_).
Proof.
  revert ts. induction is_ as [|i l IH]; intros ts; cbn; [reflexivity|]. etrans; [apply advance_steps|apply IH].
Qed.

Lemma all_blocked ts ts' : forallb (blocked ts) ts = true -> ~ step ts ts'.
Proof.
  rewrite forallb_forall. intros Hb Hs.
  destruct Hs as [ts i h l m rest more Hi Hg|ts i h l m rest more Hi];
    (assert (blocked ts _ = true) as Ht by (eapply Hb, list_elem_of_In, list_elem_of_lookup_2, Hi)); cbn in Ht.
  - apply orb_true_iff in Ht as [Ht|Ht].
    + apply excluded_b_spec in Ht. by apply (grants_exclusive l m ts).
    + apply andb_true_iff in Ht as [->%bool_decide_eq_true Ht]. apply writer_waits_b_spec in Ht.
      by apply (grants_fair l ts).
  - discriminate.
Qed.

(** C39. Ingesting signals can deadlock with storing a run: the ingest holds the
    signal store while it waits for the aggregator, the snapshot holds the
    aggregator while it waits for the signal store, and neither can go on. *)
Theorem signals_deadlock_with_snapshot :
  exists signals finalize ts,
    signals ∈ paths IngestSignals /\ finalize ∈ paths FinalizeRun /\
    rtc step [start (IngestSignals, signals); start (FinalizeRun, finalize)] ts /\
    Forall (fun t => todo t <> []) ts /\ forall ts', ~ step ts ts'.
Proof.
  eexists _, _, _. split; [right; right; right; left|]. split; [right; left|].
  split; [apply (advances_step _ ([0; 0; 0; 0] ++ [1; 1; 1; 1; 1] ++ [0])%nat)|].
  split; [vm_compute; repeat constructor; discriminate|]. intros ts'. apply all_blocked. reflexivity.
Qed.

(** The timeline query can deadlock with any writer of the signal store: it
    reads the store a second time while its first guard is still alive, and a
    writer that came in between is waiting for that first guard. *)
Theorem timeline_deadlocks_with_writer :
  exists timeline signals ts,
    timeline ∈ paths QueryTimeline /\ signals ∈ paths IngestSignals /\
    rtc step [start (QueryTimeline, timeline); start (IngestSignals, signals)] ts /\
    Forall (fun t => todo t <> []) ts /\ forall ts', ~ step ts ts'.
Proof.
  eexists _, _, _. split; [right; left|]. split; [right; left|].
  split; [apply (advances_step _ ([0; 0; 0] ++ [1; 1])%nat)|].
  split; [vm_compute; repeat constructor; discriminate|]. intros ts'. apply all_blocked. reflexivity.
Qed.

End Schedules.

(** ** Examples *)

(** Locks that grant whatever they may. *)
Definition task_fair : LockPolicy.
Proof.
  refine {| grants := fun l m ts => ~ excluded l m ts /\ (m = Read -> ~ writer_waits l ts) |}.
  - intros l m ts H [Hn _]. done.
  - intros l ts H [_ Hn]. by apply Hn.
  - by split.
Defined.

(** A run is stored while a sample arrives and a caller polls for the run twice. *)
Lemma orderly_turns_finish_witness :
  exists ts, rtc (@moves task_fair)
      (map start [(FinalizeRun, locked InnerLock Write [] ++ archive_from_query_state ++ locked InnerLock Write []);
                  (StopActive, locked InnerLock Write [])]) ts /\
    length (filter (fun t => todo t <> []) ts) = 2%nat /\ exists ts', @step task_fair ts ts'.
Proof.
  set (ops := [(FinalizeRun, locked InnerLock Write [] ++ archive_from_query_state ++ locked InnerLock Write []);
               (StopActive, locked InnerLock Write [])]).
  set (ts1 := foldl advance (map start ops) [0; 1; 0; 0; 1; 1]%nat).
  set (ts2 := <[1%nat := mkThread [] (locked InnerLock Write []) (turns StopActive)]> ts1).
  assert (Hs : rtc (@moves task_fair) (map start ops) (foldl advance ts2 [1; 0]%nat)).
  { transitivity ts1; [|apply (rtc_l _ _ ts2)].
    - apply (rtc_subrel (@step task_fair)); [|apply (@advances_step task_fair)]. intros a b H. by left.
    - right. by apply poll; [vm_compute; reflexivity|left].
    - apply (rtc_subrel (@step task_fair)); [|apply (@advances_step task_fair)]. intros a b H. by left. }
  eexists. split; [exact Hs|]. split; [vm_compute; reflexivity|].
  destruct (@orderly_turns_finish task_fair ops _ ltac:(repeat constructor; try discriminate) Hs) as [[H|H] _]; [exact H|].
  exfalso. unfold finished in H. rewrite Forall_forall in H. by discriminate (H _ (list_elem_of_here _ _)).
Defined.

End Locks.
