(* ===== verification/Latch.v ===== *)
(** * The latch in the target

    [stax-target/src/lib.rs], the library a profiled program links: the spans and
    signals it reports, the queue to the worker thread, and the worker, which asks
    the server whether it records this process and hands it what is queued.  The
    library's statics are one record; every access to one is a section of its own,
    so that the threads of the program and the worker interleave between any two
    of them.

    The channel is tokio's and the connection is vox's: the channel is an argument
    with the laws of a bounded queue, and what the server answers is an argument
    of every call.  So are the clock and the identifier of a thread.  What the
    server makes of the calls is that of [TargetIngest]. *)

From stdpp Require Import pretty.
From S2P Require Import Prelude Prog StackTree Observability Lanes Server TargetIngest.

Module Latch.

Import Prog.
Import StackTree.StackTree Observability.Observability TargetIngest.

(** ** Spans *)

Section SpanFields.

Definition with_origin (o : TargetSpanOrigin) (s : TargetSpan) : TargetSpan := s <| span_origin := Some o |>.
Definition with_dispatch_id (i : Z) (s : TargetSpan) : TargetSpan := s <| span_dispatch_id := Some i |>.
Definition with_shader_id (i : Z) (s : TargetSpan) : TargetSpan := s <| span_shader_id := Some i |>.
Definition with_source_id (i : Z) (s : TargetSpan) : TargetSpan := s <| span_source_id := Some i |>.
Definition with_wait_origin (o : TargetSpanOrigin) (s : TargetSpan) : TargetSpan := s <| span_wait_origin := Some o |>.
Definition with_completion_origin (o : TargetSpanOrigin) (s : TargetSpan) : TargetSpan :=
  s <| span_completion_origin := Some o |>.
Definition with_attachment_id (i : Z) (s : TargetSpan) : TargetSpan := s <| span_attachment_ids ::= fun l => l ++ [i] |>.
Definition with_counter_sample_id (i : Z) (s : TargetSpan) : TargetSpan :=
  s <| span_counter_sample_ids ::= fun l => l ++ [i] |>.

End SpanFields.

(** [if let Some(x) = o { s = f(x, s) }] *)
Definition with_some {A S} (f : A -> S -> S) (o : option A) (s : S) : S :=
  match o with Some a => f a s | None => s end.

(** [for x in l { s = f(x, s) }] *)
Definition with_each {A S} (f : A -> S -> S) (l : list A) (s : S) : S := foldl (fun s a => f a s) s l.
#[global] Arguments with_each : simpl never.

Record CapturedOrigin := mkCapturedOrigin { co_active : bool; co_origin : option TargetSpanOrigin }.

Definition inactive : CapturedOrigin := mkCapturedOrigin false None.
Definition active_without_origin : CapturedOrigin := mkCapturedOrigin true None.
Definition from_origin (o : TargetSpanOrigin) : CapturedOrigin := mkCapturedOrigin true (Some o).

Module SpanBuilder.

Record builder := mk {
  name : string; start_ns : Z; end_ns : Z; active : bool; origin : option TargetSpanOrigin;
  dispatch_id : option Z; shader_id : option Z; source_id : option Z;
  wait_origin : option TargetSpanOrigin; completion_origin : option TargetSpanOrigin;
  attachment_ids : list Z; counter_sample_ids : list Z
}.

#[global] Instance eta_builder : Eta builder := fun b =>
  mk (name b) (start_ns b) (end_ns b) (active b) (origin b) (dispatch_id b) (shader_id b) (source_id b)
    (wait_origin b) (completion_origin b) (attachment_ids b) (counter_sample_ids b).

Definition builder_new (name : string) (start_ns end_ns : Z) : builder :=
  mk name start_ns end_ns true None None None None None None [] [].

Definition set_origin (o : TargetSpanOrigin) (b : builder) : builder := b <| origin := Some o |>.
Definition set_captured_origin (c : CapturedOrigin) (b : builder) : builder :=
  b <| active := co_active c |> <| origin := co_origin c |>.
(** [current] is what [current_span_origin] returns. *)
Definition set_current_origin (current : option TargetSpanOrigin) (b : builder) : builder := with_some set_origin current b.
Definition set_dispatch_id (i : Z) (b : builder) : builder := b <| dispatch_id := Some i |>.
Definition set_shader_id (i : Z) (b : builder) : builder := b <| shader_id := Some i |>.
Definition set_source_id (i : Z) (b : builder) : builder := b <| source_id := Some i |>.
Definition set_wait_origin (o : TargetSpanOrigin) (b : builder) : builder := b <| wait_origin := Some o |>.
Definition set_completion_origin (o : TargetSpanOrigin) (b : builder) : builder := b <| completion_origin := Some o |>.
Definition add_attachment_id (i : Z) (b : builder) : builder := b <| attachment_ids ::= fun l => l ++ [i] |>.
Definition add_counter_sample_id (i : Z) (b : builder) : builder := b <| counter_sample_ids ::= fun l => l ++ [i] |>.

Definition build (b : builder) : option TargetSpan :=
  if negb (active b) then None else
  if decide (end_ns b <= start_ns b) then None else
  let span := span_new (name b) (start_ns b) (end_ns b) in
  let span := with_some with_dispatch_id (dispatch_id b) span in
  let span := with_some with_shader_id (shader_id b) span in
  let span := with_some with_source_id (source_id b) span in
  let span := with_some with_wait_origin (wait_origin b) span in
  let span := with_some with_completion_origin (completion_origin b) span in
  let span := with_each with_attachment_id (attachment_ids b) span in
  let span := with_each with_counter_sample_id (counter_sample_ids b) span in
  Some (with_some with_origin (origin b) span).

End SpanBuilder.

Module DispatchBuilder.

Record dispatch_builder := mk {
  name : string; start_ns : option Z; end_ns : option Z; active : bool;
  dispatch_origin : option TargetSpanOrigin; wait_origin : option TargetSpanOrigin;
  completion_origin : option TargetSpanOrigin; dispatch_id : option Z; shader_id : option Z;
  source_id : option Z; attachment_ids : list Z; counter_sample_ids : list Z
}.

#[global] Instance eta_dispatch_builder : Eta dispatch_builder := fun b =>
  mk (name b) (start_ns b) (end_ns b) (active b) (dispatch_origin b) (wait_origin b) (completion_origin b)
    (dispatch_id b) (shader_id b) (source_id b) (attachment_ids b) (counter_sample_ids b).

Definition dispatch_new (name : string) : dispatch_builder :=
  mk name None None true None None None None None None [] [].

Definition timestamps (start_ns_ end_ns_ : Z) (b : dispatch_builder) : dispatch_builder := b <| start_ns := Some start_ns_ |> <| end_ns := Some end_ns_ |>.
Definition put_captured_origin (c : CapturedOrigin) (b : dispatch_builder) : dispatch_builder :=
  b <| active := co_active c |> <| dispatch_origin := co_origin c |>.
Definition put_dispatch_origin (o : TargetSpanOrigin) (b : dispatch_builder) : dispatch_builder := b <| dispatch_origin := Some o |>.
Definition put_wait_origin (o : TargetSpanOrigin) (b : dispatch_builder) : dispatch_builder := b <| wait_origin := Some o |>.
Definition put_completion_origin (o : TargetSpanOrigin) (b : dispatch_builder) : dispatch_builder := b <| completion_origin := Some o |>.
Definition put_dispatch_id (i : Z) (b : dispatch_builder) : dispatch_builder := b <| dispatch_id := Some i |>.
Definition put_shader_id (i : Z) (b : dispatch_builder) : dispatch_builder := b <| shader_id := Some i |>.
Definition put_source_id (i : Z) (b : dispatch_builder) : dispatch_builder := b <| source_id := Some i |>.
Definition put_attachment_id (i : Z) (b : dispatch_builder) : dispatch_builder := b <| attachment_ids ::= fun l => l ++ [i] |>.
Definition put_counter_sample_id (i : Z) (b : dispatch_builder) : dispatch_builder := b <| counter_sample_ids ::= fun l => l ++ [i] |>.

Definition build_dispatch (b : dispatch_builder) : option TargetSpan :=
  if negb (active b) then None else
  start_ns_ ← start_ns b;
  end_ns_ ← end_ns b;
  let builder := SpanBuilder.builder_new (name b) start_ns_ end_ns_ in
  let builder := with_some SpanBuilder.set_origin (dispatch_origin b) builder in
  let builder := with_some SpanBuilder.set_wait_origin (wait_origin b) builder in
  let builder := with_some SpanBuilder.set_completion_origin (completion_origin b) builder in
  let builder := with_some SpanBuilder.set_dispatch_id (dispatch_id b) builder in
  let builder := with_some SpanBuilder.set_shader_id (shader_id b) builder in
  let builder := with_some SpanBuilder.set_source_id (source_id b) builder in
  let builder := with_each SpanBuilder.add_attachment_id (attachment_ids b) builder in
  let builder := with_each SpanBuilder.add_counter_sample_id (counter_sample_ids b) builder in
  SpanBuilder.build builder.

End DispatchBuilder.

(** ** The channel to the worker *)

Inductive TrySendError := Full | Closed.

(** tokio's bounded channel.  The sender lives in a static and is never dropped,
    so that [recv] on an empty channel waits. *)
Class Mpsc (M : Type) := {
  chan : Type;
  channel : nat -> chan;
  try_send : M -> chan -> chan * (unit + TrySendError);
  recv : chan -> chan * option M;
  drop_receiver : chan -> chan;
  queued : chan -> list M;
  capacity : chan -> nat;
  closed : chan -> bool;
  channel_new n : queued (channel n) = [] /\ capacity (channel n) = n /\ closed (channel n) = false;
  try_send_closed m c : closed c = true -> try_send m c = (c, inr Closed);
  try_send_full m c : closed c = false -> (capacity c <= length (queued c))%nat -> try_send m c = (c, inr Full);
  try_send_ok m c : closed c = false -> (length (queued c) < capacity c)%nat ->
    exists c', try_send m c = (c', inl tt) /\ queued c' = queued c ++ [m] /\ capacity c' = capacity c /\ closed c' = false;
  recv_empty c : queued c = [] -> recv c = (c, None);
  recv_message m l c : queued c = m :: l ->
    exists c', recv c = (c', Some m) /\ queued c' = l /\ capacity c' = capacity c /\ closed c' = closed c;
  drop_closes c : queued (drop_receiver c) = [] /\ closed (drop_receiver c) = true
}.

Inductive WorkerMessage :=
  | SpansMessage (b : TargetSpanBatch)
  | SignalsMessage (b : TargetSignalBatch).

(** ** The statics of the library *)

Record ReporterStats := mkReporterStats {
  worker_started : bool; reporting_active : bool; connected_to_server : bool;
  batches_dropped_queue_full : Z; spans_dropped_queue_full : Z;
  batches_dropped_worker_disconnected : Z; spans_dropped_worker_disconnected : Z;
  signal_batches_dropped_queue_full : Z; signals_dropped_queue_full : Z;
  signal_batches_dropped_worker_disconnected : Z; signals_dropped_worker_disconnected : Z
}.

#[export] Instance eta_ReporterStats : Eta ReporterStats := fun s =>
  mkReporterStats (worker_started s) (reporting_active s) (connected_to_server s)
    (batches_dropped_queue_full s) (spans_dropped_queue_full s)
    (batches_dropped_worker_disconnected s) (spans_dropped_worker_disconnected s)
    (signal_batches_dropped_queue_full s) (signals_dropped_queue_full s)
    (signal_batches_dropped_worker_disconnected s) (signals_dropped_worker_disconnected s).

Record SignalDefinitions := mkSignalDefinitions {
  event_kinds : gmap Z TargetEventKindRecord;
  counter_sets : gmap Z TargetCounterSetRecord;
  contracts : gmap Z TargetContractRecord
}.

#[export] Instance eta_SignalDefinitions : Eta SignalDefinitions := fun d =>
  mkSignalDefinitions (event_kinds d) (counter_sets d) (contracts d).

(** What came of a call of the server. *)
Inductive Reply (A : Type) := Answered (a : A) | Refused | TimedOut.
Arguments Answered {A} a.
Arguments Refused {A}.
Arguments TimedOut {A}.

Inductive Call :=
  | ShouldReport (pid : Z) (r : Reply bool)
  | SendStats (stats : Lanes.TargetReporterStats) (r : Reply unit)
  | SendSpans (b : TargetSpanBatch) (r : Reply unit)
  | SendSignals (b : TargetSignalBatch) (r : Reply unit).

Section Latch.
Context {Channel : Mpsc WorkerMessage} {Order : MapOrder}.

(** [std::process::id()] *)
Context (own_pid : Z).

(** The statics; also what the channel has accepted and what the server has been
    called with so far. *)
Record World := mkWorld {
  stats : ReporterStats; next_event_id : Z; next_counter_sample_id : Z; definitions : SignalDefinitions;
  sender : option chan; accepted : list WorkerMessage; server : list Call
}.

#[local] Instance eta_World : Eta World := fun w =>
  mkWorld (stats w) (next_event_id w) (next_counter_sample_id w) (definitions w) (sender w) (accepted w) (server w).

Definition QUEUE_DEPTH : nat := 64.

Definition statics : World :=
  mkWorld (mkReporterStats false false false 0 0 0 0 0 0 0 0) 1 1 (mkSignalDefinitions ∅ ∅ ∅) None [] [].

(** [STATIC.store(..)] and [STATIC.fetch_add(..)] of one of the statics. *)
Definition on_stats (f : ReporterStats -> ReporterStats) : prog World unit := writing (fun w => w <| stats ::= f |>).

Definition worker_sender : prog World unit := writing (fun w =>
  match sender w with
  | Some _ => w
  | None => w <| sender := Some (channel QUEUE_DEPTH) |> <| stats ::= fun s => s <| worker_started := true |> |>
  end).

Definition the_channel (w : World) : chan := default (channel QUEUE_DEPTH) (sender w).

Definition push (m : WorkerMessage) (w : World) : World * (unit + TrySendError) :=
  let '(c, r) := try_send m (the_channel w) in
  (w <| sender := Some c |> <| accepted ::= fun l => match r with inl _ => l ++ [m] | inr _ => l end |>, r).

Definition send (m : WorkerMessage) : prog World (unit + TrySendError) := section (push m).

Definition gate : prog World bool :=
  let! _ := worker_sender in
  reading (fun w => reporting_active (stats w)).

Definition reporter_stats : prog World ReporterStats :=
  let! a := reading (fun w => worker_started (stats w)) in
  let! b := reading (fun w => reporting_active (stats w)) in
  let! c := reading (fun w => connected_to_server (stats w)) in
  let! d := reading (fun w => batches_dropped_queue_full (stats w)) in
  let! e := reading (fun w => spans_dropped_queue_full (stats w)) in
  let! f := reading (fun w => batches_dropped_worker_disconnected (stats w)) in
  let! g := reading (fun w => spans_dropped_worker_disconnected (stats w)) in
  let! h := reading (fun w => signal_batches_dropped_queue_full (stats w)) in
  let! i := reading (fun w => signals_dropped_queue_full (stats w)) in
  let! j := reading (fun w => signal_batches_dropped_worker_disconnected (stats w)) in
  let! k := reading (fun w => signals_dropped_worker_disconnected (stats w)) in
  Done (mkReporterStats a b c d e f g h i j k).

Definition reset_reporter_stats : prog World unit :=
  let! _ := on_stats (fun s => s <| batches_dropped_queue_full := 0 |>) in
  let! _ := on_stats (fun s => s <| spans_dropped_queue_full := 0 |>) in
  let! _ := on_stats (fun s => s <| batches_dropped_worker_disconnected := 0 |>) in
  let! _ := on_stats (fun s => s <| spans_dropped_worker_disconnected := 0 |>) in
  let! _ := on_stats (fun s => s <| signal_batches_dropped_queue_full := 0 |>) in
  let! _ := on_stats (fun s => s <| signals_dropped_queue_full := 0 |>) in
  let! _ := on_stats (fun s => s <| signal_batches_dropped_worker_disconnected := 0 |>) in
  on_stats (fun s => s <| signals_dropped_worker_disconnected := 0 |>).

Definition reporter_stats_for_pid (pid : Z) : prog World Lanes.TargetReporterStats :=
  let! s := reporter_stats in
  Done (Lanes.mkTargetReporterStats pid (batches_dropped_queue_full s) (spans_dropped_queue_full s)
    (batches_dropped_worker_disconnected s) (spans_dropped_worker_disconnected s)
    (signal_batches_dropped_queue_full s) (signals_dropped_queue_full s)
    (signal_batches_dropped_worker_disconnected s) (signals_dropped_worker_disconnected s)).

Definition record_queue_full_drop (spans : Z) : prog World unit :=
  let! _ := on_stats (fun s => s <| batches_dropped_queue_full ::= fun n => wadd64 n 1 |>) in
  on_stats (fun s => s <| spans_dropped_queue_full ::= fun n => wadd64 n spans |>).

Definition record_worker_disconnected_drop (spans : Z) : prog World unit :=
  let! _ := on_stats (fun s => s <| batches_dropped_worker_disconnected ::= fun n => wadd64 n 1 |>) in
  on_stats (fun s => s <| spans_dropped_worker_disconnected ::= fun n => wadd64 n spans |>).

Definition record_signal_queue_full_drop (signals : Z) : prog World unit :=
  let! _ := on_stats (fun s => s <| signal_batches_dropped_queue_full ::= fun n => wadd64 n 1 |>) in
  on_stats (fun s => s <| signals_dropped_queue_full ::= fun n => wadd64 n signals |>).

Definition record_signal_worker_disconnected_drop (signals : Z) : prog World unit :=
  let! _ := on_stats (fun s => s <| signal_batches_dropped_worker_disconnected ::= fun n => wadd64 n 1 |>) in
  on_stats (fun s => s <| signals_dropped_worker_disconnected ::= fun n => wadd64 n signals |>).

(** ** Reporting *)

Inductive ReportError := QueueFull | WorkerDisconnected.

Definition try_report_batch_with_kind (lane : string) (lane_kind : TargetLaneKind) (spans : list TargetSpan)
    (records : TargetRecordBatch) : prog World (unit + ReportError) :=
  if bool_decide (spans = []) && records_empty records then Done (inl tt) else
  let! _ := worker_sender in
  let! r := send (SpansMessage (mkTargetSpanBatch own_pid lane lane_kind spans records)) in
  match r with
  | inl _ => Done (inl tt)
  | inr Full => let! _ := record_queue_full_drop (Z.of_nat (length spans)) in Done (inr QueueFull)
  | inr Closed => let! _ := record_worker_disconnected_drop (Z.of_nat (length spans)) in Done (inr WorkerDisconnected)
  end.

Definition no_records : TargetRecordBatch := mkTargetRecordBatch 0 0 0 0 0 0 0 0.

Definition try_report_with_kind (lane : string) (lane_kind : TargetLaneKind) (spans : list TargetSpan) :=
  try_report_batch_with_kind lane lane_kind spans no_records.
Definition try_report (lane : string) (spans : list TargetSpan) := try_report_with_kind lane Generic spans.
Definition try_report_records (lane : string) (records : TargetRecordBatch) :=
  try_report_batch_with_kind lane Generic [] records.

Definition try_report_signals (batch : TargetSignalBatch) : prog World (unit + ReportError) :=
  if batch_is_empty batch then Done (inl tt) else
  let batch := mkTargetSignalBatch own_pid (b_event_kinds batch) (b_events batch) (b_counter_sets batch)
                 (b_counter_samples batch) (b_contracts batch) in
  let n := signal_count batch in
  let! _ := worker_sender in
  let! r := send (SignalsMessage batch) in
  match r with
  | inl _ => Done (inl tt)
  | inr Full => let! _ := record_signal_queue_full_drop n in Done (inr QueueFull)
  | inr Closed => let! _ := record_signal_worker_disconnected_drop n in Done (inr WorkerDisconnected)
  end.

Definition report (lane : string) (spans : list TargetSpan) := forget (try_report lane spans).
Definition report_with_kind (lane : string) (lane_kind : TargetLaneKind) (spans : list TargetSpan) :=
  forget (try_report_with_kind lane lane_kind spans).
Definition report_records (lane : string) (records : TargetRecordBatch) := forget (try_report_records lane records).
Definition report_records_with_kind (lane : string) (lane_kind : TargetLaneKind) (records : TargetRecordBatch) :=
  forget (try_report_batch_with_kind lane lane_kind [] records).
Definition report_signals (batch : TargetSignalBatch) := forget (try_report_signals batch).

(** ** Definitions and signals *)

Definition define (f : SignalDefinitions -> SignalDefinitions) : prog World unit :=
  writing (fun w => w <| definitions ::= f |>).

Definition definition_snapshot (pid : Z) : prog World TargetSignalBatch := reading (fun w =>
  let values {V} (m : gmap Z V) := map snd (entries m) in
  mkTargetSignalBatch pid (values (event_kinds (definitions w))) [] (values (counter_sets (definitions w))) []
    (values (contracts (definitions w)))).

(** [EventKind::new] *)
Definition event_kind_new (id : Z) (name : string) (description : option string)
    (fields : list TargetEventFieldDefinition) : prog World TargetEventKindRecord :=
  let definition := mkTargetEventKindRecord id name description fields in
  let! _ := define (fun d => d <| event_kinds ::= insert id definition |>) in
  Done definition.

Definition batch_of_events (l : list TargetEventRecord) : TargetSignalBatch := mkTargetSignalBatch own_pid [] l [] [] [].
Definition batch_of_samples (l : list TargetCounterSampleRecord) : TargetSignalBatch :=
  mkTargetSignalBatch own_pid [] [] [] l [].

Definition emit_at (kind : TargetEventKindRecord) (timestamp_ns source_pid : Z) (tid correlation_id : option Z)
    (values : list TargetCounterScalar) : prog World unit :=
  let! active := gate in
  if negb active || (bool_decide (source_pid <> own_pid) && bool_decide (is_Some tid)) then Done tt else
  let! n := section (fun w => (w <| next_event_id ::= fun n => wadd64 n 1 |>, next_event_id w)) in
  forget (try_report_signals (batch_of_events
    [mkTargetEventRecord n (event_kind_id kind) timestamp_ns source_pid tid correlation_id values])).

(** [CounterSet::new] *)
Definition counter_set_new (id : Z) (name : string) (counters : list TargetCounterDefinition)
    : prog World TargetCounterSetRecord :=
  let definition := mkTargetCounterSetRecord id name counters in
  let! _ := define (fun d => d <| counter_sets ::= insert id definition |>) in
  Done definition.

Definition sample_at (set : TargetCounterSetRecord) (timestamp_ns source_pid : Z) (tid : option Z)
    (values : list TargetCounterScalar) : prog World unit :=
  let! active := gate in
  if negb active || (bool_decide (source_pid <> own_pid) && bool_decide (is_Some tid)) then Done tt else
  let! n := section (fun w => (w <| next_counter_sample_id ::= fun n => wadd64 n 1 |>, next_counter_sample_id w)) in
  forget (try_report_signals (batch_of_samples
    [mkTargetCounterSampleRecord n (counter_set_id set) None None TimeSeries (Some timestamp_ns) source_pid tid values None])).

(** The clock and the thread of a call. *)
Record Here := mkHere { now_ns : option Z; current_thread_id : option Z }.

Record TargetPoint := mkTargetPoint { timestamp_ns : Z; pid : Z; tid : option Z }.

Definition current_point (h : Here) : option TargetPoint :=
  now ← now_ns h; Some (mkTargetPoint now own_pid (current_thread_id h)).

Definition current_span_origin (h : Here) : option TargetSpanOrigin :=
  tid ← current_thread_id h; now ← now_ns h; Some (mkTargetSpanOrigin tid now).

Definition span_with_current_origin (h : Here) (name : string) (start_ns end_ns : Z) : TargetSpan :=
  with_some with_origin (current_span_origin h) (span_new name start_ns end_ns).

Definition emit (h : Here) (kind : TargetEventKindRecord) (correlation_id : option Z)
    (values : list TargetCounterScalar) : prog World unit :=
  match current_point h with
  | None => Done tt
  | Some p => emit_at kind (timestamp_ns p) (pid p) (tid p) correlation_id values
  end.

Definition sample (h : Here) (set : TargetCounterSetRecord) (values : list TargetCounterScalar) : prog World unit :=
  match current_point h with
  | None => Done tt
  | Some p => sample_at set (timestamp_ns p) (pid p) (tid p) values
  end.

(** [Contract::new] *)
Definition contract_new (definition : TargetContractRecord) : prog World TargetContractRecord :=
  let! _ := define (fun d => d <| contracts ::= insert (contract_id definition) definition |>) in
  Done definition.

Definition max_off_cpu_current_thread (h : Here) (id : Z) (name : string) (description : option string)
    (severity : TargetContractSeverity) (duty : TargetContractDuty) (max_ns : Z) (reasons : list OffCpuReason)
    : prog World (option TargetContractRecord) :=
  match current_thread_id h with
  | None => Done None
  | Some tid =>
      let! c := contract_new (mkTargetContractRecord id name description severity duty (MaxOffCpuInterval tid max_ns reasons)) in
      Done (Some c)
  end.

Definition max_signal_gap_for_thread (id : Z) (name : string) (description : option string)
    (severity : TargetContractSeverity) (duty : TargetContractDuty) (signal : TargetSignalSelector)
    (owner_tid : option Z) (max_ns : Z) : prog World TargetContractRecord :=
  contract_new (mkTargetContractRecord id name description severity duty (MaxSignalGap signal owner_tid max_ns)).

Definition max_signal_gap (h : Here) (id : Z) (name : string) (description : option string)
    (severity : TargetContractSeverity) (duty : TargetContractDuty) (signal : TargetSignalSelector) (max_ns : Z) :=
  max_signal_gap_for_thread id name description severity duty signal (current_thread_id h) max_ns.

Definition max_latency (id : Z) (name : string) (description : option string)
    (severity : TargetContractSeverity) (duty : TargetContractDuty) (start_event end_event max_ns : Z) :=
  contract_new (mkTargetContractRecord id name description severity duty (MaxLatency start_event end_event max_ns)).

(** ** Lanes *)

Record Lane := mkLane { lane_name : string; lane_kind : TargetLaneKind }.

Definition lane_new (name : string) : Lane := mkLane name Generic.
Definition metal (name : string) : Lane := mkLane name Metal.

Definition origin_if_active (h : Here) : prog World (option TargetSpanOrigin) :=
  let! active := gate in
  Done (if (active : bool) then current_span_origin h else None).

Definition capture_origin (h : Here) : prog World CapturedOrigin :=
  let! active := gate in
  Done (if (active : bool)
        then match current_span_origin h with Some o => from_origin o | None => active_without_origin end
        else inactive).

Definition span_with_origin (name : string) (start_ns end_ns : Z) (o : TargetSpanOrigin) : TargetSpan :=
  with_origin o (span_new name start_ns end_ns).

Definition span_with_captured_origin (name : string) (start_ns end_ns : Z) (captured : CapturedOrigin)
    : option TargetSpan :=
  if negb (co_active captured) then None
  else SpanBuilder.build (SpanBuilder.set_captured_origin captured (SpanBuilder.builder_new name start_ns end_ns)).

Record OpenSpan := mkOpenSpan { os_name : string; os_start_ns : Z; os_origin : option TargetSpanOrigin }.

(** [OpenSpan::new] *)
Definition open_span (h : Here) (name : string) (origin : option TargetSpanOrigin) : prog World (option OpenSpan) :=
  let! active := gate in
  Done (if (active : bool) then now ← now_ns h; Some (mkOpenSpan name now origin) else None).

Definition begin_span (h : Here) (name : string) := open_span h name None.
Definition begin_span_with_origin (h : Here) (name : string) (o : TargetSpanOrigin) := open_span h name (Some o).
Definition begin_span_with_captured_origin (h : Here) (name : string) (captured : CapturedOrigin)
    : prog World (option OpenSpan) :=
  if negb (co_active captured) then Done None else open_span h name (co_origin captured).

Definition finish (h : Here) (s : OpenSpan) : option TargetSpan :=
  end_ns ← now_ns h;
  if decide (end_ns <= os_start_ns s) then None
  else Some (with_some with_origin (os_origin s) (span_new (os_name s) (os_start_ns s) end_ns)).

Definition lane_try_report_batch (l : Lane) (spans : list TargetSpan) (records : TargetRecordBatch) :=
  try_report_batch_with_kind (lane_name l) (lane_kind l) spans records.
Definition lane_try_report (l : Lane) (spans : list TargetSpan) :=
  try_report_with_kind (lane_name l) (lane_kind l) spans.
Definition lane_report (l : Lane) (spans : list TargetSpan) := report_with_kind (lane_name l) (lane_kind l) spans.
Definition report_one (l : Lane) (span : TargetSpan) := lane_report l [span].

Definition report_batch_if_active (l : Lane) (spans : list TargetSpan) (records : TargetRecordBatch)
    : prog World (unit + ReportError) :=
  let! active := gate in
  if negb active then Done (inl tt) else lane_try_report_batch l spans records.
Definition report_if_active (l : Lane) (spans : list TargetSpan) : prog World (unit + ReportError) :=
  let! active := gate in
  if negb active then Done (inl tt) else lane_try_report l spans.
Definition report_one_if_active (l : Lane) (span : TargetSpan) := report_if_active l [span].

Definition finish_and_report (h : Here) (s : OpenSpan) (l : Lane) : prog World unit :=
  match finish h s with Some span => report_one l span | None => Done tt end.

(** ** The worker *)

(** The environment, the file system and the listening server at one moment. *)
Record Net := mkNet { var : string -> option string; exists_ : string -> bool; getuid : Z; accepts : string -> bool }.

(** [PathBuf::join] of a relative name *)
Definition path_join (dir name : string) : string :=
  if decide (dir = "") then name
  else if decide (String.substring (String.length dir - 1) 1 dir = "/") then dir +:+ name else dir +:+ "/" +:+ name.

Definition stax_server_socket (net : Net) : option string :=
  let if_exists p := if exists_ net p then Some p else None in
  let fallback := if_exists ("/tmp/stax-server-" +:+ pretty (getuid net) +:+ ".sock") in
  match var net "STAX_SERVER_SOCKET" with
  | Some p => if_exists p
  | None =>
      match var net "XDG_RUNTIME_DIR" with
      | Some rt => let p := path_join rt "stax-server.sock" in if exists_ net p then Some p else fallback
      | None => fallback
      end
  end.

Definition store_active (b : bool) : prog World unit := on_stats (fun s => s <| reporting_active := b |>).
Definition store_connected (b : bool) : prog World unit := on_stats (fun s => s <| connected_to_server := b |>).

(** Whether there is a client. *)
Definition connect (net : Net) : prog World bool :=
  let connected := match stax_server_socket net with Some socket => accepts net ("local://" +:+ socket) | None => false end in
  let! _ := store_connected connected in
  Done connected.

Definition call (c : Call) : prog World unit := writing (fun w => w <| server ::= fun l => l ++ [c] |>).

(** [if client.is_none() { *client = connect().await; }] *)
Definition reconnect (net : Net) (client : bool) : prog World bool := if client then Done true else connect net.

(** What follows a call that returns nothing. *)
Definition keep_client (r : Reply unit) : prog World bool :=
  match r with
  | Answered _ => Done true
  | Refused | TimedOut => let! _ := store_connected false in Done false
  end.

Definition ingest_batch (batch : TargetSpanBatch) (net : Net) (r : Reply unit) (client : bool) : prog World bool :=
  let! client := reconnect net client in
  if negb client then Done false else
  let! _ := call (SendSpans batch r) in
  keep_client r.

Definition ingest_signal_batch (batch : TargetSignalBatch) (net : Net) (r : Reply unit) (client : bool) : prog World bool :=
  let! client := reconnect net client in
  if negb client then Done false else
  let! _ := call (SendSignals batch r) in
  keep_client r.

(** What the server answers during one poll. *)
Record PollEnv := mkPollEnv { p_net : Net; p_should : Reply bool; p_definitions : Reply unit; p_stats : Reply unit }.

Definition ask_gate (pid : Z) (r : Reply bool) (client : bool) : prog World (bool * bool) :=
  if negb client then Done (false, false) else
  let! _ := call (ShouldReport pid r) in
  match r with
  | Answered active => Done (true, active)
  | Refused | TimedOut =>
      let! _ := store_active false in
      let! _ := store_connected false in
      Done (false, false)
  end.

Definition swap_active (active : bool) : prog World bool := section (fun w =>
  (w <| stats ::= fun s => s <| reporting_active := active |> |>, reporting_active (stats w))).

Definition announce (pid : Z) (e : PollEnv) (client : bool) : prog World bool :=
  let! _ := reset_reporter_stats in
  let! d := definition_snapshot pid in
  if batch_is_empty d then Done client else ingest_signal_batch d (p_net e) (p_definitions e) client.

Definition poll_capture_gate (pid : Z) (e : PollEnv) (client : bool) : prog World bool :=
  let! client := reconnect (p_net e) client in
  let! (client, active) := ask_gate pid (p_should e) client in
  let! was := swap_active active in
  let! client := (if negb was && active then announce pid e client else Done client) in
  if negb active then Done client else
  if negb client then Done client else
  let! s := reporter_stats_for_pid pid in
  let! _ := call (SendStats s (p_stats e)) in
  keep_client (p_stats e).

(** What wakes the worker: the timer, or the channel. *)
Inductive Turn :=
  | Poll (e : PollEnv)
  | Receive (net : Net) (r : Reply unit).

Definition receive : prog World (option WorkerMessage) := section (fun w =>
  let '(c, m) := recv (the_channel w) in (w <| sender := Some c |>, m)).

Definition handle_message (m : WorkerMessage) (net : Net) (r : Reply unit) (client : bool) : prog World bool :=
  match m with
  | SpansMessage b => ingest_batch b net r client
  | SignalsMessage b => ingest_signal_batch b net r client
  end.

Definition take_turn (t : Turn) (client : bool) : prog World bool :=
  match t with
  | Poll e => poll_capture_gate own_pid e client
  | Receive net r =>
      let! m := receive in
      match m with
      | Some m => handle_message m net r client
      | None => Done client
      end
  end.

Fixpoint worker_loop (turns : list Turn) (client : bool) : prog World unit :=
  match turns with
  | [] => Done tt
  | t :: turns => let! client := take_turn t client in worker_loop turns client
  end.

(** [runtime]: whether the runtime could be built. *)
Definition worker (runtime : bool) (turns : list Turn) : prog World unit :=
  if runtime then worker_loop turns false else
  let! _ := store_active false in
  let! _ := store_connected false in
  writing (fun w => w <| sender ::= fmap drop_receiver |>).

End Latch.

(** ** The platforms *)

(** macOS: [pthread_threadid_np] and [mach_timebase_info] with their return
    codes. *)
Definition mac_thread_id (rc tid : Z) : option Z :=
  if decide (rc <> 0 \/ u32_max < tid) then None else Some tid.

Definition mac_timebase (rc numer denom : Z) : option (Z * Z) :=
  if decide (rc <> 0 \/ denom = 0) then None else Some (numer, denom).

Definition mac_clock_now_ns (timebase : option (Z * Z)) (ticks : Z) : option Z :=
  t ← timebase; Some (as_u64 (ticks * t.1 / t.2)).

(** Linux: [gettid] and [clock_gettime]. *)
Definition linux_thread_id (tid : Z) : option Z :=
  if decide (tid <= 0 \/ u32_max < tid) then None else Some tid.

Definition linux_clock_now_ns (rc tv_sec tv_nsec : Z) : option Z :=
  if decide (rc <> 0 \/ tv_sec < 0 \/ tv_nsec < 0) then None
  else if decide (u64_max < tv_sec * 1000000000) then None
  else if decide (u64_max < tv_sec * 1000000000 + tv_nsec) then None
  else Some (tv_sec * 1000000000 + tv_nsec).

(** ** The builders

    What both builders can be told. *)

Inductive part :=
  | Captured (c : CapturedOrigin)
  | Origin (o : TargetSpanOrigin)
  | Wait (o : TargetSpanOrigin)
  | Completion (o : TargetSpanOrigin)
  | Dispatch (i : Z)
  | Shader (i : Z)
  | Source (i : Z)
  | Attachment (i : Z)
  | CounterSample (i : Z).

Definition set_part (b : SpanBuilder.builder) (p : part) : SpanBuilder.builder :=
  match p with
  | Captured c => SpanBuilder.set_captured_origin c b
  | Origin o => SpanBuilder.set_origin o b
  | Wait o => SpanBuilder.set_wait_origin o b
  | Completion o => SpanBuilder.set_completion_origin o b
  | Dispatch i => SpanBuilder.set_dispatch_id i b
  | Shader i => SpanBuilder.set_shader_id i b
  | Source i => SpanBuilder.set_source_id i b
  | Attachment i => SpanBuilder.add_attachment_id i b
  | CounterSample i => SpanBuilder.add_counter_sample_id i b
  end.

Definition put_part (b : DispatchBuilder.dispatch_builder) (p : part) : DispatchBuilder.dispatch_builder :=
  match p with
  | Captured c => DispatchBuilder.put_captured_origin c b
  | Origin o => DispatchBuilder.put_dispatch_origin o b
  | Wait o => DispatchBuilder.put_wait_origin o b
  | Completion o => DispatchBuilder.put_completion_origin o b
  | Dispatch i => DispatchBuilder.put_dispatch_id i b
  | Shader i => DispatchBuilder.put_shader_id i b
  | Source i => DispatchBuilder.put_source_id i b
  | Attachment i => DispatchBuilder.put_attachment_id i b
  | CounterSample i => DispatchBuilder.put_counter_sample_id i b
  end.

(** What was said last, or all that was said, of one field. *)
Definition latest {B} (f : part -> option B) (ps : list part) : option B := last (omap f ps).

Definition said_active (p : part) : option bool := match p with Captured c => Some (co_active c) | _ => None end.
Definition said_origin (p : part) : option (option TargetSpanOrigin) :=
  match p with Captured c => Some (co_origin c) | Origin o => Some (Some o) | _ => None end.
Definition said_wait (p : part) := match p with Wait o => Some o | _ => None end.
Definition said_completion (p : part) := match p with Completion o => Some o | _ => None end.
Definition said_dispatch (p : part) := match p with Dispatch i => Some i | _ => None end.
Definition said_shader (p : part) := match p with Shader i => Some i | _ => None end.
Definition said_source (p : part) := match p with Source i => Some i | _ => None end.
Definition said_attachment (p : part) := match p with Attachment i => Some i | _ => None end.
Definition said_counter_sample (p : part) := match p with CounterSample i => Some i | _ => None end.

Definition described (name : string) (start_ns end_ns : Z) (ps : list part) : TargetSpan :=
  mkTargetSpan name start_ns end_ns (default None (latest said_origin ps)) (latest said_dispatch ps)
    (latest said_shader ps) (latest said_source ps) (latest said_wait ps) (latest said_completion ps)
    (omap said_attachment ps) (omap said_counter_sample ps).

Lemma said_snoc {B} (f : part -> option B) ps p :
  latest f (ps ++ [p]) = match f p with Some b => Some b | None => latest f ps end.
Proof. unfold latest. rewrite omap_snoc. destruct (f p); [apply last_snoc|by rewrite app_nil_r]. Qed.

Lemma with_attachments l s : with_each with_attachment_id l s = s <| span_attachment_ids ::= fun a => a ++ l |>.
Proof.
  revert s. induction l as [|i l IH]; intros s; [by destruct s; cbn; rewrite app_nil_r|].
  unfold with_each in *. cbn [foldl]. rewrite IH. cbn. by rewrite <- app_assoc.
Qed.

Lemma with_counter_samples l s : with_each with_counter_sample_id l s = s <| span_counter_sample_ids ::= fun a => a ++ l |>.
Proof.
  revert s. induction l as [|i l IH]; intros s; [by destruct s; cbn; rewrite app_nil_r|].
  unfold with_each in *. cbn [foldl]. rewrite IH. cbn. by rewrite <- app_assoc.
Qed.

Lemma set_parts name start_ns end_ns ps :
  foldl set_part (SpanBuilder.builder_new name start_ns end_ns) ps =
  SpanBuilder.mk name start_ns end_ns (default true (latest said_active ps)) (default None (latest said_origin ps))
    (latest said_dispatch ps) (latest said_shader ps) (latest said_source ps) (latest said_wait ps)
    (latest said_completion ps) (omap said_attachment ps) (omap said_counter_sample ps).
Proof.
  induction ps as [|p ps IH] using rev_ind; [done|]. rewrite foldl_app, IH, !said_snoc, !omap_snoc. cbn [foldl].
  destruct p; cbn; by rewrite ?app_nil_r.
Qed.

Lemma put_parts name start_ns end_ns ps :
  foldl put_part (DispatchBuilder.timestamps start_ns end_ns (DispatchBuilder.dispatch_new name)) ps =
  DispatchBuilder.mk name (Some start_ns) (Some end_ns) (default true (latest said_active ps))
    (default None (latest said_origin ps)) (latest said_wait ps) (latest said_completion ps)
    (latest said_dispatch ps) (latest said_shader ps) (latest said_source ps)
    (omap said_attachment ps) (omap said_counter_sample ps).
Proof.
  induction ps as [|p ps IH] using rev_ind; [done|]. rewrite foldl_app, IH, !said_snoc, !omap_snoc. cbn [foldl].
  destruct p; cbn; by rewrite ?app_nil_r.
Qed.

Lemma build_parts name start_ns end_ns active origin dispatch shader source wait completion attachments samples :
  SpanBuilder.build (SpanBuilder.mk name start_ns end_ns active origin dispatch shader source wait completion attachments samples) =
  if active && bool_decide (start_ns < end_ns)
  then Some (mkTargetSpan name start_ns end_ns origin dispatch shader source wait completion attachments samples) else None.
Proof.
  unfold SpanBuilder.build. cbn [SpanBuilder.active SpanBuilder.start_ns SpanBuilder.end_ns].
  destruct active; cbn [negb andb]; [|done]. case_decide.
  - by rewrite bool_decide_eq_false_2 by lia.
  - rewrite bool_decide_eq_true_2 by lia. cbn. rewrite with_attachments, with_counter_samples.
    by destruct dispatch, shader, source, wait, completion, origin.
Qed.

Lemma add_attachments l b :
  with_each SpanBuilder.add_attachment_id l b = b <| SpanBuilder.attachment_ids ::= fun a => a ++ l |>.
Proof.
  revert b. induction l as [|i l IH]; intros b; [by destruct b; cbn; rewrite app_nil_r|].
  unfold with_each in *. cbn [foldl]. rewrite IH. cbn. by rewrite <- app_assoc.
Qed.

Lemma add_counter_samples l b :
  with_each SpanBuilder.add_counter_sample_id l b = b <| SpanBuilder.counter_sample_ids ::= fun a => a ++ l |>.
Proof.
  revert b. induction l as [|i l IH]; intros b; [by destruct b; cbn; rewrite app_nil_r|].
  unfold with_each in *. cbn [foldl]. rewrite IH. cbn. by rewrite <- app_assoc.
Qed.

(** C36. Both builders of spans agree: told the same in the same order, they build
    the same span, exactly when the capture was active and the span is not empty;
    it has, of every field, what was said last, and all attachments and counter
    samples in order. *)
Theorem builders_exact name start_ns end_ns ps :
  SpanBuilder.build (foldl set_part (SpanBuilder.builder_new name start_ns end_ns) ps) =
    (if default true (latest said_active ps) && bool_decide (start_ns < end_ns)
     then Some (described name start_ns end_ns ps) else None) /\
  DispatchBuilder.build_dispatch
      (foldl put_part (DispatchBuilder.timestamps start_ns end_ns (DispatchBuilder.dispatch_new name)) ps) =
    SpanBuilder.build (foldl set_part (SpanBuilder.builder_new name start_ns end_ns) ps).
Proof.
  rewrite set_parts, put_parts, build_parts. split; [done|].
  unfold DispatchBuilder.build_dispatch. cbn [DispatchBuilder.active]. destruct (default true _); [|done]. cbn.
  rewrite add_attachments, add_counter_samples. rewrite <- (build_parts name start_ns end_ns true). f_equal.
  by destruct (default None _), (latest said_wait ps), (latest said_completion ps), (latest said_dispatch ps),
    (latest said_shader ps), (latest said_source ps).
Qed.

(** ** The threads of the program and the worker *)

Section Interleaved.
Context {Channel : Mpsc WorkerMessage} {Order : MapOrder}.
Context (own_pid : Z).

#[local] Existing Instance eta_World.

(** What a thread of the program may ask for; and the worker. *)
Inductive request :=
  | ReportSpans (lane : string) (kind : TargetLaneKind) (spans : list TargetSpan) (records : TargetRecordBatch)
  | ReportIfActive (l : Lane) (spans : list TargetSpan) (records : TargetRecordBatch)
  | ReportSignals (b : TargetSignalBatch)
  | NewEventKind (id : Z) (name : string) (description : option string) (fields : list TargetEventFieldDefinition)
  | NewCounterSet (id : Z) (name : string) (counters : list TargetCounterDefinition)
  | NewContract (c : TargetContractRecord)
  | EmitAt (kind : TargetEventKindRecord) (timestamp_ns source_pid : Z) (tid correlation_id : option Z)
      (values : list TargetCounterScalar)
  | SampleAt (set : TargetCounterSetRecord) (timestamp_ns source_pid : Z) (tid : option Z)
      (values : list TargetCounterScalar)
  | CaptureOrigin (h : Here)
  | OpenASpan (h : Here) (name : string) (o : option TargetSpanOrigin)
  | ReadStats
  | Work (turns : list Turn).

Definition handle (r : request) : prog World unit :=
  match r with
  | ReportSpans lane kind spans records => forget (try_report_batch_with_kind own_pid lane kind spans records)
  | ReportIfActive l spans records => forget (report_batch_if_active own_pid l spans records)
  | ReportSignals b => report_signals own_pid b
  | NewEventKind id name description fields => forget (event_kind_new id name description fields)
  | NewCounterSet id name counters => forget (counter_set_new id name counters)
  | NewContract c => forget (contract_new c)
  | EmitAt kind t p tid c values => emit_at own_pid kind t p tid c values
  | SampleAt set t p tid values => sample_at own_pid set t p tid values
  | CaptureOrigin h => forget (capture_origin h)
  | OpenASpan h name o => forget (open_span h name o)
  | ReadStats => forget reporter_stats
  | Work turns => worker own_pid true turns
  end.

(** ** What is delivered *)

Definition carries (b : TargetSignalBatch) : bool :=
  negb (bool_decide (b_events b = []) && bool_decide (b_counter_samples b = [])).

(** The messages that must not be lost or reordered on the way. *)
Definition counted (m : WorkerMessage) : bool :=
  match m with SpansMessage _ => true | SignalsMessage b => carries b end.

Definition delivered (l : list Call) : list WorkerMessage :=
  omap (fun c => match c with
                 | SendSpans b _ => Some (SpansMessage b)
                 | SendSignals b _ => if carries b then Some (SignalsMessage b) else None
                 | _ => None
                 end) l.

Definition in_queue (w : World) : list WorkerMessage := queued (the_channel w).

Definition kept (l : list WorkerMessage) : list WorkerMessage := filter (fun m => counted m = true) l.

Lemma delivered_snoc l c : delivered (l ++ [c]) = delivered l ++ delivered [c].
Proof. unfold delivered. by rewrite omap_app. Qed.

Lemma kept_snoc taken m : kept (taken ++ [m]) = kept taken ++ kept [m].
Proof. unfold kept. by rewrite filter_app. Qed.

(** The threads of the program leave the worker's part alone and may add to the
    queue; the worker only adds to its calls. *)
Definition program_step (w w' : World) : Prop :=
  server w' = server w /\ reporting_active (stats w') = reporting_active (stats w) /\
  connected_to_server (stats w') = connected_to_server (stats w) /\
  exists l, accepted w' = accepted w ++ l /\ in_queue w' = in_queue w ++ l.

Definition calls_grow (w w' : World) : Prop := server w `prefix_of` server w'.

Definition relies (place : nat) : relation World := match place with O => program_step | S _ => calls_grow end.
Definition guarantees (place : nat) : relation World := match place with O => calls_grow | S _ => program_step end.

#[local] Instance program_step_preorder : PreOrder program_step.
Proof.
  split; [intros w; split_and!; [done..|exists []; by rewrite !app_nil_r]|].
  intros w1 w2 w3 (H1 & H2 & H3 & l & H4 & H5) (K1 & K2 & K3 & l' & K4 & K5). split_and!; [congruence..|].
  exists (l ++ l'). rewrite K4, H4, K5, H5. by rewrite !app_assoc.
Qed.

#[local] Instance calls_grow_preorder : PreOrder calls_grow.
Proof. split; [intros w; unfold calls_grow; reflexivity|]. intros w1 w2 w3. unfold calls_grow. apply transitivity. Qed.

#[local] Instance relies_preorder i : PreOrder (relies i).
Proof. destruct i; apply _. Qed.

Lemma program_grows w w' : program_step w w' -> calls_grow w w'.
Proof. intros (H & _). unfold calls_grow. by rewrite H. Qed.

Lemma respected i j w w' : i <> j -> guarantees i w w' -> relies j w w'.
Proof. destruct i, j; cbn; intros Hne; [done|auto|auto|apply program_grows]. Qed.

(** What the invariants are about. *)
Definition core (w : World) :=
  (reporting_active (stats w), connected_to_server (stats w), the_channel w, definitions w, accepted w, server w).
Definition flow (w : World) := (the_channel w, accepted w, server w).

Lemma core_on_stats f w :
  (forall s, reporting_active (f s) = reporting_active s /\ connected_to_server (f s) = connected_to_server s) ->
  core (w <| stats ::= f |>) = core w.
Proof. intros Hf. unfold core. cbn. by destruct (Hf (stats w)) as [-> ->]. Qed.

Lemma core_sender w :
  core (match sender w with
        | Some _ => w
        | None => w <| sender := Some (channel QUEUE_DEPTH) |> <| stats ::= fun s => s <| worker_started := true |> |>
        end) = core w.
Proof. unfold core, the_channel. destruct w as [? ? ? ? [c|] ? ?]; done. Qed.

Ltac quiet :=
  repeat first
    [ exact I
    | apply quiet_reading
    | apply quiet_writing; intros ?; first [apply core_on_stats; done | apply core_sender]
    | apply quiet_bind; [|intros ?]
    | case_match ].

Lemma quiet_sender : quiet core worker_sender.
Proof. unfold worker_sender. quiet. Qed.

Lemma quiet_gate : quiet core gate.
Proof. unfold gate. apply quiet_bind; [apply quiet_sender|intros _; apply quiet_reading]. Qed.

Lemma quiet_reporter_stats : quiet core reporter_stats.
Proof. unfold reporter_stats. quiet. Qed.

Lemma quiet_reset : quiet core reset_reporter_stats.
Proof. unfold reset_reporter_stats, on_stats. quiet. Qed.

Lemma quiet_stats_for_pid pid : quiet core (reporter_stats_for_pid pid).
Proof. unfold reporter_stats_for_pid. apply quiet_bind; [apply quiet_reporter_stats|done]. Qed.

Lemma quiet_capture_origin h : quiet core (capture_origin h).
Proof. unfold capture_origin. by apply quiet_bind; [apply quiet_gate|]. Qed.

Lemma quiet_open_span h name o : quiet core (open_span h name o).
Proof. unfold open_span. by apply quiet_bind; [apply quiet_gate|]. Qed.

(** The state with another statistics record, or one more call. *)
Definition restat (f : ReporterStats -> ReporterStats) (w : World) : World := w <| stats ::= f |>.
Definition recall (c : Call) (w : World) : World := w <| server ::= fun l => l ++ [c] |>.

Lemma server_recall c w : server (recall c w) = server w ++ [c].
Proof. done. Qed.

Lemma recall_grows c w : calls_grow w (recall c w).
Proof. by exists [c]. Qed.

(** Sending a message adds it to the queue, or nothing. *)
Lemma push_effect m w :
  let w' := (push m w).1 in
  stats w' = stats w /\ definitions w' = definitions w /\ server w' = server w /\
  capacity (the_channel w') = capacity (the_channel w) /\
  exists l, accepted w' = accepted w ++ l /\ in_queue w' = in_queue w ++ l /\
    (l = [] \/ l = [m] /\ (length (in_queue w) < capacity (the_channel w))%nat).
Proof.
  unfold push, in_queue. destruct (closed (the_channel w)) eqn:Hcl; [|destruct (decide (length (queued (the_channel w)) < capacity (the_channel w))%nat) as [Hlt|Hge]].
  - rewrite (try_send_closed m _ Hcl). cbn. split_and!; [done..|]. exists []. rewrite !app_nil_r. by split_and!; [..|left].
  - destruct (try_send_ok m _ Hcl Hlt) as (c & -> & Hq & Hc & _). cbn. split_and!; [done..|]. exists [m]. by split_and!; [..|right].
  - rewrite (try_send_full m _ Hcl) by lia. cbn. split_and!; [done..|]. exists []. rewrite !app_nil_r. by split_and!; [..|left].
Qed.

(** *** The threads of the program

    Whatever others do, they keep an invariant [I] of the state that does not
    depend on the counters, and that allows the signals [Ok] to be queued. *)

(** [batch.pid = std::process::id()] *)
Definition stamped (b : TargetSignalBatch) : TargetSignalBatch :=
  mkTargetSignalBatch own_pid (b_event_kinds b) (b_events b) (b_counter_sets b) (b_counter_samples b) (b_contracts b).

#[local] Instance anything_preorder : PreOrder (fun _ _ : World => True).
Proof. done. Qed.

Section Threads.
Context (I : World -> Prop) (Ok : TargetSignalBatch -> Prop).

Definition fine (m : WorkerMessage) : Prop := match m with SpansMessage _ => True | SignalsMessage b => Ok b end.

Hypothesis I_core : forall w w', core w' = core w -> I w -> I w'.
Hypothesis I_push : forall m w, fine m -> I w -> I (push m w).1.

Abbreviation free p w := (rg I (fun _ _ => True) program_step (fun _ => True) p (fun _ _ => True) w).

Lemma free_quiet {A} (p : prog World A) w : quiet core p -> free p w.
Proof.
  intros Hp. eapply rg_keeps; [done| |exact Hp|done]. intros s1 s2 He Hi _.
  split; [by eapply I_core|]. split; [|done]. injection He as H1 H2 H3 H4 H5 H6.
  split_and!; [done..|]. exists []. unfold in_queue. by rewrite H3, H5, !app_nil_r.
Qed.

Lemma free_bind {A B} (p : prog World A) (k : A -> prog World B) w :
  free p w -> (forall a w', free (k a) w') -> free (bind p k) w.
Proof. intros Hp Hk. eapply rg_bind; [exact Hp|auto]. Qed.

Lemma free_forget {A} (p : prog World A) w : free p w -> free (forget p) w.
Proof. intros Hp. by apply free_bind. Qed.

Lemma free_send m w : fine m -> free (send m) w.
Proof.
  intros Hm. apply rg_section. intros w1 _ Hi _. split; [by apply I_push|]. split; [|done].
  destruct (push_effect m w1) as (H1 & _ & H3 & _ & l & H5 & H6 & _). split_and!; [done|by rewrite H1..|by exists l].
Qed.

Lemma free_spans lane kind spans records w : free (try_report_batch_with_kind own_pid lane kind spans records) w.
Proof.
  unfold try_report_batch_with_kind. case_match; [done|]. apply free_bind; [apply free_quiet, quiet_sender|]. intros _ w1.
  apply free_bind; [by apply free_send|]. intros [[]|[]] w2; [done|..]; apply free_quiet;
    unfold record_queue_full_drop, record_worker_disconnected_drop, on_stats; quiet.
Qed.

Lemma free_signals b w : Ok (stamped b) -> free (try_report_signals own_pid b) w.
Proof.
  intros Hb. unfold try_report_signals. case_match; [done|]. apply free_bind; [apply free_quiet, quiet_sender|]. intros _ w1.
  apply free_bind; [by apply free_send|]. intros [[]|[]] w2; [done|..]; apply free_quiet;
    unfold record_signal_queue_full_drop, record_signal_worker_disconnected_drop, on_stats; quiet.
Qed.

(** The definition may be made. *)
Definition definable (f : SignalDefinitions -> SignalDefinitions) : Prop := forall w, I w -> I (w <| definitions ::= f |>).

Lemma free_define {A} f (a : A) w : definable f -> free (let! _ := define f in Done a) w.
Proof.
  intros Hf. apply free_bind; [|done]. apply rg_section. intros w1 _ Hi _. split; [by apply Hf|]. split; [|done].
  split_and!; [done..|]. exists []. by rewrite !app_nil_r.
Qed.

(** What a thread may ask for; not for another worker. *)
Definition fits (r : request) : Prop :=
  match r with
  | ReportSignals b => Ok (stamped b)
  | NewEventKind id name description fields =>
      definable (fun d => d <| event_kinds ::= insert id (mkTargetEventKindRecord id name description fields) |>)
  | NewCounterSet id name counters =>
      definable (fun d => d <| counter_sets ::= insert id (mkTargetCounterSetRecord id name counters) |>)
  | NewContract c => definable (fun d => d <| contracts ::= insert (contract_id c) c |>)
  | EmitAt kind _ _ _ _ _ => forall e, ev_kind_id e = event_kind_id kind -> Ok (batch_of_events own_pid [e])
  | SampleAt set _ _ _ _ => forall x, cm_counter_set_id x = counter_set_id set -> Ok (batch_of_samples own_pid [x])
  | Work _ => False
  | _ => True
  end.

Lemma free_handle r w : fits r -> free (handle r) w.
Proof.
  destruct r; cbn [fits handle]; intros Hr.
  - apply free_forget, free_spans.
  - apply free_forget. apply free_bind; [apply free_quiet, quiet_gate|]. intros [|] w1; [apply free_spans|done].
  - by apply free_forget, free_signals.
  - by apply free_forget, free_define.
  - by apply free_forget, free_define.
  - by apply free_forget, free_define.
  - apply free_bind; [apply free_quiet, quiet_gate|]. intros active w1. case_match; [done|].
    apply free_bind; [by apply free_quiet, quiet_section|]. intros n w2. by apply free_forget, free_signals, Hr.
  - apply free_bind; [apply free_quiet, quiet_gate|]. intros active w1. case_match; [done|].
    apply free_bind; [by apply free_quiet, quiet_section|]. intros n w2. by apply free_forget, free_signals, Hr.
  - apply free_forget, free_quiet, quiet_capture_origin.
  - apply free_forget, free_quiet, quiet_open_span.
  - apply free_forget, free_quiet, quiet_reporter_stats.
  - done.
Qed.

End Threads.

(** *** The queue and the calls *)

Record Fifo (w : World) : Prop := {
  fifo_taken : exists taken, accepted w = taken ++ in_queue w /\ delivered (server w) `sublist_of` kept taken;
  fifo_bounded : (length (in_queue w) <= QUEUE_DEPTH)%nat /\ capacity (the_channel w) = QUEUE_DEPTH
}.

Lemma fifo_flow w w' : flow w' = flow w -> Fifo w -> Fifo w'.
Proof. intros [= H1 H2 H3] [K1 K2]. split; unfold in_queue in *; by rewrite ?H1, ?H2, ?H3. Qed.

Lemma fifo_core w w' : core w' = core w -> Fifo w -> Fifo w'.
Proof. intros [= H1 H2 H3 H4 H5 H6]. apply fifo_flow. unfold flow. congruence. Qed.

Lemma fifo_push m w : Fifo w -> Fifo (push m w).1.
Proof.
  intros [(taken & K1 & K2) [K3 K4]]. destruct (push_effect m w) as (H1 & _ & H3 & H4 & l & H5 & H6 & H7). split.
  - exists taken. rewrite H3, H5, H6, K1, app_assoc. by split.
  - rewrite H4, H6, length_app. split; [|done]. destruct H7 as [->|[-> ?]]; cbn [length]; lia.
Qed.

(** Everything but a second worker. *)
Definition reports (r : request) : Prop := match r with Work _ => False | _ => True end.

Lemma reports_fit r : reports r -> fits Fifo (fun _ => True) r.
Proof. destruct r; try done; intros _ w [K1 K2]; by split. Qed.

(** The worker, which may know something of the queue and its calls. *)
Abbreviation deliver p Q w := (rg Fifo program_step calls_grow (fun _ => True) p Q w).

Definition about_flow (P : World -> Prop) : Prop :=
  stable program_step P /\ forall w w', flow w' = flow w -> P w -> P w'.

Lemma deliver_quiet {A} (p : prog World A) P w :
  about_flow P -> quiet flow p -> P w -> deliver p (fun _ => P) w.
Proof.
  intros [HP HP'] Hp Hw. eapply rg_keeps; [done| |exact Hp|done]. intros s1 s2 He Hi H1.
  split; [by eapply fifo_flow|]. split; [|by eapply HP']. injection He as _ _ He. unfold calls_grow. by rewrite He.
Qed.

Lemma deliver_core {A} (p : prog World A) w : quiet core p -> deliver p (fun _ _ => True) w.
Proof.
  intros Hp. apply (deliver_quiet _ (fun _ => True)); [done| |done].
  exact (quiet_part core (fun '(_, _, c, _, d, e) => (c, d, e)) p Hp).
Qed.

Lemma deliver_any {A} (p : prog World A) w : quiet flow p -> deliver p (fun _ _ => True) w.
Proof. intros Hp. by apply (deliver_quiet _ (fun _ => True)). Qed.

Lemma deliver_bind {A B} (p : prog World A) (k : A -> prog World B) w :
  deliver p (fun _ _ => True) w -> (forall a w', deliver (k a) (fun _ _ => True) w') -> deliver (bind p k) (fun _ _ => True) w.
Proof. intros Hp Hk. eapply rg_bind; [exact Hp|auto]. Qed.

Lemma quiet_connected net client : quiet flow (reconnect net client).
Proof. unfold reconnect, connect, store_connected, on_stats. destruct client; [done|]. apply quiet_bind; [by apply quiet_writing|done]. Qed.

Lemma quiet_keep_client r : quiet flow (keep_client r).
Proof. unfold keep_client, store_connected, on_stats. destruct r; [done|..]; (apply quiet_bind; [by apply quiet_writing|done]). Qed.

(** The call may be made whenever the worker knows [P]. *)
Definition callable (P : World -> Prop) (c : Call) : Prop := forall w, Fifo w -> P w -> Fifo (recall c w).

Lemma callable_idle P c : delivered [c] = [] -> callable P c.
Proof.
  intros Hd w [(taken & K1 & K2) K3] _. split; [|done]. exists taken. cbn. by rewrite delivered_snoc, Hd, app_nil_r.
Qed.

Lemma deliver_call P c w : about_flow P -> callable P c -> P w -> deliver (call c) (fun _ _ => True) w.
Proof.
  intros [HP _] Hc Hw. apply rg_section. intros w1 H1 Hi _. split; [|split; [apply recall_grows|done]].
  apply (Hc w1 Hi). by eapply HP.
Qed.

Lemma deliver_connected P net c r client w :
  about_flow P -> callable P c -> P w ->
  deliver (let! client := reconnect net client in if negb client then Done false else let! _ := call c in keep_client r)
    (fun _ _ => True) w.
Proof.
  intros HP Hc Hw. eapply rg_bind; [by apply (deliver_quiet _ P); [|apply quiet_connected|]|]. cbn beta.
  intros [|] w1 H1; [|done]. cbn [negb]. apply deliver_bind; [by eapply deliver_call|]. intros _ w2.
  apply deliver_any, quiet_keep_client.
Qed.

Lemma deliver_poll e client w : deliver (poll_capture_gate own_pid e client) (fun _ _ => True) w.
Proof.
  unfold poll_capture_gate. apply deliver_bind; [apply deliver_any, quiet_connected|]. intros c1 w1.
  apply deliver_bind.
  { unfold ask_gate. destruct c1; [cbn [negb]|done]. apply deliver_bind; [by apply (deliver_call (fun _ => True)); [|apply callable_idle|]|].
    intros _ w2. destruct (p_should e); [done|..]; apply deliver_any; unfold store_active, store_connected, on_stats;
      (apply quiet_bind; [by apply quiet_writing|]; intros _; apply quiet_bind; [by apply quiet_writing|done]). }
  intros [c2 active] w2. apply deliver_bind; [by apply deliver_any, quiet_section|]. intros was w3. apply deliver_bind.
  { destruct (negb was && active); [|done]. unfold announce. apply deliver_bind; [apply deliver_core, quiet_reset|]. intros _ w4.
    apply (rg_bind _ _ _ _ _ _ (fun d _ => carries d = false)).
    - apply rg_section. intros w5 _ Hi _. cbn [fst snd]. split; [done|]. split; [unfold calls_grow; reflexivity|done].
    - cbn beta. intros d w5 Hd. destruct (batch_is_empty d); [done|].
      apply (deliver_connected (fun _ => True)); [done| |done]. apply callable_idle. cbn. by rewrite Hd. }
  intros c4 w4. destruct active, c4; [|done..]. cbn [negb]. apply deliver_bind; [apply deliver_core, quiet_stats_for_pid|].
  intros s w5. apply deliver_bind; [by apply (deliver_call (fun _ => True)); [|apply callable_idle|]|]. intros _ w6.
  apply deliver_any, quiet_keep_client.
Qed.

(** The worker has [m] in its hands, which is neither in the queue nor called. *)
Definition holds (m : WorkerMessage) (w : World) : Prop :=
  exists taken, accepted w = taken ++ m :: in_queue w /\ delivered (server w) `sublist_of` kept taken.

Lemma holds_flow m : about_flow (holds m).
Proof.
  split.
  - intros w w' (K1 & _ & _ & l & K4 & K5) (taken & H1 & H2). exists taken. rewrite K1, K4, K5, H1. split; [|done]. by rewrite <- app_assoc.
  - intros w w' [= H1 H2 H3] (taken & K1 & K2). exists taken. unfold in_queue in *. by rewrite H1, H2, H3.
Qed.

Lemma deliver_receive w :
  deliver receive (fun m w' => match m with Some m => holds m w' | None => True end) w.
Proof.
  apply rg_section. intros w1 _ [(taken & K1 & K2) [K3 K4]] _. cbn beta.
  destruct (queued (the_channel w1)) as [|m l] eqn:Hq.
  - rewrite (recv_empty _ Hq). cbn [fst snd]. set (w2 := w1 <| sender := Some (the_channel w1) |>).
    split; [|split; [unfold calls_grow; reflexivity|done]]. apply (fifo_flow w1); [done|]. split; [by exists taken|done].
  - destruct (recv_message m l _ Hq) as (c & He & Hc & Hcap & Hcl). rewrite He. cbn [fst snd].
    set (w2 := w1 <| sender := Some c |>). assert (in_queue w2 = l) as Hq2 by exact Hc.
    assert (in_queue w1 = m :: l) as Hq1 by exact Hq. rewrite Hq1 in K1, K3. cbn [length] in K3.
    split; [|split; [unfold calls_grow; reflexivity|]].
    + split.
      * exists (taken ++ [m]). rewrite Hq2, <- app_assoc. split; [exact K1|]. etrans; [exact K2|].
        rewrite kept_snoc. by apply sublist_inserts_r.
      * rewrite Hq2. split; [lia|]. change (capacity c = QUEUE_DEPTH). congruence.
    + exists taken. rewrite Hq2. by split.
Qed.

Lemma callable_held m c : delivered [c] = kept [m] -> callable (holds m) c.
Proof.
  intros Hd w [_ K2] (taken & H1 & H2). split; [|exact K2]. exists (taken ++ [m]). rewrite <- app_assoc. split; [exact H1|].
  cbn. rewrite delivered_snoc, kept_snoc, Hd. by apply sublist_app.
Qed.

Lemma deliver_turn t client w : deliver (take_turn own_pid t client) (fun _ _ => True) w.
Proof.
  destruct t as [e|net r]; cbn [take_turn]; [apply deliver_poll|].
  eapply rg_bind; [apply deliver_receive|]. cbn beta. intros [m|] w1 Hm; [|done].
  destruct m as [b|b]; eapply deliver_connected; try exact Hm; try apply holds_flow; apply callable_held; [done|].
  unfold kept. cbn. by destruct (carries b).
Qed.

Lemma deliver_loop turns client w : deliver (worker_loop own_pid turns client) (fun _ _ => True) w.
Proof.
  revert client w. induction turns as [|t turns IH]; intros client w; [done|]. cbn [worker_loop].
  apply deliver_bind; [apply deliver_turn|]. intros c w1. apply IH.
Qed.

(** The program has defined [ds] and the worker has just been started. *)
Definition started (ds : SignalDefinitions) : World :=
  mkWorld (mkReporterStats true false false 0 0 0 0 0 0 0 0) 1 1 ds (Some (channel QUEUE_DEPTH)) [] [].

Abbreviation config := (World * list (request * prog World unit))%type.

(** The library at work: whatever the program asks for of what is [allowed],
    whenever the worker wakes up, and in whatever order they run. *)
Definition runs (allowed : request -> Prop) (ds : SignalDefinitions) (turns : list Turn) (c : config) : Prop :=
  rtc (Prog.step handle allowed (fun _ => True)) (started ds, [(Work turns, handle (Work turns))]) c.

(** C19. Batches are delivered in order, whatever the threads of the program
    report and define, in every interleaving of theirs with the one worker: the
    queue never holds more than 64, what it has accepted is what the worker has
    taken out followed by what it holds, and the batches with spans, events or
    samples that the server is called with are some of those taken out, in their
    order, none of them twice. *)
Theorem delivered_in_order ds turns c :
  runs reports ds turns c ->
  (length (in_queue c.1) <= QUEUE_DEPTH)%nat /\
  exists taken, accepted c.1 = taken ++ in_queue c.1 /\ delivered (server c.1) `sublist_of` kept taken.
Proof.
  intros Hr. enough (Fifo c.1) as [H1 [H2 _]] by done.
  eapply (pool_sound handle reports (fun _ => True) Fifo relies guarantees calls_grow
    (fun _ => True) (fun _ _ _ => True) respected); [..|exact Hr].
  - intros [|i] w w'; [done|apply program_grows].
  - intros [|i] r w Hi Ha _; [cbn in Hi; lia|]. eapply rg_rely, free_handle; [done|apply fifo_core| |by apply reports_fit].
    intros m w1 _. apply fifo_push.
  - by intros w w' _ _.
  - by intros i r w w' _ _.
  - destruct (channel_new QUEUE_DEPTH) as (H1 & H2 & H3). split; unfold in_queue, the_channel; cbn; rewrite ?H1, ?H2.
    + by exists [].
    + split; [cbn; unfold QUEUE_DEPTH; lia|done].
  - done.
  - intros [|[|i]] r p [= <- <-]. apply deliver_loop.
Qed.

(** The kinds and sets the program uses. *)
Context (D : SignalDefinitions).

Definition defines_kind (d : TargetEventKindRecord) : Prop := event_kinds D !! event_kind_id d = Some d.
Definition defines_set (d : TargetCounterSetRecord) : Prop := counter_sets D !! counter_set_id d = Some d.

(** A definition does not contradict [D]. *)
Definition agrees_kind (d : TargetEventKindRecord) : Prop :=
  event_kinds D !! event_kind_id d = None \/ defines_kind d.
Definition agrees_set (d : TargetCounterSetRecord) : Prop :=
  counter_sets D !! counter_set_id d = None \/ defines_set d.

(** Events and samples are of the kinds and sets of [D], which nobody redefines. *)
Definition allowed (r : request) : Prop :=
  match r with
  | ReportSignals b =>
      Forall (fun e => is_Some (event_kinds D !! ev_kind_id e)) (b_events b) /\
      Forall (fun s => is_Some (counter_sets D !! cm_counter_set_id s)) (b_counter_samples b) /\
      Forall agrees_kind (b_event_kinds b) /\ Forall agrees_set (b_counter_sets b)
  | NewEventKind id name description fields => agrees_kind (mkTargetEventKindRecord id name description fields)
  | NewCounterSet id name counters => agrees_set (mkTargetCounterSetRecord id name counters)
  | EmitAt kind _ _ _ _ _ => defines_kind kind
  | SampleAt set _ _ _ _ => defines_set set
  | Work _ => False
  | _ => True
  end.

(** ** What the server sees *)

Definition known (b : TargetSignalBatch) : Prop :=
  b_pid b = own_pid /\
  Forall (fun e => is_Some (event_kinds D !! ev_kind_id e)) (b_events b) /\
  Forall (fun s => is_Some (counter_sets D !! cm_counter_set_id s)) (b_counter_samples b) /\
  Forall agrees_kind (b_event_kinds b) /\ Forall agrees_set (b_counter_sets b).

(** The batch defines all of [D]. *)
Definition covers (b : TargetSignalBatch) : Prop :=
  map_Forall (fun _ d => d ∈ b_event_kinds b) (event_kinds D) /\
  map_Forall (fun _ d => d ∈ b_counter_sets b) (counter_sets D).

#[local] Instance covers_dec b : Decision (covers b).
Proof. unfold covers. apply _. Defined.

(** Whether the last answer was that the program is recorded, and whether all of
    [D] was sent since it became so. *)
Definition scan (s : bool * bool) (c : Call) : bool * bool :=
  match c with
  | ShouldReport _ (Answered true) => (true, if (s.1 : bool) then s.2 else false)
  | ShouldReport _ _ => (false, s.2)
  | SendSignals b _ => (s.1, s.2 || bool_decide (covers b))
  | _ => s
  end.

Definition scanned (l : list Call) : bool * bool := foldl scan (false, false) l.
Definition announced (l : list Call) : bool := (scanned l).2.

Definition opens (c : Call) : bool := match c with ShouldReport _ (Answered true) => true | _ => false end.
Definition opened (l : list Call) : Prop := Exists (fun c => opens c = true) l.

Definition call_carries (c : Call) : bool := match c with SendSignals b _ => carries b | _ => false end.

(** Events and samples follow the definitions, once the server was found to
    record the program. *)
Definition orderly (l : list Call) : Prop :=
  forall l1 c l2, l = l1 ++ c :: l2 -> call_carries c = true -> opened l1 -> announced l1 = true.

Definition call_known (c : Call) : Prop := match c with SendSignals b _ => known b | _ => True end.

Record Inv (w : World) : Prop := {
  inv_queue : forall b, SignalsMessage b ∈ in_queue w -> known b;
  inv_kinds : forall i d, event_kinds (definitions w) !! i = Some d -> event_kind_id d = i /\ agrees_kind d;
  inv_sets : forall i d, counter_sets (definitions w) !! i = Some d -> counter_set_id d = i /\ agrees_set d;
  inv_defined : event_kinds D ⊆ event_kinds (definitions w) /\ counter_sets D ⊆ counter_sets (definitions w);
  inv_orderly : orderly (server w);
  inv_known : Forall call_known (server w)
}.

Lemma opened_app l l' : opened l -> opened (l ++ l').
Proof. unfold opened. rewrite Exists_app. auto. Qed.

Lemma scanned_snoc l c : scanned (l ++ [c]) = scan (scanned l) c.
Proof. unfold scanned. by rewrite foldl_app. Qed.

Lemma announced_covers l b r : covers b -> announced (l ++ [SendSignals b r]) = true.
Proof. intros H. unfold announced. rewrite scanned_snoc. cbn. rewrite bool_decide_eq_true_2 by done. apply orb_true_r. Qed.

Lemma opened_snoc l c : opened (l ++ [c]) <-> opened l \/ opens c = true.
Proof. unfold opened. rewrite Exists_app, Exists_cons, Exists_nil. tauto. Qed.

Lemma scanned_opened l : (scanned l).1 = true -> opened l.
Proof.
  induction l as [|c l IH] using rev_ind; [done|]. rewrite scanned_snoc, opened_snoc.
  destruct c as [pid [[|]| |]|?|?|?]; cbn; auto.
Qed.

Lemma orderly_snoc l c : orderly l -> (call_carries c = true -> opened l -> announced l = true) -> orderly (l ++ [c]).
Proof.
  intros Ho Hc l1 x l2 He Hx. destruct l2 as [|y l2 _] using rev_ind.
  - apply app_inj_tail in He as [-> ->]. by apply Hc.
  - rewrite app_comm_cons, app_assoc in He. apply app_inj_tail in He as [-> ->]. by eapply Ho.
Qed.

(** ** The threads of the program *)

Lemma inv_core w w' : core w' = core w -> Inv w -> Inv w'.
Proof.
  intros [= H1 H2 H3 H4 H5 H6] [K2 K3 K4 K5 K6 K7]. split; unfold in_queue in *; rewrite ?H3, ?H4, ?H6; done.
Qed.

Lemma inv_push m w : fine known m -> Inv w -> Inv (push m w).1.
Proof.
  intros Hm [K2 K3 K4 K5 K6 K7]. destruct (push_effect m w) as (E1 & E2 & E3 & _ & l & E5 & E6 & E7).
  split; rewrite ?E2, ?E3; try done. intros b. rewrite E6, elem_of_app. intros [Hb|Hb]; [by apply K2|].
  destruct E7 as [->|[-> _]]; [by apply not_elem_of_nil in Hb|]. apply list_elem_of_singleton in Hb as <-. exact Hm.
Qed.

(** A definition that agrees with [D] keeps the invariant. *)
Lemma insert_keeps {V} (m m' : gmap Z V) i v : m ⊆ m' -> m !! i = None \/ m !! i = Some v -> m ⊆ <[i := v]> m'.
Proof. intros Hm [Hi|Hi]; [by apply insert_subseteq_r|]. rewrite <- (insert_id m i v) by done. by apply insert_mono. Qed.

Lemma allowed_fits r : allowed r -> fits Inv known r.
Proof.
  destruct r; cbn [allowed fits]; try done.
  - intros Hk w [K2 K3 K4 [K5 K5'] K6 K7]. split; cbn; try done.
    + intros i k. rewrite lookup_insert_Some. intros [[<- <-]|[_ Hi]]; [by split|by apply K3].
    + split; [by apply insert_keeps|done].
  - intros Hk w [K2 K3 K4 [K5 K5'] K6 K7]. split; cbn; try done.
    + intros i k. rewrite lookup_insert_Some. intros [[<- <-]|[_ Hi]]; [by split|by apply K4].
    + split; [done|by apply insert_keeps].
  - intros _ w [K2 K3 K4 K5 K6 K7]. by split.
  - intros Hk e He. split_and!; [done| |done..]. apply Forall_singleton. rewrite He. by eexists.
  - intros Hk x Hx. split_and!; [done|done| |done..]. apply Forall_singleton. rewrite Hx. by eexists.
Qed.

(** ** The worker *)

Abbreviation work p Q w := (rg Inv program_step calls_grow (fun _ => True) p Q w).
Abbreviation steady P := (stable program_step P).

Lemma work_quiet {A} (p : prog World A) w : quiet core p -> work p (fun _ w' => program_step w w') w.
Proof.
  intros Hp. apply (rg_guarantee _ _ _ program_step); [apply program_grows|].
  apply (rg_quiet (control := core)); [apply _|done| |done]. intros s1 s2 He Hi. split; [by eapply inv_core|].
  injection He as H1 H2 H3 H4 H5 H6. split_and!; [done..|]. exists []. unfold in_queue. by rewrite H3, H5, !app_nil_r.
Qed.

Lemma work_section {A} (f : World -> World * A) (P : World -> Prop) (Q : A -> World -> Prop) w :
  steady P -> P w ->
  (forall w1, Inv w1 -> P w1 -> Inv (f w1).1 /\ calls_grow w1 (f w1).1 /\ Q (f w1).2 (f w1).1) ->
  work (section f) Q w.
Proof. intros HP Hw Hf. apply rg_section. intros w1 H1 Hi _. apply Hf; [done|]. by eapply HP. Qed.

Lemma inv_restat f w : Inv w -> Inv (restat f w).
Proof. intros [K2 K3 K4 K5 K6 K7]. by split. Qed.

Lemma inv_recall c w :
  Inv w -> (call_carries c = true -> opened (server w) -> announced (server w) = true) -> call_known c -> Inv (recall c w).
Proof.
  intros [K2 K3 K4 K5 K6 K7] Hc Hk. split; cbn; try done.
  - by apply orderly_snoc.
  - apply Forall_app. by rewrite Forall_singleton.
Qed.

Lemma inv_recall_idle c w : Inv w -> call_carries c = false -> call_known c -> Inv (recall c w).
Proof. intros Hi Hc Hk. apply inv_recall; [done|congruence|done]. Qed.

Lemma work_store f (P Q : World -> Prop) w :
  steady P -> P w ->
  (forall w1, P w1 -> Q (restat f w1)) ->
  work (on_stats f) (fun _ => Q) w.
Proof.
  intros HP Hw Hf. eapply (work_section _ P); [done..|]. intros w1 Hi H1.
  split; [by apply inv_restat|]. split; [unfold calls_grow; reflexivity|by apply Hf].
Qed.

Lemma work_call c (P Q : World -> Prop) w :
  steady P -> P w ->
  (forall w1, Inv w1 -> P w1 -> Inv (recall c w1) /\ Q (recall c w1)) -> work (call c) (fun _ => Q) w.
Proof.
  intros HP Hw Hf. eapply (work_section _ P); [done..|]. intros w1 Hi H1. destruct (Hf w1 Hi H1) as [Ho Hq].
  split; [exact Ho|]. split; [apply recall_grows|exact Hq].
Qed.

Lemma announced_snoc l c : announced (l ++ [c]) = (scan (scanned l) c).2.
Proof. unfold announced. by rewrite scanned_snoc. Qed.

(** What holds between the turns of the worker. *)
Definition no_definitions : Prop := event_kinds D = ∅ /\ counter_sets D = ∅.
Definition told (w : World) : Prop := announced (server w) = true \/ no_definitions.

Definition settled (client : bool) (w : World) : Prop :=
  connected_to_server (stats w) = client /\
  (reporting_active (stats w) = true -> (scanned (server w)).1 = true) /\
  (opened (server w) -> told w).

Lemma told_step w w' : server w' = server w -> told w -> told w'.
Proof. unfold told. by intros ->. Qed.

Lemma settled_steady client : steady (settled client).
Proof.
  intros w w' (H1 & H2 & H3 & _) (K1 & K2 & K3). unfold settled, told. rewrite H1, H2, H3. by split_and!.
Qed.

(** A call that neither opens nor closes the gate nor defines anything. *)
Definition neutral (c : Call) : Prop := match c with ShouldReport _ _ => False | _ => True end.

Lemma settled_recall c client w : neutral c -> settled client w -> settled client (recall c w).
Proof.
  intros Hc (K1 & K2 & K3). destruct c as [pid r|s r|b r|b r]; [done|..]; (split; [done|]; split; cbn;
    [intros Ha; rewrite scanned_snoc; cbn; by apply K2|]).
  all: rewrite opened_snoc; intros [Ho|?]; [|done]; destruct (K3 Ho) as [Hk|Hk]; [|by right]; left; unfold announced in *;
    cbn; rewrite scanned_snoc; cbn; rewrite Hk; try done.
Qed.

Lemma work_store_connected b client w :
  settled client w -> work (store_connected b) (fun _ => settled b) w.
Proof.
  intros Hs. eapply (work_store _ (settled client)); [apply settled_steady|done|]. intros w1 (K1 & K2 & K3). by split.
Qed.

Lemma work_reconnect net client w :
  settled client w -> work (reconnect net client) (fun c w' => settled c w') w.
Proof.
  intros Hs. unfold reconnect. destruct client; [done|]. unfold connect. set (b := match stax_server_socket net with Some _ => _ | None => _ end).
  eapply rg_bind; [by apply (work_store_connected b false)|done].
Qed.

Lemma work_keep_client r w : settled true w -> work (keep_client r) (fun c w' => settled c w') w.
Proof.
  intros Hs. destruct r; [done|..]; unfold keep_client; (eapply rg_bind; [by apply (work_store_connected false true)|done]).
Qed.

(** *** A poll *)

Definition asked (client active : bool) (w : World) : Prop :=
  connected_to_server (stats w) = client /\
  if active then client = true /\ opened (server w) /\ (scanned (server w)).1 = true /\
                 (reporting_active (stats w) = true -> told w)
  else opened (server w) -> told w.

Lemma asked_steady client active : steady (asked client active).
Proof.
  intros w w' (H1 & H2 & H3 & _) (K1 & K2). unfold asked, told. rewrite H1, H2, H3. by split.
Qed.

Lemma work_ask pid r client w :
  settled client w -> work (ask_gate pid r client) (fun x w' => asked x.1 x.2 w') w.
Proof.
  intros Hs. unfold ask_gate. destruct client; cbn [negb]; [|by destruct Hs as (? & _ & ?)].
  eapply rg_bind.
  - apply (work_call _ (settled true) (asked true (match r with Answered a => a | _ => false end))); [apply settled_steady|done|].
    intros w1 Hi (K1 & K2 & K3). split; [by apply inv_recall_idle|]. split; [done|].
    destruct r as [[|]| |]; unfold told; rewrite ?server_recall,
      ?opened_snoc, ?announced_snoc, ?scanned_snoc; cbn [scan fst snd opens].
    + split_and!; [done|by right|done|]. intros Ha. change (reporting_active (stats w1) = true) in Ha. rewrite (K2 Ha). apply K3, scanned_opened, K2, Ha.
    + intros [Ho|?]; [by apply K3|done].
    + intros [Ho|?]; [by apply K3|done].
    + intros [Ho|?]; [by apply K3|done].
  - cbn beta. intros _ w1 H1. destruct r as [a| |]; [done|..].
    all: apply (rg_bind _ _ _ _ _ _ (fun _ => asked true false));
      [ apply (work_store _ (asked true false)); [apply asked_steady|done|]; intros w2 Ha; exact Ha
      | intros _ w2 H2; apply (rg_bind _ _ _ _ _ _ (fun _ => asked false false)); [|done];
        apply (work_store _ (asked true false)); [apply asked_steady|done|]; intros w3 [Ha Hb]; by split ].
Qed.

Definition swapped (client active was : bool) (w : World) : Prop :=
  connected_to_server (stats w) = client /\ reporting_active (stats w) = active /\
  if active then client = true /\ opened (server w) /\ (scanned (server w)).1 = true /\ (was = true -> told w)
  else opened (server w) -> told w.

Lemma swapped_steady client active was : steady (swapped client active was).
Proof.
  intros w w' (H1 & H2 & H3 & _) (K1 & K2 & K3). unfold swapped, told. rewrite H1, H2, H3. by split_and!.
Qed.

Lemma work_swap client active w :
  asked client active w -> work (swap_active active) (fun was w' => swapped client active was w') w.
Proof.
  intros Ha. eapply (work_section _ (asked client active)); [apply asked_steady|done|]. intros w1 Hi [K1 K2]. cbn [fst snd].
  split; [|split].
  - by apply (inv_restat (fun s => s <| reporting_active := active |>) w1).
  - unfold calls_grow. reflexivity.
  - destruct active; split_and!; try done; apply K2.
Qed.

Lemma swapped_settled client active was w :
  (negb was && active) = false -> swapped client active was w -> settled client w.
Proof.
  intros Hw (K1 & K2 & K3). split; [done|]. rewrite K2. destruct active; [|by split].
  destruct was; [|done]. destruct K3 as (_ & Ho & Hg & Ht). split; [done|]. intros _. by apply Ht.
Qed.

(** What a snapshot of the definitions holds. *)
Definition complete (d : TargetSignalBatch) : Prop := covers d /\ known d /\ carries d = false.

Lemma snapshot_complete w :
  Inv w ->
  let values {V} (m : gmap Z V) := map snd (entries m) in
  complete (mkTargetSignalBatch own_pid (values (event_kinds (definitions w))) [] (values (counter_sets (definitions w))) []
    (values (contracts (definitions w)))).
Proof.
  intros [_ K3 K4 [K5 K6] _ _] values.
  assert (forall V (m : gmap Z V) v, v ∈ values V m <-> exists i, m !! i = Some v) as Hv.
  { intros V m v. unfold values. rewrite list_elem_of_fmap. split.
    - intros ([i x] & -> & Hi). rewrite entries_perm in Hi. apply elem_of_map_to_list in Hi. by exists i.
    - intros [i Hi]. exists (i, v). split; [done|]. rewrite entries_perm. by apply elem_of_map_to_list. }
  split; [split|split; [split; [|split; [|split; [|split]]]|done]]; cbn.
  - intros i d Hd. apply Hv. exists i. by eapply lookup_weaken.
  - intros i d Hd. apply Hv. exists i. by eapply lookup_weaken.
  - done.
  - done.
  - done.
  - apply Forall_forall. intros d [i Hd]%Hv. by apply (K3 i).
  - apply Forall_forall. intros d [i Hd]%Hv. by apply (K4 i).
Qed.

Lemma empty_covers d : covers d -> batch_is_empty d = true -> no_definitions.
Proof.
  intros [Hk Hs] He. unfold batch_is_empty in He. rewrite !andb_true_iff, !bool_decide_eq_true in He.
  destruct He as ((((He & _) & Hs') & _) & _). apply nil_length_inv in He, Hs'. rewrite He in Hk. rewrite Hs' in Hs.
  split; apply map_eq; intros i; rewrite lookup_empty.
  - destruct (event_kinds D !! i) as [x|] eqn:E; [|done]. by apply Hk, not_elem_of_nil in E.
  - destruct (counter_sets D !! i) as [x|] eqn:E; [|done]. by apply Hs, not_elem_of_nil in E.
Qed.

Lemma work_announce e client was w :
  swapped client true was w -> work (announce own_pid e client) (fun c w' => settled c w') w.
Proof.
  intros Hs. unfold announce. eapply rg_bind; [apply work_quiet, quiet_reset|]. cbn beta. intros _ w1 H1.
  apply (swapped_steady _ _ _ _ _ H1) in Hs. eapply rg_bind.
  - apply (work_section _ (swapped client true was) (fun d w' => complete d /\ swapped client true was w')); [apply swapped_steady|done|].
    intros w2 Hi H2. cbn [fst snd]. split; [done|]. split; [unfold calls_grow; reflexivity|]. split; [by apply snapshot_complete|done].
  - intros d w2 [(Hc & Hk & Hcar) H2]. cbn beta. destruct (batch_is_empty d) eqn:He.
    + pose proof (empty_covers d Hc He) as Hn. destruct H2 as (K1 & K2 & K3 & K4 & K5 & K6).
      split; [done|]. split; [done|]. by right.
    + assert (client = true) as -> by apply H2. unfold ingest_signal_batch, reconnect. cbn [bind negb].
      eapply rg_bind; [|intros u w3; apply work_keep_client].
      apply (work_call _ (swapped true true was)); [apply swapped_steady|done|].
      intros w3 Hi (K1 & K2 & K3 & K4 & K5 & K6). split.
      * by apply inv_recall_idle.
      * split; [done|]. split; [cbn; intros _; by rewrite scanned_snoc|]. intros _. left. by apply announced_covers.
Qed.

Lemma work_poll e client w :
  settled client w -> work (poll_capture_gate own_pid e client) (fun c w' => settled c w') w.
Proof.
  intros Hs. unfold poll_capture_gate. eapply rg_bind; [by apply work_reconnect|].
  cbn beta. intros c1 w1 H1. eapply rg_bind; [by apply work_ask|]. cbn beta. intros [c2 active] w2 H2. cbn [fst snd] in H2.
  eapply rg_bind; [by apply work_swap|]. cbn beta. intros was w3 H3.
  eapply (rg_bind _ _ _ _ _ _ (fun c w' => settled c w')).
  - destruct (negb was && active) eqn:Hw.
    + apply andb_true_iff in Hw as [_ ->]. by eapply work_announce.
    + by eapply swapped_settled.
  - intros c4 w4 H4. cbn beta. destruct active; [|exact H4]. cbn [negb]. destruct c4; [|exact H4]. cbn [negb].
    eapply rg_bind; [apply work_quiet, quiet_stats_for_pid|]. cbn beta. intros s w5 H5.
    eapply rg_bind; [|intros u w6; apply work_keep_client].
    apply (work_call _ (settled true)); [apply settled_steady|by eapply settled_steady|].
    intros w6 Hi H6. split; [by apply inv_recall_idle|by apply settled_recall].
Qed.

(** *** A message *)

Lemma work_receive client w :
  settled client w ->
  work receive (fun m w' => settled client w' /\ match m with Some m => fine known m | None => True end) w.
Proof.
  intros Hs. apply (work_section _ (settled client)); [apply settled_steady|done|]. intros w1 Hi H1. cbn beta.
  destruct (queued (the_channel w1)) as [|m l] eqn:Hq.
  - rewrite (recv_empty _ Hq). cbn [fst snd]. set (w2 := w1 <| sender := Some (the_channel w1) |>).
    split; [by apply (inv_core w1)|]. split; [unfold calls_grow; reflexivity|]. split; [exact H1|done].
  - destruct (recv_message m l _ Hq) as (c & He & Hc & Hcap & Hcl). rewrite He. cbn [fst snd].
    set (w2 := w1 <| sender := Some c |>). assert (in_queue w2 = l) as Hq2 by exact Hc.
    assert (in_queue w1 = m :: l) as Hq1 by exact Hq. destruct Hi as [K2 K3 K4 K5 K6 K7].
    split; [|split; [unfold calls_grow; reflexivity|split; [exact H1|]]].
    + split; try done. intros b Hb. rewrite Hq2 in Hb. apply K2. rewrite Hq1. by right.
    + destruct m as [b|b]; [done|]. apply K2. rewrite Hq1. by left.
Qed.

Lemma work_handle m net r client w :
  settled client w -> fine known m -> work (handle_message m net r client) (fun c w' => settled c w') w.
Proof.
  intros Hs Hm. assert (forall c, neutral c -> call_known c ->
    (forall w1, settled true w1 -> call_carries c = true -> opened (server w1) -> announced (server w1) = true) ->
    work (let! client := reconnect net client in if negb client then Done false else let! _ := call c in keep_client r)
      (fun c w' => settled c w') w) as Hgo.
  { intros c Hn Hk Hc. eapply rg_bind; [by apply work_reconnect|].
    cbn beta. intros [|] w1 H1; [|exact H1]. cbn [negb]. eapply rg_bind; [|intros u w2; apply work_keep_client].
    apply (work_call _ (settled true)); [apply settled_steady|done|].
    intros w2 Hi H2. split; [|by apply settled_recall]. apply inv_recall; [done|by apply Hc|done]. }
  destruct m as [b|b]; apply Hgo; try done.
  cbn [call_carries]. intros w1 (_ & _ & Ht) Hcar Ho. destruct (Ht Ho) as [Ha|[Hn1 Hn2]]; [done|].
  exfalso. destruct Hm as (_ & Hk1 & Hk2 & _). unfold carries in Hcar. rewrite Hn1 in Hk1. rewrite Hn2 in Hk2.
  destruct (b_events b) as [|x l]; [|apply Forall_cons in Hk1 as [[? Hx] _]; by rewrite lookup_empty in Hx].
  destruct (b_counter_samples b) as [|x l]; [done|]. apply Forall_cons in Hk2 as [[? Hx] _]. by rewrite lookup_empty in Hx.
Qed.

Lemma work_turn t client w : settled client w -> work (take_turn own_pid t client) (fun c w' => settled c w') w.
Proof.
  intros Hs. destruct t as [e|net r]; cbn [take_turn]; [by apply work_poll|].
  eapply rg_bind; [by apply work_receive|]. cbn beta. intros [m|] w1 [H1 H2]; [by apply work_handle|exact H1].
Qed.

Lemma work_loop turns client w : settled client w -> work (worker_loop own_pid turns client) (fun _ _ => True) w.
Proof.
  revert client w. induction turns as [|t turns IH]; intros client w Hs; [done|]. cbn [worker_loop].
  eapply rg_bind; [by apply work_turn|]. cbn beta. intros c w1. apply IH.
Qed.

(** A batch that is not accepted is reported to the caller and counted, with
    its spans, under the reason; one that is accepted goes behind the others, and
    it is accepted exactly when the worker lives and the queue has room. *)
Theorem report_exact lane kind spans records w c :
  sender w = Some c -> bool_decide (spans = []) && records_empty records = false ->
  let '(w', r) := exec (try_report_batch_with_kind own_pid lane kind spans records) w in
  (r = inl tt <-> closed c = false /\ (length (queued c) < capacity c)%nat) /\
  match r with
  | inl _ =>
      stats w' = stats w /\ in_queue w' = in_queue w ++ [SpansMessage (mkTargetSpanBatch own_pid lane kind spans records)]
  | inr QueueFull =>
      stats w' = (stats w) <| batches_dropped_queue_full ::= fun n => wadd64 n 1 |>
                         <| spans_dropped_queue_full ::= fun n => wadd64 n (Z.of_nat (length spans)) |> /\
      in_queue w' = in_queue w /\ closed c = false
  | inr WorkerDisconnected =>
      stats w' = (stats w) <| batches_dropped_worker_disconnected ::= fun n => wadd64 n 1 |>
                         <| spans_dropped_worker_disconnected ::= fun n => wadd64 n (Z.of_nat (length spans)) |> /\
      in_queue w' = in_queue w /\ closed c = true
  end.
Proof.
  intros Hw He. unfold try_report_batch_with_kind. rewrite He. set (m := SpansMessage _).
  destruct w as [st n1 n2 ds sn ac sv]. cbn in Hw. subst sn. cbn. unfold push, the_channel. cbn.
  destruct (closed c) eqn:Hc; [rewrite (try_send_closed m c Hc)|].
  - cbn. split; [split; [done|by intros [? _]]|done].
  - destruct (decide (length (queued c) < capacity c)%nat) as [Hl|Hl].
    + destruct (try_send_ok m c Hc Hl) as (c' & -> & Hq & _). cbn. done.
    + rewrite (try_send_full m c Hc) by lia. cbn. split; [split; [done|by intros [_ ?]]|done].
Qed.

(** *** All of them *)

Definition keyed : Prop :=
  map_Forall (fun i d => event_kind_id d = i) (event_kinds D) /\
  map_Forall (fun i d => counter_set_id d = i) (counter_sets D).

Lemma inv_started : keyed -> Inv (started D).
Proof.
  intros [Hk Hs]. split; cbn.
  - intros b. unfold in_queue, the_channel. cbn. destruct (channel_new QUEUE_DEPTH) as (-> & _). by intros ?%not_elem_of_nil.
  - intros i d Hd. pose proof (Hk i d Hd) as He. split; [done|]. right. unfold defines_kind. by rewrite He.
  - intros i d Hd. pose proof (Hs i d Hd) as He. split; [done|]. right. unfold defines_set. by rewrite He.
  - done.
  - intros l1 c l2 He. by destruct l1.
  - constructor.
Qed.

Lemma runs_inv turns c : keyed -> runs allowed D turns c -> Inv c.1.
Proof.
  intros Hk Hr. eapply (pool_sound handle allowed (fun _ => True) Inv relies guarantees calls_grow
    (fun _ => True) (fun _ _ _ => True) respected); [..|exact Hr].
  - intros [|i] w w'; [done|apply program_grows].
  - intros [|i] r w Hi Ha _; [cbn in Hi; lia|]. eapply rg_rely, free_handle; [done|apply inv_core|apply inv_push|by apply allowed_fits].
  - by intros w w' _ _.
  - by intros i r w w' _ _.
  - by apply inv_started.
  - done.
  - intros [|[|i]] r p [= <- <-]. apply (work_loop turns false). split; [done|]. split; [done|].
    unfold opened. cbn. intros Ho. by apply Exists_nil in Ho.
Qed.

(** ** What the server makes of it *)

Abbreviation ServerState := Server.ServerState.
Abbreviation store s := (Server.s_observability s).
Abbreviation active_target_pid := Server.active_target_pid.

(** What else happens at the server while it records the program leaves its store
    of signals alone, except that signals of other processes are counted. *)
Definition beside (s s' : ServerState) : Prop :=
  active_target_pid s' = active_target_pid s /\
  (store s' = store s \/ exists n, store s' = record_dropped_wrong_pid n (store s)).

(** The server during one recording of the program: [begin_run] has emptied its
    store and the program has been attached; now these calls reach it, or do not.
    A call that was not answered may have arrived. *)
Inductive recording : list Call -> ServerState -> Prop :=
  | attached s : store s = store_default -> active_target_pid s = Some own_pid -> recording [] s
  | signals_arrive l s b r : recording l s -> recording (l ++ [SendSignals b r]) (exec (ingest_signals b) s).1
  | asks l s : recording l s -> recording (l ++ [ShouldReport own_pid (Answered (should_report own_pid s))]) s
  | other_call l s c :
      (forall b u, c <> SendSignals b (Answered u)) -> (forall pid a, c <> ShouldReport pid (Answered a)) ->
      recording l s -> recording (l ++ [c]) s
  | meanwhile l s s' : beside s s' -> recording l s -> recording l s'.

(** Events or samples arrive before a poll has found the recording. *)
Fixpoint left_over (l : list Call) : bool :=
  match l with
  | [] => false
  | c :: l => if opens c then false else call_carries c || left_over l
  end.

Abbreviation server_kinds s := (Observability.Observability.event_kinds s).
Abbreviation server_sets s := (Observability.Observability.counter_sets s).

Definition unknown (s : ObservabilityStore) : Z := samples_unknown_definition (diagnostics s).

(** What a batch of definitions makes of the store. *)
Record defining (ks : list TargetEventKindRecord) (cs : list TargetCounterSetRecord) (s s' : ObservabilityStore) : Prop := {
  kinds_stay : forall k x, server_kinds s !! k = Some x -> server_kinds s' !! k = Some x;
  kinds_from : forall k x, server_kinds s' !! k = Some x ->
    server_kinds s !! k = Some x \/ x ∈ ks /\ k = (own_pid, event_kind_id x);
  kinds_there : forall x, x ∈ ks -> valid_event_definition x = true -> is_Some (server_kinds s' !! (own_pid, event_kind_id x));
  sets_stay : forall k x, server_sets s !! k = Some x -> server_sets s' !! k = Some x;
  sets_from : forall k x, server_sets s' !! k = Some x ->
    server_sets s !! k = Some x \/ x ∈ cs /\ k = (own_pid, counter_set_id x);
  sets_there : forall x, x ∈ cs -> valid_counter_definition x = true -> is_Some (server_sets s' !! (own_pid, counter_set_id x));
  unknown_same : unknown s' = unknown s
}.

Lemma defining_none s s' :
  server_kinds s' = server_kinds s -> server_sets s' = server_sets s -> unknown s' = unknown s -> defining [] [] s s'.
Proof.
  intros Hk Hs Hu. split; rewrite ?Hk, ?Hs; try done; try (intros; by left); by intros x ?%not_elem_of_nil.
Qed.

Lemma defining_app ks cs ks' cs' s1 s2 s3 :
  defining ks cs s1 s2 -> defining ks' cs' s2 s3 -> defining (ks ++ ks') (cs ++ cs') s1 s3.
Proof.
  intros [A1 A2 A3 A4 A5 A6 A7] [B1 B2 B3 B4 B5 B6 B7]. split; [auto| | |auto| | |congruence].
  - intros k x Hx. destruct (B2 k x Hx) as [H|[H ->]]; [|right; split; [set_solver|done]].
    destruct (A2 k x H) as [H'|[H' ->]]; [by left|right; split; [set_solver|done]].
  - intros x [Hx|Hx]%elem_of_app Hv; [|by apply B3]. destruct (A3 x Hx Hv) as [y Hy]. eauto.
  - intros k x Hx. destruct (B5 k x Hx) as [H|[H ->]]; [|right; split; [set_solver|done]].
    destruct (A5 k x H) as [H'|[H' ->]]; [by left|right; split; [set_solver|done]].
  - intros x [Hx|Hx]%elem_of_app Hv; [|by apply B6]. destruct (A6 x Hx Hv) as [y Hy]. eauto.
Qed.

Lemma insert_definition_spec {V} `{EqDecision V} (key : Z * Z) (v : V) m d :
  let '(m', d') := insert_definition key v m d in
  (forall k x, m !! k = Some x -> m' !! k = Some x) /\
  (forall k x, m' !! k = Some x -> m !! k = Some x \/ x = v /\ k = key) /\
  is_Some (m' !! key) /\ samples_unknown_definition d' = samples_unknown_definition d.
Proof.
  unfold insert_definition. destruct (m !! key) as [x|] eqn:E.
  - case_decide; (split; [done|]; split; [by left|]; split; [by exists x|done]).
  - split; [|split; [|split; [rewrite lookup_insert_eq; by exists v|done]]].
    + intros k x Hx. rewrite lookup_insert_ne; [done|congruence].
    + intros k x [[<- <-]|[_ Hx]]%lookup_insert_Some; [by right|by left].
Qed.

Lemma defining_kind s x : defining [x] [] s (ingest_event_kind own_pid s x).
Proof.
  unfold ingest_event_kind. destruct (valid_event_definition x) eqn:Hv.
  - pose proof (insert_definition_spec (own_pid, event_kind_id x) x (server_kinds s) (diagnostics s)) as H.
    destruct (insert_definition _ _ _ _) as [m d]. destruct H as (H1 & H2 & H3 & H4). split; cbn; try done.
    + intros k y Hy. destruct (H2 k y Hy) as [?|[-> ->]]; [by left|right]. split; [by left|done].
    + intros y ->%list_elem_of_singleton _. done.
    + intros k y Hy. by left.
    + by intros y ?%not_elem_of_nil.
  - split; cbn; try done; try (intros; by left).
    + intros y ->%list_elem_of_singleton. by rewrite Hv.
    + by intros y ?%not_elem_of_nil.
Qed.

Lemma defining_set s x : defining [] [x] s (ingest_counter_set own_pid s x).
Proof.
  unfold ingest_counter_set. destruct (valid_counter_definition x) eqn:Hv.
  - pose proof (insert_definition_spec (own_pid, counter_set_id x) x (server_sets s) (diagnostics s)) as H.
    destruct (insert_definition _ _ _ _) as [m d]. destruct H as (H1 & H2 & H3 & H4). split; cbn; try done.
    + intros k y Hy. by left.
    + by intros y ?%not_elem_of_nil.
    + intros k y Hy. destruct (H2 k y Hy) as [?|[-> ->]]; [by left|right]. split; [by left|done].
    + intros y ->%list_elem_of_singleton _. done.
  - split; cbn; try done; try (intros; by left).
    + by intros y ?%not_elem_of_nil.
    + intros y ->%list_elem_of_singleton. by rewrite Hv.
Qed.

Lemma defining_contract s x : defining [] [] s (ingest_contract own_pid s x).
Proof.
  unfold ingest_contract. destruct (valid_contract_definition x).
  - pose proof (insert_definition_spec (own_pid, contract_id x) x (Observability.Observability.contracts s) (diagnostics s)) as H.
    destruct (insert_definition _ _ _ _) as [m d]. by apply defining_none; [..|apply H].
  - by apply defining_none.
Qed.

Lemma defining_kinds l s : defining l [] s (foldl (ingest_event_kind own_pid) s l).
Proof.
  revert s. induction l as [|x l IH]; intros s; [by apply defining_none|]. cbn [foldl].
  apply (defining_app [x] [] l [] _ _ _ (defining_kind s x)), IH.
Qed.

Lemma defining_sets l s : defining [] l s (foldl (ingest_counter_set own_pid) s l).
Proof.
  revert s. induction l as [|x l IH]; intros s; [by apply defining_none|]. cbn [foldl].
  apply (defining_app [] [x] [] l _ _ _ (defining_set s x)), IH.
Qed.

Lemma defining_contracts l s : defining [] [] s (foldl (ingest_contract own_pid) s l).
Proof.
  revert s. induction l as [|x l IH]; intros s; [by apply defining_none|]. cbn [foldl].
  apply (defining_app [] [] [] [] _ _ _ (defining_contract s x)), IH.
Qed.

Lemma defining_batch b s :
  b_pid b = own_pid -> defining (b_event_kinds b) (b_counter_sets b) s (ingest_definitions b (count_batch b s)).
Proof.
  intros Hp. unfold ingest_definitions. rewrite Hp.
  assert (defining [] [] s (count_batch b s)) as H0 by by apply defining_none.
  pose proof (defining_app _ _ _ _ _ _ _ H0 (defining_kinds (b_event_kinds b) _)) as H1.
  pose proof (defining_app _ _ _ _ _ _ _ H1 (defining_sets (b_counter_sets b) _)) as H2.
  pose proof (defining_app _ _ _ _ _ _ _ H2 (defining_contracts (b_contracts b) _)) as H3.
  cbn in H3. by rewrite !app_nil_r in H3.
Qed.

(** The store holds nothing that contradicts [D], or all of it. *)
Definition agreed (s : ObservabilityStore) : Prop :=
  (forall i d x, event_kinds D !! i = Some d -> server_kinds s !! (own_pid, i) = Some x -> x = d) /\
  (forall i d x, counter_sets D !! i = Some d -> server_sets s !! (own_pid, i) = Some x -> x = d).

Definition holding (s : ObservabilityStore) : Prop :=
  (forall i d, event_kinds D !! i = Some d -> server_kinds s !! (own_pid, i) = Some d) /\
  (forall i d, counter_sets D !! i = Some d -> server_sets s !! (own_pid, i) = Some d).

Definition valid_definitions : Prop :=
  map_Forall (fun _ d => valid_event_definition d = true) (event_kinds D) /\
  map_Forall (fun _ d => valid_counter_definition d = true) (counter_sets D).

Lemma defining_agreed b s s' :
  known b -> defining (b_event_kinds b) (b_counter_sets b) s s' -> agreed s -> agreed s'.
Proof.
  intros (_ & _ & _ & Hk & Hc) [_ A2 _ _ A5 _ _] [B1 B2]. rewrite Forall_forall in Hk. rewrite Forall_forall in Hc. split.
  - intros i d x Hd Hx. destruct (A2 _ _ Hx) as [H|[H [= ->]]]; [by eapply B1|].
    destruct (Hk x H) as [Hn|Hn]; [congruence|]. unfold defines_kind in Hn. congruence.
  - intros i d x Hd Hx. destruct (A5 _ _ Hx) as [H|[H [= ->]]]; [by eapply B2|].
    destruct (Hc x H) as [Hn|Hn]; [congruence|]. unfold defines_set in Hn. congruence.
Qed.

Lemma defining_holding b s s' :
  keyed -> valid_definitions -> defining (b_event_kinds b) (b_counter_sets b) s s' -> agreed s' ->
  holding s \/ covers b -> holding s'.
Proof.
  intros [Hk Hs] [Vk Vs] [A1 _ A3 A4 _ A6 _] [B1 B2] [[C1 C2]|[C1 C2]]; split; intros i d Hd; eauto.
  - destruct (A3 d (C1 i d Hd) (Vk i d Hd)) as [x Hx]. rewrite (Hk i d Hd) in Hx. by rewrite (B1 i d x Hd Hx) in Hx.
  - destruct (A6 d (C2 i d Hd) (Vs i d Hd)) as [x Hx]. rewrite (Hs i d Hd) in Hx. by rewrite (B2 i d x Hd Hx) in Hx.
Qed.

(** Samples leave the definitions alone, and known ones are not counted. *)
Definition same_definitions (s s' : ObservabilityStore) : Prop :=
  server_kinds s' = server_kinds s /\ server_sets s' = server_sets s.

Lemma ingest_event_known start last s bounds e :
  let s' := (ingest_event own_pid start last (s, bounds) e).1 in
  same_definitions s s' /\ (is_Some (server_kinds s !! (own_pid, ev_kind_id e)) -> unknown s' = unknown s).
Proof.
  unfold ingest_event. destruct (server_kinds s !! _) as [x|]; [|by split; [|intros []%is_Some_None]].
  repeat case_match; by split.
Qed.

Lemma ingest_sample_known start last s bounds x :
  let s' := (ingest_counter_sample own_pid start last (s, bounds) x).1 in
  same_definitions s s' /\ (is_Some (server_sets s !! (own_pid, cm_counter_set_id x)) -> unknown s' = unknown s).
Proof.
  unfold ingest_counter_sample. destruct (server_sets s !! _) as [d|]; [|by split; [|intros []%is_Some_None]].
  assert (forall s0 l, let s1 := foldl (fun st '(index, value) =>
           if regressed s0 d x index value
           then st <| diagnostics ::= fun d => d <| monotonic_regressions ::= count1 |> |>
           else st) s l in same_definitions s s1 /\ unknown s1 = unknown s) as Hm.
  { intros s0 l. induction l as [|[i v] l IH] using rev_ind; [done|]. rewrite foldl_app. cbn [foldl].
    destruct (regressed s0 d x i v); [|exact IH]. destruct IH as [[I1 I2] I3]. by repeat split. }
  case_decide; [by split|]. destruct (invalid_tid _ _ _); [by split|]. destruct (sample_timestamp x); [|by split].
  destruct (invalid_timestamp _ _ _); [by split|]. destruct (Hm s (imap pair (cm_values x))) as [[M1 M2] M3].
  fold (check_monotonic_regression d x s) in M1, M2, M3. destruct (push_evicting _ _ _). by split.
Qed.


Lemma ingest_samples_known b start last s :
  b_pid b = own_pid ->
  let s' := (ingest_samples b start last s).1 in
  same_definitions s s' /\ (holding s -> known b -> unknown s' = unknown s).
Proof.
  intros Hp. unfold ingest_samples. rewrite Hp.
  assert (forall l, let a := foldl (ingest_event own_pid start last) (s, None) l in
    same_definitions s a.1 /\ (Forall (fun e => is_Some (server_kinds s !! (own_pid, ev_kind_id e))) l -> unknown a.1 = unknown s)) as He.
  { intros l. induction l as [|e l IH] using rev_ind; [done|]. rewrite foldl_app. cbn [foldl].
    destruct (foldl _ (s, None) l) as [s1 bounds]. destruct IH as [[I1 I2] I3].
    destruct (ingest_event_known start last s1 bounds e) as [[J1 J2] J3]. cbn [fst] in *.
    split; [split; congruence|]. intros [Hl [He _]%Forall_cons]%Forall_app. rewrite J3, I3; [done..|]. by rewrite I1. }
  assert (forall a l, let a' := foldl (ingest_counter_sample own_pid start last) a l in
    same_definitions a.1 a'.1 /\ (Forall (fun x => is_Some (server_sets a.1 !! (own_pid, cm_counter_set_id x))) l -> unknown a'.1 = unknown a.1)) as Hx.
  { intros a l. induction l as [|x l IH] using rev_ind; [done|]. rewrite foldl_app. cbn [foldl].
    destruct (foldl _ a l) as [s1 bounds]. destruct IH as [[I1 I2] I3].
    destruct (ingest_sample_known start last s1 bounds x) as [[J1 J2] J3]. cbn [fst] in *.
    split; [split; congruence|]. intros [Hl [Hxx _]%Forall_cons]%Forall_app. rewrite J3, I3; [done..|]. by rewrite I2. }
  specialize (He (b_events b)). set (a := foldl _ (s, None) _) in *. destruct He as [[E1 E2] E3].
  destruct (Hx a (b_counter_samples b)) as [[X1 X2] X3]. cbn zeta. split; [split; congruence|].
  intros [H1 H2] (_ & Hk & Hs & _). rewrite X3, E3; [done| |].
  - eapply Forall_impl; [exact Hk|]. cbn. intros e [d Hd]. rewrite (H1 _ _ Hd). by exists d.
  - eapply Forall_impl; [exact Hs|]. cbn. intros x [d Hd]. rewrite E2, (H2 _ _ Hd). by exists d.
Qed.

Lemma ingest_known b start last s :
  keyed -> valid_definitions -> known b -> agreed s -> (carries b = true -> holding s) ->
  let s' := (Observability.Observability.ingest b start last s).1 in
  agreed s' /\ unknown s' = unknown s /\ (holding s \/ covers b -> holding s').
Proof.
  intros Hkeyed Hval Hk Ha Hc. unfold Observability.Observability.ingest. pose proof Hk as (Hp & _).
  pose proof (defining_batch b s Hp) as Hdef. set (s1 := ingest_definitions b _) in *.
  pose proof (defining_agreed b s s1 Hk Hdef Ha) as Ha1.
  pose proof (fun H => defining_holding b s s1 Hkeyed Hval Hdef Ha1 H) as Hh1.
  destruct (ingest_samples_known b start last s1 Hp) as [[S1 S2] S3]. destruct (ingest_samples b start last s1) as [s2 bounds] eqn:E.
  cbn [fst] in *. unfold sort_samples, agreed, holding, unknown. cbn. rewrite S1, S2. split; [exact Ha1|]. split; [|exact Hh1].
  fold (unknown s2). fold (unknown s). rewrite <- (unknown_same _ _ _ _ Hdef). destruct (carries b) eqn:Hcar.
  - apply S3; [|done]. apply Hh1. left. by apply Hc.
  - unfold carries in Hcar. apply negb_false_iff, andb_true_iff in Hcar as [He Hs]. apply bool_decide_eq_true in He, Hs.
    unfold ingest_samples in E. rewrite He, Hs in E. cbn in E. by injection E as <- _.
Qed.

(** The calls that define everything are answered. *)
Definition definitions_answered (l : list Call) : Prop :=
  Forall (fun c => match c with SendSignals b r => covers b -> exists u, r = Answered u | _ => True end) l.

Lemma left_over_opened l c : left_over (l ++ [c]) = false -> left_over l = false /\ (call_carries c = true -> opened l).
Proof.
  unfold opened. induction l as [|x l IH]; cbn.
  - destruct c as [pid [[|]| |]| | |b r]; cbn; try done. rewrite orb_false_r. by intros ->.
  - destruct (opens x) eqn:Ho; [intros _; split; [done|intros _; by left]|].
    intros [-> Hl]%orb_false_iff. destruct (IH Hl) as [-> IH']. split; [done|]. intros Hc. right. by apply IH'.
Qed.

(** Signals of the recorded program enter the store. *)
Lemma signals_enter b s :
  active_target_pid s = Some (b_pid b) -> batch_is_empty b = false ->
  exists start last,
    store (exec (ingest_signals b) s).1 = (Observability.Observability.ingest b start last (store s)).1 /\
    active_target_pid (exec (ingest_signals b) s).1 = active_target_pid s.
Proof.
  intros Ha He. unfold ingest_signals. rewrite He, exec_bind, exec_reading. cbn [fst snd]. rewrite Ha.
  rewrite decide_False by (by intros []). rewrite exec_bind, exec_reading. cbn [fst snd].
  set (start := Aggregator.Aggregator.session_start_ns _). set (last := Aggregator.Aggregator.last_event_ns _). exists start, last.
  rewrite exec_bind, exec_writing. cbn [fst snd].
  destruct (Observability.Observability.ingest b start last (store s)) as [o bounds]. by split.
Qed.

Lemma signals_known b s :
  keyed -> valid_definitions -> known b -> active_target_pid s = Some own_pid -> agreed (store s) ->
  (carries b = true -> holding (store s)) ->
  let s' := (exec (ingest_signals b) s).1 in
  active_target_pid s' = Some own_pid /\ agreed (store s') /\ unknown (store s') = unknown (store s) /\
  (holding (store s) \/ covers b -> holding (store s')).
Proof.
  intros Hkeyed Hval Hk Ha Hag Hc. pose proof Hk as (Hp & _). destruct (batch_is_empty b) eqn:He.
  - unfold ingest_signals. rewrite He. cbn. split_and!; [done..|]. intros [Hh|Hb]; [done|].
    destruct (empty_covers b Hb He) as [Hn1 Hn2]. split; intros i d; rewrite ?Hn1, ?Hn2, lookup_empty; done.
  - cbn zeta. rewrite <- Hp in Ha. destruct (signals_enter b s Ha He) as (start & last & -> & ->). rewrite Ha, Hp.
    split; [done|]. by apply ingest_known.
Qed.

Lemma recording_known before during s :
  keyed -> valid_definitions -> recording during s -> (scanned before).1 = false -> left_over during = false ->
  orderly (before ++ during) -> Forall call_known during -> definitions_answered during ->
  active_target_pid s = Some own_pid /\ agreed (store s) /\ unknown (store s) = 0 /\
  (opened during -> announced (before ++ during) = true -> holding (store s)) /\
  ((scanned (before ++ during)).1 = true -> opened during).
Proof.
  intros Hkeyed Hval Hr Hbefore.
  assert (forall l c, orderly (before ++ l ++ [c]) -> orderly (before ++ l)) as Hinit.
  { intros l c Ho l1 x l2 He Hx. eapply (Ho l1 x (l2 ++ [c])); [|done]. rewrite app_assoc, He. by rewrite <- app_assoc. }
  induction Hr as [s Hs Ha|l s b r Hr IH|l s Hr IH|l s c Hc1 Hc2 Hr IH|l s s' [Hb1 Hb2] Hr IH].
  - intros _ _ _ _. rewrite Hs, app_nil_r. split_and!; [done|by split; intros ? ? ? _ ?|done|by intros ?%Exists_nil|congruence].
  - intros [Hl Hcar]%left_over_opened Ho [Hk [Hkb _]%Forall_cons]%Forall_app [Hd _]%Forall_app.
    destruct IH as (I1 & I2 & I3 & I4 & I5); [by eauto..|].
    destruct (signals_known b s Hkeyed Hval Hkb I1 I2) as (J1 & J2 & J3 & J4).
    { intros Hcb. apply I4; [by apply Hcar|]. apply (Ho (before ++ l) (SendSignals b r) []); [by rewrite app_assoc|done|].
      unfold opened. rewrite Exists_app. right. by apply Hcar. }
    split_and!; [done..|congruence| |]; rewrite app_assoc, ?announced_snoc, ?scanned_snoc, opened_snoc; cbn.
    + intros [Hop|?]; [|done]. intros [Hl'|Hl']%orb_true_iff; apply J4; [left; by apply I4|right; by apply bool_decide_eq_true in Hl'].
    + intros ?. left. by apply I5.
  - intros [Hl _]%left_over_opened Ho [Hk _]%Forall_app [Hd _]%Forall_app.
    destruct IH as (I1 & I2 & I3 & I4 & I5); [by eauto..|].
    assert (should_report own_pid s = true) as -> by (unfold should_report; by apply bool_decide_eq_true).
    split_and!; [done..| |]; rewrite app_assoc, ?announced_snoc, ?scanned_snoc, opened_snoc; cbn; [|by right].
    intros _ Han. destruct (scanned (before ++ l)).1 eqn:Hsc; [|done]. apply I4; [by apply I5|exact Han].
  - intros [Hl _]%left_over_opened Ho [Hk _]%Forall_app [Hd [Hdc _]%Forall_cons]%Forall_app.
    destruct IH as (I1 & I2 & I3 & I4 & I5); [by eauto..|].
    split_and!; [done..| |]; rewrite app_assoc, ?announced_snoc, ?scanned_snoc, opened_snoc.
    + destruct c as [pid [a| |]|?|?|b r]; cbn; [by destruct (Hc2 pid a)|..]; (intros [Hop|?]; [|done]); try (intros; by apply I4).
      intros [Hl'|Hl']%orb_true_iff; [by apply I4|]. apply bool_decide_eq_true in Hl'. destruct (Hdc Hl') as [u ->]. by destruct (Hc1 b u).
    + destruct c as [pid [a| |]|?|?|b r]; cbn; [by destruct (Hc2 pid a)|..]; try done; intros ?; left; by apply I5.
  - intros Hl Ho Hk Hd. destruct IH as (I1 & I2 & I3 & I4 & I5); [done..|]. rewrite Hb1.
    destruct Hb2 as [->|[n ->]]; [done|]. by split_and!.
Qed.

(** C18. The server knows what it is told about, during a recording that the
    worker notices.  The program uses kinds and counter sets that it defined before
    the worker was started, whose definitions are valid and which it does not
    change, though it may define others.  Consider the calls made while the server
    records it, from a store [begin_run] has emptied to the end of the run.  If the
    worker's last poll before was not answered that the program is recorded (so
    that the next one opens the gate again), no batch with events or samples
    arrives before a poll of this recording is answered (none is left over from an
    earlier one), and the calls that define everything are answered, then no event
    and no sample that arrives is turned away for lack of a definition, whatever
    the threads of the program do, whenever the worker polls, connects or fails,
    whether or not its other calls arrive, and whatever else the server does. *)
Theorem known_to_server turns c before during after s :
  keyed -> valid_definitions -> runs allowed D turns c ->
  server c.1 = before ++ during ++ after -> recording during s ->
  (scanned before).1 = false -> left_over during = false -> definitions_answered during ->
  samples_unknown_definition (diagnostics (store s)) = 0.
Proof.
  intros Hk Hv Hr Hs Hrec Hb Hl Ha. pose proof (runs_inv turns c Hk Hr) as [_ _ _ _ Ho Hkn].
  rewrite Hs in Ho, Hkn. apply Forall_app in Hkn as [_ [Hkn _]%Forall_app].
  enough (orderly (before ++ during)) as Ho'.
  { by destruct (recording_known before during s Hk Hv Hrec Hb Hl Ho' Hkn Ha) as (_ & _ & ? & _). }
  intros l1 x l2 He Hx. eapply (Ho l1 x (l2 ++ after)); [|done]. rewrite app_assoc, He. by rewrite <- app_assoc.
Qed.

End Interleaved.

(** ** Small runs *)

Module Demo.

(** A channel that is a list, its capacity and whether it is closed. *)
#[local] Instance list_channel : Mpsc WorkerMessage.
Proof.
  refine {| chan := list WorkerMessage * nat * bool;
            channel n := ([], n, false);
            try_send m c := let '(l, n, closed) := c in
              if closed then (c, inr Closed)
              else if decide (length l < n)%nat then ((l ++ [m], n, closed), inl tt) else (c, inr Full);
            recv c := let '(l, n, closed) := c in
              match l with [] => (c, None) | m :: l => ((l, n, closed), Some m) end;
            drop_receiver c := ([], c.1.2, true);
            queued c := c.1.1; capacity c := c.1.2; closed c := c.2 |}; cbn.
  - done.
  - intros m [[l n] c]; cbn. by intros ->.
  - intros m [[l n] c]; cbn. intros -> Hn. by rewrite decide_False by lia.
  - intros m [[l n] c]; cbn. intros -> Hn. rewrite decide_True by lia. by eexists.
  - by intros [[l n] c]; cbn; intros ->.
  - intros m l [[l' n] c]; cbn. intros ->. by eexists.
  - done.
Defined.

#[local] Existing Instance canonical_order.
#[local] Existing Instance eta_World.

Definition nets : Net := mkNet (fun _ => None) (fun _ => true) 501 (fun _ => true).
Definition tick : TargetEventKindRecord := mkTargetEventKindRecord 1 "tick" None [].
Definition tock : TargetEventKindRecord := mkTargetEventKindRecord 2 "tock" None [].
Definition D : SignalDefinitions := mkSignalDefinitions {[1 := tick]} ∅ ∅.

Definition ask (definitions : Reply unit) : Turn := Poll (mkPollEnv nets (Answered true) definitions (Answered tt)).
Definition ask_no : Turn := Poll (mkPollEnv nets (Answered false) (Answered tt) (Answered tt)).
Definition take_one : Turn := Receive nets (Answered tt).
Definition emit_one (k : TargetEventKindRecord) : request := EmitAt k 100 7 None None [].

(** The worker runs until its turns are over, the program's threads when they
    arrive. *)
Definition alone (place n : nat) : list (request + nat) := repeat (inr place) n.
Definition run (turns : list Turn) (choices : list (request + nat)) :=
  schedule (handle 7) (started D, [(Work turns, handle 7 (Work turns))]) choices.
Abbreviation calls c := (server c.1).
Abbreviation ServerState := Server.ServerState.
Abbreviation store s := (Server.s_observability s).

(** A server that has just begun to record process 7, and one that gets these
    calls. *)
Definition recording_7 : ServerState :=
  Server.mkServerState (Server.mkInner (Some (Archive.Archive.mkRunSummary 1 Archive.Archive.Recording None 0 None (Some 7) "run" 0 0)) None None [])
    Aggregator.Aggregator.aggregator_default Binaries.Binaries.new store_default 1 2 Lanes.Lanes.registry_default ∅.

Definition served (l : list Call) : ServerState :=
  foldl (fun s c => match c with SendSignals b (Answered _) => (exec (ingest_signals b) s).1 | _ => s end) recording_7 l.

Definition unknown_after (l : list Call) : Z := unknown (store (served l)).

(** The worker finds no recording, then one; a tick is emitted; it takes it. *)
Definition turns : list Turn := [ask_no; ask (Answered tt); take_one].
Definition choices : list (request + nat) := alone 0 27 ++ inl (emit_one tick) :: alone 1 10 ++ alone 0 10.
Definition ticked := run turns choices.

Lemma demo_keyed : keyed D.
Proof. split; apply map_Forall_lookup; intros i d; cbn; [intros [<- <-]%lookup_singleton_Some; done|by rewrite lookup_empty]. Qed.

Lemma demo_runs : runs 7 (allowed D) D turns ticked.
Proof. apply schedule_steps. unfold choices. vm_compute. repeat split. Qed.

Lemma demo_reports : runs 7 reports D turns ticked.
Proof. apply schedule_steps. unfold choices. vm_compute. repeat split. Qed.

Lemma delivered_in_order_witness :
  length (accepted ticked.1) = 1%nat /\ delivered (calls ticked) = accepted ticked.1 /\
  exists taken, accepted ticked.1 = taken ++ in_queue ticked.1 /\ delivered (calls ticked) `sublist_of` kept taken.
Proof.
  split; [vm_compute; reflexivity|]. split; [vm_compute; reflexivity|].
  exact (proj2 (delivered_in_order 7 D turns ticked demo_reports)).
Defined.

(** The calls whose answers are those of a server that records process 7. *)
Definition truthful (c : Call) : Prop := match c with ShouldReport pid (Answered a) => pid = 7 /\ a = true | _ => True end.

Lemma served_recording l : Forall truthful l -> recording 7 l (served l).
Proof.
  intros Hl. enough (recording 7 l (served l) /\ Server.active_target_pid (served l) = Some 7) by tauto.
  induction l as [|c l IH] using rev_ind; [by split; [apply attached|]|].
  apply Forall_app in Hl as [Hl [Hc _]%Forall_cons]. destruct (IH Hl) as [Hr Ha]. unfold served in *. rewrite foldl_app. cbn [foldl].
  set (s := foldl _ _ _) in *. destruct c as [pid [a| |]|?|?|b [u| |]]; try (split; [by apply other_call|done]).
  - destruct Hc as [-> ->]. split; [|done]. replace true with (should_report 7 s); [by apply asks|].
    unfold should_report. by apply bool_decide_eq_true.
  - split; [by apply signals_arrive|]. unfold ingest_signals. destruct (batch_is_empty b); [done|].
    rewrite exec_bind, exec_reading. cbn [fst snd]. rewrite Ha. case_decide; [done|].
    rewrite exec_bind, exec_reading. cbn [fst snd]. rewrite exec_bind, exec_writing. cbn [fst snd].
    by destruct (Observability.Observability.ingest b _ _ _).
Qed.

(** The calls after the first poll are those of the recording. *)
Lemma known_to_server_witness :
  length (events (store (served (drop 1 (calls ticked))))) = 1%nat /\
  samples_unknown_definition (diagnostics (store (served (drop 1 (calls ticked))))) = 0.
Proof.
  split; [vm_compute; reflexivity|].
  apply (known_to_server 7 D turns ticked (take 1 (calls ticked)) (drop 1 (calls ticked)) [] _ demo_keyed).
  - split; apply map_Forall_lookup; intros i d; cbn; [by intros [<- <-]%lookup_singleton_Some|by rewrite lookup_empty].
  - exact demo_runs.
  - vm_compute; reflexivity.
  - apply served_recording. vm_compute. repeat constructor.
  - vm_compute; reflexivity.
  - vm_compute; reflexivity.
  - vm_compute. repeat constructor. all: intros _; eexists; reflexivity.
Defined.

(** A kind that is defined while the program is being recorded is never sent: the
    server turns its events away, whatever polls follow. *)
Example late_definition_unknown :
  unknown_after (calls (run [ask (Answered tt); ask (Answered tt); take_one]
    (alone 0 25 ++ inl (NewEventKind 2 "tock" None []) :: alone 1 5 ++ inl (emit_one tock) :: alone 2 10 ++ alone 0 60))) = 1.
Proof. vm_compute. reflexivity. Qed.

(** Definitions whose call fails are not sent again while the gate stays open. *)
Example failed_definitions_lost :
  unknown_after (calls (run [ask TimedOut; ask (Answered tt); take_one]
    (alone 0 29 ++ inl (emit_one tick) :: alone 1 10 ++ alone 0 10))) = 1.
Proof. vm_compute. reflexivity. Qed.

(** Two polls, both answered that the program is recorded; then a tick. *)
Definition twice := run [ask (Answered tt); ask (Answered tt); take_one]
  (alone 0 39 ++ inl (emit_one tick) :: alone 1 10 ++ alone 0 10).

(** A recording that ends and another that begins between the two polls: its
    server gets the calls of the second poll, and turns the tick away. *)
Example restart_unnoticed :
  (scanned D (take 3 (calls twice))).1 = true /\ unknown_after (drop 3 (calls twice)) = 1.
Proof. split; vm_compute; reflexivity. Qed.

(** A tick that is queued in one recording and arrives in the next one, before
    the poll that finds it, is turned away. *)
Definition late_tick := run [ask (Answered tt); ask_no; take_one]
  (alone 0 17 ++ inl (emit_one tick) :: alone 1 10 ++ alone 0 30).

Example left_over_unknown :
  (scanned D (take 4 (calls late_tick))).1 = false /\ left_over (drop 4 (calls late_tick)) = true /\
  unknown_after (drop 4 (calls late_tick)) = 1.
Proof. split_and!; vm_compute; reflexivity. Qed.

End Demo.

End Latch.
